(* ===== verification/_CoqProject ===== *)
-Q . S2P
Prelude.v
GoValues.v
Sandbox.v
KContext.v
GovernToken.v
TimerTask.v
Propose.v
QCTree.v
Smr.v
LruCache.v
Sha256.v
LedgerHash.v
Ledger.v
XModel.v
Utxo.v
SpinLock.v
State.v
StateSpec.v
Mempool.v
MempoolGraph.v
MempoolSpec.v
MempoolConfirm.v
MempoolFind.v
MempoolPut.v
MempoolRange.v
MempoolCases.v
Acl.v
AclSpec.v
AclContract.v
AclIndex.v
AclCases.v
TxHash.v
TxVerify.v
TxVerifySpec.v
TxVerifyBlock.v
TxVerifyCases.v
Consensus.v
Tdpos.v
TdposSlots.v
TdposElect.v
TdposSpec.v
TdposCases.v
TdposContract.v
TdposBallots.v
Xpoa.v
XpoaContract.v
XpoaSpec.v
XpoaEdit.v
XpoaCases.v
Pluggable.v
PluggableSpec.v
Single.v
Pow.v
PowSpec.v
PluggableCases.v
NetEvent.v
Miner.v
MinerQuorum.v
