(* ===== verification/Prelude.v ===== *)
(** * Verification of xupercore

    xupercore is the core of a blockchain node.  A node keeps a ledger of
    blocks (a tree with one trunk), runs contracts against the state below the
    tip, agrees on blocks with other nodes through a pluggable consensus, and
    governs itself by kernel contracts.  This library models the parts that
    carry that logic as executable functions, from the Go sources under
    [src/], and proves what makes them correct.  Go names are kept.

    ** The parts and where they are

    - [Prelude]: results of Go functions (value, error, panic), stateful code
      that keeps its writes on every exit, 64-bit and 32-bit integers with
      wrap-around, tactics, the hint database [xuper], sums over maps and lists.
    - [GoValues]: decimal printing and parsing of big integers, JSON documents
      as contracts store them, the byte order on strings, base64, splitting of
      paths, and [MapOrder], the order in which Go iterates over a map: code
      whose result could depend on it takes that order as a parameter, and its
      theorems hold for every order.
    - [Sandbox] ([kernel/contract/sandbox]): the cache a contract runs against.
      [XMCache] keeps what was read and what was written; a range read merges
      three sorted sources.
    - [KContext] ([kernel/contract/resource.go], [manager], [kernel],
      [bridge]): resource limits, the registry of kernel methods, the context of
      a call and the call from one contract to another.  The class
      [StateSandboxLaws] is what contracts are promised by the cache; the
      contracts below are verified against it and [XMCache] implements it.
    - [GovernToken], [TimerTask], [Propose] ([kernel/contract/proposal]): the
      three governance contracts, which call each other through [ContractCall].
    - [QCTree] and [Smr] ([kernel/consensus/base/driver/chained-bft]): the tree
      of quorum certificates, the safety rules, the pacemaker and the replica.
    - [LruCache] ([lib/cache]), [Sha256] ([lib/crypto/hash]).
    - [LedgerHash] and [Ledger] ([bcs/ledger/xledger/ledger]): Merkle trees,
      block identifiers, formatting and verifying blocks; confirming blocks,
      switching the trunk, queries, the way between two tips, truncation.
    - [XModel] ([bcs/ledger/xledger/state/xmodel]): the versioned key-value
      state below the sandbox, with its batches and caches; it implements the
      reader interface of [Sandbox] and looks transactions up in [Ledger].
    - [Utxo] ([state/utxo]): the unspent outputs with their caches, the choice
      of outputs for a payment, the sandbox of a contract's transfers.
    - [SpinLock] ([state/utxo/spin_lock.go]): the locks transactions take before
      they are posted, as functions and as interleaved atomic actions.
    - [State] ([state/state.go], the irreversible height of [state/meta]): every
      handler of blocks and transactions, the walk between two blocks, recovery;
      [StateSpec] has its theorems.  [State] plays blocks of [Ledger] on [Utxo]
      and [XModel] under the locks of [SpinLock], and uses the pool of
      unconfirmed transactions through the class [MempoolOps].
    - [Mempool] ([bcs/ledger/xledger/tx]): that pool, a graph of nodes on a heap
      (a node is shared by its parents and children and by four tables).
      [MempoolGraph] has the invariant of the graph, [MempoolSpec] deletion,
      [MempoolConfirm] confirmation, [MempoolFind] conflicts, [MempoolPut]
      insertion, [MempoolRange] the order in which the miner reads the pool,
      [MempoolCases] the witnesses and single cases.
    - [Acl] ([kernel/permission/acl/ptree], [rule], [utils]): permission trees
      and the rules they are validated by, against the class [AclManager];
      [AclSpec] has their meaning.  [AclContract] ([acl/contract.go],
      [ak_2_account.go], [manager.go]): the account contract on the context of
      [KContext], and the manager, an instance of [AclManager]; [AclIndex] has
      its invariant, [AclCases] the cases.
    - [TxHash] ([state/utxo/txhash]): the bytes a transaction is identified and
      signed by, in both layouts.
    - [TxVerify] ([state/tx_verification.go], [reserved_contract.go],
      [tx/topsort.go], [xmodel/dbutils.go]): the checks of a transaction and of
      a block: hash, size, signatures, owners of outputs, permissions, the run
      of its contracts in a [Sandbox] over its read set.  It calls [Acl],
      [TxHash], [XModel] and [Ledger]; signatures and contract runs are the
      classes [Crypto] and [ContractManager].  [TxVerifySpec] has what an
      accepted transaction is, [TxVerifyBlock] blocks and write sets,
      [TxVerifyCases] the witnesses and cases.
    - [Consensus] ([kernel/consensus/base/common], [state/block.go], [initBFT] of
      the plugins): what the consensus plugins share: the ledger as they see it
      ([LedgerRely]), the view of a block, certificates in their old and new form,
      the start of a replica of [Smr] from the ledger.
    - [Tdpos] ([bcs/consensus/tdpos]: [common.go], [schedule.go], [tdpos.go]): the
      schedule of terms and slots, the election by ballots, the handlers of a
      miner.  [TdposSlots] has the schedule, [TdposElect] the election and the
      search for the end of a term, [TdposSpec] acceptance of blocks.
      [TdposContract] ([kernel_contract.go]) has nominations, votes and their
      revocation, on the context of [KContext] and the locks of [GovernToken];
      [TdposBallots] shows they stay balanced.  [TdposCases]: witnesses, cases.
    - [Xpoa] and [XpoaContract] ([bcs/consensus/xpoa]): the same for proof of
      authority; [XpoaSpec] has its slots and acceptance, [XpoaEdit] the editing
      of its producers, [XpoaCases] the witnesses and cases.
    - [Pluggable] ([kernel/consensus]: [pluggable_consensus.go],
      [step_consensus.go], [consensus_factory.go]): the list of consensus
      instances and its upgrades, over the class [ConsensusImpl];
      [PluggableSpec] has its theorems against [ConsensusImplLaws].
    - [Single] and [Pow] ([bcs/consensus/single], [pow]): two plugins, instances
      of [ConsensusImpl]; [PowSpec] has compact targets, mining and the
      adjustment of the difficulty, [PluggableCases] the witnesses of all three.
    - [NetEvent] ([kernel/engines/xuperos/net], [reader], [SubmitTx] of [chain.go]):
      what a node answers its peers, and transactions it is sent.
    - [Miner] ([kernel/engines/xuperos/miner], the award of [ledger/genesis.go], the
      generated transactions of [tx/tx.go]): the loop of a node: packing and
      confirming its own blocks on [State] and [Ledger], downloading those of others
      and handling forks.  Consensus is the class [ConsensusInterface], the network,
      the clock and the caches of faulty peers the class [Environment].
      [MinerQuorum] has the choice among the answers of the peers.

    ** State and effects

    Code that changes state has type [M S A]: from a state to an outcome and a
    state.  An error or a panic keeps the state reached, as in Go, so theorems
    speak about failed calls as well.  Shared objects are modelled where the
    behaviour depends on them: the ledger's header cache is filled before its
    batch is written, and a certificate of the tree is found by its id.  Loops
    that are not structural take fuel; the theorems that say such a loop ends
    give the fuel that suffices (the height of the trunk for a fork, twice that
    for the way between two tips, the distance to the root for a rollback; in the
    pool, one more than the nodes for a walk down the graph, one more than the
    sum of the open inputs for a confirmation; in a permission tree, one more
    than its nodes; the length of the interval for the search of tdpos; the
    [MAX_TRIES] of the code for mining).  The clock is a list of readings where
    code waits for it.

    ** What the theorems show

    - Ledger: confirming a block keeps every block linked to its parent, exactly
      one trunk flagged and indexed, whatever the fork; good blocks are
      accepted; the undo and todo lists of a switch are the two sides of the
      fork.  Merkle trees are the level-by-level trees, and Merkle roots and
      block identifiers commit to what they cover unless the texts hashed for
      the two collide under SHA-256.
    - Consensus: the tree keeps its shape and its pointers a chain, rounds never
      go back, votes obey the safety rules, two certificates of one validator set
      overlap by a known number of signers, votes are collected from distinct
      validators.
    - Keys: a transaction is played exactly when the versions it read are
      current, a block that was played can be rolled back, and reads never
      depend on the caches.
    - Outputs: a selection covers the amount asked for with distinct outputs the
      owner can spend; a contract's transfers conserve money.
    - Locks: however threads interleave, two transactions never hold the locks
      of one output together, and each thread ends in a bounded number of its own
      steps.
    - State machine: playing a block that spends no output twice conserves money
      up to its award, rolling a chain of such blocks back restores outputs and
      versions unless a key without a version was deleted, blocks at or below the
      irreversible height are not rolled back, and that height only grows.
    - Memory pool: insertion, deletion and confirmation keep the graph in order
      and end; deleting takes exactly the dependents along, confirming exactly
      the ancestors; conflicts are found exactly; the miner reads parents before
      children within its size limit.
    - Access control: the pass over the tree from the last node to the first
      computes the recursive verdict; an account that is identified has its rule
      met by signed keys, if no key stands inside a path; the index from keys to accounts is exact after
      any operations; rules are read back as they were stored.
    - Transactions: an identifier of the current layout commits to every signed
      field unless the two texts hashed collide under SHA-256; whoever owns what an accepted transaction
      spends has signed it or agrees by its rule; its writes are those of the
      run of its contracts; every transaction of an accepted block was checked as
      its kind asks for, or one of them relies on a mark.
    - Tdpos and xpoa: the schedule divides time into slots with one producer
      each; the election takes the candidates with most ballots, in an order that
      does not depend on the maps; what a node that entered its term in time is
      told to produce every node of the same chain accepts; ballots and pledges are always locked tokens.
    - Pluggable consensus: whatever is dropped, rolled back or restarted, the
      upgrades in storage are among those in memory, twenty blocks apart with
      growing versions; a restart makes the instances of the storage anew.
    - Proof of work and single: a mined block is accepted, compact targets are
      read back up to their precision, no mining task is closed twice; single
      accepts exactly what its miner signed.
    - Engine: at each height the block that most of the answers name is taken.
    - Contracts: a run of reads, range reads and writes can be replayed from its
      read set; the governance tokens are conserved; proposals follow their life cycle; votes count what
      they lock; timer tasks run at their height.
    - Where the code does something else than it means to, a theorem says so:
      a refused block can damage the trunk, a transfer to oneself mints, a
      transfer erases locks, locks of some accounts are never released, one
      signature can stand for a quorum, two quorums need share no honest signer,
      unchecked votes are counted, a range read before a first write is not
      replayed, a padded
      block verifies, deleted keys are selected, orphans are left behind, the
      versions of the last block shadow the tables, a deletion survives its
      roll back, a negative output makes a node panic, two writers can hold one
      key, a block found by a walk can spend an output twice, a refused block
      leaves its outputs behind, a rollback freezes an output, the pool serves a
      transaction it refused, forgets readers and panics on negative offsets, a
      key inside a path agrees without a signature (so that one signature can
      empty an account), whatever follows a transaction that relies on a marked
      one goes unchecked, as does a generated one without contract data, the old
      layout gives two transactions one identifier, a tdpos slot can be used for
      many blocks and a forged term splits nodes, anybody edits the producers of
      xpoa, an upgrade cannot be executed twice and only two instances are ever
      asked, the difficulty of proof of work skips the odd heights and compares
      seconds with milliseconds.

    ** What is not modelled

    The key-value store, the network, logging, metrics and the virtual machines
    are third-party code or input and output.  Signatures, the election of
    validators, the runs of contracts by a virtual machine, the size and decoding
    of protobuf messages and JSON decoding of network messages are parameters.
    Floating-point weights are the IEEE operations of the Standard Library; the
    JSON of the old hash layout takes strings that need no escape.
    Concurrency is represented for the key locks only: elsewhere the code holds a
    mutex around the operations modelled; the parallel runs of a block's
    transactions are taken one after the other, and the goroutine of [Pow] is a
    fold over its messages.  The readings of the clock and the table of
    registered plugins are parameters.  The constructors of the tdpos and xpoa
    plugins ([NewTdposConsensus], [NewXpoaConsensus], [Start], [Stop]) register
    handlers and start goroutines around the parts modelled; [ParseFloat] leaves
    out hexadecimal notation and digit separators, which Go accepts only in
    source-like input.  Of the engine, subscription and message loops, chain
    management and pre-execution are left out, with the transports
    ([bcs/network]), the bridge to the virtual machines, the snapshots of
    [xmodel_snapshot.go] and the statistics kept for queries: they are not
    modelled: they call the parts above, third-party services or processes. *)

From stdpp Require Import base gmap strings list numbers sorting.
From Stdlib Require Import ZArith Lia.

Set Default Proof Using "Type".

(** ** Results of a Go function

    A Go function of type [(T, error)] ends in one of three ways: it returns a
    value and a nil error, it returns a non-nil error, or it panics (a nil
    dereference, a failed type assertion, an index out of range).  Errors are
    compared by their message in the code, so an error is its message. *)
Inductive outcome (A : Type) : Type :=
| Ret (a : A)
| Err (e : string)
| Panic.
Arguments Ret {A} a.
Arguments Err {A} e.
Arguments Panic {A}.

Definition is_ret {A} (o : outcome A) : bool :=
  match o with Ret _ => true | _ => false end.

Definition outcome_bind {A B} (o : outcome A) (k : A -> outcome B) : outcome B :=
  match o with
  | Ret a => k a
  | Err e => Err e
  | Panic => Panic
  end.

(** ** Stateful code

    Code that updates a state [S]: the state it leaves behind is kept on every
    exit, an error or a panic included, because a Go function that returns an
    error does not undo the writes it already made. *)
Definition M (S A : Type) : Type := S -> outcome A * S.

Definition mpure {S A} (a : A) : M S A := fun s => (Ret a, s).
Definition mfail {S A} (e : string) : M S A := fun s => (Err e, s).
Definition mpanic {S A} : M S A := fun s => (Panic, s).

Definition mbnd {S A B} (c : M S A) (k : A -> M S B) : M S B := fun s =>
  match c s with
  | (Ret a, s') => k a s'
  | (Err e, s') => (Err e, s')
  | (Panic, s') => (Panic, s')
  end.

(** [v, err := c] where the caller inspects [err] itself. *)
Definition mtry {S A} (c : M S A) : M S (A + string) := fun s =>
  match c s with
  | (Ret a, s') => (Ret (inl a), s')
  | (Err e, s') => (Ret (inr e), s')
  | (Panic, s') => (Panic, s')
  end.

Definition mlift {S A} (o : outcome A) : M S A := fun s => (o, s).

Declare Scope go_scope.
Delimit Scope go_scope with go.
Notation "'let!' x := c 'in' k" := (mbnd c (fun x => k))
  (at level 10, x name, c at level 100, k at level 200,
   format "'let!'  x  :=  c  'in' '//' k") : go_scope.
Notation "'do!' c 'in' k" := (mbnd c (fun _ => k))
  (at level 10, c at level 100, k at level 200,
   format "'do!'  c  'in' '//' k") : go_scope.
Notation "'if!' b 'fails' e 'in' k" := (if b then mfail e else k)
  (at level 10, b at level 100, e at level 100, k at level 200,
   format "'if!'  b  'fails'  e  'in' '//' k") : go_scope.
Open Scope go_scope.

Section Monad.
Context {S A B C : Type}.

Lemma mbnd_ret (c : M S A) (k : A -> M S B) s a s' :
  c s = (Ret a, s') -> mbnd c k s = k a s'.
Proof. intros H. unfold mbnd. by rewrite H. Qed.

Lemma mbnd_pure a (k : A -> M S B) s : mbnd (mpure a) k s = k a s.
Proof. reflexivity. Qed.

Lemma mbnd_err (c : M S A) (k : A -> M S B) s e s' :
  c s = (Err e, s') -> mbnd c k s = (Err e, s').
Proof. intros H. unfold mbnd. by rewrite H. Qed.

Lemma mbnd_inv_ret (c : M S A) (k : A -> M S B) s b s' :
  mbnd c k s = (Ret b, s') ->
  exists a s1, c s = (Ret a, s1) /\ k a s1 = (Ret b, s').
Proof.
  unfold mbnd. destruct (c s) as [[a|e|] s1]; intros H; try discriminate. eauto.
Qed.

Lemma mbnd_cases (c : M S A) (k : A -> M S B) s o s' :
  mbnd c k s = (o, s') ->
  (exists a s1, c s = (Ret a, s1) /\ k a s1 = (o, s')) \/
  (exists r, c s = (r, s') /\ is_ret r = false /\ is_ret o = false).
Proof.
  unfold mbnd. destruct (c s) as [[a|e|] s1]; intros H; simplify_eq; [left|right|right]; eauto.
Qed.

Lemma mbnd_assoc (c : M S A) (k : A -> M S B) (h : B -> M S C) s :
  mbnd (mbnd c k) h s = mbnd c (fun a => mbnd (k a) h) s.
Proof. unfold mbnd. by destruct (c s) as [[]]. Qed.

Lemma mtry_inv_ret (c : M S A) s r s' :
  mtry c s = (Ret r, s') ->
  (exists a, r = inl a /\ c s = (Ret a, s')) \/
  (exists e, r = inr e /\ c s = (Err e, s')).
Proof.
  unfold mtry. destruct (c s) as [[a|e|] s1]; intros H; simplify_eq; eauto.
Qed.
End Monad.

(** ** Machine integers

    Go's [int64] and [int32] as [Z] in range, with the wrap-around of the
    arithmetic written out; [/] and [%] truncate towards zero, which is
    [Z.quot] and [Z.rem]. *)
Definition int64_min : Z := -2 ^ 63.
Definition int64_max : Z := 2 ^ 63 - 1.
Definition is_int64 (z : Z) : Prop := (int64_min <= z <= int64_max)%Z.
Definition wrap64 (z : Z) : Z := ((z + 2 ^ 63) mod 2 ^ 64 - 2 ^ 63)%Z.
Definition int32_min : Z := -2 ^ 31.
Definition int32_max : Z := 2 ^ 31 - 1.
Definition is_int32 (z : Z) : Prop := (int32_min <= z <= int32_max)%Z.
Definition wrap32 (z : Z) : Z := ((z + 2 ^ 31) mod 2 ^ 32 - 2 ^ 31)%Z.

#[global] Instance is_int64_dec z : Decision (is_int64 z).
Proof. unfold is_int64. apply _. Defined.

#[global] Instance is_int32_dec z : Decision (is_int32 z).
Proof. unfold is_int32. apply _. Defined.

Definition add64 (a b : Z) : Z := wrap64 (a + b).
Definition sub64 (a b : Z) : Z := wrap64 (a - b).
Definition mul64 (a b : Z) : Z := wrap64 (a * b).
Definition quot64 (a b : Z) : Z := wrap64 (Z.quot a b).

Lemma wrap64_range z : is_int64 (wrap64 z).
Proof.
  unfold is_int64, wrap64, int64_min, int64_max.
  pose proof (Z.mod_pos_bound (z + 2 ^ 63) (2 ^ 64) ltac:(lia)). lia.
Qed.

Lemma wrap64_id z : is_int64 z -> wrap64 z = z.
Proof.
  unfold is_int64, wrap64, int64_min, int64_max. intros H.
  rewrite Z.mod_small by lia. lia.
Qed.

Lemma wrap64_add_l a b : wrap64 (wrap64 a + b) = wrap64 (a + b).
Proof.
  unfold wrap64. f_equal.
  replace ((a + 2 ^ 63) mod 2 ^ 64 - 2 ^ 63 + b + 2 ^ 63)%Z
    with ((a + 2 ^ 63) mod 2 ^ 64 + b)%Z by lia.
  rewrite Zplus_mod_idemp_l. f_equal. lia.
Qed.

Lemma wrap32_range z : is_int32 (wrap32 z).
Proof.
  unfold is_int32, wrap32, int32_min, int32_max.
  pose proof (Z.mod_pos_bound (z + 2 ^ 31) (2 ^ 32) ltac:(lia)). lia.
Qed.

Lemma wrap32_id z : is_int32 z -> wrap32 z = z.
Proof.
  unfold is_int32, wrap32, int32_min, int32_max. intros H.
  rewrite Z.mod_small by lia. lia.
Qed.

(** ** Tactics *)

(** Split the innermost [if] or [match] on an opaque value in [H]. *)
Ltac dmatch_in H :=
  match type of H with
  | context [match ?x with _ => _ end] =>
      lazymatch x with
      | context [match _ with _ => _ end] => fail
      | _ => let E := fresh "E" in destruct x eqn:E
      end
  end.

Ltac dmatch :=
  match goal with
  | |- context [match ?x with _ => _ end] =>
      lazymatch x with
      | context [match _ with _ => _ end] => fail
      | _ => let E := fresh "E" in destruct x eqn:E
      end
  end.

(** Run a monadic computation in [H] forward, one test or call at a time,
    dropping the branches that do not return. *)
Ltac mrun_in H :=
  repeat (cbn beta iota zeta delta [mbnd mpure mfail mpanic mlift mtry fst snd] in H;
          first [ discriminate H | dmatch_in H; try discriminate H ]);
  simplify_eq H.

(** Boolean tests to propositions. *)
Ltac bool_prop :=
  repeat match goal with
  | H : (_ && _)%bool = true |- _ => apply andb_true_iff in H as [? ?]
  | H : (_ || _)%bool = false |- _ => apply orb_false_iff in H as [? ?]
  | H : negb _ = true |- _ => apply negb_true_iff in H
  | H : negb _ = false |- _ => apply negb_false_iff in H
  | H : bool_decide _ = true |- _ => apply bool_decide_eq_true in H
  | H : bool_decide _ = false |- _ => apply bool_decide_eq_false in H
  | H : (_ <? _)%Z = true |- _ => apply Z.ltb_lt in H
  | H : (_ <? _)%Z = false |- _ => apply Z.ltb_ge in H
  | H : (_ <=? _)%Z = true |- _ => apply Z.leb_le in H
  | H : (_ <=? _)%Z = false |- _ => apply Z.leb_gt in H
  | H : (_ =? _)%Z = true |- _ => apply Z.eqb_eq in H
  | H : (_ =? _)%Z = false |- _ => apply Z.eqb_neq in H
  end.

(** Show that an integer is in range, and drop the wrap-around of those that are,
    from the inside out. *)
Ltac in64 := unfold is_int64, int64_min, int64_max; lia.
Ltac unwrap64 :=
  unfold add64, sub64, mul64, quot64;
  repeat match goal with
  | |- context [wrap64 ?z] =>
      lazymatch z with context [wrap64 _] => fail | _ => rewrite (wrap64_id z) by in64 end
  end.

(** Evaluate the decided tests of a goal that are decided by computation. *)
Ltac bdec :=
  repeat match goal with
  | |- context [bool_decide ?P] =>
      first [rewrite (bool_decide_eq_true_2 P) by done
            |rewrite (bool_decide_eq_false_2 P) by done]
  end.

Create HintDb xuper.
#[export] Hint Resolve wrap64_range wrap32_range : xuper.

(** ** Sums over finite maps *)

Definition sum_map {K V} `{Countable K} (f : V -> Z) (m : gmap K V) : Z :=
  map_fold (fun _ v acc => (f v + acc)%Z) 0%Z m.

Section SumMap.
Context {K V : Type} `{Countable K} (f : V -> Z).
Implicit Types m : gmap K V.

Lemma sum_map_empty : sum_map f (∅ : gmap K V) = 0%Z.
Proof. apply map_fold_empty. Qed.

Lemma sum_map_insert_new m k v :
  m !! k = None -> sum_map f (<[k := v]> m) = (f v + sum_map f m)%Z.
Proof.
  intros Hk. unfold sum_map. rewrite map_fold_insert_L; [done | | done].
  intros. lia.
Qed.

Lemma sum_map_delete m k v :
  m !! k = Some v -> sum_map f m = (f v + sum_map f (delete k m))%Z.
Proof.
  intros Hk. rewrite <- (insert_delete_id m k v Hk) at 1.
  apply sum_map_insert_new, lookup_delete_eq.
Qed.

Lemma sum_map_insert m k v :
  sum_map f (<[k := v]> m) =
  (sum_map f m + f v - match m !! k with Some w => f w | None => 0 end)%Z.
Proof.
  destruct (m !! k) as [w|] eqn:Hk.
  - rewrite (sum_map_delete _ _ _ Hk).
    rewrite <- (insert_delete_eq m k v).
    rewrite sum_map_insert_new by apply lookup_delete_eq. lia.
  - rewrite sum_map_insert_new by done. lia.
Qed.

Lemma sum_map_nonneg m :
  map_Forall (fun _ v => 0 <= f v)%Z m -> (0 <= sum_map f m)%Z.
Proof.
  induction m as [|k v m Hk IH] using map_ind; intros Hm.
  - rewrite sum_map_empty. lia.
  - apply map_Forall_insert_1_1 in Hm as Hv.
    apply map_Forall_insert_1_2 in Hm; [|done].
    rewrite sum_map_insert_new by done. specialize (IH Hm). lia.
Qed.
End SumMap.

(** ** Sums over lists *)

Definition zsum {A} (f : A -> Z) (l : list A) : Z := foldr (fun a acc => (f a + acc)%Z) 0%Z l.

Section ZSum.
Context {A : Type} `{EqDecision A}.
Implicit Types f g : A -> Z.

Lemma zsum_cons f a l : zsum f (a :: l) = (f a + zsum f l)%Z.
Proof. reflexivity. Qed.

Lemma zsum_ext f g l : (forall a, a ∈ l -> f a = g a) -> zsum f l = zsum g l.
Proof.
  induction l as [|x l IH]; intros Hfg; [done|]. rewrite !zsum_cons, Hfg by left.
  rewrite IH; [done|]. intros a Ha. apply Hfg. by right.
Qed.

Lemma zsum_app f l1 l2 : zsum f (l1 ++ l2) = (zsum f l1 + zsum f l2)%Z.
Proof. induction l1 as [|x l1 IH]; [done|]. rewrite <- app_comm_cons, !zsum_cons, IH. lia. Qed.

Lemma zsum_nonneg f l : (forall a, a ∈ l -> (0 <= f a)%Z) -> (0 <= zsum f l)%Z.
Proof.
  induction l as [|x l IH]; intros Hf; [done|]. rewrite zsum_cons.
  pose proof (Hf x ltac:(left)). assert (0 <= zsum f l)%Z; [|lia]. apply IH. intros a Ha. apply Hf. by right.
Qed.

(** Changing the value at one element of a list without repetition. *)
Lemma zsum_update f l a v :
  NoDup l -> a ∈ l ->
  zsum (fun x => if decide (x = a) then v else f x) l = (zsum f l - f a + v)%Z.
Proof.
  induction 1 as [|x l Hx Hl IH]; intros Ha; [by apply not_elem_of_nil in Ha|].
  rewrite !zsum_cons. apply elem_of_cons in Ha as [->|Ha].
  - rewrite decide_True by done. rewrite (zsum_ext (fun y => if decide (y = x) then v else f y) f); [lia|].
    intros y Hy. rewrite decide_False; [done|]. by intros ->.
  - rewrite decide_False by (by intros ->). rewrite IH by done. lia.
Qed.
End ZSum.

(** ** Lists *)

Lemma drop_cons {A} n (l : list A) x r : drop n l = x :: r -> l !! n = Some x /\ drop (S n) l = r.
Proof.
  intros H. split; [replace n with (n + 0)%nat by lia; by rewrite <- lookup_drop, H|].
  replace (S n) with (n + 1)%nat by lia. by rewrite <- drop_drop, H.
Qed.
