(* ===== verification/GoValues.v ===== *)
(** * Go values the components exchange

    Byte slices, [encoding/json] documents, [math/big] decimal strings and
    [strconv], as far as the modelled code uses them.

    A byte slice is a [blob].  The contract stores keep two kinds of bytes: the
    text of a JSON object, written by [json.Marshal] of a struct or a map, and
    every other text (decimal numbers, flags, addresses).  [Doc] is the first,
    kept as its syntax tree, [Raw] the second: a [Raw] is never the text of a
    JSON object, so [json.Unmarshal] of it into a struct or a map fails (the
    text [null] apart, which leaves the target unchanged), and the text of a
    [Doc] starts with a brace, so it is never a number. *)

From stdpp Require Import base gmap strings list numbers sorting.
From Stdlib Require Import ZArith Lia Ascii.
From S2P Require Import Prelude.

Set Default Proof Using "Type".

#[warnings="-register-all"] Inductive json : Type :=
| JNull
| JBool (b : bool)
| JNum (n : Z)
| JDec (m : Z) (k : nat) (* the number [m / 10^k], not an integer *)
| JStr (s : string)
| JArr (l : list json)
| JObj (l : list (string * json)).

Inductive blob : Type :=
| Raw (s : string)
| Doc (fields : list (string * json)).

(** The member [k] of an object: [encoding/json] keeps the last of several. *)
Fixpoint obj_get (k : string) (l : list (string * json)) : option json :=
  match l with
  | [] => None
  | (k', v) :: l' =>
      match obj_get k l' with
      | Some w => Some w
      | None => if bool_decide (k = k') then Some v else None
      end
  end.

(** [string(b)]: the text of a slice, [None] for the text of a JSON object. *)
Definition blob_text (b : blob) : option string :=
  match b with
  | Raw s => Some s
  | Doc _ => None
  end.

Definition is_empty_string (s : string) : bool :=
  match s with EmptyString => true | _ => false end.

(** ** Decimal numbers *)

Definition digit_value (c : ascii) : option Z :=
  let n := Z.of_nat (nat_of_ascii c) in
  if ((48 <=? n) && (n <=? 57))%Z then Some (n - 48)%Z else None.

Definition digit_char (d : Z) : ascii := ascii_of_nat (Z.to_nat (48 + d)).

(** Reads digits as long as there are some: the number read so far, and the
    rest of the text. *)
Fixpoint scan_digits (acc : Z) (s : string) : Z * string :=
  match s with
  | EmptyString => (acc, EmptyString)
  | String c s' =>
      match digit_value c with
      | Some d => scan_digits (acc * 10 + d) s'
      | None => (acc, s)
      end
  end.

Definition has_digit (s : string) : bool :=
  match s with
  | String c _ => match digit_value c with Some _ => true | None => false end
  | EmptyString => false
  end.

Definition split_sign (s : string) : bool * string :=
  match s with
  | String "-" s' => (true, s')
  | String "+" s' => (false, s')
  | _ => (false, s)
  end.

(** [z.SetString(s, 10)] of [math/big]: the value left in [z] and the [ok]
    flag.  It fails when no digit follows the sign, and when text is left
    over; in the second case [z] holds the number read before that text. *)
Definition SetString (s : string) : Z * bool :=
  let (neg, body) := split_sign s in
  if has_digit body then
    let (v, rest) := scan_digits 0 body in
    ((if neg then (- v)%Z else v), is_empty_string rest)
  else (0%Z, false).

(** [SetString(string(b), 10)]. *)
Definition blob_SetString (b : blob) : Z * bool :=
  match b with
  | Raw s => SetString s
  | Doc _ => (0%Z, false)
  end.

Fixpoint print_digits (fuel : nat) (n : Z) (acc : string) : string :=
  match fuel with
  | O => acc
  | S fuel =>
      let acc' := String (digit_char (n mod 10)) acc in
      if (n <? 10)%Z then acc' else print_digits fuel (n / 10) acc'
  end.

Definition digit_fuel (n : Z) : nat := S (Z.to_nat (Z.log2 n)).

(** [z.String()] of [math/big], [strconv.FormatInt(z, 10)] and [%d] of [fmt]. *)
Definition bigString (z : Z) : string :=
  if (z <? 0)%Z then String "-" (print_digits (digit_fuel (- z)) (- z) "")
  else print_digits (digit_fuel z) z "".

(** [strconv.ParseInt(s, 10, 64)], [None] for an error. *)
Definition ParseInt64 (s : string) : option Z :=
  let (v, ok) := SetString s in
  if ok && bool_decide (is_int64 v) then Some v else None.

Section Decimal.
Lemma digit_value_char d : (0 <= d < 10)%Z -> digit_value (digit_char d) = Some d.
Proof.
  intros Hd. assert (d = 0 \/ d = 1 \/ d = 2 \/ d = 3 \/ d = 4 \/ d = 5 \/ d = 6 \/
    d = 7 \/ d = 8 \/ d = 9)%Z as Hc by lia.
  repeat destruct Hc as [->|Hc]; try (rewrite Hc); reflexivity.
Qed.

Lemma log2_div10 n : (10 <= n)%Z -> (Z.log2 (n / 10) < Z.log2 n)%Z.
Proof.
  intros Hn. apply Z.log2_lt_pow2; [apply Z.div_str_pos; lia|].
  pose proof (Z.log2_spec n ltac:(lia)) as [_ Hlt].
  rewrite Z.pow_succ_r in Hlt by apply Z.log2_nonneg.
  apply Z.div_lt_upper_bound; lia.
Qed.

Lemma scan_print_digits fuel n acc :
  (0 <= n)%Z -> (Z.log2 n < Z.of_nat fuel)%Z ->
  scan_digits 0 (print_digits fuel n acc) = scan_digits n acc.
Proof.
  revert n acc. induction fuel as [|fuel IH]; intros n acc Hn Hf.
  - pose proof (Z.log2_nonneg n). lia.
  - cbn [print_digits].
    pose proof (Z.mod_pos_bound n 10 ltac:(lia)) as Hm.
    destruct (Z.ltb_spec n 10) as [Hlt|Hge].
    + cbn [scan_digits]. rewrite digit_value_char by lia.
      rewrite Z.mod_small by lia. f_equal.
    + rewrite IH.
      * cbn [scan_digits]. rewrite digit_value_char by lia. f_equal.
        pose proof (Z.div_mod n 10 ltac:(lia)). lia.
      * apply Z.div_pos; lia.
      * pose proof (log2_div10 n ltac:(lia)). lia.
Qed.

Lemma print_digits_head fuel n acc :
  (0 <= n)%Z -> (0 < fuel)%nat ->
  exists d s, print_digits fuel n acc = String (digit_char d) s /\ (0 <= d < 10)%Z.
Proof.
  revert n acc. induction fuel as [|fuel IH]; intros n acc Hn Hf; [lia|].
  cbn [print_digits].
  pose proof (Z.mod_pos_bound n 10 ltac:(lia)) as Hm.
  destruct (Z.ltb_spec n 10) as [Hlt|Hge]; [by eauto|].
  destruct fuel as [|fuel]; [by cbn; eauto|].
  apply IH; [apply Z.div_pos; lia | lia].
Qed.

Lemma has_digit_print fuel n acc :
  (0 <= n)%Z -> (0 < fuel)%nat -> has_digit (print_digits fuel n acc) = true.
Proof.
  intros Hn Hf. destruct (print_digits_head fuel n acc Hn Hf) as (d & s & -> & Hd).
  cbn. by rewrite digit_value_char.
Qed.

Lemma split_sign_print fuel n acc :
  (0 <= n)%Z -> (0 < fuel)%nat ->
  split_sign (print_digits fuel n acc) = (false, print_digits fuel n acc).
Proof.
  intros Hn Hf. destruct (print_digits_head fuel n acc Hn Hf) as (d & s & -> & Hd).
  assert (d = 0 \/ d = 1 \/ d = 2 \/ d = 3 \/ d = 4 \/ d = 5 \/ d = 6 \/
    d = 7 \/ d = 8 \/ d = 9)%Z as Hc by lia.
  repeat destruct Hc as [->|Hc]; try (rewrite Hc); reflexivity.
Qed.

Lemma digit_fuel_ok n : (Z.log2 n < Z.of_nat (digit_fuel n))%Z.
Proof. unfold digit_fuel. pose proof (Z.log2_nonneg n). lia. Qed.

Lemma SetString_bigString z : SetString (bigString z) = (z, true).
Proof.
  unfold SetString, bigString. destruct (Z.ltb_spec z 0) as [Hz|Hz].
  - cbn [split_sign]. rewrite has_digit_print by (unfold digit_fuel; lia).
    rewrite scan_print_digits; [|lia|apply digit_fuel_ok].
    cbn. f_equal. lia.
  - rewrite split_sign_print by (unfold digit_fuel; lia).
    rewrite has_digit_print by (unfold digit_fuel; lia).
    rewrite scan_print_digits; [|lia|apply digit_fuel_ok]. reflexivity.
Qed.

#[global] Instance bigString_inj : Inj (=) (=) bigString.
Proof.
  intros a b Hab. pose proof (SetString_bigString a) as Ha.
  rewrite Hab, SetString_bigString in Ha. congruence.
Qed.

Lemma ParseInt64_bigString z : is_int64 z -> ParseInt64 (bigString z) = Some z.
Proof.
  intros Hz. unfold ParseInt64. rewrite SetString_bigString.
  by rewrite bool_decide_eq_true_2.
Qed.

Lemma ParseInt64_range s z : ParseInt64 s = Some z -> is_int64 z.
Proof.
  unfold ParseInt64. destruct (SetString s) as [v ok]. intros H.
  destruct (ok && _) eqn:E; simplify_eq. bool_prop. done.
Qed.
End Decimal.

(** ** Byte-string order: [bytes.Compare] *)

Definition str_lt (a b : string) : Prop := String.compare a b = Lt.
Definition str_le (a b : string) : Prop := String.compare a b <> Gt.

#[global] Instance str_lt_dec : RelDecision str_lt.
Proof. intros a b. unfold str_lt. apply _. Defined.
#[global] Instance str_le_dec : RelDecision str_le.
Proof. intros a b. unfold str_le. apply _. Defined.

Section StringOrder.
Lemma ascii_compare_refl a : Ascii.compare a a = Eq.
Proof. unfold Ascii.compare. apply N.compare_refl. Qed.

Lemma ascii_compare_trans a b c :
  Ascii.compare a b = Lt -> Ascii.compare b c = Lt -> Ascii.compare a c = Lt.
Proof. unfold Ascii.compare. rewrite !N.compare_lt_iff. lia. Qed.

Lemma string_compare_refl s : String.compare s s = Eq.
Proof.
  induction s as [|a s IH]; cbn [String.compare]; [done|]. by rewrite ascii_compare_refl.
Qed.

Lemma string_compare_eq a b : String.compare a b = Eq <-> a = b.
Proof.
  split; [apply String.compare_eq_iff|]. intros ->. apply string_compare_refl.
Qed.

Lemma str_lt_trans a b c : str_lt a b -> str_lt b c -> str_lt a c.
Proof.
  unfold str_lt. revert b c.
  induction a as [|x a IH]; intros [|y b] [|z c]; cbn; try done.
  destruct (Ascii.compare x y) eqn:E1, (Ascii.compare y z) eqn:E2; try done; intros H1 H2.
  - apply Ascii.compare_eq_iff in E1 as ->. apply Ascii.compare_eq_iff in E2 as ->.
    rewrite ascii_compare_refl. eauto.
  - apply Ascii.compare_eq_iff in E1 as ->. by rewrite E2.
  - apply Ascii.compare_eq_iff in E2 as <-. by rewrite E1.
  - by rewrite (ascii_compare_trans _ _ _ E1 E2).
Qed.

Lemma str_lt_irrefl a : ~ str_lt a a.
Proof. unfold str_lt. by rewrite string_compare_refl. Qed.

Lemma str_lt_gt a b : String.compare a b = Gt <-> str_lt b a.
Proof.
  unfold str_lt. rewrite (String.compare_antisym a b).
  destruct (String.compare b a); cbn; split; congruence.
Qed.

Lemma str_le_lt_eq a b : str_le a b <-> str_lt a b \/ a = b.
Proof.
  unfold str_le, str_lt. rewrite <- (string_compare_eq a b).
  destruct (String.compare a b); intuition congruence.
Qed.

Lemma str_le_lt_trans a b c : str_le a b -> str_lt b c -> str_lt a c.
Proof. intros [H| ->]%str_le_lt_eq; eauto using str_lt_trans. Qed.

Lemma str_lt_le_trans a b c : str_lt a b -> str_le b c -> str_lt a c.
Proof. intros H [H'| <-]%str_le_lt_eq; eauto using str_lt_trans. Qed.

Lemma str_le_trans a b c : str_le a b -> str_le b c -> str_le a c.
Proof. intros H [H'| <-]%str_le_lt_eq; [|done]. apply str_le_lt_eq. eauto using str_le_lt_trans. Qed.

Lemma app_String c (p a : string) : String c p +:+ a = String c (p +:+ a).
Proof. reflexivity. Qed.

Lemma app_EmptyString (a : string) : "" +:+ a = a.
Proof. reflexivity. Qed.

Lemma string_app_assoc (a b c : string) : a +:+ (b +:+ c) = (a +:+ b) +:+ c.
Proof. induction a as [|x a IH]; [done|]. rewrite !app_String. by rewrite IH. Qed.

Lemma string_length_app (a b : string) : String.length (a +:+ b) = (String.length a + String.length b)%nat.
Proof. induction a as [|x a IH]; [done|]. rewrite app_String. cbn. by rewrite IH. Qed.

(** Two texts with a common prefix compare as what follows it. *)
Lemma string_compare_app p a b :
  String.compare (p +:+ a) (p +:+ b) = String.compare a b.
Proof.
  induction p as [|x p IH]; [done|].
  rewrite !app_String. cbn [String.compare]. by rewrite ascii_compare_refl.
Qed.

(** A text between two texts with a common prefix has that prefix. *)
Lemma string_between_prefix p a b x :
  str_le (p +:+ a) x -> str_lt x (p +:+ b) -> exists y, x = p +:+ y.
Proof.
  unfold str_le, str_lt. revert x.
  induction p as [|c p IH]; intros x H1 H2; [by exists x|].
  destruct x as [|d x]; [by rewrite app_String in H1|].
  rewrite app_String in H1, H2. cbn [String.compare] in H1, H2.
  rewrite Ascii.compare_antisym in H2.
  destruct (Ascii.compare c d) eqn:E; cbn in H2; try done.
  apply Ascii.compare_eq_iff in E as ->.
  destruct (IH x H1 H2) as [y ->]. by exists y.
Qed.

Lemma string_app_inj_l (p a b : string) : p +:+ a = p +:+ b -> a = b.
Proof.
  induction p as [|c p IH]; [done|]. rewrite !app_String. intros H.
  apply IH. congruence.
Qed.
End StringOrder.

(** ** Maps as JSON objects *)

(** [json.Marshal] of a map writes its keys in increasing order. *)
Definition key_le {A} (a b : string * A) : Prop := String.le a.1 b.1.
#[global] Instance key_le_dec {A} : RelDecision (@key_le A).
Proof. intros a b. unfold key_le. apply _. Defined.

Definition obj_of_map {A} (enc : A -> json) (m : gmap string A) : list (string * json) :=
  (fun kv => (kv.1, enc kv.2)) <$> merge_sort key_le (map_to_list m).

(** Decoding an object into a map that may already hold entries: the entries
    of the object are added one after the other; [None] when a member does not
    decode. *)
Fixpoint map_of_obj {A} (dec : json -> option A) (l : list (string * json))
    (m : gmap string A) : option (gmap string A) :=
  match l with
  | [] => Some m
  | (k, v) :: l' =>
      match dec v with
      | Some a => map_of_obj dec l' (<[k := a]> m)
      | None => None
      end
  end.

Section MapCodec.
Context {A : Type} (enc : A -> json) (dec : json -> option A).
Hypothesis dec_enc : forall a, dec (enc a) = Some a.

Lemma map_of_obj_fmap (l : list (string * A)) m :
  map_of_obj dec ((fun kv => (kv.1, enc kv.2)) <$> l) m =
  Some (foldl (fun m kv => <[kv.1 := kv.2]> m) m l).
Proof using dec_enc.
  revert m. induction l as [|[k a] l IH]; intros m; [done|].
  cbn. rewrite dec_enc. apply IH.
Qed.

Lemma foldl_insert_lookup (l : list (string * A)) (m : gmap string A) k :
  NoDup l.*1 ->
  foldl (fun m kv => <[kv.1 := kv.2]> m) m l !! k =
  match (list_to_map l : gmap string A) !! k with Some a => Some a | None => m !! k end.
Proof.
  revert m. induction l as [|[k' a] l IH]; intros m Hnd; [done|].
  cbn in Hnd. apply NoDup_cons in Hnd as [Hni Hnd].
  cbn. rewrite IH by done. destruct (decide (k = k')) as [->|Hne].
  - rewrite not_elem_of_list_to_map_1 by done. by simplify_map_eq.
  - by rewrite !lookup_insert_ne by done.
Qed.

Lemma map_of_obj_of_map (m m0 : gmap string A) :
  map_of_obj dec (obj_of_map enc m) m0 = Some (m ∪ m0).
Proof using dec_enc.
  unfold obj_of_map. rewrite map_of_obj_fmap. f_equal. apply map_eq. intros k.
  pose proof (merge_sort_Permutation key_le (map_to_list m)) as Hp.
  assert (NoDup (merge_sort key_le (map_to_list m)).*1) as Hnd.
  { rewrite Hp. apply NoDup_fst_map_to_list. }
  rewrite foldl_insert_lookup by done.
  rewrite (list_to_map_proper _ _ Hnd Hp), list_to_map_to_list.
  rewrite lookup_union. destruct (m !! k), (m0 !! k); reflexivity.
Qed.
End MapCodec.

(** The same when only the values of the map are known to decode. *)
Lemma map_of_obj_marshalled {A} (enc : A -> json) (dec : json -> option A) (m : gmap string A) :
  map_Forall (fun _ a => dec (enc a) = Some a) m -> map_of_obj dec (obj_of_map enc m) ∅ = Some m.
Proof.
  intros Hm. unfold obj_of_map. pose proof (merge_sort_Permutation key_le (map_to_list m)) as Hp.
  assert (Forall (fun kv => dec (enc kv.2) = Some kv.2) (merge_sort key_le (map_to_list m))) as Hf by (rewrite Hp; by apply map_Forall_to_list in Hm; eapply Forall_impl; [done|intros []]).
  assert (NoDup (merge_sort key_le (map_to_list m)).*1) as Hnd by (rewrite Hp; apply NoDup_fst_map_to_list).
  assert (forall l m0, Forall (fun kv => dec (enc kv.2) = Some kv.2) l -> map_of_obj dec ((fun kv => (kv.1, enc kv.2)) <$> l) m0 = Some (foldl (fun m kv => <[kv.1 := kv.2]> m) m0 l)) as Hl.
  { induction l as [|[k a] l IH]; intros m0 Hall; [done|]. inversion Hall as [|? ? Ha Hall']; subst. cbn in *. rewrite Ha. by apply IH. }
  rewrite Hl by done. f_equal. apply map_eq. intros k. rewrite (foldl_insert_lookup _ _ _ Hnd), (list_to_map_proper _ _ Hnd Hp), list_to_map_to_list, lookup_empty. by destruct (m !! k).
Qed.

(** A number of type [*big.Int]. *)
Definition dec_num (j : json) : option Z :=
  match j with JNum n => Some n | _ => None end.

(** A number of type [int64]. *)
Definition dec_int64 (j : json) : option Z :=
  match j with
  | JNum n => if bool_decide (is_int64 n) then Some n else None
  | _ => None
  end.

Definition dec_str (j : json) : option string :=
  match j with JStr s => Some s | _ => None end.

(** Members of a struct: absent or null leaves the field, a value of another
    JSON type is an error. *)
Definition field_str (k : string) (l : list (string * json)) (init : string) : option string :=
  match obj_get k l with
  | None | Some JNull => Some init
  | Some j => dec_str j
  end.

Definition field_int64 (k : string) (l : list (string * json)) (init : Z) : option Z :=
  match obj_get k l with
  | None | Some JNull => Some init
  | Some j => dec_int64 j
  end.

(** Pointers, maps and slices; null is nil. *)
Definition field {A} (dec : json -> option A) (k : string) (l : list (string * json)) (init : A) : option A :=
  match obj_get k l with None => Some init | Some j => dec j end.

Definition dec_pointer {A} (dec : list (string * json) -> option A) (j : json) : option (option A) :=
  match j with JNull => Some None | JObj l => Some <$> dec l | _ => None end.
Definition dec_map {A} (dec : json -> option A) (j : json) : option (option (gmap string A)) :=
  match j with JNull => Some None | JObj l => Some <$> map_of_obj dec l ∅ | _ => None end.
Definition dec_strings (j : json) : option (list string) :=
  match j with
  | JNull => Some []
  | JArr l => mapM (fun j => match j with JStr s => Some s | JNull => Some "" | _ => None end) l
  | _ => None
  end.

(** ** Texts of documents *)

Definition quoted (s : string) : string := String "034" (s +:+ String "034" "").

Definition decimal_text (m : Z) (k : nat) : string :=
  let d := (10 ^ Z.of_nat k)%Z in
  (if (m <? 0)%Z then "-" else "") +:+ bigString (Z.abs m / d) +:+ "." +:+
  String.substring 1 k (bigString (d + Z.abs m mod d)).

Fixpoint json_text (j : json) : string :=
  match j with
  | JNull => "null"
  | JBool true => "true"
  | JBool false => "false"
  | JNum n => bigString n
  | JDec m k => decimal_text m k
  | JStr s => quoted s
  | JArr l =>
      "[" +:+ (fix go (l : list json) : string :=
        match l with
        | [] => ""
        | [x] => json_text x
        | x :: l' => json_text x +:+ "," +:+ go l'
        end) l +:+ "]"
  | JObj l =>
      "{" +:+ (fix go (l : list (string * json)) : string :=
        match l with
        | [] => ""
        | [(k, x)] => quoted k +:+ ":" +:+ json_text x
        | (k, x) :: l' => quoted k +:+ ":" +:+ json_text x +:+ "," +:+ go l'
        end) l +:+ "}"
  end.

(** [string(b)] of any slice: the text of a document is its compact form (for
    members that need no escape). *)
Definition blob_string (b : blob) : string :=
  match b with
  | Raw s => s
  | Doc fields => json_text (JObj fields)
  end.

(** ** Base64: [base64.StdEncoding] *)

Definition b64_alphabet : string := "ABCDEFGHIJKLMNOPQRSTUVWXYZabcdefghijklmnopqrstuvwxyz0123456789+/".

Definition b64_char (i : Z) : ascii :=
  default "A"%char (String.get (Z.to_nat i) b64_alphabet).

Fixpoint index_of (c : ascii) (s : string) (i : Z) : option Z :=
  match s with
  | EmptyString => None
  | String d s' => if Ascii.eqb c d then Some i else index_of c s' (i + 1)
  end.

Definition b64_value (c : ascii) : option Z := index_of c b64_alphabet 0.

Definition byte_of (c : ascii) : Z := Z.of_nat (nat_of_ascii c).
Definition byte_char (n : Z) : ascii := ascii_of_nat (Z.to_nat n).

(** [EncodeToString]: three bytes become four characters, the rest is padded. *)
Fixpoint b64_encode (s : string) : string :=
  match s with
  | EmptyString => ""
  | String a EmptyString =>
      let n := (byte_of a * 65536)%Z in
      String (b64_char (n / 262144)) (String (b64_char (n / 4096 mod 64)) "==")
  | String a (String b EmptyString) =>
      let n := (byte_of a * 65536 + byte_of b * 256)%Z in
      String (b64_char (n / 262144)) (String (b64_char (n / 4096 mod 64))
        (String (b64_char (n / 64 mod 64)) "="))
  | String a (String b (String c s')) =>
      let n := (byte_of a * 65536 + byte_of b * 256 + byte_of c)%Z in
      String (b64_char (n / 262144)) (String (b64_char (n / 4096 mod 64))
        (String (b64_char (n / 64 mod 64)) (String (b64_char (n mod 64)) (b64_encode s'))))
  end.

(** New-line characters are skipped by the decoder. *)
Fixpoint b64_strip (s : string) : string :=
  match s with
  | EmptyString => ""
  | String c s' =>
      if Ascii.eqb c "013" || Ascii.eqb c "010" then b64_strip s' else String c (b64_strip s')
  end.

Fixpoint b64_groups (s : string) : option string :=
  match s with
  | EmptyString => Some ""
  | String a (String b (String c (String d s'))) =>
      match b64_value a, b64_value b with
      | Some va, Some vb =>
          if Ascii.eqb c "=" then
            if Ascii.eqb d "=" && is_empty_string s'
            then Some (String (byte_char ((va * 262144 + vb * 4096) / 65536)) "") else None
          else
            match b64_value c with
            | None => None
            | Some vc =>
                if Ascii.eqb d "=" then
                  if is_empty_string s' then
                    let n := (va * 262144 + vb * 4096 + vc * 64)%Z in
                    Some (String (byte_char (n / 65536)) (String (byte_char (n / 256 mod 256)) ""))
                  else None
                else
                  match b64_value d, b64_groups s' with
                  | Some vd, Some rest =>
                      let n := (va * 262144 + vb * 4096 + vc * 64 + vd)%Z in
                      Some (String (byte_char (n / 65536)) (String (byte_char (n / 256 mod 256))
                             (String (byte_char (n mod 256)) rest)))
                  | _, _ => None
                  end
            end
      | _, _ => None
      end
  | _ => None
  end.

(** [DecodeString], [None] for an error. *)
Definition b64_decode (s : string) : option string := b64_groups (b64_strip s).

Section Base64.
#[local] Open Scope Z_scope.

Definition b64_ok (i : Z) : bool :=
  match b64_value (b64_char i) with Some j => Z.eqb i j | None => false end &&
  negb (Ascii.eqb (b64_char i) "=") &&
  negb (Ascii.eqb (b64_char i) "013" || Ascii.eqb (b64_char i) "010").

Lemma b64_ok_all : forallb (fun n => b64_ok (Z.of_nat n)) (seq 0 64) = true.
Proof. vm_compute. reflexivity. Qed.

Lemma b64_char_facts i :
  0 <= i < 64 ->
  b64_value (b64_char i) = Some i /\ Ascii.eqb (b64_char i) "=" = false /\
  (Ascii.eqb (b64_char i) "013" || Ascii.eqb (b64_char i) "010" = false)%bool.
Proof.
  intros Hi. pose proof (proj1 (forallb_forall _ _) b64_ok_all (Z.to_nat i)) as Hok.
  cbn beta in Hok. rewrite in_seq, Z2Nat.id in Hok by lia. specialize (Hok ltac:(lia)).
  unfold b64_ok in Hok. bool_prop. destruct (b64_value (b64_char i)); [|done].
  bool_prop. subst. split_and!; [done..|]. by apply orb_false_iff.
Qed.

Lemma byte_of_range c : 0 <= byte_of c < 256.
Proof. unfold byte_of. pose proof (nat_ascii_bounded c). lia. Qed.

Lemma byte_char_of c : byte_char (byte_of c) = c.
Proof. unfold byte_char, byte_of. rewrite Nat2Z.id. apply ascii_nat_embedding. Qed.

Lemma byte_char_eq n c : n = byte_of c -> byte_char n = c.
Proof. intros ->. apply byte_char_of. Qed.

Lemma b64_value_char i : 0 <= i < 64 -> b64_value (b64_char i) = Some i.
Proof. apply b64_char_facts. Qed.

Lemma b64_not_pad i : 0 <= i < 64 -> Ascii.eqb (b64_char i) "=" = false.
Proof. apply b64_char_facts. Qed.

Lemma b64_strip_char i s :
  0 <= i < 64 -> b64_strip (String (b64_char i) s) = String (b64_char i) (b64_strip s).
Proof. intros Hi. cbn [b64_strip]. by destruct (b64_char_facts i Hi) as (_ & _ & ->). Qed.

Lemma string_ind3 (P : string -> Prop) :
  P "" -> (forall a, P (String a "")) -> (forall a b, P (String a (String b ""))) ->
  (forall a b c s, P s -> P (String a (String b (String c s)))) -> forall s, P s.
Proof.
  intros H0 H1 H2 H3. fix IH 1. intros [|a [|b [|c s]]]; [exact H0|exact (H1 a)|exact (H2 a b)|]. apply H3, IH.
Qed.

Ltac b64_div := Z.to_euclidean_division_equations; lia.

(** Decoding what was encoded gives it back. *)
Lemma b64_decode_encode s : b64_decode (b64_encode s) = Some s.
Proof.
  unfold b64_decode. induction s as [|a|a b|a b c s IH] using string_ind3; [done| | |].
  all: pose proof (byte_of_range a).
  - cbn [b64_encode]. rewrite !b64_strip_char by b64_div. cbn [b64_groups b64_strip].
    rewrite !b64_value_char by b64_div. cbn. do 2 f_equal. apply byte_char_eq. b64_div.
  - pose proof (byte_of_range b). cbn [b64_encode]. rewrite !b64_strip_char by b64_div.
    cbn [b64_groups b64_strip]. rewrite !b64_value_char by b64_div.
    rewrite b64_not_pad by b64_div. cbn.
    f_equal. f_equal; [apply byte_char_eq; b64_div|]. f_equal. apply byte_char_eq. b64_div.
  - pose proof (byte_of_range b). pose proof (byte_of_range c). cbn [b64_encode].
    rewrite !b64_strip_char by b64_div.
    cbn [b64_groups]. rewrite IH, !b64_value_char by b64_div.
    rewrite !b64_not_pad by b64_div.
    f_equal. f_equal; [apply byte_char_eq; b64_div|]. f_equal; [apply byte_char_eq; b64_div|].
    f_equal. apply byte_char_eq. b64_div.
Qed.
End Base64.

(** ** Ranging over a map *)

(** The order of the entries is not specified: any permutation of them, the same
    for equal maps. *)
Class MapOrder := {
  range_order : forall {A}, gmap string A -> list (string * A);
  range_order_perm : forall {A} (m : gmap string A), range_order m ≡ₚ map_to_list m
}.

#[refine] Definition address_order : MapOrder := {| range_order := fun A m => map_to_list m |}.
Proof. done. Defined.

Section Ranging.
Context `{O : MapOrder}.
Definition map_values {A} (m : gmap string A) : list A := (range_order m).*2.
Definition map_keys {A} (m : gmap string A) : list string := (range_order m).*1.

Lemma map_keys_elem {A} (f : gmap string A) k : k ∈ map_keys f <-> is_Some (f !! k).
Proof.
  unfold map_keys. rewrite list_elem_of_fmap. split.
  - intros ([k' v] & -> & Hin). rewrite range_order_perm in Hin. apply elem_of_map_to_list in Hin. eauto.
  - intros [v E]. exists (k, v). split; [done|]. rewrite range_order_perm. by apply elem_of_map_to_list.
Qed.
Lemma map_values_elem {A} (f : gmap string A) v : v ∈ map_values f <-> exists k, f !! k = Some v.
Proof.
  unfold map_values. rewrite list_elem_of_fmap. split.
  - intros ([k v'] & -> & Hin). rewrite range_order_perm in Hin. apply elem_of_map_to_list in Hin. eauto.
  - intros [k E]. exists (k, v). split; [done|]. rewrite range_order_perm. by apply elem_of_map_to_list.
Qed.
End Ranging.

(** ** [strings] *)

(** [strings.Split(s, sep)] for a separator of one byte. *)
Fixpoint Split (sep : ascii) (s : string) : list string :=
  match s with
  | "" => [""]
  | String c s' =>
      if decide (c = sep) then "" :: Split sep s'
      else match Split sep s' with
           | [] => [String c ""]
           | w :: ws => String c w :: ws
           end
  end.

Lemma Split_not_nil sep s : Split sep s <> [].
Proof. destruct s as [|c s]; [done|]. cbn. case_decide; [done|]. by destruct (Split sep s). Qed.

(** [strings.Join]. *)
Fixpoint Join (sep : ascii) (ws : list string) : string :=
  match ws with
  | [] => ""
  | [w] => w
  | w :: ws => w +:+ String sep (Join sep ws)
  end.

Lemma Join_Split sep s : Join sep (Split sep s) = s.
Proof.
  induction s as [|c s IH]; [done|]. cbn. pose proof (Split_not_nil sep s). case_decide as Hc.
  - subst. destruct (Split sep s) as [|w ws]; [done|]. change (String sep (Join sep (w :: ws)) = String sep s). by rewrite IH.
  - destruct (Split sep s) as [|w [|w' ws]]; [done|cbn in *; by rewrite IH|].
    change (String c (Join sep (w :: w' :: ws)) = String c s). by rewrite IH.
Qed.

Fixpoint has_char (c : ascii) (s : string) : bool :=
  match s with "" => false | String d s => bool_decide (c = d) || has_char c s end.

Lemma Split_whole sep s : has_char sep s = false -> Split sep s = [s].
Proof.
  induction s as [|c s IH]; [done|]. cbn. intros [Hc Hs]%orb_false_iff. apply bool_decide_eq_false in Hc. rewrite decide_False by congruence. by rewrite IH.
Qed.
Lemma Split_sep sep s : Split sep (String sep s) = "" :: Split sep s.
Proof. unfold Split at 1. fold Split. by rewrite decide_True. Qed.
Lemma Split_app sep a b : has_char sep a = false -> Split sep (a +:+ String sep b) = a :: Split sep b.
Proof.
  induction a as [|c a IH]; [intros _; apply Split_sep|]. cbn [has_char]. intros [Hc Ha]%orb_false_iff. apply bool_decide_eq_false in Hc.
  change (Split sep (String c (a +:+ String sep b)) = String c a :: Split sep b). unfold Split at 1. fold Split. rewrite decide_False by congruence. by rewrite IH.
Qed.
Lemma Split_Join sep ws : ws <> [] -> Forall (fun w => has_char sep w = false) ws -> Split sep (Join sep ws) = ws.
Proof.
  intros Hne Hf. induction Hf as [|w ws Hw Hf IH]; [done|]. destruct ws as [|w' ws]; [by apply Split_whole|].
  change (Split sep (w +:+ String sep (Join sep (w' :: ws))) = w :: w' :: ws). by rewrite Split_app, IH.
Qed.
