(* ===== verification/Sandbox.v ===== *)
(** * The contract sandbox

    [kernel/contract/sandbox]: [MemXModel] (an ordered tree of versioned data),
    the iterators that merge three ordered sources, and [XMCache], the cache a
    contract runs against: its writes go to [outputsCache], what it reads from
    the state below is recorded in [inputsCache].

    The ordered tree is the third-party red-black tree
    [github.com/emirpasic/gods]; it is the class [RBTree], whose laws are the
    documented behaviour of an ordered map, with a finite map as an instance.
    An iterator is the list of the entries it yields; [Select] is modelled for
    a caller that runs the iterator to its end, as every caller in the modelled
    contracts does.  In the code the reads a selection records go into the tree
    the input iterator walks; what it then meets ahead has the key and the value
    the backend yields at that moment, so the merged list is the same. *)

From stdpp Require Import base gmap strings list numbers sorting.
From Stdlib Require Import ZArith Lia Ascii.
From S2P Require Import Prelude GoValues.

Set Default Proof Using "Type".


(** ** Versioned data *)

Record VersionedData := mkVD {
  vd_bucket : string;
  vd_key : string;
  vd_value : blob;
  RefTxid : option string;
  RefOffset : Z
}.

Definition DelFlag : blob := Raw (String "000" "").

Definition IsDelFlag (v : blob) : bool :=
  match v with
  | Raw (String "000" "") => true
  | _ => false
  end.

Definition IsEmptyVersionedData (vd : VersionedData) : bool :=
  match RefTxid vd with
  | None => (RefOffset vd =? 0)%Z
  | Some _ => false
  end.

Definition BucketSeperator : string := "/".

Definition makeRawKey (bucket key : string) : string :=
  bucket +:+ BucketSeperator +:+ key.

(** [bytes.Index(rawKey, "/")]: what is before and after the first slash. *)
Fixpoint parseRawKey (rawKey : string) : option (string * string) :=
  match rawKey with
  | EmptyString => None
  | String "/" rest => Some (EmptyString, rest)
  | String c rest =>
      match parseRawKey rest with
      | Some (b, k) => Some (String c b, k)
      | None => None
      end
  end.

Definition ErrHasDel : string := "Key has been mark as del".
Definition ErrNotFound : string := "Key not found".
Definition TransientBucket : string := "$transient".

(** The first byte string greater than every one that starts with [prefix]:
    the last byte below 0xff is incremented and the rest dropped; [None] when
    there is none. *)
Fixpoint prefixEnd (prefix : string) : option string :=
  match prefix with
  | EmptyString => None
  | String c rest =>
      match prefixEnd rest with
      | Some limit => Some (String c limit)
      | None =>
          let n := nat_of_ascii c in
          if (n <? 255)%nat then Some (String (ascii_of_nat (S n)) "") else None
      end
  end.

(** ** The ordered tree *)

Class RBTree (T V : Type) := {
  rb_empty : T;
  rb_get : T -> string -> option V;
  rb_put : T -> string -> V -> T;
  (** [Ceiling(start)] and the iterator from there, in key order. *)
  rb_from : T -> string -> list (string * V)
}.

Definition key_lt {V} (a b : string * V) : Prop := str_lt a.1 b.1.

Class RBTreeLaws (T V : Type) `{RBTree T V} := {
  rb_get_empty k : rb_get rb_empty k = None;
  rb_get_put t k v k' :
    rb_get (rb_put t k v) k' = if decide (k = k') then Some v else rb_get t k';
  rb_from_sorted t s : StronglySorted key_lt (rb_from t s);
  rb_from_spec t s k v :
    (k, v) ∈ rb_from t s <-> rb_get t k = Some v /\ str_le s k
}.

(** ** MemXModel *)

Section MemXModel.
Context {T : Type} `{RBTree T VersionedData}.

Definition NewMemXModel : T := rb_empty.

Definition MemXModel_Get (m : T) (bucket key : string) : outcome VersionedData :=
  match rb_get m (makeRawKey bucket key) with
  | Some v => Ret v
  | None => Err ErrNotFound
  end.

Definition MemXModel_Put (m : T) (bucket key : string) (v : VersionedData) : T :=
  rb_put m (makeRawKey bucket key) v.

(** The iterator stops at the first entry that is not below [end]. *)
Fixpoint take_below (limit : option string) (l : list (string * VersionedData))
    : list VersionedData :=
  match l with
  | [] => []
  | (k, v) :: l' =>
      match limit with
      | Some e => if bool_decide (str_lt k e) then v :: take_below limit l' else []
      | None => v :: take_below limit l'
      end
  end.

Definition MemXModel_Select (m : T) (bucket startKey : string) (endKey : option string)
    : outcome (list VersionedData) :=
  if is_empty_string bucket then Err "empty bucket name"
  else
    match endKey with
    | Some e =>
        if bool_decide (str_lt e startKey)
        then Err "bad select range, start key can't bigger than end key"
        else Ret (take_below (Some (makeRawKey bucket e)) (rb_from m (makeRawKey bucket startKey)))
    | None =>
        Ret (take_below (prefixEnd (makeRawKey bucket "")) (rb_from m (makeRawKey bucket startKey)))
    end.

(** [NewIterator]: every entry, in key order. *)
Definition MemXModel_entries (m : T) : list VersionedData := (rb_from m "").*2.

(** A reader made of a recorded read set. *)
Definition XMReaderFromRWSet (rset : list VersionedData) : T :=
  foldl (fun m r => MemXModel_Put m (vd_bucket r) (vd_key r) r) NewMemXModel rset.
End MemXModel.

(** ** Merging iterators *)

(** One [Next] of [multiIterator]: the entry it moves to and what is left of
    the two iterators; on equal keys the entry of [front] is taken and both
    advance. *)
Definition multi_next (front back : list VersionedData)
    : option (VersionedData * list VersionedData * list VersionedData) :=
  match front, back with
  | [], [] => None
  | [], b :: back' => Some (b, [], back')
  | f :: front', [] => Some (f, front', [])
  | f :: front', b :: back' =>
      match String.compare (vd_key f) (vd_key b) with
      | Eq => Some (f, front', back')
      | Lt => Some (f, front', back)
      | Gt => Some (b, front, back')
      end
  end.

Fixpoint multi_run (fuel : nat) (front back : list VersionedData) : list VersionedData :=
  match fuel with
  | O => []
  | S fuel =>
      match multi_next front back with
      | Some (v, front', back') => v :: multi_run fuel front' back'
      | None => []
      end
  end.

(** Every [Next] consumes an entry of one of the two, so this many calls reach
    the end. *)
Definition multiIterator (front back : list VersionedData) : list VersionedData :=
  multi_run (length front + length back) front back.

Definition stripDelIterator (l : list VersionedData) : list VersionedData :=
  List.filter (fun v => negb (IsDelFlag (vd_value v))) l.

(** ** XMCache *)

(** The state the sandbox reads from, an interface in the code: reading a key
    never written gives an empty version. *)
Record XMReader := {
  xr_get : string -> string -> outcome VersionedData;
  xr_select : string -> string -> option string -> outcome (list VersionedData)
}.

Section XMCache.
Context {T : Type} `{RBTree T VersionedData}.

Record XMCache := mkXMCache {
  inputsCache : T;
  outputsCache : T
}.

Definition NewXModelCache : XMCache :=
  {| inputsCache := NewMemXModel; outputsCache := NewMemXModel |}.

Variable model : XMReader.

Definition getFromOuputsCache (xc : XMCache) (bucket key : string) : outcome VersionedData :=
  match MemXModel_Get (outputsCache xc) bucket key with
  | Ret d => if IsDelFlag (vd_value d) then Err ErrHasDel else Ret d
  | Err e => Err e
  | Panic => Panic
  end.

Definition getAndSetFromInputsCache (bucket key : string) : M XMCache VersionedData := fun xc =>
  match MemXModel_Get (inputsCache xc) bucket key with
  | Ret d => (Ret d, xc)
  | Err e =>
      if bool_decide (e = ErrNotFound) then
        match xr_get model bucket key with
        | Ret d => (Ret d, mkXMCache (MemXModel_Put (inputsCache xc) bucket key d) (outputsCache xc))
        | Err e' => (Err e', xc)
        | Panic => (Panic, xc)
        end
      else (Err e, xc)
  | Panic => (Panic, xc)
  end.

Definition XMCache_Get (bucket key : string) : M XMCache blob := fun xc =>
  match getFromOuputsCache xc bucket key with
  | Ret d => (Ret (vd_value d), xc)
  | Panic => (Panic, xc)
  | Err e =>
      if bool_decide (e = ErrNotFound) then
        (let! verData := getAndSetFromInputsCache bucket key in
         if IsEmptyVersionedData verData then mfail ErrNotFound
         else if IsDelFlag (vd_value verData) then mfail ErrHasDel
         else mpure (vd_value verData)) xc
      else (Err e, xc)
  end.

Definition XMCache_Put (bucket key : string) (value : blob) : M XMCache unit := fun xc =>
  match getFromOuputsCache xc bucket key with
  | Panic => (Panic, xc)
  | o =>
      let bad := match o with
                 | Err e => negb (bool_decide (e = ErrNotFound)) && negb (bool_decide (e = ErrHasDel))
                 | _ => false
                 end in
      if bad then (match o with Err e => Err e | _ => Panic end, xc)
      else
        let val := mkVD bucket key value None 0 in
        let forced := if bool_decide (bucket = TransientBucket) then (Ret (Raw ""), xc)
                      else XMCache_Get bucket key xc in
        match forced with
        | (Panic, xc') => (Panic, xc')
        | (_, xc') =>
            (Ret tt, mkXMCache (inputsCache xc') (MemXModel_Put (outputsCache xc') bucket key val))
        end
  end.

Definition XMCache_Del (bucket key : string) : M XMCache unit :=
  XMCache_Put bucket key DelFlag.

(** [rsetIterator]: every key the backend yields is read through the cache,
    and so recorded. *)
Fixpoint rset_fill (bucket : string) (l : list VersionedData) (xc : XMCache) : XMCache :=
  match l with
  | [] => xc
  | v :: l' => rset_fill bucket l' (snd (XMCache_Get bucket (vd_key v) xc))
  end.

(** The errors of the two in-memory [Select]s are dropped by the code, and
    the nil iterator that comes with them is dereferenced. *)
Definition XMCache_Select (bucket startKey : string) (endKey : option string)
    : M XMCache (list (string * blob)) := fun xc =>
  match xr_select model bucket startKey endKey with
  | Err e => (Err e, xc)
  | Panic => (Panic, xc)
  | Ret backend =>
      match MemXModel_Select (outputsCache xc) bucket startKey endKey,
            MemXModel_Select (inputsCache xc) bucket startKey endKey with
      | Ret output, Ret input =>
          let inner := multiIterator (stripDelIterator input) (stripDelIterator backend) in
          let merged := multiIterator output inner in
          (Ret ((fun v => (vd_key v, vd_value v)) <$> merged), rset_fill bucket backend xc)
      | _, _ => (Panic, xc)
      end
  end.

Definition getReadSets (xc : XMCache) : list VersionedData := MemXModel_entries (inputsCache xc).
Definition getWriteSets (xc : XMCache) : list VersionedData := MemXModel_entries (outputsCache xc).
End XMCache.
Arguments XMCache T : clear implicits.
Arguments mkXMCache {T} _ _.

(** ** A finite map as the ordered tree *)

#[global] Instance gmap_RBTree {V} : RBTree (gmap string V) V := {
  rb_empty := ∅;
  rb_get t k := t !! k;
  rb_put t k v := <[k := v]> t;
  rb_from t s := List.filter (fun kv => bool_decide (str_le s kv.1)) (merge_sort key_le (map_to_list t))
}.

Section GmapTree.
Context {V : Type}.
Implicit Types t : gmap string V.

#[local] Instance key_le_trans : Transitive (@key_le V).
Proof. intros x y z. unfold key_le. apply transitivity. Qed.

#[local] Instance key_le_total : Total (@key_le V).
Proof. intros x y. unfold key_le. apply total, _. Qed.

Lemma string_le_str_lt a b : String.le a b -> a <> b -> str_lt a b.
Proof.
  unfold String.le, String.leb, str_lt. intros H1 H2.
  destruct (String.compare a b) eqn:E; [|done|done].
  by apply string_compare_eq in E.
Qed.

Lemma map_sorted_strict t : StronglySorted key_lt (merge_sort key_le (map_to_list t)).
Proof.
  pose proof (StronglySorted_merge_sort key_le (map_to_list t)) as Hs.
  assert (NoDup (merge_sort key_le (map_to_list t)).*1) as Hnd.
  { rewrite (merge_sort_Permutation key_le (map_to_list t)). apply NoDup_fst_map_to_list. }
  induction Hs as [|x l Hs IH Hf]; [constructor|].
  cbn in Hnd. apply NoDup_cons in Hnd as [Hni Hnd]. constructor; [auto|].
  rewrite Forall_forall in Hf |- *. intros y Hy. apply string_le_str_lt; [by apply Hf|].
  intros Heq. apply Hni. rewrite Heq. by apply list_elem_of_fmap_2.
Qed.

Lemma StronglySorted_filter (R : relation (string * V)) p l :
  StronglySorted R l -> StronglySorted R (List.filter p l).
Proof.
  induction 1 as [|x l Hs IH Hf]; cbn; [constructor|].
  destruct (p x); [|done]. constructor; [done|].
  rewrite Forall_forall in Hf |- *. intros y Hy. apply Hf.
  apply list_elem_of_In, List.filter_In in Hy as [Hy _]. by apply list_elem_of_In.
Qed.

#[global] Instance gmap_RBTreeLaws : RBTreeLaws (gmap string V) V.
Proof.
  split.
  - intros k. apply lookup_empty.
  - intros t k v k'. cbn. apply lookup_insert.
  - intros t s. apply StronglySorted_filter, map_sorted_strict.
  - intros t s k v. cbn. rewrite list_elem_of_In, List.filter_In, <- list_elem_of_In.
    rewrite (merge_sort_Permutation key_le (map_to_list t)), elem_of_map_to_list.
    cbn. by rewrite bool_decide_eq_true.
Qed.
End GmapTree.

(** ** Raw keys *)

Fixpoint no_slash (b : string) : bool :=
  match b with
  | EmptyString => true
  | String "/" _ => false
  | String _ b' => no_slash b'
  end.

Lemma parseRawKey_slash r : parseRawKey (String "/" r) = Some ("", r).
Proof. reflexivity. Qed.

Lemma parseRawKey_char c r :
  c <> "/"%char ->
  parseRawKey (String c r) =
  match parseRawKey r with Some (b, k) => Some (String c b, k) | None => None end.
Proof. intros Hc. destruct c as [[] [] [] [] [] [] [] []]; try reflexivity. done. Qed.

Lemma no_slash_String c b : no_slash (String c b) = true -> c <> "/"%char /\ no_slash b = true.
Proof. destruct c as [[] [] [] [] [] [] [] []]; cbn; intros H; try (split; [discriminate|exact H]). done. Qed.

Lemma parse_makeRawKey b k : no_slash b = true -> parseRawKey (makeRawKey b k) = Some (b, k).
Proof.
  induction b as [|c b IH]; intros Hb; [reflexivity|].
  apply no_slash_String in Hb as [Hc Hb].
  unfold makeRawKey in *. rewrite app_String, parseRawKey_char by done.
  by rewrite IH.
Qed.

Lemma makeRawKey_inj b1 k1 b2 k2 :
  no_slash b1 = true -> no_slash b2 = true ->
  makeRawKey b1 k1 = makeRawKey b2 k2 -> b1 = b2 /\ k1 = k2.
Proof.
  intros H1 H2 Heq. pose proof (parse_makeRawKey b1 k1 H1) as Hp.
  rewrite Heq, parse_makeRawKey in Hp by done. by simplify_eq.
Qed.

(** ** The merge of two iterators *)

Definition vkey_lt (a b : VersionedData) : Prop := str_lt (vd_key a) (vd_key b).
Abbreviation vsorted := (StronglySorted vkey_lt).

Fixpoint vfind (k : string) (l : list VersionedData) : option VersionedData :=
  match l with
  | [] => None
  | v :: l' => if bool_decide (vd_key v = k) then Some v else vfind k l'
  end.

Section Merge.
Lemma vfind_below k l : Forall (fun v => str_lt k (vd_key v)) l -> vfind k l = None.
Proof.
  induction 1 as [|v l Hv Hl IH]; cbn; [done|].
  rewrite bool_decide_eq_false_2; [done|]. intros <-. by apply str_lt_irrefl in Hv.
Qed.

Lemma Forall_below a b l :
  str_lt a b -> Forall (fun v => str_lt b (vd_key v)) l -> Forall (fun v => str_lt a (vd_key v)) l.
Proof. intros Hab Hl. eapply Forall_impl; [exact Hl|]. intros v. by apply str_lt_trans. Qed.

Lemma multi_run_lower fuel front back k :
  Forall (fun v => str_lt k (vd_key v)) front ->
  Forall (fun v => str_lt k (vd_key v)) back ->
  Forall (fun v => str_lt k (vd_key v)) (multi_run fuel front back).
Proof.
  revert front back. induction fuel as [|fuel IH]; intros front back Hf Hb; [constructor|].
  cbn. destruct Hf as [|f front Hf1 Hf2], Hb as [|b back Hb1 Hb2]; cbn; try (by constructor; auto).
  destruct (String.compare (vd_key f) (vd_key b)); constructor; auto.
Qed.

Lemma multi_run_sorted fuel front back :
  vsorted front -> vsorted back -> vsorted (multi_run fuel front back).
Proof.
  revert front back. induction fuel as [|fuel IH]; intros front back Hf Hb; [constructor|].
  cbn. destruct front as [|f front], back as [|b back]; cbn; [constructor| | |];
    try (apply StronglySorted_inv in Hf as Hf'; destruct Hf' as [Hf1 Hf2]);
    try (apply StronglySorted_inv in Hb as Hb'; destruct Hb' as [Hb1 Hb2]).
  - constructor; [by apply IH|]. by apply multi_run_lower.
  - constructor; [by apply IH|]. by apply multi_run_lower.
  - destruct (String.compare (vd_key f) (vd_key b)) eqn:E.
    + apply string_compare_eq in E. constructor; [by apply IH|].
      apply multi_run_lower; [done|]. by rewrite E.
    + constructor; [by apply IH|]. apply multi_run_lower; [done|].
      constructor; [done|]. by eapply Forall_below.
    + apply str_lt_gt in E. constructor; [by apply IH|]. apply multi_run_lower; [|done].
      constructor; [done|]. by eapply Forall_below.
Qed.

Lemma multi_run_find fuel front back k :
  length front + length back <= fuel ->
  vsorted front -> vsorted back ->
  vfind k (multi_run fuel front back) =
  match vfind k front with Some v => Some v | None => vfind k back end.
Proof.
  revert front back. induction fuel as [|fuel IH]; intros front back Hlen Hf Hb.
  { destruct front, back; cbn in *; try done; lia. }
  cbn. destruct front as [|f front], back as [|b back]; cbn [multi_next vfind length] in *; [done| | |];
    try (apply StronglySorted_inv in Hf as Hf'; destruct Hf' as [Hf1 Hf2]);
    try (apply StronglySorted_inv in Hb as Hb'; destruct Hb' as [Hb1 Hb2]).
  - rewrite IH by (cbn; first [lia|constructor|done]). done.
  - rewrite IH by (cbn; first [lia|constructor|done]). by case_bool_decide.
  - destruct (String.compare (vd_key f) (vd_key b)) eqn:E; cbn [vfind].
    + apply string_compare_eq in E. rewrite IH by (first [lia|done]).
      rewrite <- E. by case_bool_decide.
    + rewrite IH by (cbn; first [lia|done]). cbn [vfind]. by case_bool_decide.
    + apply str_lt_gt in E. rewrite IH by (cbn; first [lia|done]). cbn [vfind].
      destruct (decide (vd_key b = k)) as [<-|Hne].
      * rewrite !(bool_decide_eq_true_2 (vd_key b = vd_key b)) by done.
        rewrite bool_decide_eq_false_2; [|intros Heq; rewrite Heq in E; by apply str_lt_irrefl in E].
        rewrite vfind_below; [done|]. by eapply Forall_below.
      * rewrite !(bool_decide_eq_false_2 (vd_key b = k)) by done. done.
Qed.

Lemma multiIterator_sorted front back :
  vsorted front -> vsorted back -> vsorted (multiIterator front back).
Proof. apply multi_run_sorted. Qed.

Lemma multiIterator_find front back k :
  vsorted front -> vsorted back ->
  vfind k (multiIterator front back) =
  match vfind k front with Some v => Some v | None => vfind k back end.
Proof. by apply multi_run_find. Qed.

Lemma stripDel_sorted l : vsorted l -> vsorted (stripDelIterator l).
Proof.
  unfold stripDelIterator. induction 1 as [|v l Hs IH Hf]; cbn; [constructor|].
  destruct (negb _); [|done]. constructor; [done|].
  rewrite Forall_forall in Hf |- *. intros y Hy. apply Hf.
  apply list_elem_of_In, List.filter_In in Hy as [Hy _]. by apply list_elem_of_In.
Qed.

Lemma vfind_key k l v : vfind k l = Some v -> vd_key v = k /\ v ∈ l.
Proof.
  induction l as [|w l IH]; cbn; [done|]. case_bool_decide; intros Hv; simplify_eq.
  - split; [done|]. constructor.
  - destruct (IH Hv). split; [done|]. by constructor.
Qed.

Lemma vfind_elem l v : vsorted l -> v ∈ l -> vfind (vd_key v) l = Some v.
Proof.
  induction 1 as [|w l Hs IH Hf]; intros Hv; [by apply not_elem_of_nil in Hv|].
  cbn. apply elem_of_cons in Hv as [->|Hv]; [by rewrite bool_decide_eq_true_2|].
  rewrite bool_decide_eq_false_2; [auto|]. intros Heq.
  rewrite Forall_forall in Hf. specialize (Hf v Hv). unfold vkey_lt in Hf.
  rewrite Heq in Hf. by apply str_lt_irrefl in Hf.
Qed.
End Merge.

(** The merged iterator of two sources in key order yields its entries in
    key order without repetition, and for every key the entry of the front
    source when it has one, else the entry of the back source: it is the
    sorted union of the two in which the front overrides the back. *)
Theorem multiIterator_is_sorted_union front back :
  vsorted front -> vsorted back ->
  vsorted (multiIterator front back) /\
  forall k, vfind k (multiIterator front back) =
            match vfind k front with Some v => Some v | None => vfind k back end.
Proof. intros Hf Hb. split; [by apply multiIterator_sorted|]. intros k. by apply multiIterator_find. Qed.

Definition ex_vd (k : string) (v : string) : VersionedData := mkVD "b" k (Raw v) (Some "tx") 0.

Lemma multiIterator_is_sorted_union_witness :
  vfind "b" (multiIterator [ex_vd "a" "1"; ex_vd "b" "2"] [ex_vd "b" "9"; ex_vd "c" "3"])
    = Some (ex_vd "b" "2") /\
  multiIterator [ex_vd "a" "1"; ex_vd "b" "2"] [ex_vd "b" "9"; ex_vd "c" "3"]
    = [ex_vd "a" "1"; ex_vd "b" "2"; ex_vd "c" "3"].
Proof.
  split; [|reflexivity].
  destruct (multiIterator_is_sorted_union [ex_vd "a" "1"; ex_vd "b" "2"] [ex_vd "b" "9"; ex_vd "c" "3"]) as [_ H].
  - repeat constructor.
  - repeat constructor.
  - rewrite H. reflexivity.
Defined.

(** ** Reading and writing through the cache *)

(** What the code relies on of the state below the sandbox: a read gives a
    version labelled with the raw key asked for, and with the bucket and key
    asked for when the bucket has no separator in its name; an empty version
    when the key was never written.  [XModel] implements it. *)
Definition reader_ok (R : XMReader) : Prop :=
  forall b k, exists d, xr_get R b k = Ret d /\ makeRawKey (vd_bucket d) (vd_key d) = makeRawKey b k /\
    (no_slash b = true -> vd_bucket d = b /\ vd_key d = k).

Definition never_panics (R : XMReader) : Prop := forall b k, xr_get R b k <> Panic.

Lemma reader_ok_never_panics R : reader_ok R -> never_panics R.
Proof. intros HR b k. destruct (HR b k) as (d & -> & _). discriminate. Qed.

Lemma key_sorted_NoDup {V} (l : list (string * V)) :
  StronglySorted key_lt l -> NoDup l.*1.
Proof.
  induction 1 as [|x l Hs IH Hf]; cbn; constructor; [|done].
  intros (y & Hy1 & Hy2)%list_elem_of_fmap. rewrite Forall_forall in Hf.
  specialize (Hf y Hy2). unfold key_lt in Hf. rewrite Hy1 in Hf. by apply str_lt_irrefl in Hf.
Qed.

Section CacheLemmas.
Context {T : Type} `{RBTreeLaws T VersionedData}.
Implicit Types xc yc : XMCache T.

Definition tree_eq (t1 t2 : T) : Prop := forall k, rb_get t1 k = rb_get t2 k.
Definition tree_sub (t1 t2 : T) : Prop :=
  forall k d, rb_get t1 k = Some d -> rb_get t2 k = Some d.

#[global] Instance tree_eq_equiv : Equivalence tree_eq.
Proof. split; intros ?; unfold tree_eq; congruence. Qed.

#[global] Instance tree_sub_preorder : PreOrder tree_sub.
Proof. split; intros ?; unfold tree_sub; eauto. Qed.

#[global] Instance rb_get_proper : Proper (tree_eq ==> (=) ==> (=)) rb_get.
Proof. intros t1 t2 Ht k ? <-. apply Ht. Qed.

#[global] Instance rb_put_proper : Proper (tree_eq ==> (=) ==> (=) ==> tree_eq) rb_put.
Proof using All. intros t1 t2 Ht k ? <- v ? <- k'. rewrite !rb_get_put. by rewrite (Ht k'). Qed.

(** The strict entry order makes the entry list of a tree canonical. *)
Lemma rb_from_proper t1 t2 s : tree_eq t1 t2 -> rb_from t1 s = rb_from t2 s.
Proof using All.
  intros Ht.
  apply (StronglySorted_unique_strong key_lt); [|apply rb_from_sorted..|].
  - intros x1 x2 _ _ Hx1 Hx2. exfalso. unfold key_lt in *.
    apply (str_lt_irrefl x1.1). by eapply str_lt_trans.
  - apply NoDup_Permutation; [eapply NoDup_fmap_1, key_sorted_NoDup, rb_from_sorted..|].
    intros [k v]. rewrite !rb_from_spec. by rewrite (Ht k).
Qed.

Lemma MemXModel_entries_proper t1 t2 : tree_eq t1 t2 -> MemXModel_entries t1 = MemXModel_entries t2.
Proof using All. intros Ht. unfold MemXModel_entries. by rewrite (rb_from_proper _ _ "" Ht). Qed.

Definition labelled (t : T) : Prop :=
  forall raw d, rb_get t raw = Some d -> raw = makeRawKey (vd_bucket d) (vd_key d).

Lemma labelled_empty : labelled (NewMemXModel : T).
Proof using All. intros raw d. unfold NewMemXModel. by rewrite rb_get_empty. Qed.

Lemma rebuild_lookup (l : list (string * VersionedData)) (t : T) k :
  NoDup l.*1 -> Forall (fun kv => kv.1 = makeRawKey (vd_bucket kv.2) (vd_key kv.2)) l ->
  rb_get (foldl (fun m r => MemXModel_Put m (vd_bucket r) (vd_key r) r) t l.*2) k =
  match (list_to_map l : gmap string VersionedData) !! k with Some d => Some d | None => rb_get t k end.
Proof using All.
  revert t. induction l as [|[raw d] l IH]; intros t Hnd Hl; [done|].
  cbn in Hnd. apply NoDup_cons in Hnd as [Hni Hnd]. apply Forall_cons in Hl as [Hraw Hl].
  cbn in Hraw |- *. rewrite IH by done. unfold MemXModel_Put. rewrite rb_get_put, <- Hraw.
  destruct (decide (raw = k)) as [<-|Hne].
  - rewrite not_elem_of_list_to_map_1 by done. by simplify_map_eq.
  - by rewrite lookup_insert_ne.
Qed.

Lemma str_le_empty k : str_le "" k.
Proof. by destruct k. Qed.

Lemma rb_from_all_lookup (t : T) k :
  (list_to_map (rb_from t "") : gmap string VersionedData) !! k = rb_get t k.
Proof using All.
  apply option_eq. intros d.
  rewrite <- elem_of_list_to_map by apply key_sorted_NoDup, rb_from_sorted.
  rewrite rb_from_spec. split; [tauto|]. intros. split; [done|]. apply str_le_empty.
Qed.

Lemma XMReaderFromRWSet_entries (t : T) :
  labelled t -> tree_eq (XMReaderFromRWSet (MemXModel_entries t)) t.
Proof using All.
  intros Hl k. unfold XMReaderFromRWSet, MemXModel_entries. rewrite rebuild_lookup.
  - rewrite rb_from_all_lookup. unfold NewMemXModel. rewrite rb_get_empty. by destruct (rb_get t k).
  - apply key_sorted_NoDup, rb_from_sorted.
  - rewrite Forall_forall. intros [raw d] [Hd _]%rb_from_spec. by apply Hl.
Qed.
End CacheLemmas.

(** The value a recorded version stands for. *)
Definition read_version (d : VersionedData) : outcome blob :=
  if IsEmptyVersionedData d then Err ErrNotFound
  else if IsDelFlag (vd_value d) then Err ErrHasDel
  else Ret (vd_value d).

Definition read_written (d : VersionedData) : outcome blob :=
  if IsDelFlag (vd_value d) then Err ErrHasDel else Ret (vd_value d).

Section CacheOps.
Context {T : Type} `{RBTreeLaws T VersionedData}.
Variable R : XMReader.
Implicit Types xc yc : XMCache T.

Lemma XMCache_Get_eq b k xc :
  XMCache_Get R b k xc =
  match rb_get (outputsCache xc) (makeRawKey b k) with
  | Some d => (read_written d, xc)
  | None =>
      match rb_get (inputsCache xc) (makeRawKey b k) with
      | Some d => (read_version d, xc)
      | None =>
          match xr_get R b k with
          | Ret d => (read_version d,
                      mkXMCache (rb_put (inputsCache xc) (makeRawKey b k) d) (outputsCache xc))
          | Err e => (Err e, xc)
          | Panic => (Panic, xc)
          end
      end
  end.
Proof.
  unfold XMCache_Get, getFromOuputsCache, getAndSetFromInputsCache, MemXModel_Get, read_version, read_written.
  destruct (rb_get (outputsCache xc) _) as [d|].
  { by destruct (IsDelFlag (vd_value d)). }
  rewrite !(bool_decide_eq_true_2 (ErrNotFound = ErrNotFound)) by done.
  unfold MemXModel_Put, mbnd, mfail, mpure. repeat dmatch; simplify_eq; reflexivity.
Qed.

(** The inputs after a forced read. *)
Definition forced_inputs (b k : string) xc : T :=
  if bool_decide (b = TransientBucket) then inputsCache xc
  else inputsCache (snd (XMCache_Get R b k xc)).

Lemma XMCache_Get_outputs b k xc : outputsCache (snd (XMCache_Get R b k xc)) = outputsCache xc.
Proof.
  rewrite XMCache_Get_eq. destruct (rb_get _ _); [done|].
  destruct (rb_get _ _); [done|]. by destruct (xr_get R b k).
Qed.

Lemma XMCache_Get_no_panic b k xc : never_panics R -> fst (XMCache_Get R b k xc) <> Panic.
Proof.
  intros HR. specialize (HR b k). rewrite XMCache_Get_eq. unfold read_version, read_written.
  repeat dmatch; cbn; done.
Qed.

Lemma XMCache_Put_eq b k v xc :
  never_panics R ->
  XMCache_Put R b k v xc =
  (Ret tt, mkXMCache (forced_inputs b k xc)
             (rb_put (outputsCache xc) (makeRawKey b k) (mkVD b k v None 0))).
Proof.
  intros HR. unfold XMCache_Put, forced_inputs.
  assert (exists o, getFromOuputsCache xc b k = o /\
    (o = Err ErrNotFound \/ o = Err ErrHasDel \/ exists d, o = Ret d)) as (o & -> & Ho).
  { eexists. split; [done|]. unfold getFromOuputsCache, MemXModel_Get.
    destruct (rb_get _ _) as [d|]; [destruct (IsDelFlag _)|]; eauto. }
  pose proof (XMCache_Get_no_panic b k xc HR) as Hnp.
  pose proof (XMCache_Get_outputs b k xc) as Hout.
  destruct Ho as [-> | [-> | [d ->]]]; bdec; cbn [negb andb];
    destruct (bool_decide (b = TransientBucket)); try done;
    destruct (XMCache_Get R b k xc) as [[a|e|] xc']; cbn in *; try done; by rewrite Hout.
Qed.

Lemma XMCache_Get_inputs_sub b k xc :
  tree_sub (inputsCache xc) (inputsCache (snd (XMCache_Get R b k xc))).
Proof using All.
  rewrite XMCache_Get_eq. destruct (rb_get (outputsCache xc) _); [by cbn|].
  destruct (rb_get (inputsCache xc) _) eqn:E; [by cbn|].
  destruct (xr_get R b k); cbn; try done.
  intros raw d Hd. rewrite rb_get_put. case_decide; [congruence|done].
Qed.

Lemma forced_inputs_sub b k xc : tree_sub (inputsCache xc) (forced_inputs b k xc).
Proof using All.
  unfold forced_inputs. case_bool_decide; [done|]. apply XMCache_Get_inputs_sub.
Qed.

Hypothesis HR : reader_ok R.

Lemma XMCache_Get_labelled b k xc :
  labelled (inputsCache xc) -> labelled (inputsCache (snd (XMCache_Get R b k xc))).
Proof using All.
  intros Hl. rewrite XMCache_Get_eq. destruct (rb_get (outputsCache xc) _); [by cbn|].
  destruct (rb_get (inputsCache xc) _) eqn:E; [by cbn|].
  destruct (HR b k) as (d & -> & Hraw & _). cbn. intros raw d'. rewrite rb_get_put.
  case_decide; [|apply Hl]. intros; simplify_eq. done.
Qed.

Lemma forced_inputs_labelled b k xc :
  labelled (inputsCache xc) -> labelled (forced_inputs b k xc).
Proof using All.
  intros Hl. unfold forced_inputs. case_bool_decide; [done|]. by apply XMCache_Get_labelled.
Qed.
End CacheOps.

(** ** The cache as a key-value store *)

(** What an entry of a cache tree says about itself. *)
Definition wf_entry (raw : string) (d : VersionedData) : Prop :=
  raw = makeRawKey (vd_bucket d) (vd_key d) /\ no_slash (vd_bucket d) = true.

Definition in_range (start limit k : string) : Prop := str_le start k /\ str_lt k limit.

#[global] Instance in_range_dec start limit k : Decision (in_range start limit k).
Proof. unfold in_range. apply _. Defined.

Lemma makeRawKey_assoc b k : makeRawKey b k = (b +:+ BucketSeperator) +:+ k.
Proof.
  unfold makeRawKey. induction b as [|c b IH]; [done|]. rewrite !app_String. by rewrite IH.
Qed.

Lemma makeRawKey_compare b k1 k2 :
  String.compare (makeRawKey b k1) (makeRawKey b k2) = String.compare k1 k2.
Proof. rewrite !makeRawKey_assoc. apply string_compare_app. Qed.

Section MemSelect.
Context {T : Type} `{RBTreeLaws T VersionedData}.

Definition wf_tree (t : T) : Prop := forall raw d, rb_get t raw = Some d -> wf_entry raw d.

Lemma take_below_spec lim l :
  StronglySorted key_lt l ->
  take_below (Some lim) l = (List.filter (fun kv => bool_decide (str_lt kv.1 lim)) l).*2.
Proof.
  induction 1 as [|[k v] l Hs IH Hf]; cbn; [done|]. case_bool_decide as Hk; cbn; [by rewrite IH|].
  replace (List.filter _ l) with (@nil (string * VersionedData)); [done|].
  clear IH Hs. induction Hf as [|[k' v'] l Hk' Hf IH]; cbn; [done|].
  rewrite bool_decide_eq_false_2; [done|]. intros Hlt. apply Hk. by eapply str_lt_trans.
Qed.

Lemma between_bucket (t : T) b s e raw d :
  wf_tree t -> no_slash b = true -> rb_get t raw = Some d ->
  str_le (makeRawKey b s) raw -> str_lt raw (makeRawKey b e) ->
  raw = makeRawKey b (vd_key d) /\ vd_bucket d = b /\ in_range s e (vd_key d).
Proof.
  intros Ht Hb Hd Hle Hlt. destruct (Ht raw d Hd) as [Hraw Hdb].
  rewrite makeRawKey_assoc in Hle. rewrite (makeRawKey_assoc b e) in Hlt.
  destruct (string_between_prefix _ _ _ _ Hle Hlt) as [y Hy].
  rewrite <- makeRawKey_assoc in Hle, Hlt, Hy. rewrite Hraw in Hy.
  apply makeRawKey_inj in Hy as [Hbb Hky]; [|done..].
  rewrite Hraw, Hbb. split_and!; [done..|].
  unfold in_range, str_le, str_lt in *.
  rewrite Hraw, Hbb, !makeRawKey_compare in Hle, Hlt. done.
Qed.

Lemma in_range_raw b s e k :
  in_range s e k ->
  str_le (makeRawKey b s) (makeRawKey b k) /\ str_lt (makeRawKey b k) (makeRawKey b e).
Proof. unfold in_range, str_le, str_lt. by rewrite !makeRawKey_compare. Qed.

Lemma selected_elem (t : T) b s e d :
  wf_tree t -> no_slash b = true ->
  d ∈ take_below (Some (makeRawKey b e)) (rb_from t (makeRawKey b s)) <->
  in_range s e (vd_key d) /\ rb_get t (makeRawKey b (vd_key d)) = Some d.
Proof using All.
  intros Ht Hb. rewrite take_below_spec by apply rb_from_sorted.
  rewrite list_elem_of_fmap. split.
  - intros ([raw d'] & -> & Hin). cbn [snd]. rewrite list_elem_of_In, List.filter_In, <- list_elem_of_In in Hin.
    destruct Hin as [[Hd Hle]%rb_from_spec Hlt%bool_decide_eq_true].
    destruct (between_bucket t b s e raw d' Ht Hb Hd Hle Hlt) as (Hr & _ & Hin).
    split; [done|]. by rewrite <- Hr.
  - intros [Hin Hd]. exists (makeRawKey b (vd_key d), d). split; [done|].
    rewrite list_elem_of_In, List.filter_In, <- list_elem_of_In, rb_from_spec.
    destruct (in_range_raw b s e _ Hin) as [? ?]. split_and!; [done..|]. by apply bool_decide_eq_true_2.
Qed.

Lemma selected_sorted (t : T) b s e :
  wf_tree t -> no_slash b = true ->
  vsorted (take_below (Some (makeRawKey b e)) (rb_from t (makeRawKey b s))).
Proof using All.
  intros Ht Hb. rewrite take_below_spec by apply rb_from_sorted.
  pose proof (rb_from_sorted t (makeRawKey b s)) as Hs.
  assert (forall raw d, (raw, d) ∈ rb_from t (makeRawKey b s) -> str_lt raw (makeRawKey b e) ->
                   raw = makeRawKey b (vd_key d)) as Hraw.
  { intros raw d [Hd Hle]%rb_from_spec Hlt. by apply (between_bucket t b s e). }
  induction Hs as [|[raw d] l Hs IH Hf]; cbn; [constructor|].
  assert (forall raw' d', (raw', d') ∈ l -> str_lt raw' (makeRawKey b e) ->
            raw' = makeRawKey b (vd_key d')) as Hraw' by (intros; apply Hraw; [by right|done]).
  case_bool_decide as Hlt; cbn; [|by apply IH]. constructor; [by apply IH|].
  rewrite Forall_forall in Hf. apply Forall_forall.
  intros y ([raw' y'] & -> & Hin)%list_elem_of_fmap.
  rewrite list_elem_of_In, List.filter_In, <- list_elem_of_In in Hin.
  destruct Hin as [Hin Hlt'%bool_decide_eq_true]. specialize (Hf _ Hin).
  unfold key_lt, vkey_lt, str_lt in *. cbn in *.
  rewrite (Hraw raw d), (Hraw' raw' y') in Hf by (done || by left).
  by rewrite makeRawKey_compare in Hf.
Qed.

(** An in-memory selection yields exactly the entries of the range, in key
    order. *)
Lemma MemXModel_Select_find (t : T) b s e :
  wf_tree t -> no_slash b = true -> b <> "" -> str_le s e ->
  exists l, MemXModel_Select t b s (Some e) = Ret l /\ vsorted l /\
    forall k, vfind k l = if decide (in_range s e k) then rb_get t (makeRawKey b k) else None.
Proof using All.
  intros Ht Hb Hne Hse. eexists. split; [|split; [by apply selected_sorted|]].
  - unfold MemXModel_Select. destruct b as [|c b]; [done|]. cbn [is_empty_string].
    rewrite bool_decide_eq_false_2; [done|]. intros Hlt.
    apply (str_lt_irrefl e). by eapply str_lt_le_trans.
  - intros k. apply option_eq. intros d. split.
    + intros [<- Hin%selected_elem]%vfind_key; [|done..]. destruct Hin. by rewrite decide_True.
    + case_decide as Hin; [|done]. intros Hd.
      assert (vd_key d = k) as <-.
      { destruct (Ht _ _ Hd) as [Hr ?]. by apply makeRawKey_inj in Hr as [_ ->]. }
      apply vfind_elem; [by apply selected_sorted|]. by apply selected_elem.
Qed.
End MemSelect.

(** What the code relies on of a range read of the state below: the versions
    of the keys of the range that were written and not deleted, in key order;
    deletion marks may be among them or not. *)
Definition reader_select_ok (R : XMReader) : Prop :=
  forall b s e, no_slash b = true -> b <> "" -> str_le s e ->
  exists l, xr_select R b s (Some e) = Ret l /\ vsorted l /\ Forall (fun v => in_range s e (vd_key v)) l /\
    forall k, vfind k (stripDelIterator l) =
      if decide (in_range s e k) then
        match xr_get R b k with
        | Ret d => if IsEmptyVersionedData d || IsDelFlag (vd_value d) then None else Some d
        | _ => None
        end
      else None.

Lemma vfind_stripDel l k :
  vsorted l ->
  vfind k (stripDelIterator l) =
  match vfind k l with
  | Some d => if IsDelFlag (vd_value d) then None else Some d
  | None => None
  end.
Proof.
  induction 1 as [|v l Hs IH Hf]; cbn; [done|].
  destruct (IsDelFlag (vd_value v)) eqn:E; cbn; case_bool_decide as Hk; rewrite ?E; try done.
  rewrite vfind_below; [done|]. rewrite Forall_forall in Hf |- *. intros w Hw.
  rewrite <- Hk. apply Hf. apply list_elem_of_In, List.filter_In in Hw as [Hw _]. by apply list_elem_of_In.
Qed.

Section KVStore.
Context {T : Type} `{RBTreeLaws T VersionedData}.
Variable R : XMReader.
Hypothesis HR : reader_ok R.
Implicit Types xc : XMCache T.

(** The value of a key as a contract sees it. *)
Definition cache_view xc (b k : string) : outcome blob :=
  match rb_get (outputsCache xc) (makeRawKey b k) with
  | Some d => read_written d
  | None => match xr_get R b k with Ret d => read_version d | Err e => Err e | Panic => Panic end
  end.

Definition cache_inv xc : Prop :=
  wf_tree (inputsCache xc) /\ wf_tree (outputsCache xc) /\
  forall raw d, rb_get (inputsCache xc) raw = Some d -> xr_get R (vd_bucket d) (vd_key d) = Ret d.

Lemma cache_inv_new : cache_inv NewXModelCache.
Proof using All.
  unfold cache_inv, wf_tree, NewXModelCache, NewMemXModel. cbn.
  split_and!; intros raw d; by rewrite rb_get_empty.
Qed.

Lemma inputs_read xc b k d :
  cache_inv xc -> no_slash b = true ->
  rb_get (inputsCache xc) (makeRawKey b k) = Some d -> xr_get R b k = Ret d.
Proof using All.
  intros (Hi & _ & Hc) Hb Hd. destruct (Hi _ _ Hd) as [Hr Hdb].
  apply makeRawKey_inj in Hr as [-> ->]; [|done..]. by eapply Hc.
Qed.

Lemma XMCache_Get_view xc b k :
  cache_inv xc -> no_slash b = true ->
  exists xc', XMCache_Get R b k xc = (cache_view xc b k, xc') /\ cache_inv xc' /\
              outputsCache xc' = outputsCache xc.
Proof using All.
  intros Hinv Hb. rewrite XMCache_Get_eq. unfold cache_view.
  destruct (rb_get (outputsCache xc) _) as [d|]; [by eexists|].
  destruct (rb_get (inputsCache xc) _) as [d|] eqn:Ei.
  { rewrite (inputs_read xc b k d) by done. by eexists. }
  destruct (HR b k) as (d & Hd & _ & Hlab). destruct (Hlab Hb) as [Hdb Hdk]. rewrite Hd. eexists. split; [done|]. split; [|done].
  destruct Hinv as (Hi & Ho & Hc). split_and!; cbn; [|done|]; intros raw d' Hd'; rewrite rb_get_put in Hd';
    case_decide; simplify_eq; [by unfold wf_entry|by apply Hi|done|by eapply Hc].
Qed.

Lemma XMCache_Put_view xc b k v :
  cache_inv xc -> no_slash b = true ->
  exists xc', XMCache_Put R b k v xc = (Ret tt, xc') /\ cache_inv xc' /\
    forall b' k', no_slash b' = true ->
      cache_view xc' b' k' =
      if decide ((b', k') = (b, k)) then (if IsDelFlag v then Err ErrHasDel else Ret v)
      else cache_view xc b' k'.
Proof using All.
  intros Hinv Hb. rewrite XMCache_Put_eq by (by apply reader_ok_never_panics).
  eexists. split; [done|]. split.
  - unfold forced_inputs. assert (cache_inv (mkXMCache
      (if bool_decide (b = TransientBucket) then inputsCache xc
       else inputsCache (snd (XMCache_Get R b k xc))) (outputsCache xc))) as (Hi & Ho & Hc).
    { case_bool_decide; [by destruct xc|].
      destruct (XMCache_Get_view xc b k Hinv Hb) as (xc' & -> & Hinv' & Hout).
      cbn. rewrite <- Hout. by destruct xc'. }
    split_and!; [exact Hi| |exact Hc]. cbn. intros raw d. rewrite rb_get_put.
    destruct (decide (makeRawKey b k = raw)) as [Hraw|_]; [|exact (Ho raw d)]. intros [= <-]. rewrite <- Hraw. by split.
  - intros b' k' Hb'. unfold cache_view. cbn. rewrite rb_get_put. unfold read_written.
    destruct (decide ((b', k') = (b, k))) as [E|E]; [simplify_eq; by rewrite decide_True|].
    rewrite decide_False; [done|]. intros Heq. apply E.
    apply makeRawKey_inj in Heq as [-> ->]; done.
Qed.

Lemma rset_fill_view b l xc :
  cache_inv xc -> no_slash b = true ->
  cache_inv (rset_fill R b l xc) /\ outputsCache (rset_fill R b l xc) = outputsCache xc.
Proof using All.
  intros Hinv Hb. revert xc Hinv. induction l as [|v l IH]; intros xc Hinv; [done|].
  cbn [rset_fill]. destruct (XMCache_Get_view xc b (vd_key v) Hinv Hb) as (xc' & -> & Hinv' & Hout).
  cbn [snd]. rewrite <- Hout. by apply IH.
Qed.

(** The value a selection gives for a key. *)
Definition select_view xc b k : option blob :=
  match rb_get (outputsCache xc) (makeRawKey b k) with
  | Some d => Some (vd_value d)
  | None =>
      match xr_get R b k with
      | Ret d =>
          if IsDelFlag (vd_value d) then None
          else if IsEmptyVersionedData d then
            match rb_get (inputsCache xc) (makeRawKey b k) with Some _ => Some (vd_value d) | None => None end
          else Some (vd_value d)
      | _ => None
      end
  end.

Lemma merged_find xc b k start limit (backend output input : list VersionedData) :
  cache_inv xc -> no_slash b = true ->
  vsorted backend -> vsorted output -> vsorted input ->
  (forall k, vfind k (stripDelIterator backend) = if decide (in_range start limit k) then
      match xr_get R b k with
      | Ret d => if IsEmptyVersionedData d || IsDelFlag (vd_value d) then None else Some d
      | _ => None
      end else None) ->
  (forall k, vfind k output = if decide (in_range start limit k) then rb_get (outputsCache xc) (makeRawKey b k) else None) ->
  (forall k, vfind k input = if decide (in_range start limit k) then rb_get (inputsCache xc) (makeRawKey b k) else None) ->
  vd_value <$> vfind k (multiIterator output (multiIterator (stripDelIterator input) (stripDelIterator backend))) =
  if decide (in_range start limit k) then select_view xc b k else None.
Proof using All.
  intros Hinv Hb Hsb Hso Hsi Hfb Hfo Hfi.
  rewrite multiIterator_find by auto using multiIterator_sorted, stripDel_sorted.
  rewrite multiIterator_find by auto using stripDel_sorted.
  rewrite (vfind_stripDel input) by done. rewrite Hfb, Hfo, Hfi. unfold select_view.
  case_decide; [|done]. destruct (rb_get (outputsCache xc) _); [done|].
  destruct (rb_get (inputsCache xc) _) as [d|] eqn:Ei.
  - rewrite (inputs_read xc b k d) by done. destruct (IsEmptyVersionedData d), (IsDelFlag (vd_value d)); done.
  - destruct (HR b k) as (d & -> & _). destruct (IsEmptyVersionedData d), (IsDelFlag (vd_value d)); done.
Qed.
End KVStore.

Lemma vsorted_fmap_find l k (v : blob) :
  vsorted l ->
  (k, v) ∈ (fun d => (vd_key d, vd_value d)) <$> l <-> vd_value <$> vfind k l = Some v.
Proof.
  intros Hs. rewrite list_elem_of_fmap, fmap_Some. split.
  - intros (d & [= -> ->] & Hd). exists d. split; [by apply vfind_elem|done].
  - intros (d & [<- Hd]%vfind_key & ->). by exists d.
Qed.

Lemma XMCache_Select_view {T} `{RBTreeLaws T VersionedData} (R : XMReader) (xc : XMCache T) b start limit :
  reader_ok R -> reader_select_ok R -> cache_inv R xc ->
  no_slash b = true -> b <> "" -> str_le start limit ->
  exists l xc',
    XMCache_Select R b start (Some limit) xc = (Ret l, xc') /\
    cache_inv R xc' /\ outputsCache xc' = outputsCache xc /\
    forall k v, (k, v) ∈ l <-> in_range start limit k /\ select_view R xc b k = Some v.
Proof.
  intros HR HS Hinv Hb Hne Hle.
  destruct (HS b start limit Hb Hne Hle) as (backend & Hsel & Hsb & _ & Hfb).
  destruct Hinv as (Hi & Ho & Hc) eqn:Hinv'.
  destruct (MemXModel_Select_find (outputsCache xc) b start limit Ho Hb Hne Hle) as (output & Eo & Hso & Hfo).
  destruct (MemXModel_Select_find (inputsCache xc) b start limit Hi Hb Hne Hle) as (input & Ei & Hsi & Hfi).
  unfold XMCache_Select. rewrite Hsel, Eo, Ei. do 2 eexists. split; [done|].
  destruct (rset_fill_view R HR b backend xc Hinv Hb) as [Hinv2 Hout].
  split_and!; [done..|]. intros k v.
  rewrite vsorted_fmap_find by auto using multiIterator_sorted, stripDel_sorted.
  rewrite (merged_find R HR xc b k start limit backend output input) by done.
  case_decide; split; [done|by intros []|done|by intros []].
Qed.

(** A range read through the cache yields exactly the pairs that the three
    sources define for the range: the pending write of a key when there is one
    (whatever its value), else the value recorded or stored below unless it is
    a deletion mark; the pending writes do not change. *)
Theorem XMCache_Select_spec {T} `{RBTreeLaws T VersionedData} (R : XMReader) (xc : XMCache T) b start limit :
  reader_ok R -> reader_select_ok R -> cache_inv R xc ->
  no_slash b = true -> b <> "" -> str_le start limit ->
  exists l xc',
    XMCache_Select R b start (Some limit) xc = (Ret l, xc') /\
    cache_inv R xc' /\ outputsCache xc' = outputsCache xc /\
    forall k v, (k, v) ∈ l <-> in_range start limit k /\ select_view R xc b k = Some v.
Proof. apply XMCache_Select_view. Qed.

(** A state with one key. *)
Definition ex_reader : XMReader := {|
  xr_get b k :=
    if bool_decide (k = "k") then Ret (mkVD b k (Raw "7") (Some "tx") 0) else Ret (mkVD b k (Raw "") None 0);
  xr_select b s e :=
    match e with
    | Some e => if bool_decide (str_le s "k" /\ str_lt "k" e) then Ret [mkVD b "k" (Raw "7") (Some "tx") 0] else Ret []
    | None => Ret []
    end
|}.

Lemma ex_reader_ok : reader_ok ex_reader.
Proof. intros b k. cbn. case_bool_decide; eexists; split_and!; done. Qed.

Lemma ex_reader_select_ok : reader_select_ok ex_reader.
Proof.
  intros b s e _ _ _. cbn. case_bool_decide as Hin; eexists; (split; [done|]); (split; [repeat constructor|]); (split; [repeat constructor; apply Hin|]);
    intros k; cbn; case_bool_decide as Hk.
  - subst k. by rewrite bool_decide_eq_true_2, decide_True.
  - case_decide; [|done]. by rewrite bool_decide_eq_false_2.
  - subst k. by rewrite decide_False.
  - case_decide; [|done]. done.
Qed.

Definition ex_cache : XMCache (gmap string VersionedData) :=
  snd (XMCache_Put ex_reader "b" "j" (Raw "1") NewXModelCache).

Lemma XMCache_Select_spec_witness :
  exists l xc', XMCache_Select ex_reader "b" "a" (Some "z") ex_cache = (Ret l, xc') /\
    ("j", Raw "1") ∈ l /\ ("k", Raw "7") ∈ l.
Proof.
  destruct (XMCache_Put_view ex_reader ex_reader_ok (NewXModelCache (T := gmap string VersionedData)) "b" "j" (Raw "1")
    (cache_inv_new _ ex_reader_ok) eq_refl) as (xc1 & Hput & Hinv & _).
  destruct (XMCache_Select_spec ex_reader ex_cache "b" "a" "z") as (l & xc' & Hs & _ & _ & Hl).
  - exact ex_reader_ok.
  - exact ex_reader_select_ok.
  - unfold ex_cache. rewrite Hput. exact Hinv.
  - reflexivity.
  - discriminate.
  - discriminate.
  - exists l, xc'. split; [exact Hs|]. rewrite !Hl. vm_compute. repeat split; discriminate.
Defined.

(** [Select] does not see deletions made in the same transaction: after
    [Del] of a key of the range, [Get] reports the key as deleted, yet the
    iterator yields it, with the deletion mark as its value. *)
Theorem Select_yields_deleted {T} `{RBTreeLaws T VersionedData} (R : XMReader) (xc : XMCache T) b k start limit :
  reader_ok R -> reader_select_ok R -> cache_inv R xc ->
  no_slash b = true -> b <> "" -> in_range start limit k ->
  exists xc1 l xc2,
    XMCache_Del R b k xc = (Ret tt, xc1) /\
    fst (XMCache_Get R b k xc1) = Err ErrHasDel /\
    XMCache_Select R b start (Some limit) xc1 = (Ret l, xc2) /\
    (k, DelFlag) ∈ l.
Proof.
  intros HR HS Hinv Hb Hne Hin.
  destruct (XMCache_Put_view R HR xc b k DelFlag Hinv Hb) as (xc1 & Hdel & Hinv1 & Hview).
  destruct (XMCache_Select_view R xc1 b start limit HR HS Hinv1 Hb Hne) as (l & xc2 & Hsel & _ & _ & Hl).
  { destruct Hin. apply str_le_lt_eq. left. by eapply str_le_lt_trans. }
  destruct (XMCache_Get_view R HR xc1 b k Hinv1 Hb) as (xc3 & Hget & _).
  exists xc1, l, xc2. split_and!; [done| |done|].
  - rewrite Hget. cbn [fst]. rewrite Hview by done. by rewrite decide_True.
  - apply Hl. split; [done|]. unfold XMCache_Del in Hdel.
    rewrite XMCache_Put_eq in Hdel by (by apply reader_ok_never_panics).
    injection Hdel as <-. unfold select_view. cbn [outputsCache].
    by rewrite rb_get_put, decide_True.
Qed.

Lemma Select_yields_deleted_witness :
  exists xc1 l xc2,
    XMCache_Del ex_reader "b" "k" (NewXModelCache (T := gmap string VersionedData)) = (Ret tt, xc1) /\
    fst (XMCache_Get ex_reader "b" "k" xc1) = Err ErrHasDel /\
    XMCache_Select ex_reader "b" "a" (Some "z") xc1 = (Ret l, xc2) /\ ("k", DelFlag) ∈ l.
Proof.
  apply (Select_yields_deleted ex_reader NewXModelCache "b" "k" "a" "z").
  - exact ex_reader_ok.
  - exact ex_reader_select_ok.
  - apply cache_inv_new. exact ex_reader_ok.
  - reflexivity.
  - discriminate.
  - split; [discriminate|reflexivity].
Defined.

(** ** Replaying a contract on its recorded read set

    A contract is a program of reads, range reads, writes and deletions whose next
    step may depend on what it read (the values, or the error). *)
Inductive prog (A : Type) : Type :=
| PDone (a : A)
| PGet (b k : string) (cont : blob + string -> prog A)
| PSelect (b start : string) (limit : option string) (cont : list (string * blob) + string -> prog A)
| PPut (b k : string) (v : blob) (cont : prog A)
| PDel (b k : string) (cont : prog A).
Arguments PDone {A}. Arguments PGet {A}. Arguments PSelect {A}. Arguments PPut {A}. Arguments PDel {A}.

Section Replay.
Context {T : Type} `{RBTreeLaws T VersionedData} {A : Type}.
Implicit Types (xc yc : XMCache T) (t : T).

Fixpoint run_prog (R : XMReader) (p : prog A) (xc : XMCache T) : outcome A * XMCache T :=
  match p with
  | PDone a => (Ret a, xc)
  | PGet b k cont =>
      match XMCache_Get R b k xc with
      | (Ret v, xc') => run_prog R (cont (inl v)) xc'
      | (Err e, xc') => run_prog R (cont (inr e)) xc'
      | (Panic, xc') => (Panic, xc')
      end
  | PSelect b start limit cont =>
      match XMCache_Select R b start limit xc with
      | (Ret l, xc') => run_prog R (cont (inl l)) xc'
      | (Err e, xc') => run_prog R (cont (inr e)) xc'
      | (Panic, xc') => (Panic, xc')
      end
  | PPut b k v cont =>
      match XMCache_Put R b k v xc with
      | (Ret _, xc') => run_prog R cont xc'
      | (Err e, xc') => (Err e, xc')
      | (Panic, xc') => (Panic, xc')
      end
  | PDel b k cont =>
      match XMCache_Del R b k xc with
      | (Ret _, xc') => run_prog R cont xc'
      | (Err e, xc') => (Err e, xc')
      | (Panic, xc') => (Panic, xc')
      end
  end.

(** The reader a verifier builds from a recorded read set. *)
Definition mem_reader (t : T) : XMReader := {|
  xr_get b k := MemXModel_Get t b k;
  xr_select b s e := MemXModel_Select t b s e
|}.

(** A key the run has read or written already. *)
Definition met xc (b k : string) : Prop :=
  is_Some (rb_get (inputsCache xc) (makeRawKey b k)) \/ is_Some (rb_get (outputsCache xc) (makeRawKey b k)).

(** The runs that can be replayed, [rset] being the read set they end with: buckets
    are named without the separator, ranges have two ends in order, and a key of a
    range that was never written is not read or written for the first time after the
    range was read. *)
Fixpoint replayable (R : XMReader) (rset : list VersionedData) (p : prog A) (xc : XMCache T) : Prop :=
  match p with
  | PDone _ => True
  | PGet b k cont => no_slash b = true /\
      match XMCache_Get R b k xc with
      | (Ret v, xc') => replayable R rset (cont (inl v)) xc'
      | (Err e, xc') => replayable R rset (cont (inr e)) xc'
      | (Panic, _) => True
      end
  | PSelect b start limit cont => no_slash b = true /\ b <> "" /\
      match limit with Some e => str_le start e /\
        Forall (fun d => vd_bucket d = b -> in_range start e (vd_key d) -> IsEmptyVersionedData d = true -> met xc b (vd_key d)) rset
      | None => False end /\
      match XMCache_Select R b start limit xc with
      | (Ret l, xc') => replayable R rset (cont (inl l)) xc'
      | (Err e, xc') => replayable R rset (cont (inr e)) xc'
      | (Panic, _) => True
      end
  | PPut b k v cont => no_slash b = true /\ replayable R rset cont (snd (XMCache_Put R b k v xc))
  | PDel b k cont => no_slash b = true /\ replayable R rset cont (snd (XMCache_Del R b k xc))
  end.

(** *** What a range read records *)

Lemma rset_fill_sub R b l : forall xc, tree_sub (inputsCache xc) (inputsCache (rset_fill R b l xc)).
Proof using All. induction l as [|v l IH]; intros xc; [done|]. cbn. etrans; [apply XMCache_Get_inputs_sub|apply IH]. Qed.

Lemma rset_fill_outputs R b l : forall xc, outputsCache (rset_fill R b l xc) = outputsCache xc.
Proof. induction l as [|v l IH]; intros xc; [done|]. cbn. by rewrite IH, XMCache_Get_outputs. Qed.

Lemma met_mono xc xc' b k : tree_sub (inputsCache xc) (inputsCache xc') -> outputsCache xc' = outputsCache xc -> met xc b k -> met xc' b k.
Proof. intros Hs Ho [[d Hd]|Hd]; [left; exists d; by apply Hs|right; by rewrite Ho]. Qed.

Lemma Get_met R b k xc d : xr_get R b k = Ret d -> met (snd (XMCache_Get R b k xc)) b k.
Proof using All.
  intros Hd. rewrite XMCache_Get_eq. unfold met. destruct (rb_get (outputsCache xc) _) eqn:Eo; cbn; [right; by rewrite Eo|].
  destruct (rb_get (inputsCache xc) _) eqn:Ei; cbn; [left; by rewrite Ei|]. rewrite Hd. cbn. left. rewrite rb_get_put, decide_True by done. by eexists.
Qed.

Lemma rset_fill_reads R b l : (forall v, v ∈ l -> exists d, xr_get R b (vd_key v) = Ret d) -> forall xc v, v ∈ l -> met (rset_fill R b l xc) b (vd_key v).
Proof using All.
  intros HR xc v Hv. revert xc. induction Hv as [v l|v w l Hv IH]; intros xc; cbn [rset_fill].
  - destruct (HR v ltac:(by left)) as [d Hd]. eapply met_mono; [apply rset_fill_sub|apply rset_fill_outputs|]. by eapply Get_met.
  - apply IH. intros u Hu. apply HR. by right.
Qed.

Lemma rset_fill_new R b l raw d : forall xc, rb_get (inputsCache (rset_fill R b l xc)) raw = Some d ->
  rb_get (inputsCache xc) raw = Some d \/ rb_get (outputsCache xc) raw = None /\ exists v, v ∈ l /\ raw = makeRawKey b (vd_key v).
Proof using All.
  induction l as [|v l IH]; intros xc; cbn [rset_fill]; [by left|]. intros [Hd|(Ho & w & Hw & ->)]%IH; [|right; rewrite XMCache_Get_outputs in Ho; split; [done|exists w; split; [by right|done]]].
  rewrite XMCache_Get_eq in Hd. destruct (rb_get (outputsCache xc) _) eqn:Eo; [by left|]. destruct (rb_get (inputsCache xc) (makeRawKey b (vd_key v))); [by left|].
  destruct (xr_get R b (vd_key v)); [|by left..]. cbn in Hd. rewrite rb_get_put in Hd. case_decide as E; [|by left]. subst raw. right. split; [done|]. exists v. split; [by left|done].
Qed.

Lemma vsorted_eq (l1 l2 : list VersionedData) : vsorted l1 -> vsorted l2 -> (forall k, vfind k l1 = vfind k l2) -> l1 = l2.
Proof.
  intros H1 H2 He. apply (StronglySorted_unique_strong vkey_lt); [|done|done|].
  - intros x y _ _ Hx Hy. exfalso. unfold vkey_lt in *. apply (str_lt_irrefl (vd_key x)). by eapply str_lt_trans.
  - assert (forall l, vsorted l -> NoDup l) as Hnd.
    { intros l. induction 1 as [|x l Hs IH Hf]; constructor; [|done]. intros Hx. rewrite Forall_forall in Hf. specialize (Hf x Hx). unfold vkey_lt in Hf. by apply str_lt_irrefl in Hf. }
    apply NoDup_Permutation; [by apply Hnd..|]. intros d. split; intros Hd%vfind_elem; try done; [rewrite He in Hd|rewrite <- He in Hd]; by apply vfind_key in Hd as [_ Hd].
Qed.

(** *** The replay follows the run *)

Section Follow.
Variable R : XMReader.
Hypothesis HR : reader_ok R.
Hypothesis HS : reader_select_ok R.
(** [t] holds what the run will have read in the end. *)
Variable t : T.
Hypothesis Ht : wf_tree t.
Hypothesis Hread : forall raw d, rb_get t raw = Some d -> xr_get R (vd_bucket d) (vd_key d) = Ret d.

(** The replay may have read deleted keys before the run does. *)
Record follows xc yc : Prop := {
  fo_outputs : tree_eq (outputsCache xc) (outputsCache yc);
  fo_inputs : tree_sub (inputsCache xc) (inputsCache yc);
  fo_read : tree_sub (inputsCache yc) t;
  fo_ahead : forall raw d, rb_get (inputsCache yc) raw = Some d -> rb_get (inputsCache xc) raw = None -> IsDelFlag (vd_value d) = true
}.

Lemma t_reads b k d : no_slash b = true -> rb_get t (makeRawKey b k) = Some d -> xr_get R b k = Ret d /\ vd_bucket d = b /\ vd_key d = k.
Proof using All. intros Hb Hd. destruct (Ht _ _ Hd) as [Hr Hdb]. apply makeRawKey_inj in Hr as [-> ->]; [|done..]. split; [by eapply Hread|done]. Qed.

Lemma Get_follows b k xc yc o xc' : XMCache_Get R b k xc = (o, xc') -> follows xc yc -> tree_sub (inputsCache xc') t ->
  exists yc', XMCache_Get (mem_reader t) b k yc = (o, yc') /\ follows xc' yc'.
Proof using All.
  intros Hget Hf Hsub. pose proof Hf as [Ho Hi Hr Ha]. rewrite XMCache_Get_eq in Hget |- *. rewrite <- (Ho (makeRawKey b k)).
  destruct (rb_get (outputsCache xc) _) as [d|]; [simplify_eq; by eexists|]. destruct (rb_get (inputsCache xc) _) as [d|] eqn:Ei; [simplify_eq; rewrite (Hi _ _ Ei); by eexists|].
  destruct (HR b k) as (d & Hd & _). rewrite Hd in Hget. simplify_eq. cbn [inputsCache] in Hsub. pose proof (Hsub (makeRawKey b k) d) as Hdt. rewrite rb_get_put, decide_True in Hdt by done. specialize (Hdt eq_refl).
  destruct (rb_get (inputsCache yc) (makeRawKey b k)) as [d'|] eqn:Ey.
  - assert (d' = d) as -> by (apply Hr in Ey; congruence). eexists. split; [done|]. split; cbn; [done| |done|]; intros raw e; rewrite rb_get_put; case_decide; intros; simplify_eq; eauto.
  - cbn. unfold MemXModel_Get. rewrite Hdt. eexists. split; [done|]. split; cbn; [done|..]; intros raw e; rewrite !rb_get_put; case_decide; intros; simplify_eq; eauto.
Qed.

Lemma mem_never_panics : never_panics (mem_reader t).
Proof. intros b k. cbn. unfold MemXModel_Get. by destruct (rb_get _ _). Qed.

Lemma Put_follows b k v xc yc o xc' : XMCache_Put R b k v xc = (o, xc') -> follows xc yc -> tree_sub (inputsCache xc') t ->
  exists yc', XMCache_Put (mem_reader t) b k v yc = (o, yc') /\ follows xc' yc'.
Proof using All.
  intros Hput Hf Hsub. rewrite XMCache_Put_eq in Hput |- * by auto using mem_never_panics, reader_ok_never_panics. simplify_eq. eexists. split; [done|]. cbn [inputsCache] in Hsub.
  assert (exists yc', follows (mkXMCache (forced_inputs R b k xc) (outputsCache xc)) (mkXMCache (forced_inputs (mem_reader t) b k yc) (outputsCache yc'))  /\ outputsCache yc' = outputsCache yc) as (yc' & [H1 H2 H3 H4] & E).
  { unfold forced_inputs in *. case_bool_decide; [exists yc; split; [by destruct xc, yc|done]|]. destruct (XMCache_Get R b k xc) as [o xc1] eqn:E.
    destruct (Get_follows b k xc yc o xc1 E Hf Hsub) as (yc1 & E1 & Hf1). rewrite E1. pose proof (XMCache_Get_outputs R b k xc) as O1. rewrite E in O1. pose proof (XMCache_Get_outputs (mem_reader t) b k yc) as O2. rewrite E1 in O2.
    cbn in *. exists yc1. rewrite <- O1. split; [by destruct xc1, yc1|done]. }
  split; cbn in *; [by rewrite (fo_outputs _ _ Hf)|done..].
Qed.

Lemma select_same xc yc b start limit backend backend' input input' output k :
  cache_inv R xc -> follows xc yc -> no_slash b = true ->
  vsorted backend -> vsorted backend' -> vsorted output -> vsorted input -> vsorted input' ->
  (forall k, vfind k (stripDelIterator backend) = if decide (in_range start limit k) then
      match xr_get R b k with
      | Ret d => if IsEmptyVersionedData d || IsDelFlag (vd_value d) then None else Some d
      | _ => None
      end else None) ->
  (forall k, vfind k backend' = if decide (in_range start limit k) then rb_get t (makeRawKey b k) else None) ->
  (forall k, vfind k output = if decide (in_range start limit k) then rb_get (outputsCache xc) (makeRawKey b k) else None) ->
  (forall k, vfind k input = if decide (in_range start limit k) then rb_get (inputsCache xc) (makeRawKey b k) else None) ->
  (forall k, vfind k input' = if decide (in_range start limit k) then rb_get (inputsCache yc) (makeRawKey b k) else None) ->
  (forall d, in_range start limit k -> rb_get t (makeRawKey b k) = Some d -> IsEmptyVersionedData d = true -> met xc b k) ->
  (forall d, in_range start limit k -> xr_get R b k = Ret d -> IsEmptyVersionedData d || IsDelFlag (vd_value d) = false -> rb_get (outputsCache xc) (makeRawKey b k) = None -> rb_get t (makeRawKey b k) = Some d) ->
  vfind k (multiIterator output (multiIterator (stripDelIterator input) (stripDelIterator backend))) =
  vfind k (multiIterator output (multiIterator (stripDelIterator input') (stripDelIterator backend'))).
Proof using All.
  intros Hinv [_ Hi Hr Ha] Hb Sb Sb' So Si Si' Fb Fb' Fo Fi Fi' Hfresh Hlive.
  rewrite !multiIterator_find by auto using multiIterator_sorted, stripDel_sorted. rewrite (vfind_stripDel input), (vfind_stripDel input'), (vfind_stripDel backend') by done.
  rewrite Fb, Fb', Fo, Fi, Fi'. case_decide as Hin; [|done]. destruct (rb_get (outputsCache xc) _) as [|] eqn:Eo; [done|]. destruct (HR b k) as (d & Hd & _). rewrite Hd.
  destruct (rb_get (inputsCache xc) _) as [e|] eqn:Ei.
  - rewrite (Hi _ _ Ei). pose proof (inputs_read R HR xc b k e Hinv Hb Ei) as He. rewrite Hd in He. injection He as ->. rewrite (Hr _ _ (Hi _ _ Ei)).
    destruct (IsEmptyVersionedData e), (IsDelFlag (vd_value e)); done.
  - destruct (rb_get (inputsCache yc) _) as [e|] eqn:Ey.
    + pose proof (Ha _ _ Ey Ei) as Hdel. pose proof (Hr _ _ Ey) as Et. destruct (t_reads _ _ _ Hb Et) as [He _]. rewrite Hd in He. injection He as ->. rewrite Et, Hdel, orb_true_r. done.
    + destruct (IsEmptyVersionedData d || IsDelFlag (vd_value d)) eqn:Ed; [|rewrite (Hlive d) by done; apply orb_false_iff in Ed as [_ ->]; done].
      destruct (rb_get t _) as [e|] eqn:Et; [|done]. destruct (t_reads _ _ _ Hb Et) as [He _]. rewrite Hd in He. injection He as ->. destruct (IsDelFlag (vd_value e)) eqn:Edel; [done|].
      rewrite orb_false_r in Ed. exfalso. destruct (Hfresh e Hin eq_refl Ed) as [[? ?]|[? ?]]; congruence.
Qed.

Lemma mem_fill_read b l : forall yc, tree_sub (inputsCache yc) t -> tree_sub (inputsCache (rset_fill (mem_reader t) b l yc)) t.
Proof using All.
  induction l as [|v l IH]; intros yc Hs; [done|]. cbn [rset_fill]. apply IH. rewrite XMCache_Get_eq. destruct (rb_get (outputsCache yc) _); [done|]. destruct (rb_get (inputsCache yc) _); [done|].
  cbn. unfold MemXModel_Get. destruct (rb_get t _) eqn:E; [|done]. cbn. intros raw d. rewrite rb_get_put. case_decide; [intros; by simplify_eq|apply Hs].
Qed.

(** The keys of a range that are live below are recorded. *)
Lemma live_recorded b start limit backend xc k d : no_slash b = true -> vsorted backend ->
  (forall k, vfind k (stripDelIterator backend) = if decide (in_range start limit k) then
      match xr_get R b k with
      | Ret d => if IsEmptyVersionedData d || IsDelFlag (vd_value d) then None else Some d
      | _ => None
      end else None) ->
  in_range start limit k -> xr_get R b k = Ret d -> IsEmptyVersionedData d || IsDelFlag (vd_value d) = false ->
  rb_get (outputsCache xc) (makeRawKey b k) = None -> is_Some (rb_get (inputsCache (rset_fill R b backend xc)) (makeRawKey b k)).
Proof using All.
  intros Hb Hsb Hfb Hin Hd Hl Ho. specialize (Hfb k). rewrite decide_True, Hd, Hl in Hfb by done. apply vfind_key in Hfb as [<- Hv]. apply list_elem_of_In, List.filter_In in Hv as [Hv _]. apply list_elem_of_In in Hv.
  destruct (rset_fill_reads R b backend ltac:(intros v _; destruct (HR b (vd_key v)) as (e & He & _); by exists e) xc d Hv) as [?|Hout]; [done|]. rewrite rset_fill_outputs, Ho in Hout. by destruct Hout.
Qed.

Lemma MemXModel_Select_proper (t1 t2 : T) b start limit : tree_eq t1 t2 -> MemXModel_Select t1 b start limit = MemXModel_Select t2 b start limit.
Proof using All. intros Hte. unfold MemXModel_Select. by rewrite (rb_from_proper _ _ (makeRawKey b start) Hte). Qed.

Lemma fill_follows b start limit backend backend' xc yc : no_slash b = true -> vsorted backend -> vsorted backend' -> follows xc yc ->
  tree_sub (inputsCache (rset_fill R b backend xc)) t -> Forall (fun v => in_range start limit (vd_key v)) backend ->
  (forall k, vfind k (stripDelIterator backend) = if decide (in_range start limit k) then
      match xr_get R b k with
      | Ret d => if IsEmptyVersionedData d || IsDelFlag (vd_value d) then None else Some d
      | _ => None
      end else None) ->
  (forall k, vfind k backend' = if decide (in_range start limit k) then rb_get t (makeRawKey b k) else None) ->
  (forall k d, in_range start limit k -> rb_get t (makeRawKey b k) = Some d -> IsEmptyVersionedData d = true -> met xc b k) ->
  follows (rset_fill R b backend xc) (rset_fill (mem_reader t) b backend' yc).
Proof using All.
  intros Hb Hsb Hsb' [Ho Hi Hr Ha] Hsub Hrange Hfb Hfb' Hfresh.
  assert (forall v, v ∈ backend' -> in_range start limit (vd_key v) /\ rb_get t (makeRawKey b (vd_key v)) = Some v) as Hv'.
  { intros v Hv. apply vfind_elem in Hv; [|done]. rewrite Hfb' in Hv. by case_decide. }
  assert (tree_sub (inputsCache (rset_fill (mem_reader t) b backend' yc)) t) as Hr' by by apply mem_fill_read.
  split.
  - by rewrite !rset_fill_outputs.
  - intros raw d Hd. pose proof (Hsub _ _ Hd) as Hdt. apply rset_fill_new in Hd as [Hd|(Hout & v & Hv & ->)]; [by apply rset_fill_sub, Hi|].
    rewrite Forall_forall in Hrange. specialize (Hrange v Hv). assert (vfind (vd_key v) backend' = Some d) as [Ek Hin]%vfind_key by (rewrite Hfb', decide_True by done; exact Hdt). rewrite <- Ek.
    destruct (rset_fill_reads (mem_reader t) b backend' ltac:(intros w Hw; destruct (Hv' w Hw) as [_ Ew]; exists w; cbn; unfold MemXModel_Get; by rewrite Ew) yc d Hin) as [[e He]|Hx].
    + rewrite He. f_equal. apply Hr' in He. rewrite Ek in He. congruence.
    + rewrite rset_fill_outputs, <- (Ho _), Ek, Hout in Hx. by destruct Hx.
  - done.
  - intros raw d Hd Hn. pose proof (Hr' _ _ Hd) as Hdt. apply rset_fill_new in Hd as [Hd|(Hout & v & Hv & ->)].
    + apply (Ha raw d Hd). destruct (rb_get (inputsCache xc) raw) eqn:E; [|done]. apply (rset_fill_sub R b backend) in E. congruence.
    + destruct (Hv' v Hv) as [Hin _]. rewrite <- (Ho _) in Hout. destruct (t_reads _ _ _ Hb Hdt) as [Hrd _]. destruct (IsDelFlag (vd_value d)) eqn:Edel; [done|]. exfalso.
      destruct (IsEmptyVersionedData d) eqn:Ee.
      * destruct (Hfresh _ _ Hin Hdt Ee) as [[e He]|[e He]]; [|congruence]. apply (rset_fill_sub R b backend) in He. congruence.
      * destruct (live_recorded b start limit backend xc (vd_key v) d Hb Hsb Hfb Hin Hrd) as [e He]; [by rewrite Ee, Edel|done|congruence].
Qed.

Lemma Select_follows b start limit xc yc o xc' : cache_inv R xc -> no_slash b = true -> b <> "" -> str_le start limit ->
  XMCache_Select R b start (Some limit) xc = (o, xc') -> follows xc yc -> tree_sub (inputsCache xc') t ->
  (forall k d, in_range start limit k -> rb_get t (makeRawKey b k) = Some d -> IsEmptyVersionedData d = true -> met xc b k) ->
  exists yc', XMCache_Select (mem_reader t) b start (Some limit) yc = (o, yc') /\ follows xc' yc'.
Proof using All.
  intros Hinv Hb Hne Hle E Hf Hsub Hfresh. pose proof Hinv as (Wi & Wo & _). destruct (HS b start limit Hb Hne Hle) as (backend & Hsel & Hsb & Hrange & Hfb).
  destruct (MemXModel_Select_find (outputsCache xc) b start limit Wo Hb Hne Hle) as (output & Eo & Hso & Hfo).
  destruct (MemXModel_Select_find (inputsCache xc) b start limit Wi Hb Hne Hle) as (input & Ei & Hsi & Hfi).
  assert (wf_tree (inputsCache yc)) as Wy by (intros raw d Hd; apply Ht, (fo_read _ _ Hf), Hd).
  destruct (MemXModel_Select_find (inputsCache yc) b start limit Wy Hb Hne Hle) as (input' & Ei' & Hsi' & Hfi').
  destruct (MemXModel_Select_find t b start limit Ht Hb Hne Hle) as (backend' & Eb' & Hsb' & Hfb').
  unfold XMCache_Select in E |- *. rewrite Hsel, Eo, Ei in E. injection E as <- <-. cbn [xr_select mem_reader]. rewrite Eb', Ei', <- (MemXModel_Select_proper _ _ b start (Some limit) (fo_outputs _ _ Hf)), Eo.
  eexists. split; [|by eapply fill_follows]. do 3 f_equal. symmetry. apply vsorted_eq; [by auto using multiIterator_sorted, stripDel_sorted..|]. intros k.
  apply (select_same xc yc b start limit); try done; [by apply Hfresh|]. intros d Hin Hd Hl Hout.
  destruct (live_recorded b start limit backend xc k d Hb Hsb Hfb Hin Hd Hl Hout) as [e He]. apply Hsub in He. destruct (t_reads _ _ _ Hb He) as [He' _]. congruence.
Qed.

(** Whatever runs, the recorded inputs only grow. *)
Lemma run_prog_inputs p : forall xc o xc', run_prog R p xc = (o, xc') -> tree_sub (inputsCache xc) (inputsCache xc').
Proof using All.
  assert (forall b k v xc, tree_sub (inputsCache xc) (inputsCache (snd (XMCache_Put R b k v xc)))) as Hput.
  { intros b k v xc. rewrite XMCache_Put_eq by (by apply reader_ok_never_panics). cbn. apply forced_inputs_sub. }
  induction p as [a|b k cont IH|b start limit cont IH|b k v cont IH|b k cont IH]; intros xc o xc' Hrun; cbn in Hrun.
  - by simplify_eq.
  - pose proof (XMCache_Get_inputs_sub R b k xc) as Hs. destruct (XMCache_Get R b k xc) as [[v|e|] xc1]; [| |by simplify_eq]; (apply IH in Hrun; cbn in *; by etrans).
  - assert (tree_sub (inputsCache xc) (inputsCache (snd (XMCache_Select R b start limit xc)))) as Hs.
    { unfold XMCache_Select. destruct (xr_select R b start limit); [|done..]. destruct (MemXModel_Select (outputsCache xc) b start limit), (MemXModel_Select (inputsCache xc) b start limit); try done. apply rset_fill_sub. }
    destruct (XMCache_Select R b start limit xc) as [[v|e|] xc1]; [| |by simplify_eq]; (apply IH in Hrun; cbn in *; by etrans).
  - specialize (Hput b k v xc). destruct (XMCache_Put R b k v xc) as [[w|e|] xc1]; [|by simplify_eq..]. apply IH in Hrun. cbn in *. by etrans.
  - unfold XMCache_Del in Hrun. specialize (Hput b k DelFlag xc). destruct (XMCache_Put R b k DelFlag xc) as [[w|e|] xc1]; [|by simplify_eq..]. apply IH in Hrun. cbn in *. by etrans.
Qed.

Lemma put_step_follows b k v (cont : prog A) xc yc o xc' :
  (forall xc yc, run_prog R cont xc = (o, xc') -> cache_inv R xc -> replayable R (MemXModel_entries t) cont xc -> follows xc yc -> exists yc', run_prog (mem_reader t) cont yc = (o, yc') /\ follows xc' yc') ->
  tree_sub (inputsCache xc') t -> run_prog R (PPut b k v cont) xc = (o, xc') -> cache_inv R xc -> replayable R (MemXModel_entries t) (PPut b k v cont) xc -> follows xc yc ->
  exists yc', run_prog (mem_reader t) (PPut b k v cont) yc = (o, yc') /\ follows xc' yc'.
Proof using All.
  intros IH Hsub Hrun Hinv [Hb Hset] Hf. cbn in *. destruct (XMCache_Put_view R HR xc b k v Hinv Hb) as (xc1 & E & Hinv1 & _). rewrite E in Hrun, Hset. cbn in Hset.
  destruct (Put_follows b k v xc yc (Ret tt) xc1 E Hf) as (yc1 & -> & Hf1); [|by eapply IH]. etrans; [by eapply run_prog_inputs|done].
Qed.

Lemma run_follows p : forall xc yc o xc', run_prog R p xc = (o, xc') -> tree_sub (inputsCache xc') t -> cache_inv R xc -> replayable R (MemXModel_entries t) p xc -> follows xc yc ->
  exists yc', run_prog (mem_reader t) p yc = (o, yc') /\ follows xc' yc'.
Proof using All.
  induction p as [a|b k cont IH|b start limit cont IH|b k v cont IH|b k cont IH]; intros xc yc o xc' Hrun Hsub Hinv Hset Hf; cbn in Hrun |- *.
  - simplify_eq. eauto.
  - destruct Hset as [Hb Hset]. destruct (XMCache_Get_view R HR xc b k Hinv Hb) as (xc1 & E & Hinv1 & _). rewrite E in Hrun, Hset.
    destruct (Get_follows b k xc yc _ xc1 E Hf) as (yc1 & -> & Hf1).
    { destruct (cache_view R xc b k); [| |by simplify_eq]; (etrans; [by eapply run_prog_inputs|done]). }
    destruct (cache_view R xc b k); [by eapply IH..|]. simplify_eq. eauto.
  - destruct Hset as (Hb & Hne & Hlim & Hset). destruct limit as [e|]; [|done]. destruct Hlim as [Hle Hfresh].
    destruct (XMCache_Select_view R xc b start e HR HS Hinv Hb Hne Hle) as (l & xc1 & E & Hinv1 & _). rewrite E in Hrun, Hset.
    destruct (Select_follows b start e xc yc _ xc1 Hinv Hb Hne Hle E Hf) as (yc1 & -> & Hf1); [etrans; [by eapply run_prog_inputs|done]| |by eapply IH].
    intros k d Hin Hd Hemp. destruct (t_reads _ _ _ Hb Hd) as (_ & Edb & <-). rewrite Forall_forall in Hfresh. apply (Hfresh d); try done.
    unfold MemXModel_entries. apply list_elem_of_fmap. eexists (_, d). split; [done|]. apply rb_from_spec. split; [exact Hd|apply str_le_empty].
  - eapply put_step_follows; try done. intros; by eapply IH.
  - eapply (put_step_follows b k DelFlag cont); try done. intros; by eapply IH.
Qed.
End Follow.
End Replay.

Lemma run_prog_inv {T} `{RBTreeLaws T VersionedData} {A} (R : XMReader) rset (p : prog A) : reader_ok R -> reader_select_ok R ->
  forall xc o (xc' : XMCache T), run_prog R p xc = (o, xc') -> replayable R rset p xc -> cache_inv R xc -> cache_inv R xc'.
Proof.
  intros HR HS. induction p as [a|b k cont IH|b start limit cont IH|b k v cont IH|b k cont IH]; intros xc o xc' Hrun Hset Hinv; cbn in Hrun.
  - by simplify_eq.
  - destruct Hset as [Hb Hset]. destruct (XMCache_Get_view R HR xc b k Hinv Hb) as (xc1 & E & Hinv1 & _). rewrite E in Hrun, Hset. destruct (cache_view R xc b k); [by eapply IH..|by simplify_eq].
  - destruct Hset as (Hb & Hne & Hlim & Hset). destruct limit as [e|]; [|done]. destruct Hlim as [Hle _].
    destruct (XMCache_Select_view R xc b start e HR HS Hinv Hb Hne Hle) as (l & xc1 & E & Hinv1 & _). rewrite E in Hrun, Hset. by eapply IH.
  - destruct Hset as [Hb Hset]. destruct (XMCache_Put_view R HR xc b k v Hinv Hb) as (xc1 & E & Hinv1 & _). rewrite E in Hrun, Hset. by eapply IH.
  - destruct Hset as [Hb Hset]. unfold XMCache_Del in *. destruct (XMCache_Put_view R HR xc b k DelFlag Hinv Hb) as (xc1 & E & Hinv1 & _). rewrite E in Hrun, Hset. by eapply IH.
Qed.

(** C27: a contract that ran against the chain state can be replayed by a
    verifier that only has the read set it recorded: on a fresh cache above
    [XMReaderFromRWSet] of that read set, the same program of reads, range reads,
    writes and deletions ends in the same way, with the same read set and the same
    write set.  This is what lets a node check a transaction's recorded effects
    without its state.  The conditions are those of [replayable]: buckets have no
    separator in their name, a range has two ends in order, and once a range was
    read, no key of it that was never written is read or written for the first time.
    Without the last one the replay differs: [fresh_key_spoils_replay]. *)
Theorem replay_on_read_set {T} `{RBTreeLaws T VersionedData} {A} (R : XMReader) (p : prog A)
    (o : outcome A) (xc' : XMCache T) :
  reader_ok R -> reader_select_ok R ->
  run_prog R p NewXModelCache = (o, xc') -> replayable R (getReadSets xc') p (NewXModelCache : XMCache T) ->
  exists yc' : XMCache T,
    run_prog (mem_reader (XMReaderFromRWSet (getReadSets xc') : T)) p NewXModelCache = (o, yc') /\
    getReadSets yc' = getReadSets xc' /\
    getWriteSets yc' = getWriteSets xc'.
Proof.
  intros HR HS Hrun Hset. unfold getReadSets, getWriteSets in *.
  assert (cache_inv R xc') as (Wi & _ & Hc) by (eapply run_prog_inv; [done..|]; by apply cache_inv_new).
  set (t := XMReaderFromRWSet (MemXModel_entries (inputsCache xc'))).
  assert (tree_eq t (inputsCache xc')) as Ht by (apply XMReaderFromRWSet_entries; intros raw d Hd; apply (Wi raw d Hd)).
  assert (wf_tree t) as Wt by (intros raw d; rewrite Ht; apply Wi).
  assert (forall raw d, rb_get t raw = Some d -> xr_get R (vd_bucket d) (vd_key d) = Ret d) as Hread by (intros raw d; rewrite Ht; apply Hc).
  destruct (run_follows R HR HS t Wt Hread p NewXModelCache NewXModelCache o xc' Hrun) as (yc' & E & [F1 F2 F3 F4]).
  - intros raw d. by rewrite Ht.
  - by apply cache_inv_new.
  - by rewrite (MemXModel_entries_proper _ _ Ht).
  - split; [done..| |]; intros raw d; cbn; unfold NewMemXModel; by rewrite rb_get_empty.
  - exists yc'. split; [exact E|]. split; apply MemXModel_entries_proper; [|by symmetry]. intros raw. apply option_eq. intros d. split; [intros Hd%F3; by rewrite <- Ht|apply F2].
Qed.

(** A contract that reads a key and a range, deletes the key and writes elsewhere
    what it read. *)
Definition ex_prog : prog (list (string * blob)) :=
  PGet "b" "k" (fun v => match v with
    | inl x => PDel "b" "k" (PPut "b" "j" x (PSelect "b" "a" (Some "z") (fun w => match w with inl l => PDone l | inr _ => PDone [] end)))
    | inr e => PDone []
    end).

Lemma replay_on_read_set_witness :
  exists yc' : XMCache (gmap string VersionedData),
    run_prog (mem_reader (XMReaderFromRWSet
      (getReadSets (snd (run_prog ex_reader ex_prog (NewXModelCache (T := gmap string VersionedData)))))
       : gmap string VersionedData)) ex_prog NewXModelCache = (Ret [("j", Raw "7"); ("k", DelFlag)], yc') /\
    length (getReadSets yc') = 2%nat /\ length (getWriteSets yc') = 2%nat.
Proof.
  destruct (replay_on_read_set ex_reader ex_prog (Ret [("j", Raw "7"); ("k", DelFlag)])
    (snd (run_prog ex_reader ex_prog (NewXModelCache (T := gmap string VersionedData))))) as (yc' & Hr & Hi & Ho).
  - exact ex_reader_ok.
  - exact ex_reader_select_ok.
  - vm_compute. reflexivity.
  - vm_compute. repeat (split || constructor); try discriminate; eexists; reflexivity.
  - exists yc'. split; [exact Hr|]. rewrite Hi, Ho. split; vm_compute; reflexivity.
Defined.

(** A range read followed by writing a key of the range that did not exist: the
    write reads the key and so puts it, empty, into the read set, from where the
    range read of the replay yields it. *)
Definition spoiled : prog nat :=
  PSelect "b" "a" (Some "z") (fun w => match w with inl l => PPut "b" "j" (Raw "1") (PDone (length l)) | inr _ => PDone 0%nat end).
Theorem fresh_key_spoils_replay :
  let run := run_prog ex_reader spoiled (NewXModelCache (T := gmap string VersionedData)) in
  let replay := run_prog (mem_reader (XMReaderFromRWSet (getReadSets (snd run)) : gmap string VersionedData)) spoiled NewXModelCache in
  fst run = Ret 1%nat /\ fst replay = Ret 2%nat.
Proof. vm_compute. split; reflexivity. Qed.
