(* ===== verification/KContext.v ===== *)
(** * Kernel contracts and the calls between them

    [kernel/contract]: resource limits ([resource.go]), the registry of kernel
    methods ([manager/registry_impl.go]), the context a kernel method runs in
    ([kernel/kcontext_impl.go], [kernel/vm.go]) and the call of one contract by
    another ([bridge/syscall_service.go], [bridge/xbridge.go],
    [bridge/context_impl.go]).

    A kernel method reads and writes a state sandbox through the interface
    [StateSandbox]; what it may rely on is the class [StateSandboxLaws], which
    the cache of the file Sandbox satisfies. *)

From Stdlib Require Import ZArith Lia Ascii.
From stdpp Require Import base gmap strings list numbers sorting.
From S2P Require Import Prelude GoValues Sandbox.

Set Default Proof Using "Type".

(** ** Resource limits *)

Record Limits := mkLimits { Cpu : Z; Memory : Z; Disk : Z; XFee : Z }.

Definition maxResourceLimit : Z := 4294967295.
Definition MaxLimits : Limits := mkLimits maxResourceLimit maxResourceLimit maxResourceLimit maxResourceLimit.
Definition NoLimits : Limits := mkLimits 0 0 0 0.

Definition Limits_Add (l l1 : Limits) : Limits :=
  mkLimits (add64 (Cpu l) (Cpu l1)) (add64 (Memory l) (Memory l1)) (add64 (Disk l) (Disk l1)) (add64 (XFee l) (XFee l1)).

Definition Limits_Sub (l l1 : Limits) : Limits :=
  mkLimits (sub64 (Cpu l) (Cpu l1)) (sub64 (Memory l) (Memory l1)) (sub64 (Disk l) (Disk l1)) (sub64 (XFee l) (XFee l1)).

Definition Limits_Exceed (l l1 : Limits) : bool :=
  ((Cpu l1 <? Cpu l) || (Memory l1 <? Memory l) || (Disk l1 <? Disk l) || (XFee l1 <? XFee l))%Z.

Record GasPrice := mkGasPrice { CpuRate : Z; MemRate : Z; DiskRate : Z; XfeeRate : Z }.

Definition roundup (n scale : Z) : Z :=
  if (scale =? 0)%Z then 0%Z else quot64 (sub64 (add64 n scale) 1) scale.

Definition TotalGas (l : Limits) (gasPrice : GasPrice) : Z :=
  add64 (add64 (add64 (roundup (Cpu l) (CpuRate gasPrice)) (roundup (Memory l) (MemRate gasPrice)))
               (roundup (Disk l) (DiskRate gasPrice)))
        (roundup (XFee l) (XfeeRate gasPrice)).

(** The enumeration is a 32-bit number on the wire; these four have a name. *)
Definition ResourceType : Type := Z.
Definition CPU : ResourceType := 0%Z.
Definition MEMORY : ResourceType := 1%Z.
Definition DISK : ResourceType := 2%Z.
Definition XFEE : ResourceType := 3%Z.

(** A later limit of the same type overrides an earlier one; other types are
    passed over. *)
Definition FromPbLimits (rlimits : list (ResourceType * Z)) : Limits :=
  foldl (fun limits '(t, n) =>
    if (t =? CPU)%Z then mkLimits n (Memory limits) (Disk limits) (XFee limits)
    else if (t =? MEMORY)%Z then mkLimits (Cpu limits) n (Disk limits) (XFee limits)
    else if (t =? DISK)%Z then mkLimits (Cpu limits) (Memory limits) n (XFee limits)
    else if (t =? XFEE)%Z then mkLimits (Cpu limits) (Memory limits) (Disk limits) n
    else limits) NoLimits rlimits.

Definition ToPbLimits (limits : Limits) : list (ResourceType * Z) :=
  [(CPU, Cpu limits); (MEMORY, Memory limits); (DISK, Disk limits); (XFEE, XFee limits)].

(** ** The state sandbox as an interface *)

Class StateSandbox (S : Type) := {
  sb_get : string -> string -> M S blob;
  sb_put : string -> string -> blob -> M S unit;
  sb_del : string -> string -> M S unit;
  sb_select : string -> string -> option string -> M S (list (string * blob))
}.

(** A store whose contents are a function of bucket and key: a read returns
    the contents and leaves them, a write or a deletion changes the contents
    of its key only.  A selection yields every key of its range that has a
    value; it may also yield keys that have none. *)
Class StateSandboxLaws (S : Type) `{StateSandbox S} := {
  sb_inv : S -> Prop;
  sb_view : S -> string -> string -> outcome blob;
  sb_view_no_panic s b k : sb_view s b k <> Panic;
  sb_get_law s b k :
    sb_inv s -> no_slash b = true ->
    exists s', sb_get b k s = (sb_view s b k, s') /\ sb_inv s' /\
               forall b' k', sb_view s' b' k' = sb_view s b' k';
  sb_put_law s b k v :
    sb_inv s -> no_slash b = true ->
    exists s', sb_put b k v s = (Ret tt, s') /\ sb_inv s' /\
      forall b' k', no_slash b' = true ->
        sb_view s' b' k' =
        if decide ((b', k') = (b, k)) then (if IsDelFlag v then Err ErrHasDel else Ret v)
        else sb_view s b' k';
  sb_del_law s b k : sb_del b k s = sb_put b k DelFlag s;
  sb_select_law s b start limit :
    sb_inv s -> no_slash b = true -> b <> "" -> str_le start limit ->
    exists l s', sb_select b start (Some limit) s = (Ret l, s') /\ sb_inv s' /\
      (forall b' k', sb_view s' b' k' = sb_view s b' k') /\
      (forall k v, (k, v) ∈ l -> in_range start limit k) /\
      (forall k v, in_range start limit k -> sb_view s b k = Ret v -> (k, v) ∈ l)
}.

(** The cache satisfies the interface, above any state that answers reads. *)
Section XMCacheSandbox.
Context {T : Type} `{RBTreeLaws T VersionedData} (R : XMReader).
Hypothesis HR : reader_ok R.
Hypothesis HS : reader_select_ok R.

Definition XMCache_StateSandbox : StateSandbox (XMCache T) := {|
  sb_get := XMCache_Get R;
  sb_put := XMCache_Put R;
  sb_del := XMCache_Del R;
  sb_select := XMCache_Select R
|}.

Lemma cache_view_no_panic (xc : XMCache T) b k : cache_view R xc b k <> Panic.
Proof using HR.
  unfold cache_view. destruct (HR b k) as (d & -> & _). unfold read_written, read_version.
  repeat dmatch; discriminate.
Qed.

(** A key that has a value is selected with that value. *)
Lemma select_view_value (xc : XMCache T) b k v :
  cache_view R xc b k = Ret v -> select_view R xc b k = Some v.
Proof using HR.
  unfold cache_view, select_view, read_written, read_version.
  destruct (HR b k) as (d & -> & _). intros H1.
  repeat dmatch_in H1; simplify_eq; done.
Qed.

Program Definition XMCache_StateSandboxLaws : @StateSandboxLaws (XMCache T) XMCache_StateSandbox := {|
  sb_inv := cache_inv R;
  sb_view := cache_view R
|}.
Next Obligation. apply cache_view_no_panic. Qed.
Next Obligation.
  intros s b k Hinv Hb. destruct (XMCache_Get_view R HR s b k Hinv Hb) as (s' & Hg & Hinv' & Hout).
  exists s'. split_and!; [done..|]. intros b' k'. unfold cache_view. by rewrite Hout.
Qed.
Next Obligation. intros s b k v. by apply XMCache_Put_view. Qed.
Next Obligation. done. Qed.
Next Obligation.
  intros s b start limit Hinv Hb Hne Hle.
  destruct (XMCache_Select_view R s b start limit HR HS Hinv Hb Hne Hle) as (l & s' & Hs & Hinv' & Hout & Hl).
  exists l, s'. split_and!; [done..| | |].
  - intros b' k'. unfold cache_view. by rewrite Hout.
  - intros k v Hin. by apply Hl in Hin as [? _].
  - intros k v Hin Hv. apply Hl. split; [done|]. by apply select_view_value.
Qed.
End XMCacheSandbox.

(** ** The registry of kernel methods *)

Record shortcut := mkShortcut { OldMethod : string; sc_Contract : string; sc_Method : string }.

Record registryImpl (H : Type) := mkRegistry {
  methods : gmap string (gmap string H);
  shortcuts : gmap string shortcut
}.
Arguments mkRegistry {H}. Arguments methods {H}. Arguments shortcuts {H}.

Section Registry.
Context {H : Type}.
Implicit Types r : registryImpl H.

Definition NewRegistry : registryImpl H := mkRegistry ∅ ∅.

(** A second registration of the same method panics. *)
Definition RegisterKernMethod (ctract method : string) (handler : H) : M (registryImpl H) unit := fun r =>
  let contractMap := default ∅ (methods r !! ctract) in
  match contractMap !! method with
  | Some _ => (Panic, mkRegistry (<[ctract := contractMap]> (methods r)) (shortcuts r))
  | None => (Ret tt, mkRegistry (<[ctract := <[method := handler]> contractMap]> (methods r)) (shortcuts r))
  end.

Definition UnregisterKernMethod (ctract method : string) r : registryImpl H :=
  match methods r !! ctract with
  | Some contractMap => mkRegistry (<[ctract := delete method contractMap]> (methods r)) (shortcuts r)
  | None => r
  end.

Definition RegisterShortcut (oldmethod ctract method : string) : M (registryImpl H) unit := fun r =>
  match shortcuts r !! oldmethod with
  | Some _ => (Panic, r)
  | None => (Ret tt, mkRegistry (methods r) (<[oldmethod := mkShortcut oldmethod ctract method]> (shortcuts r)))
  end.

Definition getShortcut r (method : string) : outcome shortcut :=
  match shortcuts r !! method with
  | Some sc => Ret sc
  | None => Err ("kernel method for `" +:+ method +:+ "' not found")
  end.

Definition GetKernMethod r (ctract method : string) : outcome H :=
  outcome_bind
    (if is_empty_string ctract then
       outcome_bind (getShortcut r method) (fun sc => Ret (sc_Contract sc, sc_Method sc))
     else Ret (ctract, method))
    (fun '(ctract, method) =>
       match methods r !! ctract with
       | None => Err ("kernel contract '" +:+ ctract +:+ "' not found")
       | Some contractMap =>
           match contractMap !! method with
           | Some contractMethod => Ret contractMethod
           | None => Err ("kernel method '" +:+ method +:+ "' for '" +:+ ctract +:+ "' not exists")
           end
       end).

(** A sequence of registrations, as the managers make them. *)
Fixpoint register_all (l : list (string * string * H)) : M (registryImpl H) unit :=
  match l with
  | [] => mpure tt
  | (c, m, h) :: l' => do! RegisterKernMethod c m h in register_all l'
  end.

(** Every method a sequence of registrations leaves came from it. *)
Lemma register_all_methods l r r' o c m h :
  register_all l r = (o, r') -> shortcuts r' = shortcuts r /\
  (methods r' !! c ≫= lookup m = Some h -> methods r !! c ≫= lookup m = Some h \/ (c, m, h) ∈ l).
Proof.
  revert r. induction l as [|[[c1 m1] h1] l IH]; intros r E; cbn [register_all] in E.
  { unfold mpure in E. simplify_eq. auto. }
  unfold mbnd, RegisterKernMethod in E. dmatch_in E.
  - simplify_eq. cbn. split; [done|]. intros Hl. left. revert Hl.
    destruct (decide (c = c1)) as [->|]; [|by rewrite lookup_insert_ne].
    rewrite lookup_insert_eq. cbn. by destruct (methods r !! c1) as [mm|]; cbn; rewrite ?lookup_empty.
  - apply IH in E as [Hs Hm]. cbn in *. split; [done|]. intros Hl. destruct (Hm Hl) as [Hr|Hin]; [|by right; right].
    clear Hm. destruct (decide (c = c1)) as [->|]; [|rewrite lookup_insert_ne in Hr by done; by left].
    rewrite lookup_insert_eq in Hr. cbn in Hr.
    destruct (decide (m = m1)) as [->|]; [rewrite lookup_insert_eq in Hr; simplify_eq; right; left|].
    rewrite lookup_insert_ne in Hr by done. left. by destruct (methods r !! c1) as [mm|]; cbn in *; rewrite ?lookup_empty in Hr.
Qed.

Lemma register_all_get l r' o c m h :
  register_all l NewRegistry = (o, r') -> GetKernMethod r' c m = Ret h -> exists c' m', (c', m', h) ∈ l.
Proof.
  intros E Hg. unfold GetKernMethod in Hg.
  assert (shortcuts r' = ∅) as Hs by (by destruct (register_all_methods l NewRegistry r' o c m h E)).
  destruct (is_empty_string c); cbn [outcome_bind] in Hg; [unfold getShortcut in Hg; by rewrite Hs in Hg|].
  destruct (register_all_methods l NewRegistry r' o c m h E) as [_ Hm].
  destruct (methods r' !! c) as [mm|] eqn:Ec; [|done]. cbn in Hm.
  destruct (mm !! m) as [h'|] eqn:Em; [|done]. injection Hg as ->.
  destruct (Hm eq_refl) as [Hn|Hin]; [by rewrite lookup_empty in Hn|eauto].
Qed.

Lemma Register_get_same r c m h r' :
  c <> "" -> RegisterKernMethod c m h r = (Ret tt, r') -> GetKernMethod r' c m = Ret h.
Proof.
  intros Hc Hr. unfold RegisterKernMethod in Hr. dmatch_in Hr; simplify_eq.
  unfold GetKernMethod. destruct c; [done|]. cbn. by simplify_map_eq.
Qed.

Lemma Register_get_other r c m h r' c' m' :
  c' <> "" -> (c', m') <> (c, m) -> RegisterKernMethod c m h r = (Ret tt, r') ->
  is_ret (GetKernMethod r' c' m') = is_ret (GetKernMethod r c' m') /\
  (forall h', GetKernMethod r' c' m' = Ret h' <-> GetKernMethod r c' m' = Ret h').
Proof.
  intros Hc Hne Hr. unfold RegisterKernMethod in Hr. dmatch_in Hr; simplify_eq.
  unfold GetKernMethod. destruct c' as [|a c']; [done|]. cbn [is_empty_string outcome_bind methods].
  destruct (decide (c = String a c')) as [->|Hcc]; [|by rewrite lookup_insert_ne].
  rewrite lookup_insert_eq. rewrite lookup_insert_ne by congruence.
  destruct (methods r !! _) as [mm|]; cbn [default from_option id]; [done|].
  rewrite lookup_empty. cbn. split; [done|]. intros h'. split; discriminate.
Qed.

Lemma register_all_keep l r r' c m h :
  c <> "" -> register_all l r = (Ret tt, r') -> GetKernMethod r c m = Ret h -> GetKernMethod r' c m = Ret h.
Proof.
  intros Hc. revert r. induction l as [|[[c1 m1] h1] l IH]; intros r E Hg; cbn [register_all] in E.
  { unfold mpure in E. by simplify_eq. }
  apply mbnd_inv_ret in E as ([] & r1 & E1 & E). apply (IH r1 E).
  destruct (decide ((c, m) = (c1, m1))) as [Heq|Hne]; [|by apply (Register_get_other r c1 m1 h1 r1 c m Hc Hne E1)].
  simplify_eq. exfalso. unfold RegisterKernMethod in E1. unfold GetKernMethod in Hg.
  destruct c1; [done|]. cbn [is_empty_string outcome_bind] in Hg.
  destruct (methods r !! _) as [mm|]; [|done]. cbn [default from_option id] in E1. by destruct (mm !! m1).
Qed.

(** What was registered is found. *)
Lemma register_all_found l r r' c m h :
  c <> "" -> register_all l r = (Ret tt, r') -> (c, m, h) ∈ l -> GetKernMethod r' c m = Ret h.
Proof.
  intros Hc. revert r. induction l as [|[[c1 m1] h1] l IH]; intros r E Hin; [by apply not_elem_of_nil in Hin|].
  cbn [register_all] in E. apply mbnd_inv_ret in E as ([] & r1 & E1 & E).
  apply elem_of_cons in Hin as [Heq|Hin]; [|by apply (IH r1 E)]. simplify_eq.
  apply (register_all_keep l r1 r' _ _ _ Hc E). by eapply Register_get_same.
Qed.
End Registry.

(** A kernel method registered under a contract name is what a later
    lookup finds, other names keep what they had, a second registration of the
    same name panics, and unregistering it makes the lookup fail. *)
Theorem registry_behaves {H} (r : registryImpl H) c m h :
  c <> "" -> is_ret (GetKernMethod r c m) = false ->
  exists r', RegisterKernMethod c m h r = (Ret tt, r') /\
    GetKernMethod r' c m = Ret h /\
    (forall c' m' h', c' <> "" -> (c', m') <> (c, m) ->
       GetKernMethod r' c' m' = Ret h' <-> GetKernMethod r c' m' = Ret h') /\
    (forall h2, fst (RegisterKernMethod c m h2 r') = Panic) /\
    is_ret (GetKernMethod (UnregisterKernMethod c m r') c m) = false.
Proof.
  intros Hc Hnone.
  assert (exists r', RegisterKernMethod c m h r = (Ret tt, r')) as [r' Hr].
  { unfold RegisterKernMethod. destruct (default ∅ (methods r !! c) !! m) eqn:E; [|by eexists].
    exfalso. unfold GetKernMethod in Hnone. destruct c; [done|]. cbn in Hnone.
    destruct (methods r !! _) as [mm|]; cbn in E; [by rewrite E in Hnone|by rewrite lookup_empty in E]. }
  exists r'. split_and!; [done|by eapply Register_get_same| | |].
  - intros c' m' h' Hc' Hne. by eapply Register_get_other.
  - intros h2. unfold RegisterKernMethod in Hr |- *. dmatch_in Hr; simplify_eq. cbn. by simplify_map_eq.
  - unfold RegisterKernMethod in Hr. dmatch_in Hr; simplify_eq.
    unfold UnregisterKernMethod, GetKernMethod. cbn. rewrite lookup_insert_eq.
    destruct c; [done|]. cbn. by rewrite lookup_insert_eq, lookup_delete_eq.
Qed.

Lemma registry_behaves_witness :
  exists r', RegisterKernMethod "$acl" "NewAccount" 7%Z NewRegistry = (Ret tt, r') /\
    GetKernMethod r' "$acl" "NewAccount" = Ret 7%Z.
Proof.
  destruct (registry_behaves (H := Z) NewRegistry "$acl" "NewAccount" 7%Z) as (r' & Hr & Hg & _).
  - discriminate.
  - reflexivity.
  - exists r'. split; assumption.
Defined.

(** ** Contexts and calls *)

Record Response := mkResponse { Status : Z; Message : string; Body : option blob }.

Definition StatusOK : Z := 200.
Definition StatusException : Z := 500.
Definition resp_ok (body : option blob) : Response := mkResponse StatusOK "success" body.

(** The part of [bridge.Context] a kernel method reads; [Args] is a Go map
    from names to byte slices, a missing name reads as nil. *)
Record Context := mkContext {
  ContractName : string;
  Initiator : string;
  Caller : string;
  AuthRequire : list string;
  Args : gmap string blob;
  ResourceLimits : Limits
}.

Section KContext.
Context {S : Type} `{StateSandbox S}.

(** The sandbox shared by every context of a transaction, the resources the
    running kernel method has used, and the contracts being called. *)
Record KState := mkKState { kst_sandbox : S; kst_used : Limits; kst_set : gset string }.

Definition CallFn : Type :=
  Context -> string -> string -> string -> gmap string blob -> M KState Response.

Definition KernMethod : Type := CallFn -> Context -> M KState Response.

Definition lift_sb {A} (c : M S A) : M KState A := fun s =>
  match c (kst_sandbox s) with
  | (o, sb) => (o, mkKState sb (kst_used s) (kst_set s))
  end.

Definition ctx_Get (b k : string) : M KState blob := lift_sb (sb_get b k).
Definition ctx_Put (b k : string) (v : blob) : M KState unit := lift_sb (sb_put b k v).
Definition ctx_Del (b k : string) : M KState unit := lift_sb (sb_del b k).
Definition ctx_Select (b s : string) (e : option string) : M KState (list (string * blob)) :=
  lift_sb (sb_select b s e).

Definition AddResourceUsed (delta : Limits) : M KState unit := fun s =>
  (Ret tt, mkKState (kst_sandbox s) (Limits_Add (kst_used s) delta) (kst_set s)).

Variable registry : registryImpl KernMethod.
(** [core.VerifyContractPermission]: the access-control check. *)
Variable VerifyContractPermission : string -> list string -> string -> string -> bool.
(** A contract of a virtual machine other than the kernel one. *)
Variable vm_invoke : string -> Context -> string -> M KState Response.

Definition MaxContractCallDepth : nat := 10.
Definition TimerTaskKernelContract : string := "$timer_task".
Definition TypeKernel : string := "xkernel".

(** [kernInstance.Exec] between the parts of [vmContextImpl.Invoke] before
    and after it. *)
Definition Invoke (call : CallFn) (ctx : Context) (method : string) : M KState Response :=
  if! bool_decide (method = "initialize") fails ("invalid contract method " +:+ method) in
  let! handler := mlift (GetKernMethod registry (ContractName ctx) method) in
  let! resp := handler call ctx in
  fun s => if Limits_Exceed (kst_used s) (ResourceLimits ctx) then (Err "resource exceeds", s)
           else (Ret resp, s).

(** [SyscallService.ContractCall]: the callee runs in a context of its own,
    on the same sandbox.  When the callee's context is made, its removal
    from the set of running contracts is deferred, so it happens on errors
    of the callee too. *)
Fixpoint ContractCall (fuel : nat) (nctx : Context) (module name method : string)
    (args : gmap string blob) : M KState Response := fun s =>
  match fuel with
  | O => (Panic, s)
  | Datatypes.S fuel =>
      if bool_decide (name ∈ kst_set s) && negb (bool_decide (name = TimerTaskKernelContract)) then
        (Err "recursive contract call not permitted", s)
      else if (MaxContractCallDepth <=? size (kst_set s))%nat then
        (Err "max contract call depth exceeds", s)
      else if negb (VerifyContractPermission (Initiator nctx) (AuthRequire nctx) name method) then
        (Err "verify contract permission failed", s)
      else
        let rest := Limits_Sub (Limits_Add NoLimits (ResourceLimits nctx)) (kst_used s) in
        let limits := mkLimits (Cpu rest) (Memory rest) (Disk (ResourceLimits nctx)) (XFee rest) in
        let ctx := mkContext name (Initiator nctx) (ContractName nctx) (AuthRequire nctx) args limits in
        let s1 := mkKState (kst_sandbox s) NoLimits ({[name]} ∪ kst_set s) in
        let invoked := if bool_decide (module = TypeKernel)
                       then Invoke (ContractCall fuel) ctx method s1
                       else vm_invoke module ctx method s1 in
        match invoked with
        | (o, s2) => (o, mkKState (kst_sandbox s2) (kst_used s) (kst_set s2 ∖ {[name]}))
        end
  end.
End KContext.
Arguments KState S : clear implicits.
Arguments mkKState {S} _ _ _.
Arguments KernMethod S : clear implicits.
Arguments CallFn S : clear implicits.

(** ** What a method sees of its state *)

Section KView.
Context {S : Type} `{StateSandboxLaws S}.
Implicit Types s : KState S.

Definition kinv s : Prop := sb_inv (kst_sandbox s).
Definition kview s (b k : string) : outcome blob := sb_view (kst_sandbox s) b k.

(** States that no contract can tell apart. *)
Definition kequiv s s' : Prop :=
  (forall b k, kview s b k = kview s' b k) /\ kst_used s = kst_used s' /\ kst_set s = kst_set s'.

#[global] Instance kequiv_equivalence : Equivalence kequiv.
Proof.
  split.
  - intros s. by split_and!.
  - intros s s' (?&?&?). by split_and!.
  - intros s1 s2 s3 (E1 & ? & ?) (E2 & ? & ?). split_and!; [|congruence..]. intros b k. by rewrite E1.
Qed.

#[global] Instance kview_proper : Proper (kequiv ==> (=) ==> (=) ==> (=)) kview.
Proof. intros s s' (Hv & _) b ? <- k ? <-. apply Hv. Qed.

(** The contents after a write. *)
Definition written (v : blob) : outcome blob := if IsDelFlag v then Err ErrHasDel else Ret v.

Lemma written_number z : written (Raw (bigString z)) = Ret (Raw (bigString z)).
Proof.
  unfold written. destruct (IsDelFlag (Raw (bigString z))) eqn:E; [|done]. exfalso.
  assert (bigString z = String "000"%char "") as Hz.
  { cbn in E. destruct (bigString z) as [|[[] [] [] [] [] [] [] []] [|]]; done. }
  pose proof (SetString_bigString z) as Hs. by rewrite Hz in Hs.
Qed.

(** [s'] is [s] with the contents of one key changed. *)
Definition kupdate s (b k : string) (o : outcome blob) s' : Prop :=
  (forall b' k', no_slash b' = true ->
     kview s' b' k' = if decide ((b', k') = (b, k)) then o else kview s b' k') /\
  kst_used s' = kst_used s /\ kst_set s' = kst_set s.

Lemma kupdate_at s b k o s' : no_slash b = true -> kupdate s b k o s' -> kview s' b k = o.
Proof. intros Hb [Hv _]. rewrite Hv by done. by rewrite decide_True. Qed.

Lemma kupdate_other s b k o s' b' k' :
  kupdate s b k o s' -> no_slash b' = true -> (b', k') <> (b, k) -> kview s' b' k' = kview s b' k'.
Proof. intros [Hv _] Hb' Hne. rewrite Hv by done. by rewrite decide_False. Qed.

Lemma kupdate_key s b k o s' k' :
  kupdate s b k o s' -> no_slash b = true -> k' <> k -> kview s' b k' = kview s b k'.
Proof. intros Hu Hb Hne. apply (kupdate_other _ _ _ _ _ _ _ Hu Hb). congruence. Qed.

Lemma kview_no_panic s b k : kview s b k <> Panic.
Proof. apply sb_view_no_panic. Qed.

Lemma ctx_Get_law s b k :
  kinv s -> no_slash b = true ->
  exists s', ctx_Get b k s = (kview s b k, s') /\ kinv s' /\ kequiv s s'.
Proof.
  intros Hi Hb. destruct (sb_get_law (kst_sandbox s) b k Hi Hb) as (sb & Hg & Hi' & Hv).
  unfold ctx_Get, lift_sb. rewrite Hg. eexists. split; [done|]. split; [done|].
  split_and!; [|done..]. intros b' k'. symmetry. apply Hv.
Qed.

Lemma ctx_Put_law s b k v :
  kinv s -> no_slash b = true ->
  exists s', ctx_Put b k v s = (Ret tt, s') /\ kinv s' /\ kupdate s b k (written v) s'.
Proof.
  intros Hi Hb. destruct (sb_put_law (kst_sandbox s) b k v Hi Hb) as (sb & Hg & Hi' & Hv).
  unfold ctx_Put, lift_sb. rewrite Hg. eexists. split; [done|]. split; [done|]. by split_and!.
Qed.

Lemma ctx_Del_law s b k :
  kinv s -> no_slash b = true ->
  exists s', ctx_Del b k s = (Ret tt, s') /\ kinv s' /\ kupdate s b k (Err ErrHasDel) s'.
Proof.
  intros Hi Hb. destruct (ctx_Put_law s b k DelFlag Hi Hb) as (s' & Hp & Hi' & Hu).
  exists s'. split; [|done]. rewrite <- Hp. unfold ctx_Del, ctx_Put, lift_sb. by rewrite sb_del_law.
Qed.

Lemma ctx_Select_law s b start limit :
  kinv s -> no_slash b = true -> b <> "" -> str_le start limit ->
  exists l s', ctx_Select b start (Some limit) s = (Ret l, s') /\ kinv s' /\ kequiv s s' /\
    (forall k v, (k, v) ∈ l -> in_range start limit k) /\
    (forall k v, in_range start limit k -> kview s b k = Ret v -> (k, v) ∈ l).
Proof.
  intros Hi Hb Hne Hle.
  destruct (sb_select_law (kst_sandbox s) b start limit Hi Hb Hne Hle) as (l & sb & Hs & Hi' & Hv & Hl).
  unfold ctx_Select, lift_sb. rewrite Hs. do 2 eexists. split; [done|]. split; [done|].
  split; [|done]. split_and!; [|done..]. intros b' k'. symmetry. apply Hv.
Qed.
End KView.

(** Step over a read or a write at the head of a goal [c s = ...]. *)
Ltac kget Hi Hb s' Hi' He :=
  match goal with
  | |- context [ctx_Get ?b ?k ?s] =>
      let Hg := fresh "Hg" in
      destruct (ctx_Get_law s b k Hi Hb) as (s' & Hg & Hi' & He); rewrite Hg; clear Hg
  end.
Ltac kput Hi Hb s' Hi' Hu :=
  match goal with
  | |- context [ctx_Put ?b ?k ?v ?s] =>
      let Hg := fresh "Hg" in
      destruct (ctx_Put_law s b k v Hi Hb) as (s' & Hg & Hi' & Hu); rewrite Hg; clear Hg
  end.

(** ** Code that leaves a bucket alone *)

Section Frames.
Context {S : Type} `{StateSandboxLaws S}.
Implicit Types s : KState S.

(** [c] keeps the contents of the bucket [P], however it ends. *)
Definition frames {A} (P : string) (c : M (KState S) A) : Prop :=
  forall s o s', kinv s -> c s = (o, s') -> kinv s' /\ forall k, kview s' P k = kview s P k.

Lemma frames_pure {A} P (a : A) : frames P (mpure a).
Proof. intros s o s' Hi E. unfold mpure in E. by simplify_eq. Qed.
Lemma frames_fail {A} P e : frames P (mfail e : M _ A).
Proof. intros s o s' Hi E. unfold mfail in E. by simplify_eq. Qed.
Lemma frames_panic {A} P : frames P (mpanic : M _ A).
Proof. intros s o s' Hi E. unfold mpanic in E. by simplify_eq. Qed.
Lemma frames_lift {A} P (o : outcome A) : frames P (mlift o).
Proof. intros s o' s' Hi E. unfold mlift in E. by simplify_eq. Qed.
Lemma frames_used P d : frames P (AddResourceUsed d).
Proof. intros s o s' Hi E. unfold AddResourceUsed in E. by simplify_eq. Qed.

Lemma frames_bnd {A B} P (c : M (KState S) A) (k : A -> M (KState S) B) :
  frames P c -> (forall a, frames P (k a)) -> frames P (mbnd c k).
Proof.
  intros Hc Hk s o s' Hi E. unfold mbnd in E. destruct (c s) as [r s1] eqn:Ec.
  destruct (Hc s r s1 Hi Ec) as [Hi1 Hv1]. destruct r as [a|e|]; [|by simplify_eq..].
  destruct (Hk a s1 o s' Hi1 E) as [Hi2 Hv2]. split; [done|]. intros k'. by rewrite Hv2.
Qed.

Lemma frames_bnd_lift {A B} P (o : outcome A) (k : A -> M (KState S) B) :
  (forall a, o = Ret a -> frames P (k a)) -> frames P (mbnd (mlift o) k).
Proof.
  intros Hk s o' s' Hi E. unfold mbnd, mlift in E. destruct o as [a|e|]; [|by simplify_eq..].
  by eapply Hk.
Qed.

Lemma frames_try {A} P (c : M (KState S) A) : frames P c -> frames P (mtry c).
Proof.
  intros Hc s o s' Hi E. unfold mtry in E. destruct (c s) as [r s1] eqn:Ec.
  destruct (Hc s r s1 Hi Ec). destruct r; by simplify_eq.
Qed.

Lemma frames_get P b k : no_slash b = true -> frames P (ctx_Get b k).
Proof.
  intros Hb s o s' Hi E. destruct (ctx_Get_law s b k Hi Hb) as (s1 & E1 & Hi1 & He).
  rewrite E in E1. simplify_eq. split; [done|]. intros k'. by rewrite He.
Qed.

Lemma frames_put P b k v : no_slash b = true -> no_slash P = true -> P <> b -> frames P (ctx_Put b k v).
Proof.
  intros Hb HP Hne s o s' Hi E. destruct (ctx_Put_law s b k v Hi Hb) as (s1 & E1 & Hi1 & Hu).
  rewrite E in E1. simplify_eq. split; [done|]. intros k'.
  apply (kupdate_other _ _ _ _ _ _ _ Hu HP). congruence.
Qed.

Lemma frames_select P b x y :
  no_slash b = true -> b <> "" -> str_le x y -> frames P (ctx_Select b x (Some y)).
Proof.
  intros Hb Hne Hle s o s' Hi E. destruct (ctx_Select_law s b x y Hi Hb Hne Hle) as (l & s1 & E1 & Hi1 & He & _).
  rewrite E in E1. simplify_eq. split; [done|]. intros k'. by rewrite He.
Qed.

Definition frames_call P (call : CallFn S) : Prop :=
  forall ctx m c d args, frames P (call ctx m c d args).

Definition frames_method P (h : KernMethod S) : Prop :=
  forall call ctx, frames_call P call -> frames P (h call ctx).

Definition registry_frames P (r : registryImpl (KernMethod S)) : Prop :=
  forall c m h, GetKernMethod r c m = Ret h -> frames_method P h.

Lemma Invoke_frames P r call ctx d : registry_frames P r -> frames_call P call -> frames P (Invoke r call ctx d).
Proof.
  intros Hr Hc. unfold Invoke. case_bool_decide; [apply frames_fail|].
  apply frames_bnd_lift. intros h Hh. apply frames_bnd; [by eapply Hr|].
  intros resp s o s' Hi E. destruct (Limits_Exceed _ _); by simplify_eq.
Qed.

(** When every registered method leaves a bucket alone provided the calls it
    makes do, then so does every contract call. *)
Lemma ContractCall_frames P r perm vm fuel :
  registry_frames P r -> (forall m ctx d, frames P (vm m ctx d)) ->
  frames_call P (ContractCall r perm vm fuel).
Proof.
  intros Hreg Hvm. induction fuel as [|fuel IH]; intros ctx m c d args s o s' Hi E; cbn [ContractCall] in E.
  { by simplify_eq. }
  do 3 (match type of E with (if ?b then _ else _) = _ => destruct b; [by simplify_eq|] end).
  match type of E with context [if bool_decide _ then Invoke _ _ ?cx _ ?s1 else _] =>
    assert (frames P (if bool_decide (m = TypeKernel) then Invoke r (ContractCall r perm vm fuel) cx d else vm m cx d)) as Hf
      by (case_bool_decide; [by apply Invoke_frames|apply Hvm]);
    specialize (Hf s1) end.
  case_bool_decide.
  all: match type of E with (let (_, _) := ?x in _) = _ => destruct x as [o2 s2] eqn:E2 end;
    destruct (Hf o2 s2 Hi eq_refl) as [Hi2 Hv2]; simplify_eq; split; [exact Hi2|exact Hv2].
Qed.
End Frames.

(** Decide that code leaves a bucket alone, from what it calls. *)
Create HintDb frames.
#[export] Hint Resolve frames_pure frames_fail frames_panic frames_lift frames_used frames_try : frames.
Ltac frames_solve :=
  cbv beta; repeat first
    [ solve [eauto with frames]
    | apply frames_bnd; [|intros ?]
    | apply frames_try
    | apply frames_get; reflexivity
    | apply frames_put; [reflexivity|reflexivity|discriminate]
    | match goal with
      | |- frames _ (if ?b then _ else _) => destruct b
      | |- frames _ (match ?x with _ => _ end) => destruct x
      | |- frames _ (let (_, _) := ?x in _) => destruct x
      end ].

(** ** A chain that stores nothing yet *)

Module Fresh.
Definition reader : XMReader := {|
  xr_get b k := Ret (mkVD b k (Raw "") None 0);
  xr_select b s e := Ret []
|}.

Lemma reader_is_ok : reader_ok reader.
Proof. intros b k. by eexists. Qed.

Lemma reader_selects : reader_select_ok reader.
Proof.
  intros b s e _ _ _. exists []. split_and!; [done|constructor|constructor|]. intros k. cbn. by case_decide.
Qed.

Definition store : Type := XMCache (gmap string VersionedData).
#[export] Instance store_sandbox : StateSandbox store := XMCache_StateSandbox reader.
#[export] Instance store_laws : StateSandboxLaws store :=
  XMCache_StateSandboxLaws reader reader_is_ok reader_selects.

(** The state in which a transaction that calls [name] starts. *)
Definition start (name : string) : KState store := mkKState NewXModelCache NoLimits {[name]}.

Lemma start_inv name : kinv (start name).
Proof. apply cache_inv_new. exact reader_is_ok. Qed.

Lemma start_view name b k : kview (start name) b k = Err ErrNotFound.
Proof. reflexivity. Qed.
End Fresh.
