(* ===== verification/GovernToken.v ===== *)
(** * Governance tokens

    [kernel/contract/proposal/govern_token/govern_token_contract.go] and the
    keys and types of [kernel/contract/proposal/utils]: the kernel contract
    [$govern_token], which keeps for each account a total balance and, for each
    kind of lock, the part of it that is locked.

    Balances are stored as JSON documents.  [*big.Int] members are numbers; the
    documents of the bucket are only written by this contract, which never
    writes a null, and a document with a member of another JSON type than the
    struct's is taken not to decode. *)

From Stdlib Require Import ZArith Lia Ascii.
From stdpp Require Import base gmap strings list numbers sorting.
From S2P Require Import Prelude GoValues Sandbox KContext.

Set Default Proof Using "Type".

(** ** Keys and types of the governance contracts *)

Definition governTokenBucket : string := "governToken".
Definition totalSupplyKey : string := "totalSupply".
Definition distributedKey : string := "distributed".
Definition MakeAccountBalanceKey (account : string) : string := "balanceOf" +:+ "_" +:+ account.

Definition GovernTokenTypeOrdinary : string := "ordinary".
Definition GovernTokenTypeTDPOS : string := "tdpos".
Definition GovernTokenKernelContract : string := "$govern_token".
Definition ProposalKernelContract : string := "$proposal".
Definition TDPOSKernelContract : string := "$tdpos".
Definition XPOSKernelContract : string := "$xpos".

Record GovernTokenBalance := mkBalance {
  TotalBalance : Z;
  LockedBalance : gmap string Z
}.

Definition no_locks : gmap string Z := {[GovernTokenTypeOrdinary := 0%Z; GovernTokenTypeTDPOS := 0%Z]}.

Definition NewGovernTokenBalance : GovernTokenBalance := mkBalance 0 no_locks.

(** [json.Marshal] of a balance. *)
Definition MarshalBalance (b : GovernTokenBalance) : blob :=
  Doc [("total_balance", JNum (TotalBalance b)); ("locked_balances", JObj (obj_of_map JNum (LockedBalance b)))].

(** [json.Unmarshal] on top of a balance that already holds values. *)
Definition UnmarshalBalance (buf : blob) (init : GovernTokenBalance) : option GovernTokenBalance :=
  match buf with
  | Raw t => if bool_decide (t = "null") then Some init else None
  | Doc fields =>
      match (match obj_get "total_balance" fields with
             | None => Some (TotalBalance init)
             | Some j => dec_num j
             end),
            (match obj_get "locked_balances" fields with
             | None => Some (LockedBalance init)
             | Some (JObj l) => map_of_obj dec_num l (LockedBalance init)
             | Some _ => None
             end) with
      | Some t, Some l => Some (mkBalance t l)
      | _, _ => None
      end
  end.

(** The total of a document decoded into a balance with nil members. *)
Definition UnmarshalTotal (buf : blob) : option Z :=
  match buf with
  | Raw _ => None
  | Doc fields => match obj_get "total_balance" fields with Some j => dec_num j | None => None end
  end.

(** [ps.Address], [ps.Quota]. *)
Record Predistribution := mkPredistribution { Address : string; Quota : string }.

Record GovKernMethod := mkGovKernMethod {
  NewGovResourceAmount : Z;
  Predistributions : list Predistribution
}.

Section GovernToken.
Context {S : Type} `{StateSandbox S}.
Variable t : GovKernMethod.

Definition ok_response (delta : Limits) : M (KState S) Response :=
  do! AddResourceUsed delta in mpure (resp_ok None).

Definition xfee (n : Z) : Limits := mkLimits 0 0 0 n.

(** The distribution loop, with the supply summed so far. *)
Fixpoint distribute (l : list Predistribution) (totalSupply : Z) : M (KState S) Z :=
  match l with
  | [] => mpure totalSupply
  | ps :: l' =>
      let amount := fst (SetString (Quota ps)) in
      if! (amount <? 0)%Z fails "init gov tokens failed, parse genesis account error, negative amount" in
      do! ctx_Put governTokenBucket (MakeAccountBalanceKey (Address ps)) (MarshalBalance (mkBalance amount no_locks)) in
      distribute l' (totalSupply + amount)
  end.

Definition InitGovernTokens : KernMethod S := fun _ ctx =>
  let! res := mtry (ctx_Get governTokenBucket distributedKey) in
  if! (match res with inl v => bool_decide (blob_string v = "true") | inr _ => false end)
    fails "Govern tokens has been initialized." in
  let! totalSupply := distribute (Predistributions t) 0 in
  do! ctx_Put governTokenBucket totalSupplyKey (Raw (bigString totalSupply)) in
  do! ctx_Put governTokenBucket distributedKey (Raw "true") in
  ok_response (xfee (NewGovResourceAmount t)).

Definition balanceOf (account : string) : M (KState S) GovernTokenBalance :=
  let! r := mtry (ctx_Get governTokenBucket (MakeAccountBalanceKey account)) in
  match r with
  | inr _ => mfail "no sender found"
  | inl buf =>
      match UnmarshalBalance buf NewGovernTokenBalance with
      | None => mfail "no sender found"
      | Some balance => mpure balance
      end
  end.

(** [balance, err := t.balanceOf(...)] with the caller's own message. *)
Definition with_message {A} (c : M (KState S) A) (e : string) : M (KState S) A :=
  let! r := mtry c in match r with inl a => mpure a | inr _ => mfail e end.

Definition gas : Z := Z.quot (NewGovResourceAmount t) 1000.

Definition TransferGovernTokens : KernMethod S := fun _ ctx =>
  if! (XFee (ResourceLimits ctx) <? gas)%Z
    fails ("gas not enough, expect no less than " +:+ bigString gas) in
  match Args ctx !! "to", Args ctx !! "amount" with
  | Some receiverBuf, Some amountBuf =>
      let sender := Initiator ctx in
      let (amount, isAmount) := blob_SetString amountBuf in
      if! (negb isAmount || (amount <? 0))%Z fails "transfer gov tokens failed, parse amount error" in
      let! senderBalance := with_message (balanceOf sender) "transfer gov tokens failed, query sender balance error" in
      if! negb (bool_decide (map_Forall (fun _ v => amount <= TotalBalance senderBalance - v)%Z (LockedBalance senderBalance)))
        fails "transfer gov tokens failed, sender's insufficient balance" in
      let senderBalance' := mkBalance (TotalBalance senderBalance - amount) (LockedBalance senderBalance) in
      let receiverKey := MakeAccountBalanceKey (blob_string receiverBuf) in
      let! old := mtry (ctx_Get governTokenBucket receiverKey) in
      let! receiverTotal := (match old with
                             | inr _ => mpure amount
                             | inl buf => match UnmarshalTotal buf with
                                          | Some o => mpure (amount + o)%Z
                                          | None => mpanic
                                          end
                             end) in
      do! ctx_Put governTokenBucket (MakeAccountBalanceKey sender) (MarshalBalance senderBalance') in
      do! ctx_Put governTokenBucket receiverKey (MarshalBalance (mkBalance receiverTotal no_locks)) in
      ok_response (xfee gas)
  | _, _ => mfail "transfer gov tokens failed, to is nil or amount is nil"
  end.

Definition lock_caller (caller : string) : bool :=
  bool_decide (caller = ProposalKernelContract) || bool_decide (caller = TDPOSKernelContract) ||
  bool_decide (caller = XPOSKernelContract).

Definition lock_type_ok (lockType : string) : bool :=
  bool_decide (lockType = GovernTokenTypeOrdinary) || bool_decide (lockType = GovernTokenTypeTDPOS).

(** A nil entry of the map of locks is dereferenced. *)
Definition lockedOf (balance : GovernTokenBalance) (lockType : string) : M (KState S) Z :=
  match LockedBalance balance !! lockType with
  | Some v => mpure v
  | None => mpanic
  end.

Definition LockGovernTokens : KernMethod S := fun _ ctx =>
  if! negb (lock_caller (Caller ctx))
    fails ("caller " +:+ Caller ctx +:+ " no authority to LockGovernTokens") in
  match Args ctx !! "from", Args ctx !! "amount", Args ctx !! "lock_type" with
  | Some accountBuf, Some amountBuf, Some lockTypeBuf =>
      let lockType := blob_string lockTypeBuf in
      if! negb (lock_type_ok lockType) fails ("lock gov tokens failed, lock_type invalid: " +:+ lockType) in
      let account := blob_string accountBuf in
      let! accountBalance := with_message (balanceOf account) "lock gov tokens failed, query account balance error" in
      let amountLock := fst (blob_SetString amountBuf) in
      let! locked := lockedOf accountBalance lockType in
      if! (TotalBalance accountBalance - locked <? amountLock)%Z
        fails "lock gov tokens failed, account available balance insufficient" in
      let accountBalance' :=
        mkBalance (TotalBalance accountBalance) (<[lockType := (locked + amountLock)%Z]> (LockedBalance accountBalance)) in
      do! ctx_Put governTokenBucket (MakeAccountBalanceKey account) (MarshalBalance accountBalance') in
      ok_response (xfee gas)
  | _, _, _ => mfail "lock gov tokens failed, account, amount or lock_type is nil"
  end.

Definition UnLockGovernTokens : KernMethod S := fun _ ctx =>
  if! negb (lock_caller (Caller ctx))
    fails ("caller " +:+ Caller ctx +:+ " no authority to UnLockGovernTokens") in
  match Args ctx !! "from", Args ctx !! "amount", Args ctx !! "lock_type" with
  | Some accountBuf, Some amountBuf, Some lockTypeBuf =>
      let account := blob_string accountBuf in
      let! accountBalance := with_message (balanceOf account) "unlock gov tokens failed, query account balance error" in
      let amountLock := fst (blob_SetString amountBuf) in
      let lockType := blob_string lockTypeBuf in
      if! negb (lock_type_ok lockType) fails ("unlock gov tokens failed, lock_type invalid: " +:+ lockType) in
      let! locked := lockedOf accountBalance lockType in
      let accountBalance' :=
        mkBalance (TotalBalance accountBalance) (<[lockType := (locked - amountLock)%Z]> (LockedBalance accountBalance)) in
      do! ctx_Put governTokenBucket (MakeAccountBalanceKey account) (MarshalBalance accountBalance') in
      ok_response (xfee gas)
  | _, _, _ => mfail "lock gov tokens failed, account, amount or lock_type is nil"
  end.

Definition QueryAccountGovernTokens : KernMethod S := fun _ ctx =>
  let account := match Args ctx !! "account" with Some b => blob_string b | None => "" end in
  let! r := mtry (balanceOf account) in
  match r with
  | inr e => mfail ("query account gov tokens balance failed, query account balance error:" +:+ e)
  | inl balance => mpure (resp_ok (Some (MarshalBalance balance)))
  end.

Definition TotalSupply : KernMethod S := fun _ ctx =>
  let! totalSupplyBuf := ctx_Get governTokenBucket totalSupplyKey in
  mpure (resp_ok (Some (Raw (bigString (fst (blob_SetString totalSupplyBuf)))))).

Definition gov_methods : list (string * string * KernMethod S) :=
  [(GovernTokenKernelContract, "Init", InitGovernTokens);
   (GovernTokenKernelContract, "Transfer", TransferGovernTokens);
   (GovernTokenKernelContract, "Lock", LockGovernTokens);
   (GovernTokenKernelContract, "UnLock", UnLockGovernTokens);
   (GovernTokenKernelContract, "Query", QueryAccountGovernTokens);
   (GovernTokenKernelContract, "TotalSupply", TotalSupply)].
End GovernToken.

(** ** Accounts as the contract sees them *)

Lemma MakeAccountBalanceKey_inj a b : MakeAccountBalanceKey a = MakeAccountBalanceKey b -> a = b.
Proof. unfold MakeAccountBalanceKey. intros E. by do 2 apply string_app_inj_l in E. Qed.

Lemma balance_key_not_supply a : MakeAccountBalanceKey a <> totalSupplyKey.
Proof. discriminate. Qed.
Lemma balance_key_not_distributed a : MakeAccountBalanceKey a <> distributedKey.
Proof. discriminate. Qed.

(** A balance the contract can have written: both kinds of lock are present,
    and what is locked is covered by the total. *)
Definition has_locks (b : GovernTokenBalance) : Prop :=
  is_Some (LockedBalance b !! GovernTokenTypeOrdinary) /\ is_Some (LockedBalance b !! GovernTokenTypeTDPOS).

Definition solvent (b : GovernTokenBalance) : Prop :=
  has_locks b /\ map_Forall (fun _ v => 0 <= v <= TotalBalance b)%Z (LockedBalance b).

Lemma has_locks_union b : has_locks b -> LockedBalance b ∪ no_locks = LockedBalance b.
Proof.
  intros [[x Hx] [y Hy]]. apply map_eq. intros k. rewrite lookup_union.
  unfold no_locks. destruct (decide (k = GovernTokenTypeOrdinary)) as [->|H1]; [by rewrite Hx|].
  destruct (decide (k = GovernTokenTypeTDPOS)) as [->|H2]; [by rewrite Hy|].
  rewrite lookup_insert_ne, lookup_singleton_ne by done. by destruct (LockedBalance b !! k).
Qed.

Lemma Unmarshal_MarshalBalance b init :
  UnmarshalBalance (MarshalBalance b) init = Some (mkBalance (TotalBalance b) (LockedBalance b ∪ LockedBalance init)).
Proof.
  unfold UnmarshalBalance, MarshalBalance. cbn [obj_get]. bdec. cbn [dec_num].
  by rewrite (map_of_obj_of_map JNum dec_num).
Qed.

Lemma Unmarshal_MarshalBalance_new b :
  has_locks b -> UnmarshalBalance (MarshalBalance b) NewGovernTokenBalance = Some b.
Proof.
  intros Hb. rewrite Unmarshal_MarshalBalance. cbn. rewrite has_locks_union by done. by destruct b.
Qed.

Lemma UnmarshalTotal_MarshalBalance b : UnmarshalTotal (MarshalBalance b) = Some (TotalBalance b).
Proof. unfold UnmarshalTotal, MarshalBalance. cbn [obj_get]. by bdec. Qed.

Lemma has_locks_no_locks n : has_locks (mkBalance n no_locks).
Proof. split; by eexists. Qed.

Lemma solvent_no_locks n : (0 <= n)%Z -> solvent (mkBalance n no_locks).
Proof.
  intros Hn. split; [apply has_locks_no_locks|]. intros k v Hv. cbn in *.
  apply lookup_insert_Some in Hv as [[_ <-]|[_ [_ <-]%lookup_singleton_Some]]; lia.
Qed.

Lemma solvent_total b : solvent b -> (0 <= TotalBalance b)%Z.
Proof. intros [[[x Hx] _] Hl]. specialize (Hl _ _ Hx). cbn in Hl. lia. Qed.

Lemma no_slash_gov : no_slash governTokenBucket = true.
Proof. reflexivity. Qed.

Section Accounts.
Context {S : Type} `{StateSandboxLaws S}.
Implicit Types s : KState S.

(** The balance of an account, [None] when it has none. *)
Definition account s (a : string) : option GovernTokenBalance :=
  match kview s governTokenBucket (MakeAccountBalanceKey a) with
  | Ret buf => UnmarshalBalance buf NewGovernTokenBalance
  | _ => None
  end.

(** Every account document was written by the contract and is solvent. *)
Definition gov_wf s : Prop :=
  forall a buf, kview s governTokenBucket (MakeAccountBalanceKey a) = Ret buf ->
    exists b, buf = MarshalBalance b /\ solvent b.

(** Every account document was written by the contract, whatever is locked. *)
Definition gov_docs s : Prop :=
  forall a buf, kview s governTokenBucket (MakeAccountBalanceKey a) = Ret buf ->
    exists b, buf = MarshalBalance b /\ has_locks b.

Lemma gov_wf_docs s : gov_wf s -> gov_docs s.
Proof. intros Hwf a buf Hbuf. destruct (Hwf a buf Hbuf) as (b & -> & [Hb _]). by exists b. Qed.

Lemma account_stored s a buf :
  gov_docs s -> kview s governTokenBucket (MakeAccountBalanceKey a) = Ret buf ->
  exists b, buf = MarshalBalance b /\ has_locks b /\ account s a = Some b.
Proof.
  intros Hwf Hbuf. destruct (Hwf a buf Hbuf) as (b & -> & Hb). exists b. split_and!; [done..|].
  unfold account. rewrite Hbuf. by apply Unmarshal_MarshalBalance_new.
Qed.

Lemma account_has_locks s a b : gov_docs s -> account s a = Some b -> has_locks b.
Proof.
  intros Hwf Ha. unfold account in Ha. destruct (kview s _ _) as [buf| |] eqn:E; [|done..].
  destruct (account_stored s a buf Hwf E) as (b' & -> & Hb & Ha'). unfold account in Ha'.
  rewrite E in Ha'. by simplify_eq.
Qed.

Lemma account_solvent s a b : gov_wf s -> account s a = Some b -> solvent b.
Proof.
  intros Hwf Ha. unfold account in Ha. destruct (kview s _ _) as [buf| |] eqn:E; [|done..].
  destruct (Hwf a buf E) as (b' & -> & Hb). rewrite (Unmarshal_MarshalBalance_new _ (proj1 Hb)) in Ha. by simplify_eq.
Qed.

#[global] Instance account_proper : Proper (kequiv ==> (=) ==> (=)) account.
Proof. intros s s' Hs a ? <-. unfold account. by rewrite Hs. Qed.

#[global] Instance gov_wf_proper : Proper (kequiv ==> iff) gov_wf.
Proof. intros s s' Hs. unfold gov_wf. by setoid_rewrite Hs. Qed.

#[global] Instance gov_docs_proper : Proper (kequiv ==> iff) gov_docs.
Proof. intros s s' Hs. unfold gov_docs. by setoid_rewrite Hs. Qed.

Lemma balanceOf_law s a :
  kinv s ->
  exists s', balanceOf a s = (match account s a with Some b => Ret b | None => Err "no sender found" end, s') /\
             kinv s' /\ kequiv s s'.
Proof.
  intros Hi. destruct (ctx_Get_law s governTokenBucket (MakeAccountBalanceKey a) Hi no_slash_gov) as (s' & Hg & Hi' & He).
  exists s'. split; [|done]. unfold balanceOf, mbnd, mtry, mpure, mfail, account. rewrite Hg.
  pose proof (kview_no_panic s governTokenBucket (MakeAccountBalanceKey a)) as Hnp.
  destruct (kview s _ _) as [buf|e|]; [|done|done]. by destruct (UnmarshalBalance buf _).
Qed.

Lemma with_balance_law s a e :
  kinv s ->
  exists s', with_message (balanceOf a) e s = (match account s a with Some b => Ret b | None => Err e end, s') /\
             kinv s' /\ kequiv s s'.
Proof.
  intros Hi. destruct (balanceOf_law s a Hi) as (s' & Hg & Hi' & He). exists s'. split; [|done].
  unfold with_message, mbnd, mtry. rewrite Hg. by destruct (account s a).
Qed.

(** What a balance write does to the accounts. *)
Lemma account_written s a b s' a' :
  kupdate s governTokenBucket (MakeAccountBalanceKey a) (written (MarshalBalance b)) s' ->
  has_locks b ->
  account s' a' = if decide (a' = a) then Some b else account s a'.
Proof.
  intros Hu Hb. unfold account. case_decide as Ha; subst.
  - rewrite (kupdate_at _ _ _ _ _ no_slash_gov Hu). cbn. by apply Unmarshal_MarshalBalance_new.
  - rewrite (kupdate_other _ _ _ _ _ governTokenBucket (MakeAccountBalanceKey a') Hu); [done..|].
    intros [= E]. by apply Ha, MakeAccountBalanceKey_inj.
Qed.

Lemma gov_wf_written s a b s' :
  kupdate s governTokenBucket (MakeAccountBalanceKey a) (written (MarshalBalance b)) s' ->
  solvent b -> gov_wf s -> gov_wf s'.
Proof.
  intros [Hu _] Hb Hwf a' buf Hbuf. rewrite Hu in Hbuf by done. case_decide; [|by eapply Hwf].
  cbn in Hbuf. injection Hbuf as <-. by exists b.
Qed.

Lemma gov_docs_written s a b s' :
  kupdate s governTokenBucket (MakeAccountBalanceKey a) (written (MarshalBalance b)) s' ->
  has_locks b -> gov_docs s -> gov_docs s'.
Proof.
  intros [Hu _] Hb Hwf a' buf Hbuf. rewrite Hu in Hbuf by done. case_decide; [|by eapply Hwf].
  cbn in Hbuf. injection Hbuf as <-. by exists b.
Qed.

(** The mark that the tokens were distributed. *)
Definition initialized s : Prop := kview s governTokenBucket distributedKey = Ret (Raw "true").

(** What the contract keeps besides the accounts: that mark and the supply. *)
Definition records s : outcome blob * outcome blob :=
  (kview s governTokenBucket distributedKey, kview s governTokenBucket totalSupplyKey).

#[global] Instance records_proper : Proper (kequiv ==> (=)) records.
Proof. intros s s' Hs. unfold records. by rewrite !Hs. Qed.

Lemma records_written s a o s' :
  kupdate s governTokenBucket (MakeAccountBalanceKey a) o s' -> records s' = records s.
Proof.
  intros Hu. unfold records.
  by rewrite (kupdate_other _ _ _ _ _ governTokenBucket distributedKey Hu), (kupdate_other _ _ _ _ _ governTokenBucket totalSupplyKey Hu).
Qed.

Lemma gov_wf_other s k o s' :
  kupdate s governTokenBucket k o s' -> (forall a, MakeAccountBalanceKey a <> k) -> gov_wf s -> gov_wf s'.
Proof.
  intros [Hu _] Hk Hwf a buf Hbuf. rewrite Hu in Hbuf by done.
  rewrite decide_False in Hbuf by naive_solver. by eapply Hwf.
Qed.

Lemma ok_response_law s delta :
  ok_response delta s = (Ret (resp_ok None), mkKState (kst_sandbox s) (Limits_Add (kst_used s) delta) (kst_set s)).
Proof. reflexivity. Qed.

Lemma account_used s u g a : account (mkKState (kst_sandbox s) u g) a = account s a.
Proof. reflexivity. Qed.
Lemma gov_wf_used s u g : gov_wf (mkKState (kst_sandbox s) u g) <-> gov_wf s.
Proof. reflexivity. Qed.
End Accounts.

(** ** Transfers *)

Definition total_of (o : option GovernTokenBalance) : Z :=
  match o with Some b => TotalBalance b | None => 0%Z end.

(** The accounts after a transfer the contract accepts. *)
Definition transferred (accts : string -> option GovernTokenBalance) (sender to : string)
    (bs : GovernTokenBalance) (amount : Z) (a : string) : option GovernTokenBalance :=
  if decide (a = to) then Some (mkBalance (amount + total_of (accts to)) no_locks)
  else if decide (a = sender) then Some (mkBalance (TotalBalance bs - amount) (LockedBalance bs))
  else accts a.

(** The tests of a transfer, in the order of the code; what is accepted. *)
Record transfer_ok (t : GovKernMethod) (ctx : Context) (accts : string -> option GovernTokenBalance)
    (to : string) (amount : Z) (bs : GovernTokenBalance) : Prop := mkTransferOk {
  tr_gas : (gas t <= XFee (ResourceLimits ctx))%Z;
  tr_to : blob_string <$> Args ctx !! "to" = Some to;
  tr_amount : blob_SetString <$> Args ctx !! "amount" = Some (amount, true);
  tr_positive : (0 <= amount)%Z;
  tr_sender : accts (Initiator ctx) = Some bs;
  tr_locks : map_Forall (fun _ v => amount <= TotalBalance bs - v)%Z (LockedBalance bs)
}.

Section Transfer.
Context {S : Type} `{StateSandboxLaws S}.
Variable t : GovKernMethod.
Implicit Types s : KState S.

Lemma solvent_debit bs amount :
  solvent bs -> (0 <= amount)%Z ->
  map_Forall (fun _ v => amount <= TotalBalance bs - v)%Z (LockedBalance bs) ->
  solvent (mkBalance (TotalBalance bs - amount) (LockedBalance bs)).
Proof.
  intros [Hl Hs] Ha Hf. split; [done|]. intros k v Hv. specialize (Hs k v Hv). specialize (Hf k v Hv).
  cbn in *. lia.
Qed.

(** The receiver's document, read with nil members. *)
Lemma receiver_total_law s to amount :
  kinv s -> gov_docs s ->
  exists s',
    (let! old := mtry (ctx_Get governTokenBucket (MakeAccountBalanceKey to)) in
     match old with
     | inr _ => mpure amount
     | inl buf => match UnmarshalTotal buf with Some o => mpure (amount + o)%Z | None => mpanic end
     end) s = (Ret (amount + total_of (account s to))%Z, s') /\ kinv s' /\ kequiv s s'.
Proof.
  intros Hi Hwf. unfold mbnd, mtry, mpure. kget Hi no_slash_gov s' Hi' He. exists s'. split; [|done].
  destruct (kview s governTokenBucket (MakeAccountBalanceKey to)) as [buf|e|] eqn:E.
  - destruct (account_stored s to buf Hwf E) as (b & -> & _ & ->). by rewrite UnmarshalTotal_MarshalBalance.
  - unfold account. rewrite E. cbn. do 2 f_equal. lia.
  - by apply kview_no_panic in E.
Qed.

Lemma total_of_nonneg s a : gov_wf s -> (0 <= total_of (account s a))%Z.
Proof.
  intros Hwf. destruct (account s a) as [b|] eqn:E; cbn; [|lia].
  by eapply solvent_total, account_solvent.
Qed.

Lemma Transfer_accepted s call ctx to amount bs :
  kinv s -> gov_docs s -> transfer_ok t ctx (account s) to amount bs ->
  exists s', TransferGovernTokens t call ctx s = (Ret (resp_ok None), s') /\ kinv s' /\ gov_docs s' /\
    (gov_wf s -> gov_wf s') /\ records s' = records s /\
    forall a, account s' a = transferred (account s) (Initiator ctx) to bs amount a.
Proof.
  intros Hi Hwf [Hgas Hto Ham Hpos Hs Hl]. unfold TransferGovernTokens.
  rewrite (proj2 (Z.ltb_ge _ _)) by done.
  apply fmap_Some in Hto as (tob & -> & ->). apply fmap_Some in Ham as (amb & -> & Ham). rewrite <- Ham. cbn [negb orb].
  rewrite (proj2 (Z.ltb_ge _ _)) by done.
  destruct (with_balance_law s (Initiator ctx) "transfer gov tokens failed, query sender balance error" Hi) as (s1 & E1 & Hi1 & He1).
  rewrite Hs in E1. rewrite (mbnd_ret _ _ _ _ _ E1). rewrite bool_decide_eq_true_2 by done. cbn [negb].
  rewrite He1 in Hwf. rewrite <- mbnd_assoc.
  destruct (receiver_total_law s1 (blob_string tob) amount Hi1 Hwf) as (s2 & E2 & Hi2 & He2).
  rewrite (mbnd_ret _ _ _ _ _ E2). rewrite He2 in Hwf. unfold mbnd at 1.
  assert (has_locks bs) as Hbs by (rewrite He1, He2 in Hs; by eapply account_has_locks).
  kput Hi2 no_slash_gov s3 Hi3 Hu3. unfold mbnd at 1. kput Hi3 no_slash_gov s4 Hi4 Hu4.
  rewrite ok_response_law. eexists. split; [done|]. split; [done|].
  split_and!; [| | |intros a; rewrite account_used; unfold transferred].
  - change (gov_docs s4). eapply (gov_docs_written s3); [exact Hu4|apply has_locks_no_locks|]. by eapply gov_docs_written.
  - intros Hw. rewrite He1 in Hw, Hs. assert (solvent bs) as Hsol by (by eapply account_solvent). rewrite He2 in Hw.
    apply gov_wf_used. eapply gov_wf_written; [done| |].
    + apply solvent_no_locks. pose proof (total_of_nonneg s1 (blob_string tob)) as Hn.
      rewrite He2 in Hn. specialize (Hn Hw). rewrite He2. lia.
    + eapply gov_wf_written; [done| |done]. by apply solvent_debit.
  - change (records s4 = records s). etrans; [exact (records_written _ _ _ _ Hu4)|]. rewrite (records_written _ _ _ _ Hu3). by rewrite He1, He2.
  - rewrite (account_written _ _ _ _ a Hu4 (has_locks_no_locks _)).
    rewrite (account_written _ _ _ _ a Hu3 Hbs).
    by rewrite <- (account_proper _ _ He2 a _ eq_refl), <- !(account_proper _ _ He1 _ _ eq_refl).
Qed.
End Transfer.

(** ** Locks *)

Definition lockedAmount (b : GovernTokenBalance) (lockType : string) : Z :=
  default 0%Z (LockedBalance b !! lockType).

Lemma lockedAmount_no_locks n lt : lockedAmount (mkBalance n no_locks) lt = 0%Z.
Proof.
  unfold lockedAmount. destruct (LockedBalance (mkBalance n no_locks) !! lt) as [v|] eqn:E; [|done].
  pose proof (proj2 (solvent_no_locks 0 ltac:(lia)) lt v E) as Hv. cbn in *. lia.
Qed.

Definition set_lock (b : GovernTokenBalance) (lockType : string) (n : Z) : GovernTokenBalance :=
  mkBalance (TotalBalance b) (<[lockType := n]> (LockedBalance b)).

(** The arguments of a lock or unlock call. *)
Record lock_args (ctx : Context) (a : string) (amount : Z) (lockType : string) : Prop := mkLockArgs {
  la_caller : lock_caller (Caller ctx) = true;
  la_from : blob_string <$> Args ctx !! "from" = Some a;
  la_amount : (fun b => fst (blob_SetString b)) <$> Args ctx !! "amount" = Some amount;
  la_type : blob_string <$> Args ctx !! "lock_type" = Some lockType;
  la_type_ok : lock_type_ok lockType = true
}.

Section Locks.
Context {S : Type} `{StateSandboxLaws S}.
Variable t : GovKernMethod.
Implicit Types s : KState S.

Lemma has_locks_lookup b lt : has_locks b -> lock_type_ok lt = true -> LockedBalance b !! lt = Some (lockedAmount b lt).
Proof.
  intros [[x Hx] [y Hy]] Hlt. unfold lock_type_ok in Hlt. unfold lockedAmount.
  apply orb_true_iff in Hlt as [->%bool_decide_eq_true| ->%bool_decide_eq_true];
    [by rewrite Hx|by rewrite Hy].
Qed.

Lemma has_locks_set b lt n : has_locks b -> has_locks (set_lock b lt n).
Proof. intros [Hx Hy]. split; cbn; by apply lookup_insert_is_Some'; right. Qed.

Lemma solvent_set b lt n : solvent b -> (0 <= n <= TotalBalance b)%Z -> solvent (set_lock b lt n).
Proof.
  intros [Hh Hf] Hn. split; [by apply has_locks_set|]. cbn. by apply map_Forall_insert_2.
Qed.

(** [Lock] on every branch that passes the argument tests. *)
Lemma Lock_law s call ctx a amount lt :
  kinv s -> gov_docs s -> lock_args ctx a amount lt ->
  match account s a with
  | None => exists s', LockGovernTokens t call ctx s = (Err "lock gov tokens failed, query account balance error", s') /\ kinv s' /\ kequiv s s'
  | Some b =>
      if (TotalBalance b - lockedAmount b lt <? amount)%Z then
        exists s', LockGovernTokens t call ctx s = (Err "lock gov tokens failed, account available balance insufficient", s') /\ kinv s' /\ kequiv s s'
      else
        exists s', LockGovernTokens t call ctx s = (Ret (resp_ok None), s') /\ kinv s' /\ gov_docs s' /\
          (gov_wf s -> (0 <= amount)%Z -> gov_wf s') /\ records s' = records s /\
          forall a', account s' a' = if decide (a' = a) then Some (set_lock b lt (lockedAmount b lt + amount)) else account s a'
  end.
Proof.
  intros Hi Hwf [Hc Hfrom Ham Hlt Hok]. unfold LockGovernTokens. rewrite Hc. cbn [negb].
  apply fmap_Some in Hfrom as (fb & -> & ->). apply fmap_Some in Ham as (ab & -> & ->).
  apply fmap_Some in Hlt as (lb & -> & ->). rewrite Hok. cbn [negb].
  destruct (with_balance_law s (blob_string fb) "lock gov tokens failed, query account balance error" Hi) as (s1 & E1 & Hi1 & He1).
  destruct (account s (blob_string fb)) as [b|] eqn:Ha.
  2:{ exists s1. split; [|done]. by rewrite (mbnd_err _ _ _ _ _ E1). }
  rewrite (mbnd_ret _ _ _ _ _ E1).
  assert (has_locks b) as Hb by (by eapply account_has_locks).
  unfold lockedOf. rewrite (has_locks_lookup b _ Hb Hok). rewrite mbnd_pure.
  destruct (Z.ltb_spec (TotalBalance b - lockedAmount b (blob_string lb)) (fst (blob_SetString ab))) as [Hlt|Hge].
  { exists s1. by split. }
  unfold mbnd at 1. kput Hi1 no_slash_gov s2 Hi2 Hu2. rewrite ok_response_law. eexists. split; [done|]. split; [done|].
  fold (set_lock b (blob_string lb) (lockedAmount b (blob_string lb) + fst (blob_SetString ab))) in Hu2.
  split_and!.
  - change (gov_docs s2). eapply gov_docs_written; [exact Hu2|by apply has_locks_set|by rewrite <- He1].
  - intros Hw Hpos. assert (solvent b) as Hsol by (by eapply account_solvent). apply gov_wf_used. eapply gov_wf_written; [done| |by rewrite <- He1].
    apply solvent_set; [done|]. destruct Hsol as [Hh Hf].
    pose proof (Hf _ _ (has_locks_lookup b _ Hh Hok)) as Hr. cbn in Hr. lia.
  - change (records s2 = records s). etrans; [exact (records_written _ _ _ _ Hu2)|]. by rewrite He1.
  - intros a'. rewrite account_used, (account_written _ _ _ _ a' Hu2) by (by apply has_locks_set).
    by rewrite (account_proper _ _ He1 a' _ eq_refl).
Qed.

Lemma UnLock_law s call ctx a amount lt b :
  kinv s -> gov_docs s -> lock_args ctx a amount lt -> account s a = Some b ->
  exists s', UnLockGovernTokens t call ctx s = (Ret (resp_ok None), s') /\ kinv s' /\ gov_docs s' /\
    (gov_wf s -> (0 <= amount <= lockedAmount b lt)%Z -> gov_wf s') /\ records s' = records s /\
    forall a', account s' a' = if decide (a' = a) then Some (set_lock b lt (lockedAmount b lt - amount)) else account s a'.
Proof.
  intros Hi Hwf [Hc Hfrom Ham Hlt Hok] Ha. unfold UnLockGovernTokens. rewrite Hc. cbn [negb].
  apply fmap_Some in Hfrom as (fb & -> & ->). apply fmap_Some in Ham as (ab & -> & ->).
  apply fmap_Some in Hlt as (lb & -> & ->).
  destruct (with_balance_law s (blob_string fb) "unlock gov tokens failed, query account balance error" Hi) as (s1 & E1 & Hi1 & He1).
  rewrite Ha in E1. rewrite (mbnd_ret _ _ _ _ _ E1), Hok. cbn [negb].
  assert (has_locks b) as Hb by (by eapply account_has_locks).
  unfold lockedOf. rewrite (has_locks_lookup b _ Hb Hok). rewrite mbnd_pure.
  unfold mbnd at 1. kput Hi1 no_slash_gov s2 Hi2 Hu2. rewrite ok_response_law. eexists. split; [done|]. split; [done|].
  fold (set_lock b (blob_string lb) (lockedAmount b (blob_string lb) - fst (blob_SetString ab))) in Hu2.
  split_and!.
  - change (gov_docs s2). eapply gov_docs_written; [exact Hu2|by apply has_locks_set|by rewrite <- He1].
  - intros Hw Hpos. assert (solvent b) as Hsol by (by eapply account_solvent). apply gov_wf_used. eapply gov_wf_written; [done| |by rewrite <- He1].
    apply solvent_set; [done|]. destruct Hsol as [Hh Hf].
    pose proof (Hf _ _ (has_locks_lookup b _ Hh Hok)) as Hr. cbn in Hr. lia.
  - change (records s2 = records s). etrans; [exact (records_written _ _ _ _ Hu2)|]. by rewrite He1.
  - intros a'. rewrite account_used, (account_written _ _ _ _ a' Hu2) by (by apply has_locks_set).
    by rewrite (account_proper _ _ He1 a' _ eq_refl).
Qed.
End Locks.

(** ** Initialisation *)

Definition quota (ps : Predistribution) : Z := fst (SetString (Quota ps)).

Section Init.
Context {S : Type} `{StateSandboxLaws S}.
Variable t : GovKernMethod.
Implicit Types s : KState S.

(** The distribution writes account documents only. *)
Definition accounts_only s s' : Prop :=
  forall b k, no_slash b = true -> (forall a, (b, k) <> (governTokenBucket, MakeAccountBalanceKey a)) ->
    kview s' b k = kview s b k.

Lemma distribute_law l : forall sum s,
  kinv s -> Forall (fun ps => 0 <= quota ps)%Z l ->
  exists s', distribute l sum s = (Ret (sum + zsum quota l)%Z, s') /\ kinv s' /\
    kst_used s' = kst_used s /\ accounts_only s s' /\
    (forall a, a ∉ Address <$> l -> account s' a = account s a) /\
    (NoDup (Address <$> l) -> forall ps, ps ∈ l -> account s' (Address ps) = Some (mkBalance (quota ps) no_locks)).
Proof.
  induction l as [|ps l IH]; intros sum s Hi Hq.
  - exists s. cbn. unfold mpure. split_and!; [do 2 f_equal; lia|done..| |]; intros; [done|set_solver].
  - apply Forall_cons in Hq as [Hq Hl]. cbn [distribute].
    destruct (Z.ltb_spec (fst (SetString (Quota ps))) 0) as [Hneg|_]; [unfold quota in Hq; lia|].
    fold (quota ps). unfold mbnd. kput Hi no_slash_gov s1 Hi1 Hu1.
    destruct (IH (sum + quota ps)%Z s1 Hi1 Hl) as (s' & -> & Hi' & Hused & Hao & Hother & Hin).
    exists s'. split; [rewrite zsum_cons; do 2 f_equal; lia|]. split; [done|].
    split; [rewrite Hused; apply Hu1|]. split_and!.
    + intros b k Hb Hne. rewrite Hao by done. apply (kupdate_other _ _ _ _ _ _ _ Hu1); [done|]. apply Hne.
    + intros a Ha. cbn in Ha. apply not_elem_of_cons in Ha as [Ha1 Ha2]. rewrite Hother by done.
      rewrite (account_written _ _ _ _ a Hu1 (has_locks_no_locks _)). by rewrite decide_False.
    + intros Hnd ps'. cbn in Hnd. apply NoDup_cons in Hnd as [Hni Hnd].
      intros [->|Hps]%elem_of_cons; [|by apply Hin]. rewrite Hother by done.
      rewrite (account_written _ _ _ _ _ Hu1 (has_locks_no_locks _)). by rewrite decide_True.
Qed.

Lemma distribute_wf l : forall sum s o s',
  kinv s -> gov_wf s -> distribute l sum s = (o, s') -> kinv s' /\ gov_wf s'.
Proof.
  induction l as [|ps l IH]; intros sum s o s' Hi Hwf Hd; cbn [distribute] in Hd.
  - unfold mpure in Hd. by simplify_eq.
  - destruct (Z.ltb_spec (fst (SetString (Quota ps))) 0) as [Hneg|Hpos]; [unfold mfail in Hd; by simplify_eq|].
    unfold mbnd in Hd. revert Hd. kput Hi no_slash_gov s1 Hi1 Hu1. apply IH; [done|].
    eapply gov_wf_written; [done|by apply solvent_no_locks|done].
Qed.

Lemma supply_not_account a : (governTokenBucket, totalSupplyKey) <> (governTokenBucket, MakeAccountBalanceKey a).
Proof. discriminate. Qed.
Lemma distributed_not_account a : (governTokenBucket, distributedKey) <> (governTokenBucket, MakeAccountBalanceKey a).
Proof. discriminate. Qed.

Lemma Init_accepted s call ctx :
  kinv s -> is_ret (kview s governTokenBucket distributedKey) = false ->
  NoDup (Address <$> Predistributions t) -> Forall (fun ps => 0 <= quota ps)%Z (Predistributions t) ->
  exists s', InitGovernTokens t call ctx s = (Ret (resp_ok None), s') /\ kinv s' /\ initialized s' /\
    kview s' governTokenBucket totalSupplyKey = Ret (Raw (bigString (zsum quota (Predistributions t)))) /\
    (forall ps, ps ∈ Predistributions t -> account s' (Address ps) = Some (mkBalance (quota ps) no_locks)) /\
    (forall a, a ∉ Address <$> Predistributions t -> account s' a = account s a).
Proof.
  intros Hi Hno Hnd Hq. unfold InitGovernTokens, mbnd, mtry. kget Hi no_slash_gov s1 Hi1 He1.
  pose proof (kview_no_panic s governTokenBucket distributedKey) as Hnp.
  destruct (kview s governTokenBucket distributedKey) as [v|e|]; [done| |done]. cbn beta iota.
  destruct (distribute_law (Predistributions t) 0 s1 Hi1 Hq) as (s2 & -> & Hi2 & _ & Hao & Hother & Hin).
  kput Hi2 no_slash_gov s3 Hi3 Hu3. kput Hi3 no_slash_gov s4 Hi4 Hu4. rewrite ok_response_law.
  eexists. split; [done|]. split; [done|].
  assert (forall a, account s4 a = account s2 a) as Hacc.
  { intros a. unfold account. rewrite (kupdate_other _ _ _ _ _ _ _ Hu4), (kupdate_other _ _ _ _ _ _ _ Hu3); done. }
  split; [exact (kupdate_at _ _ _ _ _ no_slash_gov Hu4)|]. split_and!.
  - change (kview s4 governTokenBucket totalSupplyKey = Ret (Raw (bigString (zsum quota (Predistributions t))))).
    rewrite (kupdate_other _ _ _ _ _ _ _ Hu4) by done. rewrite (kupdate_at _ _ _ _ _ no_slash_gov Hu3).
    apply written_number.
  - intros ps Hps. rewrite account_used, Hacc. by apply Hin.
  - intros a Ha. rewrite account_used, Hacc, Hother by done. by rewrite He1.
Qed.

Lemma Init_again s call ctx :
  kinv s -> initialized s ->
  exists s', InitGovernTokens t call ctx s = (Err "Govern tokens has been initialized.", s') /\ kinv s' /\ kequiv s s'.
Proof.
  intros Hi Hd. unfold InitGovernTokens, mbnd, mtry. kget Hi no_slash_gov s1 Hi1 He1. rewrite Hd.
  cbn [blob_string]. rewrite bool_decide_eq_true_2 by done. by exists s1.
Qed.
End Init.

(** ** Every call of the contract *)

Section Steps.
Context {S : Type} `{StateSandboxLaws S}.
Variable t : GovKernMethod.
Implicit Types s : KState S.

(** A state that kept its contents. *)
Definition kept s s' : Prop := kinv s' /\ kequiv s s'.

Lemma kept_refl s : kinv s -> kept s s.
Proof. by split. Qed.

Lemma kept_wf s s' : gov_wf s -> kept s s' -> kinv s' /\ gov_wf s'.
Proof. intros Hwf [Hi He]. split; [done|]. by rewrite <- He. Qed.

(** A transfer is accepted, or leaves everything as it was. *)
Lemma Transfer_cases s call ctx :
  kinv s -> gov_docs s ->
  (exists to amount bs, transfer_ok t ctx (account s) to amount bs) \/
  (exists e s', TransferGovernTokens t call ctx s = (Err e, s') /\ kept s s').
Proof.
  intros Hi Hwf. unfold TransferGovernTokens.
  destruct (Z.ltb_spec (XFee (ResourceLimits ctx)) (gas t)) as [|Hgas]; [right; eauto using kept_refl|].
  destruct (Args ctx !! "to") as [tob|] eqn:Eto; [|right; eauto using kept_refl].
  destruct (Args ctx !! "amount") as [amb|] eqn:Eam; [|right; eauto using kept_refl].
  destruct (blob_SetString amb) as [amount isAmount] eqn:Es.
  destruct (negb isAmount || _) eqn:Etest; [right; eauto using kept_refl|]. bool_prop. subst.
  destruct (with_balance_law s (Initiator ctx) "transfer gov tokens failed, query sender balance error" Hi) as (s1 & E1 & Hi1 & He1).
  destruct (account s (Initiator ctx)) as [bs|] eqn:Ebs.
  2:{ right. rewrite (mbnd_err _ _ _ _ _ E1). do 2 eexists. by split. }
  rewrite (mbnd_ret _ _ _ _ _ E1).
  destruct (bool_decide _) eqn:El; cbn [negb]; [|right; do 2 eexists; by split].
  left. exists (blob_string tob), amount, bs. bool_prop.
  split; [done|by rewrite Eto|by rewrite Eam; cbn; rewrite Es|done..].
Qed.

Lemma Lock_cases s call ctx :
  kinv s ->
  (exists a amount lt, lock_args ctx a amount lt) \/
  (exists e, LockGovernTokens t call ctx s = (Err e, s)).
Proof.
  intros Hi. unfold LockGovernTokens.
  destruct (lock_caller (Caller ctx)) eqn:Ec; cbn [negb]; [|right; by eexists].
  destruct (Args ctx !! "from") as [fb|] eqn:Ef; [|right; by eexists].
  destruct (Args ctx !! "amount") as [ab|] eqn:Ea; [|right; by eexists].
  destruct (Args ctx !! "lock_type") as [lb|] eqn:El; [|right; by eexists].
  destruct (lock_type_ok (blob_string lb)) eqn:Et; cbn [negb]; [|right; by eexists].
  left. exists (blob_string fb), (fst (blob_SetString ab)), (blob_string lb).
  split; [done|by rewrite Ef|by rewrite Ea|by rewrite El|done].
Qed.

Lemma Lock_wf s call ctx o s' :
  kinv s -> gov_wf s -> (forall b, Args ctx !! "amount" = Some b -> 0 <= fst (blob_SetString b))%Z ->
  LockGovernTokens t call ctx s = (o, s') -> kinv s' /\ gov_wf s'.
Proof.
  intros Hi Hwf Hpos E. destruct (Lock_cases s call ctx Hi) as [(a & am & lt & Hargs)|(e & E')].
  2:{ rewrite E in E'. by simplify_eq. }
  pose proof (Lock_law t s call ctx a am lt Hi (gov_wf_docs s Hwf) Hargs) as Hlaw.
  assert (0 <= am)%Z as Ham.
  { destruct Hargs as [_ _ Ham _ _]. apply fmap_Some in Ham as (b & Hb & ->). by apply Hpos. }
  destruct (account s a) as [b|]; [destruct (_ <? _)%Z|]; destruct Hlaw as (s1 & E' & Hk); rewrite E in E'; simplify_eq; [by eapply kept_wf| |by eapply kept_wf].
  destruct Hk as (Hi1 & _ & Hwf1 & _). auto.
Qed.

Lemma UnLock_cases s call ctx :
  kinv s -> gov_docs s ->
  (exists a amount lt b, lock_args ctx a amount lt /\ account s a = Some b) \/
  (exists e s', UnLockGovernTokens t call ctx s = (Err e, s') /\ kept s s').
Proof.
  intros Hi Hwf. unfold UnLockGovernTokens.
  destruct (lock_caller (Caller ctx)) eqn:Ec; cbn [negb]; [|right; eauto using kept_refl].
  destruct (Args ctx !! "from") as [fb|] eqn:Ef; [|right; eauto using kept_refl].
  destruct (Args ctx !! "amount") as [ab|] eqn:Ea; [|right; eauto using kept_refl].
  destruct (Args ctx !! "lock_type") as [lb|] eqn:El; [|right; eauto using kept_refl].
  destruct (with_balance_law s (blob_string fb) "unlock gov tokens failed, query account balance error" Hi) as (s1 & E1 & Hi1 & He1).
  destruct (account s (blob_string fb)) as [bs|] eqn:Ebs.
  2:{ right. rewrite (mbnd_err _ _ _ _ _ E1). do 2 eexists. by split. }
  rewrite (mbnd_ret _ _ _ _ _ E1).
  destruct (lock_type_ok (blob_string lb)) eqn:Et; cbn [negb]; [|right; do 2 eexists; by split].
  left. exists (blob_string fb), (fst (blob_SetString ab)), (blob_string lb), bs. split; [|done].
  split; [done|by rewrite Ef|by rewrite Ea|by rewrite El|done].
Qed.

Lemma Init_wf s call ctx o s' :
  kinv s -> gov_wf s -> InitGovernTokens t call ctx s = (o, s') -> kinv s' /\ gov_wf s'.
Proof.
  intros Hi Hwf. unfold InitGovernTokens, mbnd, mtry. kget Hi no_slash_gov s1 Hi1 He1. rewrite He1 in Hwf.
  destruct (kview s governTokenBucket distributedKey) as [v|e|];
    [destruct (bool_decide _); [unfold mfail; intros; by simplify_eq|]| |intros; by simplify_eq].
  all: destruct (distribute (Predistributions t) 0 s1) as [r s2] eqn:Ed;
    destruct (distribute_wf (Predistributions t) 0 s1 r s2 Hi1 Hwf Ed) as [Hi2 Hwf2];
    destruct r as [sum|e'|]; [|intros; by simplify_eq..];
    kput Hi2 no_slash_gov s3 Hi3 Hu3; kput Hi3 no_slash_gov s4 Hi4 Hu4; rewrite ok_response_law;
    intros; simplify_eq; split; [done|]; apply gov_wf_used;
    (eapply gov_wf_other; [exact Hu4|apply balance_key_not_distributed|]);
    (eapply gov_wf_other; [exact Hu3|apply balance_key_not_supply|done]).
Qed.

Lemma Query_kept s call ctx o s' :
  kinv s -> QueryAccountGovernTokens call ctx s = (o, s') -> o <> Panic /\ kept s s'.
Proof.
  intros Hi. unfold QueryAccountGovernTokens, mbnd, mtry.
  destruct (balanceOf_law s (match Args ctx !! "account" with Some b => blob_string b | None => "" end) Hi) as (s1 & -> & Hi1 & He1).
  destruct (account s _); unfold mpure, mfail; intros; simplify_eq; (split; [done|by split]).
Qed.

Lemma TotalSupply_kept s call ctx o s' : kinv s -> TotalSupply call ctx s = (o, s') -> o <> Panic /\ kept s s'.
Proof.
  intros Hi. unfold TotalSupply, mbnd. kget Hi no_slash_gov s1 Hi1 He1. pose proof (kview_no_panic s governTokenBucket totalSupplyKey) as Hnp.
  destruct (kview s _ _); [| |done]; unfold mpure; intros; simplify_eq; (split; [done|by split]).
Qed.

(** One call of the contract, by any of the six methods, with any arguments and
    any outcome; only nobody transfers to himself. *)
Inductive gov_step : KState S -> outcome Response -> KState S -> Prop :=
| gs_init s call ctx o s' : InitGovernTokens t call ctx s = (o, s') -> gov_step s o s'
| gs_transfer s call ctx o s' :
    blob_string <$> Args ctx !! "to" <> Some (Initiator ctx) -> TransferGovernTokens t call ctx s = (o, s') -> gov_step s o s'
| gs_lock s call ctx o s' : LockGovernTokens t call ctx s = (o, s') -> gov_step s o s'
| gs_unlock s call ctx o s' : UnLockGovernTokens t call ctx s = (o, s') -> gov_step s o s'
| gs_query s call ctx o s' : QueryAccountGovernTokens call ctx s = (o, s') -> gov_step s o s'
| gs_supply s call ctx o s' : TotalSupply call ctx s = (o, s') -> gov_step s o s'.

Definition gov_steps s s' : Prop := exists o, gov_step s o s'.

(** The sum of the balances of some accounts. *)
Definition holdings s (accts : list string) : Z := zsum (fun a => total_of (account s a)) accts.

(** The tokens have been distributed and the documents are the contract's. *)
Record settled s : Prop := {
  st_inv : kinv s;
  st_docs : gov_docs s;
  st_done : initialized s
}.

(** What a call may do to a settled state: accounts stay, and the sum over any
    accounts that hold all of them is the same. *)
Record conserves s s' : Prop := {
  cv_settled : settled s';
  cv_records : records s' = records s;
  cv_stay : forall a, is_Some (account s a) -> is_Some (account s' a);
  cv_sum : forall accts, NoDup accts -> (forall a, is_Some (account s' a) -> a ∈ accts) -> holdings s' accts = holdings s accts
}.

Lemma conserves_trans s1 s2 s3 : conserves s1 s2 -> conserves s2 s3 -> conserves s1 s3.
Proof.
  intros [A1 A2 A3 A4] [B1 B2 B3 B4]. split; [done|congruence|auto|].
  intros accts Hnd Hall. rewrite B4 by done. apply A4; [done|auto].
Qed.

Lemma kept_conserves s s' : settled s -> kept s s' -> conserves s s'.
Proof.
  intros [Hi Hd Hn] [Hi' He]. assert (records s' = records s) as Hr by (by rewrite He). split; [split| | |].
  - done.
  - by rewrite <- He.
  - unfold initialized, records in *. congruence.
  - done.
  - intros a. by rewrite He.
  - intros accts _ _. apply zsum_ext. intros a _. by rewrite He.
Qed.

Lemma changed_conserves s s' :
  kinv s' -> gov_docs s' -> initialized s -> records s' = records s -> (forall a, is_Some (account s a) -> is_Some (account s' a)) ->
  (forall accts, NoDup accts -> (forall a, is_Some (account s' a) -> a ∈ accts) -> holdings s' accts = holdings s accts) -> conserves s s'.
Proof. intros. split; [split; [done..|unfold initialized, records in *; congruence]|done..]. Qed.

Lemma transferred_sum (acc acc' : string -> option GovernTokenBalance) from to bs amount accts :
  (forall a, acc' a = transferred acc from to bs amount a) -> acc from = Some bs -> from <> to -> NoDup accts -> from ∈ accts -> to ∈ accts ->
  zsum (fun a => total_of (acc' a)) accts = zsum (fun a => total_of (acc a)) accts.
Proof.
  intros Hacc Hs Hne Hnd Hin1 Hin2. unfold transferred in Hacc.
  rewrite (zsum_ext _ (fun a => if decide (a = to) then (amount + total_of (acc to))%Z else
    (fun a => if decide (a = from) then (TotalBalance bs - amount)%Z else total_of (acc a)) a)).
  - rewrite zsum_update, zsum_update by done. cbn beta. rewrite decide_False by done. rewrite Hs. cbn. lia.
  - intros a _. rewrite Hacc. repeat case_decide; done.
Qed.

Lemma transfer_run_conserves s call ctx o s' :
  settled s -> blob_string <$> Args ctx !! "to" <> Some (Initiator ctx) -> TransferGovernTokens t call ctx s = (o, s') ->
  o <> Panic /\ conserves s s'.
Proof.
  intros Hst Hne E. pose proof Hst as [Hi Hd Hn]. destruct (Transfer_cases s call ctx Hi Hd) as [(to & am & bs & Hok)|(e & s1 & E' & Hk)].
  2:{ rewrite E in E'. simplify_eq. split; [done|by apply kept_conserves]. }
  destruct (Transfer_accepted t s call ctx to am bs Hi Hd Hok) as (s1 & E' & Hi' & Hd' & _ & Hr & Hacc). rewrite E in E'. injection E' as -> ->. split; [done|].
  assert (is_Some (account s1 (Initiator ctx)) /\ is_Some (account s1 to)) as [H1 H2] by (rewrite !Hacc; unfold transferred; split; by repeat case_decide).
  apply changed_conserves; try done.
  - intros a [b Ha]. rewrite Hacc. unfold transferred. by repeat case_decide; rewrite ?Ha.
  - intros accts Hnd Hall. eapply transferred_sum; [exact Hacc|apply Hok| |done|auto..]. intros E1. apply Hne. rewrite E1. apply Hok.
Qed.

Lemma set_lock_conserves s s' a b lt n :
  kinv s' -> gov_docs s' -> initialized s -> records s' = records s -> account s a = Some b ->
  (forall a', account s' a' = if decide (a' = a) then Some (set_lock b lt n) else account s a') -> conserves s s'.
Proof.
  intros Hi Hd Hn Hr Ha Hacc. apply changed_conserves; try done.
  - intros a' Hs. rewrite Hacc. by case_decide.
  - intros accts _ _. apply zsum_ext. intros a' _. rewrite Hacc. case_decide; [subst; by rewrite Ha|done].
Qed.

Lemma Lock_conserves s call ctx o s' : settled s -> LockGovernTokens t call ctx s = (o, s') -> o <> Panic /\ conserves s s'.
Proof.
  intros Hst E. pose proof Hst as [Hi Hd Hn]. destruct (Lock_cases s call ctx Hi) as [(a & am & lt & Hargs)|(e & E')].
  2:{ rewrite E in E'. simplify_eq. split; [done|by apply kept_conserves, kept_refl]. }
  pose proof (Lock_law t s call ctx a am lt Hi Hd Hargs) as Hlaw.
  destruct (account s a) as [b|] eqn:Ha; [destruct (_ <? _)%Z|]; destruct Hlaw as (s1 & E' & Hk); rewrite E in E'; simplify_eq; (split; [done|]);
    [by apply kept_conserves| |by apply kept_conserves].
  destruct Hk as (Hi1 & Hd1 & _ & Hr & Hacc). by eapply set_lock_conserves.
Qed.

Lemma UnLock_conserves s call ctx o s' : settled s -> UnLockGovernTokens t call ctx s = (o, s') -> o <> Panic /\ conserves s s'.
Proof.
  intros Hst E. pose proof Hst as [Hi Hd Hn]. destruct (UnLock_cases s call ctx Hi Hd) as [(a & am & lt & b & Hargs & Ha)|(e & s1 & E' & Hk)].
  2:{ rewrite E in E'. simplify_eq. split; [done|by apply kept_conserves]. }
  destruct (UnLock_law t s call ctx a am lt b Hi Hd Hargs Ha) as (s1 & E' & Hi1 & Hd1 & _ & Hr & Hacc). rewrite E in E'. injection E' as -> ->.
  split; [done|]. eapply set_lock_conserves; [done..|exact Ha|exact Hacc].
Qed.

Lemma gov_step_conserves s o s' : gov_step s o s' -> settled s -> o <> Panic /\ conserves s s'.
Proof.
  destruct 1 as [s call ctx o s' E|s call ctx o s' Hne E|s call ctx o s' E|s call ctx o s' E|s call ctx o s' E|s call ctx o s' E]; intros Hst.
  - pose proof Hst as [Hi Hd Hn]. destruct (Init_again t s call ctx Hi Hn) as (s1 & E' & Hk). rewrite E in E'. simplify_eq. split; [done|by apply kept_conserves].
  - by eapply transfer_run_conserves.
  - by eapply Lock_conserves.
  - by eapply UnLock_conserves.
  - destruct (Query_kept s call ctx o s' (st_inv _ Hst) E) as [Hp Hk]. split; [done|by apply kept_conserves].
  - destruct (TotalSupply_kept s call ctx o s' (st_inv _ Hst) E) as [Hp Hk]. split; [done|by apply kept_conserves].
Qed.
End Steps.

(** ** The properties of the contract *)

(** C10: the governance tokens are conserved.  Once they were distributed, over
    any sequence of calls of the six methods, with any arguments, locks of
    negative amounts and unlocks of more than was locked included, in which nobody
    transfers to himself: no call panics, every account document stays one the
    contract can read, the recorded supply does not change, and the balances of
    any accounts that hold all documents add up to what they added up to before.
    (A transfer to oneself creates tokens: [transfer_to_self_mints].) *)
Theorem gov_supply_kept {S} `{StateSandboxLaws S} (t : GovKernMethod) (s s' : KState S) accts :
  kinv s -> gov_docs s -> initialized s -> rtc (gov_steps t) s s' ->
  NoDup accts -> (forall a, is_Some (account s' a) -> a ∈ accts) ->
  holdings s' accts = holdings s accts /\ gov_docs s' /\
  kview s' governTokenBucket totalSupplyKey = kview s governTokenBucket totalSupplyKey /\
  (forall o s'', gov_step t s' o s'' -> o <> Panic).
Proof.
  intros Hi Hd Hn Hr Hnd Hall. assert (conserves s s') as [Hst Hrec _ Hsum].
  { assert (settled s) as Hst by done. clear Hall. induction Hr as [s|s1 s2 s3 [o Hs] _ IH]; [by apply kept_conserves, kept_refl|].
    destruct (gov_step_conserves t s1 o s2 Hs Hst) as [_ Hc]. destruct (cv_settled _ _ Hc) as [H1 H2 H3]. eapply conserves_trans; [exact Hc|by apply IH]. }
  split_and!; [by apply Hsum|apply Hst| |].
  - unfold records in Hrec. congruence.
  - intros o s'' Hs. by eapply gov_step_conserves.
Qed.

(** An accepted transfer between two different accounts debits the sender
    by the amount and keeps its locks, credits the receiver by the amount,
    leaves every other account alone, and so conserves the sum of the balances
    over any set of accounts that holds the two. *)
Theorem transfer_conserves {S} `{StateSandboxLaws S} (t : GovKernMethod) (s : KState S) call ctx to amount bs accts :
  kinv s -> gov_docs s -> transfer_ok t ctx (account s) to amount bs ->
  Initiator ctx <> to -> NoDup accts -> Initiator ctx ∈ accts -> to ∈ accts ->
  exists s', TransferGovernTokens t call ctx s = (Ret (resp_ok None), s') /\
    account s' (Initiator ctx) = Some (mkBalance (TotalBalance bs - amount) (LockedBalance bs)) /\
    total_of (account s' to) = (total_of (account s to) + amount)%Z /\
    (forall a, a <> Initiator ctx -> a <> to -> account s' a = account s a) /\
    zsum (fun a => total_of (account s' a)) accts = zsum (fun a => total_of (account s a)) accts.
Proof.
  intros Hi Hwf Hok Hne Hnd Hin1 Hin2.
  destruct (Transfer_accepted t s call ctx to amount bs Hi Hwf Hok) as (s' & E & _ & _ & _ & _ & Hacc).
  exists s'. split; [done|]. unfold transferred in Hacc. split_and!.
  - by rewrite Hacc, decide_False, decide_True.
  - rewrite Hacc, decide_True by done. cbn. lia.
  - intros a Ha1 Ha2. by rewrite Hacc, !decide_False.
  - eapply transferred_sum; [exact Hacc|apply Hok|done..].
Qed.

(** A transfer to oneself creates tokens: the receiver's document, which
    was read before the sender's was written, is written last, so the account
    ends with its old total plus the amount. *)
Theorem transfer_to_self_mints {S} `{StateSandboxLaws S} (t : GovKernMethod) (s : KState S) call ctx amount bs :
  kinv s -> gov_docs s -> transfer_ok t ctx (account s) (Initiator ctx) amount bs ->
  exists s', TransferGovernTokens t call ctx s = (Ret (resp_ok None), s') /\
    total_of (account s' (Initiator ctx)) = (TotalBalance bs + amount)%Z /\
    (forall a, a <> Initiator ctx -> account s' a = account s a).
Proof.
  intros Hi Hwf Hok.
  destruct (Transfer_accepted t s call ctx _ amount bs Hi Hwf Hok) as (s' & E & _ & _ & _ & _ & Hacc).
  exists s'. split; [done|]. unfold transferred in Hacc. split.
  - rewrite Hacc, decide_True by done. cbn. rewrite (tr_sender _ _ _ _ _ _ Hok). cbn. lia.
  - intros a Ha. by rewrite Hacc, !decide_False.
Qed.

(** A transfer erases the locks of the receiver: whatever the receiver had
    locked, after the transfer nothing is locked any more, so tokens frozen for
    a vote can be spent once somebody sends the account any amount. *)
Theorem transfer_erases_receiver_locks {S} `{StateSandboxLaws S} (t : GovKernMethod) (s : KState S) call ctx to amount bs :
  kinv s -> gov_docs s -> transfer_ok t ctx (account s) to amount bs ->
  exists s' b', TransferGovernTokens t call ctx s = (Ret (resp_ok None), s') /\
    account s' to = Some b' /\ forall lt, lockedAmount b' lt = 0%Z.
Proof.
  intros Hi Hwf Hok.
  destruct (Transfer_accepted t s call ctx _ amount bs Hi Hwf Hok) as (s' & E & _ & _ & _ & _ & Hacc).
  eexists s', _. split; [done|]. rewrite Hacc. unfold transferred. rewrite decide_True by done. split; [done|].
  apply lockedAmount_no_locks.
Qed.

(** [Lock] succeeds exactly when the unlocked part of the kind covers the
    amount, and [UnLock] with the same arguments gives the account back as it
    was; the other accounts never change. *)
Theorem lock_unlock_roundtrip {S} `{StateSandboxLaws S} (t : GovKernMethod) (s : KState S) call ctx a amount lt b :
  kinv s -> gov_docs s -> lock_args ctx a amount lt -> account s a = Some b ->
  (is_ret (fst (LockGovernTokens t call ctx s)) = true <-> (amount <= TotalBalance b - lockedAmount b lt)%Z) /\
  ((amount <= TotalBalance b - lockedAmount b lt)%Z ->
   exists s1 s2, LockGovernTokens t call ctx s = (Ret (resp_ok None), s1) /\
     account s1 a = Some (set_lock b lt (lockedAmount b lt + amount)) /\
     UnLockGovernTokens t call ctx s1 = (Ret (resp_ok None), s2) /\
     forall a', account s2 a' = account s a').
Proof.
  intros Hi Hwf Hargs Ha. pose proof (Lock_law t s call ctx a amount lt Hi Hwf Hargs) as Hlaw.
  rewrite Ha in Hlaw. destruct (Z.ltb_spec (TotalBalance b - lockedAmount b lt) amount) as [Hlt|Hge].
  { destruct Hlaw as (s' & -> & _). cbn. split; [split; [done|lia]|lia]. }
  destruct Hlaw as (s1 & E1 & Hi1 & Hd1 & _ & _ & Hacc1). rewrite E1. split; [by split|]. intros _.
  assert (account s1 a = Some (set_lock b lt (lockedAmount b lt + amount))) as Ha1 by (by rewrite Hacc1, decide_True).
  destruct (UnLock_law t s1 call ctx a amount lt _ Hi1 Hd1 Hargs Ha1) as (s2 & E2 & _ & _ & _ & _ & Hacc2).
  exists s1, s2. split_and!; [done..|]. intros a'. rewrite Hacc2, Hacc1. case_decide; [subst|done].
  rewrite Ha. f_equal. destruct b as [tot lk], Hargs as [_ _ _ _ Hok].
  pose proof (has_locks_lookup _ lt (account_has_locks s a _ Hwf Ha) Hok) as Hl.
  unfold set_lock. cbn [TotalBalance LockedBalance] in *. rewrite insert_insert_eq. f_equal.
  apply insert_id. rewrite Hl. f_equal. unfold lockedAmount at 2. cbn [LockedBalance].
  rewrite lookup_insert_eq. cbn [default from_option id]. lia.
Qed.

(** What an account has locked can become negative: it locks an amount, somebody
    sends it tokens, which erases the lock, and the release of the lock, which
    tests nothing, takes the amount from zero. *)
Theorem unlock_after_transfer_negative {S} `{StateSandboxLaws S} (t : GovKernMethod) (s s1 : KState S) call lctx a amount lt r pctx paid bs :
  kinv s -> gov_docs s -> lock_args lctx a amount lt -> LockGovernTokens t call lctx s = (Ret r, s1) ->
  transfer_ok t pctx (account s1) a paid bs ->
  exists s2 s3 b, TransferGovernTokens t call pctx s1 = (Ret (resp_ok None), s2) /\
    UnLockGovernTokens t call lctx s2 = (Ret (resp_ok None), s3) /\ account s3 a = Some b /\ lockedAmount b lt = (- amount)%Z.
Proof.
  intros Hi Hd Hargs E Hok. assert (kinv s1 /\ gov_docs s1) as [Hi1 Hd1].
  { pose proof (Lock_law t s call lctx a amount lt Hi Hd Hargs) as Hlaw.
    destruct (account s a) as [b|]; [destruct (_ <? _)%Z|]; destruct Hlaw as (s' & E' & Hk); rewrite E in E'; [done| |done].
    injection E' as _ ->. split; apply Hk. }
  destruct (Transfer_accepted t s1 call pctx a paid bs Hi1 Hd1 Hok) as (s2 & E2 & Hi2 & Hd2 & _ & _ & Hacc2).
  assert (account s2 a = Some (mkBalance (paid + total_of (account s1 a)) no_locks)) as Ha by (rewrite Hacc2; unfold transferred; by rewrite decide_True).
  destruct (UnLock_law t s2 call lctx a amount lt _ Hi2 Hd2 Hargs Ha) as (s3 & E3 & _ & _ & _ & _ & Hacc3).
  eexists s2, s3, _. split_and!; [done..|by rewrite Hacc3, decide_True|].
  unfold lockedAmount at 1, set_lock. cbn [LockedBalance]. rewrite lookup_insert_eq. cbn. rewrite lockedAmount_no_locks. lia.
Qed.

(** The first [Init] gives every genesis account its quota, records the sum
    of the quotas as the total supply and touches no other account; any later
    [Init] is refused and changes nothing. *)
Theorem init_distributes_supply {S} `{StateSandboxLaws S} (t : GovKernMethod) (s : KState S) call ctx :
  kinv s -> is_ret (kview s governTokenBucket distributedKey) = false ->
  NoDup (Address <$> Predistributions t) -> Forall (fun ps => 0 <= quota ps)%Z (Predistributions t) ->
  exists s', InitGovernTokens t call ctx s = (Ret (resp_ok None), s') /\
    kview s' governTokenBucket totalSupplyKey =
      Ret (Raw (bigString (zsum (fun ps => total_of (account s' (Address ps))) (Predistributions t)))) /\
    (forall ps, ps ∈ Predistributions t -> account s' (Address ps) = Some (mkBalance (quota ps) no_locks)) /\
    (forall a, a ∉ Address <$> Predistributions t -> account s' a = account s a) /\
    (forall call' ctx', exists s'',
       InitGovernTokens t call' ctx' s' = (Err "Govern tokens has been initialized.", s'') /\ kequiv s' s'').
Proof.
  intros Hi Hno Hnd Hq. destruct (Init_accepted t s call ctx Hi Hno Hnd Hq) as (s' & E & Hi' & Hd & Hsup & Hin & Hout).
  exists s'. split_and!; [done| |done|done|].
  - rewrite Hsup. do 3 f_equal. apply zsum_ext. intros ps Hps. by rewrite Hin.
  - intros call' ctx'. destruct (Init_again t s' call' ctx' Hi' Hd) as (s'' & ? & _ & ?). by exists s''.
Qed.

(** ** An example chain: two genesis accounts *)

Module GovExample.
Import Fresh.

Definition t : GovKernMethod :=
  mkGovKernMethod 1000 [mkPredistribution "alice" "1000"; mkPredistribution "bob" "500"].

Definition no_call : CallFn store := fun _ _ _ _ _ => mpanic.

Definition ctx (initiator caller : string) (args : list (string * string)) : Context :=
  mkContext GovernTokenKernelContract initiator caller []
    (list_to_map ((fun kv => (kv.1, Raw kv.2)) <$> args)) MaxLimits.

Definition lock_ctx (from amount : string) : Context :=
  ctx from ProposalKernelContract [("from", from); ("amount", amount); ("lock_type", "ordinary")].

Definition s0 : KState store := start GovernTokenKernelContract.
Definition s1 : KState store := snd (InitGovernTokens t no_call (ctx "alice" "" []) s0).
(** Bob locks 200. *)
Definition s2 : KState store := snd (LockGovernTokens t no_call (lock_ctx "bob" "200") s1).

Lemma s0_wf : gov_wf s0.
Proof. intros a buf. by rewrite (start_view GovernTokenKernelContract). Qed.

Lemma s1_ok : kinv s1 /\ gov_wf s1.
Proof. eapply (Init_wf t s0 no_call (ctx "alice" "" [])); [apply start_inv|exact s0_wf|unfold s1; apply surjective_pairing]. Qed.

Lemma s2_ok : kinv s2 /\ gov_wf s2.
Proof.
  destruct s1_ok. eapply (Lock_wf t s1 no_call (lock_ctx "bob" "200")); [done..| |unfold s2; apply surjective_pairing].
  intros b Hb. vm_compute in Hb. injection Hb as <-. vm_compute. discriminate.
Qed.

Lemma s1_accounts a : is_Some (account s1 a) -> a ∈ ["alice"; "bob"].
Proof.
  destruct (Init_accepted t s0 no_call (ctx "alice" "" [])) as (s' & E & _ & _ & _ & _ & Hout);
    [apply start_inv|reflexivity|vm_compute; apply NoDup_cons_2; [set_solver|apply NoDup_singleton]|repeat constructor; vm_compute; discriminate|].
  assert (s' = s1) as -> by (unfold s1; by rewrite E).
  intros Ha. destruct (decide (a ∈ ["alice"; "bob"])) as [|Hn]; [done|]. rewrite (Hout a Hn) in Ha.
  unfold account in Ha. rewrite (start_view GovernTokenKernelContract) in Ha. by destruct Ha.
Qed.

(** The account of [a], compared by computation. *)
Lemma account_eq (s : KState store) a b :
  match account s a with
  | Some b' => Z.eqb (TotalBalance b') (TotalBalance b) && bool_decide (LockedBalance b' = LockedBalance b)
  | None => false
  end = true -> account s a = Some b.
Proof.
  destruct (account s a) as [b'|]; [|done]. intros E. bool_prop. destruct b, b'. cbn in *. by subst.
Qed.

Definition alice0 : GovernTokenBalance := mkBalance 1000 no_locks.
Definition pay (from to amount : string) : Context := ctx from "" [("to", to); ("amount", amount)].

Lemma pay_ok to : transfer_ok t (pay "alice" to "100") (account s2) to 100 alice0.
Proof.
  split; [vm_compute; discriminate|reflexivity|reflexivity|lia| |].
  - apply account_eq. vm_compute. reflexivity.
  - intros k v Hv. cbn in Hv.
    apply lookup_insert_Some in Hv as [[_ <-]|[_ [_ <-]%lookup_singleton_Some]]; cbn; lia.
Qed.

(** Bob, who has nothing locked, releases 70: the contract takes it from zero. *)
Definition s3 : KState store := snd (UnLockGovernTokens t no_call (lock_ctx "bob" "70") s1).

Lemma s3_accounts a : is_Some (account s3 a) -> a ∈ ["alice"; "bob"].
Proof.
  destruct s1_ok as [Hi Hw]. assert (account s1 "bob" = Some (mkBalance 500 no_locks)) as Hb by (apply account_eq; vm_compute; reflexivity).
  destruct (UnLock_law t s1 no_call (lock_ctx "bob" "70") "bob" 70 "ordinary" (mkBalance 500 no_locks) Hi (gov_wf_docs _ Hw)) as (s' & E & _ & _ & _ & _ & Hacc); [split; reflexivity|exact Hb|].
  assert (s' = s3) as -> by (unfold s3; by rewrite E). rewrite Hacc. destruct (decide (a = "bob")) as [->|_]; [intros _; right; left|apply s1_accounts].
Qed.
End GovExample.

Import Fresh.

Lemma gov_supply_kept_witness :
  holdings GovExample.s3 ["alice"; "bob"] = 1500%Z /\ lockedAmount (default NewGovernTokenBalance (account GovExample.s3 "bob")) GovernTokenTypeOrdinary = (-70)%Z.
Proof.
  split; [|vm_compute; reflexivity].
  destruct (gov_supply_kept GovExample.t GovExample.s1 GovExample.s3 ["alice"; "bob"]) as (E & _).
  - exact (proj1 GovExample.s1_ok).
  - exact (gov_wf_docs _ (proj2 GovExample.s1_ok)).
  - vm_compute. reflexivity.
  - apply rtc_once. exists (fst (UnLockGovernTokens GovExample.t GovExample.no_call (GovExample.lock_ctx "bob" "70") GovExample.s1)).
    eapply gs_unlock. unfold GovExample.s3. apply surjective_pairing.
  - apply (bool_decide_unpack _). vm_compute. exact I.
  - exact GovExample.s3_accounts.
  - rewrite E. vm_compute. reflexivity.
Defined.

Lemma transfer_conserves_witness :
  exists s', TransferGovernTokens GovExample.t GovExample.no_call (GovExample.pay "alice" "bob" "100") GovExample.s2 = (Ret (resp_ok None), s') /\
    zsum (fun a => total_of (account s' a)) ["alice"; "bob"] = 1500%Z.
Proof.
  destruct (transfer_conserves GovExample.t GovExample.s2 GovExample.no_call (GovExample.pay "alice" "bob" "100")
    "bob" 100 GovExample.alice0 ["alice"; "bob"]) as (s' & E & _ & _ & _ & Hsum).
  - exact (proj1 GovExample.s2_ok).
  - exact (gov_wf_docs _ (proj2 GovExample.s2_ok)).
  - exact (GovExample.pay_ok "bob").
  - discriminate.
  - repeat constructor; set_solver.
  - set_solver.
  - set_solver.
  - exists s'. split; [exact E|]. rewrite Hsum. vm_compute. reflexivity.
Defined.

Lemma transfer_to_self_mints_witness :
  exists s', TransferGovernTokens GovExample.t GovExample.no_call (GovExample.pay "alice" "alice" "100") GovExample.s2 = (Ret (resp_ok None), s') /\
    total_of (account s' "alice") = 1100%Z.
Proof.
  destruct (transfer_to_self_mints GovExample.t GovExample.s2 GovExample.no_call (GovExample.pay "alice" "alice" "100")
    100 GovExample.alice0) as (s' & E & Htot & _).
  - exact (proj1 GovExample.s2_ok).
  - exact (gov_wf_docs _ (proj2 GovExample.s2_ok)).
  - exact (GovExample.pay_ok "alice").
  - exists s'. split; [exact E|exact Htot].
Defined.

Lemma transfer_erases_receiver_locks_witness :
  exists s' b', TransferGovernTokens GovExample.t GovExample.no_call (GovExample.pay "alice" "bob" "100") GovExample.s2 = (Ret (resp_ok None), s') /\
    lockedAmount (default NewGovernTokenBalance (account GovExample.s2 "bob")) GovernTokenTypeOrdinary = 200%Z /\
    account s' "bob" = Some b' /\ lockedAmount b' GovernTokenTypeOrdinary = 0%Z.
Proof.
  destruct (transfer_erases_receiver_locks GovExample.t GovExample.s2 GovExample.no_call (GovExample.pay "alice" "bob" "100")
    "bob" 100 GovExample.alice0) as (s' & b' & E & Hacc & Hl).
  - exact (proj1 GovExample.s2_ok).
  - exact (gov_wf_docs _ (proj2 GovExample.s2_ok)).
  - exact (GovExample.pay_ok "bob").
  - exists s', b'. split; [exact E|]. split; [vm_compute; reflexivity|]. split; [exact Hacc|apply Hl].
Defined.

Lemma lock_unlock_roundtrip_witness :
  exists s1 s2, LockGovernTokens GovExample.t GovExample.no_call (GovExample.lock_ctx "alice" "300") GovExample.s2 = (Ret (resp_ok None), s1) /\
    UnLockGovernTokens GovExample.t GovExample.no_call (GovExample.lock_ctx "alice" "300") s1 = (Ret (resp_ok None), s2) /\
    account s2 "alice" = account GovExample.s2 "alice".
Proof.
  destruct (lock_unlock_roundtrip GovExample.t GovExample.s2 GovExample.no_call (GovExample.lock_ctx "alice" "300")
    "alice" 300 GovernTokenTypeOrdinary GovExample.alice0) as [_ H].
  - exact (proj1 GovExample.s2_ok).
  - exact (gov_wf_docs _ (proj2 GovExample.s2_ok)).
  - split; reflexivity.
  - apply GovExample.account_eq. vm_compute. reflexivity.
  - destruct H as (s1 & s2 & E1 & _ & E2 & Hacc); [vm_compute; discriminate|].
    exists s1, s2. split; [exact E1|]. split; [exact E2|apply Hacc].
Defined.

Lemma init_distributes_supply_witness :
  exists s', InitGovernTokens GovExample.t GovExample.no_call (GovExample.ctx "alice" "" []) GovExample.s0 = (Ret (resp_ok None), s') /\
    account s' "bob" = Some (mkBalance 500 no_locks).
Proof.
  destruct (init_distributes_supply GovExample.t GovExample.s0 GovExample.no_call (GovExample.ctx "alice" "" [])) as (s' & E & _ & Hin & _).
  - apply start_inv.
  - reflexivity.
  - repeat constructor; set_solver.
  - repeat constructor; vm_compute; discriminate.
  - exists s'. split; [exact E|]. apply (Hin (mkPredistribution "bob" "500")). right. left.
Defined.
