(* ===== verification/TimerTask.v ===== *)
(** * Timer tasks

    [kernel/contract/proposal/timer/timer_task_contract.go]: the kernel
    contract [$timer_task] keeps, for each block height, the calls to make when
    the chain reaches it.  A task is stored under [<height>_<id>], with the ids
    counted up under [id].

    [Do] runs over the tasks the store holds when the loop starts. *)

From Stdlib Require Import ZArith Lia Ascii.
From stdpp Require Import base gmap strings list numbers sorting.
From S2P Require Import Prelude GoValues Sandbox KContext.

Set Default Proof Using "Type".

(** ** Keys *)

Definition timerBucket : string := "timer".
Definition taskIDKey : string := "id".
Definition separator : string := "_".

Definition MakeTimerBlockHeightTaskKey (blockHeight taskID : string) : string :=
  blockHeight +:+ separator +:+ taskID.
Definition MakeTimerBlockHeightPrefix (blockHeight : string) : string := blockHeight +:+ separator.
Definition MakeTimerBlockHeightPrefixSeparator (blockHeight : string) : string :=
  blockHeight +:+ separator +:+ separator.

Definition PrefixRange (prefix : string) : option string := prefixEnd prefix.

(** ** Trigger descriptions *)

(** [Args] is a Go map that may be nil. *)
Record TriggerDesc := mkTrigger {
  Height : Z;
  Module' : string;
  Contract' : string;
  Method' : string;
  TArgs : option (gmap string json)
}.

Definition noTrigger : TriggerDesc := mkTrigger 0 "" "" "" None.

(** A member of type [map[string]interface{}]; null makes the map nil. *)
Definition field_args (k : string) (l : list (string * json)) : option (option (gmap string json)) :=
  match obj_get k l with
  | None | Some JNull => Some None
  | Some (JObj m) => Some <$> map_of_obj Some m ∅
  | Some _ => None
  end.

Definition trigger_of_fields (l : list (string * json)) : option TriggerDesc :=
  match field_int64 "height" l 0, field_str "module" l "", field_str "contract" l "",
        field_str "method" l "", field_args "args" l with
  | Some h, Some m, Some c, Some d, Some a => Some (mkTrigger h m c d a)
  | _, _, _, _, _ => None
  end.

Definition UnmarshalTrigger (buf : blob) : option TriggerDesc :=
  match buf with
  | Raw t => if bool_decide (t = "null") then Some noTrigger else None
  | Doc l => trigger_of_fields l
  end.

(** [json.Marshal] of a map that may be nil. *)
Definition MarshalArgs (a : option (gmap string json)) : blob :=
  match a with
  | None => Raw "null"
  | Some m => Doc (obj_of_map id m)
  end.

Definition args_json (a : option (gmap string json)) : json :=
  match a with
  | None => JNull
  | Some m => JObj (obj_of_map id m)
  end.

Definition trigger_fields (t : TriggerDesc) : list (string * json) :=
  [("height", JNum (Height t)); ("module", JStr (Module' t)); ("contract", JStr (Contract' t));
   ("method", JStr (Method' t)); ("args", args_json (TArgs t))].

Definition MarshalTrigger (t : TriggerDesc) : blob := Doc (trigger_fields t).

(** ** The contract *)

Section TimerTask.
Context {S : Type} `{StateSandbox S}.

Definition getNextTaskID : M (KState S) string :=
  let! r := mtry (ctx_Get timerBucket taskIDKey) in
  match r with
  | inr _ => mpure (bigString 1)
  | inl latestTaskID => mpure (bigString (fst (blob_SetString latestTaskID) + 1))
  end.

Definition Timer_Add : KernMethod S := fun _ ctx =>
  match Args ctx !! "block_height", Args ctx !! "trigger" with
  | Some blockHeightBuf, Some triggerBuf =>
      let! taskID := getNextTaskID in
      do! ctx_Put timerBucket taskIDKey (Raw taskID) in
      do! ctx_Put timerBucket (MakeTimerBlockHeightTaskKey (blob_string blockHeightBuf) taskID) triggerBuf in
      do! AddResourceUsed (mkLimits 0 0 0 0) in
      mpure (resp_ok None)
  | _, _ => mfail "add timer task failed, block_height, task_id or trigger is nil"
  end.

(** The result of the call is dropped, its effects are not. *)
Definition Timer_Trigger (call : CallFn S) (ctx : Context) (triggerBuf : blob) : M (KState S) unit :=
  match UnmarshalTrigger triggerBuf with
  | None => mpure tt
  | Some trigger =>
      do! mtry (call ctx (Module' trigger) (Contract' trigger) (Method' trigger)
                     {["args" := MarshalArgs (TArgs trigger)]}) in
      mpure tt
  end.

Fixpoint run_tasks (call : CallFn S) (ctx : Context) (tasks : list (string * blob)) : M (KState S) unit :=
  match tasks with
  | [] => mpure tt
  | (_, triggerBuf) :: tasks' => do! Timer_Trigger call ctx triggerBuf in run_tasks call ctx tasks'
  end.

Definition Timer_Do : KernMethod S := fun call ctx =>
  match Args ctx !! "block_height" with
  | None => mfail "do timer tasks failed, blockHeightBuf is nil"
  | Some blockHeightBuf =>
      let h := blob_string blockHeightBuf in
      let startKey := MakeTimerBlockHeightPrefix h in
      let endKey := PrefixRange (MakeTimerBlockHeightPrefixSeparator h) in
      let! r := mtry (ctx_Select timerBucket startKey endKey) in
      match r with
      | inr _ => mfail "do timer tasks failed, generate proposals iterator error"
      | inl tasks =>
          do! run_tasks call ctx tasks in
          do! AddResourceUsed (mkLimits 0 0 0 0) in
          mpure (resp_ok None)
      end
  end.

Definition timer_methods : list (string * string * KernMethod S) :=
  [(TimerTaskKernelContract, "Add", Timer_Add); (TimerTaskKernelContract, "Do", Timer_Do)].
End TimerTask.

(** ** The range of a height *)

Lemma prefixEnd_separator p : prefixEnd (p +:+ separator) = Some (p +:+ "`").
Proof.
  induction p as [|x p IH]; [done|]. rewrite !app_String. cbn [prefixEnd]. by rewrite IH.
Qed.

Lemma PrefixRange_separator p : PrefixRange (p +:+ separator +:+ separator) = Some ((p +:+ separator) +:+ "`").
Proof. unfold PrefixRange. rewrite string_app_assoc. apply prefixEnd_separator. Qed.

Lemma str_le_prefix p a : str_le p (p +:+ a).
Proof.
  unfold str_le. induction p as [|x p IH]; [by destruct a|]. rewrite app_String. cbn. by rewrite ascii_compare_refl.
Qed.

Lemma digit_below_backquote d s : (0 <= d < 10)%Z -> str_lt (String (digit_char d) s) "`".
Proof.
  intros Hd. assert (d = 0 \/ d = 1 \/ d = 2 \/ d = 3 \/ d = 4 \/ d = 5 \/ d = 6 \/
      d = 7 \/ d = 8 \/ d = 9)%Z as Hc by lia.
  repeat destruct Hc as [->|Hc]; try (rewrite Hc); reflexivity.
Qed.

Lemma number_below_backquote n : (0 <= n)%Z -> str_lt (bigString n) "`".
Proof.
  intros Hn. unfold bigString. destruct (Z.ltb_spec n 0); [lia|].
  destruct (print_digits_head (digit_fuel n) n "" Hn ltac:(unfold digit_fuel; lia)) as (d & s & -> & Hd).
  by apply digit_below_backquote.
Qed.

(** Every numbered key of a prefix is in the range the contracts select. *)
Lemma numbered_in_range p n :
  (0 <= n)%Z -> in_range (p +:+ separator) ((p +:+ separator) +:+ "`") (p +:+ separator +:+ bigString n).
Proof.
  intros Hn. rewrite string_app_assoc. split; [apply str_le_prefix|].
  unfold str_lt. rewrite string_compare_app. by apply number_below_backquote.
Qed.

(** Every key of the range has the prefix. *)
Lemma range_has_prefix p k :
  in_range (p +:+ separator) ((p +:+ separator) +:+ "`") k -> exists rest, k = p +:+ separator +:+ rest.
Proof.
  intros [H1 H2].
  destruct (string_between_prefix (p +:+ separator) "" "`" k) as [y ->].
  - assert ((p +:+ separator) +:+ "" = p +:+ separator) as ->; [|done].
    clear. induction p as [|x p IH]; [done|]. rewrite !app_String. by rewrite IH.
  - done.
  - exists y. by rewrite string_app_assoc.
Qed.

Lemma range_nonempty p : str_le (p +:+ separator) ((p +:+ separator) +:+ "`").
Proof. apply str_le_prefix. Qed.

Lemma Unmarshal_MarshalTrigger t : is_int64 (Height t) -> UnmarshalTrigger (MarshalTrigger t) = Some t.
Proof.
  intros Hh. unfold UnmarshalTrigger, MarshalTrigger, trigger_of_fields, trigger_fields.
  unfold field_int64, field_str, field_args. cbn [obj_get]. bdec. cbn [dec_int64 dec_str].
  rewrite (bool_decide_eq_true_2 _ Hh). destruct t as [h m c d [a|]]; cbn [args_json TArgs Height Module' Contract' Method']; [|done].
  rewrite (map_of_obj_of_map id Some) by done. cbn. by rewrite map_union_empty.
Qed.

(** ** Scheduling *)

Section TimerLaws.
Context {S : Type} `{StateSandboxLaws S}.
Implicit Types s : KState S.

(** The number of the last task added. *)
Definition lastTaskID s : Z :=
  match kview s timerBucket taskIDKey with
  | Ret b => fst (blob_SetString b)
  | _ => 0%Z
  end.

Lemma no_slash_timer : no_slash timerBucket = true.
Proof. reflexivity. Qed.

Lemma getNextTaskID_law s :
  kinv s -> exists s', getNextTaskID s = (Ret (bigString (lastTaskID s + 1)), s') /\ kinv s' /\ kequiv s s'.
Proof.
  intros Hi. unfold getNextTaskID, mbnd, mtry, mpure, lastTaskID. kget Hi no_slash_timer s' Hi' He.
  exists s'. split; [|done]. pose proof (kview_no_panic s timerBucket taskIDKey) as Hnp.
  by destruct (kview s timerBucket taskIDKey).
Qed.

Lemma task_key_not_id h x : MakeTimerBlockHeightTaskKey h x <> taskIDKey.
Proof.
  unfold MakeTimerBlockHeightTaskKey, taskIDKey, separator.
  destruct h as [|a [|b [|c h]]]; rewrite ?app_String; intros E; injection E; intros; simplify_eq; discriminate.
Qed.

Lemma Timer_Add_law s call ctx hb trig :
  kinv s -> Args ctx !! "block_height" = Some hb -> Args ctx !! "trigger" = Some trig ->
  exists s', Timer_Add call ctx s = (Ret (resp_ok None), s') /\ kinv s' /\
    kst_set s' = kst_set s /\
    kview s' timerBucket (MakeTimerBlockHeightTaskKey (blob_string hb) (bigString (lastTaskID s + 1))) = written trig /\
    lastTaskID s' = (lastTaskID s + 1)%Z /\
    forall b k, no_slash b = true -> (b, k) <> (timerBucket, taskIDKey) ->
      (b, k) <> (timerBucket, MakeTimerBlockHeightTaskKey (blob_string hb) (bigString (lastTaskID s + 1))) ->
      kview s' b k = kview s b k.
Proof.
  intros Hi Hh Ht. unfold Timer_Add. rewrite Hh, Ht.
  destruct (getNextTaskID_law s Hi) as (s1 & E1 & Hi1 & He1). rewrite (mbnd_ret _ _ _ _ _ E1).
  unfold mbnd. kput Hi1 no_slash_timer s2 Hi2 Hu2. kput Hi2 no_slash_timer s3 Hi3 Hu3. cbn.
  eexists. split; [done|]. split; [done|].
  split; [transitivity (kst_set s2); [apply Hu3|]; transitivity (kst_set s1); [apply Hu2|]; symmetry; apply He1|].
  split; [exact (kupdate_at _ _ _ _ _ no_slash_timer Hu3)|]. split.
  - change (lastTaskID s3 = (lastTaskID s + 1)%Z). unfold lastTaskID at 1.
    rewrite (kupdate_other _ _ _ _ _ timerBucket taskIDKey Hu3), (kupdate_at _ _ _ _ _ no_slash_timer Hu2);
      [|done|intros [= E]; by apply (task_key_not_id _ _ (eq_sym E))].
    rewrite written_number. cbn. by rewrite SetString_bigString.
  - intros b k Hb Hk1 Hk2. change (kview s3 b k = kview s b k).
    rewrite (kupdate_other _ _ _ _ _ b k Hu3), (kupdate_other _ _ _ _ _ b k Hu2) by done. by rewrite He1.
Qed.

(** What [Do] runs at a height. *)
Lemma Timer_Do_law s call ctx hb :
  kinv s -> Args ctx !! "block_height" = Some hb ->
  exists tasks s1,
    Timer_Do call ctx s =
      (do! run_tasks call ctx tasks in do! AddResourceUsed (mkLimits 0 0 0 0) in mpure (resp_ok None)) s1 /\
    kinv s1 /\ kequiv s s1 /\
    (forall k v, (k, v) ∈ tasks -> exists rest, k = MakeTimerBlockHeightTaskKey (blob_string hb) rest) /\
    (forall n v, (0 <= n)%Z ->
       kview s timerBucket (MakeTimerBlockHeightTaskKey (blob_string hb) (bigString n)) = Ret v ->
       (MakeTimerBlockHeightTaskKey (blob_string hb) (bigString n), v) ∈ tasks).
Proof.
  intros Hi Hh. unfold Timer_Do. rewrite Hh. unfold MakeTimerBlockHeightPrefixSeparator, MakeTimerBlockHeightPrefix.
  rewrite PrefixRange_separator.
  destruct (ctx_Select_law s timerBucket (blob_string hb +:+ separator) ((blob_string hb +:+ separator) +:+ "`")
    Hi no_slash_timer ltac:(discriminate) (range_nonempty _)) as (tasks & s1 & E & Hi1 & He1 & Hr & Hc).
  exists tasks, s1. split_and!; [|done|done| |].
  - unfold mbnd at 1, mtry. by rewrite E.
  - intros k v Hin. by eapply range_has_prefix, Hr.
  - intros n v Hn Hv. apply Hc; [|done]. by apply numbered_in_range.
Qed.
End TimerLaws.

(** A task added for a height is one of the tasks [Do] triggers at that
    height, and [Do] only triggers tasks stored under that height; adding a
    task gives it a number no earlier task has, and changes nothing else in
    the store than the counter and the new task. *)
Theorem timer_task_is_triggered {S} `{StateSandboxLaws S} (s : KState S) call ctx hb trig :
  kinv s -> Args ctx !! "block_height" = Some hb -> Args ctx !! "trigger" = Some trig ->
  IsDelFlag trig = false -> (0 <= lastTaskID s)%Z ->
  exists s', Timer_Add call ctx s = (Ret (resp_ok None), s') /\
    lastTaskID s' = (lastTaskID s + 1)%Z /\
    (forall b k, no_slash b = true -> (b, k) <> (timerBucket, taskIDKey) ->
       (b, k) <> (timerBucket, MakeTimerBlockHeightTaskKey (blob_string hb) (bigString (lastTaskID s + 1))) ->
       kview s' b k = kview s b k) /\
    forall call' ctx', Args ctx' !! "block_height" = Some hb ->
      exists tasks s1,
        Timer_Do call' ctx' s' =
          (do! run_tasks call' ctx' tasks in do! AddResourceUsed (mkLimits 0 0 0 0) in mpure (resp_ok None)) s1 /\
        kequiv s' s1 /\
        (MakeTimerBlockHeightTaskKey (blob_string hb) (bigString (lastTaskID s + 1)), trig) ∈ tasks /\
        (forall k v, (k, v) ∈ tasks -> exists rest, k = MakeTimerBlockHeightTaskKey (blob_string hb) rest).
Proof.
  intros Hi Hh Ht Hdel Hid.
  destruct (Timer_Add_law s call ctx hb trig Hi Hh Ht) as (s' & E & Hi' & _ & Hv & Hl & Ho).
  exists s'. split_and!; [done..|]. intros call' ctx' Hh'.
  destruct (Timer_Do_law s' call' ctx' hb Hi' Hh') as (tasks & s1 & Ed & _ & He & Hr & Hc).
  exists tasks, s1. split_and!; [done..| |done]. apply Hc; [lia|]. rewrite Hv. unfold written. by rewrite Hdel.
Qed.

Module TimerExample.
Import Fresh.
Definition trig : blob := MarshalTrigger (mkTrigger 0 "xkernel" "$proposal" "CheckVoteResult" None).
Definition ctx : Context :=
  mkContext TimerTaskKernelContract "alice" "$proposal" [] {["block_height" := Raw "100"; "trigger" := trig]} MaxLimits.
Definition s0 : KState store := start TimerTaskKernelContract.
End TimerExample.

Import Fresh.

Lemma timer_task_is_triggered_witness :
  exists s', Timer_Add (fun _ _ _ _ _ => mpanic) TimerExample.ctx TimerExample.s0 = (Ret (resp_ok None), s') /\
    exists tasks s1, Timer_Do (fun _ _ _ _ _ => mpure (resp_ok None)) TimerExample.ctx s' =
      (do! run_tasks (fun _ _ _ _ _ => mpure (resp_ok None)) TimerExample.ctx tasks in
       do! AddResourceUsed (mkLimits 0 0 0 0) in mpure (resp_ok None)) s1 /\
      ("100_1", TimerExample.trig) ∈ tasks.
Proof.
  destruct (timer_task_is_triggered TimerExample.s0 (fun _ _ _ _ _ => mpanic) TimerExample.ctx (Raw "100") TimerExample.trig)
    as (s' & E & _ & _ & Hdo).
  - apply start_inv.
  - reflexivity.
  - reflexivity.
  - reflexivity.
  - vm_compute. discriminate.
  - exists s'. split; [exact E|].
    destruct (Hdo (fun _ _ _ _ _ => mpure (resp_ok None)) TimerExample.ctx eq_refl) as (tasks & s1 & Ed & _ & Hin & _).
    exists tasks, s1. split; [exact Ed|exact Hin].
Defined.
