(* ===== verification/Propose.v ===== *)
(** * Proposals

    [kernel/contract/proposal/propose/propose_contract.go]: the kernel contract
    [$proposal].  A proposal is put to the vote, voters lock governance tokens
    on it, and at the height at which voting stops the timer contract calls
    [CheckVoteResult]; a proposal that passed is executed by [Trigger] at its
    own height.  The contract calls [$govern_token] and [$timer_task] through
    the call function of its context. *)

From Stdlib Require Import ZArith Lia Ascii.
From stdpp Require Import base gmap strings list numbers sorting.
From S2P Require Import Prelude GoValues Sandbox KContext GovernToken TimerTask.

Set Default Proof Using "Type".

(** ** Keys and the stored proposal *)

Definition proposalBucket : string := "proposal".
Definition proposalIDKey : string := "id".
Definition proposalLockKey : string := "lock".
Definition MakeProposalKey (proposalID : string) : string := proposalID.
Definition MakeProposalLockKey (proposalID account : string) : string :=
  proposalLockKey +:+ separator +:+ proposalID +:+ separator +:+ account.
Definition MakeProposalLockPrefix (proposalID : string) : string :=
  proposalLockKey +:+ separator +:+ proposalID +:+ separator.
Definition MakeProposalLockPrefixSeparator (proposalID : string) : string :=
  proposalLockKey +:+ separator +:+ proposalID +:+ separator +:+ separator.

Definition ProposalStatusVoting : string := "voting".
Definition ProposalStatusCancelled : string := "cancelled".
Definition ProposalStatusRejected : string := "rejected".
Definition ProposalStatusPassed : string := "passed".
Definition ProposalStatusCompletedAndFailure : string := "completed_failure".
Definition ProposalStatusCompletedAndSuccess : string := "completed_success".

(** Pointer members and the map may be nil. *)
Record Proposal := mkProposal {
  PArgs : option (gmap string json);
  PTrigger : option TriggerDesc;
  VoteAmount : option Z;
  PStatus : string;
  Proposer : string
}.

Definition noProposal : Proposal := mkProposal None None None "" "".

Definition field_trigger (k : string) (l : list (string * json)) : option (option TriggerDesc) :=
  match obj_get k l with
  | None | Some JNull => Some None
  | Some (JObj m) => Some <$> trigger_of_fields m
  | Some _ => None
  end.

Definition field_big (k : string) (l : list (string * json)) : option (option Z) :=
  match obj_get k l with
  | None | Some JNull => Some None
  | Some j => Some <$> dec_num j
  end.

(** [utils.Parse] *)
Definition Parse (buf : blob) : option Proposal :=
  match buf with
  | Raw t => if bool_decide (t = "null") then Some noProposal else None
  | Doc l =>
      match field_args "args" l, field_trigger "trigger" l, field_big "vote_amount" l,
            field_str "status" l "", field_str "proposer" l "" with
      | Some a, Some t, Some v, Some st, Some p => Some (mkProposal a t v st p)
      | _, _, _, _, _ => None
      end
  end.

(** [utils.UnParse] *)
Definition UnParse (p : Proposal) : blob :=
  Doc [("args", args_json (PArgs p));
       ("trigger", match PTrigger p with Some t => JObj (trigger_fields t) | None => JNull end);
       ("vote_amount", match VoteAmount p with Some v => JNum v | None => JNull end);
       ("status", JStr (PStatus p));
       ("proposer", JStr (Proposer p))].

Definition set_status (p : Proposal) (st : string) : Proposal :=
  mkProposal (PArgs p) (PTrigger p) (VoteAmount p) st (Proposer p).
Definition set_votes (p : Proposal) (v : Z) : Proposal :=
  mkProposal (PArgs p) (PTrigger p) (Some v) (PStatus p) (Proposer p).

(** [proposal.Args[k]], nil when it is missing. *)
Definition parg (p : Proposal) (k : string) : option json :=
  match PArgs p with Some m => m !! k | None => None end.

Definition is_empty_arg (j : option json) : bool :=
  match j with Some (JStr s) => is_empty_string s | _ => false end.

(** [proposal.Args[k].(string)], which panics on nil and on another type. *)
Definition parg_string (p : Proposal) (k : string) : outcome string :=
  match parg p k with Some (JStr s) => Ret s | _ => Panic end.

(** ** Checks of a new proposal *)

Definition checkVoteThread (voteThreadStr : string) : outcome unit :=
  let (voteThread, ok) := SetString voteThreadStr in
  if negb ok then Err ("min_vote_percent parse, " +:+ voteThreadStr)
  else if ((100 <? voteThread) || (voteThread <? 51))%Z then Err ("min_vote_percent err, " +:+ bigString voteThread)
  else Ret tt.

Definition parseVoteStopHeight (voteStopHeightStr : string) : outcome Z :=
  let (voteStopHeight, ok) := SetString voteStopHeightStr in
  if negb ok then Err ("vote_stop_height err, " +:+ voteStopHeightStr) else Ret voteStopHeight.

Definition checkProposalArgs (p : Proposal) : outcome unit :=
  if is_empty_arg (parg p "min_vote_percent") || is_empty_arg (parg p "stop_vote_height")
  then Err "no min_vote_percent or stop_vote_height found"
  else
    outcome_bind (parg_string p "min_vote_percent") (fun percent =>
    outcome_bind (checkVoteThread percent) (fun _ =>
    outcome_bind (parg_string p "stop_vote_height") (fun stop =>
    outcome_bind (parseVoteStopHeight stop) (fun voteStopHeight =>
    match PTrigger p with
    | None => Panic
    | Some trigger =>
        if (Height trigger =? 0)%Z then Ret tt
        else if (Height trigger <=? voteStopHeight)%Z then Err "trigger_height must be bigger than stop_vote_height"
        else Ret tt
    end)))).

(** [proposal_id] is a byte slice in the map, so its JSON is base64. *)
Definition makeTimerArgs (proposalID : string) (triggerHeight : blob) (method : string) : gmap string blob :=
  {["block_height" := triggerHeight;
    "trigger" := MarshalTrigger (mkTrigger 0 TypeKernel ProposalKernelContract method
                   (Some {["proposal_id" := JStr (b64_encode proposalID)]}))]}.

Definition governTokenArgs (from : string) (amount : blob) : gmap string blob :=
  {["from" := Raw from; "amount" := amount; "lock_type" := Raw GovernTokenTypeOrdinary]}.

Fixpoint string_drop (n : nat) (s : string) : string :=
  match n, s with
  | Datatypes.S n, String _ s' => string_drop n s'
  | _, _ => s
  end.

(** ** The contract *)

Section Propose.
Context {S : Type} `{StateSandbox S}.

Definition getNextProposalID : M (KState S) string :=
  let! r := mtry (ctx_Get proposalBucket proposalIDKey) in
  match r with
  | inr _ => mpure (bigString 1)
  | inl latestProposalID => mpure (bigString (fst (blob_SetString latestProposalID) + 1))
  end.

Definition getProposal (proposalID : string) : M (KState S) Proposal :=
  let! r := mtry (ctx_Get proposalBucket (MakeProposalKey proposalID)) in
  match r with
  | inr _ => mfail "get proposal failed, no proposal found"
  | inl buf => match Parse buf with
               | None => mfail "get proposal failed, parse proposal error"
               | Some p => mpure p
               end
  end.

Definition updateProposal (proposalID : string) (p : Proposal) : M (KState S) unit :=
  ctx_Put proposalBucket (MakeProposalKey proposalID) (UnParse p).

(** [getProposal] with the caller's prefix put before the error. *)
Definition getProposal_or (prefix proposalID : string) : M (KState S) Proposal :=
  let! r := mtry (getProposal proposalID) in
  match r with inl p => mpure p | inr e => mfail (prefix +:+ e) end.

Definition Propose : KernMethod S := fun call ctx =>
  let! proposalID := getNextProposalID in
  match Parse (default (Raw "") (Args ctx !! "proposal")) with
  | None => mfail "json"
  | Some proposal =>
      do! mlift (checkProposalArgs proposal) in
      let! stop := mlift (parg_string proposal "stop_vote_height") in
      do! call ctx TypeKernel TimerTaskKernelContract "Add" (makeTimerArgs proposalID (Raw stop) "CheckVoteResult") in
      let from := Initiator ctx in
      do! call ctx TypeKernel GovernTokenKernelContract "Lock" (governTokenArgs from (Raw "1000")) in
      do! ctx_Put proposalBucket (MakeProposalLockKey proposalID from) (Raw "1000") in
      do! ctx_Put proposalBucket proposalIDKey (Raw proposalID) in
      do! ctx_Put proposalBucket (MakeProposalKey proposalID)
            (UnParse (mkProposal (PArgs proposal) (PTrigger proposal) (Some 0%Z) ProposalStatusVoting (Initiator ctx))) in
      do! AddResourceUsed (mkLimits 0 0 0 100) in
      mpure (resp_ok (Some (Raw proposalID)))
  end.

Definition Vote : KernMethod S := fun call ctx =>
  match Args ctx !! "proposal_id", Args ctx !! "amount" with
  | Some proposalIDBuf, Some amountBuf =>
      let proposalID := blob_string proposalIDBuf in
      let (lockAmount, isAmount) := blob_SetString amountBuf in
      if! (negb isAmount || (lockAmount <? 0))%Z fails ("vote failed, amount is not valid: " +:+ blob_string amountBuf) in
      let! proposal := getProposal_or "vote failed, no proposal found, err: " proposalID in
      if! negb (bool_decide (PStatus proposal = ProposalStatusVoting))
        fails ("proposal status is " +:+ PStatus proposal +:+ ",can not vote now") in
      let from := Initiator ctx in
      do! call ctx TypeKernel GovernTokenKernelContract "Lock" (governTokenArgs from amountBuf) in
      let lockKey := MakeProposalLockKey proposalID from in
      let! old := mtry (ctx_Get proposalBucket lockKey) in
      let lockAmountCurrent := (match old with
                                | inl buf => lockAmount + fst (blob_SetString buf)
                                | inr _ => lockAmount
                                end)%Z in
      do! ctx_Put proposalBucket lockKey (Raw (bigString lockAmountCurrent)) in
      match VoteAmount proposal with
      | None => mpanic
      | Some votes =>
          do! updateProposal proposalID (set_votes proposal (votes + lockAmount)) in
          do! AddResourceUsed (mkLimits 0 0 0 100) in
          mpure (resp_ok None)
      end
  | _, _ => mfail "vote failed, proposal_id or amount is nil"
  end.

Definition Thaw : KernMethod S := fun call ctx =>
  match Args ctx !! "proposal_id" with
  | None => mfail "thaw failed, proposal_id or amount is nil"
  | Some proposalIDBuf =>
      let proposalID := blob_string proposalIDBuf in
      let! proposal := getProposal_or "thaw failed, no proposal found, err: " proposalID in
      if! negb (bool_decide (Proposer proposal = Initiator ctx)) fails ("no authority to thaw: " +:+ Initiator ctx) in
      match VoteAmount proposal with
      | None => mpanic
      | Some votes =>
          if! (0 <? votes)%Z fails ("some one has voted " +:+ bigString votes +:+ " tickets, can not thaw now") in
          if! negb (bool_decide (PStatus proposal = ProposalStatusVoting))
            fails ("proposal status is " +:+ PStatus proposal +:+ ", only a voting proposal could be thawed") in
          do! updateProposal proposalID (set_status proposal ProposalStatusCancelled) in
          let from := Initiator ctx in
          let! lockAmountBuf := ctx_Get proposalBucket (MakeProposalLockKey proposalID from) in
          do! call ctx TypeKernel GovernTokenKernelContract "UnLock" (governTokenArgs from lockAmountBuf) in
          do! AddResourceUsed (mkLimits 0 0 0 100) in
          mpure (resp_ok None)
      end
  end.

Definition Query : KernMethod S := fun call ctx =>
  match Args ctx !! "proposal_id" with
  | None => mfail "query failed, proposal_id is nil"
  | Some proposalIDBuf =>
      let! proposal := getProposal_or "query failed, no proposal found, err: " (blob_string proposalIDBuf) in
      mpure (resp_ok (Some (UnParse proposal)))
  end.

(** The loop over the locks of a proposal; a failed release is skipped. *)
Fixpoint unlock_all (call : CallFn S) (ctx : Context) (n : nat) (locks : list (string * blob)) : M (KState S) unit :=
  match locks with
  | [] => mpure tt
  | (key, unLockAmount) :: locks' =>
      do! mtry (call ctx TypeKernel GovernTokenKernelContract "UnLock"
                  (governTokenArgs (string_drop n key) unLockAmount)) in
      unlock_all call ctx n locks'
  end.

Definition unlockGovernTokensForProposal (call : CallFn S) (ctx : Context) (proposalID : string) : M (KState S) unit :=
  let startKey := MakeProposalLockPrefix proposalID in
  let endKey := PrefixRange (MakeProposalLockPrefixSeparator proposalID) in
  let! r := mtry (ctx_Select proposalBucket startKey endKey) in
  match r with
  | inr _ => mfail "unlockGovernTokensForProposal failed, generate proposal lock key iterator error"
  | inl locks => unlock_all call ctx (String.length startKey) locks
  end.

Definition unlock_or_fail (call : CallFn S) (ctx : Context) (proposalID : string) : M (KState S) unit :=
  let! r := mtry (unlockGovernTokensForProposal call ctx proposalID) in
  match r with
  | inl _ => mpure tt
  | inr _ => mfail "proposal trigger failed, unlock govern token error"
  end.

(** The proposal id the timer passes back. *)
Definition callback_id (ctx : Context) : outcome string :=
  match (match Args ctx !! "args" with
         | None => None
         | Some (Raw t) => if bool_decide (t = "null") then Some "" else None
         | Some (Doc l) => field_str "proposal_id" l ""
         end) with
  | None => Err "parse proposal id from args error"
  | Some encoded =>
      match b64_decode encoded with
      | None => Err "parse proposal id error"
      | Some proposalID => Ret proposalID
      end
  end.

Definition exception_response (msg : string) : Response := mkResponse StatusException msg None.

Definition CheckVoteResult : KernMethod S := fun call ctx =>
  if! negb (bool_decide (Caller ctx = TimerTaskKernelContract))
    fails ("caller " +:+ Caller ctx +:+ " no authority to CheckVoteResult") in
  let! proposalID := mlift (callback_id ctx) in
  let! proposal := getProposal_or "check vote failed, no proposal found, err: " proposalID in
  if negb (bool_decide (PStatus proposal = ProposalStatusVoting)) then
    mpure (exception_response ("proposal status is " +:+ PStatus proposal +:+ ", only a voting proposal could be checked"))
  else
    let! r := mtry (call ctx TypeKernel GovernTokenKernelContract "TotalSupply" ∅) in
    match r with
    | inr _ => mfail "CheckVoteResult failed, query govern token totalsupply error"
    | inl totalSupplyRes =>
        let total := fst (blob_SetString (default (Raw "") (Body totalSupplyRes))) in
        let! percent := mlift (parg_string proposal "min_vote_percent") in
        let threadTickets := ((total * fst (SetString percent)) / 100)%Z in
        match VoteAmount proposal with
        | None => mpanic
        | Some votes =>
            if (votes <? threadTickets)%Z then
              do! unlock_or_fail call ctx proposalID in
              do! updateProposal proposalID (set_status proposal ProposalStatusRejected) in
              mpure (resp_ok None)
            else
              match PTrigger proposal with
              | None => mpanic
              | Some trigger =>
                  do! call ctx TypeKernel TimerTaskKernelContract "Add"
                        (makeTimerArgs proposalID (Raw (bigString (Height trigger))) "Trigger") in
                  do! updateProposal proposalID (set_status proposal ProposalStatusPassed) in
                  mpure (resp_ok None)
              end
        end
    end.

Definition Trigger : KernMethod S := fun call ctx =>
  if! negb (bool_decide (Caller ctx = TimerTaskKernelContract))
    fails ("caller " +:+ Caller ctx +:+ " no authority to Trigger") in
  let! proposalID := mlift (callback_id ctx) in
  let! proposal := getProposal_or "trigger failed, no proposal found, err: " proposalID in
  if negb (bool_decide (PStatus proposal = ProposalStatusPassed)) then
    mpure (exception_response ("proposal status is " +:+ PStatus proposal +:+ ", only a passed proposal could be triggered"))
  else
    match PTrigger proposal with
    | None => mpanic
    | Some trigger =>
        let! r := mtry (call ctx (Module' trigger) (Contract' trigger) (Method' trigger)
                          {["args" := MarshalArgs (TArgs trigger); "height" := Raw (bigString (Height trigger))]}) in
        let status := match r with
                      | inr _ => ProposalStatusCompletedAndFailure
                      | inl _ => ProposalStatusCompletedAndSuccess
                      end in
        do! unlock_or_fail call ctx proposalID in
        do! updateProposal proposalID (set_status proposal status) in
        mpure (resp_ok None)
    end.

Definition propose_methods : list (string * string * KernMethod S) :=
  [(ProposalKernelContract, "Propose", Propose); (ProposalKernelContract, "Vote", Vote);
   (ProposalKernelContract, "Thaw", Thaw); (ProposalKernelContract, "CheckVoteResult", CheckVoteResult);
   (ProposalKernelContract, "Trigger", Trigger); (ProposalKernelContract, "Query", Query)].
End Propose.

(** ** What the other contracts leave alone *)

Section Frames.
Context {S : Type} `{StateSandboxLaws S}.
Variable t : GovKernMethod.

Lemma distribute_frames l sum : frames proposalBucket (distribute (S := S) l sum).
Proof. revert sum. induction l as [|ps l IH]; intros sum; cbn [distribute]; frames_solve. Qed.

Lemma balanceOf_frames a : frames proposalBucket (balanceOf (S := S) a).
Proof. unfold balanceOf. frames_solve. Qed.
#[local] Hint Resolve distribute_frames balanceOf_frames : frames.

Lemma with_balance_frames a e : frames proposalBucket (with_message (S := S) (balanceOf a) e).
Proof. unfold with_message. frames_solve. Qed.
Lemma lockedOf_frames b lt : frames proposalBucket (lockedOf (S := S) b lt).
Proof. unfold lockedOf. frames_solve. Qed.
Lemma ok_response_frames d : frames proposalBucket (ok_response (S := S) d).
Proof. unfold ok_response. frames_solve. Qed.
#[local] Hint Resolve with_balance_frames lockedOf_frames ok_response_frames : frames.

Lemma gov_methods_frame c m h : (c, m, h) ∈ gov_methods (S := S) t -> frames_method proposalBucket h.
Proof.
  unfold gov_methods. rewrite !elem_of_cons, elem_of_nil. intros Hin.
  repeat destruct Hin as [[= -> -> ->]|Hin]; [..|done]; intros call ctx Hc;
    [unfold InitGovernTokens|unfold TransferGovernTokens|unfold LockGovernTokens|
     unfold UnLockGovernTokens|unfold QueryAccountGovernTokens|unfold TotalSupply]; frames_solve.
Qed.

Lemma getNextTaskID_frames : frames proposalBucket (getNextTaskID (S := S)).
Proof. unfold getNextTaskID. frames_solve. Qed.
#[local] Hint Resolve getNextTaskID_frames : frames.

Lemma run_tasks_frames call ctx tasks :
  frames_call proposalBucket call -> frames proposalBucket (run_tasks (S := S) call ctx tasks).
Proof.
  intros Hc. induction tasks as [|[k v] tasks IH]; cbn [run_tasks]; [frames_solve|].
  apply frames_bnd; [|done]. unfold Timer_Trigger. destruct (UnmarshalTrigger v); frames_solve.
Qed.

Lemma timer_methods_frame c m h : (c, m, h) ∈ timer_methods (S := S) -> frames_method proposalBucket h.
Proof.
  unfold timer_methods. rewrite !elem_of_cons, elem_of_nil. intros Hin.
  destruct Hin as [[= -> -> ->]|[[= -> -> ->]|Hin]]; [..|done]; intros call ctx Hc.
  - unfold Timer_Add. frames_solve.
  - unfold Timer_Do. destruct (Args ctx !! "block_height") as [hb|]; [|frames_solve].
    unfold MakeTimerBlockHeightPrefix, MakeTimerBlockHeightPrefixSeparator. rewrite PrefixRange_separator.
    apply frames_bnd; [apply frames_try, frames_select; [done|done|apply range_nonempty]|].
    intros [tasks|e]; [|frames_solve]. apply frames_bnd; [by apply run_tasks_frames|]. frames_solve.
Qed.

(** Calls among the governance-token and timer contracts never touch the
    proposals. *)
Lemma gov_timer_calls_frame r o perm vm fuel :
  register_all (gov_methods t ++ timer_methods) NewRegistry = (o, r) ->
  (forall m ctx d, frames proposalBucket (vm m ctx d)) ->
  frames_call proposalBucket (ContractCall (S := S) r perm vm fuel).
Proof.
  intros Hr Hvm. apply ContractCall_frames; [|done]. intros c m h Hh.
  destruct (register_all_get _ _ _ _ _ _ Hr Hh) as (c' & m' & [Hin|Hin]%elem_of_app);
    [by eapply gov_methods_frame|by eapply timer_methods_frame].
Qed.
End Frames.

(** ** The stored proposal *)

Definition wf_proposal (p : Proposal) : Prop :=
  match PTrigger p with Some t => is_int64 (Height t) | None => True end.

Lemma Parse_UnParse p : wf_proposal p -> Parse (UnParse p) = Some p.
Proof.
  unfold wf_proposal, Parse, UnParse, field_args, field_trigger, field_big, field_str. intros Hp.
  cbn [obj_get]. bdec. destruct p as [a tr v st pr]. cbn [PArgs PTrigger VoteAmount PStatus Proposer] in *.
  assert (match args_json a with JNull => Some None | JObj m => Some <$> map_of_obj Some m ∅ | _ => None end = Some a) as ->.
  { destruct a as [m|]; cbn; [|done]. rewrite (map_of_obj_of_map id Some) by done. cbn. by rewrite map_union_empty. }
  assert (match (match tr with Some t => JObj (trigger_fields t) | None => JNull end) with
          | JNull => Some None | JObj m => Some <$> trigger_of_fields m | _ => None end = Some tr) as ->.
  { destruct tr as [t|]; [|done].
    pose proof (Unmarshal_MarshalTrigger t Hp) as Ht. cbn in Ht. cbn. by rewrite Ht. }
  by destruct v.
Qed.

Section ProposalStore.
Context {S : Type} `{StateSandboxLaws S}.
Implicit Types s : KState S.

(** The state [s'] has the same proposals as [s], or differs at one key. *)
Definition pkeep s s' : Prop := kinv s' /\ forall k, kview s' proposalBucket k = kview s proposalBucket k.
Definition pupd s k (o : outcome blob) s' : Prop :=
  kinv s' /\ forall k', kview s' proposalBucket k' = if decide (k' = k) then o else kview s proposalBucket k'.

Definition stored s (pid : string) (p : Proposal) : Prop := kview s proposalBucket (MakeProposalKey pid) = Ret (UnParse p).

Lemma frames_keep {A} (c : M (KState S) A) s o s' : frames proposalBucket c -> kinv s -> c s = (o, s') -> pkeep s s'.
Proof. intros Hc Hi E. by apply Hc in E. Qed.

Lemma put_pupd s k v o s' : kinv s -> ctx_Put proposalBucket k v s = (o, s') -> pupd s k (written v) s'.
Proof.
  intros Hi E. destruct (ctx_Put_law s proposalBucket k v Hi eq_refl) as (s1 & E1 & Hi1 & Hu & _).
  rewrite E in E1. simplify_eq. split; [done|]. intros k'. rewrite Hu by done.
  destruct (decide (k' = k)) as [->|Hne]; [by rewrite decide_True|]. rewrite decide_False; congruence.
Qed.

Lemma get_pkeep s k o s' :
  kinv s -> ctx_Get proposalBucket k s = (o, s') -> pkeep s s' /\ o = kview s proposalBucket k.
Proof.
  intros Hi E. destruct (ctx_Get_law s proposalBucket k Hi eq_refl) as (s1 & E1 & Hi1 & He).
  rewrite E in E1. simplify_eq. split; [|done]. split; [done|]. intros k'. by rewrite He.
Qed.

Lemma getProposal_or_inv s pre pid p s' :
  kinv s -> getProposal_or pre pid s = (Ret p, s') ->
  pkeep s s' /\ exists buf, kview s proposalBucket (MakeProposalKey pid) = Ret buf /\ Parse buf = Some p.
Proof.
  intros Hi E. unfold getProposal_or, getProposal, mbnd, mtry in E.
  destruct (ctx_Get proposalBucket (MakeProposalKey pid) s) as [o s1] eqn:Eg.
  destruct (get_pkeep s _ o s1 Hi Eg) as [Hk ->].
  destruct (kview s proposalBucket (MakeProposalKey pid)) as [buf|e|]; [|done|done].
  destruct (Parse buf) as [p'|] eqn:Ep; [|done]. unfold mpure in E. simplify_eq. eauto.
Qed.

Lemma getProposal_or_stored s pre pid p p' s' :
  kinv s -> wf_proposal p -> stored s pid p -> getProposal_or pre pid s = (Ret p', s') -> pkeep s s' /\ p' = p.
Proof.
  intros Hi Hwf Hst E. apply getProposal_or_inv in E as (Hk & buf & Hbuf & Hp); [|done].
  unfold stored in Hst. rewrite Hst in Hbuf. simplify_eq. rewrite Parse_UnParse in Hp by done. by simplify_eq.
Qed.
End ProposalStore.

(** ** Which proposals are accepted *)

Lemma has_digit_nonempty s z : SetString s = (z, true) -> is_empty_string s = false.
Proof. by destruct s. Qed.

(** A new proposal passes the checks exactly when it names, as decimal
    strings, a required percentage between 51 and 100 and a height at which
    voting stops, and has a trigger that runs later than that height or has
    none (height 0). *)
Theorem checkProposalArgs_accepts p :
  checkProposalArgs p = Ret tt <->
  exists pc percent stop height tr,
    parg p "min_vote_percent" = Some (JStr pc) /\ SetString pc = (percent, true) /\ (51 <= percent <= 100)%Z /\
    parg p "stop_vote_height" = Some (JStr stop) /\ SetString stop = (height, true) /\
    PTrigger p = Some tr /\ (Height tr = 0 \/ height < Height tr)%Z.
Proof.
  unfold checkProposalArgs, parg_string, checkVoteThread, parseVoteStopHeight. split.
  - intros E. destruct (_ || _); [done|].
    destruct (parg p "min_vote_percent") as [[| | | |pc| |]|]; try done. cbn in E.
    destruct (SetString pc) as [percent ok] eqn:Epc. destruct ok; [|done]. cbn in E.
    destruct ((100 <? percent) || (percent <? 51))%Z eqn:Er; [done|]. cbn in E. bool_prop.
    destruct (parg p "stop_vote_height") as [[| | | |stop| |]|]; try done. cbn in E.
    destruct (SetString stop) as [height ok] eqn:Est. destruct ok; [|done]. cbn in E.
    destruct (PTrigger p) as [tr|]; [|done]. exists pc, percent, stop, height, tr. split_and!; try done.
    destruct (Z.eqb_spec (Height tr) 0); [by left|]. destruct (Z.leb_spec (Height tr) height); [done|by right].
  - intros (pc & percent & stop & height & tr & -> & Epc & Hr & -> & Est & -> & Hh).
    cbn [is_empty_arg]. rewrite (has_digit_nonempty _ _ Epc), (has_digit_nonempty _ _ Est). cbn [orb outcome_bind].
    rewrite Epc. cbn [negb]. destruct ((100 <? percent) || (percent <? 51))%Z eqn:Er.
    { apply orb_true_iff in Er as [Er|Er]; bool_prop; lia. }
    cbn [outcome_bind]. rewrite Est. cbn [negb outcome_bind].
    destruct (Z.eqb_spec (Height tr) 0); [done|]. destruct (Z.leb_spec (Height tr) height); [lia|done].
Qed.

(** A proposal without a required percentage is not refused: the test for
    a missing argument compares with the empty string, which nil is not, and
    the type assertion that follows panics. *)
Theorem checkProposalArgs_missing_percent p :
  parg p "min_vote_percent" = None -> is_empty_arg (parg p "stop_vote_height") = false ->
  checkProposalArgs p = Panic.
Proof. intros H1 H2. unfold checkProposalArgs, parg_string. by rewrite H1, H2. Qed.

Lemma checkProposalArgs_missing_percent_witness :
  checkProposalArgs (mkProposal (Some {["stop_vote_height" := JStr "20"]}) (Some noTrigger) None "" "") = Panic.
Proof. apply checkProposalArgs_missing_percent; reflexivity. Defined.

(** ** The life of a proposal *)

Inductive status_edge : string -> string -> Prop :=
| edge_keep st : status_edge st st
| edge_cancel : status_edge ProposalStatusVoting ProposalStatusCancelled
| edge_reject : status_edge ProposalStatusVoting ProposalStatusRejected
| edge_pass : status_edge ProposalStatusVoting ProposalStatusPassed
| edge_failure : status_edge ProposalStatusPassed ProposalStatusCompletedAndFailure
| edge_success : status_edge ProposalStatusPassed ProposalStatusCompletedAndSuccess.

(** What a call may do to a proposal: it keeps its terms and its author, its
    status takes an edge, and votes are only counted while it is voting. *)
Record evolves (p p' : Proposal) : Prop := mkEvolves {
  ev_args : PArgs p' = PArgs p;
  ev_trigger : PTrigger p' = PTrigger p;
  ev_proposer : Proposer p' = Proposer p;
  ev_status : status_edge (PStatus p) (PStatus p');
  ev_votes : VoteAmount p' = VoteAmount p \/
    PStatus p = ProposalStatusVoting /\
    exists v am, VoteAmount p = Some v /\ VoteAmount p' = Some (v + am)%Z /\ (0 <= am)%Z
}.

Lemma evolves_refl p : evolves p p.
Proof. split; [done..|constructor|by left]. Qed.

Lemma evolves_status p st : status_edge (PStatus p) st -> evolves p (set_status p st).
Proof. intros He. by split; [done..|left]. Qed.

Lemma evolves_votes p v am :
  VoteAmount p = Some v -> (0 <= am)%Z -> PStatus p = ProposalStatusVoting -> evolves p (set_votes p (v + am)).
Proof. intros Hv Ham Hst. split; [done..|constructor|]. right. split; [done|]. by exists v, am. Qed.

Lemma not_number c s n : digit_value c = None -> c <> "-"%char -> c <> "+"%char -> String c s <> bigString n.
Proof.
  intros Hd H1 H2 E. pose proof (SetString_bigString n) as Hs. rewrite <- E in Hs.
  unfold SetString in Hs.
  assert (split_sign (String c s) = (false, String c s)) as Hsp.
  { destruct c as [[] [] [] [] [] [] [] []]; try reflexivity; done. }
  rewrite Hsp in Hs. cbn in Hs. by rewrite Hd in Hs.
Qed.

Lemma lock_key_not_number pid a n : bigString n <> MakeProposalLockKey pid a.
Proof. intros E. symmetry in E. revert E. by apply not_number. Qed.

Lemma id_key_not_number n : bigString n <> proposalIDKey.
Proof. intros E. symmetry in E. revert E. by apply not_number. Qed.

Section Life.
Context {S : Type} `{StateSandboxLaws S}.
Implicit Types s : KState S.

(** The counter of proposals holds a number, if it holds anything. *)
Definition counter_ok s : Prop :=
  match kview s proposalBucket proposalIDKey with
  | Ret b => exists z, b = Raw (bigString z)
  | _ => True
  end.

(** The proposals, numbered as [Propose] numbers them, between two states:
    each one evolves, none appears, and the counter stays. *)
Record evolve_state s s' : Prop := mkEvolveState {
  es_inv : kinv s';
  es_stored n p : wf_proposal p -> stored s (bigString n) p ->
    exists p', stored s' (bigString n) p' /\ evolves p p';
  es_new n : is_ret (kview s' proposalBucket (bigString n)) = true -> is_ret (kview s proposalBucket (bigString n)) = true;
  es_counter : counter_ok s -> kview s' proposalBucket proposalIDKey = kview s proposalBucket proposalIDKey
}.

Lemma keep_evolves s s' : pkeep s s' -> evolve_state s s'.
Proof.
  intros [Hi Hk]. split; [done| |intros n; by rewrite Hk|done]. intros n p _ Hst.
  exists p. split; [|apply evolves_refl]. unfold stored. by rewrite Hk.
Qed.

Lemma then_keep s s1 s' : evolve_state s s1 -> pkeep s1 s' -> evolve_state s s'.
Proof.
  intros [_ He Hn Hc] [Hi Hk]. split; [done| |intros n; rewrite Hk; apply Hn|intros; rewrite Hk; auto].
  intros n p Hp Hst. destruct (He n p Hp Hst) as (p' & Hst' & Hev).
  exists p'. split; [|done]. unfold stored. by rewrite Hk.
Qed.

Lemma Parse_number z : Parse (Raw (bigString z)) = None.
Proof.
  unfold Parse. rewrite bool_decide_eq_false_2; [done|]. intros E. symmetry in E. revert E. by apply not_number.
Qed.

Lemma update_evolves s pid buf p p' s' :
  kview s proposalBucket (MakeProposalKey pid) = Ret buf -> Parse buf = Some p -> evolves p p' ->
  pupd s (MakeProposalKey pid) (written (UnParse p')) s' -> evolve_state s s'.
Proof.
  intros Hbuf Hp Hev [Hi Hk]. unfold stored, MakeProposalKey in *. split; [done|..].
  - intros n q Hq Hst. unfold stored, MakeProposalKey in *. destruct (decide (bigString n = pid)) as [Hn|Hne].
    + exists p'. split; [by rewrite Hk, decide_True|]. rewrite <- Hn, Hst in Hbuf. simplify_eq.
      rewrite Parse_UnParse in Hp by done. by simplify_eq.
    + exists q. split; [by rewrite Hk, decide_False|]. apply evolves_refl.
  - intros n. rewrite Hk. case_decide as Hn; [|done]. by rewrite Hn, Hbuf.
  - intros Hc. rewrite Hk. case_decide as Hn; [|done]. unfold counter_ok in Hc.
    rewrite Hn, Hbuf in Hc. destruct Hc as [z ->]. by rewrite Parse_number in Hp.
Qed.

Definition lastProposalID s : Z :=
  match kview s proposalBucket proposalIDKey with
  | Ret b => fst (blob_SetString b)
  | _ => 0%Z
  end.

Variable call : CallFn S.
Hypothesis Hcall : frames_call proposalBucket call.

(** The read of the proposal at the head of the methods. *)
Lemma head_read s pre pid k o s' :
  kinv s -> mbnd (getProposal_or pre pid) k s = (o, s') ->
  pkeep s s' \/
  exists p s1 buf, pkeep s s1 /\ kview s proposalBucket (MakeProposalKey pid) = Ret buf /\ Parse buf = Some p /\
    k p s1 = ((o, s') : outcome Response * KState S).
Proof.
  intros Hi E. apply mbnd_cases in E as [(p & s1 & E1 & E2)|(r & E1 & _)].
  - right. apply getProposal_or_inv in E1 as (Hk & buf & Hbuf & Hp); [|done].
    by exists p, s1, buf.
  - left. unfold getProposal_or, getProposal, mbnd, mtry in E1.
    destruct (ctx_Get proposalBucket (MakeProposalKey pid) s) as [o1 s1] eqn:Eg.
    destruct (get_pkeep s _ o1 s1 Hi Eg) as [Hk _].
    destruct o1 as [buf|e|]; [destruct (Parse buf)|..]; unfold mpure, mfail in E1; by simplify_eq.
Qed.

Lemma pkeep_refl s : kinv s -> pkeep s s.
Proof. by split. Qed.
Lemma pkeep_trans s1 s2 s3 : pkeep s1 s2 -> pkeep s2 s3 -> pkeep s1 s3.
Proof. intros [_ H1] [Hi H2]. split; [done|]. intros k. by rewrite H2. Qed.

Lemma unlock_frames ctx pid : frames proposalBucket (unlock_or_fail call ctx pid).
Proof using Hcall.
  unfold unlock_or_fail, unlockGovernTokensForProposal. apply frames_bnd; [|intros []; frames_solve].
  apply frames_try. apply frames_bnd.
  - apply frames_try. unfold MakeProposalLockPrefix, MakeProposalLockPrefixSeparator.
    replace (proposalLockKey +:+ separator +:+ pid +:+ separator +:+ separator)
      with ((proposalLockKey +:+ separator +:+ pid) +:+ separator +:+ separator) by (by rewrite !string_app_assoc).
    rewrite PrefixRange_separator.
    replace (proposalLockKey +:+ separator +:+ pid +:+ separator)
      with ((proposalLockKey +:+ separator +:+ pid) +:+ separator) by (by rewrite !string_app_assoc).
    apply frames_select; [done|done|apply range_nonempty].
  - intros [locks|e]; [|frames_solve]. generalize (String.length (MakeProposalLockPrefix pid)). intros n.
    induction locks as [|[k v] locks IH]; cbn [unlock_all]; frames_solve.
Qed.

(** Running past code that leaves the proposals alone. *)
Lemma bind_framed {A} (c : M (KState S) A) (k : A -> M (KState S) Response) s0 s o s' :
  pkeep s0 s -> frames proposalBucket c -> mbnd c k s = (o, s') ->
  pkeep s0 s' \/ exists a s1, pkeep s0 s1 /\ c s = (Ret a, s1) /\ k a s1 = (o, s').
Proof.
  intros Hk Hc E. pose proof (proj1 Hk) as Hi.
  apply mbnd_cases in E as [(a & s1 & E1 & E2)|(r & E1 & _)]; pose proof (frames_keep _ _ _ _ Hc Hi E1) as Hk1.
  - right. exists a, s1. split; [|done]. by eapply pkeep_trans.
  - left. by eapply pkeep_trans.
Qed.

(** The numbered proposals, and the one addressed, are as they were. *)
Definition nkeep pid s s' : Prop :=
  kinv s' /\ forall k, k = pid \/ (exists n, k = bigString n) \/ k = proposalIDKey ->
    kview s' proposalBucket k = kview s proposalBucket k.

Lemma pkeep_nkeep pid s s' : pkeep s s' -> nkeep pid s s'.
Proof. intros [Hi Hk]. split; [done|]. intros k _. apply Hk. Qed.

Lemma nkeep_trans pid s1 s2 s3 : nkeep pid s1 s2 -> nkeep pid s2 s3 -> nkeep pid s1 s3.
Proof. intros [_ K1] [Hi K2]. split; [done|]. intros k Hk. by rewrite K2, K1. Qed.

Lemma nkeep_evolves pid s s' : nkeep pid s s' -> evolve_state s s'.
Proof.
  intros [Hi Hk]. split; [done| |intros n; rewrite Hk; eauto|intros _; apply Hk; auto].
  intros n p _ Hst. exists p. split; [|apply evolves_refl].
  unfold stored, MakeProposalKey in *. rewrite Hk; eauto.
Qed.

Lemma lock_key_not_pid pid a : pid <> MakeProposalLockKey pid a.
Proof.
  intros E. apply (f_equal String.length) in E. unfold MakeProposalLockKey in E.
  rewrite !string_length_app in E. cbn in E. lia.
Qed.

Lemma lock_put_nkeep pid a v s o s' :
  kinv s -> ctx_Put proposalBucket (MakeProposalLockKey pid a) v s = (o, s') -> nkeep pid s s'.
Proof.
  intros Hi E. apply put_pupd in E as [Hi' Hk]; [|done]. split; [done|]. intros k Hcase. rewrite Hk, decide_False; [done|].
  destruct Hcase as [->|[[n ->]| ->]]; [apply lock_key_not_pid|apply lock_key_not_number|discriminate].
Qed.

(** Running past a write of the proposal last. *)
Lemma bind_update s0 s pid buf p p' (k : unit -> M (KState S) Response) o s' :
  nkeep pid s0 s -> kview s0 proposalBucket (MakeProposalKey pid) = Ret buf -> Parse buf = Some p -> evolves p p' ->
  (forall u, frames proposalBucket (k u)) ->
  mbnd (updateProposal pid p') k s = (o, s') -> evolve_state s0 s'.
Proof.
  intros Hk Hbuf Hp Hev Hf E. pose proof (proj1 Hk) as Hi.
  assert (evolve_state s s') as [Hi' He Hnew Hc].
  { apply mbnd_cases in E as [(a & s1 & E1 & E2)|(r & E1 & _)]; unfold updateProposal in E1; apply put_pupd in E1; try done.
    - eapply then_keep; [|eapply frames_keep; [apply Hf|exact (proj1 E1)|exact E2]].
      eapply update_evolves; [|done..]. rewrite (proj2 Hk); [done|by left].
    - eapply update_evolves; [|done..]. rewrite (proj2 Hk); [done|by left]. }
  split; [done| | |].
  - intros n q Hq Hst. apply He; [done|]. unfold stored, MakeProposalKey in *. rewrite (proj2 Hk); eauto.
  - intros n Hn. apply Hnew in Hn. rewrite (proj2 Hk) in Hn; eauto.
  - intros Hcs. rewrite Hc; [|unfold counter_ok; rewrite (proj2 Hk); auto]. apply (proj2 Hk). auto.
Qed.

#[local] Hint Resolve Hcall : frames.
Hint Extern 1 (frames _ (call _ _ _ _ _)) => apply Hcall : frames.

Lemma Vote_evolves s ctx o s' : kinv s -> Vote call ctx s = (o, s') -> evolve_state s s'.
Proof using Hcall.
  intros Hi E. unfold Vote in E. pose proof (keep_evolves s s (pkeep_refl s Hi)) as Hs.
  destruct (Args ctx !! "proposal_id") as [pb|]; [|unfold mfail in E; by simplify_eq].
  destruct (Args ctx !! "amount") as [ab|]; [|unfold mfail in E; by simplify_eq].
  destruct (blob_SetString ab) as [am ok]. destruct (negb ok || (am <? 0)%Z) eqn:Etest; [unfold mfail in E; by simplify_eq|].
  bool_prop. apply head_read in E as [Hk|(p & s1 & buf & Hk & Hbuf & Hp & E)]; [by apply keep_evolves| |done].
  case_bool_decide as Hst; cbn [negb] in E; [|unfold mfail in E; simplify_eq; by apply keep_evolves].
  apply (bind_framed _ _ s) in E as [?|(_ & s2 & Hk2 & _ & E)]; [by apply keep_evolves| |done|apply Hcall].
  apply (bind_framed _ _ s) in E as [?|(old & s3 & Hk3 & _ & E)]; [by apply keep_evolves| |done|by apply frames_try, frames_get].
  apply mbnd_cases in E as [([] & s4 & E4 & E)|(r & E4 & _)];
    apply lock_put_nkeep in E4; try exact (proj1 Hk3);
    pose proof (nkeep_trans _ _ _ _ (pkeep_nkeep _ _ _ Hk3) E4) as Hn; [|by eapply nkeep_evolves].
  destruct (VoteAmount p) as [votes|] eqn:Ev; [|unfold mpanic in E; simplify_eq; by eapply nkeep_evolves].
  eapply bind_update; [exact Hn|exact Hbuf|exact Hp|by apply evolves_votes| |exact E].
  intros. frames_solve.
Qed.

Lemma Thaw_evolves s ctx o s' : kinv s -> Thaw call ctx s = (o, s') -> evolve_state s s'.
Proof using Hcall.
  intros Hi E. unfold Thaw in E. pose proof (keep_evolves s s (pkeep_refl s Hi)) as Hs.
  destruct (Args ctx !! "proposal_id") as [pb|]; [|unfold mfail in E; by simplify_eq].
  apply head_read in E as [Hk|(p & s1 & buf & Hk & Hbuf & Hp & E)]; [by apply keep_evolves| |done].
  case_bool_decide; cbn [negb] in E; [|unfold mfail in E; simplify_eq; by apply keep_evolves].
  destruct (VoteAmount p) as [votes|] eqn:Ev; [|unfold mpanic in E; simplify_eq; by apply keep_evolves].
  destruct (0 <? votes)%Z; [unfold mfail in E; simplify_eq; by apply keep_evolves|].
  case_bool_decide as Hst; cbn [negb] in E; [|unfold mfail in E; simplify_eq; by apply keep_evolves].
  eapply bind_update; [by apply pkeep_nkeep|exact Hbuf|exact Hp| | |exact E].
  - apply evolves_status. rewrite Hst. constructor.
  - intros. frames_solve.
Qed.

Lemma CheckVoteResult_evolves s ctx o s' : kinv s -> CheckVoteResult call ctx s = (o, s') -> evolve_state s s'.
Proof using Hcall.
  intros Hi E. unfold CheckVoteResult in E. pose proof (keep_evolves s s (pkeep_refl s Hi)) as Hs.
  case_bool_decide; cbn [negb] in E; [|unfold mfail in E; by simplify_eq].
  apply (bind_framed _ _ s) in E as [?|(pid & s1 & Hk1 & _ & E)]; [by apply keep_evolves| |by split|apply frames_lift].
  apply head_read in E as [Hk|(p & s2 & buf & Hk & Hbuf & Hp & E)]; [eapply keep_evolves, pkeep_trans; done| |exact (proj1 Hk1)].
  rewrite (proj2 Hk1) in Hbuf. pose proof (pkeep_trans _ _ _ Hk1 Hk) as Hk2.
  case_bool_decide as Hst; cbn [negb] in E; [|unfold mpure in E; simplify_eq; by apply keep_evolves].
  apply (bind_framed _ _ s) in E as [?|(r & s3 & Hk3 & _ & E)]; [by apply keep_evolves| |done|apply frames_try, Hcall].
  destruct r as [resp|e]; [|unfold mfail in E; simplify_eq; by apply keep_evolves].
  apply (bind_framed _ _ s) in E as [?|(pc & s4 & Hk4 & _ & E)]; [by apply keep_evolves| |done|apply frames_lift].
  destruct (VoteAmount p) as [votes|] eqn:Ev; [|unfold mpanic in E; simplify_eq; by apply keep_evolves].
  destruct (votes <? _)%Z.
  - apply (bind_framed _ _ s) in E as [?|(u & s5 & Hk5 & _ & E)]; [by apply keep_evolves| |done|by apply unlock_frames].
    eapply (bind_update s s5); [by apply pkeep_nkeep|exact Hbuf|exact Hp| | |exact E].
    + apply evolves_status. rewrite Hst. constructor.
    + intros. frames_solve.
  - destruct (PTrigger p) as [tr|]; [|unfold mpanic in E; simplify_eq; by apply keep_evolves].
    apply (bind_framed _ _ s) in E as [?|(u & s5 & Hk5 & _ & E)]; [by apply keep_evolves| |done|apply Hcall].
    eapply (bind_update s s5); [by apply pkeep_nkeep|exact Hbuf|exact Hp| | |exact E].
    + apply evolves_status. rewrite Hst. constructor.
    + intros. frames_solve.
Qed.

Lemma Trigger_evolves s ctx o s' : kinv s -> Trigger call ctx s = (o, s') -> evolve_state s s'.
Proof using Hcall.
  intros Hi E. unfold Trigger in E. pose proof (keep_evolves s s (pkeep_refl s Hi)) as Hs.
  case_bool_decide; cbn [negb] in E; [|unfold mfail in E; by simplify_eq].
  apply (bind_framed _ _ s) in E as [?|(pid & s1 & Hk1 & _ & E)]; [by apply keep_evolves| |by split|apply frames_lift].
  apply head_read in E as [Hk|(p & s2 & buf & Hk & Hbuf & Hp & E)]; [eapply keep_evolves, pkeep_trans; done| |exact (proj1 Hk1)].
  rewrite (proj2 Hk1) in Hbuf. pose proof (pkeep_trans _ _ _ Hk1 Hk) as Hk2.
  case_bool_decide as Hst; cbn [negb] in E; [|unfold mpure in E; simplify_eq; by apply keep_evolves].
  destruct (PTrigger p) as [tr|]; [|unfold mpanic in E; simplify_eq; by apply keep_evolves].
  apply (bind_framed _ _ s) in E as [?|(r & s3 & Hk3 & _ & E)]; [by apply keep_evolves| |done|apply frames_try, Hcall].
  apply (bind_framed _ _ s) in E as [?|(u & s5 & Hk5 & _ & E)]; [by apply keep_evolves| |done|by apply unlock_frames].
  eapply (bind_update s s5); [by apply pkeep_nkeep|exact Hbuf|exact Hp| | |exact E].
  - apply evolves_status. rewrite Hst. destruct r; constructor.
  - intros. frames_solve.
Qed.

Lemma getNextProposalID_law s :
  kinv s -> exists s', getNextProposalID s = (Ret (bigString (lastProposalID s + 1)), s') /\ pkeep s s'.
Proof.
  intros Hi. unfold getNextProposalID, mbnd, mtry, mpure, lastProposalID.
  destruct (ctx_Get proposalBucket proposalIDKey s) as [o s1] eqn:Eg.
  destruct (get_pkeep s _ o s1 Hi Eg) as [Hk ->]. exists s1. split; [|done].
  pose proof (kview_no_panic s proposalBucket proposalIDKey) as Hnp.
  by destruct (kview s proposalBucket proposalIDKey).
Qed.

Definition newProposal (ctx : Context) (p : Proposal) : Proposal :=
  mkProposal (PArgs p) (PTrigger p) (Some 0%Z) ProposalStatusVoting (Initiator ctx).

(** [Propose] fails without effect on the proposals, or adds one. *)
Lemma Propose_law s ctx o s' :
  kinv s -> Propose call ctx s = (o, s') ->
  let pid := bigString (lastProposalID s + 1) in
  (pkeep s s' /\ is_ret o = false) \/
  exists p, Parse (default (Raw "") (Args ctx !! "proposal")) = Some p /\ checkProposalArgs p = Ret tt /\
    o = Ret (resp_ok (Some (Raw pid))) /\ kinv s' /\ stored s' pid (newProposal ctx p) /\
    kview s' proposalBucket proposalIDKey = Ret (Raw pid) /\
    kview s' proposalBucket (MakeProposalLockKey pid (Initiator ctx)) = Ret (Raw "1000") /\
    forall k, k <> pid -> k <> proposalIDKey -> k <> MakeProposalLockKey pid (Initiator ctx) ->
      kview s' proposalBucket k = kview s proposalBucket k.
Proof using Hcall.
  intros Hi E pid. destruct (getNextProposalID_law s Hi) as (s1 & E1 & Hk1).
  unfold Propose in E. rewrite (mbnd_ret _ _ _ _ _ E1) in E. fold pid in E.
  destruct (Parse _) as [p|]; [|unfold mfail in E; simplify_eq; by left].
  unfold mbnd at 1, mlift in E. destruct (checkProposalArgs p) as [[]| |] eqn:Echk; [|by simplify_eq; left..].
  unfold mbnd at 1 in E. destruct (parg_string p "stop_vote_height") as [stop| |]; [|by simplify_eq; left..].
  unfold mbnd at 1 in E. destruct (call ctx TypeKernel TimerTaskKernelContract _ _ s1) as [r2 s2] eqn:E2.
  pose proof (pkeep_trans _ _ _ Hk1 (frames_keep _ _ _ _ (Hcall _ _ _ _ _) (proj1 Hk1) E2)) as Hk2.
  destruct r2 as [r2| |]; [|by simplify_eq; left..].
  unfold mbnd at 1 in E. destruct (call ctx TypeKernel GovernTokenKernelContract _ _ s2) as [r3 s3] eqn:E3.
  pose proof (pkeep_trans _ _ _ Hk2 (frames_keep _ _ _ _ (Hcall _ _ _ _ _) (proj1 Hk2) E3)) as Hk3.
  destruct r3 as [r3| |]; [|by simplify_eq; left..]. right. exists p. pose proof (proj1 Hk3) as Hi3.
  unfold mbnd in E. revert E. kput Hi3 (eq_refl : no_slash proposalBucket = true) s4 Hi4 Hu4.
  kput Hi4 (eq_refl : no_slash proposalBucket = true) s5 Hi5 Hu5.
  kput Hi5 (eq_refl : no_slash proposalBucket = true) s6 Hi6 Hu6. cbn. intros [= <- <-].
  split_and!; [done|done|done|done|exact (kupdate_at _ _ _ _ _ (eq_refl : no_slash proposalBucket = true) Hu6)|..].
  - change (kview s6 proposalBucket proposalIDKey = Ret (Raw pid)).
    rewrite (kupdate_key _ _ _ _ _ _ Hu6) by (first [done|apply not_eq_sym, id_key_not_number]).
    rewrite (kupdate_at _ _ _ _ _ (eq_refl : no_slash proposalBucket = true) Hu5). apply written_number.
  - change (kview s6 proposalBucket (MakeProposalLockKey pid (Initiator ctx)) = Ret (Raw "1000")).
    rewrite (kupdate_key _ _ _ _ _ _ Hu6) by (first [done|apply not_eq_sym, lock_key_not_number]).
    rewrite (kupdate_key _ _ _ _ _ _ Hu5) by done.
    exact (kupdate_at _ _ _ _ _ (eq_refl : no_slash proposalBucket = true) Hu4).
  - intros k N1 N2 N3. change (kview s6 proposalBucket k = kview s proposalBucket k).
    rewrite (kupdate_key _ _ _ _ _ _ Hu6), (kupdate_key _ _ _ _ _ _ Hu5), (kupdate_key _ _ _ _ _ _ Hu4) by done.
    apply (proj2 Hk3).
Qed.
End Life.

(** ** All calls of the contract *)

Section ProposalSteps.
Context {S : Type} `{StateSandboxLaws S}.
Implicit Types s : KState S.

(** Proposals are numbered up to the counter. *)
Definition pinv s : Prop :=
  kinv s /\ counter_ok s /\
  forall n, is_ret (kview s proposalBucket (bigString n)) = true -> (n <= lastProposalID s)%Z.

(** A call of one of the methods, with calls of other contracts that leave
    the proposals alone. *)
Inductive prop_step : KState S -> KState S -> Prop :=
| ps_propose s call ctx o s' : frames_call proposalBucket call -> Propose call ctx s = (o, s') -> prop_step s s'
| ps_vote s call ctx o s' : frames_call proposalBucket call -> Vote call ctx s = (o, s') -> prop_step s s'
| ps_thaw s call ctx o s' : frames_call proposalBucket call -> Thaw call ctx s = (o, s') -> prop_step s s'
| ps_check s call ctx o s' : frames_call proposalBucket call -> CheckVoteResult call ctx s = (o, s') -> prop_step s s'
| ps_trigger s call ctx o s' : frames_call proposalBucket call -> Trigger call ctx s = (o, s') -> prop_step s s'.

Definition proposals_evolve s s' : Prop :=
  forall n p, wf_proposal p -> stored s (bigString n) p -> exists p', stored s' (bigString n) p' /\ evolves p p'.

Lemma evolve_state_pinv s s' : evolve_state s s' -> pinv s -> pinv s' /\ proposals_evolve s s'.
Proof.
  intros [Hi He Hn Hc] (_ & Hcs & Hnum). split; [|exact He]. specialize (Hc Hcs). split; [done|].
  split; [unfold counter_ok; by rewrite Hc|]. intros n Hret. unfold lastProposalID. rewrite Hc. auto.
Qed.

Lemma prop_step_pinv s s' : prop_step s s' -> pinv s -> pinv s' /\ proposals_evolve s s'.
Proof.
  intros Hs Hp. pose proof (proj1 Hp) as Hi.
  destruct Hs as [s call ctx o s' Hc E|s call ctx o s' Hc E|s call ctx o s' Hc E|s call ctx o s' Hc E|s call ctx o s' Hc E].
  2: by apply evolve_state_pinv, Hp; eapply Vote_evolves.
  2: by apply evolve_state_pinv, Hp; eapply Thaw_evolves.
  2: by apply evolve_state_pinv, Hp; eapply CheckVoteResult_evolves.
  2: by apply evolve_state_pinv, Hp; eapply Trigger_evolves.
  destruct (Propose_law call Hc s ctx o s' Hi E) as [[Hk _]|(p & _ & _ & _ & Hi' & Hst & Hid & _ & Hother)].
  { apply evolve_state_pinv, Hp. by apply keep_evolves. }
  destruct Hp as (_ & Hcs & Hnum).
  assert (lastProposalID s' = (lastProposalID s + 1)%Z) as Hl.
  { unfold lastProposalID at 1. rewrite Hid. cbn. by rewrite SetString_bigString. }
  assert (forall n, n <> (lastProposalID s + 1)%Z -> kview s' proposalBucket (bigString n) = kview s proposalBucket (bigString n)) as Hsame.
  { intros n Hn. apply Hother; [intros Heq; by apply (inj bigString) in Heq|apply id_key_not_number|apply lock_key_not_number]. }
  split.
  - split; [done|]. split; [unfold counter_ok; rewrite Hid; by eexists|]. intros n Hret. rewrite Hl.
    destruct (decide (n = lastProposalID s + 1)%Z) as [->|Hn]; [lia|]. rewrite Hsame in Hret by done. apply Hnum in Hret. lia.
  - intros n q Hq Hst'. exists q. split; [|apply evolves_refl]. unfold stored, MakeProposalKey in *. rewrite Hsame; [done|].
    intros ->. specialize (Hnum (lastProposalID s + 1)%Z). rewrite Hst' in Hnum. specialize (Hnum eq_refl). lia.
Qed.

Lemma evolves_wf p p' : evolves p p' -> wf_proposal p -> wf_proposal p'.
Proof. intros He. unfold wf_proposal. by rewrite (ev_trigger _ _ He). Qed.

Lemma prop_steps_evolve s s' :
  rtc prop_step s s' -> pinv s ->
  pinv s' /\ forall n p, wf_proposal p -> stored s (bigString n) p -> exists p', stored s' (bigString n) p' /\ rtc evolves p p'.
Proof.
  induction 1 as [s|s1 s2 s3 Hs _ IH]; intros Hp; [by split; [|intros; eexists]|].
  destruct (prop_step_pinv s1 s2 Hs Hp) as [Hp2 He2]. destruct (IH Hp2) as [Hp3 He3]. split; [done|].
  intros n p Hwf Hst. destruct (He2 n p Hwf Hst) as (p2 & Hst2 & Hev).
  destruct (He3 n p2 (evolves_wf _ _ Hev Hwf) Hst2) as (p3 & Hst3 & Hr). exists p3. split; [done|]. by eapply rtc_l.
Qed.
End ProposalSteps.

(** The statuses a proposal does not leave. *)
Definition finished (st : string) : Prop :=
  st = ProposalStatusCancelled \/ st = ProposalStatusRejected \/
  st = ProposalStatusCompletedAndFailure \/ st = ProposalStatusCompletedAndSuccess.

Lemma evolves_finished p p' : finished (PStatus p) -> rtc evolves p p' -> p' = p.
Proof.
  intros Hf. induction 1 as [p|p1 p2 p3 [Ha Ht Hp Hs Hv] _ IH]; [done|].
  assert (PStatus p2 = PStatus p1) as Hst.
  { unfold finished in Hf. inversion Hs as [st E1 E2|E1 E2|E1 E2|E1 E2|E1 E2|E1 E2]; [done|..];
      rewrite <- E1 in Hf; by repeat destruct Hf as [Hf|Hf]. }
  assert (p2 = p1) as ->; [|by apply IH].
  destruct Hv as [Hv|[Hv _]].
  - destruct p1, p2. cbn in *. by subst.
  - unfold finished in Hf. rewrite Hv in Hf. by repeat destruct Hf as [Hf|Hf].
Qed.

Lemma evolves_terms p p' :
  rtc evolves p p' -> PArgs p' = PArgs p /\ PTrigger p' = PTrigger p /\ Proposer p' = Proposer p /\
  rtc status_edge (PStatus p) (PStatus p').
Proof.
  induction 1 as [p|p1 p2 p3 [Ha Ht Hp Hs Hv] _ (IHa & IHt & IHp & IHs)]; [done|].
  split_and!; [congruence..|]. by eapply rtc_l.
Qed.

(** C29: the life of a proposal.  Whatever sequence of calls of the proposal
    contract runs, with whatever outcome, a stored proposal keeps its terms,
    its trigger and its author; its status only moves from voting to
    cancelled, rejected or passed, and from passed to one of the two completed
    statuses; and once it is cancelled, rejected or completed it never changes
    again, votes included. *)
Theorem proposal_lifecycle {S} `{StateSandboxLaws S} (s s' : KState S) n p :
  pinv s -> rtc prop_step s s' -> wf_proposal p -> stored s (bigString n) p ->
  exists p', stored s' (bigString n) p' /\
    PArgs p' = PArgs p /\ PTrigger p' = PTrigger p /\ Proposer p' = Proposer p /\
    rtc status_edge (PStatus p) (PStatus p') /\
    (finished (PStatus p) -> p' = p).
Proof.
  intros Hp Hr Hwf Hst. destruct (prop_steps_evolve s s' Hr Hp) as [_ He].
  destruct (He n p Hwf Hst) as (p' & Hst' & Hev). exists p'.
  destruct (evolves_terms p p' Hev) as (? & ? & ? & ?). split_and!; try done. intros Hf. by eapply evolves_finished.
Qed.

(** ** The count of the votes *)

Section Votes.
Context {S : Type} `{StateSandboxLaws S}.
Implicit Types s : KState S.

Lemma updateProposal_stored s pid p o s' : kinv s -> updateProposal pid p s = (o, s') -> stored s' pid p /\ kinv s'.
Proof.
  intros Hi E. unfold updateProposal in E. apply put_pupd in E as [Hi' Hk]; [|done]. split; [|done].
  unfold stored. by rewrite Hk, decide_True.
Qed.

Lemma stored_keep s pid p s' : stored s pid p -> pkeep s s' -> stored s' pid p.
Proof. intros Hst [_ Hk]. unfold stored. by rewrite Hk. Qed.
End Votes.

(** A successful vote counts exactly the amount that was locked for it:
    the proposal was voting, its votes grow by the amount and the voter's lock
    record grows by the same amount. *)
Theorem vote_counts_what_it_locks {S} `{StateSandboxLaws S} (s : KState S) call ctx pb p r s' :
  kinv s -> frames_call proposalBucket call -> wf_proposal p ->
  Args ctx !! "proposal_id" = Some pb -> stored s (blob_string pb) p ->
  Vote call ctx s = (Ret r, s') ->
  exists ab amount votes old,
    Args ctx !! "amount" = Some ab /\ blob_SetString ab = (amount, true) /\ (0 <= amount)%Z /\
    PStatus p = ProposalStatusVoting /\ VoteAmount p = Some votes /\
    old = match kview s proposalBucket (MakeProposalLockKey (blob_string pb) (Initiator ctx)) with
          | Ret b => fst (blob_SetString b) | _ => 0%Z end /\
    stored s' (blob_string pb) (set_votes p (votes + amount)) /\
    kview s' proposalBucket (MakeProposalLockKey (blob_string pb) (Initiator ctx)) = Ret (Raw (bigString (old + amount))).
Proof.
  intros Hi Hc Hwf Hpb Hst E. unfold Vote in E. rewrite Hpb in E.
  destruct (Args ctx !! "amount") as [ab|]; [|done]. destruct (blob_SetString ab) as [am ok] eqn:Eam.
  destruct (negb ok || (am <? 0)%Z) eqn:Etest; [done|]. bool_prop. subst.
  apply mbnd_inv_ret in E as (p' & s1 & E1 & E).
  apply (getProposal_or_stored s _ _ p) in E1 as [Hk1 ->]; [|done..].
  case_bool_decide as Hv; cbn [negb] in E; [|done].
  apply mbnd_inv_ret in E as (r2 & s2 & E2 & E). apply (frames_keep _ _ _ _ (Hc _ _ _ _ _) (proj1 Hk1)) in E2.
  pose proof (pkeep_trans _ _ _ Hk1 E2) as Hk2.
  apply mbnd_inv_ret in E as (old & s3 & E3 & E). unfold mtry in E3.
  destruct (ctx_Get proposalBucket (MakeProposalLockKey (blob_string pb) (Initiator ctx)) s2) as [o3 s3'] eqn:Eg.
  destruct (get_pkeep _ _ _ _ (proj1 Hk2) Eg) as [Hk3 Ho3].
  assert (s3' = s3) as -> by (destruct o3; by simplify_eq).
  pose proof (pkeep_trans _ _ _ Hk2 Hk3) as Hk.
  apply mbnd_inv_ret in E as ([] & s4 & E4 & E). apply put_pupd in E4 as [Hi4 Hk4]; [|exact (proj1 Hk)].
  destruct (VoteAmount p) as [votes|] eqn:Ev; [|done].
  apply mbnd_inv_ret in E as ([] & s5 & E5 & E). unfold updateProposal in E5. apply put_pupd in E5 as [Hi5 Hk5]; [|done].
  unfold mbnd, AddResourceUsed, mpure in E. injection E as <- <-.
  set (lk := MakeProposalLockKey (blob_string pb) (Initiator ctx)) in *.
  exists ab, am, votes, (match kview s proposalBucket lk with Ret b => fst (blob_SetString b) | _ => 0%Z end).
  split_and!; [done..| |].
  - unfold stored. change (kview s5 proposalBucket (MakeProposalKey (blob_string pb)) = Ret (UnParse (set_votes p (votes + am)))).
    by rewrite Hk5, decide_True.
  - change (kview s5 proposalBucket lk = Ret (Raw (bigString ((match kview s proposalBucket lk with Ret b => fst (blob_SetString b) | _ => 0 end) + am)))).
    rewrite Hk5, decide_False by (intros Eq; symmetry in Eq; by apply lock_key_not_pid in Eq).
    rewrite Hk4, decide_True by done. rewrite written_number.
    do 3 f_equal. rewrite <- (proj2 Hk2 lk), <- Ho3. destruct o3; simplify_eq; lia.
Qed.

(** The decision at the end of the vote: a voting proposal is rejected when
    its votes are below the required percentage of the total supply (rounded
    down) and passed otherwise; nothing else of it changes. *)
Theorem check_vote_decides {S} `{StateSandboxLaws S} (s : KState S) call ctx pid p votes pc total r s' :
  kinv s -> frames_call proposalBucket call -> wf_proposal p ->
  callback_id ctx = Ret pid -> stored s pid p -> PStatus p = ProposalStatusVoting ->
  VoteAmount p = Some votes -> parg p "min_vote_percent" = Some (JStr pc) ->
  (forall s0, kequiv s s0 -> kinv s0 -> exists resp s1,
     call ctx TypeKernel GovernTokenKernelContract "TotalSupply" ∅ s0 = (Ret resp, s1) /\
     Body resp = Some (Raw (bigString total))) ->
  CheckVoteResult call ctx s = (Ret r, s') ->
  stored s' pid (set_status p
    (if (votes <? total * fst (SetString pc) / 100)%Z then ProposalStatusRejected else ProposalStatusPassed)).
Proof.
  intros Hi Hc Hwf Hid Hst Hv Hvotes Hpc Hsup E. unfold CheckVoteResult in E.
  case_bool_decide; cbn [negb] in E; [|done]. rewrite Hid in E. unfold mbnd at 1, mlift in E.
  destruct (ctx_Get_law s proposalBucket (MakeProposalKey pid) Hi eq_refl) as (s2 & E2 & Hi2 & He2).
  assert (getProposal_or "check vote failed, no proposal found, err: " pid s = (Ret p, s2)) as Eg.
  { unfold getProposal_or, getProposal, mbnd, mtry. rewrite E2. unfold stored in Hst. rewrite Hst.
    by rewrite Parse_UnParse. }
  rewrite (mbnd_ret _ _ _ _ _ Eg) in E. rewrite bool_decide_eq_true_2 in E by done. cbn [negb] in E.
  destruct (Hsup s2 He2 Hi2) as (resp & s1 & Es & Hbody).
  unfold mbnd at 1, mtry in E. rewrite Es, Hbody in E. cbn [default from_option id blob_SetString] in E.
  rewrite SetString_bigString in E. cbn [fst] in E. unfold parg_string in E. rewrite Hpc in E. unfold mbnd at 1 in E.
  rewrite Hvotes in E.
  assert (kinv s1) as Hi1 by (by destruct (Hc _ _ _ _ _ _ _ _ Hi2 Es)).
  destruct (votes <? _)%Z.
  - apply mbnd_inv_ret in E as (u & s3 & E3 & E). apply (frames_keep _ _ _ _ (unlock_frames call Hc _ _) Hi1) in E3.
    apply mbnd_inv_ret in E as ([] & s4 & E4 & E). unfold mpure in E. injection E as <- <-.
    by apply updateProposal_stored in E4 as [? _]; [|exact (proj1 E3)].
  - destruct (PTrigger p) as [tr|]; [|done].
    apply mbnd_inv_ret in E as (u & s3 & E3 & E). apply (frames_keep _ _ _ _ (Hc _ _ _ _ _) Hi1) in E3.
    apply mbnd_inv_ret in E as ([] & s4 & E4 & E). unfold mpure in E. injection E as <- <-.
    by apply updateProposal_stored in E4 as [? _]; [|exact (proj1 E3)].
Qed.

(** ** Releasing the locks *)

(** The accounts whose locks [unlockGovernTokensForProposal] reaches. *)
Lemma lock_prefix_range pid :
  PrefixRange (MakeProposalLockPrefixSeparator pid) = Some (MakeProposalLockPrefix pid +:+ "`").
Proof.
  unfold MakeProposalLockPrefix, MakeProposalLockPrefixSeparator.
  replace (proposalLockKey +:+ separator +:+ pid +:+ separator +:+ separator)
    with ((proposalLockKey +:+ separator +:+ pid) +:+ separator +:+ separator) by (by rewrite !string_app_assoc).
  rewrite PrefixRange_separator. by rewrite !string_app_assoc.
Qed.

Lemma lock_key_prefix pid a : MakeProposalLockKey pid a = MakeProposalLockPrefix pid +:+ a.
Proof. unfold MakeProposalLockKey, MakeProposalLockPrefix. by rewrite !string_app_assoc. Qed.

(** The release of the locks of a decided proposal covers exactly the
    accounts whose name is below the byte 0x60: the range it selects ends at
    the prefix followed by a backquote, so the lock record of an account that
    starts with a lower-case letter is never selected and its tokens stay
    locked. *)
Theorem unlock_range_covers_only pid a :
  exists limit, PrefixRange (MakeProposalLockPrefixSeparator pid) = Some limit /\
    (in_range (MakeProposalLockPrefix pid) limit (MakeProposalLockKey pid a) <-> str_lt a "`").
Proof.
  exists (MakeProposalLockPrefix pid +:+ "`"). split; [apply lock_prefix_range|].
  rewrite lock_key_prefix. unfold in_range, str_lt. rewrite string_compare_app.
  split; [by intros []|]. intros. split; [apply str_le_prefix|done].
Qed.

(** ** A full run of the governance contracts *)

Module GovScenario.
Import Fresh.

Definition t : GovKernMethod :=
  mkGovKernMethod 1000 [mkPredistribution "Alice" "5000"; mkPredistribution "bob" "5000"].

Definition registry : registryImpl (KernMethod store) :=
  snd (register_all (gov_methods t ++ timer_methods ++ propose_methods) NewRegistry).

(** A transaction of [who] that calls one method; calls are nested at most
    four deep here. *)
Definition tx (who contract method : string) (args : gmap string blob) : M (KState store) Response :=
  ContractCall registry (fun _ _ _ _ => true) (fun _ _ _ => mpanic) 12
    (mkContext "" who "" [] ∅ MaxLimits) TypeKernel contract method args.

Definition s0 : KState store := mkKState NewXModelCache NoLimits ∅.

Definition proposal : blob :=
  UnParse (mkProposal (Some {["min_vote_percent" := JStr "51"; "stop_vote_height" := JStr "20"]})
    (Some (mkTrigger 30 "xkernel" "$govern_token" "Query" None)) None "" "").

Definition vote (amount : string) : gmap string blob := {["proposal_id" := Raw "1"; "amount" := Raw amount]}.
Definition at_height (h : string) : gmap string blob := {["block_height" := Raw h]}.

Definition setup : M (KState store) Response :=
  do! tx "Alice" GovernTokenKernelContract "Init" ∅ in
  tx "Alice" ProposalKernelContract "Propose" {["proposal" := proposal]}.

(** 5000 of 10000 votes: below 51 per cent. *)
Definition rejected : M (KState store) Response :=
  do! setup in
  do! tx "bob" ProposalKernelContract "Vote" (vote "2000") in
  do! tx "Alice" ProposalKernelContract "Vote" (vote "3000") in
  tx "miner" TimerTaskKernelContract "Do" (at_height "20").

(** 5100 votes, and the trigger runs at its height. *)
Definition passed : M (KState store) Response :=
  do! setup in
  do! tx "bob" ProposalKernelContract "Vote" (vote "2000") in
  do! tx "Alice" ProposalKernelContract "Vote" (vote "3100") in
  tx "miner" TimerTaskKernelContract "Do" (at_height "20").

Definition status (s : KState store) : string :=
  match fst (getProposal "1" s) with Ret p => PStatus p | _ => "" end.

Definition locked (a : string) (s : KState store) : Z :=
  match account s a with Some b => lockedAmount b GovernTokenTypeOrdinary | None => 0%Z end.
End GovScenario.

(** The governance contracts together, calling each other through the
    kernel: with 5000 of 10000 votes at 51 per cent the proposal is rejected
    and Alice's tokens (1000 for proposing, 3000 for voting) are released, but
    bob's 2000 stay locked; with 5100 votes it passes, and its trigger then
    completes it. *)
Theorem governance_scenario :
  is_ret (fst (GovScenario.rejected GovScenario.s0)) = true /\
  GovScenario.status (snd (GovScenario.rejected GovScenario.s0)) = ProposalStatusRejected /\
  GovScenario.locked "Alice" (snd (GovScenario.rejected GovScenario.s0)) = 0%Z /\
  GovScenario.locked "bob" (snd (GovScenario.rejected GovScenario.s0)) = 2000%Z /\
  GovScenario.status (snd (GovScenario.passed GovScenario.s0)) = ProposalStatusPassed /\
  GovScenario.status (snd ((do! GovScenario.passed in
    GovScenario.tx "miner" TimerTaskKernelContract "Do" (GovScenario.at_height "30")) GovScenario.s0))
    = ProposalStatusCompletedAndFailure.
Proof. vm_compute. repeat split. Qed.

(** ** A proposal, step by step *)

Module ProposalExample.
Import Fresh.
Import GovScenario.

(** The contracts the proposal contract calls. *)
Definition registry : registryImpl (KernMethod store) :=
  snd (register_all (gov_methods t ++ timer_methods) NewRegistry).
Definition call : CallFn store := ContractCall registry (fun _ _ _ _ => true) (fun _ _ _ => mpanic) 12.

Lemma call_frames : frames_call proposalBucket call.
Proof.
  eapply (gov_timer_calls_frame t registry); [unfold registry; apply surjective_pairing|].
  intros m ctx d. apply frames_panic.
Qed.

Definition ctx (who caller : string) (args : gmap string blob) : Context :=
  mkContext ProposalKernelContract who caller [] args MaxLimits.

Definition s_start : KState store := start ProposalKernelContract.
Definition s_init : KState store := snd (InitGovernTokens t call (ctx "Alice" "" ∅) s_start).
Definition s_prop : KState store := snd (Propose call (ctx "Alice" "" {["proposal" := proposal]}) s_init).
Definition vote_ctx : Context := ctx "bob" "" (vote "2000").
Definition s_vote : KState store := snd (Vote call vote_ctx s_prop).
Definition check_ctx : Context :=
  ctx "miner" TimerTaskKernelContract {["args" := Doc [("proposal_id", JStr (b64_encode "1"))]]}.
Definition s_check : KState store := snd (CheckVoteResult call check_ctx s_vote).

Definition p1 : Proposal :=
  mkProposal (Some {["min_vote_percent" := JStr "51"; "stop_vote_height" := JStr "20"]})
    (Some (mkTrigger 30 "xkernel" "$govern_token" "Query" None)) (Some 0%Z) ProposalStatusVoting "Alice".

Lemma s_init_pinv : pinv s_init.
Proof.
  assert (frames proposalBucket (InitGovernTokens t call (ctx "Alice" "" ∅))) as Hf.
  { apply (gov_methods_frame t GovernTokenKernelContract "Init"); [left|exact call_frames]. }
  destruct (Hf s_start (fst (InitGovernTokens t call (ctx "Alice" "" ∅) s_start)) s_init) as [Hi Hv].
  - apply start_inv.
  - unfold s_init. apply surjective_pairing.
  - assert (forall k, kview s_init proposalBucket k = Err ErrNotFound) as Hn by (intros k; by rewrite Hv).
    split; [done|]. split; [unfold counter_ok; by rewrite Hn|]. intros n. by rewrite Hn.
Qed.

Lemma step_prop : prop_step s_init s_prop.
Proof. eapply ps_propose; [exact call_frames|]. unfold s_prop. apply surjective_pairing. Qed.
Lemma step_vote : prop_step s_prop s_vote.
Proof. eapply ps_vote; [exact call_frames|]. unfold s_vote. apply surjective_pairing. Qed.
Lemma step_check : prop_step s_vote s_check.
Proof. eapply ps_check; [exact call_frames|]. unfold s_check. apply surjective_pairing. Qed.

Lemma s_prop_pinv : pinv s_prop.
Proof. apply (prop_step_pinv _ _ step_prop s_init_pinv). Qed.
Lemma s_vote_pinv : pinv s_vote.
Proof. apply (prop_step_pinv _ _ step_vote s_prop_pinv). Qed.

Lemma p1_wf : wf_proposal p1.
Proof. vm_compute. split; discriminate. Qed.

Lemma p1_stored : stored s_prop "1" p1.
Proof. vm_compute. reflexivity. Qed.

Lemma p1_voted : stored s_vote "1" (set_votes p1 2000).
Proof. vm_compute. reflexivity. Qed.

Lemma vote_runs : Vote call vote_ctx s_prop = (Ret (resp_ok None), s_vote).
Proof.
  assert (fst (Vote call vote_ctx s_prop) = Ret (resp_ok None)) as <- by (vm_compute; reflexivity).
  apply surjective_pairing.
Qed.

Lemma check_runs : CheckVoteResult call check_ctx s_vote = (Ret (resp_ok None), s_check).
Proof.
  assert (fst (CheckVoteResult call check_ctx s_vote) = Ret (resp_ok None)) as <- by (vm_compute; reflexivity).
  apply surjective_pairing.
Qed.

Lemma supply_registered : GetKernMethod registry GovernTokenKernelContract "TotalSupply" = Ret TotalSupply.
Proof.
  apply (register_all_found (gov_methods t ++ timer_methods) NewRegistry); [done| |].
  - assert (fst (register_all (gov_methods t ++ timer_methods) NewRegistry) = Ret tt) as <- by (vm_compute; reflexivity).
    apply surjective_pairing.
  - unfold gov_methods. apply elem_of_app. left. do 5 right. left.
Qed.

(** The call that reads the supply, from any state like [s_vote]. *)
Lemma supply_call s0 :
  kequiv s_vote s0 -> kinv s0 ->
  exists resp s1, call check_ctx TypeKernel GovernTokenKernelContract "TotalSupply" ∅ s0 = (Ret resp, s1) /\
    Body resp = Some (Raw (bigString 10000)).
Proof.
  intros (Hv & Hu & Hset) Hi. unfold call. cbn [ContractCall].
  assert (kst_set s0 = {[ProposalKernelContract]}) as -> by (rewrite <- Hset; vm_compute; reflexivity).
  rewrite bool_decide_eq_false_2 by (vm_compute; set_solver).
  rewrite size_singleton, <- Hu. cbn [andb negb Nat.leb MaxContractCallDepth].
  rewrite bool_decide_eq_true_2 by done. unfold Invoke. rewrite bool_decide_eq_false_2 by done.
  cbn [ContractName]. rewrite supply_registered. unfold TotalSupply, mbnd at 1, mlift, mbnd.
  set (s1 := mkKState (kst_sandbox s0) NoLimits _).
  assert (kinv s1) as Hi1 by exact Hi. kget Hi1 no_slash_gov s2 Hi2 He2.
  assert (kview s1 governTokenBucket totalSupplyKey = Ret (Raw "10000")) as ->.
  { transitivity (kview s_vote governTokenBucket totalSupplyKey); [symmetry; apply Hv|]. vm_compute. reflexivity. }
  unfold mpure. destruct He2 as (_ & <- & _). cbn [kst_used s1 ResourceLimits].
  assert (kst_used s_vote = mkLimits 0 0 0 1200) as -> by (vm_compute; reflexivity).
  match goal with |- context [Limits_Exceed NoLimits ?l] =>
    assert (Limits_Exceed NoLimits l = false) as -> by (vm_compute; reflexivity) end.
  do 2 eexists. split; [reflexivity|]. reflexivity.
Qed.
End ProposalExample.

Import Fresh.

Lemma proposal_lifecycle_witness :
  exists p', stored ProposalExample.s_check (bigString 1) p' /\
    rtc status_edge ProposalStatusVoting (PStatus p') /\ Proposer p' = "Alice".
Proof.
  destruct (proposal_lifecycle ProposalExample.s_prop ProposalExample.s_check 1 ProposalExample.p1) as (p' & Hst & _ & _ & Hp & Hr & _).
  - exact ProposalExample.s_prop_pinv.
  - apply rtc_l with ProposalExample.s_vote; [exact ProposalExample.step_vote|].
    apply rtc_once. exact ProposalExample.step_check.
  - exact ProposalExample.p1_wf.
  - exact ProposalExample.p1_stored.
  - exists p'. split; [exact Hst|]. split; [exact Hr|exact Hp].
Defined.

Lemma vote_counts_what_it_locks_witness :
  stored ProposalExample.s_vote "1" (set_votes ProposalExample.p1 2000).
Proof.
  destruct (vote_counts_what_it_locks ProposalExample.s_prop ProposalExample.call ProposalExample.vote_ctx (Raw "1")
    ProposalExample.p1 (resp_ok None) ProposalExample.s_vote) as (ab & am & v & old & Ha & Hs & _ & _ & Hv & _ & Hst & _).
  - exact (proj1 ProposalExample.s_prop_pinv).
  - exact ProposalExample.call_frames.
  - exact ProposalExample.p1_wf.
  - reflexivity.
  - exact ProposalExample.p1_stored.
  - exact ProposalExample.vote_runs.
  - vm_compute in Ha. injection Ha as <-. vm_compute in Hs. injection Hs as <-. injection Hv as <-. exact Hst.
Defined.

Lemma check_vote_decides_witness :
  stored ProposalExample.s_check "1" (set_status (set_votes ProposalExample.p1 2000) ProposalStatusRejected).
Proof.
  apply (check_vote_decides ProposalExample.s_vote ProposalExample.call ProposalExample.check_ctx "1"
    (set_votes ProposalExample.p1 2000) 2000 "51" 10000 (resp_ok None) ProposalExample.s_check).
  - exact (proj1 ProposalExample.s_vote_pinv).
  - exact ProposalExample.call_frames.
  - exact ProposalExample.p1_wf.
  - vm_compute. reflexivity.
  - exact ProposalExample.p1_voted.
  - reflexivity.
  - reflexivity.
  - vm_compute. reflexivity.
  - exact ProposalExample.supply_call.
  - exact ProposalExample.check_runs.
Defined.
