(* ===== verification/QCTree.v ===== *)
(** * The tree of pending quorum certificates

    [kernel/consensus/base/driver/chained-bft/storage]: the blocks that are not
    yet final, as a tree of quorum certificates with pointers to the highest
    certified one (highQC) and to its ancestors (generic, locked and commit),
    and a list of orphan trees whose parent has not arrived.

    A node is a tree that owns its sons.  The pointers are only dereferenced
    for the certificate of their node, which never changes, so a pointer is
    that certificate; a node is in one place at a time, so no other sharing is
    lost.  A node whose certificate is nil makes the code panic before it is
    looked at, so nodes carry one. *)

From Stdlib Require Import ZArith Lia Ascii.
From stdpp Require Import base gmap strings list numbers sorting.
From S2P Require Import Prelude GoValues.

Set Default Proof Using "Type".

(** A byte slice that may be nil. *)
Definition bytes : Type := option string.

(** [bytes.Equal]: nil and empty are equal. *)
Definition bytes_equal (a b : bytes) : bool := bool_decide (default "" a = default "" b).

(** [utils.F]: hexadecimal, so a key of a map stands for the bytes. *)
Definition utils_F (b : bytes) : string := default "" b.

Record VoteInfo := mkVoteInfo {
  ProposalId : bytes;
  ProposalView : Z;
  ParentId : bytes;
  ParentView : Z
}.

Record LedgerCommitInfo := mkLedgerCommitInfo { CommitStateId : bytes; VoteInfoHash : bytes }.

Record QuorumCertSign := mkSign { SAddress : string; SPublicKey : string; SSign : string }.

Record QuorumCert := mkQC {
  qc_vote : VoteInfo;
  qc_ledger : option LedgerCommitInfo;
  qc_signs : option (list QuorumCertSign)
}.

Definition NewQuorumCert (v : VoteInfo) (l : option LedgerCommitInfo) (s : option (list QuorumCertSign)) : QuorumCert :=
  mkQC v l s.

Definition GetProposalView (q : QuorumCert) : Z := ProposalView (qc_vote q).
Definition GetProposalId (q : QuorumCert) : bytes := ProposalId (qc_vote q).
Definition GetParentProposalId (q : QuorumCert) : bytes := ParentId (qc_vote q).
Definition GetParentView (q : QuorumCert) : Z := ParentView (qc_vote q).
Definition GetSignsInfo (q : QuorumCert) : list QuorumCertSign := default [] (qc_signs q).

#[warnings="-register-all"] Inductive ProposalNode : Type := PNode (In : QuorumCert) (Sons : list ProposalNode).

Definition In (n : ProposalNode) : QuorumCert := let 'PNode q _ := n in q.
Definition Sons (n : ProposalNode) : list ProposalNode := let 'PNode _ l := n in l.

Record QCPendingTree := mkTree {
  genesis : QuorumCert;
  root : ProposalNode;
  highQC : QuorumCert;
  genericQC : option QuorumCert;
  lockedQC : option QuorumCert;
  commitQC : option QuorumCert;
  orphanList : list ProposalNode;
  orphanMap : gset string
}.

Definition set_root (t : QCPendingTree) (r : ProposalNode) : QCPendingTree :=
  mkTree (genesis t) r (highQC t) (genericQC t) (lockedQC t) (commitQC t) (orphanList t) (orphanMap t).
Definition set_orphans (t : QCPendingTree) (l : list ProposalNode) (m : gset string) : QCPendingTree :=
  mkTree (genesis t) (root t) (highQC t) (genericQC t) (lockedQC t) (commitQC t) l m.
Definition set_qcs (t : QCPendingTree) (h : QuorumCert) (g l c : option QuorumCert) : QCPendingTree :=
  mkTree (genesis t) (root t) h g l c (orphanList t) (orphanMap t).

Definition ErrNoValidQC : string := "target qc is empty".
Definition ErrNoValidParentId : string := "parentId is empty".

(** ** Queries and updates *)

(** The first node, in depth-first order, with the id [target]. *)
Fixpoint dfsQuery (node : ProposalNode) (target : bytes) : option ProposalNode :=
  match target with
  | None => None
  | Some _ =>
      if bytes_equal (GetProposalId (In node)) target then Some node
      else
        (fix dfs_sons (sons : list ProposalNode) : option ProposalNode :=
           match sons with
           | [] => None
           | n :: sons' => match dfsQuery n target with Some r => Some r | None => dfs_sons sons' end
           end) (Sons node)
  end.

(** [parent := dfsQuery(node, target); parent.Sons = append(parent.Sons, son)],
    [None] when there is no such parent. *)
Fixpoint dfsAppend (node : ProposalNode) (target : bytes) (son : ProposalNode) : option ProposalNode :=
  match target with
  | None => None
  | Some _ =>
      if bytes_equal (GetProposalId (In node)) target then Some (PNode (In node) (Sons node ++ [son]))
      else
        match (fix app_sons (sons : list ProposalNode) : option (list ProposalNode) :=
                 match sons with
                 | [] => None
                 | n :: sons' =>
                     match dfsAppend n target son with
                     | Some n' => Some (n' :: sons')
                     | None => match app_sons sons' with Some l => Some (n :: l) | None => None end
                     end
                 end) (Sons node) with
        | Some l => Some (PNode (In node) l)
        | None => None
        end
  end.

Definition DFSQueryNode (t : QCPendingTree) (id : bytes) : option ProposalNode := dfsQuery (root t) id.

(** The node's ancestors, one parent id after the other. *)
Definition parent_of (t : QCPendingTree) (n : ProposalNode) : option ProposalNode :=
  dfsQuery (root t) (GetParentProposalId (In n)).

(** The fourth node up the chain from [id] must be there too.  The code clears its
    sons; it is above the new root then, and nothing reaches it any more. *)
Definition UpdateCommit (t : QCPendingTree) (id : bytes) : QCPendingTree :=
  match dfsQuery (root t) id with
  | None => t
  | Some node =>
      match parent_of t node with
      | None => t
      | Some parent =>
          match parent_of t parent with
          | None => t
          | Some parentParent =>
              match parent_of t parentParent with
              | None => t
              | Some parentParentParent =>
                  match parent_of t parentParentParent with
                  | None => t
                  | Some _ => set_root t parentParentParent
                  end
              end
          end
      end
  end.

Definition updateQCs (t : QCPendingTree) (highQCNode : ProposalNode) : QCPendingTree :=
  match parent_of t highQCNode with
  | None => set_qcs t (In highQCNode) None None None
  | Some parent =>
      match parent_of t parent with
      | None => set_qcs t (In highQCNode) (Some (In parent)) None None
      | Some parentParent =>
          match parent_of t parentParent with
          | None => set_qcs t (In highQCNode) (Some (In parent)) (Some (In parentParent)) None
          | Some parentParentParent =>
              set_qcs t (In highQCNode) (Some (In parent)) (Some (In parentParent)) (Some (In parentParentParent))
          end
      end
  end.

(** The orphan trees whose head is a son of [node] move under it. *)
Fixpoint adopt (node : ProposalNode) (l : list ProposalNode) : ProposalNode * list ProposalNode :=
  match l with
  | [] => (node, [])
  | n :: l' =>
      if bytes_equal (GetParentProposalId (In n)) (GetProposalId (In node))
      then adopt (PNode (In node) (Sons node ++ [n])) l'
      else let (node', rest) := adopt node l' in (node', n :: rest)
  end.

(** The loop of [insertOrphan] over the orphan list: stale heads are removed,
    and it stops at the first tree the node can be hung on, above or below. *)
Fixpoint insert_orphan_loop (rootView : Z) (node : ProposalNode) (kept todo : list ProposalNode) : list ProposalNode :=
  match todo with
  | [] => kept ++ [node]
  | n :: todo' =>
      if (GetProposalView (In n) <=? rootView)%Z then insert_orphan_loop rootView node kept todo'
      else if bytes_equal (GetParentProposalId (In n)) (GetProposalId (In node)) then
        kept ++ todo' ++ [PNode (In node) (Sons node ++ [n])]
      else
        match dfsAppend n (GetParentProposalId (In node)) node with
        | Some n' => kept ++ n' :: todo'
        | None => insert_orphan_loop rootView node (kept ++ [n]) todo'
        end
  end.

Definition insertOrphan (t : QCPendingTree) (node : ProposalNode) : QCPendingTree :=
  let key := utils_F (GetProposalId (In node)) in
  if bool_decide (key ∈ orphanMap t) then t
  else
    let m := {[key]} ∪ orphanMap t in
    match orphanList t with
    | [] => set_orphans t [node] m
    | l => set_orphans t (insert_orphan_loop (GetProposalView (In (root t))) node [] l) m
    end.

(** A node whose parent is in the tree is hung there after it took its
    orphans; the parent id of a node that reaches this point is not nil. *)
Definition insert (t : QCPendingTree) (node : ProposalNode) : outcome QCPendingTree :=
  match GetParentProposalId (In node) with
  | None => Err ErrNoValidParentId
  | Some _ =>
      match dfsQuery (root t) (GetParentProposalId (In node)) with
      | Some _ =>
          let (node', rest) := adopt node (orphanList t) in
          match dfsAppend (root t) (GetParentProposalId (In node)) node' with
          | Some r => Ret (set_orphans (set_root t r) rest (orphanMap t))
          | None => Panic
          end
      | None => Ret (insertOrphan t node)
      end
  end.

Definition UpdateQcStatus (t : QCPendingTree) (node : ProposalNode) : outcome QCPendingTree :=
  match dfsQuery (root t) (GetProposalId (In node)) with
  | Some _ => Ret t
  | None =>
      match insert t node with
      | Err e => Err e
      | Panic => Panic
      | Ret t' =>
          match parent_of t' node with
          | None => Ret t'
          | Some parent =>
              if (GetProposalView (In parent) <? GetProposalView (highQC t'))%Z then Ret t'
              else Ret (updateQCs t' parent)
          end
      end
  end.

Definition UpdateHighQC (t : QCPendingTree) (inProposalId : bytes) : QCPendingTree :=
  match dfsQuery (root t) inProposalId with
  | None => t
  | Some node =>
      if (GetProposalView (In node) <? GetProposalView (highQC t))%Z then t else updateQCs t node
  end.

Definition EnforceUpdateHighQC (t : QCPendingTree) (inProposalId : bytes) : outcome QCPendingTree :=
  match dfsQuery (root t) inProposalId with
  | None => Err ErrNoValidQC
  | Some node => Ret (updateQCs t node)
  end.

(** ** Building the tree from the ledger *)

Record BlockHeader := mkHeader { h_id : string; h_height : Z }.

Section Init.
(** [ledger.QueryBlockHeaderByHeight] *)
Variable QueryBlockHeaderByHeight : Z -> option BlockHeader.

(** [nil] when there is no such block: the code then dereferences it. *)
Definition NewTreeNode (height : Z) (sons : list ProposalNode) : outcome ProposalNode :=
  match QueryBlockHeaderByHeight height with
  | None => Panic
  | Some b =>
      let ledgerInfo := Some (mkLedgerCommitInfo (Some (h_id b)) None) in
      match QueryBlockHeaderByHeight (sub64 height 1) with
      | None => Ret (PNode (NewQuorumCert (mkVoteInfo (Some (h_id b)) (h_height b) None 0) ledgerInfo None) sons)
      | Some pre =>
          Ret (PNode (NewQuorumCert (mkVoteInfo (Some (h_id b)) (h_height b) (Some (h_id pre)) (h_height pre)) ledgerInfo None) sons)
      end
  end.

Definition genesis_qc (g : BlockHeader) : QuorumCert :=
  NewQuorumCert (mkVoteInfo (Some (h_id g)) (h_height g) None 0) (Some (mkLedgerCommitInfo (Some (h_id g)) None)) None.

(** [InitQCTree], for a tip at [tipHeight]; [None] when the genesis block is
    not found.  A restart rebuilds the last four blocks as a chain. *)
Definition InitQCTree (startHeight tipHeight : Z) : outcome (option QCPendingTree) :=
  match QueryBlockHeaderByHeight (sub64 startHeight 1) with
  | None => Ret None
  | Some g =>
      let gQC := genesis_qc g in
      if (tipHeight <=? startHeight)%Z then
        Ret (Some (mkTree gQC (PNode gQC []) gQC None None None [] ∅))
      else
        outcome_bind (NewTreeNode tipHeight []) (fun tipNode =>
        if (tipHeight <? 3)%Z then
          if (tipHeight =? 1)%Z then
            outcome_bind (NewTreeNode 0 [tipNode]) (fun r =>
            Ret (Some (mkTree gQC r (In r) None None None [] ∅)))
          else if (tipHeight =? 2)%Z then
            outcome_bind (NewTreeNode 1 [tipNode]) (fun h =>
            outcome_bind (NewTreeNode 0 [h]) (fun r =>
            Ret (Some (mkTree gQC r (In h) None None None [] ∅))))
          else
            outcome_bind (NewTreeNode 0 []) (fun r =>
            Ret (Some (mkTree gQC r (In r) None None None [] ∅)))
        else
          outcome_bind (NewTreeNode (sub64 tipHeight 1) [tipNode]) (fun h =>
          outcome_bind (NewTreeNode (sub64 tipHeight 2) [h]) (fun g =>
          outcome_bind (NewTreeNode (sub64 tipHeight 3) [g]) (fun r =>
          Ret (Some (mkTree gQC r (In h) (Some (In g)) None None [] ∅))))))
  end.
End Init.

(** ** The certificates of a tree *)

Lemma node_ind (P : ProposalNode -> Prop) :
  (forall q sons, Forall P sons -> P (PNode q sons)) -> forall n, P n.
Proof.
  intros H. fix IH 1. intros [q sons]. apply H.
  induction sons as [|n sons IHs]; constructor; [apply IH|exact IHs].
Qed.

Fixpoint certs (n : ProposalNode) : list QuorumCert :=
  let 'PNode q sons := n in q :: flat_map certs sons.

Definition forest_certs (l : list ProposalNode) : list QuorumCert := flat_map certs l.

Lemma forest_certs_cons n l : forest_certs (n :: l) = certs n ++ forest_certs l.
Proof. reflexivity. Qed.

Lemma forest_certs_app l1 l2 : forest_certs (l1 ++ l2) = forest_certs l1 ++ forest_certs l2.
Proof. apply flat_map_app. Qed.

Lemma forest_certs_single n : forest_certs [n] = certs n.
Proof. unfold forest_certs. cbn. by rewrite app_nil_r. Qed.

Lemma certs_node q sons : certs (PNode q sons) = q :: forest_certs sons.
Proof. reflexivity. Qed.

(** Every son names its father. *)
Fixpoint linked (n : ProposalNode) : Prop :=
  let 'PNode q sons := n in
  Forall (fun s => bytes_equal (GetParentProposalId (In s)) (GetProposalId q) = true) sons /\
  (fix all (l : list ProposalNode) : Prop := match l with [] => True | s :: l' => linked s /\ all l' end) sons.

Lemma linked_node q sons :
  linked (PNode q sons) <->
  Forall (fun s => bytes_equal (GetParentProposalId (In s)) (GetProposalId q) = true) sons /\ Forall linked sons.
Proof.
  cbn. split; intros [H1 H2]; (split; [done|]); clear H1.
  - induction sons as [|s sons IH]; [constructor|]. destruct H2. constructor; auto.
  - induction H2; auto.
Qed.

(** [n] is a subtree of [m]. *)
Inductive subtree (n : ProposalNode) : ProposalNode -> Prop :=
| sub_refl : subtree n n
| sub_son q sons s : s ∈ sons -> subtree n s -> subtree n (PNode q sons).

Lemma subtree_certs n m : subtree n m -> forall q, q ∈ certs n -> q ∈ certs m.
Proof.
  induction 1 as [|q0 sons s Hs _ IH]; intros q Hq; [done|].
  rewrite certs_node. right. unfold forest_certs. apply list_elem_of_In, in_flat_map. exists s.
  split; [by apply list_elem_of_In|]. apply list_elem_of_In. auto.
Qed.

Lemma subtree_linked n m : subtree n m -> linked m -> linked n.
Proof.
  induction 1 as [|q0 sons s Hs _ IH]; intros Hm; [done|].
  apply linked_node in Hm as [_ Hl]. apply IH. rewrite Forall_forall in Hl. auto.
Qed.

Lemma subtree_trans a b c : subtree a b -> subtree b c -> subtree a c.
Proof. intros Hab Hbc. induction Hbc as [|q sons s Hs _ IH]; [done|]. by eapply sub_son. Qed.

(** ** Queries *)

Fixpoint dfs_list (sons : list ProposalNode) (target : bytes) : option ProposalNode :=
  match sons with
  | [] => None
  | n :: sons' => match dfsQuery n target with Some r => Some r | None => dfs_list sons' target end
  end.

Lemma dfsQuery_node q sons id :
  dfsQuery (PNode q sons) (Some id) =
  if bytes_equal (GetProposalId q) (Some id) then Some (PNode q sons) else dfs_list sons (Some id).
Proof.
  cbn [dfsQuery In Sons]. destruct (bytes_equal _ _); [done|].
  induction sons as [|n sons IH]; [done|]. cbn [dfs_list]. by rewrite <- IH.
Qed.

Lemma dfsQuery_none n : dfsQuery n None = None.
Proof. by destruct n. Qed.

Lemma dfsQuery_spec n : forall id m,
  dfsQuery n (Some id) = Some m -> subtree m n /\ bytes_equal (GetProposalId (In m)) (Some id) = true.
Proof.
  induction n as [q sons IH] using node_ind; intros id m. rewrite dfsQuery_node.
  destruct (bytes_equal (GetProposalId q) (Some id)) eqn:E; [intros [= <-]; split; [constructor|done]|].
  intros Hm. assert (exists s, s ∈ sons /\ dfsQuery s (Some id) = Some m) as (s & Hs & Hq).
  { clear IH E. induction sons as [|s sons IHs]; [done|]. cbn in Hm.
    destruct (dfsQuery s (Some id)) eqn:Es; [simplify_eq; exists s; split; [left|done]|].
    destruct (IHs Hm) as (s' & ? & ?). exists s'. split; [by right|done]. }
  rewrite Forall_forall in IH. destruct (IH s Hs id m Hq). split; [by eapply sub_son|done].
Qed.

Lemma dfsQuery_complete n : forall id q,
  q ∈ certs n -> bytes_equal (GetProposalId q) (Some id) = true -> is_Some (dfsQuery n (Some id)).
Proof.
  induction n as [q0 sons IH] using node_ind; intros id q. rewrite certs_node, dfsQuery_node, elem_of_cons.
  intros [->|Hin] Heq; [rewrite Heq; by eexists|].
  destruct (bytes_equal (GetProposalId q0) (Some id)); [by eexists|].
  induction sons as [|s sons IHs]; [by apply not_elem_of_nil in Hin|].
  apply Forall_cons in IH as [IHn IHl]. rewrite forest_certs_cons, elem_of_app in Hin. cbn [dfs_list].
  destruct (dfsQuery s (Some id)) eqn:Es; [by eexists|].
  destruct Hin as [Hin|Hin]; [|by apply IHs]. destruct (IHn id q Hin Heq) as [x Hx]. by rewrite Hx in Es.
Qed.

(** ** Hanging a node *)

Fixpoint app_list (sons : list ProposalNode) (target : bytes) (son : ProposalNode) : option (list ProposalNode) :=
  match sons with
  | [] => None
  | n :: sons' =>
      match dfsAppend n target son with
      | Some n' => Some (n' :: sons')
      | None => match app_list sons' target son with Some l => Some (n :: l) | None => None end
      end
  end.

Lemma dfsAppend_node q sons id son :
  dfsAppend (PNode q sons) (Some id) son =
  if bytes_equal (GetProposalId q) (Some id) then Some (PNode q (sons ++ [son]))
  else match app_list sons (Some id) son with Some l => Some (PNode q l) | None => None end.
Proof.
  cbn [dfsAppend In Sons]. destruct (bytes_equal _ _); [done|].
  match goal with |- match ?x with _ => _ end = match ?y with _ => _ end => assert (x = y) as ->; [|done] end.
  induction sons as [|n sons IH]; [done|]. cbn [app_list]. by rewrite <- IH.
Qed.

(** It succeeds exactly when the query does, keeps the head, and adds the
    certificates of the son. *)
Lemma dfsAppend_spec n : forall id son,
  match dfsQuery n (Some id), dfsAppend n (Some id) son with
  | Some _, Some n' => In n' = In n /\ certs n' ≡ₚ certs son ++ certs n
  | None, None => True
  | _, _ => False
  end.
Proof.
  induction n as [q sons IH] using node_ind; intros id son. rewrite dfsQuery_node, dfsAppend_node.
  destruct (bytes_equal (GetProposalId q) (Some id)).
  { split; [done|]. rewrite !certs_node, forest_certs_app, forest_certs_single. solve_Permutation. }
  assert (match dfs_list sons (Some id), app_list sons (Some id) son with
          | Some _, Some l => forest_certs l ≡ₚ certs son ++ forest_certs sons
          | None, None => True | _, _ => False end) as Hl.
  { induction IH as [|s sons Hs _ IHs]; [done|]. cbn [dfs_list app_list]. specialize (Hs id son).
    destruct (dfsQuery s (Some id)), (dfsAppend s (Some id) son) as [s'|]; try done.
    - rewrite !forest_certs_cons. destruct Hs as [_ ->]. solve_Permutation.
    - destruct (dfs_list sons (Some id)), (app_list sons (Some id) son) as [l|]; try done.
      rewrite !forest_certs_cons, IHs. solve_Permutation. }
  destruct (dfs_list sons (Some id)), (app_list sons (Some id) son) as [l|]; try done.
  split; [done|]. rewrite !certs_node, Hl. solve_Permutation.
Qed.

Lemma bytes_equal_trans a b c : bytes_equal a b = true -> bytes_equal c b = true -> bytes_equal a c = true.
Proof. unfold bytes_equal. rewrite !bool_decide_eq_true. congruence. Qed.

Lemma dfsAppend_linked n : forall id son n',
  linked n -> linked son -> bytes_equal (GetParentProposalId (In son)) (Some id) = true ->
  dfsAppend n (Some id) son = Some n' -> linked n' /\ In n' = In n.
Proof.
  induction n as [q sons IH] using node_ind; intros id son n' Hn Hson Hp. rewrite dfsAppend_node.
  apply linked_node in Hn as [Hps Hls].
  destruct (bytes_equal (GetProposalId q) (Some id)) eqn:E.
  { intros [= <-]. split; [|done]. apply linked_node. split; apply Forall_app; (split; [done|]); constructor; [|constructor|done|constructor].
    by eapply bytes_equal_trans. }
  destruct (app_list sons (Some id) son) as [l|] eqn:El; [|done]. intros [= <-]. split; [|done]. apply linked_node.
  clear E. revert l El. induction sons as [|s sons IHs]; intros l El; [done|].
  apply Forall_cons in IH as [IH1 IH2]. apply Forall_cons in Hps as [Hp1 Hp2]. apply Forall_cons in Hls as [Hl1 Hl2].
  cbn [app_list] in El. destruct (dfsAppend s (Some id) son) as [s'|] eqn:Es.
  - simplify_eq. destruct (IH1 id son s' Hl1 Hson Hp Es) as [Hs' Heq].
    split; constructor; try done. by rewrite Heq.
  - destruct (app_list sons (Some id) son) as [l'|]; [|done]. simplify_eq.
    destruct (IHs IH2 Hp2 Hl2 l' eq_refl). split; by constructor.
Qed.

Lemma adopt_spec l : forall node node' rest,
  adopt node l = (node', rest) ->
  In node' = In node /\ certs node' ++ forest_certs rest ≡ₚ certs node ++ forest_certs l /\
  (linked node -> Forall linked l -> linked node' /\ Forall linked rest).
Proof.
  induction l as [|n l IH]; intros node node' rest; cbn [adopt].
  { intros [= <- <-]. done. }
  destruct (bytes_equal _ _) eqn:E.
  - intros Ha. destruct (IH _ _ _ Ha) as (HIn & Hc & Hl). split; [done|]. split.
    + rewrite Hc. destruct node as [q sons]. cbn [In Sons]. rewrite !certs_node, forest_certs_app, forest_certs_single, forest_certs_cons.
      solve_Permutation.
    + intros Hn Hall. apply Forall_cons in Hall as [Hn1 Hall]. apply Hl; [|done].
      destruct node as [q sons]. cbn [In Sons] in *. apply linked_node in Hn as [Hp Hs].
      apply linked_node. split; apply Forall_app; (split; [done|]); by constructor.
  - destruct (adopt node l) as [node1 rest1] eqn:Ha. intros [= <- <-].
    destruct (IH _ _ _ Ha) as (HIn & Hc & Hl). split; [done|]. split.
    + rewrite !forest_certs_cons. transitivity (certs n ++ (certs node1 ++ forest_certs rest1)); [solve_Permutation|].
      rewrite Hc. solve_Permutation.
    + intros Hn Hall. apply Forall_cons in Hall as [Hn1 Hall]. destruct (Hl Hn Hall). split; [done|]. by constructor.
Qed.

(** The orphans after an insertion: what was there and the node, less what
    hung on a stale head. *)
Lemma insert_orphan_loop_spec rv node todo : forall kept,
  forest_certs (insert_orphan_loop rv node kept todo) ⊆+ certs node ++ forest_certs (kept ++ todo) /\
  (Forall (fun n => rv < GetProposalView (In n))%Z todo ->
   forest_certs (insert_orphan_loop rv node kept todo) ≡ₚ certs node ++ forest_certs (kept ++ todo)) /\
  (forall q, q ∈ certs node -> q ∈ forest_certs (insert_orphan_loop rv node kept todo)) /\
  (linked node -> Forall linked kept -> Forall linked todo -> Forall linked (insert_orphan_loop rv node kept todo)).
Proof.
  pose proof forest_certs_single as H1.
  induction todo as [|n todo IH]; intros kept; cbn [insert_orphan_loop].
  { rewrite app_nil_r, forest_certs_app, H1. split_and!.
    - solve_submseteq.
    - intros _. solve_Permutation.
    - intros q Hq. apply elem_of_app. by right.
    - intros. apply Forall_app. split; [done|]. by constructor. }
  destruct (Z.leb_spec (GetProposalView (In n)) rv) as [Hle|Hgt].
  { destruct (IH kept) as (Hs & _ & Hq & Hl). split_and!.
    - etrans; [exact Hs|]. rewrite !forest_certs_app, forest_certs_cons.
      do 2 apply submseteq_skips_l. apply submseteq_inserts_l. done.
    - intros Hf. apply Forall_cons in Hf as [Hf _]. lia.
    - done.
    - intros ? ? Hf. apply Forall_cons in Hf as [_ Hf]. auto. }
  destruct (bytes_equal _ _) eqn:E.
  { assert (forest_certs (kept ++ todo ++ [PNode (In node) (Sons node ++ [n])]) ≡ₚ certs node ++ forest_certs (kept ++ n :: todo)) as Hp.
    { destruct node as [q sons]. cbn [In Sons]. rewrite !forest_certs_app, H1, forest_certs_cons, !certs_node, forest_certs_app, H1. solve_Permutation. }
    split_and!; [by rewrite Hp|done| |].
    - intros q Hq. rewrite Hp. apply elem_of_app. by left.
    - intros Hn Hk Hf. apply Forall_cons in Hf as [Hf1 Hf2]. rewrite !Forall_app. split_and!; [done..|].
      constructor; [|constructor]. destruct node as [q sons]. cbn [In Sons] in *. apply linked_node in Hn as [Hp1 Hp2].
      apply linked_node. rewrite !Forall_app. split_and!; try done; by constructor. }
  destruct (dfsAppend n (GetParentProposalId (In node)) node) as [n'|] eqn:Ea.
  { destruct (GetParentProposalId (In node)) as [pid|] eqn:Epid; [|by destruct n].
    pose proof (dfsAppend_spec n pid node) as Hsp. rewrite Ea in Hsp.
    destruct (dfsQuery n (Some pid)); [|done]. destruct Hsp as [_ Hc].
    assert (forest_certs (kept ++ n' :: todo) ≡ₚ certs node ++ forest_certs (kept ++ n :: todo)) as Hp.
    { rewrite !forest_certs_app, !forest_certs_cons, Hc. solve_Permutation. }
    split_and!; [by rewrite Hp|done| |].
    - intros q Hq. rewrite Hp. apply elem_of_app. by left.
    - intros Hn Hk Hf. apply Forall_cons in Hf as [Hf1 Hf2]. rewrite Forall_app, Forall_cons. split_and!; [done| |done].
      eapply dfsAppend_linked; [exact Hf1|exact Hn| |exact Ea]. rewrite Epid. unfold bytes_equal. by bdec. }
  destruct (IH (kept ++ [n])) as (Hs & He & Hq & Hl). rewrite <- app_assoc in Hs, He. cbn in Hs, He. split_and!.
  - done.
  - intros Hf. apply Forall_cons in Hf as [_ Hf]. auto.
  - done.
  - intros ? ? Hf. apply Forall_cons in Hf as [? Hf]. apply Hl; [done| |done]. apply Forall_app. split; [done|]. by constructor.
Qed.

(** ** Invariants *)

(** Each pointer is the parent of the one below it. *)
Definition qc_chain (t : QCPendingTree) : Prop :=
  (forall g, genericQC t = Some g -> bytes_equal (GetProposalId g) (GetParentProposalId (highQC t)) = true) /\
  (forall l, lockedQC t = Some l -> exists g, genericQC t = Some g /\ bytes_equal (GetProposalId l) (GetParentProposalId g) = true) /\
  (forall c, commitQC t = Some c -> exists l, lockedQC t = Some l /\ bytes_equal (GetProposalId c) (GetParentProposalId l) = true).

Definition tree_ok (t : QCPendingTree) : Prop :=
  linked (root t) /\ Forall linked (orphanList t) /\ qc_chain t.

Lemma dfsQuery_id n target m :
  dfsQuery n target = Some m -> subtree m n /\ bytes_equal (GetProposalId (In m)) target = true.
Proof. destruct target as [id|]; [apply dfsQuery_spec|by rewrite dfsQuery_none]. Qed.

Lemma updateQCs_chain t n : qc_chain (updateQCs t n).
Proof.
  unfold updateQCs, parent_of.
  destruct (dfsQuery (root t) (GetParentProposalId (In n))) as [p|] eqn:Ep;
    [|split_and!; intros x Hx; discriminate Hx].
  apply dfsQuery_id in Ep as [_ Ep].
  destruct (dfsQuery (root t) (GetParentProposalId (In p))) as [pp|] eqn:Epp;
    [|split_and!; intros x Hx; try discriminate Hx; cbn in *; by simplify_eq].
  apply dfsQuery_id in Epp as [_ Epp].
  destruct (dfsQuery (root t) (GetParentProposalId (In pp))) as [ppp|] eqn:Eppp; [apply dfsQuery_id in Eppp as [_ Eppp]|];
    (split_and!; intros x Hx; cbn in *; try discriminate Hx; simplify_eq; eauto).
Qed.

Lemma updateQCs_frame t n :
  root (updateQCs t n) = root t /\ orphanList (updateQCs t n) = orphanList t /\
  orphanMap (updateQCs t n) = orphanMap t /\ highQC (updateQCs t n) = In n /\ genesis (updateQCs t n) = genesis t.
Proof. unfold updateQCs. repeat (destruct (parent_of t _)); done. Qed.

Lemma updateQCs_ok t n : tree_ok t -> tree_ok (updateQCs t n).
Proof.
  intros (Hr & Ho & _). destruct (updateQCs_frame t n) as (E1 & E2 & _).
  unfold tree_ok. rewrite E1, E2. split_and!; [done..|apply updateQCs_chain].
Qed.

(** What [insert] does, on each branch. *)
Lemma insert_spec t node t' :
  insert t node = Ret t' ->
  GetParentProposalId (In node) <> None /\
  highQC t' = highQC t /\ genericQC t' = genericQC t /\ lockedQC t' = lockedQC t /\ commitQC t' = commitQC t /\
  In (root t') = In (root t) /\
  (linked (root t) -> Forall linked (orphanList t) -> linked node -> linked (root t') /\ Forall linked (orphanList t')) /\
  (forall q, q ∈ certs (root t) -> q ∈ certs (root t')) /\
  (is_Some (parent_of t node) ->
     certs (root t') ++ forest_certs (orphanList t') ≡ₚ certs node ++ certs (root t) ++ forest_certs (orphanList t) /\
     (forall q, q ∈ certs node -> q ∈ certs (root t'))) /\
  (parent_of t node = None -> root t' = root t /\ t' = insertOrphan t node).
Proof.
  unfold insert, parent_of. destruct (GetParentProposalId (In node)) as [pid|] eqn:Epid; [|done].
  destruct (dfsQuery (root t) (Some pid)) as [p|] eqn:Eq.
  - destruct (adopt node (orphanList t)) as [node' rest] eqn:Ea.
    destruct (adopt_spec _ _ _ _ Ea) as (HIn & Hc & Hl).
    pose proof (dfsAppend_spec (root t) pid node') as Hsp. rewrite Eq in Hsp.
    destruct (dfsAppend (root t) (Some pid) node') as [r|] eqn:Er; [|done]. destruct Hsp as [HrIn Hrc].
    intros [= <-]. cbn. split_and!; try done.
    + intros Hr Ho Hn. destruct (Hl Hn Ho) as [Hn' Hrest]. split; [|done].
      eapply dfsAppend_linked; [exact Hr|exact Hn'| |exact Er]. rewrite HIn, Epid. unfold bytes_equal. by bdec.
    + intros q Hq. rewrite Hrc. apply elem_of_app. by right.
    + intros _. split.
      * rewrite Hrc. transitivity (certs (root t) ++ (certs node' ++ forest_certs rest)); [solve_Permutation|]. rewrite Hc. solve_Permutation.
      * intros q Hq. rewrite Hrc. apply elem_of_app. left.
        (* the node's own certificates stay with it *)
        clear -Ea Hq. revert node Ea Hq. induction (orphanList t) as [|n l IH] in rest |- *; intros node; cbn [adopt].
        { by intros [= <- <-]. }
        destruct (bytes_equal _ _).
        -- intros Ha Hq. eapply IH; [exact Ha|]. destruct node as [q0 sons]. cbn [In Sons]. rewrite certs_node, forest_certs_app in *.
           rewrite elem_of_cons in Hq |- *. destruct Hq; [by left|]. right. apply elem_of_app. by left.
        -- destruct (adopt node l) as [n1 r1] eqn:E1. intros [= <- <-] Hq. by eapply IH.
  - intros [= <-]. unfold insertOrphan. destruct (bool_decide _); [by split_and!; try done; intros []|].
    split_and!; try (by destruct (orphanList t)); try (by intros []).
    intros Hr Ho Hn. split; [by destruct (orphanList t)|].
    destruct (orphanList t) as [|n l] eqn:El; cbn [set_orphans orphanList]; [by constructor|].
    apply insert_orphan_loop_spec; [done|constructor|done].
Qed.

(** ** Every operation of the tree *)

(** One operation; the node given to [UpdateQcStatus] is a new certificate, or
    a node whose sons name it as their parent. *)
Inductive tree_step : QCPendingTree -> QCPendingTree -> Prop :=
| ts_status t node t' : linked node -> UpdateQcStatus t node = Ret t' -> tree_step t t'
| ts_high t id : tree_step t (UpdateHighQC t id)
| ts_enforce t id t' : EnforceUpdateHighQC t id = Ret t' -> tree_step t t'
| ts_commit t id : tree_step t (UpdateCommit t id).

Lemma UpdateCommit_cases t id :
  UpdateCommit t id = t \/
  exists node parent parentParent ppp pppp,
    dfsQuery (root t) id = Some node /\ parent_of t node = Some parent /\ parent_of t parent = Some parentParent /\
    parent_of t parentParent = Some ppp /\ parent_of t ppp = Some pppp /\
    UpdateCommit t id = set_root t ppp.
Proof.
  unfold UpdateCommit. destruct (dfsQuery (root t) id) as [node|]; [|by left].
  destruct (parent_of t node) as [p|] eqn:E1; [|by left]. destruct (parent_of t p) as [pp|] eqn:E2; [|by left].
  destruct (parent_of t pp) as [ppp|] eqn:E3; [|by left]. destruct (parent_of t ppp) as [pppp|] eqn:E4; [|by left].
  right. exists node, p, pp, ppp, pppp. done.
Qed.

Lemma UpdateQcStatus_cases t node t' :
  UpdateQcStatus t node = Ret t' ->
  t' = t /\ is_Some (dfsQuery (root t) (GetProposalId (In node))) \/
  exists t1, dfsQuery (root t) (GetProposalId (In node)) = None /\ insert t node = Ret t1 /\
    (t' = t1 \/ exists p, parent_of t1 node = Some p /\
       (GetProposalView (highQC t1) <= GetProposalView (In p))%Z /\ t' = updateQCs t1 p).
Proof.
  unfold UpdateQcStatus. destruct (dfsQuery (root t) _) as [x|]; [intros [= <-]; left; split; [done|by eexists]|].
  destruct (insert t node) as [t1|e|]; [|done..]. intros E. right. exists t1. split_and!; [done..|].
  destruct (parent_of t1 node) as [p|]; [|left; congruence].
  destruct (Z.ltb_spec (GetProposalView (In p)) (GetProposalView (highQC t1))); [left; congruence|].
  right. exists p. split_and!; [done|done|congruence].
Qed.

Lemma tree_step_ok t t' : tree_step t t' -> tree_ok t -> tree_ok t'.
Proof.
  intros Hs (Hr & Ho & Hc). destruct Hs as [t node t' Hn E|t id|t id t' E|t id].
  - apply UpdateQcStatus_cases in E as [[-> _]|(t1 & _ & Ei & Ht)]; [done|].
    destruct (insert_spec _ _ _ Ei) as (_ & Eh & Eg & El & Ec & _ & Hlk & _).
    assert (tree_ok t1) as Hok.
    { destruct (Hlk Hr Ho Hn) as [? ?]. split_and!; [done..|].
      unfold qc_chain. by rewrite Eh, Eg, El, Ec. }
    destruct Ht as [->|(p & _ & _ & ->)]; [done|by apply updateQCs_ok].
  - unfold UpdateHighQC. destruct (dfsQuery _ _); [|done]. destruct (_ <? _)%Z; [done|]. by apply updateQCs_ok.
  - unfold EnforceUpdateHighQC in E. destruct (dfsQuery _ _); [|done]. injection E as <-. by apply updateQCs_ok.
  - destruct (UpdateCommit_cases t id) as [->|(n & p & pp & ppp & pppp & _ & _ & _ & E3 & _ & ->)]; [done|].
    unfold parent_of in E3. apply dfsQuery_id in E3 as [Hsub _]. split_and!; [by eapply subtree_linked|done|done].
Qed.

(** C30: the shape of the certificate tree.  Under every sequence of
    insertions, high-certificate updates, rollbacks and commits, every node of
    the tree and of the orphan trees hangs under the node whose id it names as
    its parent, and the generic, locked and commit certificates stay the
    parent, grandparent and great-grandparent of the high certificate. *)
Theorem qctree_shape_invariant t t' : tree_ok t -> rtc tree_step t t' -> tree_ok t'.
Proof. intros Hok Hr. induction Hr as [|t1 t2 t3 Hs _ IH]; [done|]. by apply IH, (tree_step_ok t1). Qed.

(** Inserting a certificate whose parent is in the tree loses nothing and
    repeats nothing: afterwards the tree and the orphans hold exactly what they
    held plus the new certificate, the new one and everything the tree held
    can be found from the root, and the high certificate never goes to a lower
    view. *)
Theorem qctree_insert_conserves t q t' :
  dfsQuery (root t) (GetProposalId q) = None -> GetProposalId q <> None ->
  is_Some (parent_of t (PNode q [])) ->
  UpdateQcStatus t (PNode q []) = Ret t' ->
  certs (root t') ++ forest_certs (orphanList t') ≡ₚ q :: certs (root t) ++ forest_certs (orphanList t) /\
  is_Some (DFSQueryNode t' (GetProposalId q)) /\
  (forall id, is_Some (DFSQueryNode t id) -> is_Some (DFSQueryNode t' id)) /\
  (GetProposalView (highQC t) <= GetProposalView (highQC t'))%Z.
Proof.
  intros Hnew Hid Hpar E.
  apply UpdateQcStatus_cases in E as [[_ [x Hx]]|(t1 & _ & Ei & Ht)]; [cbn [In] in Hx; by rewrite Hnew in Hx|].
  destruct (insert_spec _ _ _ Ei) as (_ & Eh & _ & _ & _ & _ & _ & Hold & Hc & _). destruct (Hc Hpar) as [Hperm Hin].
  assert (root t' = root t1 /\ orphanList t' = orphanList t1 /\ (GetProposalView (highQC t1) <= GetProposalView (highQC t'))%Z)
    as (E1 & E2 & Hv).
  { destruct Ht as [->|(p & _ & Hge & ->)]; [done|]. destruct (updateQCs_frame t1 p) as (-> & -> & _ & -> & _). done. }
  unfold DFSQueryNode. rewrite E1, E2. split_and!; [done| | |by rewrite <- Eh].
  - destruct (GetProposalId q) as [id|] eqn:Eq; [|done]. eapply (dfsQuery_complete _ _ q); [apply Hin; left|].
    rewrite Eq. unfold bytes_equal. by bdec.
  - intros [id|] [m Hm]; [|by rewrite dfsQuery_none in Hm].
    apply dfsQuery_spec in Hm as [Hsub Heq]. eapply dfsQuery_complete; [|exact Heq].
    apply Hold. eapply subtree_certs; [exact Hsub|]. destruct m. by left.
Qed.

(** What a commit does: the root only moves down its own tree, to a block
    that has a chain of three descendants down to the block committed on, and
    everything kept was in the tree before; blocks of other branches never
    become final. *)
Theorem qctree_commit_descends t id :
  UpdateCommit t id = t \/
  (exists n1 n2 n3,
     bytes_equal (GetProposalId (In n1)) id = true /\
     bytes_equal (GetProposalId (In n2)) (GetParentProposalId (In n1)) = true /\
     bytes_equal (GetProposalId (In n3)) (GetParentProposalId (In n2)) = true /\
     bytes_equal (GetProposalId (In (root (UpdateCommit t id)))) (GetParentProposalId (In n3)) = true /\
     subtree n1 (root t) /\ subtree n2 (root t) /\ subtree n3 (root t)) /\
  subtree (root (UpdateCommit t id)) (root t) /\
  (forall q, q ∈ certs (root (UpdateCommit t id)) -> q ∈ certs (root t)) /\
  highQC (UpdateCommit t id) = highQC t /\ orphanList (UpdateCommit t id) = orphanList t.
Proof.
  destruct (UpdateCommit_cases t id) as [->|(n1 & n2 & n3 & r & r' & E1 & E2 & E3 & E4 & _ & ->)]; [by left|].
  right. unfold parent_of in *. apply dfsQuery_id in E1 as [S1 Q1]. apply dfsQuery_id in E2 as [S2 Q2].
  apply dfsQuery_id in E3 as [S3 Q3]. apply dfsQuery_id in E4 as [S4 Q4]. cbn [root set_root highQC orphanList].
  split_and!; [by exists n1, n2, n3|done|by apply subtree_certs|done|done].
Qed.

(** The high certificate only goes down by a forced rollback: every other
    operation leaves its view or raises it. *)
Theorem qctree_high_view_monotone t t' :
  (forall id, t' = UpdateHighQC t id -> (GetProposalView (highQC t) <= GetProposalView (highQC t'))%Z) /\
  (forall id, t' = UpdateCommit t id -> highQC t' = highQC t) /\
  (forall node, UpdateQcStatus t node = Ret t' -> (GetProposalView (highQC t) <= GetProposalView (highQC t'))%Z).
Proof.
  split_and!.
  - intros id ->. unfold UpdateHighQC. destruct (dfsQuery _ _) as [n|]; [|done].
    destruct (Z.ltb_spec (GetProposalView (In n)) (GetProposalView (highQC t))); [done|].
    destruct (updateQCs_frame t n) as (_ & _ & _ & -> & _). done.
  - intros id ->. by destruct (UpdateCommit_cases t id) as [->|(n & p & pp & ppp & pppp & _ & _ & _ & _ & _ & ->)].
  - intros node E. apply UpdateQcStatus_cases in E as [[-> _]|(t1 & _ & Ei & Ht)]; [done|].
    destruct (insert_spec _ _ _ Ei) as (_ & Eh & _). destruct Ht as [->|(p & _ & Hge & ->)]; [by rewrite Eh|].
    destruct (updateQCs_frame t1 p) as (_ & _ & _ & -> & _). by rewrite <- Eh.
Qed.

(** ** Examples *)

Module QCExample.
Definition qc (id parent : string) (view : Z) : QuorumCert :=
  mkQC (mkVoteInfo (Some id) view (Some parent) (view - 1)) None None.
Definition g : QuorumCert := mkQC (mkVoteInfo (Some "g") 0 None 0) None None.
Definition t0 : QCPendingTree := mkTree g (PNode g []) g None None None [] ∅.

Definition add (q : QuorumCert) (t : QCPendingTree) : QCPendingTree :=
  match UpdateQcStatus t (PNode q []) with Ret t' => t' | _ => t end.

(** A chain of three certificates. *)
Definition t3 : QCPendingTree := add (qc "c" "b" 3) (add (qc "b" "a" 2) (add (qc "a" "g" 1) t0)).

Lemma t0_ok : tree_ok t0.
Proof. split_and!; [by cbn|constructor|split_and!; intros x Hx; discriminate Hx]. Qed.
End QCExample.

Lemma qctree_shape_invariant_witness : tree_ok QCExample.t3.
Proof.
  apply (qctree_shape_invariant QCExample.t0 QCExample.t3); [exact QCExample.t0_ok|].
  apply rtc_l with (QCExample.add (QCExample.qc "a" "g" 1) QCExample.t0); [apply ts_status with (PNode (QCExample.qc "a" "g" 1) []); [by cbn|reflexivity]|].
  apply rtc_l with (QCExample.add (QCExample.qc "b" "a" 2) (QCExample.add (QCExample.qc "a" "g" 1) QCExample.t0));
    [apply ts_status with (PNode (QCExample.qc "b" "a" 2) []); [by cbn|reflexivity]|].
  apply rtc_once. apply ts_status with (PNode (QCExample.qc "c" "b" 3) []); [by cbn|reflexivity].
Defined.

Lemma qctree_insert_conserves_witness :
  exists t', UpdateQcStatus QCExample.t3 (PNode (QCExample.qc "d" "c" 4) []) = Ret t' /\
    length (certs (root t') ++ forest_certs (orphanList t')) = 5%nat /\
    (GetProposalView (highQC QCExample.t3) <= GetProposalView (highQC t'))%Z.
Proof.
  exists (QCExample.add (QCExample.qc "d" "c" 4) QCExample.t3).
  destruct (qctree_insert_conserves QCExample.t3 (QCExample.qc "d" "c" 4) (QCExample.add (QCExample.qc "d" "c" 4) QCExample.t3))
    as (Hp & _ & _ & Hv).
  - reflexivity.
  - discriminate.
  - eexists. reflexivity.
  - reflexivity.
  - split; [reflexivity|]. split; [rewrite Hp; reflexivity|exact Hv].
Defined.

(** Orphans can be left behind: when two blocks whose parent is missing
    arrive first, the parent takes only one of them when it arrives, as an
    orphan itself; once the grandparent brings the parent into the tree, the
    second block is still in the orphan list although its parent is in the
    tree, and the tree does not find it. *)
Theorem orphan_sibling_left_behind :
  let t := foldl (fun t q => QCExample.add q t) QCExample.t0
             [QCExample.qc "x" "p" 3; QCExample.qc "y" "p" 3; QCExample.qc "p" "a" 2; QCExample.qc "a" "g" 1] in
  is_Some (DFSQueryNode t (Some "p")) /\ is_Some (DFSQueryNode t (Some "x")) /\
  DFSQueryNode t (Some "y") = None /\
  (fun n => GetProposalId (In n)) <$> orphanList t = [Some "y"].
Proof. vm_compute. split_and!; try (by eexists); reflexivity. Qed.
