(* ===== verification/Smr.v ===== *)
(** * The chained-BFT state machine

    [kernel/consensus/base/driver/chained-bft]: the safety rules
    ([saftyrules.go]), the pacemaker ([pacemaker.go]) and the state machine
    replica that combines them with the certificate tree ([smr.go]).

    Signatures ([CBFTCrypto] over a third-party library) and the election of
    validators are parameters.  The state keeps what the replica keeps, and the
    messages it sent, in order.  A message received is the decoded one; a JSON
    part that does not decode is [None], and a certificate decoded from a
    document without a vote has a nil vote. *)

From Stdlib Require Import ZArith Lia Ascii.
From stdpp Require Import base gmap strings list numbers sorting.
From S2P Require Import Prelude GoValues QCTree.

Set Default Proof Using "Type".

Definition StrictInternal : Z := 3.
Definition PermissiveInternal : Z := 6.

Definition EmptyVoteSignErr : string := "No signature in vote.".
Definition InvalidVoteAddr : string := "Vote address is not a validator in the target validators.".
Definition InvalidVoteSign : string := "Vote sign is invalid compared with its publicKey".
Definition TooLowVoteView : string := "Vote received is lower than local lastVoteRound.".
Definition TooLowVParentView : string := "Vote's parent received is lower than local preferredRound.".
Definition TooLowProposalView : string := "Proposal received is lower than local lastVoteRound.".
Definition EmptyParentQC : string := "Parent qc is empty.".
Definition NoEnoughVotes : string := "Parent qc doesn't have enough votes.".
Definition EmptyParentNode : string := "Parent's node is empty.".
Definition EmptyValidators : string := "Justify validators are empty.".

Definition ErrTooLowNewProposal : string := "proposal is lower than local pacemaker's currentView".
Definition ErrEmptyHighQC : string := "no valid highQC in qcTree".
Definition ErrSameProposalNotify : string := "same proposal has been made".
Definition ErrJustifyVotesEmpty : string := "justify qc's votes are empty".
Definition ErrEmptyTarget : string := "target parameter is empty".

(** ** Messages *)

Record JustifyQC := mkJustify {
  jq_vote : option VoteInfo;
  jq_ledger : option LedgerCommitInfo;
  jq_signs : option (list QuorumCertSign)
}.

Definition justify_of (q : QuorumCert) : JustifyQC := mkJustify (Some (qc_vote q)) (qc_ledger q) (qc_signs q).

Record ProposalMsg := mkProposalMsg {
  pm_view : Z;
  pm_id : bytes;
  pm_timestamp : Z;
  pm_justify : option JustifyQC;
  pm_sign : option QuorumCertSign
}.

Record VoteMsg := mkVoteMsg {
  vm_vote : option VoteInfo;
  vm_ledger : option LedgerCommitInfo;
  vm_signs : list QuorumCertSign
}.

Inductive sent_msg :=
| SentProposal (to : list string) (m : ProposalMsg)
| SentVote (to : string) (m : VoteMsg).

(** ** The state *)

Record SmrState := mkSmr {
  currentView : Z;
  lastVoteRound : Z;
  preferredRound : Z;
  qcTree : QCPendingTree;
  ledgerState : Z;
  localProposal : gmap string Z;
  qcVoteMsgs : gmap string (list QuorumCertSign);
  sent : list sent_msg
}.

Definition set_view s v := mkSmr v (lastVoteRound s) (preferredRound s) (qcTree s) (ledgerState s) (localProposal s) (qcVoteMsgs s) (sent s).
Definition set_lastVote s v := mkSmr (currentView s) v (preferredRound s) (qcTree s) (ledgerState s) (localProposal s) (qcVoteMsgs s) (sent s).
Definition set_preferred s v := mkSmr (currentView s) (lastVoteRound s) v (qcTree s) (ledgerState s) (localProposal s) (qcVoteMsgs s) (sent s).
Definition set_tree s v := mkSmr (currentView s) (lastVoteRound s) (preferredRound s) v (ledgerState s) (localProposal s) (qcVoteMsgs s) (sent s).
Definition set_ledgerState s v := mkSmr (currentView s) (lastVoteRound s) (preferredRound s) (qcTree s) v (localProposal s) (qcVoteMsgs s) (sent s).
Definition set_local s v := mkSmr (currentView s) (lastVoteRound s) (preferredRound s) (qcTree s) (ledgerState s) v (qcVoteMsgs s) (sent s).
Definition set_votes s v := mkSmr (currentView s) (lastVoteRound s) (preferredRound s) (qcTree s) (ledgerState s) (localProposal s) v (sent s).
Definition send s m := mkSmr (currentView s) (lastVoteRound s) (preferredRound s) (qcTree s) (ledgerState s) (localProposal s) (qcVoteMsgs s) (sent s ++ [m]).

(** ** Pacemaker and safety rules *)

Definition AdvanceView (s : SmrState) (qc : QuorumCert) : SmrState :=
  let r := GetProposalView qc in
  if (currentView s <? add64 r 1)%Z then set_view s (add64 r 1) else s.

Definition UpdatePreferredRound (s : SmrState) (round : Z) : SmrState :=
  if (preferredRound s <? sub64 round 1)%Z then set_preferred s (sub64 round 1) else s.

Definition increaseLastVoteRound (s : SmrState) (round : Z) : SmrState :=
  if (lastVoteRound s <? round)%Z then set_lastVote s round else s.

(** The vote is refused ([None]), or recorded. *)
Definition VoteProposal (s : SmrState) (proposalRound : Z) (parentQc : QuorumCert) : option SmrState :=
  if (proposalRound <? sub64 (lastVoteRound s) StrictInternal)%Z then None
  else if (GetProposalView parentQc <? sub64 (preferredRound s) StrictInternal)%Z then None
  else Some (increaseLastVoteRound s proposalRound).

Definition CalVotesThreshold (input sum : Z) : bool :=
  let f := quot64 (sub64 sum 1) 3 in
  if (f <? 0)%Z then false
  else if (f =? 0)%Z then (sum <=? add64 input 1)%Z
  else (sub64 sum f <=? add64 input 1)%Z.

Definition CheckPacemaker (pending local : Z) : bool := negb (pending <=? sub64 local StrictInternal)%Z.

Definition isInSlice (target : string) (s : list string) : bool := existsb (fun v => bool_decide (target = v)) s.

Section SafetyRules.
(** [VerifyVoteMsgSign]: the answer, and the error when there is one. *)
Variable VerifyVoteMsgSign : QuorumCertSign -> bytes -> bool * option string.

(** The caller gets [err] when the signature does not verify; when the
    library answers false without an error, that is nil. *)
Definition CheckVote (s : SmrState) (qc : QuorumCert) (validators : list string) : outcome unit :=
  match GetSignsInfo qc with
  | [] => Err EmptyVoteSignErr
  | sign :: _ =>
      if negb (isInSlice (SAddress sign) validators) then Err InvalidVoteAddr
      else
        let (ok, err) := VerifyVoteMsgSign sign (GetProposalId qc) in
        if negb ok then match err with Some e => Err e | None => Ret tt end
        else if (GetProposalView qc <? sub64 (lastVoteRound s) StrictInternal)%Z then Err TooLowVoteView
        else if (GetParentView qc <? sub64 (preferredRound s) StrictInternal)%Z then Err TooLowVParentView
        else Ret tt
  end.

(** The count of valid signatures of validators, [None] at the first
    signature of a validator that does not verify. *)
Fixpoint count_valid (id : bytes) (validators : list string) (signs : list QuorumCertSign) : option Z :=
  match signs with
  | [] => Some 0%Z
  | v :: signs' =>
      if negb (isInSlice (SAddress v) validators) then count_valid id validators signs'
      else if negb (fst (VerifyVoteMsgSign v id)) then None
      else match count_valid id validators signs' with Some n => Some (n + 1)%Z | None => None end
  end.

Definition CheckProposal (s : SmrState) (proposal parent : QuorumCert) (justifyValidators : option (list string)) : outcome unit :=
  if (GetProposalView proposal <? sub64 (lastVoteRound s) PermissiveInternal)%Z then Err TooLowProposalView
  else
    match justifyValidators with
    | None => Err EmptyValidators
    | Some validators =>
        match GetProposalId parent with
        | None => Err EmptyParentQC
        | Some _ =>
            let rootQC := In (root (qcTree s)) in
            if (match DFSQueryNode (qcTree s) (GetProposalId parent) with Some _ => false | None => true end) &&
               ((GetProposalView proposal <=? GetParentView rootQC) ||
                (add64 (GetProposalView rootQC) PermissiveInternal <? GetProposalView proposal))%Z
            then Err EmptyParentNode
            else
              match count_valid (GetProposalId parent) validators (GetSignsInfo parent) with
              | None => Err InvalidVoteSign
              | Some validCnt =>
                  if negb (CalVotesThreshold validCnt (Z.of_nat (length validators))) then Err NoEnoughVotes
                  else Ret tt
              end
        end
    end.
End SafetyRules.

(** ** The replica *)

Section Smr.
Variable address : string.
Variable VerifyVoteMsgSign : QuorumCertSign -> bytes -> bool * option string.
(** [SignVoteMsg] and the signature part of [SignProposalMsg]. *)
Variable SignVoteMsg : bytes -> outcome QuorumCertSign.
Variable SignProposalMsg : Z -> bytes -> Z -> JustifyQC -> outcome QuorumCertSign.
(** [election.GetValidators] (nil when it fails) and [election.GetLeader]. *)
Variable GetValidators : Z -> option (list string).
Variable GetLeader : Z -> string.

Definition getHighQC (s : SmrState) : QuorumCert := highQC (qcTree s).
Definition GetRootQC (s : SmrState) : QuorumCert := In (root (qcTree s)).

Definition LoadVotes (s : SmrState) (proposalId : bytes) (signs : option (list QuorumCertSign)) : SmrState :=
  match signs with
  | Some l => set_votes s (<[utils_F proposalId := l]> (qcVoteMsgs s))
  | None => s
  end.

(** Signatures of [p] whose address [q] does not have are added; the set is
    not extended with the addresses of [p]. *)
Definition appendSigns (q p : list QuorumCertSign) : list QuorumCertSign :=
  q ++ List.filter (fun sign => negb (bool_decide (SAddress sign ∈ SAddress <$> q))) p.

Definition updateJustifyQcStatus (s : SmrState) (justify : option QuorumCert) : SmrState :=
  match justify with
  | None => s
  | Some j =>
      match qc_signs j with
      | None => s
      | Some justifySigns =>
          let key := utils_F (GetProposalId j) in
          let signs := default [] (qcVoteMsgs s !! key) in
          let s1 := set_votes s (<[key := appendSigns signs justifySigns]> (qcVoteMsgs s)) in
          set_tree s1 (UpdateHighQC (qcTree s1) (GetProposalId j))
      end
  end.

Definition updateQcStatus (s : SmrState) (node : ProposalNode) : outcome unit * SmrState :=
  let s1 := if (ledgerState s <? GetProposalView (In node))%Z then set_ledgerState s (GetProposalView (In node)) else s in
  match UpdateQcStatus (qcTree s1) node with
  | Ret t => (Ret tt, set_tree s1 t)
  | Err e => (Err e, s1)
  | Panic => (Panic, s1)
  end.

Definition reloadJustifyQC (s : SmrState) (parentID : bytes) : outcome QuorumCert :=
  if bytes_equal (GetProposalId (genesis (qcTree s))) parentID then Ret (getHighQC s)
  else
    match DFSQueryNode (qcTree s) parentID with
    | None => Err ErrEmptyTarget
    | Some qc =>
        let v := mkVoteInfo (GetProposalId (In qc)) (GetProposalView (In qc)) None 0 in
        let commitId := match commitQC (qcTree s) with Some c => GetProposalId c | None => None end in
        match qcVoteMsgs s !! utils_F (ProposalId v) with
        | None => Err ErrJustifyVotesEmpty
        | Some signs => Ret (NewQuorumCert v (Some (mkLedgerCommitInfo commitId None)) (Some signs))
        end
    end.

Definition voteToSelf (viewNumber : Z) (proposalID : bytes) (parent : QuorumCert) (s : SmrState) : SmrState :=
  let selfQC := NewQuorumCert (mkVoteInfo proposalID viewNumber (GetProposalId parent) 0) (Some (mkLedgerCommitInfo None proposalID)) None in
  match SignVoteMsg proposalID with
  | Ret selfSign =>
      let key := utils_F proposalID in
      let s1 := match qcVoteMsgs s !! key with
                | Some _ => s
                | None => set_votes s (<[key := [selfSign]]> (qcVoteMsgs s))
                end in
      match UpdateQcStatus (qcTree s1) (PNode selfQC []) with
      | Ret t =>
          let s2 := AdvanceView (set_tree s1 t) selfQC in
          set_tree s2 (UpdateHighQC (qcTree s2) proposalID)
      | _ => s1
      end
  | _ => s
  end.

Definition removeLocalValidator (l : list string) : list string :=
  List.filter (fun addr => negb (bool_decide (addr = address))) l.

Definition ProcessProposal (now viewNumber : Z) (proposalID parentID : bytes) (validatesIpInfo : option (list string))
    : M SmrState unit := fun s =>
  match validatesIpInfo with
  | None => (Err ErrEmptyTarget, s)
  | Some validators =>
      let tooLow := negb (currentView s =? add64 (GetProposalView (genesis (qcTree s))) 1)%Z &&
        match lockedQC (qcTree s) with Some l => (currentView s <? GetProposalView l)%Z | None => false end in
      if tooLow then (Err ErrTooLowNewProposal, s)
      else if bool_decide (is_Some (localProposal s !! utils_F proposalID)) then (Err ErrSameProposalNotify, s)
      else
        match reloadJustifyQC s parentID with
        | Err e => (Err e, s)
        | Panic => (Panic, s)
        | Ret parentQuorumCert =>
            let j := justify_of parentQuorumCert in
            match SignProposalMsg viewNumber proposalID now j with
            | Err e => (Err e, s)
            | Panic => (Panic, s)
            | Ret sign =>
                let msg := mkProposalMsg viewNumber proposalID now (Some j) (Some sign) in
                let s1 := send s (SentProposal (removeLocalValidator validators) msg) in
                let s2 := set_local s1 (<[utils_F proposalID := now]> (localProposal s1)) in
                (Ret tt, if (length validators =? 1)%nat then voteToSelf viewNumber proposalID parentQuorumCert s2 else s2)
            end
        end
  end.

Definition voteProposal (msg : bytes) (vote : VoteInfo) (ledger : LedgerCommitInfo) (voteTo : string) (s : SmrState) : SmrState :=
  if bool_decide (voteTo = address) then s
  else
    match SignVoteMsg msg with
    | Ret nextSign => send s (SentVote voteTo (mkVoteMsg (Some vote) (Some ledger) [nextSign]))
    | _ => s
    end.

(** What follows the checks of a proposal: the safety rules, the new node
    and the vote. *)
Definition acceptProposal (m : ProposalMsg) (newVote : VoteInfo) (parentQC : QuorumCert) (s : SmrState) : outcome unit * SmrState :=
  let commits := match qc_ledger parentQC with Some l => match CommitStateId l with Some _ => true | None => false end | None => false end in
  let s1 := if commits
            then let s' := UpdatePreferredRound s (GetProposalView parentQC) in
                 set_tree s' (UpdateCommit (qcTree s') (GetProposalId parentQC))
            else s in
  if negb (CheckPacemaker (pm_view m) (currentView s1)) then (Ret tt, s1)
  else
    match VoteProposal s1 (pm_view m) parentQC with
    | None => (Ret tt, s1)
    | Some s2 =>
        let newLedgerInfo := mkLedgerCommitInfo None (pm_id m) in
        match UpdateQcStatus (qcTree s2) (PNode (NewQuorumCert newVote (Some newLedgerInfo) None) []) with
        | Panic => (Panic, s2)
        | Err _ => (Ret tt, s2)
        | Ret t =>
            let s3 := set_tree s2 t in
            let nextLeader := GetLeader (add64 (currentView s3) 1) in
            if is_empty_string nextLeader then (Ret tt, s3)
            else (Ret tt, voteProposal (pm_id m) newVote newLedgerInfo nextLeader s3)
        end
    end.

(** The proposal is passed on to its leader, unless that is this node. *)
Definition forwardProposal (m : ProposalMsg) (s : SmrState) : SmrState :=
  let leader := match pm_sign m with Some sg => SAddress sg | None => "" end in
  if negb (is_empty_string leader) && negb (bool_decide (leader = address))
  then send s (SentProposal [leader] m) else s.

Definition handleReceivedProposal (m : ProposalMsg) : M SmrState unit := fun s =>
  let key := utils_F (pm_id m) in
  let ok := bool_decide (is_Some (localProposal s !! key)) in
  let s0 := if ok then s else set_local s (<[key := pm_timestamp m]> (localProposal s)) in
  match (if ok then match pm_sign m with
                    | None => Panic
                    | Some sg => Ret (negb (bool_decide (SAddress sg = address)))
                    end
         else Ret false) with
  | Panic => (Panic, s0)
  | Err e => (Err e, s0)
  | Ret true => (Ret tt, s0)
  | Ret false =>
      match pm_justify m with
      | None => (Ret tt, s0)
      | Some j =>
          match jq_vote j with
          | None => (Panic, s0)
          | Some pv =>
              let parentQC := mkQC pv (jq_ledger j) (jq_signs j) in
              let newVote := mkVoteInfo (pm_id m) (pm_view m) (GetProposalId parentQC) (GetProposalView parentQC) in
              let isFirstJustify := bytes_equal (GetProposalId (genesis (qcTree s0))) (GetProposalId parentQC) in
              let checked :=
                if isFirstJustify then Ret tt
                else CheckProposal VerifyVoteMsgSign s0 (NewQuorumCert newVote None (Some (option_list (pm_sign m)))) parentQC
                       (GetValidators (GetProposalView parentQC)) in
              match checked with
              | Panic => (Panic, s0)
              | Err _ => (Ret tt, s0)
              | Ret _ =>
                  if (add64 (ledgerState s0) StrictInternal <? pm_view m)%Z then (Ret tt, s0)
                  else acceptProposal m newVote parentQC (forwardProposal m (AdvanceView s0 parentQC))
              end
          end
      end
  end.

Definition voteMsgToQC (m : VoteMsg) : outcome QuorumCert :=
  match vm_vote m, vm_ledger m with
  | Some v, Some l => Ret (NewQuorumCert v (Some l) (Some (vm_signs m)))
  | _, _ => Err "json"
  end.

(** The votes kept for the proposal and how many are counted. *)
Definition store_vote (s : SmrState) (voteQC : QuorumCert) (sign : QuorumCertSign) : SmrState * Z :=
  let key := utils_F (GetProposalId voteQC) in
  match qcVoteMsgs s !! key with
  | None => (set_votes s (<[key := GetSignsInfo voteQC]> (qcVoteMsgs s)), 1%Z)
  | Some signs =>
      let stored := existsb (fun g => bool_decide (SAddress g = SAddress sign) || bool_decide (SAddress sign = address)) signs in
      let signs' := if stored then signs else signs ++ [sign] in
      ((if stored then s else set_votes s (<[key := signs']> (qcVoteMsgs s))), Z.of_nat (length signs'))
  end.

Definition handleReceivedVoteMsg (m : VoteMsg) : M SmrState unit := fun s =>
  match voteMsgToQC m with
  | Err e => (Err e, s)
  | Panic => (Panic, s)
  | Ret voteQC =>
      let validators := default [] (GetValidators (GetProposalView voteQC)) in
      match CheckVote VerifyVoteMsgSign s voteQC validators with
      | Err e => (Err e, s)
      | Panic => (Panic, s)
      | Ret _ =>
          match GetSignsInfo voteQC with
          | [] => (Panic, s)
          | sign :: _ =>
              if negb (bool_decide (is_Some (localProposal s !! utils_F (GetProposalId voteQC)))) then (Err ErrEmptyTarget, s)
              else if (match DFSQueryNode (qcTree s) (GetProposalId voteQC) with Some _ => false | None => true end)
              then (Err ErrEmptyTarget, s)
              else
                let (s1, VoteLen) := store_vote s voteQC sign in
                if negb (CalVotesThreshold VoteLen (Z.of_nat (length validators))) then (Ret tt, s1)
                else
                  let s2 := AdvanceView s1 voteQC in
                  (Ret tt, set_tree s2 (UpdateHighQC (qcTree s2) (GetProposalId voteQC)))
          end
      end
  end.

(** ** Following the ledger *)

Record Block := mkBlock { b_id : bytes; b_height : Z; b_pre : bytes }.

Definition blockToProposalNode (s : SmrState) (block : Block) : ProposalNode :=
  match DFSQueryNode (qcTree s) (b_id block) with
  | Some node => node
  | None => PNode (NewQuorumCert (mkVoteInfo (b_id block) (b_height block) (b_pre block) (sub64 (b_height block) 1)) None None) []
  end.

Definition KeepUpWithBlock (now : Z) (block : Block) (justify : option QuorumCert) (validators : option (list string))
    : M SmrState unit := fun s =>
  let s1 := updateJustifyQcStatus s justify in
  let (r, s2) := match validators with
                 | None => (Ret tt, s1)
                 | Some _ => ProcessProposal now (b_height block) (b_id block) (b_pre block) validators s1
                 end in
  match (match r with
         | Err e => if bool_decide (e = ErrSameProposalNotify) || bool_decide (e = ErrTooLowNewProposal) then Ret tt else Err e
         | o => o
         end) with
  | Err e => (Err e, s2)
  | Panic => (Panic, s2)
  | Ret _ =>
      match updateQcStatus s2 (blockToProposalNode s2 block) with
      | (Err e, s3) => (Err e, s3)
      | (Panic, s3) => (Panic, s3)
      | (Ret _, s3) =>
          let s4 := set_tree s3 (UpdateCommit (qcTree s3) (b_pre block)) in
          (Ret tt, match justify with Some j => AdvanceView s4 j | None => s4 end)
      end
  end.

Definition getCompleteHighQC (s : SmrState) : QuorumCert :=
  let raw := getHighQC s in
  let vote := mkVoteInfo (GetProposalId raw) (GetProposalView raw) (GetParentProposalId raw) (GetProposalView raw) in
  NewQuorumCert vote None (qcVoteMsgs s !! utils_F (GetProposalId raw)).

Definition validNewHighQC (s : SmrState) (inProposalId : bytes) (validators : list string) : bool :=
  match qcVoteMsgs s !! utils_F inProposalId with
  | None => false
  | Some signs =>
      if (length validators =? 1)%nat then (length signs =? length validators)%nat
      else CalVotesThreshold (Z.of_nat (length signs)) (Z.of_nat (length validators))
  end.

Definition enforceUpdateHighQC (s : SmrState) (inProposalId : bytes) : outcome SmrState :=
  if bytes_equal (GetProposalId (getHighQC s)) inProposalId then Ret s
  else outcome_bind (EnforceUpdateHighQC (qcTree s) inProposalId) (fun t => Ret (set_tree s t)).

(** The search of [ResetProposerStatus], from a block down to the root. *)
Fixpoint reset_search (fuel : nat) (queryBlockFunc : bytes -> option Block) (s : SmrState) (targetId : bytes) : outcome QuorumCert :=
  match fuel with
  | O => Panic
  | S fuel =>
      match queryBlockFunc targetId with
      | None => Err ErrEmptyTarget
      | Some block =>
          if (b_height block <=? GetProposalView (GetRootQC s))%Z then Ret (GetRootQC s)
          else
            match DFSQueryNode (qcTree s) (b_id block) with
            | None => reset_search fuel queryBlockFunc s (b_pre block)
            | Some node =>
                match GetValidators (b_height block) with
                | None => Err ErrEmptyTarget
                | Some wantProposers =>
                    if negb (validNewHighQC s (GetProposalId (In node)) wantProposers)
                    then reset_search fuel queryBlockFunc s (b_pre block)
                    else Ret (In node)
                end
            end
      end
  end.

Definition ResetProposerStatus (fuel : nat) (queryBlockFunc : bytes -> option Block) (tipBlock : Block) (validators : list string)
    : M SmrState (bool * QuorumCert) := fun s =>
  if bytes_equal (GetProposalId (getHighQC s)) (b_id tipBlock) && validNewHighQC s (b_id tipBlock) validators
  then (Ret (false, getCompleteHighQC s), s)
  else
    match reset_search fuel queryBlockFunc s (b_id tipBlock) with
    | Err e => (Err e, s)
    | Panic => (Panic, s)
    | Ret qc =>
        match enforceUpdateHighQC s (GetProposalId qc) with
        | Err e => (Err e, s)
        | Panic => (Panic, s)
        | Ret s' => (Ret (true, getCompleteHighQC s'), s')
        end
    end.
End Smr.

(** ** What no handler undoes *)

(** [s'] is a later state: the rounds have not gone back, what was sent was
    sent, the proposals seen are remembered, and the tree kept its shape. *)
Record later (s s' : SmrState) : Prop := {
  lt_view : (currentView s <= currentView s')%Z;
  lt_vote : (lastVoteRound s <= lastVoteRound s')%Z;
  lt_preferred : (preferredRound s <= preferredRound s')%Z;
  lt_ledger : (ledgerState s <= ledgerState s')%Z;
  lt_local : dom (localProposal s) ⊆ dom (localProposal s');
  lt_sent : sent s `prefix_of` sent s';
  lt_tree : tree_ok (qcTree s) -> tree_ok (qcTree s')
}.

#[export] Instance later_preorder : PreOrder later.
Proof.
  split; [by split|]. intros a b c [] []. split; try lia; [by etrans|by etrans|auto].
Qed.

Lemma later_refl s : later s s.
Proof. reflexivity. Qed.
#[export] Hint Resolve later_refl : xuper.

Lemma later_tree s t : tree_step (qcTree s) t -> later s (set_tree s t).
Proof. intros H. split; cbn; try done. by apply tree_step_ok. Qed.

Lemma later_high s id : later s (set_tree s (UpdateHighQC (qcTree s) id)).
Proof. apply later_tree. constructor. Qed.

Lemma later_commit s id : later s (set_tree s (UpdateCommit (qcTree s) id)).
Proof. apply later_tree. constructor. Qed.

Lemma later_status s q t : UpdateQcStatus (qcTree s) (PNode q []) = Ret t -> later s (set_tree s t).
Proof. intros H. apply later_tree. eapply ts_status; [|exact H]. by cbn. Qed.

Lemma later_votes s v : later s (set_votes s v).
Proof. by split. Qed.

Lemma later_send s m : later s (send s m).
Proof. split; cbn; try done. by apply prefix_app_r. Qed.

Lemma later_local s k v : later s (set_local s (<[k := v]> (localProposal s))).
Proof. split; cbn; try done. rewrite dom_insert. set_solver. Qed.

Lemma later_AdvanceView s qc : later s (AdvanceView s qc).
Proof. unfold AdvanceView. destruct (Z.ltb_spec (currentView s) (add64 (GetProposalView qc) 1)); [|done]. split; cbn; try done. lia. Qed.

Lemma later_UpdatePreferredRound s r : later s (UpdatePreferredRound s r).
Proof. unfold UpdatePreferredRound. destruct (Z.ltb_spec (preferredRound s) (sub64 r 1)); [|done]. split; cbn; try done. lia. Qed.

Lemma later_increaseLastVoteRound s r : later s (increaseLastVoteRound s r).
Proof. unfold increaseLastVoteRound. destruct (Z.ltb_spec (lastVoteRound s) r); [|done]. split; cbn; try done. lia. Qed.

#[export] Hint Resolve later_high later_commit later_status later_votes later_send later_local
  later_AdvanceView later_UpdatePreferredRound later_increaseLastVoteRound : xuper.

Section Later.
Variable address : string.
Variable Verify : QuorumCertSign -> bytes -> bool * option string.
Variable SignVoteMsg : bytes -> outcome QuorumCertSign.
Variable SignProposalMsg : Z -> bytes -> Z -> JustifyQC -> outcome QuorumCertSign.
Variable GetValidators : Z -> option (list string).
Variable GetLeader : Z -> string.

Lemma later_updateJustifyQcStatus s j : later s (updateJustifyQcStatus s j).
Proof. destruct j as [j|]; cbn; [|done]. destruct (qc_signs j); [|done]. etransitivity; [apply later_votes|apply (later_high (set_votes _ _))]. Qed.

Lemma later_LoadVotes s id l : later s (LoadVotes s id l).
Proof. destruct l; cbn; eauto with xuper. Qed.

Lemma later_updateQcStatus s node r s' :
  (tree_ok (qcTree s) -> linked node) -> updateQcStatus s node = (r, s') -> later s s'.
Proof.
  intros Hn. unfold updateQcStatus.
  destruct (Z.ltb_spec (ledgerState s) (GetProposalView (In node))).
  all: destruct (UpdateQcStatus _ node) as [t|e|] eqn:E; intros [= <- <-]; cbn in E.
  all: split; cbn; try done; try lia.
  all: intros Hok; eapply tree_step_ok; [|exact Hok]; eapply ts_status; [by apply Hn|exact E].
Qed.

Lemma later_voteToSelf v id parent s : later s (voteToSelf SignVoteMsg v id parent s).
Proof.
  unfold voteToSelf. destruct (SignVoteMsg id) as [sg|e|]; [|done..].
  set (s1 := match qcVoteMsgs s !! _ with Some _ => s | None => _ end).
  assert (later s s1) as H1 by (unfold s1; destruct (qcVoteMsgs s !! _); eauto with xuper).
  destruct (UpdateQcStatus (qcTree s1) _) as [t|e|] eqn:E; [|done..].
  etransitivity; [exact H1|]. etransitivity; [by eapply later_status|].
  etransitivity; [apply later_AdvanceView|apply later_high].
Qed.

Lemma later_ProcessProposal now v id pid vals s r s' :
  ProcessProposal address SignVoteMsg SignProposalMsg now v id pid vals s = (r, s') -> later s s'.
Proof.
  unfold ProcessProposal. intros H. repeat dmatch_in H; injection H as <- <-; try done.
  all: try (etransitivity; [|apply later_voteToSelf]).
  all: etransitivity; [apply later_send|apply (later_local (send _ _))].
Qed.

Lemma later_voteProposal msg v l to s : later s (voteProposal address SignVoteMsg msg v l to s).
Proof. unfold voteProposal. repeat dmatch; eauto with xuper. Qed.

Lemma later_forwardProposal m s : later s (forwardProposal address m s).
Proof. unfold forwardProposal. repeat dmatch; eauto with xuper. Qed.

Lemma later_VoteProposal s v q s' : VoteProposal s v q = Some s' -> later s s'.
Proof. unfold VoteProposal. intros H. repeat dmatch_in H; simplify_eq. eauto with xuper. Qed.

Lemma later_acceptProposal m v q s r s' :
  acceptProposal address SignVoteMsg GetLeader m v q s = (r, s') -> later s s'.
Proof.
  unfold acceptProposal. intros H. cbv zeta in H.
  match type of H with context [CheckPacemaker _ (currentView ?x)] => set (s1 := x) in H end.
  assert (later s s1) as H1.
  { unfold s1. destruct (match qc_ledger q with Some _ => _ | None => _ end); [|done].
    etransitivity; [apply later_UpdatePreferredRound|apply later_commit]. }
  clearbody s1. etransitivity; [exact H1|]. clear H1.
  destruct (CheckPacemaker _ _); cbn in H; [|by injection H as <- <-].
  destruct (VoteProposal s1 _ q) as [s2|] eqn:E2; [|by injection H as <- <-]. apply later_VoteProposal in E2.
  etransitivity; [exact E2|]. destruct (UpdateQcStatus (qcTree s2) _) as [t|e|] eqn:E3; [|by injection H as <- <-..].
  etransitivity; [by eapply later_status|].
  destruct (is_empty_string _); injection H as <- <-; [done|apply later_voteProposal].
Qed.

Lemma later_handleReceivedProposal m s r s' :
  handleReceivedProposal address Verify SignVoteMsg GetValidators GetLeader m s = (r, s') -> later s s'.
Proof.
  unfold handleReceivedProposal. intros H. cbv zeta in H.
  match type of H with context [ledgerState ?x] => set (s0 := x) in H end.
  assert (later s s0) as H0 by (unfold s0; repeat dmatch; eauto with xuper).
  clearbody s0. etransitivity; [exact H0|]. clear H0.
  destruct (if bool_decide _ then _ else _) as [[|]|e|]; [by injection H as <- <-| |by injection H as <- <-..].
  destruct (pm_justify m) as [j|]; [|by injection H as <- <-]. destruct (jq_vote j) as [pv|]; [|by injection H as <- <-].
  destruct (if bytes_equal _ _ then _ else _) as [u|e|]; [|by injection H as <- <-..].
  destruct (_ <? _)%Z; [by injection H as <- <-|]. apply later_acceptProposal in H.
  etransitivity; [|exact H]. etransitivity; [apply later_AdvanceView|apply later_forwardProposal].
Qed.

Lemma later_store_vote s q sg s' n : store_vote address s q sg = (s', n) -> later s s'.
Proof. unfold store_vote. intros H. repeat dmatch_in H; simplify_eq; eauto with xuper. Qed.

Lemma later_handleReceivedVoteMsg m s r s' :
  handleReceivedVoteMsg address Verify GetValidators m s = (r, s') -> later s s'.
Proof.
  unfold handleReceivedVoteMsg. intros H.
  destruct (voteMsgToQC m) as [q|e|]; [|by injection H as <- <-..].
  destruct (CheckVote _ _ _ _) as [u|e|]; [|by injection H as <- <-..].
  destruct (GetSignsInfo q) as [|sg l]; [by injection H as <- <-|].
  destruct (negb _); [by injection H as <- <-|]. destruct (DFSQueryNode _ _); [|by injection H as <- <-].
  destruct (store_vote address s q sg) as [s1 n] eqn:E1. apply later_store_vote in E1. etransitivity; [exact E1|].
  destruct (negb _); injection H as <- <-; [done|]. etransitivity; [apply later_AdvanceView|apply later_high].
Qed.

Lemma blockToProposalNode_linked s b : tree_ok (qcTree s) -> linked (blockToProposalNode s b).
Proof.
  intros (Hr & _). unfold blockToProposalNode. destruct (DFSQueryNode _ _) as [n|] eqn:E; [|by cbn].
  apply dfsQuery_id in E as [Hs _]. by eapply subtree_linked.
Qed.

Lemma later_KeepUpWithBlock now b j vals s r s' :
  KeepUpWithBlock address SignVoteMsg SignProposalMsg now b j vals s = (r, s') -> later s s'.
Proof.
  unfold KeepUpWithBlock. intros H. etransitivity; [apply (later_updateJustifyQcStatus s j)|].
  set (s1 := updateJustifyQcStatus s j) in *. clearbody s1.
  destruct (match vals with Some _ => _ | None => _ end) as [r1 s2] eqn:E.
  assert (later s1 s2) as H2.
  { destruct vals; [by eapply later_ProcessProposal|by injection E as <- <-]. }
  etransitivity; [exact H2|]. clear E H2.
  destruct (match r1 with Err _ => _ | _ => _ end) as [u|e|]; [|by injection H as <- <-..].
  destruct (updateQcStatus s2 _) as [r3 s3] eqn:E3. apply later_updateQcStatus in E3; [|apply blockToProposalNode_linked].
  etransitivity; [exact E3|]. destruct r3; [|by injection H as <- <-..]. injection H as <- <-.
  etransitivity; [apply later_commit|]. destruct j; eauto with xuper.
Qed.

Lemma later_ResetProposerStatus fuel query tip vals s r s' :
  ResetProposerStatus GetValidators fuel query tip vals s = (r, s') -> later s s'.
Proof.
  unfold ResetProposerStatus, enforceUpdateHighQC. intros H.
  destruct (bytes_equal _ _ && validNewHighQC _ _ _); [by injection H as <- <-|].
  destruct (reset_search _ _ _ _ _) as [q|e|]; [|by injection H as <- <-..].
  destruct (bytes_equal _ _); [by injection H as <- <-|].
  destruct (EnforceUpdateHighQC _ _) as [t|e|] eqn:E; cbn in H; injection H as <- <-; [|done..].
  apply later_tree. by econstructor.
Qed.
End Later.


Section Replica.
Variable address : string.
Variable Verify : QuorumCertSign -> bytes -> bool * option string.
Variable SignVoteMsg : bytes -> outcome QuorumCertSign.
Variable SignProposalMsg : Z -> bytes -> Z -> JustifyQC -> outcome QuorumCertSign.
Variable GetValidators : Z -> option (list string).
Variable GetLeader : Z -> string.

(** Every entry point of the replica. *)
Inductive smr_step : SmrState -> SmrState -> Prop :=
| step_propose now v id pid vals s r s' :
    ProcessProposal address SignVoteMsg SignProposalMsg now v id pid vals s = (r, s') -> smr_step s s'
| step_proposal m s r s' :
    handleReceivedProposal address Verify SignVoteMsg GetValidators GetLeader m s = (r, s') -> smr_step s s'
| step_vote m s r s' :
    handleReceivedVoteMsg address Verify GetValidators m s = (r, s') -> smr_step s s'
| step_keepup now b j vals s r s' :
    KeepUpWithBlock address SignVoteMsg SignProposalMsg now b j vals s = (r, s') -> smr_step s s'
| step_reset fuel query tip vals s r s' :
    ResetProposerStatus GetValidators fuel query tip vals s = (r, s') -> smr_step s s'
| step_load id l s : smr_step s (LoadVotes s id l).

Lemma smr_step_later s s' : smr_step s s' -> later s s'.
Proof.
  destruct 1; eauto using later_ProcessProposal, later_handleReceivedProposal, later_handleReceivedVoteMsg,
    later_KeepUpWithBlock, later_ResetProposerStatus, later_LoadVotes.
Qed.

(** Nothing a replica does goes back.  Under every sequence of proposals
    made and received, votes received, blocks followed and rollbacks, on
    success, refusal and failure alike, the current view, the last voted
    round, the preferred round and the ledger view never decrease, a proposal
    once seen is never forgotten, no message is unsent, and the certificate
    tree keeps its shape. *)
Theorem replica_never_goes_back s s' : rtc smr_step s s' -> later s s'.
Proof. induction 1 as [|a b c Hs _ IH]; [done|]. etransitivity; [by apply smr_step_later|done]. Qed.

(** ** Voting *)

Definition vote_for (m : ProposalMsg) (pv : VoteInfo) : VoteInfo :=
  mkVoteInfo (pm_id m) (pm_view m) (ProposalId pv) (ProposalView pv).

Lemma VoteProposal_spec s v q s' :
  VoteProposal s v q = Some s' ->
  (sub64 (lastVoteRound s) StrictInternal <= v)%Z /\ (sub64 (preferredRound s) StrictInternal <= GetProposalView q)%Z /\
  (v <= lastVoteRound s')%Z /\ sent s' = sent s /\ preferredRound s' = preferredRound s /\ currentView s' = currentView s.
Proof.
  unfold VoteProposal, increaseLastVoteRound. intros H.
  destruct (Z.ltb_spec v (sub64 (lastVoteRound s) StrictInternal)); [done|].
  destruct (Z.ltb_spec (GetProposalView q) (sub64 (preferredRound s) StrictInternal)); [done|].
  destruct (Z.ltb_spec (lastVoteRound s) v); injection H as <-; cbn; split_and!; try done; lia.
Qed.

(** The vote of [acceptProposal], when there is one. *)
Lemma acceptProposal_vote m nv q s r s' :
  acceptProposal address SignVoteMsg GetLeader m nv q s = (r, s') ->
  sent s' = sent s \/
  exists sg, SignVoteMsg (pm_id m) = Ret sg /\ GetLeader (add64 (currentView s') 1) <> address /\
    sent s' = sent s ++ [SentVote (GetLeader (add64 (currentView s') 1)) (mkVoteMsg (Some nv) (Some (mkLedgerCommitInfo None (pm_id m))) [sg])] /\
    (sub64 (currentView s') StrictInternal < pm_view m)%Z /\
    (sub64 (lastVoteRound s) StrictInternal <= pm_view m)%Z /\ (pm_view m <= lastVoteRound s')%Z /\
    (sub64 (preferredRound s') StrictInternal <= GetProposalView q)%Z.
Proof.
  unfold acceptProposal. intros H. cbv zeta in H.
  match type of H with context [CheckPacemaker _ (currentView ?x)] => set (s1 := x) in H end.
  assert (sent s1 = sent s /\ lastVoteRound s1 = lastVoteRound s) as [Es1 El1].
  { unfold s1, UpdatePreferredRound. repeat dmatch; done. }
  clearbody s1. rewrite <- Es1, <- El1. clear Es1 El1.
  destruct (CheckPacemaker (pm_view m) (currentView s1)) eqn:Ep; cbn in H; [|injection H as <- <-; by left].
  destruct (VoteProposal s1 _ q) as [s2|] eqn:E2; [|injection H as <- <-; by left].
  apply VoteProposal_spec in E2 as (H1 & H2 & H3 & E & Epr & Ev). rewrite <- E.
  destruct (UpdateQcStatus (qcTree s2) _) as [t|e|]; [|injection H as <- <-; by left..].
  destruct (is_empty_string _); [injection H as <- <-; by left|].
  injection H as <- <-. unfold voteProposal. case_bool_decide as Hne; [by left|].
  destruct (SignVoteMsg (pm_id m)) as [sg|e|] eqn:Es; [|by left..].
  right. exists sg. cbn in *. rewrite Epr, Ev in *. split_and!; try done.
  unfold CheckPacemaker in Ep. destruct (Z.leb_spec (pm_view m) (sub64 (currentView s1) StrictInternal)); [done|lia].
Qed.

(** C9: a replica votes only as the safety rules allow.  Handling a proposal
    sends at most one vote; the vote is for that proposal and its justify, by
    the replica's own key and to the next leader, which is another node; the
    proposal is new (or its own), is certified by [CheckProposal] or follows
    the genesis block, is not below the last voted round minus three nor
    three views behind or ahead of the replica, its justify is not three
    views below the preferred round, and the last voted round then covers
    it. *)
Theorem vote_sent_is_safe m s r s' to v :
  handleReceivedProposal address Verify SignVoteMsg GetValidators GetLeader m s = (r, s') ->
  SentVote to v ∈ drop (length (sent s)) (sent s') ->
  exists j pv sg, pm_justify m = Some j /\ jq_vote j = Some pv /\ SignVoteMsg (pm_id m) = Ret sg /\
    v = mkVoteMsg (Some (vote_for m pv)) (Some (mkLedgerCommitInfo None (pm_id m))) [sg] /\
    (exists fwd, drop (length (sent s)) (sent s') = fwd ++ [SentVote to v] /\ forall to' v', SentVote to' v' ∉ fwd) /\
    to = GetLeader (add64 (currentView s') 1) /\ to <> address /\
    (localProposal s !! utils_F (pm_id m) = None \/ SAddress <$> pm_sign m = Some address) /\
    (bytes_equal (GetProposalId (genesis (qcTree s))) (ProposalId pv) = true \/
     exists s0, qcTree s0 = qcTree s /\ lastVoteRound s0 = lastVoteRound s /\
       CheckProposal Verify s0 (NewQuorumCert (vote_for m pv) None (Some (option_list (pm_sign m))))
         (mkQC pv (jq_ledger j) (jq_signs j)) (GetValidators (ProposalView pv)) = Ret tt) /\
    (pm_view m <= add64 (ledgerState s) StrictInternal)%Z /\
    (sub64 (currentView s') StrictInternal < pm_view m)%Z /\
    (sub64 (lastVoteRound s) StrictInternal <= pm_view m <= lastVoteRound s')%Z /\
    (sub64 (preferredRound s') StrictInternal <= ProposalView pv)%Z.
Proof.
  unfold handleReceivedProposal. intros H Hin. cbv zeta in H.
  match type of H with context [ledgerState ?x] => set (s0 := x) in H end.
  assert (qcTree s0 = qcTree s /\ ledgerState s0 = ledgerState s /\ lastVoteRound s0 = lastVoteRound s /\ sent s0 = sent s)
    as (Et & Els & Elv & Es) by (unfold s0; repeat dmatch; done).
  rewrite Et in H. clearbody s0.
  assert (forall o : outcome unit, (o, s0) = (r, s') -> False) as Hno.
  { intros o [= <- <-]. rewrite Es, drop_all in Hin. by apply elem_of_nil in Hin. }
  destruct (if bool_decide _ then _ else _) as [[|]|e|] eqn:Eseen; [by destruct (Hno _ H)| |by destruct (Hno _ H)..].
  assert (localProposal s !! utils_F (pm_id m) = None \/ SAddress <$> pm_sign m = Some address) as Hseen.
  { revert Eseen. destruct (localProposal s !! utils_F (pm_id m)) eqn:El; [|by left].
    rewrite bool_decide_eq_true_2 by (by eexists). destruct (pm_sign m) as [sg|]; [|done]. cbn. case_bool_decide; [|done]. subst. by right. }
  destruct (pm_justify m) as [j|] eqn:Ej; [|by destruct (Hno _ H)]. destruct (jq_vote j) as [pv|] eqn:Epv; [|by destruct (Hno _ H)].
  destruct (if bytes_equal _ _ then _ else _) as [[]|e|] eqn:Echk; [|by destruct (Hno _ H)..].
  destruct (Z.ltb_spec (add64 (ledgerState s0) StrictInternal) (pm_view m)) as [|Hls]; [by destruct (Hno _ H)|].
  apply acceptProposal_vote in H. set (s1 := forwardProposal _ _ _) in H.
  assert (lastVoteRound s1 = lastVoteRound s /\ exists fwd, sent s1 = sent s ++ fwd /\ forall to' v', SentVote to' v' ∉ fwd)
    as (Elv1 & fwd & Efwd & Hfwd).
  { unfold s1, forwardProposal, AdvanceView. rewrite <- Elv, <- Es. repeat dmatch; (split; [done|]); cbn.
    all: first [exists []; split; [by rewrite app_nil_r|intros ? ? Hx; by apply elem_of_nil in Hx]
               |eexists; split; [done|intros ? ? Hx; by apply list_elem_of_singleton in Hx]]. }
  destruct H as [E|(sg & Hsg & Hne & E & Hp & Hl1 & Hl2 & Hpr)]; rewrite E, Efwd in Hin |- *.
  { rewrite drop_app_length in Hin. by apply Hfwd in Hin. }
  rewrite <- app_assoc, drop_app_length in Hin |- *. apply elem_of_app in Hin as [Hin|Hin]; [by apply Hfwd in Hin|].
  apply list_elem_of_singleton in Hin. injection Hin as -> ->. rewrite Els in Hls. rewrite Elv1 in Hl1.
  exists j, pv, sg. split_and!; try done.
  - by exists fwd.
  - destruct (bytes_equal _ _); [by left|]. right. exists s0. split_and!; done.
Qed.
End Replica.

(** ** Quorums *)

Lemma CalVotesThreshold_spec k n :
  (0 <= k < 2 ^ 62)%Z -> (1 <= n < 2 ^ 62)%Z ->
  CalVotesThreshold k n = true <-> (n - (n - 1) `div` 3 <= k + 1)%Z.
Proof.
  intros Hk Hn. unfold CalVotesThreshold, quot64, add64, sub64.
  rewrite (wrap64_id (n - 1)) by (unfold is_int64, int64_min, int64_max; lia).
  rewrite Z.quot_div_nonneg by lia.
  assert (0 <= (n - 1) `div` 3 < 2 ^ 62)%Z as Hf by (split; [apply Z.div_pos; lia|apply Z.div_lt_upper_bound; lia]).
  rewrite (wrap64_id ((n - 1) `div` 3)) by (unfold is_int64, int64_min, int64_max; lia).
  rewrite (wrap64_id (k + 1)) by (unfold is_int64, int64_min, int64_max; lia).
  rewrite (wrap64_id (n - _)) by (unfold is_int64, int64_min, int64_max; lia).
  destruct (Z.ltb_spec ((n - 1) `div` 3) 0); [lia|].
  destruct (Z.eqb_spec ((n - 1) `div` 3) 0) as [->|]; rewrite Z.leb_le; lia.
Qed.

(** Two quorums of a validator set have an honest validator in common. *)
Lemma quorums_intersect (V A B F : gset string) (f : nat) :
  A ⊆ V -> B ⊆ V -> f = ((size V - 1) `div` 3)%nat -> (size F <= f)%nat -> (1 <= size V)%nat ->
  (size V - f <= size A)%nat -> (size V - f <= size B)%nat ->
  exists v, v ∈ A /\ v ∈ B /\ v ∉ F.
Proof.
  intros HA HB Hf HF Hn HsA HsB.
  assert (size (A ∖ B ∪ B) <= size V)%nat as H1 by (apply subseteq_size; set_solver).
  rewrite size_union in H1 by set_solver.
  assert (size A = size (A ∩ B) + size (A ∖ B))%nat as H2.
  { rewrite <- size_union by set_solver. f_equal. apply set_eq. intros x. destruct (decide (x ∈ B)); set_solver. }
  assert (3 * f < size V)%nat as H3.
  { pose proof (Nat.Div0.mul_div_le (size V - 1) 3). lia. }
  destruct (set_choose_or_empty (A ∩ B ∖ F)) as [[v Hv]|He]; [exists v; set_solver|].
  assert (size (A ∩ B) <= size F)%nat; [|lia]. apply subseteq_size. intros x Hx.
  destruct (decide (x ∈ F)); [done|]. exfalso. apply (not_elem_of_empty (C := gset string) x). rewrite <- He. set_solver.
Qed.

Lemma isInSlice_true a l : isInSlice a l = true <-> a ∈ l.
Proof.
  unfold isInSlice. rewrite existsb_exists. split.
  - intros (x & Hx & E). apply bool_decide_eq_true in E as ->. by apply list_elem_of_In.
  - intros Hx. exists a. split; [by apply list_elem_of_In|by apply bool_decide_eq_true].
Qed.

Section Certificates.
Variable Verify : QuorumCertSign -> bytes -> bool * option string.

(** The signatures [count_valid] counts. *)
Definition counted (validators : list string) (signs : list QuorumCertSign) : list QuorumCertSign :=
  List.filter (fun sg => isInSlice (SAddress sg) validators) signs.

Lemma count_valid_spec id vals signs c :
  count_valid Verify id vals signs = Some c ->
  c = Z.of_nat (length (counted vals signs)) /\ Forall (fun sg => fst (Verify sg id) = true) (counted vals signs).
Proof.
  unfold counted. revert c. induction signs as [|sg signs IH]; intros c; cbn.
  { intros [= <-]. split; [done|constructor]. }
  destruct (isInSlice (SAddress sg) vals) eqn:E; cbn; [|apply IH].
  destruct (fst (Verify sg id)) eqn:Ev; cbn; [|done].
  destruct (count_valid Verify id vals signs) as [n|]; [|done]. intros [= <-].
  destruct (IH n eq_refl) as [-> Hf]. split; [cbn; lia|by constructor].
Qed.

Lemma count_valid_repeat id vals sg k :
  isInSlice (SAddress sg) vals = true -> fst (Verify sg id) = true ->
  count_valid Verify id vals (repeat sg k) = Some (Z.of_nat k).
Proof. intros Hin Hv. induction k as [|k IH]; [done|]. cbn [repeat count_valid]. rewrite Hin, Hv. cbn. rewrite IH. f_equal. lia. Qed.

Lemma CheckProposal_quorum s prop parent vals :
  CheckProposal Verify s prop parent (Some vals) = Ret tt ->
  Forall (fun sg => fst (Verify sg (GetProposalId parent)) = true) (counted vals (GetSignsInfo parent)) /\
  CalVotesThreshold (Z.of_nat (length (counted vals (GetSignsInfo parent)))) (Z.of_nat (length vals)) = true.
Proof.
  unfold CheckProposal. destruct (_ <? _)%Z; [done|]. destruct (GetProposalId parent) as [id|]; [|done].
  destruct (_ && _); [done|]. destruct (count_valid _ _ _ _) as [c|] eqn:E; [|done].
  apply count_valid_spec in E as [-> Hf]. destruct (CalVotesThreshold _ _) eqn:Et; [|done]. done.
Qed.

(** The validators whose valid signature a certificate carries. *)
Definition signed (parent : QuorumCert) (v : string) : Prop :=
  exists sg, sg ∈ GetSignsInfo parent /\ SAddress sg = v /\ fst (Verify sg (GetProposalId parent)) = true.

Lemma CheckProposal_signers s prop parent vals :
  (Z.of_nat (length vals) < 2 ^ 31)%Z -> NoDup vals -> vals <> [] -> NoDup (SAddress <$> GetSignsInfo parent) ->
  CheckProposal Verify s prop parent (Some vals) = Ret tt ->
  exists A : gset string, A ⊆ list_to_set vals /\ (length vals - (length vals - 1) `div` 3 <= size A + 1)%nat /\ forall v, v ∈ A -> signed parent v.
Proof.
  intros Hlen Hnd Hne Hns Hc. apply CheckProposal_quorum in Hc as [Hf Ht]. set (S := counted vals (GetSignsInfo parent)) in *.
  assert (forall sg, sg ∈ S -> sg ∈ GetSignsInfo parent /\ SAddress sg ∈ vals) as HS.
  { intros sg Hsg. unfold S, counted in Hsg. apply list_elem_of_In, filter_In in Hsg as [H1 H2]. split; [by apply list_elem_of_In|by apply isInSlice_true]. }
  assert (NoDup (SAddress <$> S)) as HndS.
  { unfold S, counted. clear -Hns. induction (GetSignsInfo parent) as [|g l IH]; [constructor|].
    cbn in Hns. apply NoDup_cons in Hns as [Hg Hl]. cbn. destruct (isInSlice _ _); [|auto].
    apply NoDup_cons. split; [|auto]. intros (x & E & Hx)%list_elem_of_fmap. apply Hg. rewrite E.
    apply list_elem_of_fmap_2. by apply list_elem_of_In, filter_In in Hx as [?%list_elem_of_In _]. }
  assert (1 <= length vals)%nat by (destruct vals; [done|cbn; lia]).
  assert (length (SAddress <$> S) <= length vals)%nat as HSlen.
  { apply submseteq_length, NoDup_submseteq; [done|]. intros x (sg & -> & Hsg)%list_elem_of_fmap. by apply HS. }
  rewrite length_fmap in HSlen. exists (list_to_set (SAddress <$> S)). split_and!.
  - intros x. rewrite !elem_of_list_to_set. intros (sg & -> & Hsg)%list_elem_of_fmap. by apply HS.
  - rewrite size_list_to_set, length_fmap by done. apply CalVotesThreshold_spec in Ht; [|lia..].
    assert (Z.of_nat ((length vals - 1) `div` 3) = (Z.of_nat (length vals) - 1) `div` 3)%Z as Hd by (rewrite Nat2Z.inj_div, Nat2Z.inj_sub by lia; done). lia.
  - intros v. rewrite elem_of_list_to_set. intros (sg & -> & Hsg)%list_elem_of_fmap. exists sg. split_and!; [by apply HS|done|]. by eapply (proj1 (Forall_forall _ _) Hf).
Qed.

(** C26: how far two certificates overlap.  When [CheckProposal] accepts two certificates of
    the same n validators, the signers of each being distinct (which it does not check),
    at least n - 2f - 2 validators, f being (n-1)/3, validly signed both: a certificate
    needs n - f - 1 signatures only, one being added for the node that collected them.
    If that one is counted, so that each certificate is backed by some validator beside
    its signers, then for any f faulty validators one outside them backs both. *)
Theorem certificates_overlap s1 s2 q1 q2 parent1 parent2 vals :
  (Z.of_nat (length vals) < 2 ^ 31)%Z -> NoDup vals -> vals <> [] ->
  NoDup (SAddress <$> GetSignsInfo parent1) -> NoDup (SAddress <$> GetSignsInfo parent2) ->
  CheckProposal Verify s1 q1 parent1 (Some vals) = Ret tt ->
  CheckProposal Verify s2 q2 parent2 (Some vals) = Ret tt ->
  (exists C : gset string, C ⊆ list_to_set vals /\ (length vals <= size C + 2 * ((length vals - 1) `div` 3) + 2)%nat /\
    forall v, v ∈ C -> signed parent1 v /\ signed parent2 v) /\
  (forall p1 p2 (faulty : gset string), p1 ∈ vals -> p2 ∈ vals ->
    p1 ∉ SAddress <$> GetSignsInfo parent1 -> p2 ∉ SAddress <$> GetSignsInfo parent2 -> (size faulty <= (length vals - 1) `div` 3)%nat ->
    exists v, v ∈ vals /\ v ∉ faulty /\ (v = p1 \/ signed parent1 v) /\ (v = p2 \/ signed parent2 v)).
Proof.
  intros Hlen Hnd Hne Hn1 Hn2 H1 H2.
  destruct (CheckProposal_signers _ _ _ _ Hlen Hnd Hne Hn1 H1) as (A & HA & HsA & HAs).
  destruct (CheckProposal_signers _ _ _ _ Hlen Hnd Hne Hn2 H2) as (B & HB & HsB & HBs).
  assert (size (list_to_set vals : gset string) = length vals) as Hsz by by apply size_list_to_set.
  assert (1 <= length vals)%nat as Hn by (destruct vals; [done|cbn; lia]).
  split.
  - exists (A ∩ B). split_and!; [set_solver| |intros v; rewrite elem_of_intersection; naive_solver].
    assert (size (A ∖ B ∪ B) <= length vals)%nat as E1 by (rewrite <- Hsz; apply subseteq_size; set_solver). rewrite size_union in E1 by set_solver.
    assert (size A = size (A ∩ B) + size (A ∖ B))%nat as E2.
    { rewrite <- size_union by set_solver. f_equal. apply set_eq. intros x. destruct (decide (x ∈ B)); set_solver. }
    lia.
  - intros p1 p2 faulty Hp1 Hp2 Np1 Np2 Hf.
    assert (forall p parent (A : gset string), p ∉ SAddress <$> GetSignsInfo parent -> (forall v, v ∈ A -> signed parent v) -> p ∉ A) as Hout.
    { intros p parent A' Np HA' Hin. destruct (HA' p Hin) as (sg & Hsg & <- & _). apply Np. by apply list_elem_of_fmap_2. }
    destruct (quorums_intersect (list_to_set vals) ({[p1]} ∪ A) ({[p2]} ∪ B) faulty ((length vals - 1) `div` 3)) as (v & HvA & HvB & HvF).
    + intros x [->%elem_of_singleton|]%elem_of_union; [by apply elem_of_list_to_set|by apply HA].
    + intros x [->%elem_of_singleton|]%elem_of_union; [by apply elem_of_list_to_set|by apply HB].
    + by rewrite Hsz.
    + done.
    + by rewrite Hsz.
    + rewrite Hsz, size_union, size_singleton; [lia|]. specialize (Hout p1 parent1 A Np1 HAs). set_solver.
    + rewrite Hsz, size_union, size_singleton; [lia|]. specialize (Hout p2 parent2 B Np2 HBs). set_solver.
    + exists v. split_and!; [|done|set_solver|set_solver]. apply elem_of_union in HvA as [->%elem_of_singleton|HvA]; [done|]. apply HA in HvA. by apply elem_of_list_to_set in HvA.
Qed.

(** Signatures of these validators. *)
Lemma count_valid_all id vals signs : Forall (fun sg => SAddress sg ∈ vals /\ fst (Verify sg id) = true) signs ->
  count_valid Verify id vals signs = Some (Z.of_nat (length signs)).
Proof.
  induction 1 as [|sg signs [Hin Hv] _ IH]; [done|]. cbn [count_valid]. rewrite (proj2 (isInSlice_true _ _) Hin), Hv. cbn [negb]. rewrite IH. f_equal. cbn [length]. lia.
Qed.

Lemma drop_take_common (vals : list string) n m v : NoDup vals -> v ∈ take n vals -> v ∈ drop m vals -> v ∈ drop m (take n vals).
Proof.
  intros Hnd Ht Hd. apply list_elem_of_lookup in Ht as (i & Hi). apply list_elem_of_lookup in Hd as (j & Hj). apply lookup_take_Some in Hi as [Hi Hin]. rewrite lookup_drop in Hj.
  assert (i = (m + j)%nat) as -> by (by eapply NoDup_lookup). apply list_elem_of_lookup. exists j. by rewrite lookup_drop, lookup_take_lt.
Qed.

(** C40: certificates without an honest signer in common.  Of any 3f+1 validators, f at least
    one, who can all sign, one accepted certificate carries the signatures of the first 2f
    and another, for any two blocks the replica knows, those of the last 2f; both have
    distinct signers, and only f-1 validators signed both, fewer than may be faulty.
    With four validators the signers of two certificates may be disjoint. *)
Theorem certificates_share_no_honest_signer s prop id1 id2 vals f (sign : string -> string -> QuorumCertSign) :
  (Z.of_nat (length vals) < 2 ^ 31)%Z -> NoDup vals -> length vals = (3 * f + 1)%nat -> (1 <= f)%nat ->
  (forall v id, v ∈ vals -> SAddress (sign v id) = v /\ fst (Verify (sign v id) (Some id)) = true) ->
  (GetProposalView prop >= sub64 (lastVoteRound s) PermissiveInternal)%Z ->
  is_Some (DFSQueryNode (qcTree s) (Some id1)) -> is_Some (DFSQueryNode (qcTree s) (Some id2)) ->
  exists parent1 parent2 (common : gset string),
    GetProposalId parent1 = Some id1 /\ GetProposalId parent2 = Some id2 /\
    NoDup (SAddress <$> GetSignsInfo parent1) /\ NoDup (SAddress <$> GetSignsInfo parent2) /\
    CheckProposal Verify s prop parent1 (Some vals) = Ret tt /\ CheckProposal Verify s prop parent2 (Some vals) = Ret tt /\
    (size common = f - 1)%nat /\ forall v, signed parent1 v -> signed parent2 v -> v ∈ common.
Proof.
  intros Hlen Hnd Hl Hf Hsign Hview H1 H2.
  set (cert id vs := mkQC (mkVoteInfo (Some id) 0 None 0) None (Some ((fun v => sign v id) <$> vs))).
  assert (forall id vs, (forall v, v ∈ vs -> v ∈ vals) -> SAddress <$> GetSignsInfo (cert id vs) = vs) as Haddr.
  { intros id vs Hin. unfold cert, GetSignsInfo. cbn. rewrite <- list_fmap_compose. rewrite <- (list_fmap_id vs) at 2. apply list_fmap_ext. intros i v Hv. cbn. apply Hsign. apply Hin. by eapply list_elem_of_lookup_2. }
  assert (forall id vs, (forall v, v ∈ vs -> v ∈ vals) -> length vs = (2 * f)%nat -> is_Some (DFSQueryNode (qcTree s) (Some id)) -> CheckProposal Verify s prop (cert id vs) (Some vals) = Ret tt) as Hok.
  { intros id vs Hin Hvs [n Hn]. unfold CheckProposal. destruct (Z.ltb_spec (GetProposalView prop) (sub64 (lastVoteRound s) PermissiveInternal)); [lia|].
    change (GetProposalId (cert id vs)) with (Some id). rewrite Hn. cbn [andb]. change (GetSignsInfo (cert id vs)) with ((fun v => sign v id) <$> vs). rewrite count_valid_all.
    - rewrite length_fmap, Hvs. rewrite (proj2 (CalVotesThreshold_spec (Z.of_nat (2 * f)) (Z.of_nat (length vals)) ltac:(lia) ltac:(lia))); [done|].
      rewrite Hl. replace (Z.of_nat (3 * f + 1) - 1)%Z with (Z.of_nat f * 3)%Z by lia. rewrite Z.div_mul by lia. lia.
    - apply Forall_fmap, Forall_forall. intros v Hv. cbn. destruct (Hsign v id (Hin v Hv)) as [-> ?]. split; [by apply Hin|done]. }
  assert (forall v, v ∈ take (2 * f) vals -> v ∈ vals) as Hi1 by (intros v Hv; rewrite <- (take_drop (2 * f) vals); apply elem_of_app; by left).
  assert (forall v, v ∈ drop (f + 1) vals -> v ∈ vals) as Hi2 by (intros v Hv; rewrite <- (take_drop (f + 1) vals); apply elem_of_app; by right).
  exists (cert id1 (take (2 * f) vals)), (cert id2 (drop (f + 1) vals)), (list_to_set (drop (f + 1) (take (2 * f) vals))). split_and!; [done|done|..].
  - rewrite Haddr by done. by eapply sublist_NoDup, sublist_take.
  - rewrite Haddr by done. by eapply sublist_NoDup, sublist_drop.
  - apply Hok; [done| |done]. rewrite length_take. lia.
  - apply Hok; [done| |done]. rewrite length_drop. lia.
  - rewrite size_list_to_set; [rewrite length_drop, length_take; lia|]. eapply sublist_NoDup; [|apply sublist_drop]. by eapply sublist_NoDup, sublist_take.
  - intros v (g1 & G1 & E1 & _) (g2 & G2 & E2 & _). apply elem_of_list_to_set, drop_take_common; [done| |].
    + rewrite <- (Haddr id1 _ Hi1), <- E1. by apply list_elem_of_fmap_2.
    + rewrite <- (Haddr id2 _ Hi2), <- E2. by apply list_elem_of_fmap_2.
Qed.

(** The signers of a certificate are not required to be distinct: one
    validator's signature, repeated often enough, makes a certificate that
    [CheckProposal] accepts for any block it knows. *)
Theorem one_signature_makes_a_quorum s prop parent vals sg k :
  (GetProposalView prop >= sub64 (lastVoteRound s) PermissiveInternal)%Z ->
  GetProposalId parent <> None -> is_Some (DFSQueryNode (qcTree s) (GetProposalId parent)) ->
  SAddress sg ∈ vals -> fst (Verify sg (GetProposalId parent)) = true ->
  qc_signs parent = Some (repeat sg k) -> CalVotesThreshold (Z.of_nat k) (Z.of_nat (length vals)) = true ->
  CheckProposal Verify s prop parent (Some vals) = Ret tt.
Proof.
  intros Hv Hid [n Hn] Hin Hok Hs Ht. unfold CheckProposal.
  destruct (Z.ltb_spec (GetProposalView prop) (sub64 (lastVoteRound s) PermissiveInternal)); [lia|].
  destruct (GetProposalId parent) as [id|]; [|done]. rewrite Hn. cbn [andb].
  assert (GetSignsInfo parent = repeat sg k) as -> by (unfold GetSignsInfo; by rewrite Hs).
  rewrite (count_valid_repeat _ _ _ _ (proj2 (isInSlice_true _ _) Hin) Hok), Ht. done.
Qed.
End Certificates.

(** ** Collecting votes *)

Definition votes_distinct (s : SmrState) : Prop :=
  forall k l, qcVoteMsgs s !! k = Some l -> NoDup (SAddress <$> l).

Section Votes.
Variable address : string.
Variable Verify : QuorumCertSign -> bytes -> bool * option string.
Variable GetValidators : Z -> option (list string).

Lemma store_vote_spec s q sg s' n :
  GetSignsInfo q = [sg] -> votes_distinct s -> store_vote address s q sg = (s', n) ->
  votes_distinct s' /\ qcTree s' = qcTree s /\ currentView s' = currentView s /\
  exists l, qcVoteMsgs s' !! utils_F (GetProposalId q) = Some l /\ n = Z.of_nat (length l) /\
    forall g, g ∈ l -> g = sg \/ g ∈ default [] (qcVoteMsgs s !! utils_F (GetProposalId q)).
Proof.
  intros Hq Hd. unfold store_vote. set (key := utils_F _). rewrite Hq.
  destruct (qcVoteMsgs s !! key) as [signs|] eqn:Ek.
  2:{ intros [= <- <-]. split_and!; [|done|done|].
      - intros k l. cbn. destruct (decide (k = key)) as [->|]; [rewrite lookup_insert_eq|rewrite lookup_insert_ne by done; apply Hd].
        intros [= <-]. cbn. apply NoDup_singleton.
      - exists [sg]. cbn. rewrite lookup_insert_eq. split_and!; [done|done|]. intros g Hg%list_elem_of_singleton. by left. }
  destruct (existsb _ signs) eqn:Ee; intros [= <- <-].
  { split_and!; try done. exists signs. split_and!; [done|done|]. intros g Hg. by right. }
  split_and!; [|done|done|].
  - intros k l. cbn. destruct (decide (k = key)) as [->|]; [rewrite lookup_insert_eq|rewrite lookup_insert_ne by done; apply Hd].
    intros [= <-]. rewrite fmap_app. apply NoDup_app. split_and!; [by apply (Hd key)| |apply NoDup_singleton].
    intros a (g & -> & Hg)%list_elem_of_fmap Ha. cbn in Ha. apply list_elem_of_singleton in Ha.
    assert (existsb (fun g => bool_decide (SAddress g = SAddress sg) || bool_decide (SAddress sg = address)) signs = true); [|congruence].
    apply existsb_exists. exists g. split; [by apply list_elem_of_In|]. rewrite (bool_decide_eq_true_2 (SAddress g = SAddress sg)) by done. done.
  - exists (signs ++ [sg]). cbn. rewrite lookup_insert_eq. split_and!; [done|done|].
    intros g [Hg|Hg%list_elem_of_singleton]%elem_of_app; [by right|by left].
Qed.

(** Collecting votes.  As long as every vote message carries one
    signature, as replicas send them, the votes kept for a proposal come from
    distinct addresses; every vote added belongs to a validator of the view
    and was given to the signature check; and the tree and the view change only
    when the votes kept for the proposal, the collector's own included, reach
    the quorum. *)
Theorem vote_collection m s r s' :
  votes_distinct s -> length (vm_signs m) = 1%nat ->
  handleReceivedVoteMsg address Verify GetValidators m s = (r, s') ->
  votes_distinct s' /\
  (s' = s \/
   exists vote sg l, vm_vote m = Some vote /\ vm_signs m = [sg] /\
     let vals := default [] (GetValidators (ProposalView vote)) in
     SAddress sg ∈ vals /\
     ((Verify sg (ProposalId vote)).1 = true \/ (Verify sg (ProposalId vote)).2 = None) /\
     is_Some (localProposal s !! utils_F (ProposalId vote)) /\ is_Some (DFSQueryNode (qcTree s) (ProposalId vote)) /\
     qcVoteMsgs s' !! utils_F (ProposalId vote) = Some l /\
     (forall g, g ∈ l -> g = sg \/ g ∈ default [] (qcVoteMsgs s !! utils_F (ProposalId vote))) /\
     ((qcTree s' = qcTree s /\ currentView s' = currentView s) \/
      (CalVotesThreshold (Z.of_nat (length l)) (Z.of_nat (length vals)) = true /\
       (add64 (ProposalView vote) 1 <= currentView s')%Z /\
       qcTree s' = UpdateHighQC (qcTree s) (ProposalId vote)))).
Proof.
  intros Hd Hone. unfold handleReceivedVoteMsg, voteMsgToQC. intros H.
  assert (forall o : outcome unit, (o, s) = (r, s') -> votes_distinct s' /\ s' = s) as Hno by (intros o [= <- <-]; done).
  destruct (vm_vote m) as [vote|]; [|by destruct (Hno _ H); eauto].
  destruct (vm_ledger m) as [led|]; [|by destruct (Hno _ H); eauto].
  destruct (vm_signs m) as [|sg [|]]; [done| |done].
  set (q := NewQuorumCert vote (Some led) (Some [sg])) in *.
  destruct (CheckVote Verify s q _) as [[]|e|] eqn:Ec; [|by destruct (Hno _ H); eauto..].
  change (GetSignsInfo q) with [sg] in H. change (GetProposalId q) with (ProposalId vote) in H.
  case_bool_decide as Hl; cbn [negb] in H; [|by destruct (Hno _ H); eauto].
  destruct (DFSQueryNode (qcTree s) (ProposalId vote)) as [n|] eqn:En; [|by destruct (Hno _ H); eauto].
  destruct (store_vote address s q sg) as [s1 c] eqn:Es.
  destruct (store_vote_spec s q sg s1 c eq_refl Hd Es) as (Hd1 & Et & Ev & l & Hk & -> & Hg).
  assert (SAddress sg ∈ default [] (GetValidators (ProposalView vote)) /\
          ((Verify sg (ProposalId vote)).1 = true \/ (Verify sg (ProposalId vote)).2 = None)) as [Hin Hver].
  { revert Ec. unfold CheckVote. change (GetSignsInfo q) with [sg]. change (GetProposalId q) with (ProposalId vote).
    cbv beta iota. change (GetProposalView q) with (ProposalView vote). destruct (isInSlice _ _) eqn:Ei; cbn [negb]; [|done]. apply isInSlice_true in Ei.
    destruct (Verify sg (ProposalId vote)) as [[] [e|]]; cbn; auto. done. }
  change (GetProposalId q) with (ProposalId vote) in Hk, Hg.
  destruct (CalVotesThreshold _ _) eqn:Eth; cbn [negb] in H; injection H as <- <-.
  - split; [unfold AdvanceView; destruct (_ <? _)%Z; done|]. right. exists vote, sg, l.
    assert (qcVoteMsgs (AdvanceView s1 q) = qcVoteMsgs s1 /\ qcTree (AdvanceView s1 q) = qcTree s1) as [Ea Eb]
      by (unfold AdvanceView; destruct (_ <? _)%Z; done).
    cbv zeta. split_and!; try done; [by rewrite <- Hk, <- Ea|].
    right. split_and!; [done| |cbn; by rewrite Eb, Et].
    unfold AdvanceView. cbn. change (GetProposalView q) with (ProposalView vote). destruct (Z.ltb_spec (currentView s1) (add64 (ProposalView vote) 1)); cbn; lia.
  - split; [done|]. right. exists vote, sg, l. cbv zeta. split_and!; try done. by left.
Qed.

(** ** Rolling back *)

Section Reset.
Variable query : bytes -> option Block.
Hypothesis query_id : forall id b, query id = Some b -> b_id b = id.
Hypothesis pre_below : forall id b b', query id = Some b -> query (b_pre b) = Some b' -> (b_height b' < b_height b)%Z.

(** The search of a rollback ends.  On a ledger whose blocks point to
    lower ones, enough fuel for the distance to the root makes the search
    return: an error of the ledger or the election, the root, or a node of
    the tree that a quorum of the validators of its height signed. *)
Theorem reset_search_ends fuel s id b :
  query id = Some b -> (Z.max 0 (b_height b - GetProposalView (GetRootQC s)) < Z.of_nat fuel)%Z ->
  match reset_search GetValidators fuel query s id with
  | Panic => False
  | Err e => e = ErrEmptyTarget
  | Ret qc => qc = GetRootQC s \/
      exists b' node vals, query (b_id b') = Some b' /\ GetValidators (b_height b') = Some vals /\
        DFSQueryNode (qcTree s) (b_id b') = Some node /\ qc = In node /\ validNewHighQC s (GetProposalId qc) vals = true
  end.
Proof using query_id pre_below.
  revert id b. induction fuel as [|fuel IH]; intros id b Hq Hf; [lia|]. cbn [reset_search]. rewrite Hq.
  destruct (Z.leb_spec (b_height b) (GetProposalView (GetRootQC s))); [by left|].
  assert (match reset_search GetValidators fuel query s (b_pre b) with
          | Panic => False | Err e => e = ErrEmptyTarget
          | Ret qc => qc = GetRootQC s \/
              exists b' node vals, query (b_id b') = Some b' /\ GetValidators (b_height b') = Some vals /\
                DFSQueryNode (qcTree s) (b_id b') = Some node /\ qc = In node /\ validNewHighQC s (GetProposalId qc) vals = true
          end) as Hrec.
  { destruct (query (b_pre b)) as [b1|] eqn:Eb.
    - apply (IH _ b1); [done|]. pose proof (pre_below _ _ _ Hq Eb). lia.
    - destruct fuel; [lia|]. cbn. by rewrite Eb. }
  destruct (DFSQueryNode (qcTree s) (b_id b)) as [node|] eqn:En; [|done].
  destruct (GetValidators (b_height b)) as [vals|] eqn:Ev; [|done].
  destruct (validNewHighQC s _ vals) eqn:Evh; cbn [negb]; [|done].
  right. exists b, node, vals. split_and!; try done. by rewrite (query_id _ _ Hq).
Qed.
End Reset.
End Votes.

(** ** Examples *)

Module SmrExample.
Import QCExample.
Definition vals4 : list string := ["v1"; "v2"; "v3"; "v4"].
Definition vals7 : list string := vals4 ++ ["v5"; "v6"; "v7"].
Definition sign (a : string) : QuorumCertSign := mkSign a "pk" "good".
Definition Verify (sg : QuorumCertSign) (_ : bytes) : bool * option string := (bool_decide (SSign sg = "good"), Some InvalidVoteSign).
Definition SignVote (_ : bytes) : outcome QuorumCertSign := Ret (sign "v1").
Definition SignProp (_ : Z) (_ : bytes) (_ : Z) (_ : JustifyQC) : outcome QuorumCertSign := Ret (sign "v1").
Definition Vals (n : list string) (_ : Z) : option (list string) := Some n.
Definition Leader (_ : Z) : string := "v2".

(** The replica v1 after the chain a, b, c. *)
Definition s3 : SmrState := mkSmr 3 2 1 t3 3 {[ "c" := 0%Z ]} ∅ [].
Definition cert (addrs : list string) : QuorumCert :=
  mkQC (mkVoteInfo (Some "c") 3 (Some "b") 2) (Some (mkLedgerCommitInfo None (Some "c"))) (Some (sign <$> addrs)).
Definition proposal : ProposalMsg :=
  mkProposalMsg 4 (Some "d") 7 (Some (justify_of (cert ["v2"; "v3"]))) (Some (sign "v4")).
Definition vote (signs : list QuorumCertSign) : VoteMsg :=
  mkVoteMsg (Some (mkVoteInfo (Some "c") 3 (Some "b") 2)) (Some (mkLedgerCommitInfo None (Some "c"))) signs.
Definition handleVote (vals : list string) (m : VoteMsg) (s : SmrState) : SmrState :=
  snd (handleReceivedVoteMsg "v1" Verify (Vals vals) m s).

Definition block (id pre : string) (h : Z) : Block := mkBlock (Some id) h (Some pre).
Definition ledger (id : bytes) : option Block :=
  match id with
  | Some "c" => Some (block "c" "b" 3) | Some "b" => Some (block "b" "a" 2)
  | Some "a" => Some (block "a" "g" 1) | Some "g" => Some (block "g" "" 0)
  | _ => None
  end%string.

Lemma ledger_id id b : ledger id = Some b -> b_id b = id.
Proof. unfold ledger. intros H. repeat case_match; simplify_eq; done. Qed.

Lemma ledger_below id b b' : ledger id = Some b -> ledger (b_pre b) = Some b' -> (b_height b' < b_height b)%Z.
Proof. unfold ledger at 1. intros H. repeat case_match; simplify_eq; cbn; intros H'; by simplify_eq. Qed.
End SmrExample.

Import SmrExample.

Lemma replica_never_goes_back_witness :
  later s3 (snd (handleReceivedProposal "v1" Verify SignVote (Vals vals4) Leader proposal s3)).
Proof.
  apply (replica_never_goes_back "v1" Verify SignVote SignProp (Vals vals4) Leader). apply rtc_once.
  apply (step_proposal _ _ _ _ _ _ proposal _ (fst (handleReceivedProposal "v1" Verify SignVote (Vals vals4) Leader proposal s3))).
  apply surjective_pairing.
Defined.

Lemma vote_sent_is_safe_witness :
  let s' := snd (handleReceivedProposal "v1" Verify SignVote (Vals vals4) Leader proposal s3) in
  (exists v, SentVote "v2" v ∈ drop (length (sent s3)) (sent s')) /\ (4 <= lastVoteRound s')%Z.
Proof.
  cbv zeta.
  pose (v := mkVoteMsg (Some (mkVoteInfo (Some "d") 4 (Some "c") 3)) (Some (mkLedgerCommitInfo None (Some "d"))) [sign "v1"]).
  assert (SentVote "v2" v ∈ drop (length (sent s3)) (sent (snd (handleReceivedProposal "v1" Verify SignVote (Vals vals4) Leader proposal s3)))) as Hin.
  { vm_compute. right. left. }
  split; [by exists v|].
  destruct (vote_sent_is_safe "v1" Verify SignVote (Vals vals4) Leader proposal s3 _ _ "v2" v (surjective_pairing _) Hin)
    as (j & pv & sg & _ & _ & _ & _ & _ & _ & _ & _ & _ & _ & _ & Hl & _).
  exact (proj2 Hl).
Defined.

Lemma certificates_overlap_witness : exists v, v ∈ vals4 /\ (v = "v1" \/ signed Verify (cert ["v2"; "v3"]) v) /\ (v = "v4" \/ signed Verify (cert ["v2"; "v3"]) v).
Proof.
  destruct (certificates_overlap Verify s3 s3 (cert []) (cert []) (cert ["v2"; "v3"]) (cert ["v2"; "v3"]) vals4) as [_ Hb].
  - reflexivity.
  - apply (bool_decide_unpack _). vm_compute. exact I.
  - discriminate.
  - apply (bool_decide_unpack _). vm_compute. exact I.
  - apply (bool_decide_unpack _). vm_compute. exact I.
  - reflexivity.
  - reflexivity.
  - destruct (Hb "v1" "v4" {["v3"]}) as (v & H1 & _ & H2 & H3); [..|exists v; split_and!; assumption].
    + left.
    + right. right. right. left.
    + apply (bool_decide_unpack _). vm_compute. exact I.
    + apply (bool_decide_unpack _). vm_compute. exact I.
    + rewrite size_singleton. cbn. lia.
Defined.

Lemma certificates_share_no_honest_signer_witness : exists parent1 parent2,
  CheckProposal Verify s3 (cert []) parent1 (Some vals4) = Ret tt /\ CheckProposal Verify s3 (cert []) parent2 (Some vals4) = Ret tt /\
  forall v, signed Verify parent1 v -> signed Verify parent2 v -> False.
Proof.
  destruct (certificates_share_no_honest_signer Verify s3 (cert []) "c" "b" vals4 1 (fun a _ => sign a)) as (p1 & p2 & C & _ & _ & _ & _ & H1 & H2 & Hs & Hc).
  - reflexivity.
  - apply (bool_decide_unpack _). vm_compute. exact I.
  - reflexivity.
  - lia.
  - intros v id _. split; reflexivity.
  - vm_compute. discriminate.
  - eexists. reflexivity.
  - eexists. reflexivity.
  - exists p1, p2. split; [exact H1|]. split; [exact H2|]. intros v S1 S2. specialize (Hc v S1 S2). apply size_empty_inv in Hs. set_solver.
Defined.

Lemma one_signature_makes_a_quorum_witness :
  CheckProposal Verify s3 (cert []) (cert ["v2"; "v2"]) (Some vals4) = Ret tt.
Proof.
  apply (one_signature_makes_a_quorum Verify s3 (cert []) (cert ["v2"; "v2"]) vals4 (sign "v2") 2).
  - vm_compute. discriminate.
  - discriminate.
  - eexists. reflexivity.
  - right. left.
  - reflexivity.
  - reflexivity.
  - reflexivity.
Defined.

Lemma vote_collection_witness : votes_distinct (handleVote vals4 (vote [sign "v2"]) s3).
Proof.
  eapply (vote_collection "v1" Verify (Vals vals4) (vote [sign "v2"]) s3).
  - intros k l H. discriminate H.
  - reflexivity.
  - apply surjective_pairing.
Defined.

Lemma reset_search_ends_witness :
  match reset_search (Vals vals4) 4 ledger s3 (Some "c") with Panic => False | _ => True end.
Proof.
  pose proof (reset_search_ends (Vals vals4) ledger ledger_id ledger_below 4 s3 (Some "c") (block "c" "b" 3) eq_refl eq_refl) as H.
  destruct (reset_search (Vals vals4) 4 ledger s3 (Some "c")); [exact I|exact I|exact H].
Defined.

(** Votes that were never verified are counted.  A vote message may carry
    several signatures; only the first is checked, all are kept when the message
    is the first for its proposal, and all of them count when another message
    arrives, the same one included: of seven validators, one makes the
    collector adopt a block by sending twice a message with its own signature and three
    signatures that do not verify. *)
Theorem unverified_votes_counted :
  let m := vote (sign "v2" :: [mkSign "v3" "" ""; mkSign "v4" "" ""; mkSign "v5" "" ""]) in
  let s' := handleVote vals7 m (handleVote vals7 m s3) in
  GetProposalId (highQC (qcTree s3)) = Some "b" /\
  GetProposalId (highQC (qcTree (handleVote vals7 m s3))) = Some "b" /\
  GetProposalId (highQC (qcTree s')) = Some "c" /\ currentView s' = 4%Z /\
  forall a, a <> "v2" -> a ∈ vals7 ->
    Forall (fun sg => SAddress sg = a -> fst (Verify sg (Some "c")) = false) (default [] (qcVoteMsgs s' !! "c")).
Proof.
  vm_compute. split_and!; try reflexivity. intros a Ha _.
  repeat (constructor; [intros E; first [reflexivity | by destruct Ha]|]). constructor.
Qed.
