(* ===== verification/LruCache.v ===== *)
(** * The LRU cache

    [lib/cache/lru_cache.go].  The list of pairs is kept most recent first; the
    map from a key to its list element is the search for the key in that list,
    which the invariant makes the same thing: a key occurs once. *)

From Stdlib Require Import ZArith Lia.
From stdpp Require Import base gmap strings list numbers sorting.
From S2P Require Import Prelude.

Set Default Proof Using "Type".

Section LRU.
Context {K V : Type} `{EqDecision K}.

Record LRUCache := mkLRU { capacity : Z; lru : list (K * V) }.

Definition NewLRUCache (capacity : Z) : LRUCache := mkLRU capacity [].

(** The element of a key. *)
Fixpoint find (key : K) (l : list (K * V)) : option V :=
  match l with
  | [] => None
  | (k, v) :: l' => if decide (key = k) then Some v else find key l'
  end.

Definition without (key : K) (l : list (K * V)) : list (K * V) :=
  List.filter (fun p => negb (bool_decide (key = p.1))) l.

Definition cached (c : LRUCache) (key : K) : option V := find key (lru c).

Definition Get (c : LRUCache) (key : K) : option V * LRUCache :=
  match cached c key with
  | Some v => (Some v, mkLRU (capacity c) ((key, v) :: without key (lru c)))
  | None => (None, c)
  end.

Definition evict (c : LRUCache) : LRUCache := mkLRU (capacity c) (removelast (lru c)).

(** Whether an entry was evicted, and the cache. *)
Definition Add (c : LRUCache) (key : K) (value : V) : bool * LRUCache :=
  match cached c key with
  | Some _ => (false, mkLRU (capacity c) ((key, value) :: without key (lru c)))
  | None =>
      let c' := mkLRU (capacity c) ((key, value) :: lru c) in
      if (capacity c <? Z.of_nat (length (lru c')))%Z then (true, evict c') else (false, c')
  end.

Definition Del (c : LRUCache) (key : K) : LRUCache :=
  match cached c key with
  | Some _ => mkLRU (capacity c) (without key (lru c))
  | None => c
  end.

Definition Len (c : LRUCache) : Z := Z.of_nat (length (lru c)).

Definition EnlargeCapacity (c : LRUCache) (newCapacity : Z) : outcome LRUCache :=
  if (newCapacity <? capacity c)%Z then Err "newCapacity must be larger than current" else Ret (mkLRU newCapacity (lru c)).

(** ** Invariant *)

Definition lru_ok (c : LRUCache) : Prop :=
  NoDup (lru c).*1 /\ (Z.of_nat (length (lru c)) <= Z.max 0 (capacity c))%Z.

Lemma find_elem key l v : find key l = Some v -> (key, v) ∈ l.
Proof.
  induction l as [|[k w] l IH]; cbn; [done|]. destruct (decide (key = k)) as [->|]; [intros [= ->]; left|intros H; right; auto].
Qed.

Lemma elem_find key l v : NoDup l.*1 -> (key, v) ∈ l -> find key l = Some v.
Proof.
  induction l as [|[k w] l IH]; cbn; intros Hnd Hin; [by apply elem_of_nil in Hin|].
  apply NoDup_cons in Hnd as [Hk Hnd]. apply elem_of_cons in Hin as [[= -> ->]|Hin]; [by rewrite decide_True|].
  rewrite decide_False; [by apply IH|]. intros ->. apply Hk. apply list_elem_of_fmap. by exists (k, v).
Qed.

Lemma elem_without key l p : p ∈ without key l <-> p ∈ l /\ key <> p.1.
Proof.
  unfold without. rewrite !list_elem_of_In, filter_In. split; intros [H1 H2]; (split; [done|]).
  - intros ->. rewrite bool_decide_eq_true_2 in H2; done.
  - rewrite bool_decide_eq_false_2; done.
Qed.

Lemma find_without key key' l : find key (without key' l) = if decide (key = key') then None else find key l.
Proof.
  unfold without. induction l as [|[k w] l IH]; cbn; [by destruct (decide _)|].
  destruct (decide (key' = k)) as [->|Hne]; [rewrite bool_decide_eq_true_2 by done|rewrite bool_decide_eq_false_2 by done]; cbn.
  - rewrite IH. repeat (destruct (decide _)); congruence.
  - rewrite IH. repeat (destruct (decide _)); congruence.
Qed.

Lemma without_NoDup key l : NoDup l.*1 -> NoDup (without key l).*1 /\ key ∉ (without key l).*1.
Proof.
  intros Hnd. split.
  - induction l as [|[k w] l IH]; [constructor|]. cbn in Hnd |- *. apply NoDup_cons in Hnd as [Hk Hnd].
    destruct (negb _); [|auto]. cbn. apply NoDup_cons. split; [|auto].
    intros ([k' v'] & -> & Hin)%list_elem_of_fmap. apply Hk. apply elem_without in Hin as [Hin _]. apply list_elem_of_fmap. by eexists.
  - intros ([k' v'] & -> & Hin)%list_elem_of_fmap. by apply elem_without in Hin as [_ Hne].
Qed.

Lemma length_without key l : (length (without key l) <= length l)%nat.
Proof. unfold without. induction l; cbn; [done|]. destruct (negb _); cbn; lia. Qed.

Lemma length_without_found key l v : find key l = Some v -> (length (without key l) < length l)%nat.
Proof.
  induction l as [|[k w] l IH]; cbn; [done|].
  destruct (decide (key = k)) as [->|Hne].
  - intros _. rewrite bool_decide_eq_true_2 by done. cbn. pose proof (length_without k l). unfold without in *. lia.
  - intros H. rewrite bool_decide_eq_false_2 by done. cbn. specialize (IH H). unfold without in *. lia.
Qed.

Lemma removelast_sub {A} (l : list A) x : x ∈ removelast l -> x ∈ l.
Proof.
  induction l as [|a l IH]; [done|]. cbn. destruct l; [intros H; by apply elem_of_nil in H|].
  rewrite !elem_of_cons. intros [->|H]; [by left|]. right. rewrite <- elem_of_cons. auto.
Qed.

Lemma removelast_NoDup (l : list (K * V)) : NoDup l.*1 -> NoDup (removelast l).*1.
Proof.
  intros H. induction l as [|a l IH]; [constructor|]. destruct l as [|b l]; [constructor|].
  change (NoDup (a :: removelast (b :: l)).*1). cbn [fmap list_fmap] in *. apply NoDup_cons in H as [Ha Hl].
  apply NoDup_cons. split; [|by apply IH]. intros (p & Ep & Hp)%list_elem_of_fmap. apply Ha. rewrite Ep.
  change (p.1 ∈ (b :: l).*1). apply list_elem_of_fmap. exists p. split; [done|by apply removelast_sub].
Qed.

Lemma length_removelast {A} (l : list A) : length (removelast l) = (length l - 1)%nat.
Proof. induction l as [|a [|b l] IH]; [done|done|]. change (length (a :: removelast (b :: l)) = (length (a :: b :: l) - 1)%nat). cbn in *. lia. Qed.

(** What each operation leaves in the cache. *)
Lemma Get_spec c key v c' :
  lru_ok c -> Get c key = (v, c') ->
  v = cached c key /\ lru_ok c' /\ capacity c' = capacity c /\ forall k, cached c' k = cached c k.
Proof.
  intros [Hnd Hlen]. unfold Get, cached. destruct (find key (lru c)) as [w|] eqn:E; intros [= <- <-]; [|done].
  destruct (without_NoDup key _ Hnd) as [Hn1 Hn2]. pose proof (length_without_found _ _ _ E).
  split_and!; [done| |done|].
  - split; cbn; [by apply NoDup_cons|lia].
  - intros k. cbn. rewrite find_without. destruct (decide (k = key)) as [->|]; [by rewrite E|done].
Qed.

Lemma Add_spec c key v ev c' :
  lru_ok c -> Add c key v = (ev, c') ->
  lru_ok c' /\ capacity c' = capacity c /\
  (forall k w, cached c' k = Some w -> if decide (k = key) then w = v else cached c k = Some w) /\
  ((1 <= capacity c)%Z -> cached c' key = Some v).
Proof.
  intros [Hnd Hlen]. unfold Add, cached. destruct (find key (lru c)) as [w|] eqn:E.
  - intros [= <- <-]. destruct (without_NoDup key _ Hnd) as [Hn1 Hn2]. pose proof (length_without_found _ _ _ E).
    split_and!; [split; cbn; [by apply NoDup_cons|lia]|done| |].
    + intros k u. cbn. rewrite find_without. destruct (decide (k = key)); [congruence|done].
    + intros _. cbn. by rewrite decide_True.
  - assert (NoDup ((key, v) :: lru c).*1) as Hnd'.
    { cbn. apply NoDup_cons. split; [|done]. intros ([k u] & Ek & Hin)%list_elem_of_fmap. cbn in Ek. subst k. by rewrite (elem_find _ _ _ Hnd Hin) in E. }
    assert (forall k u, find k ((key, v) :: lru c) = Some u -> if decide (k = key) then u = v else find k (lru c) = Some u) as Hsub.
    { intros k u. cbn [find]. destruct (decide (k = key)); [congruence|done]. }
    cbv zeta. cbn [lru capacity].
    destruct (Z.ltb_spec (capacity c) (Z.of_nat (length ((key, v) :: lru c)))) as [Hgt|Hle]; intros [= <- <-].
    + split_and!; [split; [by apply removelast_NoDup|]|done| |].
      * unfold evict. cbn [lru capacity]. rewrite length_removelast. cbn in *. lia.
      * intros k u Hk. apply Hsub. apply elem_find; [done|]. apply removelast_sub. by apply find_elem.
      * intros Hc. unfold evict. cbn [lru]. destruct (lru c) as [|x l] eqn:El; [cbn in Hgt; lia|].
        change (find key ((key, v) :: removelast (x :: l)) = Some v). cbn. by rewrite decide_True.
    + split_and!; [split; [done|cbn [lru capacity] in *; lia]|done|done|]. intros _. cbn. by rewrite decide_True.
Qed.

Lemma Del_spec c key :
  lru_ok c -> lru_ok (Del c key) /\ capacity (Del c key) = capacity c /\
  forall k, cached (Del c key) k = if decide (k = key) then None else cached c k.
Proof.
  intros [Hnd Hlen]. unfold Del, cached. destruct (find key (lru c)) as [w|] eqn:E.
  - destruct (without_NoDup key _ Hnd) as [Hn1 Hn2]. pose proof (length_without key (lru c)).
    split_and!; [split; cbn; [done|lia]|done|]. intros k. cbn. apply find_without.
  - split_and!; [done|done|]. intros k. destruct (decide (k = key)) as [->|]; done.
Qed.

End LRU.

Arguments LRUCache K V : clear implicits.
