(* ===== verification/Sha256.v ===== *)
(** * SHA-256

    [crypto/sha256] of the standard library and [lib/crypto/hash/hash.go]:
    the hash of a byte string as the 32 bytes of the digest. *)

From Stdlib Require Import ZArith Lia Ascii.
From stdpp Require Import base strings list numbers.
From S2P Require Import Prelude GoValues.

Set Default Proof Using "Type".
Open Scope Z_scope.

Definition w32 (x : Z) : Z := Z.land x 4294967295.
Definition rotr (n x : Z) : Z := Z.lor (Z.shiftr x n) (w32 (Z.shiftl x (32 - n))).

Definition Ch (x y z : Z) : Z := Z.lxor (Z.land x y) (Z.land (Z.lxor x 4294967295) z).
Definition Maj (x y z : Z) : Z := Z.lxor (Z.lxor (Z.land x y) (Z.land x z)) (Z.land y z).
Definition bsig0 (x : Z) : Z := Z.lxor (Z.lxor (rotr 2 x) (rotr 13 x)) (rotr 22 x).
Definition bsig1 (x : Z) : Z := Z.lxor (Z.lxor (rotr 6 x) (rotr 11 x)) (rotr 25 x).
Definition ssig0 (x : Z) : Z := Z.lxor (Z.lxor (rotr 7 x) (rotr 18 x)) (Z.shiftr x 3).
Definition ssig1 (x : Z) : Z := Z.lxor (Z.lxor (rotr 17 x) (rotr 19 x)) (Z.shiftr x 10).

(** Cube and square roots of the first primes. *)
Definition round_constants : list Z :=
  [1116352408; 1899447441; 3049323471; 3921009573; 961987163; 1508970993; 2453635748; 2870763221;
   3624381080; 310598401; 607225278; 1426881987; 1925078388; 2162078206; 2614888103; 3248222580;
   3835390401; 4022224774; 264347078; 604807628; 770255983; 1249150122; 1555081692; 1996064986;
   2554220882; 2821834349; 2952996808; 3210313671; 3336571891; 3584528711; 113926993; 338241895;
   666307205; 773529912; 1294757372; 1396182291; 1695183700; 1986661051; 2177026350; 2456956037;
   2730485921; 2820302411; 3259730800; 3345764771; 3516065817; 3600352804; 4094571909; 275423344;
   430227734; 506948616; 659060556; 883997877; 958139571; 1322822218; 1537002063; 1747873779;
   1955562222; 2024104815; 2227730452; 2361852424; 2428436474; 2756734187; 3204031479; 3329325298].
Definition initial_hash : list Z :=
  [1779033703; 3144134277; 1013904242; 2773480762; 1359893119; 2600822924; 528734635; 1541459225].

(** The schedule, kept latest first: sixteen words of the block, then 48 more. *)
Fixpoint extend (n : nat) (w : list Z) : list Z :=
  match n with
  | O => w
  | S n =>
      let at' i := nth i w 0 in
      extend n (w32 (ssig1 (at' 1%nat) + at' 6%nat + ssig0 (at' 14%nat) + at' 15%nat) :: w)
  end.

Definition schedule (block : list Z) : list Z := rev (extend 48 (rev block)).

Definition round (h : list Z) (kw : Z * Z) : list Z :=
  match h with
  | [a; b; c; d; e; f; g; h] =>
      let t1 := h + bsig1 e + Ch e f g + kw.1 + kw.2 in
      let t2 := bsig0 a + Maj a b c in
      [w32 (t1 + t2); a; b; c; w32 (d + t1); e; f; g]
  | _ => h
  end.

Definition compress (h block : list Z) : list Z :=
  zip_with (fun a b => w32 (a + b)) h (foldl round h (zip round_constants (schedule block))).

Definition be_bytes4 (w : Z) : list Z := [Z.shiftr w 24; Z.land (Z.shiftr w 16) 255; Z.land (Z.shiftr w 8) 255; Z.land w 255].

Fixpoint words (n : nat) (b : list Z) : list Z :=
  match n with
  | O => []
  | S n =>
      match b with
      | b0 :: b1 :: b2 :: b3 :: b' => (Z.shiftl b0 24 + Z.shiftl b1 16 + Z.shiftl b2 8 + b3) :: words n b'
      | _ => []
      end
  end.

(** A one bit, zeros up to eight bytes short of a block, the length in bits. *)
Definition pad (b : list Z) : list Z :=
  let n := Z.of_nat (length b) in
  let zeros := (55 - n) mod 64 in
  b ++ [128] ++ repeat 0 (Z.to_nat zeros) ++ be_bytes4 (Z.land (Z.shiftr (8 * n) 32) 4294967295) ++ be_bytes4 (w32 (8 * n)).

Fixpoint blocks (n : nat) (h b : list Z) : list Z :=
  match n with
  | O => h
  | S n => blocks n (compress h (words 16 b)) (drop 64 b)
  end.

Fixpoint bytes_of (s : string) : list Z :=
  match s with EmptyString => [] | String c s => byte_of c :: bytes_of s end.
Fixpoint of_bytes (l : list Z) : string :=
  match l with [] => EmptyString | b :: l => String (byte_char b) (of_bytes l) end.

Definition UsingSha256 (data : string) : string :=
  let p := pad (bytes_of data) in
  of_bytes (flat_map be_bytes4 (blocks (length p / 64)%nat initial_hash p)).

Definition DoubleSha256 (data : string) : string := UsingSha256 (UsingSha256 data).

(** ** The digest *)

Lemma length_round h kw : length h = 8%nat -> length (round h kw) = 8%nat.
Proof. do 9 (destruct h as [|? h]; try done). Qed.

Lemma length_compress h b : length h = 8%nat -> length (compress h b) = 8%nat.
Proof.
  intros Hh. unfold compress. rewrite length_zip_with.
  assert (forall l h', length h' = 8%nat -> length (foldl round h' l) = 8%nat) as ->.
  { induction l as [|x l IH]; intros h' Hh'; [done|]. cbn [foldl]. by apply IH, length_round. }
  - by rewrite Hh.
  - done.
Qed.

Lemma length_blocks n : forall h b, length h = 8%nat -> length (blocks n h b) = 8%nat.
Proof. induction n as [|n IH]; intros h b Hh; [done|]. cbn [blocks]. by apply IH, length_compress. Qed.

Lemma length_of_bytes l : String.length (of_bytes l) = length l.
Proof. induction l; cbn; congruence. Qed.

(** A digest has 32 bytes. *)
Lemma length_UsingSha256 data : String.length (UsingSha256 data) = 32%nat.
Proof.
  unfold UsingSha256. rewrite length_of_bytes. set (h := blocks _ _ _).
  assert (length h = 8%nat) as Hh by by apply length_blocks. clearbody h.
  assert (length (flat_map be_bytes4 h) = 4 * length h)%nat as ->; [|by rewrite Hh].
  clear Hh. induction h as [|w h IH]; [done|]. cbn [flat_map]. rewrite length_app, IH. cbn. lia.
Qed.

Lemma length_DoubleSha256 data : String.length (DoubleSha256 data) = 32%nat.
Proof. apply length_UsingSha256. Qed.

Definition hex_digit (n : Z) : ascii := if n <? 10 then byte_char (48 + n) else byte_char (87 + n).
Fixpoint hex (s : string) : string :=
  match s with
  | EmptyString => EmptyString
  | String c s => String (hex_digit (Z.shiftr (byte_of c) 4)) (String (hex_digit (Z.land (byte_of c) 15)) (hex s))
  end.

(** Test vectors of FIPS 180-4. *)
Example sha256_empty : hex (UsingSha256 "") = "e3b0c44298fc1c149afbf4c8996fb92427ae41e4649b934ca495991b7852b855".
Proof. vm_compute. reflexivity. Qed.
Example sha256_abc : hex (UsingSha256 "abc") = "ba7816bf8f01cfea414140de5dae2223b00361a396177a9cb410ff61f20015ad".
Proof. vm_compute. reflexivity. Qed.
Example sha256_two_blocks :
  hex (UsingSha256 "abcdbcdecdefdefgefghfghighijhijkijkljklmklmnlmnomnopnopq") =
  "248d6a61d20638b8e5c026930c3e6039a33ce45964ff2167f6ecedd419db06c1".
Proof. vm_compute. reflexivity. Qed.

