(* ===== verification/LedgerHash.v ===== *)
(** * Blocks, Merkle trees and block identifiers

    [bcs/ledger/xledger/ledger/ledger_hash.go], with the block structure of
    [bcs/ledger/xledger/xldgpb/xledger.pb.go] and the formatting and
    verification of blocks of [ledger.go].  Byte slices are strings, nil and
    empty being the same for every operation here.  Signatures and keys are
    parameters. *)

From Stdlib Require Import ZArith Lia Ascii.
From stdpp Require Import base gmap strings list numbers sorting.
From S2P Require Import Prelude GoValues Sha256.

Set Default Proof Using "Type".

(** ** Data *)

(** Amounts are big-endian byte strings. *)
Record TxInput := mkTxIn {
  ti_RefTxid : string; ti_RefOffset : Z; FromAddr : string; ti_Amount : string; ti_FrozenHeight : Z
}.

Record TxOutput := mkTxOut { to_Amount : string; ToAddr : string; to_FrozenHeight : Z }.

(** What a transaction reads and writes of the key-value state; a nil
    [RefTxid] is a key never written, a nil [Value] is refused. *)
Record TxInputExt := mkTxInExt { ie_Bucket : string; ie_Key : string; ie_RefTxid : option string; ie_RefOffset : Z }.
Record TxOutputExt := mkTxOutExt { oe_Bucket : string; oe_Key : string; oe_Value : option blob }.

Record ModifyBlockInfo := mkModify {
  EffectiveTxid : string; Marked : bool; EffectiveHeight : Z; mb_PublicKey : string; mb_Sign : string
}.

(** A transaction, without the parts that only its verification reads (the
    contract calls, the signatures and the version). *)
Record Transaction := mkTx {
  Txid : string;
  TxBlockid : string;
  Coinbase : bool;
  Autogen : bool;
  Desc : string;
  TxInputs : list TxInput;
  TxOutputs : list TxOutput;
  TxInputsExt : list TxInputExt;
  TxOutputsExt : list TxOutputExt;
  ModifyBlock : option ModifyBlockInfo
}.

Record SignInfo := mkSignInfo { si_Address : string; si_PublicKey : string; si_Sign : string }.

Record Justify := mkJustifyPb {
  j_ProposalId : string; j_ProposalMsg : string; j_Type : Z; j_ViewNumber : Z; j_SignInfos : option (list SignInfo)
}.

Record InternalBlock := mkBlk {
  Version : Z; Nonce : Z; Blockid : string; PreHash : string; Proposer : string; BSign : string; Pubkey : string;
  MerkleRoot : string; Height : Z; Timestamp : Z; Transactions : list Transaction; TxCount : Z;
  MerkleTree : list (option string); CurTerm : Z; CurBlockNum : Z; FailedTxs : gmap string string; TargetBits : Z;
  BJustify : option Justify; InTrunk : bool; NextHash : string
}.

(** ** The Merkle tree *)

(** A power of two is its own size; the logarithm in floating point is exact
    for the sizes of blocks. *)
Definition getLeafSize (txCount : Z) : Z :=
  if (Z.land txCount (txCount - 1) =? 0)%Z then txCount else Z.shiftl 1 (Z.log2 txCount + 1).

Definition merkleDoubleSha256 (left right : string) : string := DoubleSha256 (left +:+ right).

(** [copy] into a fresh buffer of [n] bytes. *)
Fixpoint copy_into (n : nat) (s : string) : string :=
  match n with
  | O => ""
  | S n =>
      match s with
      | EmptyString => String "000" (copy_into n "")
      | String c s => String c (copy_into n s)
      end
  end.

(** The node above two nodes of the array. *)
Definition parent_node (left right : option string) : option string :=
  match left, right with
  | None, _ => None
  | Some l, None => Some (merkleDoubleSha256 l l)
  | Some l, Some r => Some (merkleDoubleSha256 l r)
  end.

(** The loop over the array, two nodes at a time. *)
Fixpoint merkle_loop (fuel treeSize i noneLeafOffset : nat) (tree : list (option string)) : list (option string) :=
  match fuel with
  | O => tree
  | S fuel =>
      if (i <? treeSize - 1)%nat then
        let node := parent_node (mjoin (tree !! i)) (mjoin (tree !! (i + 1)%nat)) in
        merkle_loop fuel treeSize (i + 2) (noneLeafOffset + 1) (<[noneLeafOffset := node]> tree)
      else tree
  end.

Definition MakeMerkleTree (txList : list Transaction) : list (option string) :=
  let txCount := length txList in
  if (txCount =? 0)%nat then []
  else
    let leafSize := Z.to_nat (getLeafSize (Z.of_nat txCount)) in
    let treeSize := (leafSize * 2 - 1)%nat in
    let tree := ((fun tx => Some (copy_into 32 (Txid tx))) <$> txList) ++ repeat None (treeSize - txCount) in
    merkle_loop treeSize treeSize 0 leafSize tree.

Definition last_node (tree : list (option string)) : string := default "" (List.last tree None).

Definition VerifyMerkle (block : InternalBlock) : outcome unit :=
  let merkleTree := MakeMerkleTree (Transactions block) in
  if (length merkleTree =? 0)%nat then Err "can not make merkle tree"
  else if bool_decide (last_node merkleTree = MerkleRoot block) then Ret tt else Err "merkle root is wrong".

(** ** Block identifiers *)

(** [binary.Write] of an integer of [n] bytes, least significant first. *)
Fixpoint le_bytes (n : nat) (z : Z) : string :=
  match n with
  | O => ""
  | S n => String (byte_char (z mod 256)) (le_bytes n (z / 256))
  end.

Definition encodeFailedTxs (block : InternalBlock) : string :=
  foldr (fun kv acc => kv.2 +:+ acc) "" (merge_sort key_le (map_to_list (FailedTxs block))).

Definition encodeJustify (block : InternalBlock) : string :=
  match BJustify block with
  | None => ""
  | Some j =>
      j_ProposalId j +:+ j_ProposalMsg j +:+ le_bytes 4 (j_Type j) +:+ le_bytes 8 (j_ViewNumber j) +:+
      foldr (fun sg acc => si_Address sg +:+ si_PublicKey sg +:+ si_Sign sg +:+ acc) "" (default [] (j_SignInfos j))
  end.

(** What is hashed. *)
Definition block_bytes (block : InternalBlock) : string :=
  le_bytes 4 (Version block) +:+ le_bytes 4 (Nonce block) +:+ le_bytes 4 (TxCount block) +:+
  Proposer block +:+ le_bytes 8 (Timestamp block) +:+ Pubkey block +:+ PreHash block +:+ MerkleRoot block +:+
  encodeFailedTxs block +:+ le_bytes 8 (CurTerm block) +:+ le_bytes 8 (CurBlockNum block) +:+
  (if (0 <? TargetBits block)%Z then le_bytes 4 (TargetBits block) else "") +:+ encodeJustify block.

Definition MakeBlockID (block : InternalBlock) : string := DoubleSha256 (block_bytes block).

(** ** Formatting and verifying *)

Definition RootBlockVersion : Z := 0.
Definition BlockVersion : Z := 1.

Definition set_id (b : InternalBlock) (id : string) : InternalBlock :=
  mkBlk (Version b) (Nonce b) id (PreHash b) (Proposer b) (BSign b) (Pubkey b) (MerkleRoot b) (Height b) (Timestamp b)
    (Transactions b) (TxCount b) (MerkleTree b) (CurTerm b) (CurBlockNum b) (FailedTxs b) (TargetBits b) (BJustify b) (InTrunk b) (NextHash b).
Definition set_sign (b : InternalBlock) (sg : string) : InternalBlock :=
  mkBlk (Version b) (Nonce b) (Blockid b) (PreHash b) (Proposer b) sg (Pubkey b) (MerkleRoot b) (Height b) (Timestamp b)
    (Transactions b) (TxCount b) (MerkleTree b) (CurTerm b) (CurBlockNum b) (FailedTxs b) (TargetBits b) (BJustify b) (InTrunk b) (NextHash b).
Definition set_txs (b : InternalBlock) (txs : list Transaction) : InternalBlock :=
  mkBlk (Version b) (Nonce b) (Blockid b) (PreHash b) (Proposer b) (BSign b) (Pubkey b) (MerkleRoot b) (Height b) (Timestamp b)
    txs (TxCount b) (MerkleTree b) (CurTerm b) (CurBlockNum b) (FailedTxs b) (TargetBits b) (BJustify b) (InTrunk b) (NextHash b).

Definition FormatRootBlock (txList : list Transaction) : InternalBlock :=
  let tree := MakeMerkleTree txList in
  let block := mkBlk RootBlockVersion 0 "" "" "" "" "" (last_node tree) 0 0 txList (wrap32 (Z.of_nat (length txList))) tree
                 0 0 ∅ 0 None false "" in
  set_id block (MakeBlockID block).

Section Format.
(** The crypto client: the public key of a private key as JSON and back,
    addresses and signatures. *)
Context {SK PK : Type}.
Variable GetEcdsaPublicKeyJsonFormatStr : SK -> outcome string.
Variable GetEcdsaPublicKeyFromJsonStr : string -> outcome PK.
Variable VerifyAddressUsingPublicKey : string -> PK -> bool.
Variable SignECDSA : SK -> string -> outcome string.
Variable VerifyECDSA : PK -> string -> string -> outcome bool.

Definition formatBlock (txList : list Transaction) (proposer : string) (ecdsaPk : SK) (timestamp curTerm curBlockNum : Z)
    (preHash : string) (targetBits : Z) (needSign : bool) (qc : option Justify) (failedTxs : option (gmap string string))
    (blockHeight : Z) : outcome InternalBlock :=
  outcome_bind (GetEcdsaPublicKeyJsonFormatStr ecdsaPk) (fun jsPk =>
  let tree := if needSign then MakeMerkleTree txList else (fun tx => Some (Txid tx)) <$> txList in
  let block := mkBlk BlockVersion 0 "" preHash proposer "" jsPk (last_node tree) blockHeight timestamp txList
                 (wrap32 (Z.of_nat (length txList))) tree curTerm curBlockNum (default ∅ failedTxs) targetBits qc false "" in
  let block := set_id block (MakeBlockID block) in
  if negb (is_empty_string preHash) && needSign then
    outcome_bind (SignECDSA ecdsaPk (Blockid block)) (fun sg => Ret (set_sign block sg))
  else Ret block).

Definition VerifyBlock (block : InternalBlock) : bool :=
  if negb (bool_decide (MakeBlockID block = Blockid block)) then false
  else if negb (is_ret (VerifyMerkle block)) then false
  else
    match GetEcdsaPublicKeyFromJsonStr (Pubkey block) with
    | Ret k =>
        if negb (VerifyAddressUsingPublicKey (Proposer block) k) then false
        else match VerifyECDSA k (BSign block) (Blockid block) with Ret valid => valid | _ => false end
    | _ => false
    end.
End Format.

(** ** The tree, level by level *)

Fixpoint level_up (l : list (option string)) : list (option string) :=
  match l with
  | a :: b :: l' => parent_node a b :: level_up l'
  | _ => []
  end.

(** The reference: the leaves, then every level above them up to the root. *)
Fixpoint levels (d : nat) (l : list (option string)) : list (option string) :=
  match d with
  | O => l
  | S d => l ++ levels d (level_up l)
  end.

Fixpoint merkle_root (d : nat) (l : list (option string)) : option string :=
  match d with
  | O => match l with a :: _ => a | [] => None end
  | S d => merkle_root d (level_up l)
  end.

Lemma length_level_up m : forall l, length l = (2 * m)%nat -> length (level_up l) = m.
Proof.
  induction m as [|m IH]; intros l Hl; [by destruct l|].
  destruct l as [|a [|b l]]; [cbn in Hl; lia..|]. cbn [level_up length]. rewrite IH; [done|]. cbn in Hl. lia.
Qed.

(** The loop as a queue: take two nodes, append the one above them. *)
Fixpoint queue (n : nat) (q : list (option string)) : list (option string) * list (option string) :=
  match n with
  | O => ([], q)
  | S n =>
      match q with
      | a :: b :: q' => let (out, q'') := queue n (q' ++ [parent_node a b]) in (parent_node a b :: out, q'')
      | _ => ([], q)
      end
  end.

Lemma queue_level m : forall l r, length l = (2 * m)%nat -> queue m (l ++ r) = (level_up l, r ++ level_up l).
Proof.
  induction m as [|m IH]; intros l r Hl; [destruct l; [by rewrite app_nil_r|done]|].
  destruct l as [|a [|b l]]; [cbn in Hl; lia..|].
  cbn [queue app level_up]. rewrite <- app_assoc, IH by (cbn in Hl; lia). by rewrite <- app_assoc.
Qed.

Lemma queue_add m n : forall q out q', queue m q = (out, q') -> length out = m ->
  queue (m + n) q = (out ++ (queue n q').1, (queue n q').2).
Proof.
  induction m as [|m IH]; intros q out q' Hq Hl.
  { injection Hq as <- <-. cbn. by destruct (queue n q). }
  cbn [queue Nat.add] in *. destruct q as [|a [|b q]]; [injection Hq as <- <-; done|injection Hq as <- <-; done|].
  destruct (queue m _) as [o1 q1] eqn:E. injection Hq as <- <-. cbn in Hl.
  rewrite (IH _ _ _ E) by lia. done.
Qed.

Lemma pow2_pred d : (2 ^ S d - 1 = 2 ^ d + (2 ^ d - 1))%nat.
Proof. cbn. pose proof (Nat.pow_nonzero 2 d). lia. Qed.

Lemma queue_levels d : forall l, length l = (2 ^ d)%nat ->
  l ++ (queue (2 ^ d - 1) l).1 = levels d l.
Proof.
  induction d as [|d IH]; intros l Hl; [cbn; by rewrite app_nil_r|].
  rewrite pow2_pred. rewrite (queue_add (2 ^ d) (2 ^ d - 1) l (level_up l) (level_up l)).
  - cbn [fst levels]. f_equal. rewrite <- IH; [done|]. apply length_level_up. cbn in Hl. lia.
  - rewrite <- (app_nil_r l) at 1. rewrite queue_level by (cbn in Hl; lia). done.
  - apply length_level_up. cbn in Hl. lia.
Qed.

(** The array after the nodes of [D], and [k] nodes still to come. *)
Lemma merkle_loop_queue L : forall k fuel D i,
  length D = (2 * L - 1 - k)%nat -> (i = 2 * (length D - L))%nat -> (L <= length D)%nat -> (1 <= L)%nat -> (k <= fuel)%nat ->
  merkle_loop fuel (2 * L - 1) i (length D) (D ++ repeat None k) = D ++ (queue k (drop i D)).1.
Proof.
  induction k as [|k IH]; intros fuel D i HD Hi HL H1 Hf.
  { cbn [repeat queue fst]. destruct fuel as [|fuel]; [done|]. cbn [merkle_loop].
    destruct (Nat.ltb_spec i (2 * L - 1 - 1)); [lia|done]. }
  destruct fuel as [|fuel]; [lia|]. cbn [merkle_loop].
  destruct (Nat.ltb_spec i (2 * L - 1 - 1)); [|lia].
  destruct (lookup_lt_is_Some_2 D i) as [a Ha]; [lia|]. destruct (lookup_lt_is_Some_2 D (i + 1)) as [b Hb]; [lia|].
  rewrite !lookup_app_l by lia. rewrite Ha, Hb. cbn [mjoin option_join].
  replace (insert (length D) (parent_node a b) (D ++ repeat None (S k))) with ((D ++ [parent_node a b]) ++ repeat None k).
  2:{ rewrite <- app_assoc. rewrite insert_app_r_alt by lia. by rewrite Nat.sub_diag. }
  replace (length D + 1)%nat with (length (D ++ [parent_node a b])) by (rewrite length_app; done).
  rewrite IH; [|first [lia | rewrite length_app; cbn; lia]..].
  rewrite (drop_S D a i Ha), (drop_S D b (S i)) by (by rewrite <- Nat.add_1_r). cbn [queue].
  rewrite drop_app_le by lia. replace (i + 2)%nat with (S (S i)) by lia.
  destruct (queue k _) as [o q]. cbn [fst]. by rewrite <- app_assoc.
Qed.

Lemma land_pred_pow2 n : (1 <= n)%Z -> (Z.land n (n - 1) = 0)%Z -> n = (2 ^ Z.log2 n)%Z.
Proof.
  intros Hn Hl. destruct (Z.log2_spec n) as [Hlo Hhi]; [lia|]. pose proof (Z.log2_nonneg n).
  destruct (Z.eq_dec n (2 ^ Z.log2 n)) as [|Hne]; [done|]. exfalso.
  assert (Z.log2 (n - 1) = Z.log2 n) as Hk by (apply Z.log2_unique; lia).
  assert (Z.testbit (Z.land n (n - 1)) (Z.log2 n) = true) as Hb.
  { rewrite Z.land_spec. rewrite Z.bit_log2 by lia. rewrite <- Hk. rewrite Z.bit_log2 by (pose proof (Z.pow_pos_nonneg 2 (Z.log2 n)); lia). done. }
  by rewrite Hl, Z.bits_0 in Hb.
Qed.

Lemma Z_pow2_nat k : (0 <= k)%Z -> Z.of_nat (2 ^ Z.to_nat k) = (2 ^ k)%Z.
Proof. intros Hk. by rewrite Nat2Z.inj_pow, Z2Nat.id. Qed.

Lemma getLeafSize_pow2 n : (1 <= n)%nat ->
  exists d, Z.to_nat (getLeafSize (Z.of_nat n)) = (2 ^ d)%nat /\ (n <= 2 ^ d)%nat /\ (2 ^ d < 2 * n)%nat.
Proof.
  intros Hn. unfold getLeafSize. destruct (Z.log2_spec (Z.of_nat n)) as [Hlo Hhi]; [lia|].
  pose proof (Z.log2_nonneg (Z.of_nat n)) as Hk.
  destruct (Z.eqb_spec (Z.land (Z.of_nat n) (Z.of_nat n - 1)) 0) as [Hl|Hl].
  - apply land_pred_pow2 in Hl; [|lia]. exists (Z.to_nat (Z.log2 (Z.of_nat n))).
    pose proof (Z_pow2_nat (Z.log2 (Z.of_nat n)) Hk). rewrite Nat2Z.id. lia.
  - rewrite Z.shiftl_1_l. exists (Z.to_nat (Z.log2 (Z.of_nat n) + 1)).
    pose proof (Z_pow2_nat (Z.log2 (Z.of_nat n) + 1)) as E. rewrite Z.pow_succ_r in Hhi by lia.
    rewrite Z.pow_add_r in * by lia. change (2 ^ 1)%Z with 2%Z in *.
    assert (Z.of_nat n <> 2 ^ Z.log2 (Z.of_nat n))%Z as Hne.
    { intros En. apply Hl. rewrite En. apply Z.bits_inj'. intros i Hi. rewrite Z.land_spec, Z.bits_0.
      rewrite Z.sub_1_r, <- Z.ones_equiv.
      rewrite Z.pow2_bits_eqb by done. destruct (Z.eqb_spec (Z.log2 (Z.of_nat n)) i) as [<-|]; [|done].
      rewrite Z.ones_spec_high by lia. done. }
    split_and!; [|lia..]. rewrite <- (Nat2Z.id (2 ^ _)). f_equal. rewrite E by lia. lia.
Qed.

Lemma length_levels d : forall l, length l = (2 ^ d)%nat -> length (levels d l) = (2 * 2 ^ d - 1)%nat.
Proof.
  induction d as [|d IH]; intros l Hl; [cbn in *; lia|]. cbn [levels]. rewrite length_app, IH, Hl by (apply length_level_up; cbn in Hl; lia).
  cbn. pose proof (Nat.pow_nonzero 2 d). lia.
Qed.

Lemma last_app_nonempty {A} (l1 l2 : list A) (a : A) : l2 <> [] -> List.last (l1 ++ l2) a = List.last l2 a.
Proof.
  intros Hne. induction l1 as [|x l1 IH]; [done|]. cbn [app List.last]. rewrite IH.
  destruct (l1 ++ l2) eqn:E; [|done]. apply app_eq_nil in E as [_ ->]. done.
Qed.

Lemma last_levels d : forall l, length l = (2 ^ d)%nat -> List.last (levels d l) None = merkle_root d l.
Proof.
  induction d as [|d IH]; intros l Hl.
  { destruct l as [|a [|]]; done. }
  cbn [levels merkle_root]. assert (length (level_up l) = (2 ^ d)%nat) as Hu by (apply length_level_up; cbn in Hl; lia).
  rewrite last_app_nonempty; [by apply IH|]. intros E. apply (f_equal length) in E. rewrite length_levels in E by done.
  cbn in E. pose proof (Nat.pow_nonzero 2 d). lia.
Qed.

(** A level: nodes on the left, the rest empty. *)
Definition level (vs : list string) (k : nat) : list (option string) := (Some <$> vs) ++ repeat None k.

Definition txids32 (txs : list Transaction) : list string := (fun tx => copy_into 32 (Txid tx)) <$> txs.

Lemma MakeMerkleTree_levels txs : txs <> [] ->
  exists d, (length txs <= 2 ^ d)%nat /\ (2 ^ d < 2 * length txs)%nat /\
    MakeMerkleTree txs = levels d (level (txids32 txs) (2 ^ d - length txs)).
Proof.
  intros Hne. unfold MakeMerkleTree. assert (1 <= length txs)%nat by (destruct txs; [done|cbn; lia]).
  destruct (Nat.eqb_spec (length txs) 0); [lia|].
  destruct (getLeafSize_pow2 (length txs)) as (d & -> & Hle & Hlt); [done|]. exists d. split_and!; [done..|].
  set (l := level (txids32 txs) (2 ^ d - length txs)).
  assert (length l = (2 ^ d)%nat) as Hl.
  { unfold l, level, txids32. rewrite length_app, !length_fmap, repeat_length. lia. }
  replace (_ ++ repeat None (2 ^ d * 2 - 1 - length txs)) with (l ++ repeat None (2 ^ d - 1)).
  2:{ unfold l, level, txids32. rewrite <- list_fmap_compose, <- app_assoc. f_equal. rewrite <- repeat_app. f_equal. lia. }
  pose proof (merkle_loop_queue (2 ^ d) (2 ^ d - 1) (2 * 2 ^ d - 1) l 0) as Hloop. rewrite Hl in Hloop.
  rewrite (Nat.mul_comm (2 ^ d) 2), Hloop by (pose proof (Nat.pow_nonzero 2 d); lia). by apply queue_levels.
Qed.

(** The level above: neighbours paired, the last one with itself when it has
    none. *)
Fixpoint pairs (l : list string) : list string :=
  match l with
  | [] => []
  | [a] => [merkleDoubleSha256 a a]
  | a :: b :: l' => merkleDoubleSha256 a b :: pairs l'
  end.

Lemma list_ind2 {A} (P : list A -> Prop) :
  P [] -> (forall a, P [a]) -> (forall a b l, P l -> P (a :: b :: l)) -> forall l, P l.
Proof. intros H0 H1 H2. fix IH 1. intros [|a [|b l]]; [done|apply H1|apply H2, IH]. Qed.

Lemma level_up_repeat m : level_up (repeat None (2 * m)) = repeat None m.
Proof. induction m as [|m IH]; [done|]. replace (2 * S m)%nat with (S (S (2 * m))) by lia. cbn [repeat level_up parent_node]. by rewrite IH. Qed.

Lemma level_up_level vs : forall k m, (length vs + k = 2 * m)%nat ->
  level_up (level vs k) = level (pairs vs) (m - length (pairs vs)) /\ (length (pairs vs) <= m)%nat.
Proof.
  unfold level. induction vs as [|a|a b vs IH] using list_ind2; intros k m Hm.
  - cbn [length Nat.add] in Hm. subst k. cbn [fmap list_fmap app pairs length]. rewrite level_up_repeat, Nat.sub_0_r. split; [done|lia].
  - destruct k as [|k]; [cbn in Hm; lia|]. cbn [length] in Hm. destruct m as [|m]; [lia|].
    cbn. replace k with (2 * m)%nat by lia. rewrite level_up_repeat, Nat.sub_0_r. split; [done|lia].
  - cbn [length] in Hm. destruct m as [|m]; [lia|]. destruct (IH k m) as [E Hle]; [lia|].
    cbn. rewrite E. split; [done|lia].
Qed.

(** These two texts break SHA-256. *)
Definition collides (x y : string) : Prop := x <> y /\ UsingSha256 x = UsingSha256 y.
(** These two texts, or their digests, do: hashed twice they give the same. *)
Definition clash (x y : string) : Prop := collides x y \/ collides (UsingSha256 x) (UsingSha256 y).

Lemma DoubleSha256_inj x y : DoubleSha256 x = DoubleSha256 y -> x = y \/ clash x y.
Proof.
  unfold DoubleSha256. intros E. destruct (decide (x = y)); [by left|]. right.
  destruct (decide (UsingSha256 x = UsingSha256 y)); [by left|by right].
Qed.

Lemma string_app_inj (a b c d : string) : String.length a = String.length c -> a +:+ b = c +:+ d -> a = c /\ b = d.
Proof.
  revert c. induction a as [|x a IH]; intros [|y c] Hl; try done. rewrite !app_String. intros [= -> E].
  destruct (IH c) as [-> ->]; [by injection Hl|done|]. done.
Qed.

Definition is32 (s : string) : Prop := String.length s = 32%nat.

Lemma length_copy_into n : forall s, String.length (copy_into n s) = n.
Proof. induction n as [|n IH]; intros s; [done|]. destruct s; cbn; by rewrite IH. Qed.

Lemma copy_into_exact n : forall s, String.length s = n -> copy_into n s = s.
Proof. induction n as [|n IH]; intros [|c s] Hs; try done. cbn. rewrite IH; [done|]. by injection Hs. Qed.

(** The texts hashed on one level of the tree, and on all of them. *)
Fixpoint joined (vs : list string) : list string :=
  match vs with
  | [] => []
  | [a] => [a +:+ a]
  | a :: b :: vs => (a +:+ b) :: joined vs
  end.
Fixpoint node_texts (d : nat) (vs : list string) : list string :=
  match d with O => [] | S d => joined vs ++ node_texts d (pairs vs) end.

(** Of these texts one here and one there break the hash. *)
Definition clash_among (l1 l2 : list string) : Prop := exists x y, x ∈ l1 /\ y ∈ l2 /\ clash x y.

Lemma clash_among_mono l1 l2 k1 k2 : l1 ⊆ k1 -> l2 ⊆ k2 -> clash_among l1 l2 -> clash_among k1 k2.
Proof. intros H1 H2 (x & y & ? & ? & ?). exists x, y. split_and!; [by apply H1|by apply H2|done]. Qed.

Lemma pairs_inj vs : forall ws, length vs = length ws -> Forall is32 vs -> Forall is32 ws ->
  pairs vs = pairs ws -> vs = ws \/ clash_among (joined vs) (joined ws).
Proof.
  induction vs as [|a|a b vs IH] using list_ind2; intros ws Hl Hv Hw.
  - destruct ws; [by left|done].
  - destruct ws as [|a' [|]]; try done. cbn. intros [= E]. apply Forall_cons in Hv as [Ha _], Hw as [Ha' _].
    apply DoubleSha256_inj in E as [E|Hc]; [left|right; do 2 eexists; split_and!; [left..|exact Hc]].
    apply string_app_inj in E as [-> _]; [done|congruence].
  - destruct ws as [|a' [|b' ws]]; try done. cbn. intros [= E Er].
    apply Forall_cons in Hv as [Ha Hv], Hw as [Ha' Hw]. apply Forall_cons in Hv as [Hb Hv], Hw as [Hb' Hw].
    destruct (IH ws) as [->|Hc]; try done; [by injection Hl| |right; eapply clash_among_mono; [| |exact Hc]; set_solver].
    apply DoubleSha256_inj in E as [E|Hc]; [left|right; do 2 eexists; split_and!; [left..|exact Hc]].
    apply string_app_inj in E as [-> ->]; [done|congruence].
Qed.

Lemma pairs_is32 vs : Forall is32 (pairs vs).
Proof. induction vs as [|a|a b vs IH] using list_ind2; cbn; repeat constructor; try apply length_DoubleSha256. done. Qed.

Lemma length_pairs vs : forall ws, length vs = length ws -> length (pairs vs) = length (pairs ws).
Proof.
  induction vs as [|a|a b vs IH] using list_ind2; intros [|a' [|b' ws]] Hl; try done. cbn. f_equal. apply IH. by injection Hl.
Qed.

Lemma pairs_nonempty vs : vs <> [] -> pairs vs <> [].
Proof. destruct vs as [|a [|b vs]]; done. Qed.

Lemma merkle_root_some d : forall vs k, vs <> [] -> (length vs + k = 2 ^ d)%nat -> is_Some (merkle_root d (level vs k)).
Proof.
  induction d as [|d IH]; intros vs k Hne Hl; cbn [merkle_root].
  - destruct vs; [done|]. by eexists.
  - destruct (level_up_level vs k (2 ^ d)) as [-> Hle]; [cbn in Hl; lia|]. apply IH; [by apply pairs_nonempty|lia].
Qed.

Lemma merkle_root_binds_level d : forall vs ws k, vs <> [] -> length vs = length ws -> (length vs + k = 2 ^ d)%nat ->
  Forall is32 vs -> Forall is32 ws -> merkle_root d (level vs k) = merkle_root d (level ws k) ->
  vs = ws \/ clash_among (node_texts d vs) (node_texts d ws).
Proof.
  induction d as [|d IH]; intros vs ws k Hne Hl Hk Hv Hw.
  - cbn in Hk. destruct vs as [|a [|]]; [done| |cbn in Hk; lia]. destruct ws as [|b [|]]; try done. cbn. intros [= ->]. by left.
  - cbn [merkle_root]. destruct (level_up_level vs k (2 ^ d)) as [-> Hle]; [cbn in Hk; lia|].
    destruct (level_up_level ws k (2 ^ d)) as [-> Hle']; [rewrite <- Hl; cbn in Hk; lia|].
    rewrite <- (length_pairs _ _ Hl). intros E.
    cbn [node_texts]. apply IH in E as [E|Hc]; [| |by apply pairs_nonempty|by apply length_pairs|lia|apply pairs_is32..].
    + apply pairs_inj in E as [->|Hc]; [by left|right|done..]. eapply clash_among_mono; [| |exact Hc]; set_solver.
    + right. eapply clash_among_mono; [| |exact Hc]; set_solver.
Qed.

(** ** What the tree and the identifier promise *)

(** The flat array built by the loop is the Merkle tree of the
    transactions: for n transactions it has 2L-1 nodes, L the least power of
    two that is at least n, the first n nodes are the transaction ids, and it
    lists the levels one after the other, each node the double hash of its two
    children (of its left child twice when there is no right one), ending with
    the root. *)
Theorem merkle_tree_correct txs : txs <> [] ->
  exists d root, (length txs <= 2 ^ d)%nat /\ (2 ^ d < 2 * length txs)%nat /\
    MakeMerkleTree txs = levels d (level (txids32 txs) (2 ^ d - length txs)) /\
    length (MakeMerkleTree txs) = (2 * 2 ^ d - 1)%nat /\
    take (length txs) (MakeMerkleTree txs) = Some <$> txids32 txs /\
    merkle_root d (level (txids32 txs) (2 ^ d - length txs)) = Some root /\
    last_node (MakeMerkleTree txs) = root.
Proof.
  intros Hne. destruct (MakeMerkleTree_levels txs Hne) as (d & Hle & Hlt & E).
  set (l := level _ _) in E. assert (length (txids32 txs) = length txs) as Hlen by apply length_fmap.
  assert (length l = (2 ^ d)%nat) as Hl by (unfold l, level; rewrite length_app, length_fmap, repeat_length, Hlen; lia).
  destruct (merkle_root_some d (txids32 txs) (2 ^ d - length txs)) as [r Hr]; [by destruct txs|rewrite Hlen; lia|].
  exists d, r. rewrite E. split_and!; try done.
  - by apply length_levels.
  - assert (exists rest, levels d l = l ++ rest) as [rest ->] by (destruct d; [exists []; by rewrite app_nil_r|by eexists]).
    unfold l, level. rewrite <- !app_assoc. rewrite take_app_le by (rewrite length_fmap, Hlen; done).
    rewrite take_ge; [done|]. rewrite length_fmap, Hlen. done.
  - unfold last_node. rewrite last_levels by done. fold l in Hr. by rewrite Hr.
Qed.

Lemma pow2_unique d1 d2 n : (n <= 2 ^ d1)%nat -> (2 ^ d1 < 2 * n)%nat -> (n <= 2 ^ d2)%nat -> (2 ^ d2 < 2 * n)%nat -> d1 = d2.
Proof.
  intros H1 H2 H3 H4. destruct (Nat.lt_trichotomy d1 d2) as [H|[H|H]]; [exfalso|done|exfalso].
  - pose proof (Nat.pow_le_mono_r 2 (S d1) d2 ltac:(lia) ltac:(lia)) as Hp. cbn in Hp. lia.
  - pose proof (Nat.pow_le_mono_r 2 (S d2) d1 ltac:(lia) ltac:(lia)) as Hp. cbn in Hp. lia.
Qed.

Lemma VerifyMerkle_ret b : VerifyMerkle b = Ret tt -> Transactions b <> [] /\ last_node (MakeMerkleTree (Transactions b)) = MerkleRoot b.
Proof.
  unfold VerifyMerkle. destruct (Nat.eqb_spec (length (MakeMerkleTree (Transactions b))) 0) as [|Hn]; [done|].
  case_bool_decide as E; [|done]. intros _. split; [|done]. by intros Ht; rewrite Ht in Hn.
Qed.

Lemma VerifyMerkle_intro b : Transactions b <> [] -> last_node (MakeMerkleTree (Transactions b)) = MerkleRoot b -> VerifyMerkle b = Ret tt.
Proof.
  intros Hne E. destruct (MakeMerkleTree_levels _ Hne) as (d & Hle & Hlt & Et). unfold VerifyMerkle.
  destruct (Nat.eqb_spec (length (MakeMerkleTree (Transactions b))) 0) as [H0|]; [|by rewrite bool_decide_eq_true_2].
  rewrite Et, length_levels in H0; [pose proof (Nat.pow_nonzero 2 d); lia|].
  unfold level, txids32. rewrite length_app, !length_fmap, repeat_length. lia.
Qed.

(** A Merkle root commits to the transactions.  Two blocks that pass
    [VerifyMerkle] with the same root and the same number of transactions list
    the same transaction ids in the same order, or among the texts hashed on the
    [d] levels of the two trees there are two that break SHA-256. *)
Theorem merkle_root_binds b1 b2 d :
  (length (Transactions b1) <= 2 ^ d)%nat -> (2 ^ d < 2 * length (Transactions b1))%nat ->
  VerifyMerkle b1 = Ret tt -> VerifyMerkle b2 = Ret tt -> MerkleRoot b1 = MerkleRoot b2 ->
  length (Transactions b1) = length (Transactions b2) ->
  Forall (fun tx => is32 (Txid tx)) (Transactions b1) -> Forall (fun tx => is32 (Txid tx)) (Transactions b2) ->
  Txid <$> Transactions b1 = Txid <$> Transactions b2 \/
  clash_among (node_texts d (Txid <$> Transactions b1)) (node_texts d (Txid <$> Transactions b2)).
Proof.
  intros Hd1 Hd2 [Hn1 E1]%VerifyMerkle_ret [Hn2 E2]%VerifyMerkle_ret Hr Hlen H1 H2.
  assert (forall txs, Forall (fun tx => is32 (Txid tx)) txs -> txids32 txs = Txid <$> txs) as Hids.
  { intros txs Hf. apply list_fmap_ext. intros i tx Hi. apply copy_into_exact. by eapply (proj1 (Forall_lookup _ _) Hf). }
  assert (forall txs : list Transaction, Forall is32 (txids32 txs)) as H32.
  { intros txs. apply Forall_forall. intros x (tx & -> & _)%list_elem_of_fmap. apply length_copy_into. }
  destruct (MakeMerkleTree_levels _ Hn1) as (d1 & Hle1 & Hlt1 & T1). destruct (MakeMerkleTree_levels _ Hn2) as (d' & Hle' & Hlt' & T2).
  rewrite <- Hlen in *. rewrite (pow2_unique d' d _ Hle' Hlt' Hd1 Hd2) in T2. rewrite (pow2_unique d1 d _ Hle1 Hlt1 Hd1 Hd2) in T1.
  assert (forall txs, length txs = length (Transactions b1) -> length (level (txids32 txs) (2 ^ d - length (Transactions b1))) = (2 ^ d)%nat) as Hlv.
  { intros txs Ht. unfold level, txids32. rewrite length_app, !length_fmap, repeat_length. lia. }
  rewrite <- E1, <- E2, T1, T2 in Hr. unfold last_node in Hr. rewrite !last_levels in Hr by auto.
  destruct (merkle_root_some d (txids32 (Transactions b1)) (2 ^ d - length (Transactions b1))) as [r1 R1];
    [by destruct (Transactions b1)|unfold txids32; rewrite length_fmap; lia|].
  destruct (merkle_root_some d (txids32 (Transactions b2)) (2 ^ d - length (Transactions b1))) as [r2 R2];
    [by destruct (Transactions b2)|unfold txids32; rewrite length_fmap; lia|].
  rewrite R1, R2 in Hr. cbn in Hr. subst r2. rewrite <- (Hids _ H1), <- (Hids _ H2).
  eapply (merkle_root_binds_level d _ _ (2 ^ d - length (Transactions b1))); auto.
  - by destruct (Transactions b1).
  - unfold txids32. rewrite !length_fmap. done.
  - unfold txids32. rewrite length_fmap. lia.
  - congruence.
Qed.

Lemma pairs_padded l x : forall m, length l = (2 * m)%nat -> pairs (l ++ [x; x]) = pairs (l ++ [x]).
Proof.
  induction l as [|a|a b l IH] using list_ind2; intros m Hm; [done|cbn in Hm; lia|].
  destruct m as [|m]; [done|]. cbn. f_equal. apply (IH m). cbn in Hm. lia.
Qed.

(** An odd number of transactions, more than one, and the last one repeated. *)
Lemma merkle_padded txs tx m : length txs = (2 * m)%nat -> (1 <= m)%nat ->
  last_node (MakeMerkleTree (txs ++ [tx; tx])) = last_node (MakeMerkleTree (txs ++ [tx])).
Proof.
  intros Hlen Hm.
  destruct (MakeMerkleTree_levels (txs ++ [tx])) as (d & Hle & Hlt & T1); [by destruct txs|].
  destruct (MakeMerkleTree_levels (txs ++ [tx; tx])) as (d' & Hle' & Hlt' & T2); [by destruct txs|].
  rewrite !length_app in *. cbn [length] in *. rewrite Hlen in *.
  destruct d as [|d]; [cbn in Hle; lia|]. cbn [Nat.pow] in *.
  assert (d' = S d) as ->. { apply (pow2_unique d' (S d) (2 * m + 2)); cbn [Nat.pow]; lia. } cbn [Nat.pow] in *.
  rewrite T1, T2. unfold last_node. rewrite !last_levels by (unfold level, txids32; rewrite length_app, !length_fmap, repeat_length, length_app; cbn [length Nat.pow]; lia).
  cbn [merkle_root]. f_equal. f_equal.
  destruct (level_up_level (txids32 (txs ++ [tx])) (2 * 2 ^ d - (2 * m + 1)) (2 ^ d)) as [E1 _].
  { unfold txids32. rewrite length_fmap, length_app. cbn [length]. lia. }
  destruct (level_up_level (txids32 (txs ++ [tx; tx])) (2 * 2 ^ d - (2 * m + 2)) (2 ^ d)) as [E2 _].
  { unfold txids32. rewrite length_fmap, length_app. cbn [length]. lia. }
  etransitivity; [exact E2|]. etransitivity; [|symmetry; exact E1].
  assert (pairs (txids32 (txs ++ [tx; tx])) = pairs (txids32 (txs ++ [tx]))) as ->; [|done].
  unfold txids32. rewrite !fmap_app. apply (pairs_padded _ _ m). by rewrite length_fmap.
Qed.

Section Verify.
Context {SK PK : Type}.
Variable GetEcdsaPublicKeyJsonFormatStr : SK -> outcome string.
Variable GetEcdsaPublicKeyFromJsonStr : string -> outcome PK.
Variable VerifyAddressUsingPublicKey : string -> PK -> bool.
Variable SignECDSA : SK -> string -> outcome string.
Variable VerifyECDSA : PK -> string -> string -> outcome bool.

(** What the crypto client promises for a key: its public key survives the
    JSON form, and what it signs verifies. *)
Definition key_ok (sk : SK) (pk : PK) : Prop :=
  (forall js, GetEcdsaPublicKeyJsonFormatStr sk = Ret js -> GetEcdsaPublicKeyFromJsonStr js = Ret pk) /\
  (forall msg sg, SignECDSA sk msg = Ret sg -> VerifyECDSA pk sg msg = Ret true).

(** What the miner formats, every node verifies: a signed block on top of
    another one, with at least one transaction and proposed under the address
    of the signing key, passes [VerifyBlock]. *)
Theorem formatted_block_verifies sk pk txs proposer ts term num pre bits qc failed h b :
  key_ok sk pk -> VerifyAddressUsingPublicKey proposer pk = true -> txs <> [] -> is_empty_string pre = false ->
  formatBlock GetEcdsaPublicKeyJsonFormatStr SignECDSA txs proposer sk ts term num pre bits true qc failed h = Ret b ->
  VerifyBlock GetEcdsaPublicKeyFromJsonStr VerifyAddressUsingPublicKey VerifyECDSA b = true /\ PreHash b = pre /\ Transactions b = txs /\ Height b = h.
Proof.
  intros [Hjs Hsg] Haddr Hne Hpre. unfold formatBlock.
  destruct (GetEcdsaPublicKeyJsonFormatStr sk) as [js|e|] eqn:Ejs; [|done..]. cbn [outcome_bind]. rewrite Hpre. cbn [negb andb].
  destruct (SignECDSA sk _) as [sg|e|] eqn:Esg; [|done..]. cbn [outcome_bind]. intros [= <-].
  apply Hsg in Esg. cbn [Blockid set_id] in Esg. split_and!; [|done..].
  unfold VerifyBlock. rewrite bool_decide_eq_true_2 by done. cbn [negb].
  rewrite VerifyMerkle_intro; [|done|done]. cbn [is_ret negb Pubkey set_sign set_id Proposer BSign Blockid].
  rewrite (Hjs _ eq_refl), Haddr. cbn [negb]. by rewrite Esg.
Qed.

(** The list of transactions of a verified block can be padded: a block with
    an odd number of transactions, more than one, verifies just as well with
    its last transaction repeated, because neither the Merkle root nor the
    identifier changes and the count the identifier covers is not compared
    with the list. *)
Theorem padded_block_verifies b txs tx m :
  Transactions b = txs ++ [tx] -> length txs = (2 * m)%nat -> (1 <= m)%nat ->
  VerifyBlock GetEcdsaPublicKeyFromJsonStr VerifyAddressUsingPublicKey VerifyECDSA b = true ->
  VerifyBlock GetEcdsaPublicKeyFromJsonStr VerifyAddressUsingPublicKey VerifyECDSA (set_txs b (txs ++ [tx; tx])) = true.
Proof.
  intros Ht Hlen Hm. unfold VerifyBlock. change (MakeBlockID (set_txs _ _)) with (MakeBlockID b).
  cbn [Blockid set_txs Pubkey Proposer BSign]. case_bool_decide; cbn [negb]; [|done].
  destruct (VerifyMerkle b) as [[]|e|] eqn:E; [|done..]. apply VerifyMerkle_ret in E as [_ E].
  rewrite VerifyMerkle_intro; [done|by destruct txs|]. cbn [Transactions set_txs MerkleRoot].
  rewrite (merkle_padded _ _ m Hlen Hm), <- E, Ht. done.
Qed.
End Verify.

Lemma length_le_bytes n : forall z, String.length (le_bytes n z) = n.
Proof. induction n as [|n IH]; intros z; [done|]. cbn. by rewrite IH. Qed.

Lemma byte_char_inj x y : (0 <= x < 256)%Z -> (0 <= y < 256)%Z -> byte_char x = byte_char y -> x = y.
Proof.
  intros Hx Hy E. unfold byte_char in E. apply (f_equal nat_of_ascii) in E.
  rewrite !nat_ascii_embedding in E by lia. lia.
Qed.

Lemma le_bytes_inj n : forall x y, (- 2 ^ (8 * Z.of_nat n - 1) <= x < 2 ^ (8 * Z.of_nat n - 1))%Z ->
  (- 2 ^ (8 * Z.of_nat n - 1) <= y < 2 ^ (8 * Z.of_nat n - 1))%Z -> (1 <= n)%nat -> le_bytes n x = le_bytes n y -> x = y.
Proof.
  induction n as [|[|n] IH]; intros x y Hx Hy Hn; [lia| |].
  - cbn [le_bytes]. intros [= E]. change (8 * Z.of_nat 1 - 1)%Z with 7%Z in *.
    apply byte_char_inj in E; [|apply Z.mod_pos_bound; lia..].
    pose proof (Z.div_mod x 256). pose proof (Z.div_mod y 256).
    assert (x / 256 = if x <? 0 then -1 else 0)%Z by (destruct (Z.ltb_spec x 0); symmetry; apply Z.div_unique with (if x <? 0 then x + 256 else x)%Z; destruct (Z.ltb_spec x 0); lia).
    assert (y / 256 = if y <? 0 then -1 else 0)%Z by (destruct (Z.ltb_spec y 0); symmetry; apply Z.div_unique with (if y <? 0 then y + 256 else y)%Z; destruct (Z.ltb_spec y 0); lia).
    destruct (Z.ltb_spec x 0), (Z.ltb_spec y 0); try lia.
    all: change (2 ^ 7)%Z with 128%Z in *; lia.
  - intros E. change (String (byte_char (x mod 256)) (le_bytes (S n) (x / 256)) = String (byte_char (y mod 256)) (le_bytes (S n) (y / 256))) in E.
    assert (le_bytes (S n) (x / 256) = le_bytes (S n) (y / 256)) as E' by congruence.
    assert (byte_char (x mod 256) = byte_char (y mod 256)) as E0 by congruence. clear E. apply byte_char_inj in E0; [|apply Z.mod_pos_bound; lia..].
    assert (2 ^ (8 * Z.of_nat (S (S n)) - 1) = 256 * 2 ^ (8 * Z.of_nat (S n) - 1))%Z as Ep.
    { replace (8 * Z.of_nat (S (S n)) - 1)%Z with (8 + (8 * Z.of_nat (S n) - 1))%Z by lia. rewrite Z.pow_add_r by lia. done. }
    rewrite Ep in *. pose proof (Z.div_mod x 256). pose proof (Z.div_mod y 256).
    assert (x / 256 = y / 256)%Z; [|lia]. apply IH; [..|lia|exact E'].
    all: split; [apply Z.div_le_lower_bound; lia|apply Z.div_lt_upper_bound; lia].
Qed.

Definition header_ok (b : InternalBlock) : Prop :=
  is_int32 (Version b) /\ is_int32 (Nonce b) /\ is_int32 (TxCount b) /\ is_int64 (Timestamp b) /\ is_int64 (CurTerm b) /\ is_int64 (CurBlockNum b).

(** Same lengths of the fields that are written without one. *)
Definition same_layout (a b : InternalBlock) : Prop :=
  String.length (Proposer a) = String.length (Proposer b) /\ String.length (Pubkey a) = String.length (Pubkey b) /\
  String.length (PreHash a) = String.length (PreHash b) /\ String.length (MerkleRoot a) = String.length (MerkleRoot b) /\
  String.length (encodeFailedTxs a) = String.length (encodeFailedTxs b).

(** A block identifier commits to the header.  Two blocks with the same
    identifier whose variable-length fields have the same lengths agree on
    version, nonce, transaction count, proposer, time, public key, previous
    block, Merkle root, term and block number, or the two texts that are hashed
    break SHA-256. *)
Theorem block_id_binds a b :
  header_ok a -> header_ok b -> same_layout a b -> MakeBlockID a = MakeBlockID b ->
  clash (block_bytes a) (block_bytes b) \/
  (Version a = Version b /\ Nonce a = Nonce b /\ TxCount a = TxCount b /\ Proposer a = Proposer b /\
   Timestamp a = Timestamp b /\ Pubkey a = Pubkey b /\ PreHash a = PreHash b /\ MerkleRoot a = MerkleRoot b /\
   encodeFailedTxs a = encodeFailedTxs b /\ CurTerm a = CurTerm b /\ CurBlockNum a = CurBlockNum b).
Proof.
  intros (V1 & N1 & C1 & T1 & M1 & B1) (V2 & N2 & C2 & T2 & M2 & B2) (L1 & L2 & L3 & L4 & L5) E.
  apply DoubleSha256_inj in E as [E|]; [right|by left]. unfold block_bytes in E.
  repeat (apply string_app_inj in E as [? E]; [|by rewrite ?length_le_bytes]).
  unfold is_int32, int32_min, int32_max, is_int64, int64_min, int64_max in *.
  split_and!; try done.
  all: eapply le_bytes_inj; [| | |eassumption]; lia.
Qed.

(** The identifier does not cover the ids of the failed transactions, nor where
    the public key ends and the previous block begins. *)
Lemma block_id_ignores_failed_ids b t1 t2 err :
  MakeBlockID (mkBlk (Version b) (Nonce b) (Blockid b) (PreHash b) (Proposer b) (BSign b) (Pubkey b) (MerkleRoot b) (Height b) (Timestamp b)
    (Transactions b) (TxCount b) (MerkleTree b) (CurTerm b) (CurBlockNum b) {[ t1 := err ]} (TargetBits b) (BJustify b) (InTrunk b) (NextHash b)) =
  MakeBlockID (mkBlk (Version b) (Nonce b) (Blockid b) (PreHash b) (Proposer b) (BSign b) (Pubkey b) (MerkleRoot b) (Height b) (Timestamp b)
    (Transactions b) (TxCount b) (MerkleTree b) (CurTerm b) (CurBlockNum b) {[ t2 := err ]} (TargetBits b) (BJustify b) (InTrunk b) (NextHash b)).
Proof. unfold MakeBlockID, block_bytes, encodeFailedTxs. cbn [FailedTxs]. by rewrite !map_to_list_singleton. Qed.

(** ** Examples *)

Module HashExample.
Definition tx (c : ascii) : Transaction :=
  mkTx (copy_into 32 (String c "")) "" false false "" [] [] [] [] None.
Definition txs3 : list Transaction := [tx "a"; tx "b"; tx "c"].

(** A scheme in which a message signs itself. *)
Definition toJson (_ : unit) : outcome string := Ret "key".
Definition fromJson (_ : string) : outcome unit := Ret tt.
Definition addressOf (a : string) (_ : unit) : bool := bool_decide (a = "miner").
Definition sign (_ : unit) (msg : string) : outcome string := Ret msg.
Definition verifySig (_ : unit) (sg msg : string) : outcome bool := Ret (bool_decide (sg = msg)).

Lemma key_fine : key_ok toJson fromJson sign verifySig tt tt.
Proof. split; [done|]. intros msg sg [= ->]. unfold verifySig. by rewrite bool_decide_eq_true_2. Qed.

Definition block (pre : string) : InternalBlock :=
  match formatBlock toJson sign txs3 "miner" tt 5 1 2 pre 0 true None None 7 with Ret b => b | _ => FormatRootBlock [] end.
End HashExample.

Lemma merkle_tree_correct_witness :
  exists root, last_node (MakeMerkleTree HashExample.txs3) = root /\ length (MakeMerkleTree HashExample.txs3) = 7%nat.
Proof.
  destruct (merkle_tree_correct HashExample.txs3) as (d & root & _ & _ & _ & _ & _ & _ & H); [discriminate|].
  exists root. split; [exact H|vm_compute; reflexivity].
Defined.

Lemma merkle_root_binds_witness :
  Txid <$> Transactions (HashExample.block "p") = Txid <$> Transactions (HashExample.block "q") \/
  clash_among (node_texts 2 (Txid <$> Transactions (HashExample.block "p"))) (node_texts 2 (Txid <$> Transactions (HashExample.block "q"))).
Proof.
  apply (merkle_root_binds (HashExample.block "p") (HashExample.block "q") 2).
  - vm_compute. lia.
  - vm_compute. lia.
  - vm_compute. reflexivity.
  - vm_compute. reflexivity.
  - vm_compute. reflexivity.
  - vm_compute. reflexivity.
  - vm_compute. repeat constructor.
  - vm_compute. repeat constructor.
Defined.

Lemma formatted_block_verifies_witness :
  VerifyBlock HashExample.fromJson HashExample.addressOf HashExample.verifySig (HashExample.block "p") = true.
Proof.
  apply (formatted_block_verifies HashExample.toJson HashExample.fromJson HashExample.addressOf HashExample.sign HashExample.verifySig
    tt tt HashExample.txs3 "miner" 5 1 2 "p" 0 None None 7 (HashExample.block "p")).
  - exact HashExample.key_fine.
  - vm_compute. reflexivity.
  - discriminate.
  - vm_compute. reflexivity.
  - vm_compute. reflexivity.
Defined.

Lemma padded_block_verifies_witness :
  VerifyBlock HashExample.fromJson HashExample.addressOf HashExample.verifySig
    (set_txs (HashExample.block "p") [HashExample.tx "a"; HashExample.tx "b"; HashExample.tx "c"; HashExample.tx "c"]) = true.
Proof.
  apply (padded_block_verifies HashExample.fromJson HashExample.addressOf HashExample.verifySig (HashExample.block "p")
    [HashExample.tx "a"; HashExample.tx "b"] (HashExample.tx "c") 1).
  - vm_compute. reflexivity.
  - vm_compute. reflexivity.
  - lia.
  - vm_compute. reflexivity.
Defined.

Lemma block_id_binds_witness :
  clash (block_bytes (HashExample.block "p")) (block_bytes (set_txs (HashExample.block "p") [])) \/ PreHash (HashExample.block "p") = PreHash (set_txs (HashExample.block "p") []).
Proof.
  destruct (block_id_binds (HashExample.block "p") (set_txs (HashExample.block "p") [])) as [H|H].
  - repeat split; vm_compute; discriminate.
  - repeat split; vm_compute; discriminate.
  - vm_compute. repeat split.
  - vm_compute. reflexivity.
  - left. exact H.
  - right. apply H.
Defined.
