(* ===== verification/Ledger.v ===== *)
(** * The ledger

    [bcs/ledger/xledger/ledger/ledger.go] and [branch_manage.go]: the block
    tree with its trunk, the tables kept in the key-value store, the caches in
    front of them, and the operations that confirm, switch, query and truncate.

    The store is one map per table (the key prefixes differ, so tables never
    overlap); protobuf encoding is not represented.  Writes go to a batch that
    is applied at once; whether the store accepts it is an argument.  Reading
    a key that is there never fails.  The caches are those of the code, with
    their eviction; they hold what was put in them, also when the batch that
    should have stored it was dropped. *)

From Stdlib Require Import ZArith Lia Ascii.
From stdpp Require Import base gmap strings list numbers sorting.
From S2P Require Import Prelude GoValues LruCache LedgerHash.

Set Default Proof Using "Type".

Definition ErrBlockNotExist : string := "block not exist in this chain".
Definition ErrTxNotFound : string := "transaction not found".
Definition ErrTxDuplicated : string := "transaction duplicated in different blocks".
Definition ErrRootBlockAlreadyExist : string := "this ledger already has genesis block".
Definition ErrTxNotConfirmed : string := "transaction not confirmed".
Definition ErrKVNotFound : string := "Key not found".
Definition ErrBatchWrite : string := "batch write failed".

(** Never set by the code. *)
Definition DisableTxDedup : bool := false.

Definition BlockCacheSize : Z := 1000.
Definition TxCacheSize : Z := 100000.

Record LedgerMeta := mkMeta { RootBlockid : string; TipBlockid : string; TrunkHeight : Z }.

(** A write of a batch. *)
Inductive batch_op :=
| PutBlock (id : string) (b : InternalBlock)
| DelBlock (id : string)
| PutHeight (h : Z) (id : string)
| DelHeight (h : Z)
| PutTx (id : string) (tx : Transaction)
| PutBranch (id height : string)
| DelBranch (id : string)
| DelPending (id : string)
| PutMeta (m : LedgerMeta).

Record Ledger := mkLedger {
  meta : LedgerMeta;
  metaTable : LedgerMeta;
  blocksTable : gmap string InternalBlock;
  confirmedTable : gmap string Transaction;
  heightTable : gmap Z string;
  branchTable : gmap string string;
  pendingTable : gmap string InternalBlock;
  blkHeaderCache : LRUCache string InternalBlock;
  blockCache : LRUCache string InternalBlock;
  txCache : LRUCache string Transaction;
  batch : list batch_op
}.

Definition set_meta l v := mkLedger v (metaTable l) (blocksTable l) (confirmedTable l) (heightTable l) (branchTable l) (pendingTable l) (blkHeaderCache l) (blockCache l) (txCache l) (batch l).
Definition set_metaTable l v := mkLedger (meta l) v (blocksTable l) (confirmedTable l) (heightTable l) (branchTable l) (pendingTable l) (blkHeaderCache l) (blockCache l) (txCache l) (batch l).
Definition set_blocks l v := mkLedger (meta l) (metaTable l) v (confirmedTable l) (heightTable l) (branchTable l) (pendingTable l) (blkHeaderCache l) (blockCache l) (txCache l) (batch l).
Definition set_confirmed l v := mkLedger (meta l) (metaTable l) (blocksTable l) v (heightTable l) (branchTable l) (pendingTable l) (blkHeaderCache l) (blockCache l) (txCache l) (batch l).
Definition set_heights l v := mkLedger (meta l) (metaTable l) (blocksTable l) (confirmedTable l) v (branchTable l) (pendingTable l) (blkHeaderCache l) (blockCache l) (txCache l) (batch l).
Definition set_branches l v := mkLedger (meta l) (metaTable l) (blocksTable l) (confirmedTable l) (heightTable l) v (pendingTable l) (blkHeaderCache l) (blockCache l) (txCache l) (batch l).
Definition set_pending l v := mkLedger (meta l) (metaTable l) (blocksTable l) (confirmedTable l) (heightTable l) (branchTable l) v (blkHeaderCache l) (blockCache l) (txCache l) (batch l).
Definition set_headers l v := mkLedger (meta l) (metaTable l) (blocksTable l) (confirmedTable l) (heightTable l) (branchTable l) (pendingTable l) v (blockCache l) (txCache l) (batch l).
Definition set_blockCache l v := mkLedger (meta l) (metaTable l) (blocksTable l) (confirmedTable l) (heightTable l) (branchTable l) (pendingTable l) (blkHeaderCache l) v (txCache l) (batch l).
Definition set_txCache l v := mkLedger (meta l) (metaTable l) (blocksTable l) (confirmedTable l) (heightTable l) (branchTable l) (pendingTable l) (blkHeaderCache l) (blockCache l) v (batch l).
Definition set_batch l v := mkLedger (meta l) (metaTable l) (blocksTable l) (confirmedTable l) (heightTable l) (branchTable l) (pendingTable l) (blkHeaderCache l) (blockCache l) (txCache l) v.

Definition apply_op (l : Ledger) (op : batch_op) : Ledger :=
  match op with
  | PutBlock id b => set_blocks l (<[id := b]> (blocksTable l))
  | DelBlock id => set_blocks l (delete id (blocksTable l))
  | PutHeight h id => set_heights l (<[h := id]> (heightTable l))
  | DelHeight h => set_heights l (delete h (heightTable l))
  | PutTx id tx => set_confirmed l (<[id := tx]> (confirmedTable l))
  | PutBranch id h => set_branches l (<[id := h]> (branchTable l))
  | DelBranch id => set_branches l (delete id (branchTable l))
  | DelPending id => set_pending l (delete id (pendingTable l))
  | PutMeta m => set_metaTable l m
  end.

Definition apply_batch (l : Ledger) : Ledger := foldl apply_op l (batch l).

Definition modify (f : Ledger -> Ledger) : M Ledger unit := fun l => (Ret tt, f l).
Definition gets {A} (f : Ledger -> A) : M Ledger A := fun l => (Ret (f l), l).
Definition batch_put (op : batch_op) : M Ledger unit := modify (fun l => set_batch l (batch l ++ [op])).

(** The error of [c] is only logged: the status has none. *)
Definition quietly {A} (c : M Ledger A) : M Ledger A := fun l =>
  match c l with (Err _, l') => (Err "", l') | r => r end.

Definition set_block (b : InternalBlock) (height : Z) (trunk : bool) (next : string) (txs : list Transaction) : InternalBlock :=
  mkBlk (Version b) (Nonce b) (Blockid b) (PreHash b) (Proposer b) (BSign b) (Pubkey b) (MerkleRoot b) height (Timestamp b)
    txs (TxCount b) (MerkleTree b) (CurTerm b) (CurBlockNum b) (FailedTxs b) (TargetBits b) (BJustify b) trunk next.
Definition set_trunk (b : InternalBlock) (t : bool) (next : string) : InternalBlock := set_block b (Height b) t next (Transactions b).

Definition set_txBlockid (tx : Transaction) (id : string) : Transaction :=
  mkTx (Txid tx) id (Coinbase tx) (Autogen tx) (Desc tx) (TxInputs tx) (TxOutputs tx) (TxInputsExt tx) (TxOutputsExt tx) (ModifyBlock tx).

(** ** Blocks in the store and the header cache *)

Definition header_add (b : InternalBlock) : M Ledger unit :=
  modify (fun l => set_headers l (Add (blkHeaderCache l) (Blockid b) b).2).

Definition saveBlock (block : InternalBlock) : M Ledger unit :=
  do! header_add block in
  do! batch_put (PutBlock (Blockid block) block) in
  if InTrunk block then batch_put (PutHeight (Height block) (Blockid block)) else mpure tt.

Definition fetchBlock (blockid : string) : M Ledger InternalBlock := fun l =>
  let (hit, c) := Get (blkHeaderCache l) blockid in
  let l := set_headers l c in
  match hit with
  | Some b => (Ret b, l)
  | None =>
      match blocksTable l !! blockid with
      | None => (Err ErrKVNotFound, l)
      | Some block => (Ret block, set_headers l (Add (blkHeaderCache l) blockid block).2)
      end
  end.

(** The copy is a value here. *)
Definition fetchBlockForModify (blockid : string) : M Ledger InternalBlock := fetchBlock blockid.

Fixpoint query_txs (confirmed : gmap string Transaction) (txids : list (option string)) : outcome (list Transaction) :=
  match txids with
  | [] => Ret []
  | id :: txids =>
      match confirmed !! default "" id with
      | None => Err ErrKVNotFound
      | Some tx => outcome_bind (query_txs confirmed txids) (fun txs => Ret (tx :: txs))
      end
  end.

(** The slice of the tree panics when the count is not one of it. *)
Definition queryBlock (blockid : string) (needBody : bool) (l : Ledger) : outcome InternalBlock :=
  match blocksTable l !! blockid with
  | None => Err ErrBlockNotExist
  | Some block =>
      if needBody then
        if (TxCount block <? 0)%Z || (Z.of_nat (length (MerkleTree block)) <? TxCount block)%Z then Panic
        else
          outcome_bind (query_txs (confirmedTable l) (take (Z.to_nat (TxCount block)) (MerkleTree block))) (fun txs =>
          Ret (set_block block (Height block) (InTrunk block) (NextHash block) txs))
      else Ret block
  end.

Definition query (blockid : string) (needBody : bool) : M Ledger InternalBlock := fun l => (queryBlock blockid needBody l, l).

Fixpoint correct_txs (blockID : string) (txs : list Transaction) : M Ledger unit :=
  match txs with
  | [] => mpure tt
  | tx :: txs =>
      do! (if bool_decide (TxBlockid tx = blockID) then mpure tt
           else batch_put (PutTx (Txid tx) (set_txBlockid tx blockID))) in
      correct_txs blockID txs
  end.

Definition correctTxsBlockid (blockID : string) : M Ledger unit :=
  let! block := query blockID true in correct_txs blockID (Transactions block).

(** The two branches are walked down in step; out of fuel is a panic. *)
Fixpoint handleFork (fuel : nat) (p q nextHash : string) : M Ledger InternalBlock :=
  match fuel with
  | O => mpanic
  | S fuel =>
      if bool_decide (p = q) then
        let! splitBlock := fetchBlockForModify q in
        let splitBlock := set_trunk splitBlock true nextHash in
        do! saveBlock splitBlock in
        mpure splitBlock
      else
        let! pBlock := fetchBlockForModify p in
        let pBlock := set_trunk pBlock false "" in
        let! qBlock := fetchBlockForModify q in
        do! correctTxsBlockid (Blockid qBlock) in
        let qBlock := set_trunk qBlock true nextHash in
        do! saveBlock pBlock in
        do! saveBlock qBlock in
        handleFork fuel (PreHash pBlock) (PreHash qBlock) q
  end.

(** ** Branch heads *)

Definition updateBranchInfo (addedBlockid deletedBlockid : string) (addedBlockHeight : Z) : M Ledger unit :=
  do! batch_put (DelBranch deletedBlockid) in
  batch_put (PutBranch addedBlockid (bigString addedBlockHeight)).

Fixpoint branch_tips (targetBlockid : string) (targetBlockHeight : Z) (l : list (string * string)) : outcome (list string) :=
  match l with
  | [] => Ret []
  | (blkId, value) :: l =>
      if is_empty_string blkId then branch_tips targetBlockid targetBlockHeight l
      else
        match ParseInt64 value with
        | None => Err "strconv.ParseInt"
        | Some blockHeight =>
            outcome_bind (branch_tips targetBlockid targetBlockHeight l) (fun rest =>
            if bool_decide (targetBlockid = blkId) then Ret rest
            else if (targetBlockHeight <? blockHeight)%Z then Ret (blkId :: rest) else Ret rest)
        end
  end.

Definition GetBranchInfo (targetBlockid : string) (targetBlockHeight : Z) (l : Ledger) : outcome (list string) :=
  branch_tips targetBlockid targetBlockHeight (merge_sort key_le (map_to_list (branchTable l))).

(** ** Confirming a block *)

Record ConfirmStatus := mkStatus {
  Succ : bool; Split : bool; Orphan : bool; TrunkSwitch : bool; Error : option string
}.

(** Where a block goes: the block with its height and trunk flag, the new meta
    data, the height up to which the trunk stays, and the flags. *)
Record placement := mkPlace {
  pl_block : InternalBlock; pl_meta : LedgerMeta; pl_splitHeight : Z; pl_split : bool; pl_orphan : bool; pl_switch : bool
}.

Definition place_root (block : InternalBlock) : M Ledger placement :=
  let! m := gets meta in
  if! negb (is_empty_string (PreHash block)) fails "" in
  if! negb (is_empty_string (RootBlockid m)) fails ErrRootBlockAlreadyExist in
  mpure (mkPlace (set_block block 0 true (NextHash block) (Transactions block)) (mkMeta (Blockid block) (Blockid block) 0)
           (TrunkHeight m) false false false).

Definition place_block (fuel : nat) (block : InternalBlock) : M Ledger placement :=
  let! m := gets meta in
  let! preBlock := quietly (fetchBlockForModify (PreHash block)) in
  let height := add64 (Height preBlock) 1 in
  let at' trunk := set_block block height trunk (NextHash block) (Transactions block) in
  if bool_decide (Blockid preBlock = TipBlockid m) then
    do! (if DisableTxDedup then mpure tt
         else do! saveBlock (set_trunk preBlock (InTrunk preBlock) (Blockid block)) in
              modify (fun l => set_blockCache l (Del (blockCache l) (Blockid preBlock)))) in
    mpure (mkPlace (at' true) (mkMeta (RootBlockid m) (Blockid block) (add64 (TrunkHeight m) 1)) (TrunkHeight m) false false false)
  else if (TrunkHeight m <? add64 (Height preBlock) 1)%Z then
    let! splitBlock := quietly (handleFork fuel (TipBlockid m) (Blockid preBlock) (Blockid block)) in
    mpure (mkPlace (at' true) (mkMeta (RootBlockid m) (Blockid block) (add64 (Height preBlock) 1)) (Height splitBlock) true false true)
  else mpure (mkPlace (at' false) m (TrunkHeight m) true true false).

(** The transactions of the block, one after the other: what is already in the
    table is not in the trunk below the split, or the block is refused.  The
    blocks looked up are remembered during the loop, which the store makes
    invisible. *)
Fixpoint confirm_txs (block : InternalBlock) (splitHeight : Z) (cbNum : nat) (txs : list Transaction) : M Ledger unit :=
  match txs with
  | [] => mpure tt
  | tx :: txs =>
      let cbNum := if Coinbase tx then S cbNum else cbNum in
      if! (1 <? cbNum)%nat fails "" in
      let! confirmed := gets confirmedTable in
      let! blocks := gets blocksTable in
      do! match confirmed !! Txid tx with
          | None => batch_put (PutTx (Txid tx) tx)
          | Some oldTx =>
              match blocks !! TxBlockid oldTx with
              | None => batch_put (PutTx (Txid tx) tx)
              | Some oldBlock =>
                  if InTrunk oldBlock && InTrunk block && (Height oldBlock <=? splitHeight)%Z then mfail ErrTxDuplicated
                  else if InTrunk block then batch_put (PutTx (Txid tx) tx) else mpure tt
              end
          end in
      confirm_txs block splitHeight cbNum txs
  end.

Definition tx_add (tx : Transaction) (l : Ledger) : Ledger := set_txCache l (Add (txCache l) (Txid tx) tx).2.

Section Confirm.
(** [json.Unmarshal] of the genesis configuration. *)
Variable genesis_decodes : string -> bool.

Definition loadGenesisBlock (l : Ledger) : outcome unit :=
  if is_empty_string (RootBlockid (meta l)) then Err ErrBlockNotExist
  else
    outcome_bind (queryBlock (RootBlockid (meta l)) true l) (fun rootIb =>
    match List.find Coinbase (Transactions rootIb) with
    | None => Err "find coinbase tx failed from root block"
    | Some coinbaseTx =>
        if is_empty_string (Desc coinbaseTx) then Err "genesis config is empty"
        else if genesis_decodes (Desc coinbaseTx) then Ret tt else Err "json"
    end).

(** What is put in the batch for a placed block. *)
Definition stage (pl : placement) (realTransactions : list Transaction) : M Ledger unit :=
  let block := pl_block pl in
  do! saveBlock block in
  do! updateBranchInfo (Blockid block) (PreHash block) (Height block) in
  do! confirm_txs block (pl_splitHeight pl) 0 realTransactions in
  do! batch_put (DelPending (Blockid block)) in
  batch_put (PutMeta (pl_meta pl)).

(** The status, and the caller's block; [None] after a refusal, which leaves
    that block changed and without its transactions. *)
Definition ConfirmBlock (fuel : nat) (write_ok : bool) (block : InternalBlock) (isRoot : bool)
    : M Ledger (ConfirmStatus * option InternalBlock) := fun l0 =>
  let realTransactions := Transactions block in
  let block := set_block block (Height block) (InTrunk block) (NextHash block) [] in
  let l := set_batch l0 [] in
  match (if isRoot then place_root block else place_block fuel block) l with
  | (Panic, l1) => (Panic, l1)
  | (Err e, l1) => (Ret (mkStatus false false false false (if is_empty_string e then None else Some e), None), l1)
  | (Ret pl, l1) =>
      let block := pl_block pl in
      let txs := (fun tx => set_txBlockid tx (Blockid block)) <$> realTransactions in
      let failed e := mkStatus false (pl_split pl) (pl_orphan pl) (pl_switch pl) e in
      match stage pl txs l1 with
      | (Panic, l2) => (Panic, l2)
      | (Err e, l2) => (Ret (failed (if is_empty_string e then None else Some e), None), l2)
      | (Ret _, l2) =>
          let l3 := if write_ok then set_meta (apply_batch l2) (pl_meta pl) else l2 in
          let block := set_block block (Height block) (InTrunk block) (NextHash block) txs in
          let loaded := if isRoot then loadGenesisBlock l3 else Ret tt in
          match loaded with
          | Panic => (Panic, l3)
          | _ =>
              let err := match loaded with Err e => Some e | _ => if write_ok then None else Some ErrBatchWrite end in
              let ok := match loaded with Err _ => false | _ => write_ok end in
              let l4 := set_blockCache l3 (Add (blockCache l3) (Blockid block) block).2 in
              (Ret (mkStatus ok (pl_split pl) (pl_orphan pl) (pl_switch pl) err, Some block), foldl (fun l tx => tx_add tx l) l4 txs)
          end
      end
  end.
End Confirm.

(** ** Queries *)

Definition ExistBlock (blockid : string) (l : Ledger) : bool := bool_decide (is_Some (blocksTable l !! blockid)).

Definition QueryBlock (blockid : string) : M Ledger InternalBlock := fun l =>
  let (hit, c) := Get (blockCache l) blockid in
  let l := set_blockCache l c in
  match hit with
  | Some blk => (Ret blk, l)
  | None =>
      match queryBlock blockid true l with
      | Ret blk => (Ret blk, set_blockCache l (Add (blockCache l) blockid blk).2)
      | o => (o, l)
      end
  end.

Definition QueryBlockHeader (blockid : string) : M Ledger InternalBlock := fetchBlock blockid.

Definition HasTransaction (txid : string) : M Ledger bool := fun l =>
  let (hit, c) := Get (txCache l) txid in
  let l := set_txCache l c in
  match hit with
  | Some _ => (Ret true, l)
  | None => (Ret (bool_decide (is_Some (confirmedTable l !! txid))), l)
  end.

Definition QueryTransaction (txid : string) : M Ledger Transaction := fun l =>
  let (hit, c) := Get (txCache l) txid in
  let l := set_txCache l c in
  match hit with
  | Some tx => (Ret tx, l)
  | None =>
      match confirmedTable l !! txid with
      | None => (Err ErrTxNotFound, l)
      | Some tx => (Ret tx, set_txCache l (Add (txCache l) txid tx).2)
      end
  end.

Definition IsTxInTrunk (txid : string) : M Ledger bool := fun l =>
  match confirmedTable l !! txid with
  | None => (Ret false, l)
  | Some realTx =>
      let (hit, c) := Get (blockCache l) (TxBlockid realTx) in
      let l := set_blockCache l c in
      match hit with
      | Some blk => (Ret (InTrunk blk), l)
      | None =>
          match queryBlock (TxBlockid realTx) false l with
          | Ret blk => (Ret (InTrunk blk), l)
          | Err _ => (Ret false, l)
          | Panic => (Panic, l)
          end
      end
  end.

Definition QueryBlockByHeight (height : Z) : M Ledger InternalBlock :=
  let! heights := gets heightTable in
  match heights !! height with
  | None => mfail ErrBlockNotExist
  | Some blockID => QueryBlock blockID
  end.

Definition QueryBlockHeaderByHeight (height : Z) : M Ledger InternalBlock :=
  let! heights := gets heightTable in
  match heights !! height with
  | None => mfail ErrBlockNotExist
  | Some blockID => QueryBlockHeader blockID
  end.

Definition QueryBlockByTxid (txid : string) : M Ledger InternalBlock :=
  let! exist := HasTransaction txid in
  if! negb exist fails ErrTxNotConfirmed in
  let! tx := QueryTransaction txid in
  query (TxBlockid tx) false.

Definition SavePendingBlock (block : InternalBlock) : M Ledger unit :=
  modify (fun l => set_pending l (<[Blockid block := block]> (pendingTable l))).

Definition GetPendingBlock (blockID : string) (l : Ledger) : outcome InternalBlock :=
  match pendingTable l !! blockID with
  | None => Err ErrBlockNotExist
  | Some block => Ret block
  end.

(** ** Switching between two tips *)

(** One turn of the search for the fork: the old side goes down when it is not
    lower than the new one, then the new side; a block seen before is the fork. *)
Record walk := mkWalk { w_old : InternalBlock; w_new : InternalBlock; w_visited : gset string;
                        w_undo : list InternalBlock; w_todo : list InternalBlock }.

Fixpoint find_split (fuel : nat) (l : Ledger) (w : walk) : outcome (walk * string) :=
  match fuel with
  | O => Panic
  | S fuel =>
      let oldPreHash := PreHash (w_old w) in
      outcome_bind
        (if negb (is_empty_string oldPreHash) && (Height (w_new w) <=? Height (w_old w))%Z then
           outcome_bind (queryBlock oldPreHash true l) (fun oldTip =>
           if bool_decide (Blockid oldTip ∈ w_visited w)
           then Ret (inr (mkWalk oldTip (w_new w) (w_visited w) (w_undo w) (w_todo w), Blockid oldTip))
           else Ret (inl (mkWalk oldTip (w_new w) ({[ Blockid oldTip ]} ∪ w_visited w) (w_undo w ++ [oldTip]) (w_todo w))))
         else Ret (inl w)) (fun r1 =>
      match r1 with
      | inr res => Ret res
      | inl w1 =>
          let newPreHash := PreHash (w_new w1) in
          outcome_bind
            (if negb (is_empty_string newPreHash) && (Height (w_old w1) <=? Height (w_new w1))%Z then
               outcome_bind (queryBlock newPreHash true l) (fun newTip =>
               if bool_decide (Blockid newTip ∈ w_visited w1)
               then Ret (inr (mkWalk (w_old w1) newTip (w_visited w1) (w_undo w1) (w_todo w1), Blockid newTip))
               else Ret (inl (mkWalk (w_old w1) newTip ({[ Blockid newTip ]} ∪ w_visited w1) (w_undo w1) (w_todo w1 ++ [newTip]))))
             else Ret (inl w1)) (fun r2 =>
          match r2 with
          | inr res => Ret res
          | inl w2 =>
              if is_empty_string oldPreHash && is_empty_string newPreHash then Ret (w2, RootBlockid (meta l))
              else find_split fuel l w2
          end)
      end)
  end.

Definition drop_last_if (id : string) (bs : list InternalBlock) : list InternalBlock :=
  match List.last (Some <$> bs) None with
  | Some b => if bool_decide (Blockid b = id) then removelast bs else bs
  | None => bs
  end.

Definition FindUndoAndTodoBlocks (fuel : nat) (curBlockid destBlockid : string) (l : Ledger)
    : outcome (list InternalBlock * list InternalBlock) :=
  if bool_decide (destBlockid = curBlockid) then Ret ([], [])
  else
    outcome_bind (queryBlock curBlockid true l) (fun oldTip =>
    outcome_bind (queryBlock destBlockid true l) (fun newTip =>
    let w := mkWalk oldTip newTip {[ Blockid oldTip; Blockid newTip ]} [oldTip] [newTip] in
    outcome_bind (find_split fuel l w) (fun '(w, splitBlockID) =>
    Ret (drop_last_if splitBlockID (w_undo w), drop_last_if splitBlockID (w_todo w))))).

(** ** Truncating *)

(** From a block down to the height of [toBlock]; a missing block ends it. *)
Fixpoint remove_down (fuel : nat) (fromBlock : InternalBlock) (toHeight : Z) : M Ledger unit :=
  match fuel with
  | O => mpanic
  | S fuel =>
      if (toHeight <? Height fromBlock)%Z then
        do! modify (fun l => set_headers l (Del (blkHeaderCache l) (Blockid fromBlock))) in
        do! modify (fun l => set_blockCache l (Del (blockCache l) (Blockid fromBlock))) in
        do! batch_put (DelBlock (Blockid fromBlock)) in
        do! (if InTrunk fromBlock then batch_put (DelHeight (Height fromBlock)) else mpure tt) in
        let! pre := mtry (fetchBlock (PreHash fromBlock)) in
        match pre with
        | inl b => remove_down fuel b toHeight
        | inr _ => mpure tt
        end
      else mpure tt
  end.

Definition removeBlocks (fuel : nat) (fromBlockid toBlockid : string) : M Ledger unit :=
  let! fromBlock := fetchBlock fromBlockid in
  let! toBlock := fetchBlock toBlockid in
  remove_down fuel fromBlock (Height toBlock).

Fixpoint truncate_branches (fuel : nat) (block : InternalBlock) (branchTips : list string) : M Ledger unit :=
  match branchTips with
  | [] => mpure tt
  | tip :: branchTips =>
      do! removeBlocks fuel tip (Blockid block) in
      do! updateBranchInfo (Blockid block) tip (Height block) in
      truncate_branches fuel block branchTips
  end.

(** The batch of a truncation is its own; the other one is reset before use. *)
Definition Truncate (fuel : nat) (write_ok : bool) (utxovmLastID : string) : M Ledger unit :=
  do! modify (fun l => set_batch l []) in
  let! m := gets meta in
  let! block := fetchBlock utxovmLastID in
  let! branchTips := (fun l => (GetBranchInfo (Blockid block) (Height block) l, l)) in
  do! truncate_branches fuel block branchTips in
  let newMeta := mkMeta (RootBlockid m) utxovmLastID (Height block) in
  do! batch_put (PutMeta newMeta) in
  if! negb write_ok fails ErrBatchWrite in
  modify (fun l => set_meta (apply_batch l) newMeta).

(** ** What a batch will do to the blocks and the heights *)

Definition blocks_op (B : gmap string InternalBlock) (op : batch_op) : gmap string InternalBlock :=
  match op with PutBlock id b => <[id := b]> B | DelBlock id => delete id B | _ => B end.
Definition heights_op (H : gmap Z string) (op : batch_op) : gmap Z string :=
  match op with PutHeight h id => <[h := id]> H | DelHeight h => delete h H | _ => H end.

Definition overlay (l : Ledger) : gmap string InternalBlock := foldl blocks_op (blocksTable l) (batch l).
Definition overlayH (l : Ledger) : gmap Z string := foldl heights_op (heightTable l) (batch l).

Lemma apply_batch_tables l :
  blocksTable (apply_batch l) = overlay l /\ heightTable (apply_batch l) = overlayH l /\
  blkHeaderCache (apply_batch l) = blkHeaderCache l.
Proof.
  unfold apply_batch, overlay, overlayH. generalize (batch l) as ops. intros ops. revert l.
  induction ops as [|op ops IH]; intros l; [done|]. cbn [foldl]. destruct (IH (apply_op l op)) as (-> & -> & ->).
  by destruct op.
Qed.

(** [l'] differs from [l] only in the header cache and the batch. *)
Definition staged (l l' : Ledger) : Prop := exists c ops, l' = set_batch (set_headers l c) ops.

Lemma staged_refl l : staged l l.
Proof. exists (blkHeaderCache l), (batch l). by destruct l. Qed.

Lemma staged_trans l1 l2 l3 : staged l1 l2 -> staged l2 l3 -> staged l1 l3.
Proof. intros (c & o & ->) (c' & o' & ->). by exists c', o'. Qed.

#[export] Instance staged_preorder : PreOrder staged.
Proof. split; [exact staged_refl|exact staged_trans]. Qed.

Lemma staged_store l l' : staged l l' ->
  meta l' = meta l /\ blocksTable l' = blocksTable l /\ confirmedTable l' = confirmedTable l /\ heightTable l' = heightTable l.
Proof. intros (c & o & ->). done. Qed.

(** The header cache holds what the blocks will be after the batch. *)
Definition coherent (l : Ledger) : Prop :=
  lru_ok (blkHeaderCache l) /\ forall k b, cached (blkHeaderCache l) k = Some b -> overlay l !! k = Some b.

Lemma fetchBlock_spec id l r l' :
  coherent l -> overlay l !! id = blocksTable l !! id -> fetchBlock id l = (r, l') ->
  r = match blocksTable l !! id with Some b => Ret b | None => Err ErrKVNotFound end /\
  coherent l' /\ staged l l' /\ overlay l' = overlay l /\ overlayH l' = overlayH l.
Proof.
  intros [Hlru Hc] Hclean. unfold fetchBlock. destruct (Get (blkHeaderCache l) id) as [hit c] eqn:Eg.
  destruct (Get_spec _ _ _ _ Hlru Eg) as (-> & Hlru' & Hcap & Hsame).
  assert (coherent (set_headers l c)) as Hco.
  { split; [done|]. intros k b Hk. cbn in Hk. rewrite Hsame in Hk. by apply Hc. }
  destruct (cached (blkHeaderCache l) id) as [b|] eqn:Ec.
  - intros [= <- <-]. rewrite <- Hclean, (Hc _ _ Ec). split_and!; try done. by exists c, (batch l).
  - cbn [blocksTable set_headers]. destruct (blocksTable l !! id) as [b|] eqn:Eb; intros [= <- <-].
    2:{ split_and!; try done. by exists c, (batch l). }
    split_and!; try done; [|by exists (Add c id b).2, (batch l)].
    destruct (Add c id b) as [ev c'] eqn:Ea. destruct (Add_spec _ _ _ _ _ Hlru' Ea) as (Hl2 & _ & Hsub & _).
    split; [done|]. intros k w Hk. cbn in Hk. apply Hsub in Hk. destruct (decide (k = id)) as [->|].
    + subst w. change (overlay l !! id = Some b). by rewrite Hclean.
    + rewrite Hsame in Hk. by apply Hc in Hk.
Qed.

Lemma overlay_put l ops op : overlay (set_batch l (ops ++ [op])) = blocks_op (overlay (set_batch l ops)) op.
Proof. unfold overlay. cbn. by rewrite foldl_app. Qed.
Lemma overlayH_put l ops op : overlayH (set_batch l (ops ++ [op])) = heights_op (overlayH (set_batch l ops)) op.
Proof. unfold overlayH. cbn. by rewrite foldl_app. Qed.
Lemma set_batch_same l : set_batch l (batch l) = l.
Proof. by destruct l. Qed.

Lemma batch_put_spec op l r l' :
  batch_put op l = (r, l') -> r = Ret tt /\ staged l l' /\ overlay l' = blocks_op (overlay l) op /\
  overlayH l' = heights_op (overlayH l) op /\ blkHeaderCache l' = blkHeaderCache l.
Proof.
  intros [= <- <-]. split_and!; try done.
  - exists (blkHeaderCache l), (batch l ++ [op]). by destruct l.
  - rewrite overlay_put. by rewrite set_batch_same.
  - rewrite overlayH_put. by rewrite set_batch_same.
Qed.

Lemma saveBlock_spec b l r l' :
  coherent l -> saveBlock b l = (r, l') ->
  r = Ret tt /\ coherent l' /\ staged l l' /\ overlay l' = <[Blockid b := b]> (overlay l) /\
  overlayH l' = if InTrunk b then <[Height b := Blockid b]> (overlayH l) else overlayH l.
Proof.
  intros [Hlru Hc]. unfold saveBlock, header_add, mbnd, modify.
  destruct (Add (blkHeaderCache l) (Blockid b) b) as [ev c] eqn:Ea.
  destruct (Add_spec _ _ _ _ _ Hlru Ea) as (Hl2 & _ & Hsub & _). cbn [snd].
  destruct (batch_put (PutBlock (Blockid b) b) (set_headers l c)) as [r1 l1] eqn:E1.
  apply batch_put_spec in E1 as (-> & Hs1 & Ho1 & Hh1 & Ec1). cbn [blocks_op heights_op] in *.
  change (overlay (set_headers l c)) with (overlay l) in Ho1. change (overlayH (set_headers l c)) with (overlayH l) in Hh1.
  assert (staged l l1) as Hst by (etransitivity; [by exists c, (batch l)|done]).
  assert (forall l2, blkHeaderCache l2 = c -> overlay l2 = <[Blockid b := b]> (overlay l) -> coherent l2) as Hcoh.
  { intros l2 Ecc Eo. split; [by rewrite Ecc|]. rewrite Ecc, Eo. intros k w Hk. apply Hsub in Hk.
    destruct (decide (k = Blockid b)) as [->|]; [subst w; by rewrite lookup_insert_eq|].
    rewrite lookup_insert_ne by done. by apply Hc. }
  destruct (InTrunk b).
  - intros E2. apply batch_put_spec in E2 as (-> & Hs2 & Ho2 & Hh2 & Ec2). cbn [blocks_op heights_op] in *.
    split_and!; [done| |by etransitivity|by rewrite Ho2|by rewrite Hh2, Hh1].
    apply Hcoh; [by rewrite Ec2, Ec1|by rewrite Ho2].
  - intros [= <- <-]. split_and!; try done. by apply Hcoh.
Qed.

(** Writes that touch neither blocks nor heights. *)
Definition other_op (op : batch_op) : bool :=
  match op with PutTx _ _ | PutBranch _ _ | DelBranch _ | DelPending _ | PutMeta _ => true | _ => false end.

Definition unseen (l l' : Ledger) : Prop :=
  staged l l' /\ overlay l' = overlay l /\ overlayH l' = overlayH l /\ blkHeaderCache l' = blkHeaderCache l.

#[export] Instance unseen_preorder : PreOrder unseen.
Proof.
  split; [intros l; split_and!; reflexivity|]. intros a b c (S1 & O1 & H1 & C1) (S2 & O2 & H2 & C2).
  split_and!; [by etransitivity|congruence..].
Qed.

Lemma batch_put_unseen op l r l' : batch_put op l = (r, l') -> other_op op = true -> unseen l l'.
Proof. intros H Hop. apply batch_put_spec in H as (_ & ? & ? & ? & ?). destruct op; done. Qed.

Lemma unseen_coherent l l' : unseen l l' -> coherent l -> coherent l'.
Proof. intros (_ & Ho & _ & Hc) [H1 H2]. unfold coherent. by rewrite Hc, Ho. Qed.

Lemma correct_txs_unseen id txs : forall l r l', correct_txs id txs l = (r, l') -> unseen l l'.
Proof.
  induction txs as [|tx txs IH]; intros l r l'; cbn [correct_txs]; [by intros [= <- <-]|].
  unfold mbnd. case_bool_decide; [apply IH|].
  destruct (batch_put _ l) as [r1 l1] eqn:E. pose proof (batch_put_unseen _ _ _ _ E eq_refl) as H1.
  apply batch_put_spec in E as [-> _]. intros H2. etransitivity; [exact H1|by eapply IH].
Qed.

Lemma correctTxsBlockid_unseen id l r l' : correctTxsBlockid id l = (r, l') -> unseen l l'.
Proof.
  unfold correctTxsBlockid, mbnd, query. destruct (queryBlock id true l) as [b|e|]; [apply correct_txs_unseen|..]; by intros [= <- <-].
Qed.

Lemma confirm_txs_unseen b sh txs : forall n l r l', confirm_txs b sh n txs l = (r, l') -> unseen l l'.
Proof.
  induction txs as [|tx txs IH]; intros n l r l'; cbn [confirm_txs]; [by intros [= <- <-]|].
  destruct (1 <? _)%nat; [by intros [= <- <-]|]. unfold mbnd, gets. intros H.
  match type of H with context [let (_, _) := ?c l in _] => destruct (c l) as [r1 l1] eqn:E end.
  assert (unseen l l1) as H1.
  { destruct (confirmedTable l !! Txid tx) as [old|]; [|exact (batch_put_unseen _ _ _ _ E eq_refl)].
    destruct (blocksTable l !! _) as [ob|]; [|exact (batch_put_unseen _ _ _ _ E eq_refl)].
    destruct (_ && _); [by injection E as <- <-|]. destruct (InTrunk b); [exact (batch_put_unseen _ _ _ _ E eq_refl)|by injection E as <- <-]. }
  destruct r1; [|by injection H as <- <-..]. etransitivity; [exact H1|by eapply IH].
Qed.

(** ** Chains of blocks *)

(** [ids] is a block, its parent, and so on down to the first block, each one
    higher than the next. *)
Fixpoint chain (B : gmap string InternalBlock) (ids : list string) : Prop :=
  match ids with
  | [] => False
  | x :: rest =>
      (exists b, B !! x = Some b /\ Height b = Z.of_nat (length rest) /\
                 PreHash b = match rest with [] => "" | y :: _ => y end) /\
      match rest with [] => True | _ => chain B rest end
  end.

(** Two maps with the same tree of blocks. *)
Definition same_tree (B B' : gmap string InternalBlock) : Prop :=
  forall id b, B !! id = Some b -> exists b', B' !! id = Some b' /\ Height b' = Height b /\ PreHash b' = PreHash b.

Lemma chain_same_tree B B' ids : same_tree B B' -> chain B ids -> chain B' ids.
Proof.
  intros Ht. induction ids as [|x rest IH]; [done|]. cbn. intros [(b & Hb & Hh & Hp) Hrest].
  destruct (Ht _ _ Hb) as (b' & Hb' & Hh' & Hp'). split; [exists b'; split_and!; congruence|]. destruct rest; auto.
Qed.

Lemma chain_unique B x xs ys : chain B (x :: xs) -> chain B (x :: ys) -> xs = ys.
Proof.
  revert x ys. induction xs as [|y xs IH]; intros x ys [(b & Hb & Hh & Hp) H] [(b' & Hb' & Hh' & Hp') H'];
    rewrite Hb in Hb'; injection Hb' as <-.
  - destruct ys; [done|cbn in *; lia].
  - destruct ys as [|y' ys]; [cbn in *; lia|]. rewrite Hp in Hp'. subst y'. f_equal. by eapply IH.
Qed.

Lemma chain_height B ids i x : chain B ids -> ids !! i = Some x ->
  exists b, B !! x = Some b /\ Height b = (Z.of_nat (length ids) - 1 - Z.of_nat i)%Z.
Proof.
  revert i. induction ids as [|y rest IH]; intros i Hc Hi; [done|]. destruct Hc as [(b & Hb & Hh & _) Hrest].
  destruct i as [|i]; [injection Hi as <-; exists b; split; [done|cbn; lia]|].
  cbn in Hi. destruct rest as [|z rest]; [done|]. destruct (IH i Hrest Hi) as (b' & Hb' & Hh'). exists b'. split; [done|]. cbn in *. lia.
Qed.

Lemma chain_NoDup B ids : chain B ids -> NoDup ids.
Proof.
  intros Hc. apply NoDup_alt. intros i j x Hi Hj. destruct (chain_height _ _ _ _ Hc Hi) as (b & Hb & Hh).
  destruct (chain_height _ _ _ _ Hc Hj) as (b' & Hb' & Hh'). simplify_eq. lia.
Qed.

(** A block below another one in height. *)
Lemma chain_tail_lower B x rest y : chain B (x :: rest) -> y ∈ rest ->
  exists b, B !! y = Some b /\ (Height b < Z.of_nat (length rest))%Z.
Proof.
  intros Hc Hy. apply list_elem_of_lookup in Hy as [i Hi].
  destruct (chain_height B (x :: rest) (S i) y Hc Hi) as (b & Hb & Hh). exists b. split; [done|]. cbn in *. lia.
Qed.

Lemma chain_tail B x y rest : chain B (x :: y :: rest) -> chain B (y :: rest).
Proof. by intros [_ ?]. Qed.

Lemma chain_suffix B pre s suf : chain B (pre ++ s :: suf) -> chain B (s :: suf).
Proof.
  induction pre as [|x pre IH]; [done|]. cbn. intros [_ H]. destruct (pre ++ s :: suf) eqn:E; [by destruct pre|]. by apply IH.
Qed.

Definition ids_ok (B : gmap string InternalBlock) : Prop := forall id b, B !! id = Some b -> Blockid b = id.

(** Blocks up to a height are not in the batch. *)
Definition clean_below (l : Ledger) (h : nat) : Prop :=
  forall id b, blocksTable l !! id = Some b -> (Height b <= Z.of_nat h)%Z -> overlay l !! id = Some b.

(** What [handleFork] does to the two branches [P] and [Q] that meet in [s]. *)
Record forked (l l' : Ledger) (next : string) (P1 Q1 : list string) (s : string) (S : list string) : Prop := {
  fk_rest : forall id, id ∉ P1 -> id ∉ Q1 -> id <> s -> overlay l' !! id = overlay l !! id;
  fk_old : forall id b, id ∈ P1 -> blocksTable l !! id = Some b -> overlay l' !! id = Some (set_trunk b false "");
  fk_new : forall i x y b, (next :: Q1) !! i = Some x -> (Q1 ++ [s]) !! i = Some y -> blocksTable l !! y = Some b ->
    overlay l' !! y = Some (set_trunk b true x);
  fk_heights : forall h, overlayH l' !! h =
    if bool_decide (Z.of_nat (length S) <= h <= Z.of_nat (length Q1 + length S))%Z
    then (Q1 ++ s :: S) !! Z.to_nat (Z.of_nat (length Q1 + length S) - h) else overlayH l !! h
}.

Lemma last_cons_ne {A} (x y : A) l d : List.last (x :: y :: l) d = List.last (y :: l) d.
Proof. done. Qed.

Lemma chain_head B x rest : chain B (x :: rest) ->
  exists b, B !! x = Some b /\ Height b = Z.of_nat (length rest) /\ PreHash b = match rest with [] => "" | y :: _ => y end.
Proof. by intros [H _]. Qed.

Lemma handleFork_base q next l sb l' qs :
  ids_ok (blocksTable l) -> chain (blocksTable l) (q :: qs) -> clean_below l (length qs) -> coherent l ->
  (let! splitBlock := fetchBlockForModify q in
   do! saveBlock (set_trunk splitBlock true next) in mpure (set_trunk splitBlock true next)) l = (Ret sb, l') ->
  staged l l' /\ coherent l' /\ Height sb = Z.of_nat (length qs) /\ forked l l' next [] [] q qs.
Proof.
  intros Hids Hq Hclean Hco E. destruct (chain_head _ _ _ Hq) as (qb & Eqb & Hqh & Hqp).
  assert (overlay l !! q = Some qb) as Hov by (apply Hclean; [done|lia]).
  unfold fetchBlockForModify, mbnd in E. destruct (fetchBlock q l) as [r1 l1] eqn:E1.
  apply fetchBlock_spec in E1 as (-> & Hco1 & Hs1 & Ho1 & Hh1); [|done|by rewrite Hov].
  rewrite Eqb in E. destruct (saveBlock _ l1) as [r2 l2] eqn:E2.
  apply saveBlock_spec in E2 as (-> & Hco2 & Hs2 & Ho2 & Hh2); [|done]. injection E as <- <-.
  cbn [InTrunk set_trunk set_block Blockid Height] in *. rewrite (Hids _ _ Eqb) in *.
  split_and!; [by etransitivity|done|done|]. split.
  - intros id _ _ Hne. by rewrite Ho2, lookup_insert_ne, Ho1.
  - intros id b Hin. by apply elem_of_nil in Hin.
  - intros i x y b Hx Hy Hb. destruct i as [|i]; [|done]. injection Hx as <-. injection Hy as <-. simplify_eq.
    by rewrite Ho2, lookup_insert_eq.
  - intros h. rewrite Hh2, Hqh. cbn [length Nat.add app]. case_bool_decide as Hr.
    + assert (h = Z.of_nat (length qs)) as -> by lia. rewrite Z.sub_diag. by rewrite lookup_insert_eq.
    + rewrite lookup_insert_ne by lia. by rewrite Hh1.
Qed.

(** One turn of the loop. *)
Lemma handleFork_turn p q next l ps qs (k : string -> string -> M Ledger InternalBlock) r l' :
  ids_ok (blocksTable l) -> chain (blocksTable l) (p :: ps) -> chain (blocksTable l) (q :: qs) -> length ps = length qs ->
  clean_below l (length ps) -> coherent l -> p <> q ->
  (let! pBlock := fetchBlockForModify p in
   let! qBlock := fetchBlockForModify q in
   do! correctTxsBlockid (Blockid qBlock) in
   do! saveBlock (set_trunk pBlock false "") in
   do! saveBlock (set_trunk qBlock true next) in
   k (PreHash pBlock) (PreHash qBlock)) l = (Ret r, l') ->
  exists l1 pb qb, blocksTable l !! p = Some pb /\ blocksTable l !! q = Some qb /\
    staged l l1 /\ coherent l1 /\ k (PreHash pb) (PreHash qb) l1 = (Ret r, l') /\
    overlay l1 = <[q := set_trunk qb true next]> (<[p := set_trunk pb false ""]> (overlay l)) /\
    overlayH l1 = <[Z.of_nat (length qs) := q]> (overlayH l).
Proof.
  intros Hids Hp Hq Hlen Hclean Hco Hne E.
  destruct (chain_head _ _ _ Hp) as (pb & Epb & Hph & Hpp). destruct (chain_head _ _ _ Hq) as (qb & Eqb & Hqh & Hqp).
  assert (overlay l !! p = Some pb) as Hop by (apply Hclean; [done|lia]).
  assert (overlay l !! q = Some qb) as Hoq by (apply Hclean; [done|lia]).
  unfold fetchBlockForModify, mbnd in E. destruct (fetchBlock p l) as [r1 l1] eqn:E1.
  apply fetchBlock_spec in E1 as (-> & Hco1 & Hs1 & Ho1 & Hh1); [|done|by rewrite Hop]. rewrite Epb in E.
  destruct (staged_store _ _ Hs1) as (_ & Hb1 & _).
  destruct (fetchBlock q l1) as [r2 l2] eqn:E2.
  apply fetchBlock_spec in E2 as (-> & Hco2 & Hs2 & Ho2 & Hh2); [|done|by rewrite Ho1, Hb1, Hoq]. rewrite Hb1, Eqb in E.
  destruct (correctTxsBlockid _ l2) as [r3 l3] eqn:E3. apply correctTxsBlockid_unseen in E3.
  destruct r3 as [[]|e|]; [|done..]. pose proof (unseen_coherent _ _ E3 Hco2) as Hco3. destruct E3 as (Hs3 & Ho3 & Hh3 & _).
  destruct (saveBlock _ l3) as [r4 l4] eqn:E4. apply saveBlock_spec in E4 as (-> & Hco4 & Hs4 & Ho4 & Hh4); [|done].
  destruct (saveBlock _ l4) as [r5 l5] eqn:E5. apply saveBlock_spec in E5 as (-> & Hco5 & Hs5 & Ho5 & Hh5); [|done].
  cbn [InTrunk set_trunk set_block Blockid Height] in *. rewrite (Hids _ _ Epb), (Hids _ _ Eqb) in *.
  exists l5, pb, qb. split_and!; try done.
  - do 4 (etransitivity; [eassumption|]). done.
  - by rewrite Ho5, Ho4, Ho3, Ho2, Ho1.
  - by rewrite Hh5, Hqh, Hh4, Hh3, Hh2, Hh1.
Qed.

(** Adding one block on each side to what a fork did below. *)
Lemma forked_step l l1 l' next p q pb qb ps qs P1 Q1 s S :
  blocksTable l !! p = Some pb -> blocksTable l !! q = Some qb -> p <> q -> p ∉ ps -> p ∉ qs -> q ∉ ps -> q ∉ qs ->
  blocksTable l1 = blocksTable l ->
  overlay l1 = <[q := set_trunk qb true next]> (<[p := set_trunk pb false ""]> (overlay l)) ->
  overlayH l1 = <[Z.of_nat (length qs) := q]> (overlayH l) ->
  ps = P1 ++ s :: S -> qs = Q1 ++ s :: S ->
  forked l1 l' q P1 Q1 s S -> forked l l' next (p :: P1) (q :: Q1) s S.
Proof.
  intros Hp Hq Hne Np Np' Nq Nq' Hb Ho Hh -> -> [F1 F2 F3 F4]. rewrite Hb in *.
  rewrite elem_of_app, elem_of_cons in Np, Np', Nq, Nq'.
  assert (overlay l' !! p = Some (set_trunk pb false "")) as Hp'.
  { rewrite F1 by tauto. rewrite Ho, lookup_insert_ne by done. by rewrite lookup_insert_eq. }
  assert (overlay l' !! q = Some (set_trunk qb true next)) as Hq'.
  { rewrite F1 by tauto. by rewrite Ho, lookup_insert_eq. }
  split.
  - intros id Hi1 Hi2 Hs. apply not_elem_of_cons in Hi1 as [??], Hi2 as [??].
    rewrite F1 by done. by rewrite Ho, !lookup_insert_ne.
  - intros id b [->|Hin]%elem_of_cons Hib; [|by apply F2]. by simplify_eq.
  - intros [|i] x y b Hx Hy Hyb.
    + injection Hx as <-. injection Hy as <-. by simplify_eq.
    + by apply (F3 i).
  - intros h. rewrite F4, Hh. rewrite length_app. cbn [length app].
    repeat case_bool_decide; try lia.
    + replace (Z.to_nat (Z.of_nat (Datatypes.S (length Q1) + length S) - h)) with (Datatypes.S (Z.to_nat (Z.of_nat (length Q1 + length S) - h))) by lia. done.
    + assert (h = Z.of_nat (length Q1 + Datatypes.S (length S))) as -> by lia. rewrite lookup_insert_eq.
      replace (Z.to_nat _) with 0%nat by lia. done.
    + by rewrite lookup_insert_ne by lia.
Qed.

Lemma handleFork_spec fuel : forall p q next l ps qs sb l',
  ids_ok (blocksTable l) -> chain (blocksTable l) (p :: ps) -> chain (blocksTable l) (q :: qs) -> length ps = length qs ->
  List.last (p :: ps) "" = List.last (q :: qs) "" ->
  clean_below l (length ps) -> coherent l -> handleFork fuel p q next l = (Ret sb, l') ->
  staged l l' /\ coherent l' /\
  exists P1 Q1 s S, p :: ps = P1 ++ s :: S /\ q :: qs = Q1 ++ s :: S /\ length P1 = length Q1 /\
    (forall x, x ∈ P1 -> x ∉ q :: qs) /\ Height sb = Z.of_nat (length S) /\ forked l l' next P1 Q1 s S.
Proof.
  induction fuel as [|fuel IH]; intros p q next l ps qs sb l' Hids Hp Hq Hlen Hlast Hclean Hco E; [done|].
  cbn [handleFork] in E. case_bool_decide as Epq.
  - subst q. pose proof (chain_unique _ _ _ _ Hp Hq) as <-.
    destruct (handleFork_base _ _ _ _ _ _ Hids Hp Hclean Hco E) as (H1 & H2 & H3 & H4).
    split_and!; [done..|]. exists [], [], p, ps. split_and!; try done. intros x Hx. by apply elem_of_nil in Hx.
  - destruct (handleFork_turn p q next l ps qs (fun a b => handleFork fuel a b q) sb l' Hids Hp Hq Hlen Hclean Hco Epq E)
      as (l1 & pb & qb & Epb & Eqb & Hs1 & Hco1 & E1 & Ho1 & Hh1).
    destruct (chain_head _ _ _ Hp) as (pb' & Epb' & Hph & Hpp). destruct (chain_head _ _ _ Hq) as (qb' & Eqb' & Hqh & Hqp). simplify_eq.
    destruct ps as [|p' ps]; [destruct qs; [by cbn in Hlast; subst|done]|]. destruct qs as [|q' qs]; [done|].
    destruct (staged_store _ _ Hs1) as (_ & Hb1 & _). rewrite Hpp, Hqp in E1.
    assert (forall y zs x, chain (blocksTable l) (x :: zs) -> length zs = length (q' :: qs) -> y ∈ zs ->
      exists b, blocksTable l !! y = Some b /\ (Height b < Z.of_nat (length (q' :: qs)))%Z) as Hlow.
    { intros y zs x Hc <- Hy. by eapply chain_tail_lower. }
    assert (forall x b, blocksTable l !! x = Some b -> Height b = Z.of_nat (length (q' :: qs)) -> (x ∉ p' :: ps) /\ (x ∉ q' :: qs)) as Hnot.
    { intros x b Hb Hh. split; intros Hin.
      - destruct (Hlow _ _ _ Hp Hlen Hin) as (b' & Hb' & ?). simplify_eq. lia.
      - destruct (Hlow _ _ _ Hq eq_refl Hin) as (b' & Hb' & ?). simplify_eq. lia. }
    rewrite Hlen in Hph. destruct (Hnot _ _ Epb Hph) as [Np Np']. destruct (Hnot _ _ Eqb Hqh) as [Nq Nq'].
    rewrite <- Hb1 in Hids. apply IH with (ps := ps) (qs := qs) in E1 as (Hs2 & Hco2 & P1 & Q1 & s & S & EP & EQ & El & Hdis & Hsb & Hf).
    + split_and!; [by etransitivity|done|]. exists (p :: P1), (q :: Q1), s, S. cbn [app]. rewrite <- EP, <- EQ. split_and!; [done|done|cbn; by f_equal| |done|].
      { intros x [->|Hx]%elem_of_cons [Hq'|Hq']%elem_of_cons; [done..| |by apply (Hdis x)]. subst x. apply Nq. rewrite EP. apply elem_of_app. by left. }
      by eapply (forked_step l l1 l' next p q pb qb (p' :: ps) (q' :: qs)).
    + done.
    + rewrite Hb1. by eapply chain_tail.
    + rewrite Hb1. by eapply chain_tail.
    + by injection Hlen.
    + by rewrite !last_cons_ne in Hlast.
    + intros id b Hb Hh. rewrite Hb1 in Hb. rewrite Ho1. cbn [length] in *.
      rewrite !lookup_insert_ne; [apply Hclean; [done|lia]|intros ->; simplify_eq; lia|intros ->; simplify_eq; lia].
    + done.
Qed.

(** ** The invariant *)

(** [trunk] lists the blocks of the trunk from the tip down. *)
Record ledger_ok (l : Ledger) (trunk : list string) : Prop := {
  lo_ids : ids_ok (blocksTable l);
  lo_trunk : chain (blocksTable l) trunk;
  lo_tip : hd "" trunk = TipBlockid (meta l);
  lo_root : List.last trunk "" = RootBlockid (meta l);
  lo_height : TrunkHeight (meta l) = (Z.of_nat (length trunk) - 1)%Z;
  lo_blocks : forall id b, blocksTable l !! id = Some b ->
    id <> "" /\ (Height b <= TrunkHeight (meta l))%Z /\ InTrunk b = bool_decide (id ∈ trunk) /\
    exists rest, chain (blocksTable l) (id :: rest) /\ List.last (id :: rest) "" = RootBlockid (meta l);
  lo_next : forall i x y b, trunk !! i = Some x -> trunk !! S i = Some y -> blocksTable l !! y = Some b -> NextHash b = x;
  lo_heights : forall h, heightTable l !! h =
    if bool_decide (0 <= h <= TrunkHeight (meta l))%Z then trunk !! Z.to_nat (TrunkHeight (meta l) - h) else None;
  lo_cache : lru_ok (blkHeaderCache l) /\ forall k b, cached (blkHeaderCache l) k = Some b -> blocksTable l !! k = Some b
}.

(** A batch that has been reset. *)
Lemma reset_coherent l : lru_ok (blkHeaderCache l) ->
  (forall k b, cached (blkHeaderCache l) k = Some b -> blocksTable l !! k = Some b) -> coherent (set_batch l []).
Proof. done. Qed.

(** [saveBlock] and the rest of [stage]: the block is added, nothing else
    changes among blocks and heights. *)
Lemma stage_spec pl txs l r l' :
  coherent l -> stage pl txs l = (r, l') ->
  staged l l' /\ coherent l' /\ overlay l' = <[Blockid (pl_block pl) := pl_block pl]> (overlay l) /\
  overlayH l' = (if InTrunk (pl_block pl) then <[Height (pl_block pl) := Blockid (pl_block pl)]> (overlayH l) else overlayH l).
Proof.
  intros Hco. unfold stage, mbnd. cbv zeta. destruct (saveBlock (pl_block pl) l) as [r1 l1] eqn:E1.
  apply saveBlock_spec in E1 as (-> & Hco1 & Hs1 & Ho1 & Hh1); [|done].
  assert (forall l2, unseen l1 l2 -> staged l l2 /\ coherent l2 /\ overlay l2 = <[Blockid (pl_block pl) := pl_block pl]> (overlay l) /\
    overlayH l2 = (if InTrunk (pl_block pl) then <[Height (pl_block pl) := Blockid (pl_block pl)]> (overlayH l) else overlayH l)) as Hend.
  { intros l2 H2. pose proof (unseen_coherent _ _ H2 Hco1). destruct H2 as (H2 & H3 & H4 & _). rewrite H3, H4. split_and!; try done. by etransitivity. }
  unfold updateBranchInfo, mbnd. destruct (batch_put (DelBranch _) l1) as [ra la] eqn:Ea. pose proof (batch_put_unseen _ _ _ _ Ea eq_refl) as Ua.
  apply batch_put_spec in Ea as [-> _]. destruct (batch_put (PutBranch _ _) la) as [rb lb] eqn:Eb. pose proof (batch_put_unseen _ _ _ _ Eb eq_refl) as Ub.
  apply batch_put_spec in Eb as [-> _]. assert (unseen l1 lb) as U2 by by etransitivity.
  destruct (confirm_txs _ _ _ _ lb) as [r3 l3] eqn:E3. apply confirm_txs_unseen in E3. assert (unseen l1 l3) as U3 by by etransitivity.
  destruct r3; [|by intros [= <- <-]; apply Hend..].
  destruct (batch_put (DelPending _) l3) as [r4 l4] eqn:E4. pose proof (batch_put_unseen _ _ _ _ E4 eq_refl) as U4. apply batch_put_spec in E4 as [-> _].
  intros E5. pose proof (batch_put_unseen _ _ _ _ E5 eq_refl) as U5. apply Hend. by do 2 (etransitivity; [eassumption|]).
Qed.

(** The state after a successful confirmation, from the state that was staged. *)
Definition committed (m : LedgerMeta) (l' l2 : Ledger) : Prop :=
  meta l' = m /\ blocksTable l' = overlay l2 /\ heightTable l' = overlayH l2 /\ blkHeaderCache l' = blkHeaderCache l2.

Lemma ConfirmBlock_succ dec fuel block l st b' l' :
  ConfirmBlock dec fuel true block false l = (Ret (st, b'), l') -> Succ st = true ->
  exists pl l1 l2, place_block fuel (set_block block (Height block) (InTrunk block) (NextHash block) []) (set_batch l []) = (Ret pl, l1) /\
    stage pl ((fun tx => set_txBlockid tx (Blockid (pl_block pl))) <$> Transactions block) l1 = (Ret tt, l2) /\
    committed (pl_meta pl) l' l2 /\ Split st = pl_split pl /\ Orphan st = pl_orphan pl /\ TrunkSwitch st = pl_switch pl.
Proof.
  unfold ConfirmBlock. cbv zeta. destruct (place_block _ _ _) as [[pl|e|] l1]; [|intros [= <- <- <-]; done|done].
  destruct (stage pl _ l1) as [[[]|e|] l2] eqn:E2; [|intros [= <- <- <-]; done|done]. intros [= <- <- <-] _.
  exists pl, l1, l2. split_and!; try done.
  set (l4 := set_blockCache _ _). assert (committed (pl_meta pl) l4 l2) as Hc.
  { destruct (apply_batch_tables l2) as (H1 & H2 & H3). split_and!; done. }
  clearbody l4. generalize ((fun tx => set_txBlockid tx (Blockid (pl_block pl))) <$> Transactions block) as txs. intros txs.
  revert l4 Hc. induction txs as [|tx txs IH]; intros l4 Hc; [done|]. cbn [foldl]. apply IH. done.
Qed.

(** ** Growing the tree *)

(** [O] is [B] up to trunk flags and next pointers. *)
Definition flags_only (B O : gmap string InternalBlock) : Prop :=
  forall k, O !! k = B !! k \/ exists b t n, B !! k = Some b /\ O !! k = Some (set_trunk b t n).

Lemma flags_only_lookup B O k b : flags_only B O -> B !! k = Some b ->
  exists b', O !! k = Some b' /\ Blockid b' = Blockid b /\ Height b' = Height b /\ PreHash b' = PreHash b.
Proof. intros Hf Hb. destruct (Hf k) as [E|(b1 & t & n & E1 & E2)]; [exists b; by rewrite E|]. simplify_eq. by eexists. Qed.

Lemma flags_only_back B O k b' : flags_only B O -> O !! k = Some b' ->
  exists b, B !! k = Some b /\ Blockid b' = Blockid b /\ Height b' = Height b /\ PreHash b' = PreHash b.
Proof. intros Hf Hb. destruct (Hf k) as [E|(b1 & t & n & E1 & E2)]; [exists b'; by rewrite <- E|]. simplify_eq. by exists b1. Qed.

Section Grow.
Variables (B O : gmap string InternalBlock) (nb : InternalBlock) (prest : list string) (root : string).
Hypothesis Hids : ids_ok B.
Hypothesis Hflags : flags_only B O.
Hypothesis Hnew : B !! Blockid nb = None.
Hypothesis Hpre : chain B (PreHash nb :: prest).
Hypothesis Hlast : List.last (PreHash nb :: prest) "" = root.
Hypothesis Hheight : Height nb = (Z.of_nat (length prest) + 1)%Z.
Hypothesis Hroots : forall id b, B !! id = Some b -> exists rest, chain B (id :: rest) /\ List.last (id :: rest) "" = root.

Let B' := <[Blockid nb := nb]> O.

Lemma grow_old k b : B !! k = Some b ->
  exists b', B' !! k = Some b' /\ O !! k = Some b' /\ Blockid b' = Blockid b /\ Height b' = Height b /\ PreHash b' = PreHash b.
Proof using Hflags Hnew.
  intros Hb. destruct (flags_only_lookup _ _ _ _ Hflags Hb) as (b' & Hb' & H1 & H2 & H3). exists b'.
  split_and!; try done. unfold B'. rewrite lookup_insert_ne; [done|]. intros <-. congruence.
Qed.

Lemma grow_cases k b' : B' !! k = Some b' -> (k = Blockid nb /\ b' = nb) \/ (k <> Blockid nb /\ O !! k = Some b' /\ exists b, B !! k = Some b /\ Height b' = Height b).
Proof using Hflags.
  unfold B'. destruct (decide (k = Blockid nb)) as [->|Hne]; [rewrite lookup_insert_eq; intros [= <-]; by left|].
  rewrite lookup_insert_ne by done. intros Hb. destruct (flags_only_back _ _ _ _ Hflags Hb) as (b & Hb0 & _ & Hh & _). right. eauto.
Qed.

Lemma grow_ids : ids_ok B'.
Proof using Hids Hflags.
  intros k b' Hb'. unfold B' in Hb'. destruct (decide (k = Blockid nb)) as [->|Hne]; [rewrite lookup_insert_eq in Hb'; by injection Hb' as <-|].
  rewrite lookup_insert_ne in Hb' by (intros E; apply Hne; congruence). destruct (flags_only_back _ _ _ _ Hflags Hb') as (b & Hb & -> & _). exact (Hids _ _ Hb).
Qed.

Lemma grow_chain ids : chain B ids -> chain B' ids.
Proof using Hflags Hnew.
  apply chain_same_tree. intros k b Hb. destruct (grow_old _ _ Hb) as (b' & H1 & _ & _ & H2 & H3). eauto.
Qed.

Lemma grow_new : chain B' (Blockid nb :: PreHash nb :: prest).
Proof using Hflags Hnew Hpre Hheight.
  split; [|by apply grow_chain]. exists nb. unfold B'. rewrite lookup_insert_eq. split_and!; [done|cbn; lia|done].
Qed.

Lemma grow_roots k b' : B' !! k = Some b' -> exists rest, chain B' (k :: rest) /\ List.last (k :: rest) "" = root.
Proof using All.
  intros [[-> ->]|(Hne & Ho & b & Hb & _)]%grow_cases.
  - exists (PreHash nb :: prest). split; [apply grow_new|]. by rewrite last_cons_ne.
  - destruct (Hroots _ _ Hb) as (rest & Hc & Hl). exists rest. split; [by apply grow_chain|done].
Qed.
End Grow.

Lemma chain_members B ids x : chain B ids -> x ∈ ids -> is_Some (B !! x).
Proof. intros Hc (i & Hi)%list_elem_of_lookup. destruct (chain_height _ _ _ _ Hc Hi) as (b & Hb & _). by eexists. Qed.

(** The header with its flags, as [ConfirmBlock] places it. *)
Lemma placed_fields block h t : let nb := set_block block h t (NextHash block) (Transactions block) in
  Blockid nb = Blockid block /\ PreHash nb = PreHash block /\ Height nb = h /\ InTrunk nb = t.
Proof. done. Qed.

Section Cases.
Variables (l l' l1 : Ledger) (trunk : list string) (nb : InternalBlock) (prest : list string).
Hypothesis Hok : ledger_ok l trunk.
Hypothesis Hnew : blocksTable l !! Blockid nb = None.
Hypothesis Hnonempty : Blockid nb <> "".
Hypothesis Hpre : chain (blocksTable l) (PreHash nb :: prest).
Hypothesis Hheight : Height nb = (Z.of_nat (length prest) + 1)%Z.
Hypothesis Hcache : lru_ok (blkHeaderCache l') /\ forall k b, cached (blkHeaderCache l') k = Some b -> blocksTable l' !! k = Some b.
Hypothesis Hblocks : blocksTable l' = <[Blockid nb := nb]> (overlay l1).

Lemma not_in_trunk : Blockid nb ∉ trunk.
Proof using Hok Hnew. intros Hin. destruct (chain_members _ _ _ (lo_trunk _ _ Hok) Hin) as [b Hb]. congruence. Qed.

Lemma pre_root : List.last (PreHash nb :: prest) "" = RootBlockid (meta l).
Proof using Hok Hpre.
  destruct (chain_head _ _ _ Hpre) as (pb & Hpb & _). destruct (lo_blocks _ _ Hok _ _ Hpb) as (_ & _ & _ & rest & Hc & Hl).
  by rewrite (chain_unique _ _ _ _ Hpre Hc).
Qed.

(** What holds of the new block tree, whatever the trunk. *)
Lemma grown : flags_only (blocksTable l) (overlay l1) ->
  ids_ok (blocksTable l') /\ (forall ids, chain (blocksTable l) ids -> chain (blocksTable l') ids) /\
  chain (blocksTable l') (Blockid nb :: PreHash nb :: prest) /\
  forall id b, blocksTable l' !! id = Some b -> id <> "" /\
    exists rest, chain (blocksTable l') (id :: rest) /\ List.last (id :: rest) "" = RootBlockid (meta l).
Proof using All.
  intros Hf. rewrite Hblocks. split_and!.
  - eapply grow_ids; [apply (lo_ids _ _ Hok)|done].
  - intros ids. by apply grow_chain.
  - by apply (grow_new (blocksTable l)).
  - intros id b Hb. split.
    + destruct (grow_cases _ _ _ Hf _ _ Hb) as [[-> _]|(_ & _ & b0 & Hb0 & _)]; [done|]. by apply (lo_blocks _ _ Hok) in Hb0 as [? _].
    + eapply (grow_roots (blocksTable l) (overlay l1) nb prest); try done.
      * apply (lo_ids _ _ Hok).
      * apply pre_root.
      * intros k bk Hk. by apply (lo_blocks _ _ Hok) in Hk as (_ & _ & _ & ?).
Qed.

(** A block off the trunk. *)
Lemma confirm_orphan :
  overlay l1 = blocksTable l -> InTrunk nb = false -> (Height nb <= TrunkHeight (meta l))%Z ->
  meta l' = meta l -> heightTable l' = heightTable l -> ledger_ok l' trunk.
Proof using All.
  intros Ho Ht Hh Em EH. destruct grown as (G1 & G2 & G3 & G4); [rewrite Ho; intros k; by left|]. pose proof not_in_trunk as Hnt.
  split; rewrite ?Em; try done; try apply (lo_tip _ _ Hok); try apply (lo_root _ _ Hok); try apply (lo_height _ _ Hok).
  - apply G2, (lo_trunk _ _ Hok).
  - intros id b Hb. destruct (G4 _ _ Hb) as [? ?]. rewrite Hblocks, Ho in Hb.
    destruct (decide (id = Blockid nb)) as [->|Hne].
    + rewrite lookup_insert_eq in Hb. injection Hb as <-. rewrite bool_decide_eq_false_2 by done. done.
    + rewrite lookup_insert_ne in Hb by done. apply (lo_blocks _ _ Hok) in Hb as (_ & ? & ? & _). done.
  - intros i x y b Hx Hy Hb. rewrite Hblocks, Ho in Hb. apply list_elem_of_lookup_2 in Hy as Hy'.
    rewrite lookup_insert_ne in Hb by (intros <-; done). by eapply (lo_next _ _ Hok).
  - intros h. rewrite EH. apply (lo_heights _ _ Hok).
Qed.

(** A block on top of the tip. *)
Lemma confirm_extend pb :
  PreHash nb = TipBlockid (meta l) -> blocksTable l !! PreHash nb = Some pb ->
  overlay l1 = <[PreHash nb := set_trunk pb (InTrunk pb) (Blockid nb)]> (blocksTable l) -> InTrunk nb = true ->
  meta l' = mkMeta (RootBlockid (meta l)) (Blockid nb) (TrunkHeight (meta l) + 1) ->
  heightTable l' = <[Height nb := Blockid nb]> (<[Height pb := PreHash nb]> (heightTable l)) ->
  trunk = PreHash nb :: prest /\ ledger_ok l' (Blockid nb :: trunk).
Proof using All.
  intros Etip Hpb Ho Ht Em EH.
  assert (trunk = PreHash nb :: prest) as Etr.
  { pose proof (lo_tip _ _ Hok) as H. pose proof (lo_trunk _ _ Hok) as Hc. destruct trunk as [|x rest]; [done|].
    cbn in H. rewrite <- Etip in H. subst x. f_equal. by eapply chain_unique. }
  split; [done|]. pose proof not_in_trunk as Hnt. pose proof (lo_height _ _ Hok) as HTH.
  destruct (chain_head _ _ _ Hpre) as (pb' & Hpb' & Hph & _). rewrite Hpb in Hpb'. injection Hpb' as <-.
  destruct grown as (G1 & G2 & G3 & G4).
  { rewrite Ho. intros k. destruct (decide (k = PreHash nb)) as [->|]; [|left; by rewrite lookup_insert_ne].
    right. exists pb, (InTrunk pb), (Blockid nb). by rewrite lookup_insert_eq. }
  rewrite Etr in HTH. cbn [length] in HTH.
  split; rewrite ?Em; cbn [RootBlockid TipBlockid TrunkHeight]; try done.
  - by rewrite Etr.
  - rewrite Etr, last_cons_ne, <- Etr. apply (lo_root _ _ Hok).
  - rewrite Etr. cbn [length]. lia.
  - intros id b Hb. destruct (G4 _ _ Hb) as [? ?]. rewrite Hblocks, Ho in Hb.
    destruct (decide (id = Blockid nb)) as [->|Hne].
    { rewrite lookup_insert_eq in Hb. injection Hb as <-. split_and!; [done|lia| |done]. rewrite bool_decide_eq_true_2 by left. done. }
    rewrite lookup_insert_ne in Hb by done.
    assert (exists b0, blocksTable l !! id = Some b0 /\ Height b = Height b0 /\ InTrunk b = InTrunk b0) as (b0 & Hb0 & Eh & Et).
    { destruct (decide (id = PreHash nb)) as [->|]; [rewrite lookup_insert_eq in Hb; injection Hb as <-; by exists pb|].
      rewrite lookup_insert_ne in Hb by done. by exists b. }
    apply (lo_blocks _ _ Hok) in Hb0 as (_ & Hle & Htr & _). split_and!; [done|lia| |done].
    rewrite Et, Htr. apply bool_decide_ext. rewrite (elem_of_cons _ id). split; [by right|by intros [?|?]].
  - intros i x y b Hx Hy Hb. rewrite Hblocks, Ho in Hb. cbn in Hy.
    assert (y ∈ trunk) as Hyin by by eapply list_elem_of_lookup_2.
    rewrite lookup_insert_ne in Hb by (intros <-; done).
    destruct i as [|i].
    + injection Hx as <-. rewrite Etr in Hy. injection Hy as <-. rewrite lookup_insert_eq in Hb. by injection Hb as <-.
    + cbn in Hx. rewrite lookup_insert_ne in Hb; [by eapply (lo_next _ _ Hok i)|].
      intros <-. rewrite Etr in Hy. pose proof (chain_NoDup _ _ Hpre) as Hnd. pose proof (NoDup_lookup _ 0 (S i) _ Hnd eq_refl Hy). done.
  - intros h. rewrite EH, Hheight, Hph. case_bool_decide as Hr.
    + destruct (decide (h = Z.of_nat (length prest) + 1)%Z) as [->|].
      { rewrite lookup_insert_eq. replace (Z.to_nat _) with 0%nat by lia. done. }
      rewrite lookup_insert_ne by done. replace (Z.to_nat (TrunkHeight (meta l) + 1 - h)) with (S (Z.to_nat (TrunkHeight (meta l) - h))) by lia.
      cbn [lookup list_lookup]. destruct (decide (h = Z.of_nat (length prest))) as [->|].
      { rewrite lookup_insert_eq, Etr. replace (Z.to_nat _) with 0%nat by lia. done. }
      rewrite lookup_insert_ne by done. rewrite (lo_heights _ _ Hok). rewrite bool_decide_eq_true_2 by lia. done.
    + rewrite !lookup_insert_ne by lia. rewrite (lo_heights _ _ Hok). by rewrite bool_decide_eq_false_2 by lia.
Qed.

(** A block that makes another branch the trunk. *)
Section Switch.
Variables (P1 Q1 : list string) (s : string) (S : list string).
Hypothesis Etr : trunk = P1 ++ s :: S.
Hypothesis Eq : PreHash nb :: prest = Q1 ++ s :: S.
Hypothesis El : length P1 = length Q1.
Hypothesis Hdisj : forall x, x ∈ P1 -> x ∉ PreHash nb :: prest.
Hypothesis Hfork : forked (set_batch l []) l1 (Blockid nb) P1 Q1 s S.

Lemma switch_index y : y ∈ Q1 ++ [s] -> exists i x, (Blockid nb :: Q1) !! i = Some x /\ (Q1 ++ [s]) !! i = Some y.
Proof using All.
  intros (i & Hi)%list_elem_of_lookup. apply lookup_lt_Some in Hi as Hlt. rewrite length_app in Hlt. cbn in Hlt.
  destruct (lookup_lt_is_Some_2 (Blockid nb :: Q1) i) as [x Hx]; [cbn; lia|]. by exists i, x.
Qed.

Lemma switch_member y : y ∈ Q1 ++ [s] -> y ∈ PreHash nb :: prest.
Proof using All. rewrite Eq, !elem_of_app, !elem_of_cons, elem_of_nil. tauto. Qed.

(** The header of a block after the switch. *)
Lemma switch_header k b : blocksTable l !! k = Some b ->
  (k ∈ P1 /\ overlay l1 !! k = Some (set_trunk b false "")) \/
  ((k ∉ P1) /\ k ∈ Q1 ++ [s] /\ exists x, overlay l1 !! k = Some (set_trunk b true x)) \/
  ((k ∉ P1) /\ (k ∉ Q1 ++ [s]) /\ overlay l1 !! k = Some b).
Proof using All.
  intros Hb. destruct Hfork as [F1 F2 F3 _]. destruct (decide (k ∈ P1)) as [Hk|Hk]; [left; split; [done|by apply F2]|right].
  destruct (decide (k ∈ Q1 ++ [s])) as [Hq|Hq]; [left|right].
  - destruct (switch_index _ Hq) as (i & x & Hx & Hy). split_and!; [done..|]. exists x. by apply (F3 i).
  - split_and!; [done..|]. rewrite elem_of_app, list_elem_of_singleton in Hq. rewrite F1 by tauto. done.
Qed.

Lemma switch_flags : flags_only (blocksTable l) (overlay l1).
Proof using All.
  intros k. destruct (blocksTable l !! k) as [b|] eqn:Hb.
  - destruct (switch_header k b Hb) as [[_ H]|[(_ & _ & x & H)|(_ & _ & H)]]; [right; eauto|right; eauto|by left].
  - left. destruct Hfork as [F1 _ _ _]. rewrite F1; [done|..].
    + intros Hk. destruct (chain_members _ _ k (lo_trunk _ _ Hok)) as [b Hb']; [rewrite Etr; apply elem_of_app; by left|congruence].
    + intros Hk. destruct (chain_members _ _ k Hpre) as [b Hb']; [rewrite Eq; apply elem_of_app; by left|congruence].
    + intros ->. destruct (chain_members _ _ s Hpre) as [b Hb']; [rewrite Eq; apply elem_of_app; right; left|congruence].
Qed.

Lemma switch_intrunk k b : blocksTable l !! k = Some b ->
  exists b', overlay l1 !! k = Some b' /\ Height b' = Height b /\ InTrunk b' = bool_decide (k ∈ PreHash nb :: prest).
Proof using All.
  intros Hb. destruct (switch_header k b Hb) as [[Hk H]|[(_ & Hk & x & H)|(Hp & Hk & H)]].
  - eexists. split_and!; [exact H|done|]. rewrite bool_decide_eq_false_2 by by apply Hdisj. done.
  - eexists. split_and!; [exact H|done|]. rewrite bool_decide_eq_true_2 by by apply switch_member. done.
  - exists b. split_and!; [done|done|]. destruct (lo_blocks _ _ Hok _ _ Hb) as (_ & _ & -> & _). apply bool_decide_ext.
    rewrite Eq, Etr. rewrite !elem_of_app, !elem_of_cons, elem_of_nil in *. tauto.
Qed.

Lemma switch_next i x y b : (PreHash nb :: prest) !! i = Some x -> (PreHash nb :: prest) !! Datatypes.S i = Some y ->
  overlay l1 !! y = Some b -> NextHash b = x.
Proof using All.
  rewrite Eq. intros Hx Hy Hb. destruct Hfork as [F1 F2 F3 _].
  destruct (chain_members _ _ y Hpre) as [b0 Hb0]; [rewrite Eq; by eapply list_elem_of_lookup_2|].
  destruct (decide (Datatypes.S i <= length Q1)%nat) as [Hle|Hgt].
  - rewrite (F3 (Datatypes.S i) x y b0) in Hb; [by injection Hb as <-| | |done].
    + cbn. rewrite lookup_app_l in Hx by lia. done.
    + destruct (decide (Datatypes.S i = length Q1)) as [E|].
      * rewrite E in Hy |- *. rewrite list_lookup_middle in Hy by done. rewrite <- Hy. by apply list_lookup_middle.
      * rewrite lookup_app_l in Hy by lia. by rewrite lookup_app_l by lia.
  - rewrite lookup_app_r in Hx, Hy by lia. eapply (lo_next _ _ Hok i).
    + rewrite Etr, lookup_app_r by lia. by rewrite El.
    + rewrite Etr, lookup_app_r by lia. by rewrite El.
    + destruct (switch_header y b0 Hb0) as [[Hk _]|[(_ & Hk & _)|(_ & _ & H)]]; [..|congruence].
      * exfalso. apply (Hdisj y Hk). rewrite Eq. apply elem_of_app. right. by eapply list_elem_of_lookup_2.
      * exfalso. pose proof (chain_NoDup _ _ Hpre) as Hnd. rewrite Eq in Hnd.
        replace (Datatypes.S i - length Q1)%nat with (Datatypes.S (i - length Q1)) in Hy by lia. cbn in Hy.
        apply list_elem_of_lookup_2 in Hy. apply NoDup_app in Hnd as (_ & Hd & Hn). apply NoDup_cons in Hn as [Hs _].
        apply elem_of_app in Hk as [Hk|Hk%list_elem_of_singleton]; [apply (Hd y Hk); by right|by subst].
Qed.
Lemma confirm_switch :
  InTrunk nb = true -> meta l' = mkMeta (RootBlockid (meta l)) (Blockid nb) (Height nb) ->
  heightTable l' = <[Height nb := Blockid nb]> (overlayH l1) ->
  ledger_ok l' (Blockid nb :: PreHash nb :: prest).
Proof using All.
  intros Ht Em EH. pose proof (lo_height _ _ Hok) as HTH.
  destruct (grown switch_flags) as (G1 & G2 & G3 & G4).
  assert (length prest = (length Q1 + length S)%nat) as Elen.
  { apply (f_equal length) in Eq. rewrite length_app in Eq. cbn in Eq. lia. }
  assert (TrunkHeight (meta l) = Z.of_nat (length prest)) as HTH'.
  { rewrite HTH, Etr, length_app. cbn. lia. }
  assert (Blockid nb ∉ PreHash nb :: prest) as Hnt.
  { intros Hin. destruct (chain_members _ _ _ Hpre Hin) as [b Hb]. congruence. }
  split; rewrite ?Em; cbn [RootBlockid TipBlockid TrunkHeight]; try done.
  - rewrite last_cons_ne. apply pre_root.
  - rewrite Hheight. cbn [length]. lia.
  - intros id b Hb. destruct (G4 _ _ Hb) as [? ?]. rewrite Hblocks in Hb.
    destruct (grow_cases _ _ _ switch_flags _ _ Hb) as [[-> ->]|(Hne & Ho & b0 & Hb0 & Hh)].
    + split_and!; [done|lia| |done]. rewrite bool_decide_eq_true_2 by left. done.
    + destruct (lo_blocks _ _ Hok _ _ Hb0) as (_ & Hle & _). destruct (switch_intrunk _ _ Hb0) as (b' & Hb' & _ & Hi). rewrite Ho in Hb'. injection Hb' as <-.
      split_and!; [done|lia| |done]. rewrite Hi. apply bool_decide_ext. rewrite (elem_of_cons _ id (Blockid nb)). split; [by right|by intros [?|?]].
  - intros [|i] x y b Hx Hy Hb; rewrite Hblocks in Hb.
    + injection Hx as <-. injection Hy as <-. rewrite lookup_insert_ne in Hb by (intros E; apply Hnt; rewrite E; left).
      destruct (chain_head _ _ _ Hpre) as (pb & Hpb & _). destruct Hfork as [_ _ F3 _].
      destruct (Q1 ++ [s]) as [|y ys] eqn:EQ1; [by destruct Q1|].
      assert (y = PreHash nb) as -> by (destruct Q1; cbn in Eq, EQ1; congruence).
      rewrite (F3 0%nat (Blockid nb) (PreHash nb) pb eq_refl eq_refl Hpb) in Hb. by injection Hb as <-.
    + assert (y ∈ PreHash nb :: prest) by by eapply (list_elem_of_lookup_2 _ (Datatypes.S i)).
      rewrite lookup_insert_ne in Hb by (intros E; apply Hnt; by rewrite E). by eapply switch_next.
  - intros h. rewrite EH, Hheight. destruct Hfork as [_ _ _ F4].
    destruct (decide (h = Z.of_nat (length prest) + 1)%Z) as [->|Hne].
    { rewrite lookup_insert_eq, bool_decide_eq_true_2 by lia. by rewrite Z.sub_diag. }
    rewrite lookup_insert_ne by done. rewrite F4, <- Eq. change (overlayH (set_batch l [])) with (heightTable l).
    rewrite (lo_heights _ _ Hok), HTH', <- Elen. repeat case_bool_decide; try lia; try done.
    + replace (Z.to_nat (Z.of_nat (length prest) + 1 - h)) with (Datatypes.S (Z.to_nat (Z.of_nat (length prest) - h))) by lia. done.
    + replace (Z.to_nat (Z.of_nat (length prest) + 1 - h)) with (Datatypes.S (Z.to_nat (Z.of_nat (length prest) - h))) by lia.
      cbn [lookup list_lookup]. rewrite Eq, Etr, (lookup_app_r P1), (lookup_app_r Q1) by lia. by rewrite El.
Qed.
End Switch.
End Cases.

(** ** Confirming keeps the invariant *)

(** The three places a block can go. *)
Inductive placed (l : Ledger) (trunk : list string) (block : InternalBlock) (l1 : Ledger) (pl : placement) : Prop :=
| PlExtend pb :
    PreHash block = TipBlockid (meta l) -> blocksTable l !! PreHash block = Some pb ->
    pl_block pl = set_block block (Height pb + 1) true (NextHash block) (Transactions block) ->
    pl_meta pl = mkMeta (RootBlockid (meta l)) (Blockid block) (TrunkHeight (meta l) + 1) ->
    (pl_split pl, pl_orphan pl, pl_switch pl) = (false, false, false) ->
    overlay l1 = <[PreHash block := set_trunk pb (InTrunk pb) (Blockid block)]> (blocksTable l) ->
    overlayH l1 = (if InTrunk pb then <[Height pb := PreHash block]> (heightTable l) else heightTable l) -> placed l trunk block l1 pl
| PlSwitch pb prest P1 Q1 s S :
    PreHash block <> TipBlockid (meta l) -> blocksTable l !! PreHash block = Some pb -> Height pb = TrunkHeight (meta l) ->
    chain (blocksTable l) (PreHash block :: prest) ->
    pl_block pl = set_block block (Height pb + 1) true (NextHash block) (Transactions block) ->
    pl_meta pl = mkMeta (RootBlockid (meta l)) (Blockid block) (Height pb + 1) ->
    (pl_split pl, pl_orphan pl, pl_switch pl) = (true, false, true) ->
    trunk = P1 ++ s :: S -> PreHash block :: prest = Q1 ++ s :: S -> length P1 = length Q1 ->
    (forall x, x ∈ P1 -> x ∉ PreHash block :: prest) -> pl_splitHeight pl = Z.of_nat (length S) ->
    forked (set_batch l []) l1 (Blockid block) P1 Q1 s S -> placed l trunk block l1 pl
| PlOrphan pb :
    PreHash block <> TipBlockid (meta l) -> blocksTable l !! PreHash block = Some pb -> (Height pb < TrunkHeight (meta l))%Z ->
    pl_block pl = set_block block (Height pb + 1) false (NextHash block) (Transactions block) -> pl_meta pl = meta l ->
    (pl_split pl, pl_orphan pl, pl_switch pl) = (true, true, false) ->
    overlay l1 = blocksTable l -> overlayH l1 = heightTable l -> placed l trunk block l1 pl.

Lemma place_block_spec fuel block l trunk pl l1 :
  ledger_ok l trunk -> (TrunkHeight (meta l) < 2 ^ 62)%Z ->
  place_block fuel block (set_batch l []) = (Ret pl, l1) -> coherent l1 /\ placed l trunk block l1 pl.
Proof.
  intros Hok Hbound. unfold place_block, mbnd, gets, quietly, fetchBlockForModify. cbn [meta set_batch].
  destruct (fetchBlock (PreHash block) (set_batch l [])) as [r l0] eqn:E.
  apply fetchBlock_spec in E as (-> & Hco & Hst & Ho & Hh); [|by apply reset_coherent; apply (lo_cache _ _ Hok)|done].
  cbn [blocksTable set_batch] in *. change (overlay (set_batch l [])) with (blocksTable l) in Ho.
  change (overlayH (set_batch l [])) with (heightTable l) in Hh.
  destruct (staged_store _ _ Hst) as (Em & Eb & _ & _). cbn [meta blocksTable set_batch] in *.
  destruct (blocksTable l !! PreHash block) as [pb|] eqn:Epb; [|done].
  pose proof (lo_ids _ _ Hok _ _ Epb) as Eid. rewrite Eid.
  destruct (lo_blocks _ _ Hok _ _ Epb) as (_ & Hle & _ & prest & Hc & Hlast).
  destruct (chain_head _ _ _ Hc) as (pb' & Epb' & Hph & _). rewrite Epb in Epb'. injection Epb' as <-.
  assert (add64 (Height pb) 1 = Height pb + 1)%Z as -> by (apply wrap64_id; unfold is_int64, int64_min, int64_max; lia).
  assert (add64 (TrunkHeight (meta l)) 1 = TrunkHeight (meta l) + 1)%Z as ->.
  { pose proof (lo_height _ _ Hok). apply wrap64_id. unfold is_int64, int64_min, int64_max. lia. }
  case_bool_decide as Etip.
  - cbn [DisableTxDedup]. destruct (saveBlock _ l0) as [r2 l2] eqn:E2. apply saveBlock_spec in E2 as (-> & Hco2 & _ & Ho2 & Hh2); [|done].
    cbn [modify]. intros [= <- <-]. cbn [InTrunk set_trunk set_block Blockid Height] in *. rewrite Eid in *. rewrite Ho in Ho2. rewrite Hh in Hh2.
    split; [exact Hco2|]. by eapply PlExtend.
  - destruct (Z.ltb_spec (TrunkHeight (meta l)) (Height pb + 1)) as [Hlt|Hge].
    2:{ intros [= <- <-]. split; [done|]. eapply PlOrphan; try done. lia. }
    destruct (handleFork fuel _ _ _ l0) as [[sb|e|] l2] eqn:E2; [|done..]. intros [= <- <-].
    pose proof (lo_trunk _ _ Hok) as Htr. pose proof (lo_tip _ _ Hok) as Htip. pose proof (lo_height _ _ Hok) as HTH.
    pose proof (lo_root _ _ Hok) as Hroot. destruct trunk as [|tip rest]; [done|]. cbn [hd length] in Htip, HTH. rewrite <- Htip in *.
    apply handleFork_spec with (ps := rest) (qs := prest) in E2 as (_ & Hco2 & P1 & Q1 & s & S & EP & EQ & El & Hd & Hsb & Hf).
    + split; [done|]. apply (PlSwitch _ _ _ _ _ pb prest P1 Q1 s S); try done.
      * rewrite <- Htip. done.
      * lia.
      * destruct Hf as [F1 F2 F3 F4]. cbn [blocksTable set_batch] in *. rewrite Eb in *.
        split; cbn [blocksTable set_batch].
        -- intros id Hi1 Hi2 Hi3. change (overlay (set_batch l [])) with (blocksTable l). rewrite <- Ho. by apply F1.
        -- exact F2.
        -- exact F3.
        -- intros h. rewrite F4, Hh. done.
    + rewrite Eb. apply (lo_ids _ _ Hok).
    + by rewrite Eb.
    + by rewrite Eb.
    + lia.
    + by rewrite Hroot, Hlast.
    + intros id b Hb _. rewrite Eb in Hb. by rewrite Ho.
    + done.
Qed.

Lemma ConfirmBlock_step dec fuel block l trunk st b' l' :
  ledger_ok l trunk -> (TrunkHeight (meta l) < 2 ^ 62)%Z ->
  blocksTable l !! Blockid block = None -> Blockid block <> "" ->
  ConfirmBlock dec fuel true block false l = (Ret (st, b'), l') -> Succ st = true ->
  exists trunk', ledger_ok l' trunk' /\ is_Some (blocksTable l' !! Blockid block) /\
    ((PreHash block = TipBlockid (meta l) /\ trunk' = Blockid block :: trunk /\ Split st = false /\ TrunkSwitch st = false) \/
     (PreHash block <> TipBlockid (meta l) /\ TrunkSwitch st = true /\ Orphan st = false /\ length trunk' = S (length trunk) /\
      exists prest, chain (blocksTable l) (PreHash block :: prest) /\ trunk' = Blockid block :: PreHash block :: prest) \/
     (PreHash block <> TipBlockid (meta l) /\ Orphan st = true /\ TrunkSwitch st = false /\ trunk' = trunk)).
Proof.
  intros Hok Hbound Hnew Hne E Hs.
  destruct (ConfirmBlock_succ _ _ _ _ _ _ _ E Hs) as (pl & l1 & l2 & Epl & Est & (Em & Eb & EH & Ec) & F1 & F2 & F3).
  destruct (place_block_spec _ _ _ _ _ _ Hok Hbound Epl) as [Hco Hpl].
  destruct (stage_spec _ _ _ _ _ Hco Est) as (_ & Hco2 & Ho2 & Hh2). rewrite Ho2 in Eb. rewrite Hh2 in EH.
  assert (lru_ok (blkHeaderCache l') /\ forall k b, cached (blkHeaderCache l') k = Some b -> blocksTable l' !! k = Some b) as Hcache.
  { rewrite Ec, Eb, <- Ho2. exact Hco2. }
  assert (forall pb, blocksTable l !! PreHash block = Some pb -> exists prest, chain (blocksTable l) (PreHash block :: prest) /\ Height pb = Z.of_nat (length prest)) as Hpre.
  { intros pb Hpb. destruct (lo_blocks _ _ Hok _ _ Hpb) as (_ & _ & _ & prest & Hc & _). exists prest. split; [done|].
    destruct (chain_head _ _ _ Hc) as (b & Hb & Hh & _). by simplify_eq. }
  assert (is_Some (blocksTable l' !! Blockid (pl_block pl))) as Hin by (rewrite Eb, lookup_insert_eq; by eexists).
  destruct Hpl as [pb E1 Hpb Epb Emt Efl Eo Eh|pb prest P1 Q1 s S E1 Hpb Hph Hc Epb Emt Efl EP EQ El Hd _ Hf|pb E1 Hpb Hlt Epb Emt Efl Eo Eh].
  all: rewrite Epb in *; injection Efl as Efl1 Efl2 Efl3; rewrite Emt in Em; rewrite Efl1, Efl2, Efl3 in *;
       cbn [Blockid set_block InTrunk Height] in *.
  - destruct (Hpre _ Hpb) as (prest & Hc & Hh).
    assert (InTrunk pb = true) as Ht.
    { destruct (lo_blocks _ _ Hok _ _ Hpb) as (_ & _ & -> & _). apply bool_decide_eq_true_2. rewrite E1, <- (lo_tip _ _ Hok).
      pose proof (lo_trunk _ _ Hok). destruct trunk; [done|left]. }
    rewrite Ht in Eh. rewrite Eh in EH. rewrite Ht in Eo.
    edestruct (confirm_extend l l' l1 trunk (set_block (set_block block (Height block) (InTrunk block) (NextHash block) []) (Height pb + 1) true (NextHash block) [])
      prest Hok Hnew Hne Hc) as [_ Hok']; [cbn; lia|exact Hcache|exact Eb|exact E1|exact Hpb|rewrite Ht; exact Eo|done|exact Em|exact EH|].
    exists (Blockid block :: trunk). split_and!; [done..|]. left. done.
  - exists (Blockid block :: PreHash block :: prest). destruct (Hpre _ Hpb) as (prest' & Hc' & Hh).
    rewrite <- (chain_unique _ _ _ _ Hc Hc') in Hh. split_and!; [|done|].
    + eapply (confirm_switch l l' l1 trunk (set_block (set_block block (Height block) (InTrunk block) (NextHash block) []) (Height pb + 1) true (NextHash block) [])
        prest Hok Hnew Hne Hc); [cbn; lia|exact Hcache|exact Eb|exact EP|exact EQ|exact El|exact Hd|exact Hf|done|exact Em|exact EH].
    + right. left. split_and!; [done..| |by exists prest]. pose proof (lo_height _ _ Hok). cbn [length]. lia.
  - destruct (Hpre _ Hpb) as (prest & Hc & Hh). exists trunk. split_and!; [|done|right; right; done].
    eapply (confirm_orphan l l' l1 trunk (set_block (set_block block (Height block) (InTrunk block) (NextHash block) []) (Height pb + 1) false (NextHash block) [])
      prest Hok Hnew Hne Hc); [cbn; lia|exact Hcache|exact Eb|exact Eo|done|cbn; lia|exact Em|by rewrite <- Eh].
Qed.

(** C1: confirming keeps the ledger a tree with one trunk.  From a ledger whose
    trunk is the chain of previous blocks of its tip, a new block confirmed
    successfully leaves such a ledger: every block has its parent, one lower,
    down to the genesis block; exactly the blocks of the trunk are flagged, each
    points to the next one, and the height index lists exactly them; no block
    is higher than the tip; the header cache agrees with the store.  A block on
    the tip extends the trunk; a block that makes another branch higher makes
    that branch the trunk, whatever the depth of the fork; any other block
    leaves the trunk as it was. *)
Theorem confirm_keeps_trunk dec fuel block l trunk st b' l' :
  ledger_ok l trunk -> (TrunkHeight (meta l) < 2 ^ 62)%Z ->
  blocksTable l !! Blockid block = None -> Blockid block <> "" ->
  ConfirmBlock dec fuel true block false l = (Ret (st, b'), l') -> Succ st = true ->
  exists trunk', ledger_ok l' trunk' /\ is_Some (blocksTable l' !! Blockid block) /\
    ((PreHash block = TipBlockid (meta l) /\ trunk' = Blockid block :: trunk /\ Split st = false /\ TrunkSwitch st = false) \/
     (PreHash block <> TipBlockid (meta l) /\ TrunkSwitch st = true /\ Orphan st = false /\ length trunk' = S (length trunk) /\
      exists prest, chain (blocksTable l) (PreHash block :: prest) /\ trunk' = Blockid block :: PreHash block :: prest) \/
     (PreHash block <> TipBlockid (meta l) /\ Orphan st = true /\ TrunkSwitch st = false /\ trunk' = trunk)).
Proof. apply ConfirmBlock_step. Qed.


(** ** Blocks that must be accepted *)

(** Every block has its transactions. *)
Definition bodies_ok (l : Ledger) : Prop :=
  forall id b, blocksTable l !! id = Some b -> exists b', queryBlock id true l = Ret b'.

Lemma queryBlock_staged l l' id body : staged l l' -> queryBlock id body l' = queryBlock id body l.
Proof. intros (c & o & ->). done. Qed.

Lemma correct_txs_ret id txs : forall l, exists l', correct_txs id txs l = (Ret tt, l').
Proof. induction txs as [|tx txs IH]; intros l; cbn; [by eexists|]. unfold mbnd. case_bool_decide; apply IH. Qed.

Lemma saveBlock_ret b l : exists l', saveBlock b l = (Ret tt, l') /\ confirmedTable l' = confirmedTable l.
Proof. unfold saveBlock, header_add, mbnd, modify, batch_put. destruct (InTrunk b); by eexists. Qed.

Lemma updateBranchInfo_ret a d h l :
  updateBranchInfo a d h l = (Ret tt, set_batch l ((batch l ++ [DelBranch d]) ++ [PutBranch a (bigString h)])).
Proof. done. Qed.

Lemma handleFork_total fuel : forall p q next l ps qs,
  ids_ok (blocksTable l) -> chain (blocksTable l) (p :: ps) -> chain (blocksTable l) (q :: qs) -> length ps = length qs ->
  List.last (p :: ps) "" = List.last (q :: qs) "" -> clean_below l (length ps) -> coherent l -> bodies_ok l ->
  (length ps < fuel)%nat -> exists sb l', handleFork fuel p q next l = (Ret sb, l').
Proof.
  induction fuel as [|fuel IH]; intros p q next l ps qs Hids Hp Hq Hlen Hlast Hclean Hco Hbod Hf; [lia|]. cbn [handleFork].
  destruct (chain_head _ _ _ Hp) as (pb & Epb & Hph & Hpp). destruct (chain_head _ _ _ Hq) as (qb & Eqb & Hqh & Hqp).
  assert (overlay l !! p = Some pb) as Hop by (apply Hclean; [done|lia]).
  assert (overlay l !! q = Some qb) as Hoq by (apply Hclean; [done|lia]).
  case_bool_decide as Epq; unfold fetchBlockForModify, mbnd.
  - destruct (fetchBlock q l) as [r1 l1] eqn:E1. apply fetchBlock_spec in E1 as (-> & _); [|done|by rewrite Hoq]. rewrite Eqb.
    destruct (saveBlock_ret (set_trunk qb true next) l1) as [l2 [-> _]]. by eexists _, _.
  - destruct (fetchBlock p l) as [r1 l1] eqn:E1. apply fetchBlock_spec in E1 as (-> & Hco1 & Hs1 & Ho1 & _); [|done|by rewrite Hop].
    rewrite Epb. destruct (staged_store _ _ Hs1) as (_ & Hb1 & _).
    destruct (fetchBlock q l1) as [r2 l2] eqn:E2. apply fetchBlock_spec in E2 as (-> & Hco2 & Hs2 & Ho2 & _); [|done|by rewrite Ho1, Hb1, Hoq].
    rewrite Hb1, Eqb, (Hids _ _ Eqb). assert (staged l l2) as Hs by by etransitivity.
    destruct (correctTxsBlockid q l2) as [r3 l3] eqn:E3. pose proof (correctTxsBlockid_unseen _ _ _ _ E3) as U3.
    assert (r3 = Ret tt) as ->.
    { revert E3. unfold correctTxsBlockid, mbnd, query. rewrite (queryBlock_staged _ _ _ _ Hs). destruct (Hbod _ _ Eqb) as [b' ->].
      destruct (correct_txs_ret q (Transactions b') l2) as [l4 ->]. congruence. }
    pose proof (unseen_coherent _ _ U3 Hco2) as Hco3. destruct U3 as (Hs3 & Ho3 & _).
    destruct (saveBlock (set_trunk pb false "") l3) as [r4 l4] eqn:E4. apply saveBlock_spec in E4 as (-> & Hco4 & Hs4 & Ho4 & _); [|done].
    destruct (saveBlock (set_trunk qb true next) l4) as [r5 l5] eqn:E5. apply saveBlock_spec in E5 as (-> & Hco5 & Hs5 & Ho5 & _); [|done].
    assert (staged l l5) as Hs' by (etransitivity; [exact Hs|]; by do 2 (etransitivity; [eassumption|])).
    destruct (staged_store _ _ Hs') as (_ & Hb5 & Hcf & _).
    destruct ps as [|p' ps]; [destruct qs; [by cbn in Hlast; subst|done]|]. destruct qs as [|q' qs]; [done|].
    cbn [PreHash set_trunk set_block Blockid] in *. rewrite (Hids _ _ Epb) in Ho4. rewrite (Hids _ _ Eqb) in Ho5. rewrite Hpp, Hqp.
    apply (IH p' q' q l5 ps qs); rewrite ?Hb5; try done.
    + by eapply chain_tail.
    + by eapply chain_tail.
    + by injection Hlen.
    + intros id b Hb Hh. rewrite Hb5 in Hb. rewrite Ho5, Ho4, Ho3, Ho2, Ho1. cbn [length] in *.
      rewrite !lookup_insert_ne; [apply Hclean; [done|lia]|intros ->; simplify_eq; lia|intros ->; simplify_eq; lia].
    + intros id b Hb. rewrite Hb5 in Hb. rewrite (queryBlock_staged _ _ _ _ Hs'). by eapply Hbod.
    + cbn in Hf. lia.
Qed.

Lemma confirm_txs_fresh b sh txs : forall n l,
  (n + length (List.filter Coinbase txs) <= 1)%nat -> (forall tx, tx ∈ txs -> confirmedTable l !! Txid tx = None) ->
  exists l', confirm_txs b sh n txs l = (Ret tt, l').
Proof.
  induction txs as [|tx txs IH]; intros n l Hn Hf; cbn [confirm_txs]; [by eexists|]. cbn [List.filter] in Hn.
  assert ((if Coinbase tx then S n else n) + length (List.filter Coinbase txs) <= 1)%nat as Hn' by (destruct (Coinbase tx); cbn in *; lia).
  destruct (Nat.ltb_spec 1 (if Coinbase tx then S n else n)); [lia|]. unfold mbnd, gets.
  rewrite (Hf tx) by left. unfold batch_put, modify. apply IH; [done|]. intros tx' Hin. cbn. apply Hf. by right.
Qed.

Lemma place_block_accepts fuel block l trunk pb :
  ledger_ok l trunk -> (TrunkHeight (meta l) < 2 ^ 62)%Z -> bodies_ok l -> (length trunk <= fuel)%nat ->
  blocksTable l !! PreHash block = Some pb ->
  exists pl l1, place_block fuel block (set_batch l []) = (Ret pl, l1) /\ confirmedTable l1 = confirmedTable l.
Proof.
  intros Hok Hbound Hbod Hfuel Epb. unfold place_block, mbnd, gets, quietly, fetchBlockForModify. cbn [meta set_batch].
  destruct (fetchBlock (PreHash block) (set_batch l [])) as [r l0] eqn:E.
  apply fetchBlock_spec in E as (-> & Hco & Hst & Ho & Hh); [|by apply reset_coherent; apply (lo_cache _ _ Hok)|done].
  destruct (staged_store _ _ Hst) as (Em & Eb & Ec & _). cbn [meta blocksTable confirmedTable set_batch] in *. rewrite Epb.
  change (overlay (set_batch l [])) with (blocksTable l) in Ho.
  pose proof (lo_ids _ _ Hok _ _ Epb) as Eid. rewrite Eid.
  destruct (lo_blocks _ _ Hok _ _ Epb) as (_ & Hle & _ & prest & Hc & Hlast).
  destruct (chain_head _ _ _ Hc) as (pb' & Epb' & Hph & _). rewrite Epb in Epb'. injection Epb' as <-.
  assert (add64 (Height pb) 1 = Height pb + 1)%Z as -> by (apply wrap64_id; unfold is_int64, int64_min, int64_max; lia).
  case_bool_decide as Etip.
  - cbn [DisableTxDedup]. destruct (saveBlock _ l0) as [r2 l2] eqn:E2. apply saveBlock_spec in E2 as (-> & _ & Hs2 & _); [|done].
    destruct (staged_store _ _ Hs2) as (_ & _ & Ec2 & _). eexists _, _. split; [done|]. cbn. congruence.
  - destruct (Z.ltb_spec (TrunkHeight (meta l)) (Height pb + 1)) as [Hlt|Hge]; [|by eexists _, _].
    pose proof (lo_trunk _ _ Hok) as Htr. pose proof (lo_tip _ _ Hok) as Htip. pose proof (lo_height _ _ Hok) as HTH.
    pose proof (lo_root _ _ Hok) as Hroot. destruct trunk as [|tip rest]; [done|]. cbn [hd length] in Htip, HTH, Hfuel. rewrite <- Htip in *.
    destruct (handleFork_total fuel tip (PreHash block) (Blockid block) l0 rest prest) as (sb & l2 & E2); rewrite ?Eb; try done.
    + apply (lo_ids _ _ Hok).
    + lia.
    + by rewrite Hroot, Hlast.
    + intros id b Hb _. rewrite Eb in Hb. by rewrite Ho.
    + intros id b Hb. rewrite Eb in Hb. rewrite (queryBlock_staged _ _ _ _ Hst). by eapply Hbod.
    + rewrite E2. eexists _, _. split; [done|].
      apply handleFork_spec with (ps := rest) (qs := prest) in E2 as (Hs2 & _); rewrite ?Eb; try done.
      * destruct (staged_store _ _ Hs2) as (_ & _ & Ec2 & _). congruence.
      * apply (lo_ids _ _ Hok).
      * lia.
      * by rewrite Hroot, Hlast.
      * intros id b Hb _. rewrite Eb in Hb. by rewrite Ho.
Qed.

(** C28: a good block is accepted.  On a ledger in order whose blocks have their
    transactions, a block whose parent is in the ledger, with at most one
    coinbase and only transactions not confirmed before, is confirmed when the
    store takes the write: the fork handling terminates (the height of the trunk
    bounds its turns) and nothing refuses the block. *)
Theorem good_block_confirmed dec fuel block l trunk :
  ledger_ok l trunk -> (TrunkHeight (meta l) < 2 ^ 62)%Z -> bodies_ok l -> (length trunk <= fuel)%nat ->
  is_Some (blocksTable l !! PreHash block) -> (length (List.filter Coinbase (Transactions block)) <= 1)%nat ->
  (forall tx, tx ∈ Transactions block -> confirmedTable l !! Txid tx = None) ->
  exists st b' l', ConfirmBlock dec fuel true block false l = (Ret (st, b'), l') /\ Succ st = true /\ Error st = None.
Proof.
  intros Hok Hbound Hbod Hfuel [pb Hpb] Hcb Hfresh.
  destruct (place_block_accepts fuel (set_block block (Height block) (InTrunk block) (NextHash block) []) l trunk pb Hok Hbound Hbod Hfuel Hpb)
    as (pl & l1 & E1 & Ec1).
  unfold ConfirmBlock. cbv zeta. rewrite E1.
  set (txs := (fun tx => set_txBlockid tx (Blockid (pl_block pl))) <$> Transactions block).
  assert (exists l2, stage pl txs l1 = (Ret tt, l2)) as [l2 E2]; [|rewrite E2; by eexists _, _, _].
  assert (length (List.filter Coinbase txs) = length (List.filter Coinbase (Transactions block))) as Hcb'.
  { unfold txs. clear. induction (Transactions block) as [|tx l IH]; [done|]. cbn. destruct (Coinbase tx); cbn; [by f_equal|done]. }
  unfold stage. cbv zeta. destruct (saveBlock_ret (pl_block pl) l1) as (la & Ea & Eca). rewrite (mbnd_ret _ _ _ _ _ Ea).
  rewrite (mbnd_ret _ _ _ _ _ (updateBranchInfo_ret _ _ _ _)).
  destruct (confirm_txs_fresh (pl_block pl) (pl_splitHeight pl) txs 0
    (set_batch la ((batch la ++ [DelBranch (PreHash (pl_block pl))]) ++ [PutBranch (Blockid (pl_block pl)) (bigString (Height (pl_block pl)))])))
    as [lb Eb]; [by rewrite Hcb'| |rewrite (mbnd_ret _ _ _ _ _ Eb); by eexists].
  intros tx Hin. cbn. rewrite Eca, Ec1. apply list_elem_of_fmap in Hin as (tx0 & -> & Hin). exact (Hfresh tx0 Hin).
Qed.

(** ** From one tip to another *)

(** Two chains down to the same block part at one block, and never met above. *)
Lemma chains_part B C D root :
  chain B C -> chain B D -> List.last C "" = root -> List.last D "" = root ->
  exists U T s S, C = U ++ s :: S /\ D = T ++ s :: S /\ (forall x, x ∈ U -> x ∉ D) /\ (forall x, x ∈ T -> x ∉ C).
Proof.
  intros HC HD LC LD.
  assert (forall A : list string, A <> [] -> List.last A "" ∈ A) as Hlast.
  { induction A as [|a [|b A] IH]; intros Hne; [done|left|]. rewrite last_cons_ne. right. by apply IH. }
  assert (root ∈ C /\ root ∈ D) as [RC RD].
  { split; [rewrite <- LC|rewrite <- LD]; apply Hlast; by destruct C, D. }
  assert (exists U s S, C = U ++ s :: S /\ s ∈ D /\ forall x, x ∈ U -> x ∉ D) as (U & s & S & EC & Hs & HU).
  { clear -RC RD. induction C as [|c C IH]; [by apply elem_of_nil in RC|].
    destruct (decide (c ∈ D)) as [Hc|Hc]; [exists [], c, C; split_and!; [done..|]; intros x Hx; by apply elem_of_nil in Hx|].
    apply elem_of_cons in RC as [->|RC]; [done|]. destruct (IH RC) as (U & s & S & -> & Hs & HU).
    exists (c :: U), s, S. split_and!; [done..|]. intros x [->|Hx]%elem_of_cons; auto. }
  apply list_elem_of_split in Hs as (T & S' & ED).
  assert (S' = S) as ->.
  { apply (chain_unique B s); [eapply chain_suffix; by rewrite <- ED|eapply chain_suffix; by rewrite <- EC]. }
  exists U, T, s, S. split_and!; [done..|]. intros x Hx Hin. rewrite EC in Hin. apply elem_of_app in Hin as [Hin|Hin].
  - apply (HU x Hin). rewrite ED. apply elem_of_app. by left.
  - pose proof (chain_NoDup _ _ HD) as Hnd. rewrite ED in Hnd. apply NoDup_app in Hnd as (_ & Hd & _). by apply (Hd x).
Qed.

(** The block with its transactions, as [queryBlock] returns it. *)
Definition body_of (l : Ledger) (id : string) : InternalBlock :=
  match queryBlock id true l with Ret b => b | _ => FormatRootBlock [] end.

Lemma body_of_spec l id b : ids_ok (blocksTable l) -> bodies_ok l -> blocksTable l !! id = Some b ->
  queryBlock id true l = Ret (body_of l id) /\ Blockid (body_of l id) = id /\ Height (body_of l id) = Height b /\ PreHash (body_of l id) = PreHash b.
Proof.
  intros Hids Hbod Hb. unfold body_of. destruct (Hbod _ _ Hb) as [b' E]. rewrite E. split; [done|].
  unfold queryBlock in E. rewrite Hb in E. destruct (_ || _); [done|]. destruct (query_txs _ _) as [txs|e|]; [|done..].
  injection E as <-. cbn. split_and!; [by apply Hids|done..].
Qed.

(** Going down one block on a side: the parent has been seen exactly when it is
    the fork block and the other side is there. *)
Lemma seen_iff (V : gset string) C D U T R s i j x :
  NoDup C -> NoDup D -> C = U ++ s :: R -> D = T ++ s :: R -> (forall x, x ∈ U -> x ∉ D) ->
  (forall x, x ∈ V <-> x ∈ take (S i) C \/ x ∈ take (S j) D) ->
  (i < length U)%nat -> (j <= length T)%nat -> C !! S i = Some x ->
  x ∈ V <-> (S i = length U /\ j = length T).
Proof.
  intros NC ND EC ED HU HV Hi Hj Hx. rewrite HV. split.
  - intros [Hin|Hin].
    + apply list_elem_of_lookup in Hin as [k Hk]. apply lookup_take_Some in Hk as [Hk Hlt]. pose proof (NoDup_lookup _ _ _ _ NC Hk Hx). lia.
    + assert (x ∈ D) as HxD by (apply list_elem_of_lookup in Hin as [k Hk]; apply lookup_take_Some in Hk as [Hk _]; by eapply list_elem_of_lookup_2).
      assert (x = s /\ S i = length U) as [-> Hsi].
      { rewrite EC in Hx. destruct (decide (S i < length U)%nat) as [Hlt|].
        - rewrite lookup_app_l in Hx by done. exfalso. eapply HU; [by eapply list_elem_of_lookup_2|done].
        - assert (S i = length U) as E by lia. rewrite E, list_lookup_middle in Hx by done. by injection Hx as <-. }
      split; [done|]. apply list_elem_of_lookup in Hin as [k Hk]. apply lookup_take_Some in Hk as [Hk Hlt].
      assert (D !! length T = Some s) as HsD by (rewrite ED; by apply list_lookup_middle).
      pose proof (NoDup_lookup _ _ _ _ ND Hk HsD). lia.
  - intros [Hsi ->]. right. rewrite EC, Hsi, list_lookup_middle in Hx by done. injection Hx as <-.
    apply list_elem_of_lookup. exists (length T). rewrite lookup_take_lt by lia. rewrite ED. by apply list_lookup_middle.
Qed.

Section Walk.
Variables (l : Ledger) (C D U T R : list string) (s : string).
Hypothesis Hids : ids_ok (blocksTable l).
Hypothesis Hbod : bodies_ok l.
Hypothesis Hne : forall id b, blocksTable l !! id = Some b -> id <> "".
Hypothesis HC : chain (blocksTable l) C.
Hypothesis HD : chain (blocksTable l) D.
Hypothesis EC : C = U ++ s :: R.
Hypothesis ED : D = T ++ s :: R.
Hypothesis HU : forall x, x ∈ U -> x ∉ D.
Hypothesis HT : forall x, x ∈ T -> x ∉ C.

(** The walk when the old side is at [C !! i] and the new side at [D !! j]. *)
Record at_step (w : walk) (i j : nat) : Prop := {
  as_old : exists x, C !! i = Some x /\ w_old w = body_of l x;
  as_new : exists y, D !! j = Some y /\ w_new w = body_of l y;
  as_undo : w_undo w = body_of l <$> take (S i) C;
  as_todo : w_todo w = body_of l <$> take (S j) D;
  as_visited : forall x, x ∈ w_visited w <-> x ∈ take (S i) C \/ x ∈ take (S j) D
}.

Lemma at_height A i x : chain (blocksTable l) A -> A !! i = Some x ->
  Blockid (body_of l x) = x /\ Height (body_of l x) = (Z.of_nat (length A) - 1 - Z.of_nat i)%Z /\
  queryBlock x true l = Ret (body_of l x).
Proof using All.
  intros HA Hi. destruct (chain_height _ _ _ _ HA Hi) as (b & Hb & Hh). destruct (body_of_spec _ _ _ Hids Hbod Hb) as (H1 & H2 & H3 & _).
  split_and!; [done|congruence|done].
Qed.

(** The parent of the block at [i]. *)
Lemma at_pre A i x y : chain (blocksTable l) A -> A !! i = Some x -> A !! S i = Some y ->
  PreHash (body_of l x) = y /\ is_empty_string y = false.
Proof using All.
  intros HA Hi Hy. destruct (chain_height _ _ _ _ HA Hi) as (b & Hb & _). destruct (body_of_spec _ _ _ Hids Hbod Hb) as (_ & _ & _ & ->).
  destruct (chain_height _ _ _ _ HA Hy) as (yb & Hyb & _). apply Hne in Hyb.
  assert (A = take i A ++ x :: y :: drop (S (S i)) A) as EA.
  { rewrite <- (take_drop i A) at 1. f_equal. rewrite (drop_S _ _ _ Hi). f_equal. by apply drop_S. }
  rewrite EA in HA. apply chain_suffix in HA. destruct (chain_head _ _ _ HA) as (b' & Hb' & _ & Hp). rewrite Hb in Hb'. injection Hb' as <-.
  split; [done|]. by destruct y.
Qed.

(** The fork. *)
Definition split_found (w : walk) (id : string) : Prop :=
  id = s /\
  ((w_undo w = body_of l <$> U /\ w_todo w = body_of l <$> T ++ [s]) \/
   (w_undo w = body_of l <$> U ++ [s] /\ w_todo w = body_of l <$> T)).

Lemma take_split A V : A = V ++ s :: R -> take (length V) A = V /\ take (S (length V)) A = V ++ [s].
Proof using.
  intros ->. split; [by rewrite take_app_length|].
  rewrite <- (take_drop 1 (s :: R)) at 1. cbn [take drop]. rewrite app_assoc.
  replace (S (length V)) with (length (V ++ [s])) by (rewrite length_app; cbn; lia). apply take_app_length.
Qed.

Lemma walk_old w i j : at_step w i j -> (i < length U)%nat -> (j <= length T)%nat ->
  exists x, C !! S i = Some x /\ PreHash (w_old w) = x /\ is_empty_string x = false /\ queryBlock x true l = Ret (body_of l x) /\
    (bool_decide (Blockid (body_of l x) ∈ w_visited w) = true -> S i = length U /\ j = length T /\ x = s) /\
    (bool_decide (Blockid (body_of l x) ∈ w_visited w) = false -> (S i, j) <> (length U, length T) /\
      at_step (mkWalk (body_of l x) (w_new w) ({[ Blockid (body_of l x) ]} ∪ w_visited w) (w_undo w ++ [body_of l x]) (w_todo w)) (S i) j).
Proof using All.
  intros Hw Hi Hj. destruct (lookup_lt_is_Some_2 C (S i)) as [x Hx]; [rewrite EC, length_app; cbn; lia|].
  destruct (as_old _ _ _ Hw) as (o & Ho & Ewo). destruct (at_pre C i o x HC Ho Hx) as [Hp He].
  destruct (at_height C (S i) x HC Hx) as (Hid & _ & Hq). exists x. rewrite Ewo, Hid.
  pose proof (seen_iff (w_visited w) C D U T R s i j x (chain_NoDup _ _ HC) (chain_NoDup _ _ HD) EC ED HU (as_visited _ _ _ Hw) Hi Hj Hx) as Hs.
  split_and!; try done.
  - intros Hv%bool_decide_eq_true. apply Hs in Hv as [H1 ->]. split_and!; [done..|].
    rewrite EC, H1, list_lookup_middle in Hx by done. by injection Hx.
  - intros Hv%bool_decide_eq_false. split; [intros [= H1 H2]; apply Hv, Hs; done|].
    split; cbn [w_old w_new w_undo w_todo w_visited].
    + by exists x.
    + apply (as_new _ _ _ Hw).
    + rewrite (as_undo _ _ _ Hw). rewrite (take_S_r C (S i) x Hx), fmap_app. done.
    + apply (as_todo _ _ _ Hw).
    + intros z. rewrite elem_of_union, elem_of_singleton, (as_visited _ _ _ Hw), (take_S_r C (S i) x Hx), elem_of_app, list_elem_of_singleton. tauto.
Qed.

Lemma walk_new w i j : at_step w i j -> (i <= length U)%nat -> (j < length T)%nat ->
  exists y, D !! S j = Some y /\ PreHash (w_new w) = y /\ is_empty_string y = false /\ queryBlock y true l = Ret (body_of l y) /\
    (bool_decide (Blockid (body_of l y) ∈ w_visited w) = true -> S j = length T /\ i = length U /\ y = s) /\
    (bool_decide (Blockid (body_of l y) ∈ w_visited w) = false -> (i, S j) <> (length U, length T) /\
      at_step (mkWalk (w_old w) (body_of l y) ({[ Blockid (body_of l y) ]} ∪ w_visited w) (w_undo w) (w_todo w ++ [body_of l y])) i (S j)).
Proof using All.
  intros Hw Hi Hj. destruct (lookup_lt_is_Some_2 D (S j)) as [y Hy]; [rewrite ED, length_app; cbn; lia|].
  destruct (as_new _ _ _ Hw) as (o & Ho & Ewo). destruct (at_pre D j o y HD Ho Hy) as [Hp He].
  destruct (at_height D (S j) y HD Hy) as (Hid & _ & Hq). exists y. rewrite Ewo, Hid.
  assert (forall x, x ∈ w_visited w <-> x ∈ take (S j) D \/ x ∈ take (S i) C) as Hv by (intros x; rewrite (as_visited _ _ _ Hw); tauto).
  pose proof (seen_iff (w_visited w) D C T U R s j i y (chain_NoDup _ _ HD) (chain_NoDup _ _ HC) ED EC HT Hv Hj Hi Hy) as Hs.
  split_and!; try done.
  - intros Hb%bool_decide_eq_true. apply Hs in Hb as [H1 ->]. split_and!; [done..|].
    rewrite ED, H1, list_lookup_middle in Hy by done. by injection Hy.
  - intros Hb%bool_decide_eq_false. split; [intros [= H1 H2]; apply Hb, Hs; done|].
    split; cbn [w_old w_new w_undo w_todo w_visited].
    + apply (as_old _ _ _ Hw).
    + by exists y.
    + apply (as_undo _ _ _ Hw).
    + rewrite (as_todo _ _ _ Hw). rewrite (take_S_r D (S j) y Hy), fmap_app. done.
    + intros z. rewrite elem_of_union, elem_of_singleton, (as_visited _ _ _ Hw), (take_S_r D (S j) y Hy), elem_of_app, list_elem_of_singleton. tauto.
Qed.

(** The comparison of heights compares the distances to the fork. *)
Lemma walk_heights w i j : at_step w i j -> (i <= length U)%nat -> (j <= length T)%nat ->
  (Height (w_new w) <=? Height (w_old w))%Z = (length T - j <=? length U - i)%nat /\
  (Height (w_old w) <=? Height (w_new w))%Z = (length U - i <=? length T - j)%nat.
Proof using All.
  intros Hw Hi Hj. destruct (as_old _ _ _ Hw) as (x & Hx & ->). destruct (as_new _ _ _ Hw) as (y & Hy & ->).
  destruct (at_height C i x HC Hx) as (_ & -> & _). destruct (at_height D j y HD Hy) as (_ & -> & _).
  assert (length C = length U + S (length R))%nat as -> by (rewrite EC, length_app; done).
  assert (length D = length T + S (length R))%nat as -> by (rewrite ED, length_app; done).
  split; apply eq_bool_prop_intro; rewrite !Is_true_true, Z.leb_le, Nat.leb_le; lia.
Qed.

Lemma find_split_spec fuel : forall w i j, at_step w i j -> (i <= length U)%nat -> (j <= length T)%nat ->
  (i, j) <> (length U, length T) -> (length U - i + (length T - j) < fuel)%nat ->
  exists w', find_split fuel l w = Ret (w', s) /\ split_found w' s.
Proof using All.
  destruct (take_split C U EC) as [TC1 TC2]. destruct (take_split D T ED) as [TD1 TD2].
  induction fuel as [|fuel IH]; intros w i j Hw Hi Hj Hd Hf; [lia|]. cbn [find_split]. cbv zeta.
  destruct (walk_heights _ _ _ Hw Hi Hj) as [-> Hh2].
  destruct (Nat.leb_spec (length T - j) (length U - i)) as [Hle|Hgt].
  - assert (i < length U)%nat as Hi' by (destruct (decide (i = length U)); [exfalso; apply Hd; f_equal; lia|lia]).
    destruct (walk_old _ _ _ Hw Hi' Hj) as (x & Hx & -> & He & Hq & Hyes & Hno). rewrite He. cbn [negb andb]. rewrite Hq. cbn [outcome_bind].
    destruct (bool_decide (Blockid (body_of l x) ∈ w_visited w)) eqn:Ev.
    { destruct (Hyes eq_refl) as (H1 & H2 & ->). cbn [outcome_bind]. destruct (at_height C (S i) s HC Hx) as (Hid & _). rewrite Hid. eexists. split; [done|].
      split; [done|]. left. cbn. rewrite (as_undo _ _ _ Hw), (as_todo _ _ _ Hw), H1, H2, TC1, TD2. done. }
    cbn [outcome_bind]. destruct (Hno eq_refl) as [Hd1 Hw1]. destruct (walk_heights _ _ _ Hw1 ltac:(lia) Hj) as [_ ->].
    destruct (Nat.leb_spec (length U - S i) (length T - j)) as [Hle2|Hgt2].
    + assert (j < length T)%nat as Hj' by (destruct (decide (j = length T)); [exfalso; apply Hd1; f_equal; lia|lia]).
      destruct (walk_new _ _ _ Hw1 ltac:(lia) Hj') as (y & Hy & -> & He2 & Hq2 & Hyes2 & Hno2). rewrite He2. cbn [negb andb]. rewrite Hq2. cbn [outcome_bind].
      destruct (bool_decide (Blockid (body_of l y) ∈ _)) eqn:Ev2.
      { destruct (Hyes2 eq_refl) as (H1 & H2 & ->). cbn [outcome_bind]. destruct (at_height D (S j) s HD Hy) as (Hid & _). rewrite Hid. eexists. split; [done|].
        split; [done|]. right. cbn [w_undo w_todo]. pose proof (as_undo _ _ _ Hw1) as E1. cbn [w_undo] in E1. rewrite E1, (as_todo _ _ _ Hw), H1, H2, TC2, TD1. done. }
      cbn [outcome_bind]. destruct (Hno2 eq_refl) as [Hd2 Hw2]. apply (IH _ (S i) (S j)); [exact Hw2|lia..|done|lia].
    + cbn [negb andb]. rewrite andb_false_r. cbn [outcome_bind]. apply (IH _ (S i) j); [exact Hw1|lia..|done|lia].
  - rewrite andb_false_r. cbn [outcome_bind]. rewrite Hh2. destruct (Nat.leb_spec (length U - i) (length T - j)); [|lia].
    destruct (walk_new _ _ _ Hw Hi ltac:(lia)) as (y & Hy & -> & He2 & Hq2 & Hyes2 & Hno2). rewrite He2. cbn [negb andb]. rewrite Hq2. cbn [outcome_bind].
    destruct (bool_decide (Blockid (body_of l y) ∈ _)) eqn:Ev2.
    { destruct (Hyes2 eq_refl) as (H1 & H2 & ->). cbn [outcome_bind]. destruct (at_height D (S j) s HD Hy) as (Hid & _). rewrite Hid. eexists. split; [done|].
      split; [done|]. right. cbn [w_undo w_todo]. rewrite (as_undo _ _ _ Hw), (as_todo _ _ _ Hw), H1, H2, TC2, TD1. done. }
    cbn [outcome_bind]. rewrite andb_false_r. destruct (Hno2 eq_refl) as [Hd2 Hw2]. apply (IH _ i (S j)); [exact Hw2|lia..|done|lia].
Qed.
End Walk.

Lemma drop_last_if_cut l ids s : Blockid (body_of l s) = s -> drop_last_if s (body_of l <$> ids ++ [s]) = body_of l <$> ids.
Proof.
  intros Hs. unfold drop_last_if. rewrite !fmap_app. cbn [fmap list_fmap]. rewrite last_app_nonempty by done. cbn [List.last].
  rewrite bool_decide_eq_true_2 by done. apply removelast_last.
Qed.

Lemma drop_last_if_keep l ids s : (forall x, x ∈ ids -> Blockid (body_of l x) <> s) ->
  drop_last_if s (body_of l <$> ids) = body_of l <$> ids.
Proof.
  intros Hs. unfold drop_last_if. destruct ids as [|x ids] using rev_ind; [done|]. rewrite !fmap_app. cbn [fmap list_fmap].
  rewrite last_app_nonempty by done. cbn [List.last]. rewrite bool_decide_eq_false_2; [done|]. apply Hs. apply elem_of_app. right. left.
Qed.

(** C15: the way from one tip to another.  For two blocks of a ledger in order,
    [FindUndoAndTodoBlocks] terminates and returns the blocks from the current
    one down to, and those from the target down to, the highest block they have
    in common, that block excluded: undoing the first list in order and then
    applying the second backwards leads from one to the other, and no block is
    in both. *)
Theorem undo_todo_is_the_path l trunk cur dest fuel :
  ledger_ok l trunk -> bodies_ok l -> is_Some (blocksTable l !! cur) -> is_Some (blocksTable l !! dest) ->
  (2 * length trunk <= fuel)%nat ->
  exists U T s R, FindUndoAndTodoBlocks fuel cur dest l = Ret (body_of l <$> U, body_of l <$> T) /\
    chain (blocksTable l) (U ++ s :: R) /\ hd s U = cur /\ chain (blocksTable l) (T ++ s :: R) /\ hd s T = dest /\
    (forall x, x ∈ U -> x ∉ T ++ s :: R) /\ (forall x, x ∈ T -> x ∉ U ++ s :: R) /\
    (forall x, x ∈ U ++ T -> queryBlock x true l = Ret (body_of l x) /\ Blockid (body_of l x) = x).
Proof.
  intros Hok Hbod [cb Hcb] [db Hdb] Hfuel. pose proof (lo_ids _ _ Hok) as Hids.
  destruct (lo_blocks _ _ Hok _ _ Hcb) as (_ & Hch & _ & C & HC & LC). destruct (lo_blocks _ _ Hok _ _ Hdb) as (_ & Hdh & _ & D & HD & LD).
  assert (forall A x, chain (blocksTable l) A -> x ∈ A -> queryBlock x true l = Ret (body_of l x) /\ Blockid (body_of l x) = x) as Hq.
  { intros A x HA Hx. destruct (chain_members _ _ _ HA Hx) as [b Hb]. destruct (body_of_spec _ _ _ Hids Hbod Hb) as (? & ? & _). done. }
  destruct (chains_part _ _ _ _ HC HD LC LD) as (U & T & s & R & EC & ED & HU & HT).
  assert (hd s U = cur /\ hd s T = dest) as [HhU HhT] by (destruct U, T; cbn in EC, ED; simplify_eq; done).
  exists U, T, s, R. rewrite <- EC, <- ED. split_and!; try done.
  2:{ intros x [Hx|Hx]%elem_of_app; [apply (Hq _ _ HC); rewrite EC|apply (Hq _ _ HD); rewrite ED]; apply elem_of_app; by left. }
  unfold FindUndoAndTodoBlocks. case_bool_decide as Ecd.
  { destruct U as [|u U].
    - destruct T as [|t T]; [done|]. exfalso. cbn in HhT. apply (HT t); [left|]. rewrite HhT, Ecd. left.
    - exfalso. cbn in HhU. apply (HU u); [left|]. rewrite HhU, <- Ecd. left. }
  destruct (Hq _ cur HC ltac:(left)) as [-> Eid]. cbn [outcome_bind]. destruct (Hq _ dest HD ltac:(left)) as [-> Eid']. cbn [outcome_bind].
  assert (length U + length R = length C /\ length T + length R = length D)%nat as [LU LT].
  { apply (f_equal length) in EC, ED. rewrite length_app in EC, ED. cbn in EC, ED. lia. }
  destruct (chain_head _ _ _ HC) as (cb' & Ecb' & Hch' & _). destruct (chain_head _ _ _ HD) as (db' & Edb' & Hdh' & _).
  rewrite Hcb in Ecb'. rewrite Hdb in Edb'. injection Ecb' as <-. injection Edb' as <-. pose proof (lo_height _ _ Hok) as HTH.
  destruct (find_split_spec l (cur :: C) (dest :: D) U T R s) with (fuel := fuel) (i := 0%nat) (j := 0%nat)
    (w := mkWalk (body_of l cur) (body_of l dest) {[ Blockid (body_of l cur); Blockid (body_of l dest) ]} [body_of l cur] [body_of l dest])
    as (w' & E & Es & Hw'); try done; try lia.
  - intros id b Hb. by destruct (lo_blocks _ _ Hok _ _ Hb).
  - split; cbn [w_old w_new w_undo w_todo w_visited]; [by exists cur|by exists dest|done|done|].
    intros x. rewrite Eid, Eid'. cbn [take]. rewrite elem_of_union, !elem_of_singleton, !list_elem_of_singleton. done.
  - intros [= H1 H2]. destruct U, T; try done. cbn in HhU, HhT. congruence.
  - rewrite E. cbn [outcome_bind].
    assert (s ∈ cur :: C) as HsC by (rewrite EC; apply elem_of_app; right; left).
    assert ((s ∉ U) /\ (s ∉ T)) as [NU NT].
    { split; intros Hin; [apply (HU s Hin); rewrite ED|apply (HT s Hin); rewrite EC]; apply elem_of_app; right; left. }
    assert (forall A x, x ∈ A -> (A = U \/ A = T) -> Blockid (body_of l x) <> s) as Hnot.
    { intros A x Hx HA Hb. destruct HA as [->| ->].
      - destruct (Hq _ x HC) as [_ Hi]; [rewrite EC; apply elem_of_app; by left|]. congruence.
      - destruct (Hq _ x HD) as [_ Hi]; [rewrite ED; apply elem_of_app; by left|]. congruence. }
    destruct Hw' as [[-> ->]|[-> ->]]; rewrite drop_last_if_cut by (by apply (Hq _ s HC)); rewrite drop_last_if_keep by eauto; done.
Qed.

(** ** The first block *)

Definition empty_ledger : Ledger :=
  mkLedger (mkMeta "" "" 0) (mkMeta "" "" 0) ∅ ∅ ∅ ∅ ∅ (NewLRUCache BlockCacheSize) (NewLRUCache BlockCacheSize) (NewLRUCache TxCacheSize) [].

(** Confirming the genesis block on an empty ledger establishes the invariant. *)
Lemma genesis_establishes dec fuel block st b' l' :
  Blockid block <> "" -> ConfirmBlock dec fuel true block true empty_ledger = (Ret (st, b'), l') -> Succ st = true ->
  ledger_ok l' [Blockid block].
Proof.
  intros Hne. unfold ConfirmBlock. cbv zeta. unfold place_root, mbnd, gets. cbn [meta set_batch empty_ledger].
  destruct (is_empty_string (PreHash _)) eqn:Ep; [|intros [= <- <- <-]; done]. cbn [negb RootBlockid is_empty_string].
  cbn [PreHash set_block] in Ep.
  cbv beta iota delta [mpure]. set (pl := mkPlace _ _ _ _ _ _). match goal with |- context [stage pl ?t _] => set (txs := t) end.
  destruct (stage pl txs (set_batch empty_ledger [])) as [[[]|e|] l2] eqn:E2; [|intros [= <- <- <-]; done|done].
  apply stage_spec in E2 as (Hst & Hco & Ho & Hh); [|split; [split; [constructor|done]|done]].
  destruct (apply_batch_tables l2) as (T1 & T2 & T3).
  set (l3 := set_meta (apply_batch l2) (pl_meta pl)). intros H Hs.
  assert (exists bc, l' = foldl (fun l tx => tx_add tx l) (set_blockCache l3 bc) txs) as [bc ->].
  { destruct (loadGenesisBlock dec l3); simplify_eq; by eexists. }
  set (nb := pl_block pl) in *. assert (PreHash nb = "") as Epre by (cbn; by destruct (PreHash block)).
  assert (committed (pl_meta pl) (foldl (fun l tx => tx_add tx l) (set_blockCache l3 bc) txs) l2) as (Em & Eb & EH & Ec).
  { generalize txs. intros ts. assert (committed (pl_meta pl) (set_blockCache l3 bc) l2) as Hc by (split_and!; done).
    revert Hc. generalize (set_blockCache l3 bc). induction ts as [|t ts IH]; intros l4 Hc; [done|]. cbn [foldl]. by apply IH. }
  generalize dependent (foldl (fun l tx => tx_add tx l) (set_blockCache l3 bc) txs). intros lf H Em Eb EH Ec.
  rewrite Ho in Eb. change (overlay (set_batch empty_ledger [])) with (∅ : gmap string InternalBlock) in Eb.
  rewrite Hh in EH. change (overlayH (set_batch empty_ledger [])) with (∅ : gmap Z string) in EH.
  change (InTrunk nb) with true in EH. change (Blockid nb) with (Blockid block) in *. change (Height nb) with 0%Z in EH.
  assert (chain (blocksTable lf) [Blockid block]) as Hc.
  { rewrite Eb. split; [|done]. exists nb. rewrite lookup_insert_eq. done. }
  split; rewrite ?Em; try done.
  - intros id b Hb. rewrite Eb in Hb. apply lookup_insert_Some in Hb as [[<- <-]|[_ Hb]]; [done|by rewrite lookup_empty in Hb].
  - intros id b Hb. rewrite Eb in Hb. apply lookup_insert_Some in Hb as [[<- <-]|[_ Hb]]; [|by rewrite lookup_empty in Hb].
    split_and!; [done|done| |by exists []]. rewrite bool_decide_eq_true_2 by left. done.
  - intros h. rewrite EH. destruct (decide (h = 0%Z)) as [->|].
    + rewrite lookup_insert_eq. by rewrite bool_decide_eq_true_2.
    + rewrite lookup_insert_ne, lookup_empty by done. cbn. rewrite bool_decide_eq_false_2 by lia. done.
  - rewrite Ec, Eb. destruct Hco as [H1 H2]. split; [exact H1|]. rewrite Ho in H2. exact H2.
Qed.

(** ** Examples *)

Module LedgerExample.
Definition tx (id : string) (cb : bool) : Transaction := mkTx id "" cb false "cfg" [] [] [] [] None.
Definition blk (id pre : string) (txs : list Transaction) : InternalBlock :=
  mkBlk 1 0 id pre "" "" "" "" 0 0 txs (Z.of_nat (length txs)) ((fun t => Some (Txid t)) <$> txs) 0 0 ∅ 0 None false "".
Definition confirm (isRoot : bool) (l : Ledger) (b : InternalBlock) : Ledger := (ConfirmBlock (fun _ => true) 10 true b isRoot l).2.
Definition result (isRoot : bool) (l : Ledger) (b : InternalBlock) : ConfirmStatus * option InternalBlock :=
  match (ConfirmBlock (fun _ => true) 10 true b isRoot l).1 with Ret r => r | _ => (mkStatus false false false false None, None) end.
Definition succeeds (l : Ledger) (b : InternalBlock) : bool := Succ (result false l b).1.

Lemma confirm_result isRoot l b : is_ret (ConfirmBlock (fun _ => true) 10 true b isRoot l).1 = true ->
  ConfirmBlock (fun _ => true) 10 true b isRoot l = (Ret ((result isRoot l b).1, (result isRoot l b).2), confirm isRoot l b).
Proof. unfold confirm, result. by destruct (ConfirmBlock _ _ _ _ _ _) as [[[]|e|] l']. Qed.

Definition g : InternalBlock := blk "g" "" [tx "t0" true].
Definition a1 : InternalBlock := blk "a1" "g" [tx "t1" false].
Definition b1 : InternalBlock := blk "b1" "g" [tx "t1" false].
Definition b2 : InternalBlock := blk "b2" "b1" [tx "t2" false].
(** Two coinbase transactions. *)
Definition b2bad : InternalBlock := blk "b2" "b1" [tx "t2" true; tx "t3" true].
Definition a2 : InternalBlock := blk "a2" "a1" [tx "t4" false].

Definition l0 : Ledger := confirm true empty_ledger g.
(** The trunk g, a1 and the branch b1. *)
Definition l1 : Ledger := foldl (confirm false) l0 [a1; b1].
Definition l2 : Ledger := confirm false l1 b2.
End LedgerExample.

Import LedgerExample.

Lemma l0_ok : ledger_ok l0 ["g"].
Proof.
  eapply (genesis_establishes (fun _ => true) 10 g); [done|apply confirm_result; vm_compute; reflexivity|vm_compute; reflexivity].
Qed.

(** Confirming a block of the examples. *)
Lemma example_step l trunk b : ledger_ok l trunk -> (TrunkHeight (meta l) < 2 ^ 62)%Z -> blocksTable l !! Blockid b = None -> Blockid b <> "" ->
  is_ret (ConfirmBlock (fun _ => true) 10 true b false l).1 && succeeds l b = true ->
  exists trunk', ledger_ok (confirm false l b) trunk' /\
    trunk' = (if bool_decide (PreHash b = TipBlockid (meta l)) then Blockid b :: trunk else if Orphan (result false l b).1 then trunk else trunk').
Proof.
  intros Hok Hb Hn He [Hr Hs]%andb_true_iff.
  destruct (ConfirmBlock_step _ _ _ _ _ _ _ _ Hok Hb Hn He (confirm_result _ _ _ Hr) Hs) as (t & Ht & _ & Hc). exists t. split; [done|].
  destruct Hc as [(-> & -> & _)|[(Hne & _ & Eo & _)|(Hne & -> & _ & ->)]].
  - by rewrite bool_decide_eq_true_2.
  - rewrite bool_decide_eq_false_2 by done. by rewrite Eo.
  - by rewrite bool_decide_eq_false_2.
Qed.

Lemma l1_ok : ledger_ok l1 ["a1"; "g"].
Proof.
  destruct (example_step l0 ["g"] a1 l0_ok) as (t1 & H1 & E1); [vm_compute; reflexivity..|done|vm_compute; reflexivity|].
  assert (t1 = ["a1"; "g"]) as -> by (rewrite E1; vm_compute; reflexivity).
  destruct (example_step (confirm false l0 a1) ["a1"; "g"] b1 H1) as (t2 & H2 & E2); [vm_compute; reflexivity..|done|vm_compute; reflexivity|].
  assert (t2 = ["a1"; "g"]) as -> by (rewrite E2; vm_compute; reflexivity). exact H2.
Qed.

Lemma l1_bodies : bodies_ok l1.
Proof.
  assert (map_Forall (fun id b => is_ret (queryBlock id true l1) = true) (blocksTable l1)) as H.
  { apply (bool_decide_unpack _). vm_compute. exact I. }
  intros id b Hb. specialize (H _ _ Hb). cbv beta in H. destruct (queryBlock id true l1) as [b'|e|]; [by exists b'|discriminate H..].
Qed.

Lemma confirm_keeps_trunk_witness : exists trunk', ledger_ok l2 trunk' /\ length trunk' = 3%nat.
Proof.
  destruct (confirm_keeps_trunk (fun _ => true) 10 b2 l1 ["a1"; "g"] (result false l1 b2).1 (result false l1 b2).2 l2) as (t & Ht & _ & Hc).
  - exact l1_ok.
  - vm_compute. reflexivity.
  - vm_compute. reflexivity.
  - discriminate.
  - apply confirm_result. vm_compute. reflexivity.
  - vm_compute. reflexivity.
  - exists t. split; [exact Ht|]. destruct Hc as [(_ & -> & _)|[(_ & _ & _ & -> & _)|(_ & Ho & _)]]; [reflexivity|reflexivity|].
    vm_compute in Ho. discriminate Ho.
Defined.

Lemma good_block_confirmed_witness :
  exists st b' l', ConfirmBlock (fun _ => true) 10 true b2 false l1 = (Ret (st, b'), l') /\ Succ st = true /\ Error st = None.
Proof.
  apply (good_block_confirmed (fun _ => true) 10 b2 l1 ["a1"; "g"]).
  - exact l1_ok.
  - vm_compute. reflexivity.
  - exact l1_bodies.
  - cbn. lia.
  - apply (bool_decide_unpack _). vm_compute. exact I.
  - cbn. lia.
  - intros t Ht. apply list_elem_of_singleton in Ht as ->. vm_compute. reflexivity.
Defined.

Lemma undo_todo_is_the_path_witness :
  exists U T s R, FindUndoAndTodoBlocks 4 "a1" "b1" l1 = Ret (body_of l1 <$> U, body_of l1 <$> T) /\
    chain (blocksTable l1) (U ++ s :: R) /\ chain (blocksTable l1) (T ++ s :: R).
Proof.
  destruct (undo_todo_is_the_path l1 ["a1"; "g"] "a1" "b1" 4 l1_ok l1_bodies) as (U & T & s & R & H1 & H2 & _ & H3 & _).
  - apply (bool_decide_unpack _). vm_compute. exact I.
  - apply (bool_decide_unpack _). vm_compute. exact I.
  - cbn. lia.
  - exists U, T, s, R. split_and!; assumption.
Defined.

(** A refused block can damage the trunk.  The header cache keeps what a
    refused block staged: after the trunk g, a1 with a branch b1, a block on b1
    that is refused (it has two coinbase transactions) leaves a1 cached as off
    the trunk although the store was not touched; the next good block a2, on
    a1, is then confirmed and writes that header back, so that the store has a
    trunk whose block a1 is not flagged, and the transaction of a1 is reported
    as not being in the trunk once the block cache no longer answers for it. *)
Theorem refused_block_corrupts_trunk :
  let l3 := confirm false l1 b2bad in
  let l4 := confirm false l3 a2 in
  succeeds l1 b2bad = false /\ blocksTable l3 = blocksTable l1 /\ meta l3 = meta l1 /\
  succeeds l3 a2 = true /\ TipBlockid (meta l4) = "a2" /\ PreHash <$> (blocksTable l4 !! "a2") = Some "a1" /\
  InTrunk <$> (blocksTable l1 !! "a1") = Some true /\ InTrunk <$> (blocksTable l4 !! "a1") = Some false /\
  heightTable l4 !! 1%Z = Some "a1" /\ (IsTxInTrunk "t1" (set_blockCache l4 (NewLRUCache 1000))).1 = Ret false.
Proof. vm_compute. split_and!; reflexivity. Qed.
