(* ===== verification/XModel.v ===== *)
(** * The versioned key-value state

    [bcs/ledger/xledger/state/xmodel]: the store below the contract sandbox.
    It keeps, for every key, the version that holds its value: the transaction
    and the output that wrote it.  The value itself is in the transaction.  A
    transaction names the versions it read; playing it checks that they are
    still current and makes its outputs the new versions; rolling it back
    restores the versions it read.

    A batch is an object with an identity ([b_id]) that collects writes; the
    model compares the identity with that of the last batch, as the code
    compares pointers.  The tables of the state database have different
    prefixes, so they are separate maps. *)

From Stdlib Require Import ZArith Lia Ascii.
From stdpp Require Import base gmap strings list numbers sorting.
From S2P Require Import Prelude GoValues Sandbox LruCache LedgerHash Ledger.

Set Default Proof Using "Type".

(** ** Versions *)

Definition hex_char (n : Z) : ascii := byte_char (if (n <? 10)%Z then n + 48 else n + 87).

Definition hex_digit (c : ascii) : option Z :=
  let n := byte_of c in
  if ((48 <=? n) && (n <=? 57))%Z then Some (n - 48)%Z
  else if ((97 <=? n) && (n <=? 102))%Z then Some (n - 87)%Z
  else if ((65 <=? n) && (n <=? 70))%Z then Some (n - 55)%Z
  else None.

(** [%x] of a byte slice. *)
Fixpoint hex_encode (s : string) : string :=
  match s with
  | EmptyString => ""
  | String c s => String (hex_char (byte_of c / 16)) (String (hex_char (byte_of c mod 16)) (hex_encode s))
  end.

(** [%x] of [Sscanf]: the bytes read and the text left, [None] when a byte is
    cut in the middle. *)
Fixpoint scan_hex (s : string) : option (string * string) :=
  match s with
  | EmptyString => Some ("", "")
  | String a s1 =>
      match hex_digit a with
      | None => Some ("", s)
      | Some x =>
          match s1 with
          | EmptyString => None
          | String b rest =>
              match hex_digit b with
              | None => None
              | Some y =>
                  match scan_hex rest with
                  | None => None
                  | Some (bytes, tl) => Some (String (byte_char (x * 16 + y)) bytes, tl)
                  end
              end
          end
      end
  end.

(** [%d] of [Sscanf] into an [int]; text after the number is left alone. *)
Definition scan_int (s : string) : option Z :=
  if has_digit (split_sign s).2 then
    let v := (SetString s).1 in
    if bool_decide (is_int64 v) then Some v else None
  else None.

(** The versions of the tables hold no blanks, which [Sscanf] would skip. *)
Definition parseVersion (version : string) : outcome (string * Z) :=
  let failed := Err ("parseVersion failed, invalid version: " +:+ version) in
  match scan_hex version with
  | Some (txid, String "_" rest) =>
      if is_empty_string txid then failed
      else match scan_int rest with Some offset => Ret (txid, offset) | None => failed end
  | _ => failed
  end.

Definition MakeVersion (txid : string) (offset : Z) : string := hex_encode txid +:+ "_" +:+ bigString offset.

Definition GetVersion (vd : VersionedData) : string :=
  match RefTxid vd with None => "" | Some txid => MakeVersion txid (RefOffset vd) end.

Definition GetVersionOfTxInput (txIn : TxInputExt) : string :=
  match ie_RefTxid txIn with None => "" | Some txid => MakeVersion txid (ie_RefOffset txIn) end.

Definition GetTxInputs (vds : list VersionedData) : list TxInputExt :=
  (fun vd => mkTxInExt (vd_bucket vd) (vd_key vd) (RefTxid vd) (RefOffset vd)) <$> vds.

Definition GetTxOutputs (pds : list VersionedData) : list TxOutputExt :=
  (fun pd => mkTxOutExt (vd_bucket pd) (vd_key pd) (Some (vd_value pd))) <$> pds.

Definition makeEmptyVersionedData (bucket key : string) : VersionedData := mkVD bucket key (Raw "") None 0.

(** ** The state database and its batches *)

Record UtxoItem := mkItem { Amount : Z; FrozenHeight : Z }.

Inductive state_op :=
| PutExt (key version : string)
| DelExt (key : string)
| PutGc (key version : string)
| DelGc (key : string)
| PutUnconfirmed (txid : string) (tx : Transaction)
| DelUnconfirmed (txid : string)
| PutUtxo (key : string) (item : UtxoItem)
| DelUtxo (key : string)
| PutTotal (total : Z)
| PutPointer (blockid : string)
| PutIrreversible (height : Z).

Record StateDB := mkDB {
  unconfirmTable : gmap string Transaction;
  extUtxoTable : gmap string string;
  extUtxoDelTable : gmap string string;
  utxoTable : gmap string UtxoItem;
  totalKey : option Z;
  pointerKey : option string;
  irreversibleKey : option Z
}.

Definition db_op (d : StateDB) (op : state_op) : StateDB :=
  let '(mkDB un ext gc ut tot ptr irr) := d in
  match op with
  | PutExt k v => mkDB un (<[k := v]> ext) gc ut tot ptr irr
  | DelExt k => mkDB un (delete k ext) gc ut tot ptr irr
  | PutGc k v => mkDB un ext (<[k := v]> gc) ut tot ptr irr
  | DelGc k => mkDB un ext (delete k gc) ut tot ptr irr
  | PutUnconfirmed id tx => mkDB (<[id := tx]> un) ext gc ut tot ptr irr
  | DelUnconfirmed id => mkDB (delete id un) ext gc ut tot ptr irr
  | PutUtxo k i => mkDB un ext gc (<[k := i]> ut) tot ptr irr
  | DelUtxo k => mkDB un ext gc (delete k ut) tot ptr irr
  | PutTotal z => mkDB un ext gc ut (Some z) ptr irr
  | PutPointer id => mkDB un ext gc ut tot (Some id) irr
  | PutIrreversible h => mkDB un ext gc ut tot ptr (Some h)
  end.

Record Batch := mkBatch { b_id : nat; b_ops : list state_op }.

Definition db_write (d : StateDB) (ops : list state_op) : StateDB := foldl db_op d ops.

(** ** XModel *)

Definition bucketExtUTXOCacheSize : Z := 1024.

Record XModel := mkXM {
  ledger : Ledger;
  db : StateDB;
  xbatch : Batch;
  batchCache : gmap string string;
  lastBatch : option nat;
  extUtxoCache : gmap string (LRUCache string VersionedData)
}.

Definition set_ledger s v := mkXM v (db s) (xbatch s) (batchCache s) (lastBatch s) (extUtxoCache s).
Definition set_db s v := mkXM (ledger s) v (xbatch s) (batchCache s) (lastBatch s) (extUtxoCache s).
Definition set_xbatch s v := mkXM (ledger s) (db s) v (batchCache s) (lastBatch s) (extUtxoCache s).
Definition set_batchCache s v := mkXM (ledger s) (db s) (xbatch s) v (lastBatch s) (extUtxoCache s).
Definition set_extUtxoCache s v := mkXM (ledger s) (db s) (xbatch s) (batchCache s) (lastBatch s) v.

(** [batch.Put] and [batch.Delete]. *)
Definition emit (op : state_op) (s : XModel) : XModel :=
  set_xbatch s (mkBatch (b_id (xbatch s)) (b_ops (xbatch s) ++ [op])).

(** [ldb.NewBatch()] and [batch.Write()]. *)
Definition NewBatch (s : XModel) : XModel := set_xbatch s (mkBatch (S (b_id (xbatch s))) []).
Definition WriteBatch (s : XModel) : XModel := set_db s (db_write (db s) (b_ops (xbatch s))).

Definition cleanCache (newBatch : option nat) (s : XModel) : XModel :=
  if decide (newBatch = lastBatch s) then s
  else mkXM (ledger s) (db s) (xbatch s) ∅ newBatch (extUtxoCache s).

Definition CleanCache (s : XModel) : XModel := cleanCache None s.

Definition bucketCache (bucket : string) (s : XModel) : LRUCache string VersionedData :=
  default (NewLRUCache bucketExtUTXOCacheSize) (extUtxoCache s !! bucket).

Definition set_bucketCache (bucket : string) (c : LRUCache string VersionedData) (s : XModel) : XModel :=
  set_extUtxoCache s (<[bucket := c]> (extUtxoCache s)).

Definition bucketCacheStore (bucket version : string) (value : VersionedData) (s : XModel) : XModel :=
  set_bucketCache bucket (Add (bucketCache bucket s) version value).2 s.

Definition bucketCacheGet (bucket version : string) (s : XModel) : option VersionedData * XModel :=
  let (hit, c) := Get (bucketCache bucket s) version in (hit, set_bucketCache bucket c s).

Definition BucketCacheDelete (bucket version : string) (s : XModel) : XModel :=
  set_bucketCache bucket (Del (bucketCache bucket s) version) s.

(** The unconfirmed transactions, then the ledger; whether it is confirmed. *)
Definition queryTx (txid : string) : M XModel (Transaction * bool) := fun s =>
  match unconfirmTable (db s) !! txid with
  | Some tx => (Ret (tx, false), s)
  | None =>
      let (o, l) := QueryTransaction txid (ledger s) in
      (match o with Ret tx => Ret (tx, true) | Err e => Err e | Panic => Panic end, set_ledger s l)
  end.

(** An output as versioned data. *)
Definition output_data (txid : string) (offset : Z) (out : TxOutputExt) : VersionedData :=
  mkVD (oe_Bucket out) (oe_Key out) (default (Raw "") (oe_Value out)) (Some txid) offset.

Definition fetchVersionedData (bucket version : string) : M XModel VersionedData := fun s =>
  let (hit, s) := bucketCacheGet bucket version s in
  match hit with
  | Some value => (Ret value, s)
  | None =>
      (let! p := mlift (parseVersion version) in
       let! q := queryTx p.1 in
       let outs := TxOutputsExt q.1 in
       if (Z.of_nat (length outs) <=? p.2)%Z
       then mfail ("xmodel.Get failed, offset overflow: " +:+ bigString p.2 +:+ ", " +:+ bigString (Z.of_nat (length outs)))
       else if (p.2 <? 0)%Z then mpanic
       else match outs !! Z.to_nat p.2 with
            | None => mpanic
            | Some out =>
                let value := output_data p.1 (wrap32 p.2) out in
                fun s => (Ret value, bucketCacheStore bucket version value s)
            end) s
  end.
Arguments fetchVersionedData : simpl never.

Definition GetFromLedger (txin : TxInputExt) : M XModel VersionedData :=
  match ie_RefTxid txin with
  | None => mpure (makeEmptyVersionedData (ie_Bucket txin) (ie_Key txin))
  | Some txid => fetchVersionedData (ie_Bucket txin) (MakeVersion txid (ie_RefOffset txin))
  end.

(** Deleted keys keep their version in the second table. *)
Definition XModel_Get (bucket key : string) : M XModel VersionedData := fun s =>
  let rawKey := makeRawKey bucket key in
  match extUtxoTable (db s) !! rawKey with
  | Some version => fetchVersionedData bucket version s
  | None =>
      match extUtxoDelTable (db s) !! rawKey with
      | Some version => fetchVersionedData bucket version s
      | None => (Ret (makeEmptyVersionedData bucket key), s)
      end
  end.

Definition GetUncommited (bucket key : string) : M XModel VersionedData := fun s =>
  match batchCache s !! makeRawKey bucket key with
  | Some version =>
      if is_empty_string version then (Ret (makeEmptyVersionedData bucket key), s)
      else fetchVersionedData bucket version s
  | None => XModel_Get bucket key s
  end.

Definition GetWithTxStatus (bucket key : string) : M XModel (VersionedData * bool) :=
  let! data := XModel_Get bucket key in
  fun s => let (o, l) := HasTransaction (default "" (RefTxid data)) (ledger s) in
           (match o with Ret b => Ret (data, b) | Err e => Err e | Panic => Panic end, set_ledger s l).

(** [XMIterator] run to its end: the versions fetched until the table ends or a
    fetch fails, and that error. *)
Fixpoint iterate (bucket : string) (l : list (string * string)) (s : XModel)
    : outcome (list VersionedData * option string) * XModel :=
  match l with
  | [] => (Ret ([], None), s)
  | (_, version) :: l =>
      match fetchVersionedData bucket version s with
      | (Ret v, s) =>
          match iterate bucket l s with
          | (Ret (vs, e), s) => (Ret (v :: vs, e), s)
          | r => r
          end
      | (Err e, s) => (Ret ([], Some e), s)
      | (Panic, s) => (Panic, s)
      end
  end.

(** The keys of the table from the start, up to the limit. *)
Definition table_range (t : gmap string string) (start limit : string) : list (string * string) :=
  List.filter (fun kv => bool_decide (str_lt kv.1 limit)) (rb_from t start).

Definition XModel_Select (bucket startKey endKey : string) : M XModel (list VersionedData * option string) := fun s =>
  iterate bucket (table_range (extUtxoTable (db s)) (makeRawKey bucket startKey) (makeRawKey bucket endKey)) s.

(** ** Playing and rolling back a transaction *)

Fixpoint verify_inputs (ins : list TxInputExt) : M XModel unit :=
  match ins with
  | [] => mpure tt
  | txIn :: ins =>
      let! verData := GetUncommited (ie_Bucket txIn) (ie_Key txIn) in
      let localVer := GetVersion verData in
      let remoteVer := GetVersionOfTxInput txIn in
      if! negb (bool_decide (localVer = remoteVer))
        fails ("verifyInputs failed, version missmatch: " +:+ ie_Bucket txIn +:+ " / " +:+ ie_Key txIn +:+
               ", local: " +:+ localVer +:+ ", remote:" +:+ remoteVer) in
      verify_inputs ins
  end.
Definition verifyInputs (tx : Transaction) : M XModel unit := verify_inputs (TxInputsExt tx).

Definition out_raw (out : TxOutputExt) : string := makeRawKey (oe_Bucket out) (oe_Key out).
Definition in_raw (txIn : TxInputExt) : string := makeRawKey (ie_Bucket txIn) (ie_Key txIn).
Definition transient (out : TxOutputExt) : bool := bool_decide (oe_Bucket out = TransientBucket).

(** Every key written must be among the keys read, with a value. *)
Fixpoint verify_outputs (inputKeys : gset string) (outs : list TxOutputExt) : outcome unit :=
  match outs with
  | [] => Ret tt
  | out :: outs =>
      if transient out then verify_outputs inputKeys outs
      else if negb (bool_decide (out_raw out ∈ inputKeys))
      then Err ("verifyOutputs failed, not such key in txInputsExt: " +:+ out_raw out)
      else match oe_Value out with
           | None => Err "verifyOutputs failed, value can't be null"
           | Some _ => verify_outputs inputKeys outs
           end
  end.
Definition verifyOutputs (tx : Transaction) : outcome unit :=
  verify_outputs (list_to_set (in_raw <$> TxInputsExt tx)) (TxOutputsExt tx).

Definition is_del (out : TxOutputExt) : bool := IsDelFlag (default (Raw "") (oe_Value out)).

(** One output becomes the version of its key. *)
Definition update_output (txid : string) (inBlock : bool) (offset : nat) (out : TxOutputExt) (s : XModel) : XModel :=
  if transient out then s
  else
    let valueVersion := MakeVersion txid (wrap32 (Z.of_nat offset)) in
    let s := if is_del out then emit (PutGc (out_raw out) valueVersion) (emit (DelExt (out_raw out)) s)
             else emit (PutExt (out_raw out) valueVersion) s in
    let s := if inBlock then set_batchCache s (<[out_raw out := valueVersion]> (batchCache s)) else s in
    bucketCacheStore (oe_Bucket out) valueVersion (output_data txid (wrap32 (Z.of_nat offset)) out) s.

Fixpoint update_outputs (txid : string) (inBlock : bool) (offset : nat) (outs : list TxOutputExt) (s : XModel) : XModel :=
  match outs with
  | [] => s
  | out :: outs => update_outputs txid inBlock (S offset) outs (update_output txid inBlock offset out s)
  end.

Definition updateExtUtxo (tx : Transaction) (s : XModel) : XModel :=
  update_outputs (Txid tx) (negb (is_empty_string (TxBlockid tx))) 0 (TxOutputsExt tx) s.

Definition XModel_DoTx (tx : Transaction) : M XModel unit := fun s =>
  let s := if is_empty_string (TxBlockid tx) then s else cleanCache (Some (b_id (xbatch s))) s in
  (do! verifyInputs tx in
   do! mlift (verifyOutputs tx) in
   fun s => (Ret tt, updateExtUtxo tx s)) s.

Definition inputVersionMap (tx : Transaction) : gmap string string :=
  foldl (fun m txIn => <[in_raw txIn := GetVersionOfTxInput txIn]> m) ∅ (TxInputsExt tx).

Fixpoint undo_outputs (versions : gmap string string) (outs : list TxOutputExt) : M XModel unit :=
  match outs with
  | [] => mpure tt
  | out :: outs =>
      if transient out then undo_outputs versions outs
      else
        let raw := out_raw out in
        let previousVersion := default "" (versions !! raw) in
        if is_empty_string previousVersion then
          do! (fun s => (Ret tt, emit (DelExt raw) s)) in
          do! (fun s => (Ret tt, set_batchCache s (<[raw := ""]> (batchCache s)))) in
          undo_outputs versions outs
        else
          let! verData := fetchVersionedData (oe_Bucket out) previousVersion in
          do! (fun s =>
            (Ret tt,
             if IsDelFlag (vd_value verData) then emit (DelExt raw) (emit (PutGc raw previousVersion) s)
             else let s := emit (PutExt raw previousVersion) s in
                  if is_del out then emit (DelGc raw) s else s)) in
          do! (fun s => (Ret tt, set_batchCache s (<[raw := previousVersion]> (batchCache s)))) in
          undo_outputs versions outs
  end.

Definition XModel_UndoTx (tx : Transaction) : M XModel unit := fun s =>
  undo_outputs (inputVersionMap tx) (TxOutputsExt tx) (cleanCache (Some (b_id (xbatch s))) s).

(** ** Versions can be read back *)

Lemma hex_char_digit c :
  hex_digit (hex_char (byte_of c / 16)) = Some (byte_of c / 16)%Z /\
  hex_digit (hex_char (byte_of c mod 16)) = Some (byte_of c mod 16)%Z /\
  byte_char (byte_of c / 16 * 16 + byte_of c mod 16) = c.
Proof. destruct c as [[] [] [] [] [] [] [] []]; vm_compute; auto. Qed.

Lemma scan_hex_encode t r : scan_hex (hex_encode t +:+ String "_" r) = Some (t, String "_" r).
Proof.
  induction t as [|c t IH]; [reflexivity|]. destruct (hex_char_digit c) as (H1 & H2 & H3).
  cbn [hex_encode]. rewrite !app_String. cbn [scan_hex]. by rewrite H1, H2, IH, H3.
Qed.

Lemma scan_int_bigString z : is_int64 z -> scan_int (bigString z) = Some z.
Proof.
  intros Hz. unfold scan_int. rewrite SetString_bigString. cbn [fst]. rewrite bool_decide_eq_true_2 by done.
  assert (has_digit (split_sign (bigString z)).2 = true) as ->; [|done].
  unfold bigString. destruct (Z.ltb_spec z 0); [cbn [split_sign snd]|rewrite split_sign_print by (unfold digit_fuel; lia); cbn [snd]];
    apply has_digit_print; unfold digit_fuel; lia.
Qed.

Lemma parse_MakeVersion txid off : txid <> "" -> is_int64 off -> parseVersion (MakeVersion txid off) = Ret (txid, off).
Proof.
  intros Ht Ho. unfold parseVersion, MakeVersion. rewrite app_String, app_EmptyString, scan_hex_encode.
  destruct (is_empty_string txid) eqn:E; [by destruct txid|]. by rewrite scan_int_bigString.
Qed.

Lemma MakeVersion_nonempty txid off : txid <> "" -> is_empty_string (MakeVersion txid off) = false.
Proof. destruct txid; [done|]. reflexivity. Qed.

(** ** What a version stands for *)

(** The outputs of a transaction the state knows: an unconfirmed one, or one of
    the ledger. *)
Definition outs_of (s : XModel) (txid : string) : option (list TxOutputExt) :=
  match unconfirmTable (db s) !! txid with
  | Some tx => Some (TxOutputsExt tx)
  | None => TxOutputsExt <$> confirmedTable (ledger s) !! txid
  end.

(** The version [v] is output [out] of transaction [txid] at [off]. *)
Record version_of (s : XModel) (v txid : string) (off : nat) (out : TxOutputExt) : Prop := {
  vo_txid : txid <> "";
  vo_offset : (Z.of_nat off <= int32_max)%Z;
  vo_version : v = MakeVersion txid (Z.of_nat off);
  vo_output : exists outs, outs_of s txid = Some outs /\ outs !! off = Some out
}.

(** The ledger's cache of transactions agrees with its table on the outputs. *)
Definition txcache_ok (l : Ledger) : Prop :=
  lru_ok (txCache l) /\
  forall id tx, cached (txCache l) id = Some tx ->
    exists tx', confirmedTable l !! id = Some tx' /\ TxOutputsExt tx' = TxOutputsExt tx.

(** A bucket's cache agrees with what the versions stand for.  It may hold
    versions of transactions that were refused after all. *)
Definition vcache_ok (s : XModel) (c : LRUCache string VersionedData) : Prop :=
  lru_ok c /\ forall v d, cached c v = Some d ->
    forall txid off out, version_of s v txid off out -> d = output_data txid (Z.of_nat off) out.

Record xm_ok (s : XModel) : Prop := {
  xo_ledger : txcache_ok (ledger s);
  xo_cache : forall b c, extUtxoCache s !! b = Some c -> vcache_ok s c
}.

(** Two states that differ in their caches only. *)
Record same (s s' : XModel) : Prop := {
  same_db : db s' = db s;
  same_batch : xbatch s' = xbatch s;
  same_batchCache : batchCache s' = batchCache s;
  same_lastBatch : lastBatch s' = lastBatch s;
  same_confirmed : confirmedTable (ledger s') = confirmedTable (ledger s);
  same_blocks : blocksTable (ledger s') = blocksTable (ledger s)
}.

#[global] Instance same_preorder : PreOrder same.
Proof. split; [done|]. intros s1 s2 s3 [] []. split; congruence. Qed.

(** Two states that know the same transactions. *)
Definition sees (s s' : XModel) : Prop := forall txid, outs_of s' txid = outs_of s txid.

#[global] Instance sees_equivalence : Equivalence sees.
Proof. split; unfold sees; [done|by intros s s' H txid|]. intros s1 s2 s3 H1 H2 txid. by rewrite H2, H1. Qed.

Lemma same_sees s s' : same s s' -> sees s s'.
Proof. intros [] txid. unfold outs_of. by rewrite same_db0, same_confirmed0. Qed.
#[export] Hint Resolve same_sees : xuper.

#[global] Instance version_of_proper : Proper (sees ==> (=) ==> (=) ==> (=) ==> (=) ==> iff) version_of.
Proof.
  intros s s' Hs v ? <- t ? <- o ? <- u ? <-. split; intros [H1 H2 H3 (outs & Ho & Hn)]; (split; [done..|]); exists outs; (split; [|done]).
  - by rewrite Hs.
  - by rewrite <- Hs.
Qed.

#[global] Instance vcache_ok_proper : Proper (sees ==> (=) ==> iff) vcache_ok.
Proof.
  intros s s' Hs c ? <-. unfold vcache_ok. split; (intros [Hl Hc]; split; [done|]; intros v d Hd t o u Hv; eapply Hc; [done|]).
  - by rewrite Hs.
  - by rewrite <- Hs.
Qed.

(** Two descriptions of a version agree. *)
Lemma version_inj s v t1 o1 out1 t2 o2 out2 :
  version_of s v t1 o1 out1 -> version_of s v t2 o2 out2 -> t1 = t2 /\ o1 = o2 /\ out1 = out2.
Proof.
  intros [H1 H2 -> (x & Hx & Hx')] [K1 K2 E (y & Hy & Hy')].
  assert (parseVersion (MakeVersion t1 (Z.of_nat o1)) = parseVersion (MakeVersion t2 (Z.of_nat o2))) as P by by rewrite E.
  unfold int32_max in *. rewrite !parse_MakeVersion in P by (done || (unfold is_int64, int64_min, int64_max; lia)).
  by simplify_eq.
Qed.

(** ** Fetching through the caches *)

Lemma new_cache_ok s c : capacity c = bucketExtUTXOCacheSize -> lru c = [] -> vcache_ok s c.
Proof.
  destruct c as [cap l]. cbn. intros -> ->. split; [split; cbn; [constructor|unfold bucketExtUTXOCacheSize; lia]|]. done.
Qed.

Lemma bucketCache_ok s b : xm_ok s -> vcache_ok s (bucketCache b s).
Proof.
  intros Hok. unfold bucketCache. destruct (extUtxoCache s !! b) eqn:E; cbn; [by eapply xo_cache|]. by apply new_cache_ok.
Qed.

Lemma set_bucketCache_ok s b c : xm_ok s -> vcache_ok s c -> same s (set_bucketCache b c s) /\ xm_ok (set_bucketCache b c s).
Proof.
  intros [Hl Hc] Hv. assert (same s (set_bucketCache b c s)) as Hs by done. split; [done|]. split; [done|].
  intros b' c'. cbn. rewrite <- (same_sees _ _ Hs). destruct (decide (b = b')) as [->|Hne];
    [rewrite lookup_insert_eq; by intros [= <-]|rewrite lookup_insert_ne by done; apply Hc].
Qed.

Lemma store_ok s b v d :
  xm_ok s -> (forall txid off out, version_of s v txid off out -> d = output_data txid (Z.of_nat off) out) ->
  same s (bucketCacheStore b v d s) /\ xm_ok (bucketCacheStore b v d s).
Proof.
  intros Hok Hd. destruct (bucketCache_ok s b Hok) as [Hl Hc]. unfold bucketCacheStore.
  destruct (Add (bucketCache b s) v d) as [ev c] eqn:E. destruct (Add_spec _ _ _ _ _ Hl E) as (Hl' & _ & Hsub & _).
  apply set_bucketCache_ok; [done|]. split; [done|]. intros v' d' Hv' txid off out Hvo. apply Hsub in Hv'.
  destruct (decide (v' = v)); subst; eauto.
Qed.

Lemma QueryTransaction_spec l txid o l' :
  txcache_ok l -> QueryTransaction txid l = (o, l') ->
  txcache_ok l' /\ (confirmedTable l' = confirmedTable l /\ blocksTable l' = blocksTable l) /\
  match confirmedTable l !! txid with
  | Some tx => exists tx', o = Ret tx' /\ TxOutputsExt tx' = TxOutputsExt tx
  | None => o = Err ErrTxNotFound
  end.
Proof.
  intros [Hl Hc]. unfold QueryTransaction. destruct (Get (txCache l) txid) as [hit c] eqn:E.
  destruct (Get_spec _ _ _ _ Hl E) as (-> & Hl' & _ & Hcc). cbn.
  destruct (cached (txCache l) txid) as [tx|] eqn:Eh.
  - intros [= <- <-]. destruct (Hc _ _ Eh) as (tx' & -> & Ho). split_and!; [|done|done|by eexists].
    split; [done|]. cbn. intros id t. rewrite Hcc. apply Hc.
  - destruct (confirmedTable l !! txid) as [tx|] eqn:Et; intros [= <- <-]; cbn; rewrite ?Et.
    + destruct (Add c txid tx) as [ev c'] eqn:Ea. destruct (Add_spec _ _ _ _ _ Hl' Ea) as (Hl2 & _ & Hsub & _).
      split_and!; [|done|done|by eexists]. split; [done|]. cbn. intros id t Ht. apply Hsub in Ht.
      destruct (decide (id = txid)) as [->|]; [subst; by eexists|]. rewrite Hcc in Ht. by apply Hc.
    + split_and!; [|done|done|done]. split; [done|]. cbn. intros id t. rewrite Hcc. apply Hc.
Qed.

Lemma queryTx_spec s txid outs :
  xm_ok s -> outs_of s txid = Some outs ->
  exists tx b s', queryTx txid s = (Ret (tx, b), s') /\ TxOutputsExt tx = outs /\ same s s' /\ xm_ok s'.
Proof.
  intros Hok. unfold outs_of, queryTx. destruct (unconfirmTable (db s) !! txid) as [tx|]; [intros [= <-]; by eexists _, _, _|].
  destruct (QueryTransaction txid (ledger s)) as [o l'] eqn:E.
  destruct (QueryTransaction_spec _ _ _ _ (xo_ledger _ Hok) E) as (Hl & [Hconf Hhead] & Ho).
  destruct (confirmedTable (ledger s) !! txid) as [tx|]; [|done]. destruct Ho as (tx' & -> & Hout). intros [= <-].
  assert (same s (set_ledger s l')) as Hs by (by split). eexists _, _, _. split_and!; [done..|].
  split; [done|]. intros b c Hb. rewrite <- (same_sees _ _ Hs). by apply (xo_cache _ Hok b).
Qed.

Lemma wrap32_nat n : (Z.of_nat n <= int32_max)%Z -> wrap32 (Z.of_nat n) = Z.of_nat n.
Proof. intros. apply wrap32_id. unfold is_int32, int32_min in *. lia. Qed.

(** Whatever the caches hold, fetching a version gives the output it stands for. *)
Lemma fetch_spec s b v txid off out :
  xm_ok s -> version_of s v txid off out ->
  exists s', fetchVersionedData b v s = (Ret (output_data txid (Z.of_nat off) out), s') /\ same s s' /\ xm_ok s'.
Proof.
  intros Hok Hv. destruct (bucketCache_ok s b Hok) as [Hl Hc]. unfold fetchVersionedData, bucketCacheGet.
  destruct (Get (bucketCache b s) v) as [hit c] eqn:E. destruct (Get_spec _ _ _ _ Hl E) as (-> & Hl' & _ & Hcc).
  destruct (set_bucketCache_ok s b c Hok) as [Hs Hok']. { split; [done|]. intros v' d'. rewrite Hcc. apply Hc. }
  destruct (cached (bucketCache b s) v) as [d|] eqn:Eh; [rewrite (Hc _ _ Eh _ _ _ Hv); by eexists|].
  pose proof Hv as [Ht Hoff Ev (outs & Houts & Hout)]. subst v. rewrite parse_MakeVersion by (done || (unfold is_int64, int64_min, int64_max, int32_max in *; lia)).
  cbn [mlift mbnd fst snd]. rewrite <- (same_sees _ _ Hs) in Houts.
  destruct (queryTx_spec _ _ _ Hok' Houts) as (tx & conf & s2 & Hq & Eouts & Hs2 & Hok2). unfold mbnd. rewrite Hq. cbn [fst snd].
  rewrite Eouts. pose proof (lookup_lt_Some _ _ _ Hout). destruct (Z.leb_spec (Z.of_nat (length outs)) (Z.of_nat off)); [lia|].
  destruct (Z.ltb_spec (Z.of_nat off) 0); [lia|]. rewrite Nat2Z.id, Hout, wrap32_nat by done.
  eexists. split; [done|]. destruct (store_ok s2 b (MakeVersion txid (Z.of_nat off)) (output_data txid (Z.of_nat off) out) Hok2) as [Hs3 Hok3].
  { intros t o u Hu. rewrite <- (same_sees _ _ Hs2), <- (same_sees _ _ Hs) in Hu.
    by destruct (version_inj _ _ _ _ _ _ _ _ Hu Hv) as (-> & -> & ->). }
  split; [by do 2 (etrans; [done|])|done].
Qed.

(** ** The current version of every key *)

(** What the two tables hold for a key, and the version it means: the second
    table counts only when the first has nothing; [""] is no version. *)
Definition slot (d : StateDB) (raw : string) : option string * option string :=
  (extUtxoTable d !! raw, extUtxoDelTable d !! raw).
Definition slot_version (p : option string * option string) : string :=
  match p.1 with Some v => v | None => default "" p.2 end.

(** The database with the batch under construction applied. *)
Definition pending (s : XModel) : StateDB := db_write (db s) (b_ops (xbatch s)).
Definition view (s : XModel) (raw : string) : string := slot_version (slot (pending s) raw).

(** The version a read of the batch cache and then the database finds. *)
Definition cur (s : XModel) (raw : string) : string :=
  match batchCache s !! raw with Some v => v | None => slot_version (slot (db s) raw) end.

(** A version of [raw] that deletes it or not. *)
Definition live (s : XModel) (raw v : string) (del : bool) : Prop :=
  exists txid off out, version_of s v txid off out /\ out_raw out = raw /\ is_del out = del.

Definition slot_ok (s : XModel) (raw : string) (p : option string * option string) : Prop :=
  (forall v, p.1 = Some v -> live s raw v false) /\ (forall v, p.2 = Some v -> live s raw v true).

Definition versions_ok (s : XModel) : Prop :=
  forall raw, slot_ok s raw (slot (db s) raw) /\ slot_ok s raw (slot (pending s) raw).

(** The batch cache mirrors the batch under construction. *)
Definition synced (s : XModel) : Prop :=
  lastBatch s = Some (b_id (xbatch s)) /\ forall raw, cur s raw = view s raw.

(** The batch is being built, or holds no version yet. *)
Definition ready (s : XModel) : Prop :=
  synced s \/ (lastBatch s <> Some (b_id (xbatch s)) /\ forall raw, slot (pending s) raw = slot (db s) raw).

Lemma live_nonempty s raw v del : live s raw v del -> is_empty_string v = false.
Proof. intros (txid & off & out & [Ht _ -> _] & _). by apply MakeVersion_nonempty. Qed.

#[global] Instance live_proper : Proper (sees ==> (=) ==> (=) ==> (=) ==> iff) live.
Proof. intros s s' Hs raw ? <- v ? <- del ? <-. unfold live. by setoid_rewrite Hs. Qed.

#[global] Instance slot_ok_proper : Proper (sees ==> (=) ==> (=) ==> iff) slot_ok.
Proof. intros s s' Hs raw ? <- p ? <-. unfold slot_ok. by setoid_rewrite Hs. Qed.

Lemma sees_slot_ok s s' raw p : sees s s' -> slot_ok s raw p -> slot_ok s' raw p.
Proof. intros Hs. by rewrite Hs. Qed.

Lemma same_view s s' raw : same s s' -> view s' raw = view s raw.
Proof. intros []. unfold view, pending. by rewrite same_db0, same_batch0. Qed.

Lemma same_cur s s' raw : same s s' -> cur s' raw = cur s raw.
Proof. intros []. unfold cur. by rewrite same_db0, same_batchCache0. Qed.

Lemma same_versions_ok s s' : same s s' -> versions_ok s -> versions_ok s'.
Proof.
  intros Hs H raw. destruct (H raw) as [H1 H2]. unfold pending. rewrite (same_db _ _ Hs), (same_batch _ _ Hs).
  by rewrite <- (same_sees _ _ Hs).
Qed.

Lemma same_synced s s' : same s s' -> synced s -> synced s'.
Proof.
  intros Hs [H1 H2]. split; [by rewrite (same_lastBatch _ _ Hs), (same_batch _ _ Hs)|].
  intros raw. by rewrite (same_cur s s'), (same_view s s').
Qed.

Lemma slot_version_live s raw p :
  slot_ok s raw p -> slot_version p = "" /\ p = (None, None) \/ exists del, live s raw (slot_version p) del.
Proof.
  intros [H1 H2]. destruct p as [[v|] g]; unfold slot_version; cbn in *; [right; eauto|].
  destruct g as [v|]; cbn; [right; eauto|by left].
Qed.

Lemma view_live s raw : versions_ok s -> view s raw = "" \/ exists del, live s raw (view s raw) del.
Proof. intros H. destruct (slot_version_live s raw _ (proj2 (H raw))) as [[? _]|?]; [by left|by right]. Qed.

Lemma GetVersion_output txid off out : GetVersion (output_data txid off out) = MakeVersion txid off.
Proof. done. Qed.

(** ** Reading *)

(** Reading a key gives its version: an empty one, or the output it stands for. *)
Definition read_as (s : XModel) (b k v : string) (d : VersionedData) : Prop :=
  v = "" /\ d = makeEmptyVersionedData b k \/
  exists txid off out, version_of s v txid off out /\ out_raw out = makeRawKey b k /\ d = output_data txid (Z.of_nat off) out.

Lemma read_as_version s b k v d : read_as s b k v d -> GetVersion d = v.
Proof. intros [[-> ->]|(t & o & u & [_ _ -> _] & _ & ->)]; done. Qed.

Lemma fetch_live s b k v del :
  xm_ok s -> live s (makeRawKey b k) v del ->
  exists d s', fetchVersionedData b v s = (Ret d, s') /\ same s s' /\ xm_ok s' /\ read_as s b k v d /\ IsDelFlag (vd_value d) = del.
Proof.
  intros Hok (t & o & u & Hv & Hraw & Hdel). destruct (fetch_spec s b v t o u Hok Hv) as (s' & -> & Hs & Hok').
  eexists _, _. split_and!; [done..|right; by exists t, o, u|done].
Qed.

Lemma XModel_Get_spec s b k :
  xm_ok s -> slot_ok s (makeRawKey b k) (slot (db s) (makeRawKey b k)) ->
  exists d s', XModel_Get b k s = (Ret d, s') /\ same s s' /\ xm_ok s' /\
    read_as s b k (slot_version (slot (db s) (makeRawKey b k))) d.
Proof.
  intros Hok [H1 H2]. unfold XModel_Get, slot, slot_version in *. cbn in *.
  destruct (extUtxoTable (db s) !! makeRawKey b k) as [v|]; cbn.
  { destruct (fetch_live s b k v false Hok) as (d & s' & ? & ? & ? & ? & _); [auto|]. by exists d, s'. }
  destruct (extUtxoDelTable (db s) !! makeRawKey b k) as [v|]; cbn.
  { destruct (fetch_live s b k v true Hok) as (d & s' & ? & ? & ? & ? & _); [auto|]. by exists d, s'. }
  eexists _, _. split_and!; [done..|]. by left.
Qed.

Lemma GetUncommited_spec s b k :
  xm_ok s -> synced s -> versions_ok s ->
  exists d s', GetUncommited b k s = (Ret d, s') /\ same s s' /\ xm_ok s' /\ read_as s b k (view s (makeRawKey b k)) d.
Proof.
  intros Hok [_ Hsync] Hv. pose proof (Hsync (makeRawKey b k)) as E. unfold GetUncommited, cur in *.
  destruct (batchCache s !! makeRawKey b k) as [v|]; [|rewrite <- E; apply XModel_Get_spec; [done|apply Hv]].
  subst v. destruct (view_live s (makeRawKey b k) Hv) as [->|(del & Hl)]; [eexists _, _; split_and!; [done..|by left]|].
  rewrite (live_nonempty _ _ _ _ Hl). destruct (fetch_live s b k _ del Hok Hl) as (d & s' & ? & ? & ? & ? & _). by exists d, s'.
Qed.

(** ** When a transaction is accepted *)

Definition reads_current (V : string -> string) (txIn : TxInputExt) : Prop := GetVersionOfTxInput txIn = V (in_raw txIn).

Definition writes_declared (ins : gset string) (out : TxOutputExt) : Prop :=
  transient out = false -> out_raw out ∈ ins /\ is_Some (oe_Value out).

(** Every version read is current, every key written was read. *)
Definition admissible (V : string -> string) (tx : Transaction) : Prop :=
  Forall (reads_current V) (TxInputsExt tx) /\
  Forall (writes_declared (list_to_set (in_raw <$> TxInputsExt tx))) (TxOutputsExt tx).

Lemma verify_inputs_spec ins : forall s,
  xm_ok s -> synced s -> versions_ok s ->
  exists o s', verify_inputs ins s = (o, s') /\ same s s' /\ xm_ok s' /\
    (o = Ret tt /\ Forall (reads_current (view s)) ins \/ (exists e, o = Err e) /\ ~ Forall (reads_current (view s)) ins).
Proof.
  induction ins as [|i ins IH]; intros s Hok Hsync Hv; [exists (Ret tt), s; split_and!; [done..|left; by split]|].
  destruct (GetUncommited_spec s (ie_Bucket i) (ie_Key i) Hok Hsync Hv) as (d & s1 & Hg & Hs1 & Hok1 & Hr).
  cbn [verify_inputs]. unfold mbnd. rewrite Hg. rewrite (read_as_version _ _ _ _ _ Hr).
  case_bool_decide as E; cbn [negb].
  - destruct (IH s1 Hok1) as (o & s2 & -> & Hs2 & Hok2 & Ho); [by eapply same_synced|by eapply same_versions_ok|].
    assert (Forall (reads_current (view s1)) ins <-> Forall (reads_current (view s)) ins) as Hrc.
    { unfold reads_current. rewrite !Forall_forall. by setoid_rewrite (same_view s s1). }
    exists o, s2. split_and!; [done|by etrans|done|]. rewrite Forall_cons. rewrite Hrc in Ho.
    assert (reads_current (view s) i) by (by unfold reads_current, in_raw). naive_solver.
  - eexists (Err _), s1. split_and!; [done..|]. right. split; [eauto|]. rewrite Forall_cons. intros [Hi _]. by apply E.
Qed.

Lemma verify_outputs_spec ins outs :
  verify_outputs ins outs = Ret tt /\ Forall (writes_declared ins) outs \/
  (exists e, verify_outputs ins outs = Err e) /\ ~ Forall (writes_declared ins) outs.
Proof.
  induction outs as [|out outs IH]; [by left|]. cbn. rewrite Forall_cons. unfold writes_declared at 1 3.
  destruct (transient out); [naive_solver|]. case_bool_decide as E; cbn; [|right; split; [eauto|naive_solver]].
  destruct (oe_Value out) eqn:Ev; [|right; split; [eauto|]]; naive_solver.
Qed.

(** ** The effect of writes on one key *)

Definition slot_op (raw : string) (p : option string * option string) (op : state_op) : option string * option string :=
  match op with
  | PutExt k v => if decide (k = raw) then (Some v, p.2) else p
  | DelExt k => if decide (k = raw) then (None, p.2) else p
  | PutGc k v => if decide (k = raw) then (p.1, Some v) else p
  | DelGc k => if decide (k = raw) then (p.1, None) else p
  | _ => p
  end.

Lemma slot_db_op d op raw : slot (db_op d op) raw = slot_op raw (slot d raw) op.
Proof.
  destruct d, op; unfold slot, slot_op; cbn; try done;
    (case_decide as E; [subst; by rewrite ?lookup_insert_eq, ?lookup_delete_eq|by rewrite ?lookup_insert_ne, ?lookup_delete_ne]).
Qed.

Lemma pending_emit op s : pending (emit op s) = db_op (pending s) op.
Proof. unfold pending, db_write. cbn. by rewrite foldl_app. Qed.

Lemma slot_emit op s raw : slot (pending (emit op s)) raw = slot_op raw (slot (pending s) raw) op.
Proof. by rewrite pending_emit, slot_db_op. Qed.

(** The version an output of a transaction gets. *)
Definition new_version (txid : string) (offset : nat) : string := MakeVersion txid (wrap32 (Z.of_nat offset)).

Definition do_slot (v : string) (out : TxOutputExt) (p : option string * option string) : option string * option string :=
  if is_del out then (None, Some v) else (Some v, p.2).

(** The outputs of a transaction on the slot of one key. *)
Fixpoint do_slots (txid : string) (raw : string) (offset : nat) (outs : list TxOutputExt) (p : option string * option string)
    : option string * option string :=
  match outs with
  | [] => p
  | out :: outs =>
      do_slots txid raw (S offset) outs
        (if negb (transient out) && bool_decide (out_raw out = raw) then do_slot (new_version txid offset) out p else p)
  end.

(** What writing leaves alone: the database, the transactions known, the
    identity of the batch. *)
Record writes (s s' : XModel) : Prop := {
  wr_db : db s' = db s;
  wr_confirmed : confirmedTable (ledger s') = confirmedTable (ledger s);
  wr_batch : b_id (xbatch s') = b_id (xbatch s);
  wr_last : lastBatch s' = lastBatch s;
  wr_unconfirmed : unconfirmTable (pending s') = unconfirmTable (pending s);
  wr_utxo : utxoTable (pending s') = utxoTable (pending s);
  wr_blocks : blocksTable (ledger s') = blocksTable (ledger s)
}.

#[global] Instance writes_preorder : PreOrder writes.
Proof. split; [done|]. intros s1 s2 s3 [] []. split; congruence. Qed.

Lemma writes_sees s s' : writes s s' -> sees s s'.
Proof. intros [] txid. unfold outs_of. by rewrite wr_db0, wr_confirmed0. Qed.

Lemma same_writes s s' : same s s' -> writes s s'.
Proof. intros []. split; unfold pending; congruence. Qed.

Definition ext_op (op : state_op) : bool :=
  match op with PutExt _ _ | DelExt _ | PutGc _ _ | DelGc _ => true | _ => false end.

Lemma emit_writes op s : ext_op op = true -> writes s (emit op s).
Proof. intros H. split; try done; rewrite pending_emit; by destruct (pending s), op. Qed.

Lemma xm_ok_frame s s' :
  xm_ok s -> sees s s' -> ledger s' = ledger s -> extUtxoCache s' = extUtxoCache s -> xm_ok s'.
Proof. intros [Hl Hc] Hs El Ec. split; [by rewrite El|]. intros b c. rewrite Ec, <- Hs. apply Hc. Qed.

(** A tx whose outputs the state knows keeps the caches right. *)
Definition known (s : XModel) (tx : Transaction) : Prop :=
  Txid tx <> "" /\ (Z.of_nat (length (TxOutputsExt tx)) <= int32_max)%Z /\
  forall outs, outs_of s (Txid tx) = Some outs -> outs = TxOutputsExt tx.

Lemma new_version_of s tx n out t o u :
  known s tx -> TxOutputsExt tx !! n = Some out -> version_of s (new_version (Txid tx) n) t o u ->
  output_data (Txid tx) (wrap32 (Z.of_nat n)) out = output_data t (Z.of_nat o) u.
Proof.
  intros (Ht & Hlen & Hk) Hn [H1 H2 E (outs & Ho & Hu)]. pose proof (lookup_lt_Some _ _ _ Hn).
  unfold new_version in E. rewrite wrap32_nat in * by lia.
  assert (parseVersion (MakeVersion (Txid tx) (Z.of_nat n)) = parseVersion (MakeVersion t (Z.of_nat o))) as P by by rewrite E.
  rewrite !parse_MakeVersion in P by (done || (unfold is_int64, int64_min, int64_max, int32_max in *; lia)).
  simplify_eq. apply Hk in Ho as ->. by simplify_eq.
Qed.

Lemma update_output_spec s tx ib n out :
  xm_ok s -> known s tx -> TxOutputsExt tx !! n = Some out ->
  let s' := update_output (Txid tx) ib n out s in
  writes s s' /\ xm_ok s' /\
  (forall raw, slot (pending s') raw =
     if negb (transient out) && bool_decide (out_raw out = raw) then do_slot (new_version (Txid tx) n) out (slot (pending s) raw)
     else slot (pending s) raw) /\
  batchCache s' = if negb (transient out) && ib then <[out_raw out := new_version (Txid tx) n]> (batchCache s) else batchCache s.
Proof.
  intros Hok Hk Hn. unfold update_output. destruct (transient out); [done|]. cbn [negb andb].
  set (s1 := if is_del out then _ else _). set (s2 := if ib then _ else _).
  assert (writes s s2 /\ xm_ok s2) as [Hw Hok2].
  { assert (writes s s1) as Hw1.
    { subst s1. destruct (is_del out); [etrans; [|by apply emit_writes]|]; by apply emit_writes. }
    assert (writes s s2) as Hw by (subst s2; destruct ib; [by destruct Hw1; split|done]). split; [done|].
    eapply xm_ok_frame; [done|by apply writes_sees|subst s1 s2; destruct (is_del out), ib; done..]. }
  destruct (store_ok s2 (oe_Bucket out) (new_version (Txid tx) n) (output_data (Txid tx) (wrap32 (Z.of_nat n)) out) Hok2) as [Hs3 Hok3].
  { intros t o u. rewrite <- (writes_sees _ _ Hw). by apply new_version_of. }
  split_and!; [etrans; [done|by apply same_writes]|done| |].
  - intros raw. match goal with |- _ = ?x => change (slot (pending s2) raw = x) end.
    assert (slot (pending s2) raw = slot (pending s1) raw) as -> by (subst s2; by destruct ib).
    subst s1. unfold do_slot. destruct (is_del out); rewrite !slot_emit; unfold slot_op; case_bool_decide;
      repeat case_decide; done.
  - match goal with |- _ = ?x => change (batchCache s2 = x) end. subst s1 s2. by destruct ib, (is_del out).
Qed.

Lemma do_slot_version v out p : slot_version (do_slot v out p) = v.
Proof. unfold do_slot. by destruct (is_del out). Qed.

Lemma update_output_synced s tx n out :
  xm_ok s -> known s tx -> TxOutputsExt tx !! n = Some out -> synced s -> synced (update_output (Txid tx) true n out s).
Proof.
  intros Hok Hk Hn [Hl Hc]. destruct (update_output_spec s tx true n out Hok Hk Hn) as ([Hdb _ Hid Hlast _] & _ & Hslot & Hbc).
  split; [by rewrite Hlast, Hid|]. intros raw. specialize (Hc raw). unfold view, cur in *. rewrite Hslot, Hbc, Hdb.
  rewrite andb_true_r. destruct (transient out); cbn [negb andb]; [done|].
  case_bool_decide as E; [subst raw; by rewrite lookup_insert_eq, do_slot_version|by rewrite lookup_insert_ne].
Qed.

Lemma update_outputs_spec tx ib outs : forall n s,
  xm_ok s -> known s tx -> drop n (TxOutputsExt tx) = outs ->
  let s' := update_outputs (Txid tx) ib n outs s in
  writes s s' /\ xm_ok s' /\
  (forall raw, slot (pending s') raw = do_slots (Txid tx) raw n outs (slot (pending s) raw)) /\
  (ib = true -> synced s -> synced s') /\ (ib = false -> batchCache s' = batchCache s).
Proof.
  induction outs as [|out outs IH]; intros n s Hok Hk Hd; [done|]. cbn [update_outputs do_slots].
  destruct (drop_cons _ _ _ _ Hd) as [Hn Hd'].
  destruct (update_output_spec s tx ib n out Hok Hk Hn) as (Hw & Hok1 & Hslot & Hbc).
  assert (known (update_output (Txid tx) ib n out s) tx) as Hk1.
  { destruct Hk as (? & ? & Hk). split_and!; [done..|]. intros o. rewrite (writes_sees _ _ Hw). apply Hk. }
  destruct (IH (S n) _ Hok1 Hk1 Hd') as (Hw' & Hok' & Hslot' & Hsync' & Hbc').
  split_and!; [by etrans|done| | |].
  - intros raw. by rewrite Hslot', Hslot.
  - intros -> Hs. apply Hsync'; [done|]. by apply update_output_synced.
  - intros ->. by rewrite Hbc', Hbc, andb_false_r.
Qed.

(** ** Playing a transaction of a block *)

(** The versions after a transaction. *)
Definition do_view (tx : Transaction) (V : string -> string) (raw : string) : string :=
  slot_version (do_slots (Txid tx) raw 0 (TxOutputsExt tx) (Some (V raw), None)).

Lemma do_slots_version txid raw outs : forall n p q,
  slot_version p = slot_version q ->
  slot_version (do_slots txid raw n outs p) = slot_version (do_slots txid raw n outs q).
Proof.
  induction outs as [|out outs IH]; intros n p q Hpq; [done|]. cbn. apply IH.
  destruct (negb (transient out) && _); [by rewrite !do_slot_version|done].
Qed.

Lemma do_slots_view txid raw outs n p :
  slot_version (do_slots txid raw n outs p) = slot_version (do_slots txid raw n outs (Some (slot_version p), None)).
Proof. by apply do_slots_version. Qed.

(** The transaction is in the ledger (or among the unconfirmed ones), as every
    transaction of a block being played is. *)
Definition recorded (s : XModel) (tx : Transaction) : Prop :=
  known s tx /\ outs_of s (Txid tx) = Some (TxOutputsExt tx).

Lemma do_slots_ok s tx outs : recorded s tx -> forall n raw p,
  drop n (TxOutputsExt tx) = outs -> slot_ok s raw p -> slot_ok s raw (do_slots (Txid tx) raw n outs p).
Proof.
  intros ((Ht & Hlen & _) & Hrec). induction outs as [|out outs IH]; intros n raw p Hd Hp; [done|]. cbn.
  destruct (drop_cons _ _ _ _ Hd) as [Hn Hd']. apply IH; [done|].
  destruct (transient out); [done|]. cbn. case_bool_decide as E; [|done].
  pose proof (lookup_lt_Some _ _ _ Hn).
  assert (live s raw (new_version (Txid tx) n) (is_del out)) as Hl.
  { exists (Txid tx), n, out. split; [|done]. unfold new_version. rewrite wrap32_nat by lia. split; [done|lia|done|by eexists]. }
  destruct Hp as [H1 H2]. unfold do_slot. destruct (is_del out); split; cbn; naive_solver.
Qed.

Lemma cleaned_synced s :
  ready s -> let s' := cleanCache (Some (b_id (xbatch s))) s in
  synced s' /\ writes s (set_batchCache s (batchCache s')) /\ xbatch s' = xbatch s /\ db s' = db s /\ ledger s' = ledger s /\ extUtxoCache s' = extUtxoCache s.
Proof.
  intros [Hs|[Hne Hops]]; unfold cleanCache; case_decide as E; try done.
  - destruct Hs. congruence.
  - split; [|done]. split; [done|]. intros raw. unfold cur, view. cbn [batchCache db]. rewrite lookup_empty. f_equal. symmetry. apply Hops.
Qed.

(** Everything playing a block relies on, and keeps. *)
Record xstate_ok (s : XModel) : Prop := {
  xs_caches : xm_ok s;
  xs_ready : ready s;
  xs_versions : versions_ok s;
  (** Batches are numbered as they are created. *)
  xs_fresh : forall n, lastBatch s = Some n -> (n <= b_id (xbatch s))%nat;
  (** The batch leaves the unconfirmed transactions alone. *)
  xs_unconfirmed : unconfirmTable (pending s) = unconfirmTable (db s)
}.

Lemma same_state_ok s s' : xstate_ok s -> synced s -> same s s' -> xm_ok s' -> xstate_ok s'.
Proof.
  intros [_ _ Hv Hf Hu] Hsync Hs Hok. split; [done|left; by eapply same_synced|by eapply same_versions_ok| |].
  - by rewrite (same_lastBatch _ _ Hs), (same_batch _ _ Hs).
  - unfold pending. by rewrite (same_db _ _ Hs), (same_batch _ _ Hs).
Qed.

(** A state reached by writing to the batch. *)
Lemma writes_state_ok s s' :
  xstate_ok s -> writes s s' -> xm_ok s' -> synced s' -> (forall raw, slot_ok s raw (slot (pending s') raw)) -> xstate_ok s'.
Proof.
  intros [_ _ Hv Hf Hu] Hw Hok Hsync Hp. pose proof (writes_sees _ _ Hw) as Hsee. destruct Hw as [Ed Ec Ei El Eu].
  split; [done|by left| |rewrite El, Ei; apply Hf|congruence].
  intros raw. rewrite Ed. split; apply (sees_slot_ok s s'); [done|apply Hv|done|apply Hp].
Qed.

Lemma cleaned s :
  xstate_ok s -> let s' := cleanCache (Some (b_id (xbatch s))) s in
  xstate_ok s' /\ synced s' /\ sees s s' /\ (forall raw, slot (pending s') raw = slot (pending s) raw) /\
  db s' = db s /\ xbatch s' = xbatch s /\ ledger s' = ledger s.
Proof.
  intros [Hok Hr Hv Hf Hu]. destruct (cleaned_synced s Hr) as (Hsync & _ & Eb & Ed & El & Ec).
  set (s' := cleanCache _ s) in *.
  assert (sees s s') as Hsee by (intros txid; unfold outs_of; by rewrite Ed, El).
  assert (pending s' = pending s) as Ep by (unfold pending; by rewrite Eb, Ed).
  split_and!; [split|done|done|by rewrite Ep|done|done|done].
  - by eapply xm_ok_frame.
  - by left.
  - intros raw. rewrite Ep, Ed, <- Hsee. apply Hv.
  - intros n. destruct Hsync as [-> _]. by intros [= ->].
  - by rewrite Ep, Ed.
Qed.

(** What playing and rolling back leave to the other parts of the state. *)
Record frames (s s' : XModel) : Prop := {
  fr_db : db s' = db s;
  fr_batch : b_id (xbatch s') = b_id (xbatch s);
  fr_utxo : utxoTable (pending s') = utxoTable (pending s);
  fr_blocks : blocksTable (ledger s') = blocksTable (ledger s)
}.

#[global] Instance frames_preorder : PreOrder frames.
Proof. split; [done|]. intros s1 s2 s3 [] []. split; congruence. Qed.

Lemma DoTx_spec s tx :
  xstate_ok s -> recorded s tx -> TxBlockid tx <> "" ->
  exists o s', XModel_DoTx tx s = (o, s') /\ xstate_ok s' /\ sees s s' /\ frames s s' /\
    (o = Ret tt /\ admissible (view s) tx /\
       (forall raw, slot (pending s') raw = do_slots (Txid tx) raw 0 (TxOutputsExt tx) (slot (pending s) raw)) \/
     (exists e, o = Err e) /\ ~ admissible (view s) tx /\ (forall raw, slot (pending s') raw = slot (pending s) raw)).
Proof.
  intros Hs Hrec Hb. unfold XModel_DoTx, verifyInputs, admissible.
  assert (is_empty_string (TxBlockid tx) = false) as Eb by (by destruct (TxBlockid tx)). rewrite Eb.
  destruct (cleaned s Hs) as (Hs0 & Hsync & Hsee & Hslot0 & Edb & Eid & El). set (s0 := cleanCache _ s) in *.
  assert (forall raw, view s0 raw = view s raw) as Hview by (intros raw; unfold view; by rewrite Hslot0).
  destruct (verify_inputs_spec (TxInputsExt tx) s0 (xs_caches _ Hs0) Hsync (xs_versions _ Hs0)) as (o & s1 & Ev & Hs1 & Hok1 & Ho).
  assert (Forall (reads_current (view s0)) (TxInputsExt tx) <-> Forall (reads_current (view s)) (TxInputsExt tx)) as Hrc.
  { unfold reads_current. rewrite !Forall_forall. by setoid_rewrite Hview. }
  rewrite Hrc in Ho. clear Hrc.
  pose proof (same_state_ok _ _ Hs0 Hsync Hs1 Hok1) as Hst1.
  assert (sees s s1) as Hsee1 by (etrans; [exact Hsee|by apply same_sees]).
  assert (forall raw, slot (pending s1) raw = slot (pending s) raw) as Hslot1.
  { intros raw. unfold pending. rewrite (same_db _ _ Hs1), (same_batch _ _ Hs1). apply Hslot0. }
  assert (frames s s1) as Hfr.
  { split; unfold pending; rewrite ?(same_db _ _ Hs1), ?(same_batch _ _ Hs1), ?(same_blocks _ _ Hs1); by rewrite ?Edb, ?Eid, ?El. }
  cbn [mbnd mlift]. unfold mbnd. rewrite Ev.
  destruct Ho as [[-> Hin]|[[e ->] Hin]]; [|exists (Err e), s1; split_and!; [done..|right; split_and!; [eauto|naive_solver|done]]].
  unfold mlift, verifyOutputs.
  destruct (verify_outputs_spec (list_to_set (in_raw <$> TxInputsExt tx)) (TxOutputsExt tx)) as [[-> Hout]|[[e ->] Hout]];
    [|exists (Err e), s1; split_and!; [done..|right; split_and!; [eauto|naive_solver|done]]].
  unfold updateExtUtxo. rewrite Eb. cbn [negb].
  assert (recorded s1 tx) as Hrec1.
  { destruct Hrec as ((? & ? & Hk) & Ho). split; [split_and!; [done..|]|]; [intros outs; rewrite Hsee1; apply Hk|by rewrite Hsee1]. }
  destruct (update_outputs_spec tx true (TxOutputsExt tx) 0 s1 Hok1 (proj1 Hrec1) eq_refl) as (Hw & Hok2 & Hslot2 & Hsync2 & _).
  eexists (Ret tt), _. split; [done|]. set (s2 := update_outputs _ _ _ _ s1) in *.
  pose proof (writes_sees _ _ Hw) as Hsee2. assert (sees s s2) as Hsee' by (by etrans).
  split_and!; [|done|etrans; [exact Hfr|]; by destruct Hw|left; split_and!; [done..|intros raw; by rewrite Hslot2, Hslot1]].
  eapply writes_state_ok; [exact Hst1|done|done|apply Hsync2; [done|by eapply same_synced]|].
  intros raw. rewrite Hslot2. apply do_slots_ok; [done|done|]. apply (xs_versions _ Hst1).
Qed.

(** ** Rolling back *)

Definition undo_slot (prev : string) (prevDel : bool) (out : TxOutputExt) (p : option string * option string)
    : option string * option string :=
  if is_empty_string prev then (None, p.2)
  else if prevDel then (None, Some prev)
  else (Some prev, if is_del out then None else p.2).

Definition prev_of (versions : gmap string string) (raw : string) : string := default "" (versions !! raw).

Fixpoint undo_slots (versions : gmap string string) (dels : string -> bool) (raw : string) (outs : list TxOutputExt)
    (p : option string * option string) : option string * option string :=
  match outs with
  | [] => p
  | out :: outs =>
      undo_slots versions dels raw outs
        (if negb (transient out) && bool_decide (out_raw out = raw) then undo_slot (prev_of versions raw) (dels raw) out p else p)
  end.

(** The previous version of every key written can be fetched. *)
Definition prev_known (s : XModel) (versions : gmap string string) (dels : string -> bool) (out : TxOutputExt) : Prop :=
  transient out = false ->
  prev_of versions (out_raw out) = "" \/ live s (out_raw out) (prev_of versions (out_raw out)) (dels (out_raw out)).

(** A key that had no version is not marked as deleted. *)
Definition no_ghost (s : XModel) (versions : gmap string string) (out : TxOutputExt) : Prop :=
  transient out = false -> prev_of versions (out_raw out) = "" -> (slot (pending s) (out_raw out)).2 = None.

(** The writes for one output, once the previous version is fetched. *)
Definition undo_emit (raw prev : string) (prevDel del : bool) (s : XModel) : XModel :=
  let s := if is_empty_string prev then emit (DelExt raw) s
           else if prevDel then emit (DelExt raw) (emit (PutGc raw prev) s)
           else if del then emit (DelGc raw) (emit (PutExt raw prev) s) else emit (PutExt raw prev) s in
  set_batchCache s (<[raw := prev]> (batchCache s)).

Lemma undo_emit_spec raw prev pd out s :
  xm_ok s ->
  let s' := undo_emit raw prev pd (is_del out) s in
  writes s s' /\ xm_ok s' /\ batchCache s' = <[raw := prev]> (batchCache s) /\
  forall r, slot (pending s') r = if decide (raw = r) then undo_slot prev pd out (slot (pending s) r) else slot (pending s) r.
Proof.
  intros Hok s'. assert (writes s s') as Hw.
  { subst s'. unfold undo_emit. match goal with |- writes s (set_batchCache ?x _) => assert (writes s x) as [] end; [|by split].
    repeat case_match; repeat first [by apply emit_writes|etrans; [|by apply emit_writes]]. }
  split_and!; [done| |subst s'; unfold undo_emit; repeat case_match; done|].
  - eapply xm_ok_frame; [done|by apply writes_sees|subst s'; unfold undo_emit; repeat case_match; done..].
  - intros r. subst s'. unfold undo_emit, undo_slot. cbn. unfold pending at 1. cbn.
    destruct (is_empty_string prev); [|destruct pd; [|destruct (is_del out)]];
      match goal with |- context [db_write (db ?x) (b_ops (xbatch ?x))] => change (db_write (db x) (b_ops (xbatch x))) with (pending x) end;
      rewrite !slot_emit; cbn; case_decide; done.
Qed.

Lemma undo_outputs_cons versions dels out outs s :
  xm_ok s -> prev_known s versions dels out -> transient out = false ->
  exists s1, same s s1 /\ xm_ok s1 /\
    undo_outputs versions (out :: outs) s =
    undo_outputs versions outs (undo_emit (out_raw out) (prev_of versions (out_raw out)) (dels (out_raw out)) (is_del out) s1).
Proof.
  intros Hok Hp Ht. cbn [undo_outputs]. rewrite Ht. fold (prev_of versions (out_raw out)). unfold undo_emit.
  destruct (Hp Ht) as [->|Hl]; [by exists s|]. rewrite (live_nonempty _ _ _ _ Hl).
  destruct (fetch_live s (oe_Bucket out) (oe_Key out) _ _ Hok Hl) as (d & s1 & Hf & Hs1 & Hok1 & _ & Hdel).
  exists s1. split_and!; [done..|]. unfold mbnd. rewrite Hf, Hdel. destruct (dels (out_raw out)), (is_del out); done.
Qed.

Lemma undo_emit_synced raw prev pd out s :
  xm_ok s -> synced s -> (prev = "" -> (slot (pending s) raw).2 = None) -> synced (undo_emit raw prev pd (is_del out) s).
Proof.
  intros Hok [Hl Hc] Hg. destruct (undo_emit_spec raw prev pd out s Hok) as ([Edb _ Eid Elast _] & _ & Ebc & Hslot).
  split; [by rewrite Elast, Eid|]. intros r. specialize (Hc r). unfold cur, view in *. rewrite Ebc, Edb, Hslot.
  destruct (decide (raw = r)) as [->|Hne]; [rewrite lookup_insert_eq|by rewrite lookup_insert_ne].
  unfold undo_slot. destruct prev as [|c prev]; [by rewrite Hg|]. cbn. by destruct pd.
Qed.

Lemma undo_outputs_spec versions dels outs : forall s,
  xm_ok s -> Forall (prev_known s versions dels) outs ->
  exists s', undo_outputs versions outs s = (Ret tt, s') /\ writes s s' /\ xm_ok s' /\
    (forall raw, slot (pending s') raw = undo_slots versions dels raw outs (slot (pending s) raw)) /\
    (synced s -> Forall (no_ghost s versions) outs -> synced s').
Proof.
  induction outs as [|out outs IH]; intros s Hok Hp; [exists s; by split_and!|].
  apply Forall_cons in Hp as [Ho Hp]. destruct (transient out) eqn:Et.
  - cbn [undo_outputs undo_slots]. rewrite Et. cbn. destruct (IH s Hok Hp) as (s' & ? & ? & ? & ? & Hsy). exists s'. split_and!; try done.
    intros Hs [_ Hg]%Forall_cons. auto.
  - destruct (undo_outputs_cons versions dels out outs s Hok Ho Et) as (s1 & Hs1 & Hok1 & ->).
    destruct (undo_emit_spec (out_raw out) (prev_of versions (out_raw out)) (dels (out_raw out)) out s1 Hok1) as (Hw2 & Hok2 & Hbc & Hslot).
    set (s2 := undo_emit _ _ _ _ s1) in *.
    assert (sees s s2) as Hsee by (etrans; [by apply same_sees|by apply writes_sees]).
    assert (pending s1 = pending s) as Ep by (unfold pending; by rewrite (same_db _ _ Hs1), (same_batch _ _ Hs1)).
    destruct (IH s2 Hok2) as (s' & -> & Hw & Hok' & Hslot' & Hsy).
    { eapply Forall_impl; [exact Hp|]. intros o Hk Hto. rewrite <- Hsee. by apply Hk. }
    exists s'. split_and!; [done|exact (transitivity (transitivity (same_writes _ _ Hs1) Hw2) Hw)|done| |].
    + intros raw. rewrite Hslot', Hslot, Ep. cbn [undo_slots]. rewrite Et. cbn [negb andb].
      case_bool_decide as E; [by rewrite decide_True, E by done|by rewrite decide_False by done].
    + intros Hs [Hg1 Hg]%Forall_cons. apply Hsy.
      * apply undo_emit_synced; [done|by eapply same_synced|]. rewrite Ep. by apply Hg1.
      * eapply Forall_impl; [exact Hg|]. intros o Hgo Hto Hpo. rewrite Hslot, Ep.
        case_decide as E; [|by apply Hgo]. rewrite E, Hpo. by apply Hgo.
Qed.

(** ** Rolling back what was played *)

Definition touches (raw : string) (out : TxOutputExt) : bool := negb (transient out) && bool_decide (out_raw out = raw).
Definition touched (raw : string) (outs : list TxOutputExt) : bool := existsb (touches raw) outs.
Definition deleted (raw : string) (outs : list TxOutputExt) : bool := existsb (fun out => touches raw out && is_del out) outs.

Lemma undo_slots_shape versions dels raw outs : forall q,
  undo_slots versions dels raw outs q =
  if touched raw outs then
    if is_empty_string (prev_of versions raw) then (None, q.2)
    else if dels raw then (None, Some (prev_of versions raw))
    else (Some (prev_of versions raw), if deleted raw outs then None else q.2)
  else q.
Proof.
  induction outs as [|out outs IH]; intros q; [done|]. cbn [undo_slots touched deleted existsb]. rewrite IH.
  fold (touches raw out) (touched raw outs) (deleted raw outs). unfold undo_slot.
  destruct (touches raw out); cbn [orb andb]; [|done].
  destruct (touched raw outs) eqn:Et; cbn.
  - destruct (is_empty_string _), (dels raw), (is_del out), (deleted raw outs); done.
  - assert (deleted raw outs = false) as ->.
    { clear -Et. induction outs as [|o outs IH]; [done|]. cbn in *. apply orb_false_iff in Et as [-> Et]. by apply IH. }
    rewrite orb_false_r. by destruct (is_empty_string _), (dels raw), (is_del out).
Qed.

Lemma do_slots_untouched txid raw outs : forall n p, touched raw outs = false -> do_slots txid raw n outs p = p.
Proof.
  induction outs as [|out outs IH]; intros n p Ht; [done|]. cbn in *. apply orb_false_iff in Ht as [H1 H2].
  fold (touches raw out). rewrite H1. by apply IH.
Qed.

Lemma do_slots_kept txid raw outs : forall n p,
  deleted raw outs = false -> touched raw outs = true -> exists v, do_slots txid raw n outs p = (Some v, p.2).
Proof.
  induction outs as [|out outs IH]; intros n p Hd Ht; [done|]. cbn in *. apply orb_false_iff in Hd as [H1 H2].
  fold (touches raw out) (touched raw outs) in *. destruct (touched raw outs) eqn:Et.
  - destruct (IH (S n) (if touches raw out then do_slot (new_version txid n) out p else p) H2 eq_refl) as (v & ->).
    exists v. destruct (touches raw out); [|done]. cbn in H1. unfold do_slot. by rewrite H1.
  - rewrite do_slots_untouched by done. destruct (touches raw out); [|done]. cbn in H1. unfold do_slot. rewrite H1. by eexists.
Qed.

(** The slot is as before; an old mark in the second table may be gone when the
    first table has a version. *)
Definition restored (q p : option string * option string) : Prop :=
  q.1 = p.1 /\ (q.2 = p.2 \/ is_Some p.1 /\ q.2 = None).

#[global] Instance restored_preorder : PreOrder restored.
Proof. split; [intros [? ?]; split; auto|]. intros [] [] [] [E1 H1] [E2 H2]. cbn in *. subst. split; [done|]. cbn. naive_solver. Qed.

Lemma restored_version q p : restored q p -> slot_version q = slot_version p.
Proof. intros [E H]. unfold slot_version. rewrite E. destruct p.1 eqn:Ep; [done|]. destruct H as [->|[[? ?] _]]; [done|]. congruence. Qed.

(** Which of the two tables a version is restored to. *)
Definition restorable (raw prev : string) (del : bool) (p : option string * option string) : Prop :=
  match p with
  | (Some v, _) => prev = v /\ prev <> "" /\ del = false
  | (None, Some v) => prev = v /\ prev <> "" /\ del = true
  | (None, None) => prev = ""
  end.

Lemma undo_do_slot txid versions dels raw outs n p q :
  (touched raw outs = true -> restorable raw (prev_of versions raw) (dels raw) p) ->
  (p = (None, None) -> deleted raw outs = false) ->
  restored q (do_slots txid raw n outs p) -> restored (undo_slots versions dels raw outs q) p.
Proof.
  intros Hr Hg Hq. rewrite undo_slots_shape. destruct (touched raw outs) eqn:Et; [|by rewrite do_slots_untouched in Hq].
  specialize (Hr eq_refl).
  assert (deleted raw outs = false -> q.2 = p.2 \/ q.2 = None) as Hkept.
  { intros Hd. destruct (do_slots_kept txid raw outs n p Hd Et) as (w & E). rewrite E in Hq. destruct Hq as [_ Hq]; cbn in Hq. naive_solver. }
  destruct p as [[v|] g]; [|destruct g as [v|]]; cbn in Hr.
  - destruct Hr as (-> & Hne & ->). assert (is_empty_string v = false) as -> by (by destruct v).
    split; [done|]. cbn. destruct (deleted raw outs); [by right; eauto|]. destruct (Hkept eq_refl) as [->| ->]; eauto.
  - destruct Hr as (-> & Hne & ->). assert (is_empty_string v = false) as -> by (by destruct v). by split; [|left].
  - rewrite Hr. split; [done|]. left. destruct (Hkept (Hg eq_refl)); done.
Qed.

Lemma inputVersionMap_lookup V tx raw :
  Forall (reads_current V) (TxInputsExt tx) -> raw ∈ in_raw <$> TxInputsExt tx -> inputVersionMap tx !! raw = Some (V raw).
Proof.
  unfold inputVersionMap. induction (TxInputsExt tx) as [|i ins IH] using rev_ind; [intros _ H; by apply elem_of_nil in H|].
  rewrite Forall_app, Forall_singleton, fmap_app, elem_of_app, foldl_app. intros [Hins Hi] Hin. cbn.
  destruct (decide (in_raw i = raw)) as [<-|Hne]; [by rewrite lookup_insert_eq, Hi|].
  rewrite lookup_insert_ne by done. apply IH; [done|]. destruct Hin as [?|Hin]; [done|]. by apply list_elem_of_singleton in Hin.
Qed.

Lemma touched_elem raw outs :
  touched raw outs = true -> exists out, out ∈ outs /\ transient out = false /\ out_raw out = raw.
Proof.
  unfold touched. intros (out & Hin & Ht)%existsb_exists. unfold touches in Ht. bool_prop.
  exists out. split; [by apply list_elem_of_In|done].
Qed.

Lemma elem_touched raw outs out : out ∈ outs -> transient out = false -> out_raw out = raw -> touched raw outs = true.
Proof.
  intros Hin Ht Hr. unfold touched. apply existsb_exists. exists out. split; [by apply list_elem_of_In|].
  unfold touches. rewrite Ht. by rewrite bool_decide_eq_true_2.
Qed.

(** A transaction deletes only keys that have a version: the version it read is
    not the empty one. *)
Definition no_fresh_delete (tx : Transaction) : Prop :=
  Forall (fun out => transient out = false -> is_del out = true ->
                     Forall (fun i => in_raw i = out_raw out -> GetVersionOfTxInput i <> "") (TxInputsExt tx)) (TxOutputsExt tx).

Lemma admissible_prev V tx raw :
  admissible V tx -> touched raw (TxOutputsExt tx) = true -> prev_of (inputVersionMap tx) raw = V raw /\ raw ∈ in_raw <$> TxInputsExt tx.
Proof.
  intros [Hin Hout] (out & Hel & Ht & Hr)%touched_elem. rewrite Forall_forall in Hout.
  destruct (Hout out Hel Ht) as [Hi _]. rewrite Hr in Hi. apply elem_of_list_to_set in Hi.
  unfold prev_of. by rewrite (inputVersionMap_lookup V).
Qed.

Definition slot_del (p : option string * option string) : bool := match p with (None, Some _) => true | _ => false end.

Lemma slot_restorable s raw p : slot_ok s raw p -> restorable raw (slot_version p) (slot_del p) p.
Proof.
  intros [H1 H2]. assert (forall v d, live s raw v d -> v <> "") as Hne.
  { intros v d Hl ->. by apply live_nonempty in Hl. }
  destruct p as [[v|] [g|]]; cbn in *; unfold slot_version; cbn; split_and?; eauto.
Qed.

Lemma fresh_not_deleted V tx raw :
  admissible V tx -> no_fresh_delete tx -> V raw = "" -> deleted raw (TxOutputsExt tx) = false.
Proof.
  intros Ha Hnf Hv. destruct (deleted raw (TxOutputsExt tx)) eqn:E; [|done]. exfalso.
  unfold deleted in E. apply existsb_exists in E as (out & Hin & Ht). unfold touches in Ht. bool_prop. apply list_elem_of_In in Hin.
  destruct (admissible_prev V tx raw Ha) as [_ Hr]; [by eapply elem_touched|].
  unfold no_fresh_delete in Hnf. rewrite Forall_forall in Hnf. specialize (Hnf out Hin ltac:(done) ltac:(done)).
  apply list_elem_of_fmap in Hr as (i & Hi & Hiin). rewrite Forall_forall in Hnf. apply (Hnf i Hiin); [congruence|].
  destruct Ha as [Ha _]. rewrite Forall_forall in Ha. rewrite (Ha i Hiin). congruence.
Qed.

(** Rolling back a transaction from a state as it left it. *)
Lemma UndoTx_spec t tx (P : string -> option string * option string) :
  xstate_ok t -> (forall raw, slot_ok t raw (P raw)) ->
  admissible (fun raw => slot_version (P raw)) tx -> no_fresh_delete tx ->
  (forall raw, restored (slot (pending t) raw) (do_slots (Txid tx) raw 0 (TxOutputsExt tx) (P raw))) ->
  exists t', XModel_UndoTx tx t = (Ret tt, t') /\ xstate_ok t' /\ sees t t' /\ frames t t' /\
    (forall raw, restored (slot (pending t') raw) (P raw)).
Proof.
  intros Ht HP Ha Hnf Hres. unfold XModel_UndoTx. destruct (cleaned t Ht) as (Ht0 & Hsync & Hsee & Hslot & Edb & Eid & El).
  set (t0 := cleanCache _ t) in *.
  assert (forall raw, P raw = (None, None) -> deleted raw (TxOutputsExt tx) = false) as Hnd.
  { intros raw E. apply (fresh_not_deleted (fun raw => slot_version (P raw))); [done..|]. by rewrite E. }
  assert (forall raw, touched raw (TxOutputsExt tx) = true ->
    restorable raw (prev_of (inputVersionMap tx) raw) (slot_del (P raw)) (P raw)) as Hrest.
  { intros raw Ht'. destruct (admissible_prev _ tx raw Ha Ht') as [-> _]. by eapply slot_restorable. }
  destruct (undo_outputs_spec (inputVersionMap tx) (fun raw => slot_del (P raw)) (TxOutputsExt tx) t0 (xs_caches _ Ht0))
    as (t' & -> & Hw & Hok' & Hslot' & Hsy).
  { rewrite Forall_forall. intros out Hin Htr. specialize (Hrest (out_raw out) (elem_touched _ _ out Hin Htr eq_refl)).
    pose proof (sees_slot_ok _ t0 _ _ Hsee (HP (out_raw out))) as [H1 H2].
    destruct (P (out_raw out)) as [[v|] [g|]]; cbn in *; [right|right|right|by left]; destruct Hrest as (-> & _ & _); auto. }
  assert (forall raw, restored (slot (pending t') raw) (P raw)) as Hres'.
  { intros raw. rewrite Hslot', Hslot. eapply undo_do_slot; [by intros; apply Hrest|by apply Hnd|apply Hres]. }
  assert (frames t t') as Hfr.
  { destruct Hw as [E1 _ E2 _ _ E3 E4]. split; [by rewrite E1|by rewrite E2, Eid| |by rewrite E4, El]. rewrite E3. unfold pending. by rewrite Edb, Eid. }
  exists t'. split_and!; [done| |etrans; [exact Hsee|by apply writes_sees]|done|done].
  eapply writes_state_ok; [exact Ht0|done|done| |].
  - apply Hsy; [done|]. rewrite Forall_forall. intros out Hin Htr Hp.
    pose proof (elem_touched _ _ out Hin Htr eq_refl) as Htd. specialize (Hrest _ Htd). rewrite Hp in Hrest. rewrite Hslot.
    specialize (Hres (out_raw out)). destruct (P (out_raw out)) as [[v|] [g|]] eqn:EP; cbn in Hrest; [naive_solver..|].
    destruct (do_slots_kept (Txid tx) (out_raw out) (TxOutputsExt tx) 0 (None, None) (Hnd _ EP) Htd) as (w & E).
    rewrite E in Hres. destruct Hres as [_ [->|[_ ->]]]; done.
  - intros raw. destruct (Hres' raw) as [E1 E2]. destruct (sees_slot_ok _ t0 _ _ Hsee (HP raw)) as [H1 H2].
    split; intros v; rewrite ?E1; [apply H1|]. destruct E2 as [->|[_ ->]]; [apply H2|done].
Qed.

(** ** Blocks *)

(** The transactions of a block in order, as [procTodoBlkForWalk] plays them,
    and in the order given, as [procUndoBlkForWalk] rolls them back. *)
Fixpoint play (txs : list Transaction) : M XModel unit :=
  match txs with [] => mpure tt | tx :: txs => do! XModel_DoTx tx in play txs end.

Fixpoint roll_back (txs : list Transaction) : M XModel unit :=
  match txs with [] => mpure tt | tx :: txs => do! XModel_UndoTx tx in roll_back txs end.

Lemma roll_back_app txs tx s s' :
  roll_back txs s = (Ret tt, s') -> roll_back (txs ++ [tx]) s = XModel_UndoTx tx s'.
Proof.
  revert s. induction txs as [|x txs IH]; intros s; cbn.
  - intros [= <-]. unfold mbnd. by destruct (XModel_UndoTx tx s) as [[[]| |] ?].
  - unfold mbnd. destruct (XModel_UndoTx x s) as [[[]| |] s1]; [apply IH|done..].
Qed.

Definition sees_tx (s : XModel) (tx : Transaction) : Prop :=
  recorded s tx /\ TxBlockid tx <> "".

Lemma sees_tx_sees s s' tx : sees s s' -> sees_tx s tx -> sees_tx s' tx.
Proof.
  intros Hs (((? & ? & Hk) & Ho) & ?). split; [split; [split_and!; [done..|]|]|done].
  - intros outs. rewrite Hs. apply Hk.
  - by rewrite Hs.
Qed.

Lemma play_spec txs : forall s s1 t,
  xstate_ok s -> Forall (sees_tx s) txs -> play txs s = (Ret tt, s1) ->
  xstate_ok s1 /\ sees s s1 /\
  (Forall no_fresh_delete txs -> xstate_ok t -> sees s1 t -> (forall raw, restored (slot (pending t) raw) (slot (pending s1) raw)) ->
   exists t', roll_back (rev txs) t = (Ret tt, t') /\ xstate_ok t' /\ sees t t' /\
     forall raw, restored (slot (pending t') raw) (slot (pending s) raw)).
Proof.
  induction txs as [|tx txs IH]; intros s s1 t Hs Htx Hp; cbn in Hp.
  { injection Hp as <-. split_and!; [done..|]. intros _ Ht _ Hr. exists t. by split_and!. }
  apply Forall_cons in Htx as [Hx Htx]. destruct Hx as (Hrec & Hb).
  destruct (DoTx_spec s tx Hs Hrec Hb) as (o & s' & Ed & Hs' & Hsee & _ & Ho). unfold mbnd in Hp. rewrite Ed in Hp.
  destruct Ho as [(-> & Ha & Hslot)|[[e ->] _]]; [|done].
  destruct (IH s' s1 t Hs') as (Hs1 & Hsee1 & Hback); [|done|].
  { eapply Forall_impl; [exact Htx|]. intros x. by apply sees_tx_sees. }
  split_and!; [done|by etrans|]. intros [Hnf Hnfs]%Forall_cons Ht Hseet Hr. destruct (Hback Hnfs Ht Hseet Hr) as (t1 & Hrb & Ht1 & Hsee_t1 & Hr1).
  destruct (UndoTx_spec t1 tx (fun raw => slot (pending s) raw) Ht1) as (t' & Hu & Ht' & Hsee' & _ & Hr').
  - intros raw. apply (sees_slot_ok s); [do 3 (etrans; [eassumption|]); done|apply Hs].
  - done.
  - done.
  - intros raw. by rewrite <- Hslot.
  - exists t'. split_and!; [cbn; by erewrite roll_back_app|done|by etrans|done].
Qed.

(** Writing the batch and starting the next one. *)
Lemma next_batch_ok s :
  xstate_ok s -> xstate_ok (NewBatch (WriteBatch s)) /\ sees s (NewBatch (WriteBatch s)) /\
  forall raw, slot (pending (NewBatch (WriteBatch s))) raw = slot (pending s) raw.
Proof.
  intros [Hok Hr Hv Hf Hu]. assert (sees s (NewBatch (WriteBatch s))) as Hsee.
  { intros txid. unfold outs_of. cbn. fold (pending s). by rewrite Hu. }
  split_and!; [|done|done]. split.
  - by eapply xm_ok_frame.
  - right. split; [|done]. cbn. intros E. apply Hf in E. lia.
  - intros raw. change (db (NewBatch (WriteBatch s))) with (pending s). change (pending (NewBatch (WriteBatch s))) with (pending s).
    split; apply (sees_slot_ok s); try done; apply Hv.
  - cbn. intros n E. apply Hf in E. lia.
  - done.
Qed.

(** C32: playing a transaction of a block is atomic and optimistic.  It is
    accepted exactly when every version it declares to have read is the current
    one and every key it writes was declared, with a value; then the keys it
    writes, and only those, get its outputs as versions.  Otherwise it fails and
    no version changes.  The caches never show. *)
Theorem DoTx_accepts_current_reads s tx :
  xstate_ok s -> recorded s tx -> TxBlockid tx <> "" ->
  exists o s', XModel_DoTx tx s = (o, s') /\ xstate_ok s' /\
    (o = Ret tt /\ admissible (view s) tx /\ (forall raw, view s' raw = do_view tx (view s) raw) \/
     (exists e, o = Err e) /\ ~ admissible (view s) tx /\ (forall raw, view s' raw = view s raw)).
Proof.
  intros Hs Hrec Hb. destruct (DoTx_spec s tx Hs Hrec Hb) as (o & s' & ? & ? & _ & _ & Ho). exists o, s'. split_and!; [done..|].
  destruct Ho as [(-> & Ha & Hslot)|(He & Ha & Hslot)]; [left|right]; split_and!; try done; intros raw; unfold view.
  - rewrite Hslot, do_slots_view. done.
  - by rewrite Hslot.
Qed.

(** Rolling back a block undoes it.  When the transactions of a block were
    played and written, rolling them back in reverse order in the next batch
    succeeds and gives every key the version it had before the block, provided no
    transaction deletes a key that never had a version; the state stays fit for
    playing the next block. *)
Theorem block_roll_back_restores s txs s1 :
  xstate_ok s -> Forall (sees_tx s) txs -> Forall no_fresh_delete txs -> play txs s = (Ret tt, s1) ->
  exists s2, roll_back (rev txs) (NewBatch (WriteBatch s1)) = (Ret tt, s2) /\ xstate_ok s2 /\
    forall raw, view s2 raw = view s raw.
Proof.
  intros Hs Htx Hnf Hp. destruct (play_spec txs s s1 (NewBatch (WriteBatch s1)) Hs Htx Hp) as (Hs1 & _ & Hback).
  destruct (next_batch_ok s1 Hs1) as (Hn & Hsee & Hslot). destruct (Hback Hnf Hn Hsee) as (s2 & Hrb & Hs2 & _ & Hr).
  - intros raw. by rewrite Hslot.
  - exists s2. split_and!; [done..|]. intros raw. unfold view. by apply restored_version.
Qed.

(** ** The state as the sandbox's reader *)

(** What a contract reads: the results of [Get] and of a full [Select]. *)
Definition xm_reader (s : XModel) : XMReader := {|
  xr_get b k := (XModel_Get b k s).1;
  xr_select b start limit :=
    match (XModel_Select b start (default "" limit) s).1 with
    | Ret (l, _) => Ret l
    | Err e => Err e
    | Panic => Panic
    end
|}.

(** Contracts' buckets are named without the separator. *)
Definition plain_buckets (s : XModel) : Prop :=
  forall txid outs out, outs_of s txid = Some outs -> out ∈ outs -> no_slash (oe_Bucket out) = true.

Lemma plain_version s v txid off out : plain_buckets s -> version_of s v txid off out -> no_slash (oe_Bucket out) = true.
Proof. intros Hp [_ _ _ (outs & Ho & Hn)]. eapply Hp; [done|]. by eapply list_elem_of_lookup_2. Qed.

(** The data of a table entry. *)
Definition entry_data (s : XModel) (kv : string * string) (d : VersionedData) : Prop :=
  exists txid off out, version_of s kv.2 txid off out /\ out_raw out = kv.1 /\ is_del out = false /\
    d = output_data txid (Z.of_nat off) out.

Lemma iterate_spec b l : forall s,
  xm_ok s -> Forall (fun kv => live s kv.1 kv.2 false) l ->
  exists ds s', iterate b l s = (Ret (ds, None), s') /\ Forall2 (entry_data s) l ds.
Proof.
  induction l as [|[raw v] l IH]; intros s Hok Hl; [by eexists [], s|]. apply Forall_cons in Hl as [(t & o & u & Hv & Hr & Hd) Hl].
  destruct (fetch_spec s b v t o u Hok Hv) as (s1 & Hf & Hs1 & Hok1). pose proof (same_sees _ _ Hs1) as Hsee.
  destruct (IH s1 Hok1) as (ds & s2 & Hi & Hds). { eapply Forall_impl; [exact Hl|]. intros kv. cbn. by rewrite Hsee. }
  exists (output_data t (Z.of_nat o) u :: ds), s2. cbn [iterate]. cbn in Hf. rewrite Hf, Hi. split; [done|]. constructor; [by exists t, o, u|].
  eapply Forall2_impl; [exact Hds|]. intros kv d (t' & o' & u' & Hv' & H'). exists t', o', u'. by rewrite Hsee.
Qed.

Section Reader.
Variable s : XModel.
Hypothesis Hok : xm_ok s.
Hypothesis Hslots : forall raw, slot_ok s raw (slot (db s) raw).
Hypothesis Hplain : plain_buckets s.

Lemma get_entry b k d :
  entry_data s (makeRawKey b k, default "" (extUtxoTable (db s) !! makeRawKey b k)) d ->
  (XModel_Get b k s).1 = Ret d.
Proof using Hok.
  intros (t & o & u & Hv & Hr & Hd & ->). unfold XModel_Get. cbn in Hv.
  destruct (extUtxoTable (db s) !! makeRawKey b k) as [v|]; cbn in Hv.
  - by destruct (fetch_spec s b v t o u Hok Hv) as (s' & -> & _).
  - exfalso. assert (live s (out_raw u) "" false) as Hl by (by exists t, o, u). by apply live_nonempty in Hl.
Qed.

Lemma table_range_elem b start limit raw v :
  (raw, v) ∈ table_range (extUtxoTable (db s)) (makeRawKey b start) (makeRawKey b limit) <->
  extUtxoTable (db s) !! raw = Some v /\ str_le (makeRawKey b start) raw /\ str_lt raw (makeRawKey b limit).
Proof.
  unfold table_range. rewrite list_elem_of_In, List.filter_In, <- list_elem_of_In, rb_from_spec, bool_decide_eq_true. cbn. tauto.
Qed.

(** An entry of a range of a bucket is labelled with that bucket and its key. *)
Lemma range_label b start limit kv d :
  no_slash b = true -> kv ∈ table_range (extUtxoTable (db s)) (makeRawKey b start) (makeRawKey b limit) -> entry_data s kv d ->
  kv.1 = makeRawKey b (vd_key d) /\ in_range start limit (vd_key d).
Proof using Hplain.
  destruct kv as [raw v]. intros Hb (Ht & Hle & Hlt)%table_range_elem (t & o & u & Hv & Hr & _ & ->). cbn in *.
  rewrite makeRawKey_assoc in Hle. rewrite (makeRawKey_assoc b limit) in Hlt.
  destruct (string_between_prefix _ _ _ _ Hle Hlt) as [y Hy]. rewrite <- makeRawKey_assoc in Hle, Hlt, Hy.
  rewrite <- Hr in Hy. unfold out_raw in Hy. pose proof (plain_version _ _ _ _ _ Hplain Hv).
  apply makeRawKey_inj in Hy as [Hbb Hky]; [|done..]. unfold out_raw in Hr. rewrite Hbb in Hr. split; [done|].
  unfold in_range, str_le, str_lt in *. rewrite <- Hr, !makeRawKey_compare in Hle, Hlt. done.
Qed.

Lemma range_sorted b start limit l ds :
  no_slash b = true -> (forall kv, kv ∈ l -> kv ∈ table_range (extUtxoTable (db s)) (makeRawKey b start) (makeRawKey b limit)) ->
  StronglySorted key_lt l -> Forall2 (entry_data s) l ds -> vsorted ds.
Proof using Hplain.
  intros Hb Hin Hs Hds. induction Hds as [|kv d l ds He Hds IH]; [constructor|].
  apply StronglySorted_inv in Hs as [Hs' Hf]. constructor; [apply IH; [intros; apply Hin; by right|done]|].
  rewrite Forall_forall in Hf. apply Forall_forall. intros d' Hd'. apply list_elem_of_lookup in Hd' as (i & Hi).
  destruct (Forall2_lookup_r _ _ _ _ _ Hds Hi) as (kv' & Hkv' & He'). apply list_elem_of_lookup_2 in Hkv'.
  destruct (range_label b start limit kv d Hb) as [E _]; [apply Hin; by left|done|].
  destruct (range_label b start limit kv' d' Hb) as [E' _]; [apply Hin; by right|done|].
  specialize (Hf _ Hkv'). unfold key_lt, vkey_lt, str_lt in *. by rewrite E, E', makeRawKey_compare in Hf.
Qed.

Lemma xm_reader_reads : reader_ok (xm_reader s).
Proof using All.
  intros b k. destruct (XModel_Get_spec s b k Hok (Hslots _)) as (d & s' & Hg & _ & _ & Hr). exists d. cbn. rewrite Hg.
  split; [done|]. destruct Hr as [[_ ->]|(t & o & u & Hv & Hraw & ->)]; [done|]. split; [done|]. intros Hb.
  apply makeRawKey_inj in Hraw; [done|by eapply plain_version|done].
Qed.

Lemma entry_live raw v : extUtxoTable (db s) !! raw = Some v -> live s raw v false.
Proof using Hslots. apply Hslots. Qed.

Lemma entry_unique kv d d' : entry_data s kv d -> entry_data s kv d' -> d = d'.
Proof. intros (t & o & u & Hv & _ & _ & ->) (t' & o' & u' & Hv' & _ & _ & ->). by destruct (version_inj _ _ _ _ _ _ _ _ Hv Hv') as (-> & -> & ->). Qed.

Lemma strip_entries l ds : Forall2 (entry_data s) l ds -> stripDelIterator ds = ds.
Proof.
  induction 1 as [|kv d l ds (t & o & u & _ & _ & Hd & ->) Hds IH]; [done|]. unfold stripDelIterator in *. cbn [List.filter].
  change (IsDelFlag (vd_value (output_data t (Z.of_nat o) u))) with (is_del u). by rewrite Hd, IH.
Qed.

(** A key with a live version is in the first table. *)
Lemma get_live b k d :
  (XModel_Get b k s).1 = Ret d -> IsEmptyVersionedData d || IsDelFlag (vd_value d) = false ->
  exists v, extUtxoTable (db s) !! makeRawKey b k = Some v /\ entry_data s (makeRawKey b k, v) d.
Proof using Hok Hslots.
  intros Hg Hne. destruct (Hslots (makeRawKey b k)) as [H1 H2]. unfold XModel_Get, slot in *. cbn in *.
  destruct (extUtxoTable (db s) !! makeRawKey b k) as [v|].
  - exists v. split; [done|]. destruct (H1 v eq_refl) as (t & o & u & Hv & Hr & Hd).
    destruct (fetch_spec s b v t o u Hok Hv) as (s' & Hf & _). rewrite Hf in Hg. cbn in Hg. simplify_eq. by exists t, o, u.
  - destruct (extUtxoDelTable (db s) !! makeRawKey b k) as [v|]; [|cbn in Hg; by simplify_eq].
    destruct (H2 v eq_refl) as (t & o & u & Hv & Hr & Hd). destruct (fetch_spec s b v t o u Hok Hv) as (s' & Hf & _).
    rewrite Hf in Hg. cbn in Hg. simplify_eq. apply orb_false_iff in Hne as [_ Hne]. cbn in Hne. unfold is_del in Hd. congruence.
Qed.

Lemma xm_reader_selects : reader_select_ok (xm_reader s).
Proof using All.
  intros b start limit Hb Hne Hle. cbn [xr_select xr_get xm_reader]. change (default "" (Some limit)) with limit. unfold XModel_Select.
  set (l := table_range (extUtxoTable (db s)) (makeRawKey b start) (makeRawKey b limit)).
  destruct (iterate_spec b l s Hok) as (ds & s' & Hi & Hds).
  { rewrite Forall_forall. intros [raw v] (Ht & _)%table_range_elem. by apply entry_live. }
  rewrite Hi. cbn. exists ds. split; [done|].
  assert (vsorted ds) as Hsort.
  { eapply (range_sorted b start limit l); [done|by intros kv|apply StronglySorted_filter, rb_from_sorted|done]. }
  split; [done|]. split.
  { apply Forall_forall. intros d Hin. apply list_elem_of_lookup in Hin as (i & Hd). destruct (Forall2_lookup_r _ _ _ _ _ Hds Hd) as (kv & Hkv & He). apply list_elem_of_lookup_2 in Hkv.
    by destruct (range_label b start limit kv d Hb Hkv He). }
  intros k. rewrite (strip_entries l) by done. apply option_eq. intros d. split.
  - intros [<- Hin]%vfind_key. apply list_elem_of_lookup in Hin as (i & Hd).
    destruct (Forall2_lookup_r _ _ _ _ _ Hds Hd) as ([raw v] & Hkv & He). apply list_elem_of_lookup_2 in Hkv.
    destruct (range_label b start limit _ d Hb Hkv He) as [E Hr]. cbn in E. subst raw. rewrite decide_True by done.
    apply table_range_elem in Hkv as (Ht & _). rewrite (get_entry b (vd_key d) d) by (by rewrite Ht).
    destruct He as (t & o & u & _ & _ & Hdel & ->). change (vd_value _) with (default (Raw "") (oe_Value u)). unfold is_del in Hdel. by rewrite Hdel.
  - case_decide as Hr; [|done]. destruct (XModel_Get b k s).1 as [d'| |] eqn:Hg; [|done..].
    destruct (IsEmptyVersionedData d' || _) eqn:Ed; [done|]. intros [= ->].
    destruct (get_live b k d Hg Ed) as (v & Ht & He). destruct (in_range_raw b start limit k Hr).
    assert ((makeRawKey b k, v) ∈ l) as Hl by (by apply table_range_elem). apply list_elem_of_lookup in Hl as (i & Hi').
    destruct (Forall2_lookup_l _ _ _ _ _ Hds Hi') as (d2 & Hd2 & He2). rewrite (entry_unique _ _ _ He2 He) in Hd2.
    assert (vd_key d = k) as <-.
    { destruct (range_label b start limit (makeRawKey b k, v) d Hb) as [E _]; [by eapply list_elem_of_lookup_2|done|]. cbn in E.
      by apply makeRawKey_inj in E as [_ ->]. }
    apply vfind_elem; [done|]. by eapply list_elem_of_lookup_2.
Qed.
End Reader.

(** C33: the versioned state implements the interface the contract sandbox is
    verified against: a read gives the version the tables name, labelled with
    the key asked for, and a range read gives the live versions of the range in
    key order.  So what is proved about contract runs above any such reader
    holds above this state, whatever its caches hold. *)
Theorem XModel_implements_reader s :
  xm_ok s -> (forall raw, slot_ok s raw (slot (db s) raw)) -> plain_buckets s ->
  reader_ok (xm_reader s) /\ reader_select_ok (xm_reader s).
Proof. intros Hok Hs Hp. split; [by apply xm_reader_reads|by apply xm_reader_selects]. Qed.

(** A version written into the tables is read back as the same transaction
    and output. *)
Theorem version_roundtrip txid off :
  txid <> "" -> is_int32 off -> parseVersion (MakeVersion txid off) = Ret (txid, off).
Proof. intros Ht Ho. apply parse_MakeVersion; [done|]. unfold is_int32, is_int64, int32_min, int32_max, int64_min, int64_max in *. lia. Qed.

(** ** Where the code does something else *)

(** Rolling back the deletion of a key that never had a version does not
    undo it.  The roll back removes the key from the first table only; the mark
    stays in the second, and the key now reads as the version of a transaction
    that is no longer part of the state. *)
Theorem undone_delete_leaves_version s tx out :
  xstate_ok s -> recorded s tx -> TxBlockid tx <> "" ->
  TxOutputsExt tx = [out] -> transient out = false -> is_del out = true ->
  admissible (view s) tx -> view s (out_raw out) = "" ->
  exists s1 s2, XModel_DoTx tx s = (Ret tt, s1) /\ XModel_UndoTx tx (NewBatch (WriteBatch s1)) = (Ret tt, s2) /\
    view s2 (out_raw out) = MakeVersion (Txid tx) 0.
Proof.
  intros Hs Hrec Hb Eo Ht Hd Ha Hv. destruct (DoTx_spec s tx Hs Hrec Hb) as (o & s1 & E1 & Hs1 & _ & _ & Ho).
  destruct Ho as [(-> & _ & Hslot)|(_ & Hn & _)]; [|done]. exists s1.
  destruct (next_batch_ok s1 Hs1) as (Hn & _ & Hslot1). unfold XModel_UndoTx.
  destruct (cleaned _ Hn) as (Ht0 & _ & _ & Hslot0 & _). set (t0 := cleanCache _ _) in *.
  assert (touched (out_raw out) (TxOutputsExt tx) = true) as Htd by (rewrite Eo; by eapply elem_touched; [left|..]).
  assert (prev_of (inputVersionMap tx) (out_raw out) = "") as Hp by (by rewrite (proj1 (admissible_prev _ tx _ Ha Htd)), Hv).
  destruct (undo_outputs_spec (inputVersionMap tx) (fun _ => false) (TxOutputsExt tx) t0 (xs_caches _ Ht0)) as (t' & -> & _ & _ & Hu & _).
  { rewrite Eo, Forall_singleton. intros _. by left. }
  exists t'. split_and!; [done..|]. unfold view. rewrite Hu, undo_slots_shape, Htd, Hp. cbn [is_empty_string]. rewrite Hslot0, Hslot1, Hslot, Eo.
  cbn [do_slots]. rewrite Ht, bool_decide_eq_true_2 by done. cbn [negb andb]. unfold do_slot. by rewrite Hd.
Qed.

(** A transaction of a block that refers to a negative output makes the node
    panic: the offset is checked against the number of outputs only. *)
Theorem negative_offset_panics s txin txid outs :
  xm_ok s -> ie_RefTxid txin = Some txid -> txid <> "" -> is_int32 (ie_RefOffset txin) -> (ie_RefOffset txin < 0)%Z ->
  outs_of s txid = Some outs -> extUtxoCache s !! ie_Bucket txin = None ->
  (GetFromLedger txin s).1 = Panic.
Proof.
  intros Hok Ei Ht Hi Hneg Ho Hc. unfold GetFromLedger. rewrite Ei. unfold fetchVersionedData, bucketCacheGet, bucketCache. rewrite Hc. cbn [default from_option].
  change (Get (NewLRUCache bucketExtUTXOCacheSize) (MakeVersion txid (ie_RefOffset txin))) with
    (@None VersionedData, NewLRUCache (K := string) (V := VersionedData) bucketExtUTXOCacheSize).
  rewrite parse_MakeVersion by (done || (unfold is_int32, is_int64, int32_min, int32_max, int64_min, int64_max in *; lia)).
  destruct (set_bucketCache_ok s (ie_Bucket txin) (NewLRUCache bucketExtUTXOCacheSize) Hok) as [Hs Hok']; [by apply new_cache_ok|].
  rewrite <- (same_sees _ _ Hs) in Ho. destruct (queryTx_spec _ _ _ Hok' Ho) as (tx & c & s2 & Hq & <- & _).
  unfold mbnd, mlift. cbv beta iota zeta. cbn [fst snd]. rewrite Hq. cbn [fst snd].
  destruct (Z.leb_spec (Z.of_nat (length (TxOutputsExt tx))) (ie_RefOffset txin)); [lia|].
  destruct (Z.ltb_spec (ie_RefOffset txin) 0); [done|lia].
Qed.

(** ** A fresh state and examples *)

Definition NewXModel (l : Ledger) (d : StateDB) : XModel := mkXM l d (mkBatch 0 []) ∅ None ∅.

Lemma NewXModel_ok l un ut tot ptr irr : txcache_ok l -> xstate_ok (NewXModel l (mkDB un ∅ ∅ ut tot ptr irr)).
Proof.
  intros Hl. split; [split; [done|]|right; by split| |done|done].
  - intros b c. cbn. by rewrite lookup_empty.
  - intros raw. unfold slot, pending. cbn. rewrite !lookup_empty. by split.
Qed.

(** The part of [doTxSync] that concerns this store: an unconfirmed transaction
    is played in a batch of its own, and kept. *)
Definition post (tx : Transaction) : M XModel unit := fun s =>
  (do! XModel_DoTx tx in
   fun s => (Ret tt, WriteBatch (emit (PutUnconfirmed (Txid tx) tx) s))) (NewBatch s).

Module XMExample.
Definition mk (id blk : string) (ins : list TxInputExt) (outs : list TxOutputExt) : Transaction :=
  mkTx id blk false false "" [] [] ins outs None.
Definition reads (k : string) (ref : option string) : TxInputExt := mkTxInExt "b" k ref 0.
Definition sets (k v : string) : TxOutputExt := mkTxOutExt "b" k (Some (Raw v)).
Definition deletes (k : string) : TxOutputExt := mkTxOutExt "b" k (Some DelFlag).

(** A block that writes [k] and deletes it, and one that deletes a key never
    written. *)
Definition tA : Transaction := mk "A" "B1" [reads "k" None] [sets "k" "1"].
Definition tB : Transaction := mk "B" "B1" [reads "k" (Some "A")] [deletes "k"].
Definition tD : Transaction := mk "D" "B1" [reads "j" None] [deletes "j"].

Definition l : Ledger := set_confirmed empty_ledger (<["A" := tA]> (<["B" := tB]> (<["D" := tD]> ∅))).
Definition start : XModel := NewXModel l (mkDB ∅ ∅ ∅ ∅ None None None).

Lemma start_ok : xstate_ok start.
Proof. apply NewXModel_ok. split; [split; [constructor|done]|]. intros id tx. done. Qed.

Lemma rec_tx tx : outs_of start (Txid tx) = Some (TxOutputsExt tx) -> Txid tx <> "" ->
  (Z.of_nat (length (TxOutputsExt tx)) <= int32_max)%Z -> recorded start tx.
Proof. intros H1 H2 H3. split; [|done]. split_and!; [done..|]. intros outs. rewrite H1. by intros [= <-]. Qed.

Lemma recA : recorded start tA.
Proof. by apply rec_tx. Qed.
Lemma recB : recorded start tB.
Proof. by apply rec_tx. Qed.
Lemma recD : recorded start tD.
Proof. by apply rec_tx. Qed.

Definition played : XModel := NewBatch (WriteBatch (XModel_DoTx tA start).2).

Lemma played_ok : xstate_ok played /\ sees start played.
Proof.
  destruct (DoTx_spec start tA start_ok recA ltac:(done)) as (o & s' & E & Hs' & Hsee & _).
  unfold played. rewrite E. destruct (next_batch_ok s' Hs') as (H & H' & _). split; [done|by etrans].
Qed.

(** After the block: [A] was confirmed; then two transactions on the same key. *)
Definition u1 : Transaction := mk "U" "" [reads "k" (Some "A")] [sets "k" "2"].
Definition u2 : Transaction := mk "V" "" [reads "k" (Some "U")] [sets "k" "3"].
Definition u1' : Transaction := mk "W" "" [reads "k" (Some "A")] [sets "k" "9"].
Definition posted : XModel := (post u1 (WriteBatch (XModel_DoTx tA start).2)).2.
End XMExample.
Import XMExample.

(** The versions of the last block shadow the tables for unconfirmed
    transactions.  The batch cache is emptied only when the next batch of a block
    starts.  After a block wrote a key and an unconfirmed transaction wrote it
    again, the table and [Get] name the second version; yet a transaction that
    reads that version is refused, and one that reads the version already
    replaced is accepted. *)
Theorem stale_batch_cache :
  (XModel_Get "b" "k" posted).1 = Ret (mkVD "b" "k" (Raw "2") (Some "U") 0) /\
  (exists e, (post u2 posted).1 = Err e) /\
  (post u1' posted).1 = Ret tt.
Proof. split_and!; [vm_compute; reflexivity|eexists; vm_compute; reflexivity|vm_compute; reflexivity]. Qed.

Lemma DoTx_accepts_current_reads_witness :
  exists s', XModel_DoTx tA start = (Ret tt, s') /\ view s' "b/k" = "41_0".
Proof.
  destruct (DoTx_accepts_current_reads start tA start_ok recA ltac:(done)) as (o & s' & E & _ & [(-> & _ & Hv)|([e ->] & _)]).
  - exists s'. split; [exact E|]. rewrite Hv. vm_compute. reflexivity.
  - exfalso. vm_compute in E. discriminate E.
Defined.

Lemma block_roll_back_restores_witness :
  exists s2, roll_back (rev [tA; tB]) (NewBatch (WriteBatch (play [tA; tB] start).2)) = (Ret tt, s2) /\ view s2 "b/k" = "".
Proof.
  destruct (block_roll_back_restores start [tA; tB] (play [tA; tB] start).2) as (s2 & Hr & _ & Hv).
  - exact start_ok.
  - apply Forall_cons. split; [|apply Forall_singleton]; (split; [exact recA || exact recB|discriminate]).
  - apply Forall_cons. split; [|apply Forall_singleton]; apply Forall_singleton; intros _; [discriminate|]. intros _. apply Forall_singleton. discriminate.
  - vm_compute. reflexivity.
  - exists s2. split; [exact Hr|]. rewrite Hv. vm_compute. reflexivity.
Defined.

Lemma XModel_implements_reader_witness :
  reader_ok (xm_reader played) /\ xr_get (xm_reader played) "b" "k" = Ret (mkVD "b" "k" (Raw "1") (Some "A") 0).
Proof.
  split; [|vm_compute; reflexivity]. destruct played_ok as [Hp Hsee].
  refine (proj1 (XModel_implements_reader played _ _ _)).
  - apply Hp.
  - intros raw. apply Hp.
  - intros txid outs out. rewrite Hsee. unfold outs_of, start, l. cbn. rewrite !lookup_insert, !lookup_empty. cbn.
    repeat case_decide; cbn; intros [= <-]; rewrite list_elem_of_singleton; intros ->; reflexivity.
Defined.

Lemma version_roundtrip_witness : parseVersion (MakeVersion "AB" 7) = Ret ("AB", 7%Z).
Proof. apply version_roundtrip; [discriminate|]. vm_compute. split; discriminate. Defined.

Lemma undone_delete_leaves_version_witness :
  exists s1 s2, XModel_DoTx tD start = (Ret tt, s1) /\ XModel_UndoTx tD (NewBatch (WriteBatch s1)) = (Ret tt, s2) /\
    view s2 "b/j" = "44_0".
Proof.
  apply (undone_delete_leaves_version start tD (deletes "j") start_ok recD); try reflexivity; [discriminate|].
  split; apply Forall_singleton; [reflexivity|]. intros _. split; [apply elem_of_list_to_set; left|by eexists].
Defined.

Lemma negative_offset_panics_witness : (GetFromLedger (mkTxInExt "b" "k" (Some "A") (-1)) start).1 = Panic.
Proof.
  eapply (negative_offset_panics start _ "A"); try reflexivity; [exact (xs_caches _ start_ok)|discriminate|].
  vm_compute. split; discriminate.
Defined.
