(* ===== verification/Utxo.v ===== *)
(** * Unspent outputs

    [bcs/ledger/xledger/state/utxo]: the table of unspent transaction outputs
    as a transaction sees it.  An output is looked for in the cache of outputs,
    in the cache of the batch under construction, and in the database.  The
    state machine that spends and creates outputs is [State].

    The elements of the cache's list have an identity, as pointers have: an
    entry remembers the element it was pushed with. *)

From Stdlib Require Import ZArith Lia Ascii.
From stdpp Require Import base gmap strings list numbers sorting.
From S2P Require Import Prelude GoValues Sandbox LruCache LedgerHash XModel.

Set Default Proof Using "Type".

Definition ErrNoEnoughUTXO : string := "no enough money(UTXO) to start this transaction".
Definition ErrUTXONotFound : string := "this utxo can not be found".
Definition ErrInputOutputNotEqual : string := "input's amount is not equal to output's".
Definition ErrUnexpected : string := "this is a unexpected error".
Definition ErrNegativeAmount : string := "amount in transaction can not be negative number".
Definition ErrUTXOFrozen : string := "utxo is still frozen".
Definition ErrUTXODuplicated : string := "found duplicated utxo in same tx".

Definition FeePlaceholder : string := "$".
Definition UTXOTablePrefix : string := "U".

(** ** Amounts *)

(** [big.Int.SetBytes] and [big.Int.Bytes]: big-endian, without leading zeros. *)
Fixpoint set_bytes (acc : Z) (s : string) : Z :=
  match s with
  | EmptyString => acc
  | String c s => set_bytes (acc * 256 + byte_of c) s
  end.
Definition SetBytes (s : string) : Z := set_bytes 0 s.

Fixpoint put_bytes (fuel : nat) (n : Z) (acc : string) : string :=
  match fuel with
  | O => acc
  | S fuel => if (n =? 0)%Z then acc else put_bytes fuel (n / 256) (String (byte_char (n mod 256)) acc)
  end.
Definition Bytes (z : Z) : string := put_bytes (S (Z.to_nat (Z.log2 (Z.abs z)))) (Z.abs z) "".

(** ** Keys *)

Definition GenUtxoKey (addr txid : string) (offset : Z) : string :=
  addr +:+ "_" +:+ hex_encode txid +:+ "_" +:+ bigString offset.
Definition GenUtxoKeyWithPrefix (addr txid : string) (offset : Z) : string :=
  UTXOTablePrefix +:+ GenUtxoKey addr txid offset.

(** ** The cache of outputs *)

Record CacheItem := mkCI { ci_item : UtxoItem; ci_ele : nat }.

Record UtxoCache := mkUC {
  Available : gmap string (gmap string CacheItem);
  All : gmap string (gmap string CacheItem);
  List_ : list (nat * (string * string));
  Limit : Z;
  next_ele : nat
}.

Definition NewUtxoCache (limit : Z) : UtxoCache := mkUC ∅ ∅ [] limit 0.

(** The inner maps of an address exist in both or in neither ([cache_shape]
    below), so a nil map is never written. *)
Definition inner (m : gmap string (gmap string CacheItem)) (addr : string) : gmap string CacheItem := default ∅ (m !! addr).

Definition cache_remove (c : UtxoCache) (address utxoKey : string) : UtxoCache :=
  let c :=
    match All c !! address with
    | None => c
    | Some l2 =>
        let (l2, lst) :=
          match l2 !! utxoKey with
          | Some item => (delete utxoKey l2, List.filter (fun e => negb (e.1 =? ci_ele item)%nat) (List_ c))
          | None => (l2, List_ c)
          end in
        if decide (l2 = ∅)
        then mkUC (delete address (Available c)) (delete address (All c)) lst (Limit c) (next_ele c)
        else mkUC (Available c) (<[address := l2]> (All c)) lst (Limit c) (next_ele c)
    end in
  match Available c !! address with
  | None => c
  | Some l2 => mkUC (<[address := delete utxoKey l2]> (Available c)) (All c) (List_ c) (Limit c) (next_ele c)
  end.

Definition cache_Insert (c : UtxoCache) (addr utxoKey : string) (item : UtxoItem) : UtxoCache :=
  let c := match All c !! addr with
           | Some _ => c
           | None => mkUC (<[addr := ∅]> (Available c)) (<[addr := ∅]> (All c)) (List_ c) (Limit c) (next_ele c)
           end in
  let ci := mkCI item (next_ele c) in
  let c := mkUC (<[addr := <[utxoKey := ci]> (inner (Available c) addr)]> (Available c))
                (<[addr := <[utxoKey := ci]> (inner (All c) addr)]> (All c))
                ((next_ele c, (addr, utxoKey)) :: List_ c) (Limit c) (S (next_ele c)) in
  if (Limit c <? Z.of_nat (length (List_ c)))%Z
  then match List.last (List_ c) (0%nat, ("", "")) with (_, (a, k)) => cache_remove c a k end
  else c.

Definition cache_Use (c : UtxoCache) (address utxoKey : string) : UtxoCache :=
  match Available c !! address with
  | None => c
  | Some l2 => mkUC (<[address := delete utxoKey l2]> (Available c)) (All c) (List_ c) (Limit c) (next_ele c)
  end.

Definition cache_find (c : UtxoCache) (addr utxoKey : string) : option UtxoItem :=
  match All c !! addr with
  | Some l2 => match l2 !! utxoKey with Some ci => Some (ci_item ci) | None => None end
  | None => None
  end.

(** ** The state of the component *)

Record UtxoVM := mkUV {
  uCache : UtxoCache;
  uBatchCache : gmap string UtxoItem;
  uLastBatch : option nat;
  utxoTotal : Z;
  BalanceCache : LRUCache string Z;
  BalanceViewDirty : gmap string Z;
  lockKeys : gmap string Z;
  lockKeyList : list string;
  PrevFoundKeyCache : LRUCache string string
}.

Definition set_uCache u v := mkUV v (uBatchCache u) (uLastBatch u) (utxoTotal u) (BalanceCache u) (BalanceViewDirty u) (lockKeys u) (lockKeyList u) (PrevFoundKeyCache u).
Definition set_uBatchCache u v := mkUV (uCache u) v (uLastBatch u) (utxoTotal u) (BalanceCache u) (BalanceViewDirty u) (lockKeys u) (lockKeyList u) (PrevFoundKeyCache u).
Definition set_total u v := mkUV (uCache u) (uBatchCache u) (uLastBatch u) v (BalanceCache u) (BalanceViewDirty u) (lockKeys u) (lockKeyList u) (PrevFoundKeyCache u).
Definition set_balances u v w := mkUV (uCache u) (uBatchCache u) (uLastBatch u) (utxoTotal u) v w (lockKeys u) (lockKeyList u) (PrevFoundKeyCache u).
Definition set_locks u v w := mkUV (uCache u) (uBatchCache u) (uLastBatch u) (utxoTotal u) (BalanceCache u) (BalanceViewDirty u) v w (PrevFoundKeyCache u).
Definition set_prevFound u v := mkUV (uCache u) (uBatchCache u) (uLastBatch u) (utxoTotal u) (BalanceCache u) (BalanceViewDirty u) (lockKeys u) (lockKeyList u) v.

(** [stored] is the total in the database, if any. *)
Definition MakeUtxo (cachesize : Z) (stored : option Z) : UtxoVM :=
  mkUV (NewUtxoCache cachesize) ∅ None (default 0%Z stored) (NewLRUCache cachesize) ∅ ∅ [] (NewLRUCache cachesize).

Definition CleanBatchCache (newBatch : nat) (u : UtxoVM) : UtxoVM :=
  if decide (uLastBatch u = Some newBatch) then u
  else mkUV (uCache u) ∅ (Some newBatch) (utxoTotal u) (BalanceCache u) (BalanceViewDirty u) (lockKeys u) (lockKeyList u) (PrevFoundKeyCache u).

Definition InsertBatchCache (key : string) (item : UtxoItem) (u : UtxoVM) : UtxoVM := set_uBatchCache u (<[key := item]> (uBatchCache u)).
Definition RemoveBatchCache (key : string) (u : UtxoVM) : UtxoVM := set_uBatchCache u (delete key (uBatchCache u)).

(** The cached balance is changed in place; without one the view of the address
    is marked as changed. *)
Definition change_balance (addr : string) (delta : Z) (u : UtxoVM) : UtxoVM :=
  match Get (BalanceCache u) addr with
  | (Some b, c) =>
      set_balances u (mkLRU (capacity c) ((fun p => if decide (p.1 = addr) then (addr, (p.2 + delta)%Z) else p) <$> lru c)) (BalanceViewDirty u)
  | (None, c) => set_balances u c (<[addr := (default 0 (BalanceViewDirty u !! addr) + 1)%Z]> (BalanceViewDirty u))
  end.
Definition AddBalance (addr : string) (delta : Z) : UtxoVM -> UtxoVM := change_balance addr delta.
Definition SubBalance (addr : string) (delta : Z) : UtxoVM -> UtxoVM := change_balance addr (- delta).

(** [GetTotal] reads the magnitude back. *)
Definition GetTotal (u : UtxoVM) : Z := SetBytes (Bytes (utxoTotal u)).

Definition isLocked (utxoKey : string) (u : UtxoVM) : bool := bool_decide (is_Some (lockKeys u !! utxoKey)).

(** A key is in the list exactly while it is locked, so its element is the
    entry of that key. *)
Definition UnlockKey (utxoKey : string) (u : UtxoVM) : UtxoVM :=
  match lockKeys u !! utxoKey with
  | Some _ => set_locks u (delete utxoKey (lockKeys u)) (List.filter (fun k => negb (bool_decide (k = utxoKey))) (lockKeyList u))
  | None => u
  end.

Definition tryLockKey (now : Z) (key : string) (u : UtxoVM) : bool * UtxoVM :=
  match lockKeys u !! key with
  | None => (true, set_locks u (<[key := now]> (lockKeys u)) (lockKeyList u ++ [key]))
  | Some _ => (false, u)
  end.

(** From the oldest lock, as long as they are expired. *)
Fixpoint clear_expired (now expire : Z) (keys : list string) (locks : gmap string Z) : gmap string Z * list string :=
  match keys with
  | [] => (locks, [])
  | k :: rest =>
      match locks !! k with
      | None => clear_expired now expire rest locks
      | Some t => if (add64 t expire <=? now)%Z then clear_expired now expire rest (delete k locks) else (locks, keys)
      end
  end.
Definition clearExpiredLocks (now expire : Z) (u : UtxoVM) : UtxoVM :=
  let (locks, keys) := clear_expired now expire (lockKeyList u) (lockKeys u) in set_locks u locks keys.

(** ** Checking a transaction *)

(** Where an output is looked for. *)
Definition find_utxo (table : gmap string UtxoItem) (batch : nat) (u : UtxoVM) (addr utxoKey : string) : option UtxoItem :=
  let full := UTXOTablePrefix +:+ utxoKey in
  match cache_find (uCache u) addr full with
  | Some item => Some item
  | None =>
      match (if decide (uLastBatch u = Some batch) then uBatchCache u !! full else None) with
      | Some item => Some item
      | None => table !! full
      end
  end.

Fixpoint output_sum (outs : list TxOutput) (sum : Z) : outcome Z :=
  match outs with
  | [] => Ret sum
  | out :: outs =>
      let amount := SetBytes (to_Amount out) in
      if (amount <? 0)%Z then Err ErrNegativeAmount else output_sum outs (sum + amount)
  end.

Definition input_key (txIn : TxInput) : string := GenUtxoKey (FromAddr txIn) (ti_RefTxid txIn) (ti_RefOffset txIn).

Fixpoint input_sum (find : string -> string -> option UtxoItem) (height : Z) (ins : list TxInput) (seen : gset string) (sum : Z) : outcome Z :=
  match ins with
  | [] => Ret sum
  | txIn :: ins =>
      let utxoKey := input_key txIn in
      if decide (utxoKey ∈ seen) then Err ErrUTXODuplicated
      else
        match find (FromAddr txIn) utxoKey with
        | None => Err ErrUTXONotFound
        | Some item =>
            let amount := SetBytes (Bytes (Amount item)) in
            if negb (bool_decide (Bytes (Amount item) = ti_Amount txIn)) then Err ErrUnexpected
            else if ((height <? FrozenHeight item) || (FrozenHeight item =? -1))%Z then Err ErrUTXOFrozen
            else input_sum find height ins ({[utxoKey]} ∪ seen) (sum + amount)
        end
  end.

Definition CheckInputEqualOutput (table : gmap string UtxoItem) (height : Z) (batch : nat) (u : UtxoVM) (tx : Transaction) : outcome unit :=
  outcome_bind (output_sum (TxOutputs tx) 0) (fun outputSum =>
  outcome_bind (input_sum (find_utxo table batch u) height (TxInputs tx) ∅ 0) (fun inputSum =>
  if (inputSum =? outputSum)%Z then Ret tt
  else if (inputSum =? 0)%Z && Coinbase tx then Ret tt
  else Err ErrInputOutputNotEqual)).

(** ** Balances *)

(** The entries of the database with a prefix, in key order. *)
Definition prefix_from {V} (t : gmap string V) (prefix start : string) : list (string * V) :=
  List.filter (fun kv => match prefixEnd prefix with Some e => bool_decide (str_lt kv.1 e) | None => true end) (rb_from t start).

Definition addr_prefix (addr : string) : string := UTXOTablePrefix +:+ addr +:+ "_".

Definition balance_of (table : gmap string UtxoItem) (addr : string) : Z :=
  zsum (fun kv => Amount kv.2) (prefix_from table (addr_prefix addr) (addr_prefix addr)).

(** The view of the address cannot change between the two looks at it: the
    model has no other thread. *)
Definition GetBalance (table : gmap string UtxoItem) (addr : string) (u : UtxoVM) : Z * UtxoVM :=
  match Get (BalanceCache u) addr with
  | (Some b, c) => (b, set_balances u c (BalanceViewDirty u))
  | (None, c) =>
      let total := balance_of table addr in
      (total, set_balances u (Add c addr total).2 (delete addr (BalanceViewDirty u)))
  end.

(** ** Selecting outputs to spend *)

Fixpoint split_us (acc s : string) : list string :=
  match s with
  | EmptyString => [acc]
  | String "_" s => acc :: split_us "" s
  | String c s => split_us (acc +:+ String c "") s
  end.

Definition parseUtxoKeys (uKey : string) : outcome (string * Z) :=
  match uKey with
  | EmptyString => Panic
  | String _ rest =>
      match rev (split_us "" rest) with
      | offset :: txid :: _ =>
          match scan_hex txid with
          | Some (refTxid, "") => match ParseInt64 offset with Some n => Ret (refTxid, n) | None => Err "strconv.Atoi: parsing" end
          | _ => Err "encoding/hex: invalid byte"
          end
      | _ => Err ErrUnexpected
      end
  end.

(** What a selection has gathered. *)
Record selection := mkSel {
  sl_vm : UtxoVM;
  sl_locked : list string;
  sl_total : Z;
  sl_inputs : list TxInput;
  sl_keys : list string
}.

Section Select.
(** The call: the address, the amount, whether to lock and whether only outputs
    of the trunk are wanted, the ledger's height and trunk, and the time. *)
Variables (fromAddr : string) (totalNeed : Z) (needLock excludeUnconfirmed : bool).
Variables (height : Z) (onChain : string -> bool) (now : Z).

Definition frozen (item : UtxoItem) : bool := ((height <? FrozenHeight item) || (FrozenHeight item =? -1))%Z.

(** The turns of one of the two loops.  The first walks the cache and marks
    outputs as used; the second walks the database and skips the keys the first
    one took ([cacheKeys]). *)
Fixpoint select_loop (cacheKeys : option (list string)) (cands : list (string * UtxoItem)) (sl : selection) : outcome bool * selection :=
  let fromCache := match cacheKeys with None => true | Some _ => false end in
  match cands with
  | [] => (Ret false, sl)
  | (uKey, item) :: cands =>
      if bool_decide (uKey ∈ default [] cacheKeys) then select_loop cacheKeys cands sl
      else if frozen item then select_loop cacheKeys cands sl
      else
        match parseUtxoKeys uKey with
        | Ret (refTxid, offset) =>
            let '(ok, u, locked) :=
              if needLock then
                let (ok, u) := tryLockKey now uKey (sl_vm sl) in (ok, u, if ok then sl_locked sl ++ [uKey] else sl_locked sl)
              else (negb (isLocked uKey (sl_vm sl)), sl_vm sl, sl_locked sl) in
            let sl := mkSel u locked (sl_total sl) (sl_inputs sl) (sl_keys sl) in
            if negb ok then select_loop cacheKeys cands sl
            else if excludeUnconfirmed && negb (onChain refTxid) then select_loop cacheKeys cands sl
            else
              let u := if fromCache then set_uCache u (cache_Use (uCache u) fromAddr uKey) else u in
              let total := (sl_total sl + Amount item)%Z in
              let input := mkTxIn refTxid (wrap32 offset) fromAddr (Bytes (Amount item)) (FrozenHeight item) in
              let keys := sl_keys sl ++ [uKey] in
              if (totalNeed <=? total)%Z then
                let u := if fromCache then u else set_prevFound u (Add (PrevFoundKeyCache u) fromAddr uKey).2 in
                (Ret true, mkSel u locked total (sl_inputs sl ++ [input]) keys)
              else select_loop cacheKeys cands (mkSel u locked total (sl_inputs sl ++ [input]) keys)
        | Err e => (Err e, sl)
        | Panic => (Panic, sl)
        end
  end.

(** [NewQuickIterator]: from the key found last time to the end, then from the
    start to that key. *)
Definition quick_iterator (table : gmap string UtxoItem) (middleKey : option string) : list (string * UtxoItem) :=
  let prefix := addr_prefix fromAddr in
  match middleKey with
  | None => prefix_from table prefix prefix
  | Some mid => prefix_from table prefix mid ++ List.filter (fun kv => bool_decide (str_lt kv.1 mid)) (rb_from table prefix)
  end.

(** [order] is the order in which the map of the cache is walked. *)
Definition SelectUtxos (order : gmap string CacheItem -> list (string * CacheItem)) (expire : Z) (table : gmap string UtxoItem)
    (u : UtxoVM) : outcome (list TxInput * list string * Z) * UtxoVM :=
  if (totalNeed =? 0)%Z then (Ret ([], [], 0%Z), u)
  else
    let u := clearExpiredLocks now expire u in
    let cands := match Available (uCache u) !! fromAddr with
                 | Some l2 => (fun kc => (kc.1, ci_item kc.2)) <$> order l2
                 | None => []
                 end in
    let finish (found : bool) (sl : selection) :=
      if found then (Ret (sl_inputs sl, sl_locked sl, sl_total sl), sl_vm sl)
      else (Err ErrNoEnoughUTXO, foldl (fun u k => UnlockKey k u) (sl_vm sl) (sl_locked sl)) in
    match select_loop None cands (mkSel u [] 0 [] []) with
    | (Ret true, sl) => finish true sl
    | (Ret false, sl) =>
        let (mid, c) := Get (PrevFoundKeyCache (sl_vm sl)) fromAddr in
        let sl := mkSel (set_prevFound (sl_vm sl) c) (sl_locked sl) (sl_total sl) (sl_inputs sl) (sl_keys sl) in
        match select_loop (Some (sl_keys sl)) (quick_iterator table mid) sl with
        | (Ret found, sl) => finish found sl
        | (Err e, sl) => (Err e, sl_vm sl)
        | (Panic, sl) => (Panic, sl_vm sl)
        end
    | (Err e, sl) => (Err e, sl_vm sl)
    | (Panic, sl) => (Panic, sl_vm sl)
    end.
End Select.

(** ** Amounts can be read back *)

Lemma set_bytes_app a acc s : set_bytes acc (a +:+ s) = set_bytes (set_bytes acc a) s.
Proof. revert acc. induction a as [|c a IH]; intros acc; [done|]. rewrite app_String. cbn. apply IH. Qed.

Lemma set_bytes_nonneg s : forall acc, (0 <= acc)%Z -> (0 <= set_bytes acc s)%Z.
Proof. induction s as [|c s IH]; intros acc H; [done|]. cbn. apply IH. pose proof (byte_of_range c). lia. Qed.

Lemma SetBytes_nonneg s : (0 <= SetBytes s)%Z.
Proof. by apply set_bytes_nonneg. Qed.

Lemma byte_of_char n : (0 <= n < 256)%Z -> byte_of (byte_char n) = n.
Proof. intros Hn. unfold byte_of, byte_char. rewrite nat_ascii_embedding by lia. lia. Qed.

(** The value of the bytes written is the number times the weight of what follows. *)
Lemma put_bytes_value fuel : forall n acc, (0 <= n < 2 ^ Z.of_nat fuel)%Z ->
  forall k, set_bytes k (put_bytes fuel n acc) = set_bytes (k * 256 ^ Z.of_nat (String.length (put_bytes fuel n acc) - String.length acc) + n) acc.
Proof.
  induction fuel as [|fuel IH]; intros n acc Hn k.
  - cbn in Hn. assert (n = 0)%Z as -> by lia. cbn. rewrite Nat.sub_diag. f_equal. lia.
  - cbn [put_bytes]. destruct (Z.eqb_spec n 0) as [->|Hne]; [rewrite Nat.sub_diag; f_equal; lia|].
    assert (0 <= n / 256 < 2 ^ Z.of_nat fuel)%Z as Hdiv.
    { rewrite Nat2Z.inj_succ, Z.pow_succ_r in Hn by lia. split; [apply Z.div_pos; lia|]. apply Z.div_lt_upper_bound; lia. }
    rewrite IH by done. cbn [set_bytes String.length].
    pose proof (Z.mod_pos_bound n 256 ltac:(lia)) as Hm. rewrite byte_of_char by done.
    assert (forall m a, (String.length a <= String.length (put_bytes fuel m a))%nat) as Hlen.
    { clear. induction fuel as [|fuel IH]; intros m a; cbn; [done|]. destruct (m =? 0)%Z; [done|]. etrans; [|apply IH]. cbn. lia. }
    specialize (Hlen (n / 256)%Z (String (byte_char (n mod 256)) acc)). cbn [String.length] in Hlen.
    f_equal. set (L := String.length (put_bytes fuel (n / 256) _)) in *.
    replace (L - String.length acc)%nat with (S (L - S (String.length acc)))%nat by lia.
    rewrite Nat2Z.inj_succ, Z.pow_succ_r by lia. pose proof (Z.div_mod n 256 ltac:(lia)). nia.
Qed.

Lemma SetBytes_Bytes z : (0 <= z)%Z -> SetBytes (Bytes z) = z.
Proof.
  intros Hz. unfold SetBytes, Bytes. rewrite Z.abs_eq by done. rewrite put_bytes_value; [cbn; lia|].
  split; [done|]. rewrite Nat2Z.inj_succ, Z2Nat.id by apply Z.log2_nonneg.
  destruct (Z.eq_dec z 0%Z) as [->|]; [by cbn|]. apply Z.log2_spec. lia.
Qed.

(** ** Keys can be taken apart *)

Fixpoint no_us (s : string) : bool :=
  match s with
  | EmptyString => true
  | String "_" _ => false
  | String _ s => no_us s
  end.

Lemma no_us_cons c s : no_us (String c s) = true <-> c <> "_"%char /\ no_us s = true.
Proof.
  destruct c as [[] [] [] [] [] [] [] []]; cbn;
    (split; [intros H; first [discriminate H|split; [discriminate|exact H]]|intros [Hc H]; first [exact H|by destruct Hc]]).
Qed.

Lemma split_us_cons acc c s : c <> "_"%char -> split_us acc (String c s) = split_us (acc +:+ String c "") s.
Proof. destruct c as [[] [] [] [] [] [] [] []]; try done. Qed.

Lemma split_us_app x y : forall acc, split_us acc (x +:+ String "_" y) = split_us acc x ++ split_us "" y.
Proof.
  induction x as [|c x IH]; intros acc; [done|]. rewrite app_String.
  destruct (ascii_dec c "_") as [->|Hne]; [cbn; by rewrite IH|]. rewrite !split_us_cons by done. apply IH.
Qed.

Lemma string_app_nil_r s : s +:+ "" = s.
Proof. induction s as [|c s IH]; [done|]. by rewrite app_String, IH. Qed.

Lemma string_app_assoc_r (a b c : string) : (a +:+ b) +:+ c = a +:+ (b +:+ c).
Proof. symmetry. apply string_app_assoc. Qed.

Lemma split_us_plain d : forall acc, no_us d = true -> split_us acc d = [acc +:+ d].
Proof.
  induction d as [|c d IH]; intros acc H; [by rewrite string_app_nil_r|].
  apply no_us_cons in H as [Hc H]. rewrite split_us_cons, IH by done. by rewrite string_app_assoc_r.
Qed.

Lemma hex_char_us n : (0 <= n < 16)%Z -> hex_char n <> "_"%char.
Proof.
  intros Hn. assert (n ∈ seqZ 0 16) as Hin by (apply elem_of_seqZ; lia).
  repeat (apply elem_of_cons in Hin as [->|Hin]; [discriminate|]). by apply elem_of_nil in Hin.
Qed.

Lemma no_us_hex t : no_us (hex_encode t) = true.
Proof.
  induction t as [|c t IH]; [done|]. cbn [hex_encode]. pose proof (byte_of_range c).
  pose proof (Z.mod_pos_bound (byte_of c) 16 ltac:(lia)).
  rewrite !no_us_cons. split_and!; [apply hex_char_us|apply hex_char_us|done]; [|lia].
  split; [apply Z.div_pos; lia|apply Z.div_lt_upper_bound; lia].
Qed.

Lemma digit_char_us d : (0 <= d < 10)%Z -> digit_char d <> "_"%char.
Proof. intros Hd E. pose proof (digit_value_char d Hd) as H. by rewrite E in H. Qed.

Lemma no_us_digits fuel : forall n acc, (0 <= n)%Z -> no_us acc = true -> no_us (print_digits fuel n acc) = true.
Proof.
  induction fuel as [|fuel IH]; intros n acc Hn Ha; [done|]. cbn.
  pose proof (Z.mod_pos_bound n 10 ltac:(lia)).
  assert (no_us (String (digit_char (n mod 10)) acc) = true) by (apply no_us_cons; split; [by apply digit_char_us|done]).
  destruct (n <? 10)%Z; [done|]. apply IH; [apply Z.div_pos; lia|done].
Qed.

Lemma no_us_bigString z : no_us (bigString z) = true.
Proof. unfold bigString. destruct (Z.ltb_spec z 0); [apply no_us_cons; split; [done|]|]; apply no_us_digits; (done || lia). Qed.

Lemma split_key addr txid off :
  split_us "" (GenUtxoKey addr txid off) = split_us "" addr ++ [hex_encode txid; bigString off].
Proof.
  unfold GenUtxoKey. change ("_" +:+ ?x) with (String "_" x). rewrite split_us_app. f_equal.
  change ("_" +:+ bigString off) with (String "_" (bigString off)). rewrite split_us_app.
  rewrite split_us_plain by apply no_us_hex. by rewrite split_us_plain by apply no_us_bigString.
Qed.

Lemma substring_all s : String.substring 0 (String.length s) s = s.
Proof. induction s as [|c s IH]; [done|]. cbn. by rewrite IH. Qed.

Lemma scan_hex_all t : scan_hex (hex_encode t) = Some (t, "").
Proof.
  induction t as [|c t IH]; [done|]. destruct (hex_char_digit c) as (H1 & H2 & H3). cbn. by rewrite H1, H2, IH, H3.
Qed.

(** The key of an output gives its transaction and offset back, whatever the
    address contains. *)
Lemma parse_GenUtxoKey addr txid off :
  is_int64 off -> parseUtxoKeys (GenUtxoKeyWithPrefix addr txid off) = Ret (txid, off).
Proof.
  intros Ho. unfold parseUtxoKeys, GenUtxoKeyWithPrefix, UTXOTablePrefix.
  change ("U" +:+ GenUtxoKey addr txid off) with (String "U" (GenUtxoKey addr txid off)).
  cbv iota. rewrite split_key, rev_app_distr. cbn [rev app].
  by rewrite scan_hex_all, ParseInt64_bigString.
Qed.

Lemma GenUtxoKey_inj a1 t1 o1 a2 t2 o2 :
  is_int64 o1 -> is_int64 o2 -> GenUtxoKeyWithPrefix a1 t1 o1 = GenUtxoKeyWithPrefix a2 t2 o2 -> t1 = t2 /\ o1 = o2.
Proof.
  intros H1 H2 E. pose proof (parse_GenUtxoKey a1 t1 o1 H1) as P. rewrite E, parse_GenUtxoKey in P by done. by simplify_eq.
Qed.

(** ** The cache of outputs *)

Lemma cache_remove_find c a k a' k' i :
  cache_find (cache_remove c a k) a' k' = Some i -> cache_find c a' k' = Some i /\ (a', k') <> (a, k).
Proof.
  unfold cache_find, cache_remove. destruct (All c !! a) as [l2|] eqn:Ea.
  - destruct (l2 !! k) as [ci|] eqn:Ek; destruct (decide (_ = ∅)) as [Hem|Hem]; cbn;
      match goal with |- context [match ?x with Some _ => mkUC _ _ _ _ _ | None => _ end] => destruct x end; cbn;
      intros H; destruct (decide (a' = a)) as [->|Hne];
      rewrite ?lookup_delete_eq, ?lookup_delete_ne, ?lookup_insert_eq, ?lookup_insert_ne in H by done; try done;
      try (split; [done|congruence]); rewrite Ea;
      (destruct (decide (k' = k)) as [->|Hk]; [rewrite ?lookup_delete_eq in H; try done; by rewrite Ek in H|]);
      rewrite ?lookup_delete_ne in H by done; (split; [done|congruence]).
  - destruct (Available c !! a); cbn; intros H; (split; [done|]); intros [= -> ->]; by rewrite Ea in H.
Qed.

Lemma cache_Insert_find c a k i a' k' j :
  cache_find (cache_Insert c a k i) a' k' = Some j ->
  (a' = a /\ k' = k /\ j = i) \/ ((a', k') <> (a, k) /\ cache_find c a' k' = Some j).
Proof.
  unfold cache_Insert. set (c0 := match All c !! a with Some _ => c | None => _ end).
  set (c1 := mkUC (<[a := _]> (Available c0)) _ _ _ _).
  intros H. assert (cache_find c1 a' k' = Some j) as H1.
  { destruct (_ <? _)%Z; [|done]. destruct (List.last (List_ c1) _) as [? [? ?]]. by apply cache_remove_find in H as [H _]. }
  clear H. assert (forall x y z, cache_find c0 x y = Some z -> cache_find c x y = Some z) as H0.
  { intros x y z. unfold cache_find. subst c0. destruct (All c !! a) eqn:Ea; [done|]. cbn.
    destruct (decide (x = a)) as [->|]; [by rewrite lookup_insert_eq, lookup_empty|by rewrite lookup_insert_ne]. }
  unfold cache_find, inner in H1. subst c1. cbn in H1.
  destruct (decide (a' = a)) as [->|Hne]; [rewrite lookup_insert_eq in H1|rewrite lookup_insert_ne in H1 by done].
  - destruct (decide (k' = k)) as [->|Hk]; [rewrite lookup_insert_eq in H1; left; cbn in H1; by simplify_eq|].
    rewrite lookup_insert_ne in H1 by done. right. split; [congruence|]. apply H0. unfold cache_find.
    revert H1. unfold inner. destruct (All c0 !! a) as [m|]; cbn; [done|]. by rewrite lookup_empty.
  - right. split; [congruence|]. by apply H0.
Qed.

(** ** What a checked transaction satisfies *)

Definition out_amount (out : TxOutput) : Z := SetBytes (to_Amount out).

Lemma output_sum_spec outs : forall sum, output_sum outs sum = Ret (sum + zsum out_amount outs)%Z.
Proof.
  induction outs as [|out outs IH]; intros sum; cbn [output_sum]; [cbn; f_equal; lia|]. pose proof (SetBytes_nonneg (to_Amount out)).
  destruct (Z.ltb_spec (SetBytes (to_Amount out)) 0); [lia|]. rewrite IH, zsum_cons.
  change (out_amount out) with (SetBytes (to_Amount out)). f_equal. lia.
Qed.

(** The input names an output that is there, with its amount, and not frozen. *)
Definition spendable (find : string -> string -> option UtxoItem) (height : Z) (txIn : TxInput) (item : UtxoItem) : Prop :=
  find (FromAddr txIn) (input_key txIn) = Some item /\ Bytes (Amount item) = ti_Amount txIn /\
  (FrozenHeight item <= height)%Z /\ FrozenHeight item <> (-1)%Z.

Lemma input_sum_spec find height ins : forall seen sum total,
  input_sum find height ins seen sum = Ret total <->
  exists items, Forall2 (spendable find height) ins items /\ NoDup (input_key <$> ins) /\
    (forall i, i ∈ ins -> input_key i ∉ seen) /\ total = (sum + zsum (fun i => SetBytes (Bytes (Amount i))) items)%Z.
Proof.
  induction ins as [|i ins IH]; intros seen sum total; cbn [input_sum].
  - split; [intros [= <-]; exists []; split_and!; [constructor|constructor|set_solver|cbn; lia]|].
    intros (items & H & _ & _ & ->). inversion H. subst. cbn. f_equal. lia.
  - destruct (decide (input_key i ∈ seen)) as [Hs|Hs].
    { split; [done|]. intros (items & _ & _ & Hn & _). exfalso. by apply (Hn i); [left|]. }
    destruct (find (FromAddr i) (input_key i)) as [item|] eqn:Ef.
    2:{ split; [done|]. intros (items & H & _). apply Forall2_cons_inv_l in H as (x & xs & (E & _) & _). congruence. }
    destruct (bool_decide (Bytes (Amount item) = ti_Amount i)) eqn:Ea; cbn [negb];
      [apply bool_decide_eq_true in Ea|apply bool_decide_eq_false in Ea].
    2:{ split; [done|]. intros (items & H & _). apply Forall2_cons_inv_l in H as (x & xs & (E & E' & _) & _). congruence. }
    destruct ((height <? FrozenHeight item) || (FrozenHeight item =? -1))%Z eqn:Efr.
    { split; [done|]. intros (items & H & _). apply Forall2_cons_inv_l in H as (x & xs & (E & _ & H1 & H2) & _ & _).
      simplify_eq. apply orb_true_iff in Efr as [H|H]; lia. }
    assert (spendable find height i item) as Hsp by (bool_prop; by split_and!).
    rewrite IH. split.
    + intros (items & Hf & Hnd & Hn & ->). exists (item :: items). split_and!; [by constructor| | |rewrite zsum_cons; lia].
      * cbn. constructor; [|done]. intros (j & Ej & Hj)%list_elem_of_fmap. apply (Hn j Hj). rewrite <- Ej. set_solver.
      * intros j [->|Hj]%elem_of_cons; [done|]. specialize (Hn j Hj). set_solver.
    + intros (items & Hf & Hnd & Hn & ->). apply Forall2_cons_inv_l in Hf as (x & xs & Hx & Hxs & ->).
      assert (x = item) as -> by (destruct Hx as [Hx _]; congruence). cbn in Hnd. apply NoDup_cons in Hnd as [Hni Hnd].
      exists xs. split_and!; [done..| |rewrite zsum_cons; lia]. intros j Hj. apply not_elem_of_union. split; [|apply Hn; by right].
      intros E%elem_of_singleton. apply Hni. rewrite <- E. by apply list_elem_of_fmap_2.
Qed.

Definition item_sum (items : list UtxoItem) : Z := zsum Amount items.

Lemma item_sum_bytes items : Forall (fun i => 0 <= Amount i)%Z items -> zsum (fun i => SetBytes (Bytes (Amount i))) items = item_sum items.
Proof. intros H. apply zsum_ext. intros i Hi. apply SetBytes_Bytes. by eapply Forall_forall in H. Qed.

(** Everything [CheckInputEqualOutput] decides. *)
Lemma Check_spec table height batch u tx :
  CheckInputEqualOutput table height batch u tx = Ret tt <->
  exists items, Forall2 (spendable (find_utxo table batch u) height) (TxInputs tx) items /\ NoDup (input_key <$> TxInputs tx) /\
    (zsum (fun i => SetBytes (Bytes (Amount i))) items = zsum out_amount (TxOutputs tx) \/
     zsum (fun i => SetBytes (Bytes (Amount i))) items = 0%Z /\ Coinbase tx = true).
Proof.
  unfold CheckInputEqualOutput. rewrite output_sum_spec. cbn [outcome_bind].
  destruct (input_sum _ _ _ _ _) as [total|e|] eqn:E; cbn [outcome_bind].
  - apply input_sum_spec in E as (items & Hf & Hnd & _ & ->). rewrite !Z.add_0_l.
    assert (forall items', Forall2 (spendable (find_utxo table batch u) height) (TxInputs tx) items' -> items' = items) as Huniq.
    { intros items' Hf'. clear -Hf Hf'. revert items' Hf'. induction Hf as [|i it ii its Hi His IH]; intros items' Hf'.
      - by inversion Hf'.
      - apply Forall2_cons_inv_l in Hf' as (x & xs & (Hx & _) & Hxs & ->). destruct Hi as [Hi _]. rewrite (IH xs Hxs). congruence. }
    destruct (Z.eqb_spec (zsum (fun i => SetBytes (Bytes (Amount i))) items) (zsum out_amount (TxOutputs tx))) as [Es|Es].
    { split; [|done]. intros _. exists items. split_and!; [done..|by left]. }
    destruct (Z.eqb_spec (zsum (fun i => SetBytes (Bytes (Amount i))) items) 0) as [Ez|Ez]; cbn [andb].
    + destruct (Coinbase tx); [split; [intros _; exists items; split_and!; [done..|by right]|done]|].
      split; [done|]. intros (items' & Hf' & _ & [H|[_ H]]); [|done]. rewrite (Huniq _ Hf') in H. lia.
    + split; [done|]. intros (items' & Hf' & _ & [H|[H _]]); rewrite (Huniq _ Hf') in H; lia.
  - split; [done|]. intros (items & Hf & Hnd & _).
    assert (input_sum (find_utxo table batch u) height (TxInputs tx) ∅ 0 = Ret (0 + zsum (fun i => SetBytes (Bytes (Amount i))) items)%Z) as H;
      [|congruence]. apply input_sum_spec. exists items. split_and!; [done..|set_solver|done].
  - split; [done|]. intros (items & Hf & Hnd & _).
    assert (input_sum (find_utxo table batch u) height (TxInputs tx) ∅ 0 = Ret (0 + zsum (fun i => SetBytes (Bytes (Amount i))) items)%Z) as H;
      [|congruence]. apply input_sum_spec. exists items. split_and!; [done..|set_solver|done].
Qed.

(** ** What a selection satisfies *)

Section Selection.
Variables (fromAddr : string) (totalNeed : Z) (needLock excludeUnconfirmed : bool).
Variables (height : Z) (onChain : string -> bool) (now : Z).
(** The locks at the start, and the outputs on offer. *)
Variable locks : gmap string Z.
Variable pool : string -> UtxoItem -> Prop.
Hypothesis pool_amount : forall k i, pool k i -> (0 <= Amount i)%Z.

Definition picked (key : string) (txIn : TxInput) : Prop :=
  exists item txid off, pool key item /\ frozen height item = false /\ parseUtxoKeys key = Ret (txid, off) /\
    (excludeUnconfirmed = true -> onChain txid = true) /\
    txIn = mkTxIn txid (wrap32 off) fromAddr (Bytes (Amount item)) (FrozenHeight item).

Definition with_locks (locked : list string) : gmap string Z := foldl (fun m k => <[k := now]> m) locks locked.

Record selected (sl : selection) : Prop := {
  sd_nodup : NoDup (sl_keys sl);
  sd_inputs : Forall2 picked (sl_keys sl) (sl_inputs sl);
  sd_total : sl_total sl = zsum (fun i => SetBytes (ti_Amount i)) (sl_inputs sl);
  sd_free : forall k, k ∈ sl_keys sl -> locks !! k = None;
  sd_locked_free : forall k, k ∈ sl_locked sl -> locks !! k = None;
  sd_locked_nodup : NoDup (sl_locked sl);
  sd_locks : lockKeys (sl_vm sl) = with_locks (sl_locked sl);
  sd_lock : if needLock then forall k, k ∈ sl_keys sl -> k ∈ sl_locked sl else sl_locked sl = []
}.

Lemma with_locks_lookup locked k : with_locks locked !! k = if decide (k ∈ locked) then Some now else locks !! k.
Proof.
  unfold with_locks. induction locked as [|x locked IH] using rev_ind; [done|]. rewrite foldl_app. cbn.
  destruct (decide (x = k)) as [->|Hne].
  - rewrite lookup_insert_eq, decide_True; [done|]. apply elem_of_app. right. left.
  - rewrite lookup_insert_ne, IH by done. apply decide_ext. rewrite elem_of_app, list_elem_of_singleton.
    split; [by left|intros [?| ->]; done].
Qed.

Lemma pick_lock sl uKey ok u locked :
  selected sl ->
  (if needLock then
     let (ok, u) := tryLockKey now uKey (sl_vm sl) in (ok, u, if ok then sl_locked sl ++ [uKey] else sl_locked sl)
   else (negb (isLocked uKey (sl_vm sl)), sl_vm sl, sl_locked sl)) = (ok, u, locked) ->
  selected (mkSel u locked (sl_total sl) (sl_inputs sl) (sl_keys sl)) /\
  (ok = true -> locks !! uKey = None /\ if needLock then uKey ∈ locked else True).
Proof.
  intros [H1 H2 H3 H4 H5 H6 H7 H8]. pose proof (with_locks_lookup (sl_locked sl) uKey) as Hl. rewrite <- H7 in Hl.
  unfold tryLockKey, isLocked. revert H8. destruct needLock eqn:En; intros H8; rewrite Hl.
  - destruct (decide (uKey ∈ sl_locked sl)) as [Hin|Hin]; [|destruct (locks !! uKey) eqn:El]; intros [= <- <- <-].
    1,2: split; [split; cbn; rewrite ?En; done|done].
    split; [|intros _; split; [done|apply elem_of_app; right; by left]]. split; cbn; rewrite ?En; try done.
    + intros k [?| ->%list_elem_of_singleton]%elem_of_app; [by apply H5|done].
    + apply NoDup_app. split_and!; [done| |apply NoDup_singleton]. intros k Hk ->%list_elem_of_singleton. done.
    + rewrite H7. unfold with_locks. by rewrite foldl_app.
    + intros k Hk. apply elem_of_app. left. by apply H8.
  - intros [= <- <- <-]. split; [by split; cbn; rewrite ?En|]. rewrite H8, decide_False by (by intros ?%elem_of_nil).
    clear Hl. intros Hl. split; [|done]. apply negb_true_iff, bool_decide_eq_false, eq_None_not_Some in Hl. done.
Qed.

Lemma selected_vm sl u : selected sl -> lockKeys u = lockKeys (sl_vm sl) -> selected (mkSel u (sl_locked sl) (sl_total sl) (sl_inputs sl) (sl_keys sl)).
Proof. intros [] E. split; try done. cbn. by rewrite E. Qed.

Lemma pick_one sl u uKey item txid off :
  selected sl -> lockKeys u = lockKeys (sl_vm sl) -> pool uKey item -> frozen height item = false -> parseUtxoKeys uKey = Ret (txid, off) ->
  (excludeUnconfirmed = true -> onChain txid = true) -> uKey ∉ sl_keys sl ->
  locks !! uKey = None -> (if needLock then uKey ∈ sl_locked sl else True) ->
  selected (mkSel u (sl_locked sl) (sl_total sl + Amount item)
    (sl_inputs sl ++ [mkTxIn txid (wrap32 off) fromAddr (Bytes (Amount item)) (FrozenHeight item)]) (sl_keys sl ++ [uKey])).
Proof using pool_amount.
  intros [H1 H2 H3 H4 H5 H6 H7 H8] Eu Hp Hf Hparse Hon Hni Hl Hlk.
  split; cbn [sl_keys sl_inputs sl_total sl_locked sl_vm]; try done.
  - apply NoDup_app. split_and!; [done| |apply NoDup_singleton]. by intros k Hk ->%list_elem_of_singleton.
  - apply Forall2_app; [done|]. constructor; [|constructor]. by exists item, txid, off.
  - rewrite zsum_app, zsum_cons, H3. cbn [zsum foldr ti_Amount]. rewrite SetBytes_Bytes by (by eapply pool_amount). lia.
  - intros k [?| ->%list_elem_of_singleton]%elem_of_app; [by apply H4|done].
  - by rewrite Eu.
  - destruct needLock; [|done]. intros k [?| ->%list_elem_of_singleton]%elem_of_app; [by apply H8|done].
Qed.

Lemma select_loop_spec ck cands : forall sl o sl',
  NoDup cands.*1 -> (forall k i, (k, i) ∈ cands -> pool k i) ->
  (forall k, k ∈ cands.*1 -> k ∉ default [] ck -> k ∉ sl_keys sl) ->
  selected sl -> select_loop fromAddr totalNeed needLock excludeUnconfirmed height onChain now ck cands sl = (o, sl') ->
  selected sl' /\ (o = Ret true -> (totalNeed <= sl_total sl')%Z).
Proof using pool_amount.
  induction cands as [|[uKey item] cands IH]; intros sl o sl' Hnd Hp Hnew Hsl; cbn [select_loop]; [by intros [= <- <-]|].
  cbn in Hnd. apply NoDup_cons in Hnd as [Hni Hnd].
  assert (forall k, k ∈ cands.*1 -> k ∉ default [] ck -> k ∉ sl_keys sl) as Hnew' by (intros k Hk; apply Hnew; by right).
  assert (forall k i, (k, i) ∈ cands -> pool k i) as Hp' by (intros k i Hk; apply Hp; by right).
  assert (forall sl1, selected sl1 -> sl_keys sl1 = sl_keys sl ->
    select_loop fromAddr totalNeed needLock excludeUnconfirmed height onChain now ck cands sl1 = (o, sl') ->
    selected sl' /\ (o = Ret true -> (totalNeed <= sl_total sl')%Z)) as Hskip.
  { intros sl1 Hs1 E. apply IH; [done..| |done]. by rewrite E. }
  case_bool_decide as Hck; [by apply Hskip|]. destruct (frozen height item) eqn:Hfr; [by apply Hskip|].
  destruct (parseUtxoKeys uKey) as [[txid off]| |] eqn:Ep; [|by intros [= <- <-]..].
  destruct (if needLock then _ else _) as [[ok u] locked] eqn:El. apply pick_lock in El as [Hs1 Hok]; [|done].
  destruct ok; cbn [negb sl_total sl_inputs sl_keys sl_vm sl_locked]; [|by apply Hskip].
  destruct (excludeUnconfirmed && negb (onChain txid)) eqn:Eex; [by apply Hskip|].
  set (u2 := if match ck with None => true | Some _ => false end then set_uCache u _ else u).
  assert (lockKeys u2 = lockKeys u) as Eu2 by (subst u2; by destruct ck).
  destruct (Hok eq_refl) as [Hfree Hin].
  assert (uKey ∉ sl_keys sl) as Hnk by (apply Hnew; [left|done]).
  assert (forall u3, lockKeys u3 = lockKeys u -> selected (mkSel u3 locked (sl_total sl + Amount item)
    (sl_inputs sl ++ [mkTxIn txid (wrap32 off) fromAddr (Bytes (Amount item)) (FrozenHeight item)]) (sl_keys sl ++ [uKey]))) as Hpick.
  { intros u3 E3. apply (pick_one (mkSel u locked (sl_total sl) (sl_inputs sl) (sl_keys sl)) u3 uKey item txid off); try done.
    - apply Hp. by left.
    - intros Ex. rewrite Ex in Eex. cbn in Eex. by destruct (onChain txid). }
  destruct (Z.leb_spec totalNeed (sl_total sl + Amount item)) as [Hle|Hgt].
  - intros [= <- <-]. split; [|intros _; done]. apply Hpick. rewrite <- Eu2. by destruct ck.
  - apply IH; [done..| |by apply Hpick]. cbn. intros k Hk Hkk [?| ->%list_elem_of_singleton]%elem_of_app; [by apply (Hnew' k)|done].
Qed.

(** *** Running short *)

Definition excluded (key : string) : Prop :=
  excludeUnconfirmed = true /\ exists txid off, parseUtxoKeys key = Ret (txid, off) /\ onChain txid = false.

(** Why an output on offer was not enough: it was taken, or could not be. *)
Definition accounted (keys : list string) (key : string) (item : UtxoItem) : Prop :=
  key ∈ keys \/ frozen height item = true \/ is_Some (locks !! key) \/ excluded key.

Record short (sl : selection) : Prop := {
  sh_selected : selected sl;
  sh_total : (sl_total sl < totalNeed)%Z;
  sh_locked : forall k, k ∈ sl_locked sl -> k ∈ sl_keys sl \/ excluded k
}.

Lemma pick_lock_fails sl uKey u locked :
  short sl ->
  (if needLock then
     let (ok, u) := tryLockKey now uKey (sl_vm sl) in (ok, u, if ok then sl_locked sl ++ [uKey] else sl_locked sl)
   else (negb (isLocked uKey (sl_vm sl)), sl_vm sl, sl_locked sl)) = (false, u, locked) ->
  u = sl_vm sl /\ locked = sl_locked sl /\ (uKey ∈ sl_keys sl \/ is_Some (locks !! uKey) \/ excluded uKey).
Proof.
  intros [Hs Ht Hlk]. pose proof (with_locks_lookup (sl_locked sl) uKey) as Hl. rewrite <- (sd_locks _ Hs) in Hl.
  unfold tryLockKey, isLocked. pose proof (sd_lock _ Hs) as Hm.
  destruct needLock eqn:En; rewrite Hl.
  - destruct (decide (uKey ∈ sl_locked sl)) as [Hin|Hin]; [|destruct (locks !! uKey) eqn:El]; intros [= <- <-]; split_and!; try done.
    + destruct (Hlk _ Hin); auto.
    + right. left. by eexists.
  - rewrite Hm, decide_False by (by intros ?%elem_of_nil). intros [= Hb <- <-]. split_and!; [done..|].
    apply negb_false_iff, bool_decide_eq_true in Hb. auto.
Qed.

Lemma pick_lock_keys sl uKey ok u locked :
  (if needLock then
     let (ok, u) := tryLockKey now uKey (sl_vm sl) in (ok, u, if ok then sl_locked sl ++ [uKey] else sl_locked sl)
   else (negb (isLocked uKey (sl_vm sl)), sl_vm sl, sl_locked sl)) = (ok, u, locked) ->
  forall k, k ∈ locked -> k ∈ sl_locked sl \/ k = uKey.
Proof.
  destruct needLock; [|intros [= _ _ <-]; auto]. unfold tryLockKey. destruct (lockKeys (sl_vm sl) !! uKey); intros [= _ _ <-] k; [auto|].
  intros [?| ->%list_elem_of_singleton]%elem_of_app; auto.
Qed.

Lemma accounted_mono keys keys' k i : (forall x, x ∈ keys -> x ∈ keys') -> accounted keys k i -> accounted keys' k i.
Proof. unfold accounted. naive_solver. Qed.

(** A loop that ends without enough has taken every output it could. *)
Lemma select_loop_short ck cands : forall sl sl',
  NoDup cands.*1 -> (forall k i, (k, i) ∈ cands -> pool k i) ->
  (forall k, k ∈ cands.*1 -> k ∉ default [] ck -> k ∉ sl_keys sl) -> (forall k, k ∈ default [] ck -> k ∈ sl_keys sl) ->
  short sl -> select_loop fromAddr totalNeed needLock excludeUnconfirmed height onChain now ck cands sl = (Ret false, sl') ->
  short sl' /\ (forall k, k ∈ sl_keys sl -> k ∈ sl_keys sl') /\ (forall k i, (k, i) ∈ cands -> accounted (sl_keys sl') k i).
Proof using pool_amount.
  induction cands as [|[uKey item] cands IH]; intros sl sl' Hnd Hp Hnew Hck Hsh; cbn [select_loop].
  { intros [= <-]. split_and!; [done..|]. by intros k i ?%elem_of_nil. }
  cbn in Hnd. apply NoDup_cons in Hnd as [Hni Hnd].
  assert (forall k, k ∈ cands.*1 -> k ∉ default [] ck -> k ∉ sl_keys sl) as Hnew' by (intros k Hk; apply Hnew; by right).
  assert (forall k i, (k, i) ∈ cands -> pool k i) as Hp' by (intros k i Hk; apply Hp; by right).
  assert (forall sl1, short sl1 -> sl_keys sl1 = sl_keys sl -> accounted (sl_keys sl) uKey item ->
    select_loop fromAddr totalNeed needLock excludeUnconfirmed height onChain now ck cands sl1 = (Ret false, sl') ->
    short sl' /\ (forall k, k ∈ sl_keys sl -> k ∈ sl_keys sl') /\ (forall k i, (k, i) ∈ (uKey, item) :: cands -> accounted (sl_keys sl') k i)) as Hskip.
  { intros sl1 Hs1 E Ha Hrun. apply IH in Hrun as (? & Hsub & Hacc); [|rewrite ?E; done..]. rewrite E in Hsub.
    split_and!; [done..|]. intros k i [[= -> ->]|?]%elem_of_cons; [by apply (accounted_mono (sl_keys sl))|by apply Hacc]. }
  case_bool_decide as Hin; [apply Hskip; [done..|left; by apply Hck]|].
  destruct (frozen height item) eqn:Hfr; [apply Hskip; [done..|by right; left]|].
  destruct (parseUtxoKeys uKey) as [[txid off]| |] eqn:Ep; [|done..].
  destruct (if needLock then _ else _) as [[ok u] locked] eqn:El. pose proof (pick_lock_keys _ _ _ _ _ El) as Hlk.
  destruct ok; cbn [negb sl_total sl_inputs sl_keys sl_vm sl_locked].
  2:{ apply (pick_lock_fails _ _ _ _ Hsh) in El as (-> & -> & Hwhy). apply Hskip; [by destruct Hsh, sh_selected0| done|].
      unfold accounted. naive_solver. }
  apply pick_lock in El as [Hs1 Hok]; [|apply Hsh]. destruct (Hok eq_refl) as [Hfree Hlin].
  destruct (excludeUnconfirmed && negb (onChain txid)) eqn:Eex.
  { assert (excluded uKey) as Hx. { apply andb_true_iff in Eex as [-> Hon%negb_true_iff]. split; [done|]. by exists txid, off. }
    apply Hskip; [|done|by right; right; right]. split; [done|apply Hsh|]. cbn. intros k Hk.
    destruct (Hlk k Hk) as [?| ->]; [by apply Hsh|by right]. }
  destruct (Z.leb_spec totalNeed (sl_total sl + Amount item)) as [Hle|Hgt]; [done|]. intros Hrun.
  apply IH in Hrun as (? & Hsub & Hacc); try done; cbn [sl_keys].
  - split_and!; [done|intros k Hk; apply Hsub; cbn; apply elem_of_app; by left|].
    intros k i [[= -> ->]|?]%elem_of_cons; [|by apply Hacc]. left. apply Hsub. cbn. apply elem_of_app. right. by left.
  - intros k Hk Hkk [?| ->%list_elem_of_singleton]%elem_of_app; [by apply (Hnew' k)|done].
  - intros k Hk. apply elem_of_app. left. by apply Hck.
  - split; cbn [sl_total sl_locked sl_keys]; [|done|].
    + apply (pick_one (mkSel u locked (sl_total sl) (sl_inputs sl) (sl_keys sl)) _ uKey item txid off); try done.
      * by destruct ck.
      * apply Hp. by left.
      * intros Ex. rewrite Ex in Eex. cbn in Eex. by destruct (onChain txid).
      * apply Hnew; [by left|done].
    + intros k Hk. rewrite elem_of_app. destruct (Hlk k Hk) as [Hk'| ->]; [|left; right; by left].
      destruct (sh_locked _ Hsh _ Hk'); auto.
Qed.
End Selection.

Lemma prefix_from_elem {V} (t : gmap string V) prefix start k v :
  (k, v) ∈ prefix_from t prefix start <->
  t !! k = Some v /\ str_le start k /\ (forall e, prefixEnd prefix = Some e -> str_lt k e).
Proof.
  unfold prefix_from. rewrite list_elem_of_In, List.filter_In, <- list_elem_of_In, rb_from_spec. cbn [fst].
  change (rb_get t k) with (t !! k).
  destruct (prefixEnd prefix) as [e|]; [rewrite bool_decide_eq_true|]; naive_solver.
Qed.

Lemma quick_iterator_keys addr table mid : NoDup (quick_iterator addr table mid).*1.
Proof.
  destruct mid as [mid|]; cbn [quick_iterator]; [|by apply key_sorted_NoDup, StronglySorted_filter, rb_from_sorted].
  rewrite fmap_app. apply NoDup_app. split_and!; try by apply key_sorted_NoDup, StronglySorted_filter, rb_from_sorted.
  intros k [[k1 v1] [-> H1]]%list_elem_of_fmap [[k2 v2] [E H2]]%list_elem_of_fmap. cbn in E. subst k2.
  apply prefix_from_elem in H1 as (_ & H1 & _). apply list_elem_of_In, List.filter_In in H2 as [_ H2%bool_decide_eq_true].
  cbn in *. apply (str_lt_irrefl k1). by eapply str_lt_le_trans.
Qed.

Lemma quick_iterator_elem addr table mid k i :
  (k, i) ∈ quick_iterator addr table mid -> table !! k = Some i.
Proof.
  destruct mid as [mid|]; cbn [quick_iterator]; [|by intros [? _]%prefix_from_elem].
  intros [[? _]%prefix_from_elem|H]%elem_of_app; [done|].
  apply list_elem_of_In, List.filter_In in H as [[H _]%list_elem_of_In%rb_from_spec _]. done.
Qed.

(** Every output of the address is on offer, wherever the walk starts. *)
Lemma quick_iterator_covers addr table mid k i :
  (k, i) ∈ prefix_from table (addr_prefix addr) (addr_prefix addr) -> (k, i) ∈ quick_iterator addr table mid.
Proof.
  destruct mid as [mid|]; [|done]. cbn [quick_iterator]. intros (Hk & Hle & Hend)%prefix_from_elem. apply elem_of_app.
  destruct (decide (str_lt k mid)) as [Hlt|Hge].
  - right. apply list_elem_of_In, List.filter_In. split; [by apply list_elem_of_In, rb_from_spec|by apply bool_decide_eq_true].
  - left. apply prefix_from_elem. split_and!; [done| |done]. unfold str_le, str_lt in *. rewrite String.compare_antisym. by destruct (String.compare k mid).
Qed.

Lemma unlock_all_lookup ks : forall u k,
  lockKeys (foldl (fun u k => UnlockKey k u) u ks) !! k = if decide (k ∈ ks) then None else lockKeys u !! k.
Proof.
  induction ks as [|x ks IH]; intros u k; [done|]. cbn [foldl]. rewrite IH.
  assert (lockKeys (UnlockKey x u) !! k = if decide (x = k) then None else lockKeys u !! k) as ->.
  { unfold UnlockKey. destruct (lockKeys u !! x) eqn:E; cbn.
    - destruct (decide (x = k)) as [->|]; [by rewrite lookup_delete_eq|by rewrite lookup_delete_ne].
    - destruct (decide (x = k)) as [->|]; done. }
  destruct (decide (k ∈ ks)), (decide (x = k)), (decide (k ∈ x :: ks)) as [Hc|Hc]; rewrite elem_of_cons in Hc; naive_solver.
Qed.

Section SelectTop.
Variables (fromAddr : string) (totalNeed : Z) (needLock excludeUnconfirmed : bool).
Variables (height : Z) (onChain : string -> bool) (now expire : Z).
Variable order : gmap string CacheItem -> list (string * CacheItem).
Hypothesis order_perm : forall m, order m ≡ₚ map_to_list m.
Variable table : gmap string UtxoItem.
Variable u : UtxoVM.

(** The locks that have not expired, and the outputs on offer. *)
Definition live_locks : gmap string Z := lockKeys (clearExpiredLocks now expire u).
Definition cached (k : string) (i : UtxoItem) : Prop :=
  exists l2 c, Available (uCache u) !! fromAddr = Some l2 /\ l2 !! k = Some c /\ ci_item c = i.
Definition offered (k : string) (i : UtxoItem) : Prop := cached k i \/ table !! k = Some i.
Hypothesis offered_amount : forall k i, offered k i -> (0 <= Amount i)%Z.

Definition cache_cands : list (string * UtxoItem) :=
  match Available (uCache u) !! fromAddr with
  | Some l2 => (fun kc => (kc.1, ci_item kc.2)) <$> order l2
  | None => []
  end.

Lemma cache_cands_elem k i : (k, i) ∈ cache_cands <-> cached k i.
Proof using order_perm.
  unfold cache_cands, cached. destruct (Available (uCache u) !! fromAddr) as [l2|].
  - rewrite list_elem_of_fmap. split.
    + intros ([k' c] & [= -> ->] & Hc). rewrite order_perm, elem_of_map_to_list in Hc. by exists l2, c.
    + intros (l & c & [= <-] & Hc & <-). exists (k, c). split; [done|]. by rewrite order_perm, elem_of_map_to_list.
  - split; [by intros ?%elem_of_nil|]. by intros (? & ? & ? & _).
Qed.

Lemma cache_cands_keys : NoDup cache_cands.*1.
Proof using order_perm.
  unfold cache_cands. destruct (Available (uCache u) !! fromAddr) as [l2|]; [|constructor].
  rewrite <- list_fmap_compose. change (NoDup ((fst) <$> order l2)). rewrite order_perm. apply NoDup_fst_map_to_list.
Qed.

Lemma start_selected : selected fromAddr needLock excludeUnconfirmed height onChain now live_locks offered
  (mkSel (clearExpiredLocks now expire u) [] 0 [] []).
Proof.
  split; cbn; try done; try constructor; try (by intros k ?%elem_of_nil). destruct needLock; [by intros k ?%elem_of_nil|done].
Qed.

Lemma clear_expired_cache : uCache (clearExpiredLocks now expire u) = uCache u.
Proof. unfold clearExpiredLocks. by destruct (clear_expired _ _ _ _). Qed.

(** The outcome of a selection that had enough, and of one that had not. *)
Record selection_ok (ins : list TxInput) (locked : list string) (total : Z) (u' : UtxoVM) : Prop := {
  so_inputs : exists keys, NoDup keys /\ Forall2 (picked fromAddr excludeUnconfirmed height onChain offered) keys ins /\
    (forall k, k ∈ keys -> live_locks !! k = None) /\
    (if needLock then forall k, k ∈ keys -> lockKeys u' !! k = Some now else lockKeys u' = live_locks);
  so_total : total = zsum (fun i => SetBytes (ti_Amount i)) ins;
  so_enough : (totalNeed <= total)%Z;
  so_kept : forall k, is_Some (live_locks !! k) -> lockKeys u' !! k = live_locks !! k
}.

Record selection_short (u' : UtxoVM) : Prop := {
  ss_locks : lockKeys u' = live_locks;
  ss_why : exists keys ins, Forall2 (picked fromAddr excludeUnconfirmed height onChain offered) keys ins /\
    (zsum (fun i => SetBytes (ti_Amount i)) ins < totalNeed)%Z /\
    (forall k i, cached k i -> accounted excludeUnconfirmed height onChain live_locks keys k i) /\
    (forall k i, (k, i) ∈ prefix_from table (addr_prefix fromAddr) (addr_prefix fromAddr) ->
       accounted excludeUnconfirmed height onChain live_locks keys k i)
}.

Lemma selected_ok sl : selected fromAddr needLock excludeUnconfirmed height onChain now live_locks offered sl ->
  (totalNeed <= sl_total sl)%Z -> selection_ok (sl_inputs sl) (sl_locked sl) (sl_total sl) (sl_vm sl).
Proof.
  intros [H1 H2 H3 H4 H5 H6 H7 H8] Hle. split; try done.
  - exists (sl_keys sl). split_and!; try done. destruct needLock.
    + intros k Hk. rewrite H7, with_locks_lookup, decide_True; auto.
    + by rewrite H7, H8.
  - intros k [t Ht]. rewrite H7, with_locks_lookup, decide_False; [done|]. intros Hk. by rewrite (H5 _ Hk) in Ht.
Qed.

Lemma selected_short sl :
  selected fromAddr needLock excludeUnconfirmed height onChain now live_locks offered sl ->
  lockKeys (foldl (fun u k => UnlockKey k u) (sl_vm sl) (sl_locked sl)) = live_locks.
Proof.
  intros Hs. apply map_eq. intros k.
  rewrite unlock_all_lookup, (sd_locks _ _ _ _ _ _ _ _ _ Hs), with_locks_lookup.
  destruct (decide (k ∈ sl_locked sl)) as [Hk|]; [|done]. by rewrite (sd_locked_free _ _ _ _ _ _ _ _ _ Hs _ Hk).
Qed.


(** The second loop, over the database. *)
Lemma second_loop sl mid o sl' :
  selected fromAddr needLock excludeUnconfirmed height onChain now live_locks offered sl ->
  select_loop fromAddr totalNeed needLock excludeUnconfirmed height onChain now (Some (sl_keys sl)) (quick_iterator fromAddr table mid) sl = (o, sl') ->
  selected fromAddr needLock excludeUnconfirmed height onChain now live_locks offered sl' /\ (o = Ret true -> (totalNeed <= sl_total sl')%Z).
Proof using offered_amount.
  intros Hs. apply select_loop_spec; try done.
  - apply quick_iterator_keys.
  - intros k i Hk%quick_iterator_elem. by right.
Qed.

Lemma first_loop o sl' :
  select_loop fromAddr totalNeed needLock excludeUnconfirmed height onChain now None cache_cands
    (mkSel (clearExpiredLocks now expire u) [] 0 [] []) = (o, sl') ->
  selected fromAddr needLock excludeUnconfirmed height onChain now live_locks offered sl' /\ (o = Ret true -> (totalNeed <= sl_total sl')%Z).
Proof using offered_amount order_perm.
  apply select_loop_spec; [done|apply cache_cands_keys| | |apply start_selected].
  - intros k i Hk%cache_cands_elem. by left.
  - intros k _ _. apply not_elem_of_nil.
Qed.

Definition is_short := short fromAddr totalNeed needLock excludeUnconfirmed height onChain now live_locks offered.

Lemma first_loop_short sl' : (0 < totalNeed)%Z ->
  select_loop fromAddr totalNeed needLock excludeUnconfirmed height onChain now None cache_cands
    (mkSel (clearExpiredLocks now expire u) [] 0 [] []) = (Ret false, sl') ->
  is_short sl' /\ forall k i, cached k i -> accounted excludeUnconfirmed height onChain live_locks (sl_keys sl') k i.
Proof using offered_amount order_perm.
  intros Hn E. eapply (select_loop_short _ _ _ _ _ _ _ live_locks offered) in E as (? & _ & Ha); try done.
  - split; [done|]. intros k i Hk. by apply Ha, cache_cands_elem.
  - apply cache_cands_keys.
  - intros k i Hk%cache_cands_elem. by left.
  - split; [apply start_selected|done|]. by intros k ?%elem_of_nil.
Qed.

Lemma second_loop_short sl mid sl' : is_short sl ->
  select_loop fromAddr totalNeed needLock excludeUnconfirmed height onChain now (Some (sl_keys sl)) (quick_iterator fromAddr table mid) sl = (Ret false, sl') ->
  is_short sl' /\ (forall k, k ∈ sl_keys sl -> k ∈ sl_keys sl') /\
  (forall k i, (k, i) ∈ prefix_from table (addr_prefix fromAddr) (addr_prefix fromAddr) ->
     accounted excludeUnconfirmed height onChain live_locks (sl_keys sl') k i).
Proof using offered_amount.
  intros Hsh E. eapply (select_loop_short _ _ _ _ _ _ _ live_locks offered) in E as (? & Hsub & Ha); try done.
  - split_and!; [done..|]. intros k i Hk. by eapply Ha, quick_iterator_covers.
  - apply quick_iterator_keys.
  - intros k i Hk%quick_iterator_elem. by right.
Qed.

Lemma parse_not_short uKey e : parseUtxoKeys uKey = Err e -> e <> ErrNoEnoughUTXO.
Proof.
  unfold parseUtxoKeys. repeat case_match; intros; simplify_eq; discriminate.
Qed.

(** A selection ends early only on a key that does not parse. *)
Lemma select_loop_stops ck cands : forall sl o sl',
  select_loop fromAddr totalNeed needLock excludeUnconfirmed height onChain now ck cands sl = (o, sl') ->
  match o with Ret _ => True | Err e => e <> ErrNoEnoughUTXO | Panic => "" ∈ cands.*1 end.
Proof.
  induction cands as [|[uKey item] cands IH]; intros sl o sl'; cbn [select_loop]; [by intros [= <- <-]|].
  assert (forall sl1, select_loop fromAddr totalNeed needLock excludeUnconfirmed height onChain now ck cands sl1 = (o, sl') ->
    match o with Ret _ => True | Err e => e <> ErrNoEnoughUTXO | Panic => "" ∈ ((uKey, item) :: cands).*1 end) as Hskip.
  { intros sl1 H%IH. destruct o; try done. by right. }
  case_bool_decide; [apply Hskip|]. destruct (frozen height item); [apply Hskip|].
  destruct (parseUtxoKeys uKey) as [[txid off]|e|] eqn:Ep.
  - destruct (if needLock then _ else _) as [[ok u1] locked]. destruct ok; cbn [negb]; [|apply Hskip].
    destruct (excludeUnconfirmed && _); [apply Hskip|]. destruct (_ <=? _)%Z; [by intros [= <- <-]|apply Hskip].
  - intros [= <- <-]. by eapply parse_not_short.
  - intros [= <- <-]. destruct uKey; [by left|]. exfalso. revert Ep. unfold parseUtxoKeys. repeat case_match; discriminate.
Qed.

Lemma select_spec r u' :
  (0 < totalNeed)%Z -> (forall i, ~ offered "" i) ->
  SelectUtxos fromAddr totalNeed needLock excludeUnconfirmed height onChain now order expire table u = (r, u') ->
  match r with
  | Ret (ins, locked, total) => selection_ok ins locked total u'
  | Err e => e = ErrNoEnoughUTXO -> selection_short u'
  | Panic => False
  end.
Proof using order_perm offered_amount.
  intros Hneed Hkey. unfold SelectUtxos. rewrite (proj2 (Z.eqb_neq totalNeed 0)), clear_expired_cache by lia. fold cache_cands.
  destruct (select_loop _ _ _ _ _ _ _ None cache_cands _) as [o1 sl1] eqn:E1.
  destruct (first_loop _ _ E1) as [Hs1 Hen1]. pose proof (select_loop_stops _ _ _ _ _ E1) as Hst1.
  destruct o1 as [[]|e|].
  - intros [= <- <-]. apply selected_ok; auto.
  - destruct (first_loop_short _ Hneed E1) as [Hsh1 Hacc1]. destruct (Get (PrevFoundKeyCache (sl_vm sl1)) fromAddr) as [mid c].
    set (sl2 := mkSel _ _ _ _ _).
    assert (selected fromAddr needLock excludeUnconfirmed height onChain now live_locks offered sl2) as Hs2 by (by apply selected_vm).
    assert (is_short sl2) as Hsh2 by (destruct Hsh1; by split).
    destruct (select_loop _ _ _ _ _ _ _ (Some (sl_keys sl2)) _ sl2) as [o2 sl3] eqn:E2.
    destruct (second_loop _ _ _ _ Hs2 E2) as [Hs3 Hen3]. pose proof (select_loop_stops _ _ _ _ _ E2) as Hst2.
    destruct o2 as [[]|e|]; intros [= <- <-]; [by apply selected_ok; auto| |done|].
    + intros _. destruct (second_loop_short _ _ _ Hsh2 E2) as (Hsh3 & Hsub & Hacc2). split; [by apply selected_short|].
      exists (sl_keys sl3), (sl_inputs sl3). split_and!; [apply Hs3| |intros k i Hk|done].
      * rewrite <- (sd_total _ _ _ _ _ _ _ _ _ Hs3). apply Hsh3.
      * eapply accounted_mono; [|by apply Hacc1]. done.
    + apply list_elem_of_fmap in Hst2 as ([k i] & [= <-] & Hk%quick_iterator_elem). apply (Hkey i). by right.
  - intros [= <- <-]. done.
  - intros [= <- <-]. apply list_elem_of_fmap in Hst1 as ([k i] & [= <-] & Hk%cache_cands_elem). apply (Hkey i). by left.
Qed.

(** [SelectUtxos] returns inputs for distinct outputs of the address that
    are not frozen, not locked by another selection and, when asked, of
    transactions of the trunk; their sum is the returned total and covers the
    need; with locking each of them is locked when the call returns, and no
    other lock is lost.  When it reports that there is not enough, every lock
    it took is released, and every output on offer is taken, frozen, locked or
    excluded, and those taken do not cover the need. *)
Theorem SelectUtxos_spec r u' :
  (0 < totalNeed)%Z -> (forall i, ~ offered "" i) ->
  SelectUtxos fromAddr totalNeed needLock excludeUnconfirmed height onChain now order expire table u = (r, u') ->
  match r with
  | Ret (ins, locked, total) => selection_ok ins locked total u'
  | Err e => e = ErrNoEnoughUTXO -> selection_short u'
  | Panic => False
  end.
Proof using order_perm offered_amount. apply select_spec. Qed.
End SelectTop.

(** ** Transfers made by contracts *)

(** [utxo_sandbox.go]: the inputs and outputs a contract's transfers add to its
    transaction.  [select] is [SelectUtxo], with locking. *)
Record UTXOSandbox := mkUS { inputCache : list TxInput; outputCache : list TxOutput }.

Definition Transfer (select : string -> Z -> outcome (list TxInput * list string * Z)) (from to : string) (amount : Z) (u : UTXOSandbox)
    : outcome UTXOSandbox :=
  if (amount =? 0)%Z then Err "should  be large than zero"
  else
    match select from amount with
    | Ret (inputs, _, total) =>
        let outs := outputCache u ++ [mkTxOut (Bytes amount) to 0] in
        let outs := if (amount <? total)%Z then outs ++ [mkTxOut (Bytes (total - amount)) from 0] else outs in
        Ret (mkUS (inputCache u ++ inputs) outs)
    | Err e => Err e
    | Panic => Panic
    end.

Definition sandbox_in (u : UTXOSandbox) : Z := zsum (fun i => SetBytes (ti_Amount i)) (inputCache u).
Definition sandbox_out (u : UTXOSandbox) : Z := zsum out_amount (outputCache u).

Lemma Transfer_spec select from to amount u u' :
  (0 <= amount)%Z ->
  (forall ins locked total, select from amount = Ret (ins, locked, total) ->
     total = zsum (fun i => SetBytes (ti_Amount i)) ins /\ (amount <= total)%Z) ->
  Transfer select from to amount u = Ret u' -> (sandbox_in u' - sandbox_out u' = sandbox_in u - sandbox_out u)%Z.
Proof.
  intros Ha Hsel. unfold Transfer. destruct (amount =? 0)%Z; [done|]. destruct (select from amount) as [[[ins locked] total]| |]; [|done..].
  destruct (Hsel _ _ _ eq_refl) as [Ht Hle]. intros [= <-]. unfold sandbox_in, sandbox_out. cbn [inputCache outputCache].
  rewrite zsum_app, <- Ht. destruct (Z.ltb_spec amount total); rewrite ?zsum_app, ?zsum_cons; cbn [zsum foldr]; unfold out_amount; cbn [to_Amount];
    rewrite ?SetBytes_Bytes by lia; lia.
Qed.

(** The transfers of a contract conserve money: with the selection of outputs
    above, a transfer adds inputs and outputs of the same sum, the change
    included. *)
Theorem Transfer_conserves needLock excludeUnconfirmed height onChain now order expire table vm from to amount u u' :
  (forall m, order m ≡ₚ map_to_list m) ->
  (forall k i, offered from table vm k i -> (0 <= Amount i)%Z) -> (forall i, ~ offered from table vm "" i) -> (0 <= amount)%Z ->
  Transfer (fun a n => (SelectUtxos a n needLock excludeUnconfirmed height onChain now order expire table vm).1) from to amount u = Ret u' ->
  (sandbox_in u' - sandbox_out u' = sandbox_in u - sandbox_out u)%Z.
Proof.
  intros Hord Hamt Hkey Ha Ht. destruct (Z.eqb_spec amount 0) as [->|Hne]; [done|].
  refine (Transfer_spec _ _ _ _ _ _ Ha _ Ht). intros ins locked total Hs.
  destruct (SelectUtxos from amount needLock excludeUnconfirmed height onChain now order expire table vm) as [r vm'] eqn:E. cbn in Hs. subst r.
  assert (0 < amount)%Z as Hpos by lia. destruct (select_spec _ _ _ _ _ _ _ _ _ Hord _ _ Hamt _ _ Hpos Hkey E) as [_ H1 H2 _]. by split.
Qed.

(** ** Examples *)

Module UtxoExample.
(** The address [a] has an output of 5, and one of 9 that is frozen until block 100. *)
Definition k5 : string := GenUtxoKeyWithPrefix "a" "t" 0.
Definition k9 : string := GenUtxoKeyWithPrefix "a" "t" 1.
Definition table : gmap string UtxoItem := <[k5 := mkItem 5 0]> (<[k9 := mkItem 9 100]> ∅).
Definition vm : UtxoVM := MakeUtxo 10 (Some 14%Z).
Definition select (need : Z) := SelectUtxos "a" need true false 7 (fun _ => true) 1000 map_to_list 60 table vm.

Lemma offered_table k i : offered "a" table vm k i -> (k, i) ∈ [(k5, mkItem 5 0); (k9, mkItem 9 100)].
Proof.
  intros [(l2 & c & H & _)|H]; [done|]. unfold table in H. apply lookup_insert_Some in H as [[<- <-]|[_ H]]; [by left|].
  apply lookup_insert_Some in H as [[<- <-]|[_ H]]; [right; by left|done].
Qed.

Lemma offered_amounts k i : offered "a" table vm k i -> (0 <= Amount i)%Z.
Proof. intros H%offered_table. repeat (apply elem_of_cons in H as [[= -> ->]|H]; [cbn; lia|]). by apply elem_of_nil in H. Qed.

Lemma offered_keys i : ~ offered "a" table vm "" i.
Proof. intros H%offered_table. repeat (apply elem_of_cons in H as [H|H]; [done|]). by apply elem_of_nil in H. Qed.
End UtxoExample.
Import UtxoExample.

Example select_3 : (select 3).1 = Ret ([mkTxIn "t" 0 "a" (Bytes 5) 0], [k5], 5%Z).
Proof. by vm_compute. Qed.
Example select_6 : (select 6).1 = Err ErrNoEnoughUTXO /\ lockKeys (select 6).2 = ∅.
Proof. split; by vm_compute. Qed.

Lemma SelectUtxos_spec_witness : exists u', select 6 = (Err ErrNoEnoughUTXO, u') /\ selection_short "a" 6 false 7 (fun _ => true) 1000 60 table vm u'.
Proof.
  destruct (select 6) as [r u'] eqn:E. exists u'.
  assert (r = Err ErrNoEnoughUTXO) as -> by (change r with (r, u').1; rewrite <- E; apply select_6). split; [done|].
  refine (SelectUtxos_spec "a" 6 true false 7 (fun _ => true) 1000 60 map_to_list _ table vm _ (Err ErrNoEnoughUTXO) u' _ _ E eq_refl); [done| |clear E; lia|].
  - clear E. apply offered_amounts.
  - clear E. apply offered_keys.
Defined.

Lemma Transfer_conserves_witness :
  exists u', Transfer (fun a n => (SelectUtxos a n true false 7 (fun _ => true) 1000 map_to_list 60 table vm).1) "a" "b" 3 (mkUS [] []) = Ret u' /\
    sandbox_in u' = sandbox_out u' /\ length (outputCache u') = 2.
Proof.
  destruct (Transfer _ "a" "b" 3 (mkUS [] [])) as [u'|e|] eqn:E; [|by vm_compute in E..]. exists u'. split; [done|]. split; [|by vm_compute in E; injection E as <-].
  apply Z.sub_move_0_r. apply (Transfer_conserves true false 7 (fun _ => true) 1000 map_to_list 60 table vm "a" "b" 3 (mkUS [] []) u'); [done| | |done|exact E].
  - clear E. apply offered_amounts.
  - clear E. apply offered_keys.
Defined.
