(* ===== verification/SpinLock.v ===== *)
(** * Locks on the keys of transactions

    [bcs/ledger/xledger/state/utxo/spin_lock.go]: the locks a transaction takes
    before it is posted, on the outputs it spends and creates and on the keys it
    reads (shared) and writes (exclusive).

    [TryLock] and [Unlock] are given twice: as the functions of the source, and
    as programs of atomic actions on the concurrent map and on the counter, which
    threads interleave.  The two agree when a thread runs alone. *)

From Stdlib Require Import ZArith Lia.
From stdpp Require Import base gmap strings list numbers sorting.
From S2P Require Import Prelude GoValues Sandbox LedgerHash.

Set Default Proof Using "Type".

Inductive lock_type := sharedLock | exclusiveLock.

#[global] Instance lock_type_dec : EqDecision lock_type.
Proof. solve_decision. Defined.

Record LockKey := mkLK { lockType : lock_type; lk_key : string }.

#[global] Instance LockKey_dec : EqDecision LockKey.
Proof. solve_decision. Defined.

Record SpinLock := mkSL { sm : gmap string lock_type; ctMap : gmap string Z }.

Definition NewSpinLock : SpinLock := mkSL ∅ ∅.

Definition LockKey_String (lk : LockKey) : string :=
  match lockType lk with sharedLock => lk_key lk +:+ ":S" | exclusiveLock => lk_key lk +:+ ":X" end.

(** ** The reference counter *)

Definition rc_count (key : string) (sp : SpinLock) : Z := default 0%Z (ctMap sp !! key).
Definition rc_Add (key : string) (sp : SpinLock) : SpinLock := mkSL (sm sp) (<[key := (rc_count key sp + 1)%Z]> (ctMap sp)).
Definition rc_Release (key : string) (sp : SpinLock) : Z * SpinLock :=
  ((rc_count key sp - 1)%Z, mkSL (sm sp) (<[key := (rc_count key sp - 1)%Z]> (ctMap sp))).

Definition sm_Delete (key : string) (sp : SpinLock) : SpinLock := mkSL (delete key (sm sp)) (ctMap sp).
(** [sync.Map.LoadOrStore]: the value found, or nothing when the new one was stored. *)
Definition LoadOrStore (k : LockKey) (sp : SpinLock) : option lock_type * SpinLock :=
  match sm sp !! lk_key k with
  | Some t => (Some t, sp)
  | None => (None, mkSL (<[lk_key k := lockType k]> (sm sp)) (ctMap sp))
  end.

(** ** The keys of a transaction *)

Definition lk_le (a b : LockKey) : Prop := String.le (lk_key a) (lk_key b).
#[global] Instance lk_le_dec : RelDecision lk_le.
Proof. intros a b. unfold lk_le. apply _. Defined.

Fixpoint dedup (prev : option string) (keys : list LockKey) : list LockKey :=
  match keys with
  | [] => []
  | k :: keys => if bool_decide (prev = Some (lk_key k)) then dedup (Some (lk_key k)) keys else k :: dedup (Some (lk_key k)) keys
  end.

Definition input_lock (input : TxInput) : LockKey :=
  mkLK exclusiveLock (ti_RefTxid input +:+ "_" +:+ bigString (ti_RefOffset input)).
Definition output_lock (txid : string) (offset : nat) : LockKey := mkLK exclusiveLock (txid +:+ "_" +:+ bigString (Z.of_nat offset)).

Definition write_keys (tx : Transaction) : gset string :=
  list_to_set ((fun o => oe_Bucket o +:+ "/" +:+ oe_Key o) <$>
    List.filter (fun o => negb (bool_decide (oe_Bucket o = TransientBucket))) (TxOutputsExt tx)).
Definition read_keys (tx : Transaction) : gset string :=
  list_to_set ((fun i => ie_Bucket i +:+ "/" +:+ ie_Key i) <$> TxInputsExt tx) ∖ write_keys tx.

(** The maps of keys are walked in some order; the sort does away with it. *)
Definition ExtractLockKeys (tx : Transaction) : list LockKey :=
  let keys := (input_lock <$> TxInputs tx) ++ (output_lock (Txid tx) <$> seq 0 (length (TxOutputs tx))) ++
              (mkLK sharedLock <$> elements (read_keys tx)) ++ (mkLK exclusiveLock <$> elements (write_keys tx)) in
  dedup None (merge_sort lk_le keys).

(** ** Locking and unlocking, as one thread alone sees them *)

Definition IsLocked (key : string) (sp : SpinLock) : bool := bool_decide (is_Some (sm sp !! key)).

Fixpoint try_lock (lockKeys succLocked : list LockKey) (sp : SpinLock) : list LockKey * bool * SpinLock :=
  match lockKeys with
  | [] => (succLocked, true, sp)
  | k :: ks =>
      match LoadOrStore k sp with
      | (Some lkType, sp) =>
          if decide (lkType = sharedLock /\ lockType k = sharedLock)
          then try_lock ks (succLocked ++ [k]) (rc_Add (lk_key k) sp)
          else (succLocked, false, sp)
      | (None, sp) =>
          try_lock ks (succLocked ++ [k]) (if decide (lockType k = sharedLock) then rc_Add (lk_key k) sp else sp)
      end
  end.
Definition TryLock (lockKeys : list LockKey) (sp : SpinLock) : list LockKey * bool * SpinLock := try_lock lockKeys [] sp.

Definition unlock_key (k : LockKey) (sp : SpinLock) : SpinLock :=
  match lockType k with
  | exclusiveLock => sm_Delete (lk_key k) sp
  | sharedLock => let (n, sp) := rc_Release (lk_key k) sp in if (n =? 0)%Z then sm_Delete (lk_key k) sp else sp
  end.
Definition Unlock (lockKeys : list LockKey) (sp : SpinLock) : SpinLock := foldl (fun sp k => unlock_key k sp) sp (rev lockKeys).

(** ** Threads *)

(** Where a thread is: locking the rest of its keys with some granted, about to
    count a shared key, done locking, releasing (from the last key on), about to
    delete a key whose last reader it was. *)
Inductive thread :=
| Locking (todo granted : list LockKey)
| Counting (k : LockKey) (todo granted : list LockKey)
| Holding (granted : list LockKey)
| Releasing (granted : list LockKey)
| Deleting (k : LockKey) (granted : list LockKey).

(** One atomic action.  [Releasing] keeps the keys in the order of release. *)
Definition act (t : thread) (sp : SpinLock) : thread * SpinLock :=
  match t with
  | Locking [] granted => (Holding granted, sp)
  | Locking (k :: ks) granted =>
      match LoadOrStore k sp with
      | (Some lkType, sp) =>
          if decide (lkType = sharedLock /\ lockType k = sharedLock) then (Counting k ks granted, sp) else (Releasing (rev granted), sp)
      | (None, sp) => if decide (lockType k = sharedLock) then (Counting k ks granted, sp) else (Locking ks (granted ++ [k]), sp)
      end
  | Counting k ks granted => (Locking ks (granted ++ [k]), rc_Add (lk_key k) sp)
  | Holding granted => (Releasing (rev granted), sp)
  | Releasing [] => (Releasing [], sp)
  | Releasing (k :: ks) =>
      match lockType k with
      | exclusiveLock => (Releasing ks, sm_Delete (lk_key k) sp)
      | sharedLock => let (n, sp) := rc_Release (lk_key k) sp in if (n =? 0)%Z then (Deleting k ks, sp) else (Releasing ks, sp)
      end
  | Deleting k ks => (Releasing ks, sm_Delete (lk_key k) sp)
  end.

Definition finished (t : thread) : bool := match t with Releasing [] => true | _ => false end.

Record system := mkSys { threads : list thread; sys_locks : SpinLock }.

(** The scheduler lets thread [i] take its next action. *)
Definition sched (i : nat) (sys : system) : system :=
  match threads sys !! i with
  | Some t => let (t', sp) := act t (sys_locks sys) in mkSys (<[i := t']> (threads sys)) sp
  | None => sys
  end.
Definition run_threads (is_ : list nat) (sys : system) : system := foldl (fun s i => sched i s) sys is_.

(** The threads of the transactions [txs], before they begin. *)
Definition start_threads (requests : list (list LockKey)) : system := mkSys ((fun ks => Locking ks []) <$> requests) NewSpinLock.

(** What a thread was granted and has not given back. *)
Definition granted (t : thread) : list LockKey :=
  match t with
  | Locking _ g | Counting _ _ g | Holding g | Releasing g => g
  | Deleting k g => g
  end.
Definition requested (t : thread) : list LockKey :=
  match t with
  | Locking ks g => ks ++ g
  | Counting k ks g => k :: ks ++ g
  | Holding g | Releasing g => g
  | Deleting k g => k :: g
  end.
Definition in_section (t : thread) (k : string) : Prop := exists g, t = Holding g /\ k ∈ lk_key <$> g.

(** ** A thread alone *)

Inductive acts : nat -> thread * SpinLock -> thread * SpinLock -> Prop :=
| acts_0 c : acts 0 c c
| acts_S n t sp c : acts n (act t sp) c -> acts (S n) (t, sp) c.

Lemma acts_trans n m c1 c2 c3 : acts n c1 c2 -> acts m c2 c3 -> acts (n + m) c1 c3.
Proof. induction 1 as [|n t sp c H IH]; [done|]. intros Hm. constructor. by apply IH. Qed.

Lemma act_once t sp : acts 1 (t, sp) (act t sp).
Proof. constructor. constructor. Qed.

(** The actions of a thread that nobody interrupts compute [TryLock]. *)
Lemma alone_locks ks : forall g sp succ ok sp',
  try_lock ks g sp = (succ, ok, sp') ->
  exists n, acts n (Locking ks g, sp) (if ok then Holding succ else Releasing (rev succ), sp').
Proof.
  induction ks as [|k ks IH]; intros g sp succ ok sp'; cbn [try_lock].
  { intros [= <- <- <-]. exists 1%nat. apply act_once. }
  destruct (LoadOrStore k sp) as [[lkType|] sp1] eqn:E.
  - case_decide as Hsh.
    + intros (n & Hn)%IH. exists (1 + (1 + n))%nat. eapply acts_trans; [apply act_once|]. cbn [act]. rewrite E, decide_True by done.
      eapply acts_trans; [apply act_once|done].
    + intros [= <- <- <-]. exists 1%nat. pose proof (act_once (Locking (k :: ks) g) sp) as H. cbn [act] in H. by rewrite E, decide_False in H.
  - case_decide as Hsh; intros (n & Hn)%IH.
    + exists (1 + (1 + n))%nat. eapply acts_trans; [apply act_once|]. cbn [act]. rewrite E, decide_True by done.
      eapply acts_trans; [apply act_once|done].
    + exists (1 + n)%nat. eapply acts_trans; [apply act_once|]. cbn [act]. by rewrite E, decide_False.
Qed.

Lemma alone_unlocks_one k g sp : exists n, acts n (Releasing (k :: g), sp) (Releasing g, unlock_key k sp).
Proof.
  unfold unlock_key. pose proof (act_once (Releasing (k :: g)) sp) as H. cbn [act] in H.
  destruct (lockType k); [|by exists 1%nat]. destruct (rc_Release (lk_key k) sp) as [n sp1]. destruct (n =? 0)%Z; [|by exists 1%nat].
  exists (1 + 1)%nat. eapply acts_trans; [exact H|apply act_once].
Qed.

Lemma alone_unlocks g : forall sp, exists n, acts n (Releasing g, sp) (Releasing [], foldl (fun sp k => unlock_key k sp) sp g).
Proof.
  induction g as [|k g IH]; intros sp; [exists 0%nat; constructor|].
  destruct (alone_unlocks_one k g sp) as [n Hn], (IH (unlock_key k sp)) as [m Hm]. exists (n + m)%nat. by eapply acts_trans.
Qed.

(** A thread that is not interrupted does what [TryLock] and [Unlock] say: it
    comes to hold the keys [TryLock] grants (or, refused, gives back what it was
    granted), and leaves the locks as [Unlock] leaves them. *)
Theorem alone_is_TryLock_Unlock ks sp :
  let '(succ, ok, sp') := TryLock ks sp in
  (exists n, acts n (Locking ks [], sp) (if ok then Holding succ else Releasing (rev succ), sp')) /\
  (exists n, acts n (Locking ks [], sp) (Releasing [], Unlock succ sp')).
Proof.
  destruct (TryLock ks sp) as [[succ ok] sp'] eqn:E. destruct (alone_locks _ _ _ _ _ _ E) as [n Hn]. split; [by exists n|].
  destruct (alone_unlocks (rev succ) sp') as [m Hm]. destruct ok; [exists (n + (1 + m))%nat|exists (n + m)%nat].
  - eapply acts_trans; [exact Hn|]. eapply acts_trans; [apply act_once|done].
  - eapply acts_trans; [exact Hn|done].
Qed.

(** ** What locking changes, unlocking undoes *)

(** The count of a key is the number of its readers. *)
Definition counts_ok (sp : SpinLock) : Prop :=
  forall k, match sm sp !! k with Some sharedLock => (1 <= rc_count k sp)%Z | _ => rc_count k sp = 0%Z end.

(** The same locks and counts. *)
Definition same_locks (a b : SpinLock) : Prop := sm a = sm b /\ forall k, rc_count k a = rc_count k b.

#[global] Instance same_locks_equiv : Equivalence same_locks.
Proof. split; [done|intros a b []; by split|]. intros a b c [H1 H2] [H3 H4]. split; [congruence|]. intros k. by rewrite H2. Qed.

#[global] Instance counts_ok_proper : Proper (same_locks ==> iff) counts_ok.
Proof. intros a b [E H]. unfold counts_ok. rewrite E. split; intros Hc k; specialize (Hc k); rewrite (H k) in *; done. Qed.

#[global] Instance unlock_key_proper k : Proper (same_locks ==> same_locks) (unlock_key k).
Proof.
  intros a b [E H]. unfold unlock_key, rc_Release, sm_Delete. destruct (lockType k).
  - rewrite (H (lk_key k)). assert (forall x z, rc_count x (mkSL (sm a) (<[lk_key k := z]> (ctMap a))) = rc_count x (mkSL (sm b) (<[lk_key k := z]> (ctMap b)))) as Hc.
    { intros x z. unfold rc_count in *. cbn. destruct (decide (lk_key k = x)) as [->|]; [by rewrite !lookup_insert_eq|]. rewrite !lookup_insert_ne by done. apply H. }
    destruct (_ =? 0)%Z; split; cbn; rewrite ?E; try done; intros x; apply Hc.
  - split; cbn; [by rewrite E|]. apply H.
Qed.

Lemma rc_count_insert x k z m c : rc_count x (mkSL m (<[k := z]> c)) = if decide (k = x) then z else default 0%Z (c !! x).
Proof. unfold rc_count. cbn. destruct (decide (k = x)) as [->|]; [by rewrite lookup_insert_eq|by rewrite lookup_insert_ne]. Qed.

(** Granting one key, as [TryLock] does in one turn. *)
Definition grant (k : LockKey) (sp : SpinLock) : option SpinLock :=
  match LoadOrStore k sp with
  | (Some t, sp) => if decide (t = sharedLock /\ lockType k = sharedLock) then Some (rc_Add (lk_key k) sp) else None
  | (None, sp) => Some (if decide (lockType k = sharedLock) then rc_Add (lk_key k) sp else sp)
  end.

Lemma grant_undo k sp sp' : counts_ok sp -> grant k sp = Some sp' -> counts_ok sp' /\ same_locks (unlock_key k sp') sp.
Proof.
  intros Hok. unfold grant, LoadOrStore. pose proof (Hok (lk_key k)) as Hk. destruct (sm sp !! lk_key k) as [t|] eqn:Em.
  - case_decide as Hsh; [|done]. destruct Hsh as [-> Hs]. intros [= <-]. split.
    + intros x. unfold rc_Add. rewrite rc_count_insert. cbn [sm]. specialize (Hok x). unfold rc_count in *.
      destruct (decide (lk_key k = x)) as [<-|]; [rewrite Em; lia|done].
    + unfold unlock_key, rc_Release, rc_Add. rewrite Hs, rc_count_insert, decide_True by done.
      replace (_ =? 0)%Z with false by lia. split; [done|]. intros x. rewrite rc_count_insert. cbn [ctMap].
      destruct (decide (lk_key k = x)) as [<-|Hne]; [lia|]. by rewrite lookup_insert_ne.
  - intros [= <-]. case_decide as Hs; split.
    + intros x. unfold rc_Add. rewrite rc_count_insert. cbn [sm ctMap]. specialize (Hok x). unfold rc_count in *.
      destruct (decide (lk_key k = x)) as [<-|]; [rewrite lookup_insert_eq, Hs; cbn; lia|by rewrite lookup_insert_ne].
    + assert (forall t, rc_count (lk_key k) (mkSL (<[lk_key k := t]> (sm sp)) (ctMap sp)) = 0%Z) as Hc by (intros t; exact Hk).
      unfold unlock_key, rc_Release, rc_Add. rewrite Hs, rc_count_insert, decide_True, Hc by done.
      replace (0 + 1 - 1 =? 0)%Z with true by done. unfold sm_Delete. split; cbn [sm ctMap]; [by rewrite delete_insert_id|]. intros x. unfold rc_count. cbn [ctMap].
      destruct (decide (lk_key k = x)) as [<-|Hne]; [by rewrite lookup_insert_eq; fold (rc_count (lk_key k) sp); rewrite Hk|].
      by rewrite !lookup_insert_ne.
    + intros x. cbn [sm]. specialize (Hok x). unfold rc_count in *. cbn [ctMap].
      destruct (decide (lk_key k = x)) as [<-|]; [rewrite lookup_insert_eq; by destruct (lockType k)|by rewrite lookup_insert_ne].
    + unfold unlock_key. destruct (lockType k); [done|]. split; cbn [sm ctMap sm_Delete]; [by rewrite delete_insert_id|done].
Qed.

Lemma try_lock_undo ks : forall g sp succ ok sp',
  counts_ok sp -> try_lock ks g sp = (succ, ok, sp') ->
  counts_ok sp' /\ exists taken, succ = g ++ taken /\ same_locks (Unlock taken sp') sp.
Proof.
  induction ks as [|k ks IH]; intros g sp succ ok sp' Hok; cbn [try_lock].
  { intros [= <- <- <-]. split; [done|]. exists []. by rewrite app_nil_r. }
  assert (forall sp1, grant k sp = Some sp1 -> try_lock ks (g ++ [k]) sp1 = (succ, ok, sp') ->
    counts_ok sp' /\ exists taken, succ = g ++ taken /\ same_locks (Unlock taken sp') sp) as Hstep.
  { intros sp1 Hg Ht. destruct (grant_undo _ _ _ Hok Hg) as [Hok1 Hu]. destruct (IH _ _ _ _ _ Hok1 Ht) as (Hok' & taken & -> & Hs).
    split; [done|]. exists (k :: taken). split; [by rewrite <- app_assoc|].
    unfold Unlock in *. cbn [rev]. rewrite foldl_app. cbn [foldl]. by rewrite Hs. }
  unfold grant in Hstep. destruct (LoadOrStore k sp) as [[t|] sp1] eqn:E.
  - case_decide; [by apply Hstep|]. intros [= <- <- <-].
    assert (sp1 = sp) as -> by (unfold LoadOrStore in E; destruct (sm sp !! lk_key k); by simplify_eq).
    split; [done|]. exists []. by rewrite app_nil_r.
  - by apply Hstep.
Qed.

(** Unlocking what [TryLock] granted leaves the locks and the counts as they
    were, whether all keys were granted or a conflict stopped it half-way. *)
Theorem TryLock_Unlock_roundtrip ks sp :
  counts_ok sp ->
  let '(succ, ok, sp') := TryLock ks sp in
  counts_ok sp' /\ same_locks (Unlock succ sp') sp /\ (ok = true -> succ = ks).
Proof.
  intros Hok. destruct (TryLock ks sp) as [[succ ok] sp'] eqn:E. destruct (try_lock_undo _ _ _ _ _ _ Hok E) as (Hok' & taken & -> & Hs).
  split_and!; [done..|]. intros ->. clear -E. unfold TryLock in E. cbn [app] in *.
  assert (forall ks g sp, try_lock ks g sp = (taken, true, sp') -> taken = g ++ ks) as H; [|by apply H in E].
  clear. induction ks as [|k ks IH]; intros g sp; cbn [try_lock]; [intros [= <- _]; by rewrite app_nil_r|].
  assert (forall sp1, try_lock ks (g ++ [k]) sp1 = (taken, true, sp') -> taken = g ++ k :: ks) as Hk.
  { intros sp1 H%IH. by rewrite <- app_assoc in H. }
  destruct (LoadOrStore k sp) as [[t|] sp1]; [case_decide; [apply Hk|done]|apply Hk].
Qed.

(** ** Threads together *)

(** An upper bound on the actions a thread has left. *)
Definition left_to_do (t : thread) : nat :=
  match t with
  | Locking ks g => 4 * length ks + 2 * length g + 2
  | Counting _ ks g => 4 * length ks + 2 * length g + 5
  | Holding g => 2 * length g + 1
  | Releasing g => 2 * length g
  | Deleting _ g => 2 * length g + 1
  end.

Lemma act_progress t sp : finished t = false -> left_to_do (act t sp).1 < left_to_do t.
Proof.
  destruct t as [[|k ks] g|k ks g|g|[|k g]|k g]; cbn; intros Hf; try done; rewrite ?length_app, ?length_rev; cbn; try lia.
  - destruct (LoadOrStore k sp) as [[t|] sp1]; case_decide; cbn; rewrite ?length_app, ?length_rev; cbn; lia.
  - destruct (lockType k); [destruct (_ =? 0)%Z|]; cbn; lia.
Qed.

Lemma act_finished t sp : finished t = true -> act t sp = (t, sp).
Proof. by destruct t as [| | |[]|]. Qed.

Lemma finished_left t : finished t = true <-> left_to_do t = 0.
Proof. destruct t as [| | |[]|]; cbn; split; try done; lia. Qed.

Lemma sched_other i j sys : i <> j -> threads (sched j sys) !! i = threads sys !! i.
Proof.
  intros Hne. unfold sched. destruct (threads sys !! j) as [t|] eqn:E; [|done]. destruct (act t (sys_locks sys)). cbn. by rewrite list_lookup_insert_ne.
Qed.

Lemma sched_self i sys t : threads sys !! i = Some t -> threads (sched i sys) !! i = Some (act t (sys_locks sys)).1.
Proof.
  intros E. unfold sched. rewrite E. destruct (act t (sys_locks sys)) as [t' sp]. cbn. apply list_lookup_insert_eq. by eapply lookup_lt_Some.
Qed.

(** No thread ever waits for another.  However the actions of the threads are
    interleaved, a thread that got [4 n + 2] turns, where [n] is the number of its
    keys, has ended: it got all its locks and gave them back, or was refused and
    gave back those it had. *)
Theorem locking_is_wait_free requests schedule i ks :
  requests !! i = Some ks -> 4 * length ks + 2 <= length (List.filter (Nat.eqb i) schedule) ->
  exists t, threads (run_threads schedule (start_threads requests)) !! i = Some t /\ finished t = true.
Proof.
  intros Hi Hn. assert (forall sys t, threads sys !! i = Some t -> left_to_do t <= length (List.filter (Nat.eqb i) schedule) ->
    exists t', threads (run_threads schedule sys) !! i = Some t' /\ finished t' = true) as H.
  { clear. induction schedule as [|j schedule IH]; intros sys t Ht Hle; cbn in *.
    - exists t. split; [done|]. apply finished_left. lia.
    - destruct (Nat.eqb_spec i j) as [<-|Hne].
      + apply (IH _ _ (sched_self _ _ _ Ht)). cbn in Hle. destruct (finished t) eqn:Ef.
        * rewrite act_finished by done. apply finished_left in Ef. cbn. lia.
        * pose proof (act_progress t (sys_locks sys) Ef). lia.
      + apply (IH _ t); [|done]. by rewrite sched_other. }
  apply (H (start_threads requests) (Locking ks [])); [|cbn; lia]. cbn. by rewrite list_lookup_fmap, Hi.
Qed.

(** *** Exclusive keys *)

Section Exclusive.
(** A key nobody asks to share. *)
Variable x : string.

Definition asks_exclusive (ks : list LockKey) : Prop :=
  NoDup (lk_key <$> ks) /\ Forall (fun k => lk_key k = x -> lockType k = exclusiveLock) ks.

Definition owns (t : thread) : Prop := x ∈ lk_key <$> granted t.

Record excl_ok (sys : system) : Prop := {
  eo_asks : Forall (fun t => asks_exclusive (requested t)) (threads sys);
  eo_deleting : Forall (fun t => match t with Deleting k _ | Counting k _ _ => lk_key k <> x | _ => True end) (threads sys);
  eo_locked : forall i t, threads sys !! i = Some t -> owns t -> sm (sys_locks sys) !! x = Some exclusiveLock;
  eo_unique : forall i j t u, threads sys !! i = Some t -> threads sys !! j = Some u -> owns t -> owns u -> i = j
}.

Lemma asks_exclusive_sub ks ks' : ks' ⊆+ ks -> asks_exclusive ks -> asks_exclusive ks'.
Proof.
  intros [r Hr]%submseteq_Permutation [Hnd Hf]. split.
  - rewrite Hr, fmap_app in Hnd. by apply NoDup_app in Hnd as (? & _).
  - rewrite Hr in Hf. by apply Forall_app in Hf as [? _].
Qed.

Definition not_counted (t : thread) : Prop := match t with Deleting k _ | Counting k _ _ => lk_key k <> x | _ => True end.

(** An action keeps the lock of [x], takes it free, or gives it back. *)
Inductive effect (t : thread) (sp : SpinLock) (t' : thread) (sp' : SpinLock) : Prop :=
| eff_keep : sm sp' !! x = sm sp !! x -> (owns t' -> owns t) -> effect t sp t' sp'
| eff_take : sm sp !! x = None -> sm sp' !! x = Some exclusiveLock -> effect t sp t' sp'
| eff_give : owns t -> ~ owns t' -> effect t sp t' sp'.

Lemma owns_snoc ks g k ks' : owns (Locking ks (g ++ [k])) -> lk_key k <> x -> owns (Locking ks' g).
Proof. unfold owns. cbn [granted]. rewrite fmap_app, elem_of_app. intros [?|H] Hne; [done|]. cbn in H. apply list_elem_of_singleton in H. congruence. Qed.

Lemma owns_rev ks g : owns (Releasing (rev g)) -> owns (Locking ks g).
Proof. unfold owns. cbn. by rewrite <- (Permutation_rev g). Qed.

Lemma lock_act k ks g sp :
  asks_exclusive (k :: ks ++ g) ->
  let '(t', sp') := act (Locking (k :: ks) g) sp in
  requested t' ⊆+ k :: ks ++ g /\ not_counted t' /\ effect (Locking (k :: ks) g) sp t' sp'.
Proof.
  intros [Hnd Hf]. apply Forall_cons in Hf as [Hk _]. cbn [act]. unfold LoadOrStore. destruct (sm sp !! lk_key k) as [t|] eqn:Em.
  - case_decide as Hsh; cbn.
    + split_and!; [done| |by apply eff_keep]. intros E. rewrite Hk in Hsh by done. naive_solver.
    + split_and!; [|done|apply eff_keep; [done|apply owns_rev]]. rewrite <- (Permutation_rev g). apply submseteq_cons, submseteq_inserts_l. done.
  - case_decide as Hsh; cbn.
    + split_and!; [done| |apply eff_keep; [cbn|done]]; [intros E; rewrite Hk in Hsh; done|].
      rewrite lookup_insert_ne; [done|]. intros E. rewrite Hk in Hsh; done.
    + split_and!; [|done|].
      * rewrite (assoc_L (++)), Permutation_app_comm. done.
      * destruct (decide (lk_key k = x)) as [E|Hne].
        -- apply eff_take; [by rewrite <- E|]. cbn. rewrite E, lookup_insert_eq. by rewrite Hk.
        -- apply eff_keep; [cbn; by rewrite lookup_insert_ne|]. intros Ho. by eapply owns_snoc.
Qed.

Lemma release_act k g sp :
  asks_exclusive (k :: g) ->
  let '(t', sp') := act (Releasing (k :: g)) sp in
  requested t' ⊆+ k :: g /\ not_counted t' /\ effect (Releasing (k :: g)) sp t' sp'.
Proof.
  intros [Hnd Hf]. apply Forall_cons in Hf as [Hk _]. cbn in Hnd. apply NoDup_cons in Hnd as [Hni _]. cbn [act].
  destruct (lockType k) eqn:El.
  - assert (lk_key k <> x) as Hne by (intros E%Hk; done). unfold rc_Release.
    destruct (_ =? 0)%Z; cbn; (split_and!; [first [done|by apply submseteq_cons]|done|apply eff_keep; [done|]]); intros Ho; by right.
  - cbn. split_and!; [by apply submseteq_cons|done|]. destruct (decide (lk_key k = x)) as [E|Hne].
    + apply eff_give; unfold owns; cbn; rewrite <- E; [by left|done].
    + apply eff_keep; [cbn; by rewrite lookup_delete_ne|]. intros Ho. by right.
Qed.

Lemma act_effect t sp :
  asks_exclusive (requested t) -> not_counted t ->
  let '(t', sp') := act t sp in requested t' ⊆+ requested t /\ not_counted t' /\ effect t sp t' sp'.
Proof.
  destruct t as [[|k ks] g|k ks g|g|[|k g]|k g]; intros Ha Hc; try by (apply lock_act || apply release_act).
  - cbn. split_and!; [done..|by apply eff_keep].
  - cbn. split_and!; [by rewrite (assoc_L (++)), (Permutation_app_comm _ [k])|done|]. apply eff_keep; [done|]. intros Ho. by eapply (owns_snoc ks g k ks).
  - cbn. split_and!; [by rewrite <- (Permutation_rev g)|done|]. apply eff_keep; [done|]. apply (owns_rev []).
  - cbn. split_and!; [done..|by apply eff_keep].
  - cbn. split_and!; [by apply submseteq_cons|done|]. apply eff_keep; [cbn; by rewrite lookup_delete_ne|done].
Qed.

Lemma sched_excl i sys : excl_ok sys -> excl_ok (sched i sys).
Proof.
  intros [Ha Hd Hl Hu]. unfold sched. destruct (threads sys !! i) as [t|] eqn:Et; [|done].
  pose proof (act_effect t (sys_locks sys)) as He. destruct (act t (sys_locks sys)) as [t' sp'].
  destruct He as (Hr & Hc & He); [by eapply Forall_lookup_1 in Ha|by eapply Forall_lookup_1 in Hd|].
  assert (forall j u, <[i := t']> (threads sys) !! j = Some u -> j = i /\ u = t' \/ j <> i /\ threads sys !! j = Some u) as Hlk.
  { intros j u. destruct (decide (i = j)) as [<-|Hne].
    - rewrite list_lookup_insert_eq by (by eapply lookup_lt_Some). intros [= <-]. by left.
    - rewrite list_lookup_insert_ne by done. by right. }
  split; cbn [threads sys_locks].
  - apply Forall_insert; [done|]. eapply asks_exclusive_sub; [exact Hr|]. by eapply Forall_lookup_1 in Ha.
  - by apply Forall_insert.
  - intros j u [[-> ->]|[Hne Hj]]%Hlk Ho.
    + destruct He as [E Hk|E1 E2|Hg Hn]; [rewrite E; eauto|done|done].
    + destruct He as [E Hk|E1 E2|Hg Hn]; [rewrite E; eauto|by rewrite (Hl _ _ Hj Ho) in E1|]. destruct Hne. by eapply Hu.
  - assert (forall j u, j <> i -> threads sys !! j = Some u -> owns u -> owns t' -> False) as Hone.
    { intros j u Hne Hj Ho Ho'. destruct He as [E Hk|E1 E2|Hg Hn]; [|by rewrite (Hl _ _ Hj Ho) in E1|done]. apply Hne. eauto. }
    intros j k u v [[-> ->]|[Hj Hu1]]%Hlk [[-> ->]|[Hk Hv]]%Hlk Ho1 Ho2; [done|by destruct (Hone k v)|by destruct (Hone j u)|by eapply Hu].
Qed.

Lemma run_excl schedule : forall sys, excl_ok sys -> excl_ok (run_threads schedule sys).
Proof. induction schedule as [|i schedule IH]; intros sys H; [done|]. by apply IH, sched_excl. Qed.

Lemma start_excl requests : Forall asks_exclusive requests -> excl_ok (start_threads requests).
Proof.
  intros Hr. assert (forall i t, threads (start_threads requests) !! i = Some t -> exists ks, t = Locking ks [] /\ ks ∈ requests) as Ht.
  { intros i t. cbn. rewrite list_lookup_fmap. destruct (requests !! i) as [ks|] eqn:E; [|done]. intros [= <-]. exists ks. split; [done|].
    by eapply list_elem_of_lookup_2. }
  split.
  - apply Forall_lookup. intros i t (ks & -> & Hin)%Ht. cbn. rewrite app_nil_r. by eapply Forall_forall in Hr.
  - apply Forall_lookup. by intros i t (ks & -> & Hin)%Ht.
  - intros i t (ks & -> & _)%Ht. unfold owns. cbn. by intros ?%elem_of_nil.
  - intros i j t u (ks & -> & _)%Ht _. unfold owns at 1. cbn. by intros ?%elem_of_nil.
Qed.
End Exclusive.

(** ** The keys of a transaction *)

#[global] Instance lk_le_trans : Transitive lk_le.
Proof. intros a b c. unfold lk_le. apply transitivity. Qed.
#[global] Instance lk_le_total : Total lk_le.
Proof. intros a b. unfold lk_le. apply (total String.le). Qed.

Lemma dedup_spec l : forall prev, StronglySorted lk_le l -> (forall p k, prev = Some p -> k ∈ l -> String.le p (lk_key k)) ->
  NoDup (lk_key <$> dedup prev l) /\ (forall k, k ∈ dedup prev l -> k ∈ l /\ prev <> Some (lk_key k)) /\
  (forall k, k ∈ l -> prev = Some (lk_key k) \/ lk_key k ∈ lk_key <$> dedup prev l).
Proof.
  induction l as [|x l IH]; intros prev Hs Hp; cbn [dedup].
  { split_and!; [constructor|by intros k ?%elem_of_nil..]. }
  apply StronglySorted_inv in Hs as [Hs Hx]. rewrite Forall_forall in Hx.
  destruct (IH (Some (lk_key x)) Hs) as (Hnd & Hsub & Hall). { intros p k [= <-] Hk. by apply Hx. }
  case_bool_decide as E.
  - split_and!; [done| |].
    + intros k Hk. destruct (Hsub k Hk) as [? Hne]. rewrite E. split; [by right|done].
    + intros k [->|Hk]%elem_of_cons; [by left|]. destruct (Hall k Hk) as [[= <-]|]; [left; done|by right].
  - assert (forall k, k ∈ dedup (Some (lk_key x)) l -> prev <> Some (lk_key k)) as Hprev.
    { intros k Hk ->. destruct (Hsub k Hk) as [Hin Hne]. apply Hne. f_equal. apply (anti_symm String.le); [by apply Hx|].
      apply (Hp _ x); [done|by left]. }
    split_and!.
    + cbn. constructor; [|done]. intros (k & Hk & Hin)%list_elem_of_fmap. apply Hsub in Hin as [_ Hin]. congruence.
    + intros k [->|Hk]%elem_of_cons; [split; [by left|done]|]. split; [right; by apply Hsub|by apply Hprev].
    + intros k [->|Hk]%elem_of_cons; right; [by left|]. destruct (Hall k Hk) as [[= <-]|]; [by left|by right].
Qed.

Lemma ExtractLockKeys_spec tx :
  NoDup (lk_key <$> ExtractLockKeys tx) /\
  (forall k, k ∈ ExtractLockKeys tx -> lockType k = sharedLock -> lk_key k ∈ read_keys tx) /\
  (forall a, a ∈ TxInputs tx -> lk_key (input_lock a) ∈ lk_key <$> ExtractLockKeys tx).
Proof.
  unfold ExtractLockKeys. set (keys := _ ++ _).
  destruct (dedup_spec (merge_sort lk_le keys) None (StronglySorted_merge_sort _ _)) as (Hnd & Hsub & Hall); [done|].
  split_and!; [done| |].
  - intros k Hk Hs. apply Hsub in Hk as [Hk _]. rewrite merge_sort_Permutation in Hk. subst keys.
    rewrite !elem_of_app, !list_elem_of_fmap in Hk.
    destruct Hk as [(? & -> & _)|[(? & -> & _)|[(r & -> & Hr)|(? & -> & _)]]]; try done. by apply elem_of_elements.
  - intros a Ha. destruct (Hall (input_lock a)) as [|]; [|done..]. rewrite merge_sort_Permutation. subst keys. apply elem_of_app. left.
    apply list_elem_of_fmap. by exists a.
Qed.

(** A thread that holds its keys holds all it asked for. *)
Definition asked (orig : list LockKey) (t : thread) : Prop :=
  match t with
  | Locking ks g => g ++ ks = orig
  | Counting k ks g => g ++ k :: ks = orig
  | Holding g => g = orig
  | _ => True
  end.

Lemma act_asked orig t sp : asked orig t -> asked orig (act t sp).1.
Proof.
  destruct t as [[|k ks] g|k ks g|g|[|k g]|k g]; cbn; try done.
  - by rewrite app_nil_r.
  - intros <-. destruct (LoadOrStore k sp) as [[t|] sp1]; case_decide; cbn; try done. by rewrite <- app_assoc.
  - intros <-. by rewrite <- app_assoc.
  - intros _. destruct (lockType k); [destruct (_ =? 0)%Z|]; done.
Qed.

Lemma run_asked requests schedule i t :
  threads (run_threads schedule (start_threads requests)) !! i = Some t -> exists ks, requests !! i = Some ks /\ asked ks t.
Proof.
  assert (forall sys, (forall i t, threads sys !! i = Some t -> exists ks, requests !! i = Some ks /\ asked ks t) ->
    forall i t, threads (run_threads schedule sys) !! i = Some t -> exists ks, requests !! i = Some ks /\ asked ks t) as H.
  { clear. induction schedule as [|j schedule IH]; intros sys Hs; [done|]. apply IH. clear IH. intros i t.
    destruct (decide (i = j)) as [->|Hne]; [|rewrite sched_other by done; apply Hs].
    destruct (threads sys !! j) as [u|] eqn:E; [|unfold sched; rewrite E; apply Hs].
    rewrite (sched_self _ _ _ E). intros [= <-]. destruct (Hs _ _ E) as (ks & ? & ?). exists ks. split; [done|by apply act_asked]. }
  apply H. clear. intros i t. cbn. rewrite list_lookup_fmap. destruct (requests !! i) as [ks|]; [|done]. intros [= <-]. by exists ks.
Qed.

(** C31: two posted transactions never hold the locks of the same unspent output at
    the same time, however their threads are interleaved, provided no transaction
    reads a contract key that is spelt like the output's lock. *)
Theorem no_concurrent_double_spend txs schedule i j tx1 tx2 g1 g2 a b :
  i <> j -> txs !! i = Some tx1 -> txs !! j = Some tx2 -> a ∈ TxInputs tx1 -> b ∈ TxInputs tx2 ->
  Forall (fun tx => lk_key (input_lock a) ∉ read_keys tx) txs ->
  let sys := run_threads schedule (start_threads (ExtractLockKeys <$> txs)) in
  threads sys !! i = Some (Holding g1) -> threads sys !! j = Some (Holding g2) ->
  (ti_RefTxid a, ti_RefOffset a) <> (ti_RefTxid b, ti_RefOffset b).
Proof.
  intros Hij H1 H2 Ha Hb Hr sys Hi Hj E. assert (input_lock b = input_lock a) as Eb by (unfold input_lock; congruence).
  pose proof (run_excl (lk_key (input_lock a)) schedule (start_threads (ExtractLockKeys <$> txs))) as Hex. fold sys in Hex.
  destruct Hex as [_ _ _ Hu].
  { apply start_excl. rewrite Forall_fmap. eapply Forall_impl; [exact Hr|]. intros tx Hni. cbn.
    destruct (ExtractLockKeys_spec tx) as (Hnd & Hsh & _). split; [done|]. rewrite Forall_forall. intros k Hk Ek.
    destruct (lockType k) eqn:El; [|done]. specialize (Hsh k Hk El). by rewrite Ek in Hsh. }
  apply Hij. apply (Hu _ _ _ _ Hi Hj); unfold owns; cbn [granted].
  - destruct (run_asked _ _ _ _ Hi) as (ks & Hks & ->). rewrite list_lookup_fmap, H1 in Hks. injection Hks as <-.
    by apply ExtractLockKeys_spec.
  - destruct (run_asked _ _ _ _ Hj) as (ks & Hks & ->). rewrite list_lookup_fmap, H2 in Hks. injection Hks as <-.
    rewrite <- Eb. by apply ExtractLockKeys_spec.
Qed.

(** ** Examples *)

Module SpinExample.
Definition inp (txid : string) (off : Z) : TxInput := mkTxIn txid off "" "" 0.
Definition tx (id : string) (ins : list TxInput) (outs : list TxOutput) (reads writes : list (string * string)) : Transaction :=
  mkTx id "" false false "" ins outs ((fun bk => mkTxInExt bk.1 bk.2 None 0) <$> reads) ((fun bk => mkTxOutExt bk.1 bk.2 None) <$> writes) None.

(** The transactions of the unit test. *)
Definition tx1 : Transaction := tx "tx1" [inp "tx0" 0; inp "tx3" 1] [mkTxOut "" "" 0] [("bk2", "key2")] [("bk1", "key1")].
Definition tx2 : Transaction := tx "" [inp "tx3" 0] [] [("bk2", "key2")] [].
(** Two that read one key and two that write it; two that spend one output. *)
Definition reader_ (id : string) : Transaction := tx id [] [] [("b", "k")] [].
Definition writer_ (id : string) : Transaction := tx id [] [] [("b", "k")] [("b", "k")].
Definition spender (id : string) : Transaction := tx id [inp "t" 0] [mkTxOut "" "" 0] [] [].
End SpinExample.
Import SpinExample.

Example ExtractLockKeys_tx1 : LockKey_String <$> ExtractLockKeys tx1 = ["bk1/key1:X"; "bk2/key2:S"; "tx0_0:X"; "tx1_0:X"; "tx3_1:X"].
Proof. by vm_compute. Qed.
Example ExtractLockKeys_tx2 : LockKey_String <$> ExtractLockKeys tx2 = ["bk2/key2:S"; "tx3_0:X"].
Proof. by vm_compute. Qed.

(** The locks of written keys do not exclude.  The last reader of a key takes
    the count to zero and deletes the lock in two actions; a second reader that
    comes between them keeps a lock that is no longer in the map, so a writer gets
    the key, and the second reader's release then deletes the writer's lock, so
    that another writer gets it too: two transactions that write the same key are
    both between [TryLock] and [Unlock]. *)
Theorem two_writers_hold_one_key :
  let sys := run_threads [0; 0; 0; 0; 0; 1; 1; 1; 0; 2; 2; 1; 1; 1; 3; 3]%nat
               (start_threads (ExtractLockKeys <$> [reader_ "r1"; reader_ "r2"; writer_ "w1"; writer_ "w2"])) in
  in_section (Holding [mkLK exclusiveLock "b/k"]) "b/k" /\
  threads sys !! 2%nat = Some (Holding [mkLK exclusiveLock "b/k"]) /\ threads sys !! 3%nat = Some (Holding [mkLK exclusiveLock "b/k"]).
Proof. split; [exists [mkLK exclusiveLock "b/k"]; split; [done|by left]|]. by vm_compute. Qed.

Lemma no_concurrent_double_spend_witness :
  (ti_RefTxid (inp "t" 0), ti_RefOffset (inp "t" 0)) <> (ti_RefTxid (inp "tx3" 1), ti_RefOffset (inp "tx3" 1)).
Proof.
  apply (no_concurrent_double_spend [spender "a"; tx1] [0; 0; 0; 1; 1; 1; 1; 1; 1; 1]%nat 0 1 (spender "a") tx1
    (ExtractLockKeys (spender "a")) (ExtractLockKeys tx1) (inp "t" 0) (inp "tx3" 1)); try done.
  - by left.
  - right. by left.
  - repeat constructor; apply (bool_decide_unpack _); by vm_compute.
Defined.

Lemma locking_is_wait_free_witness :
  exists t, threads (run_threads [0; 1; 0; 1; 0; 1; 0; 1; 0; 1; 0; 1]%nat (start_threads (ExtractLockKeys <$> [reader_ "r1"; writer_ "w1"]))) !! 1%nat = Some t /\
    finished t = true.
Proof. apply (locking_is_wait_free _ _ 1 (ExtractLockKeys (writer_ "w1"))); [done|vm_compute; lia]. Defined.

Lemma TryLock_Unlock_roundtrip_witness :
  let '(succ, ok, sp') := TryLock (ExtractLockKeys tx1) NewSpinLock in
  counts_ok sp' /\ same_locks (Unlock succ sp') NewSpinLock /\ (ok = true -> succ = ExtractLockKeys tx1).
Proof. apply (TryLock_Unlock_roundtrip (ExtractLockKeys tx1) NewSpinLock). by intros k. Defined.
