(* ===== verification/State.v ===== *)
(** * The state machine

    [bcs/ledger/xledger/state/state.go] (and the irreversible height of
    [meta/meta.go]): blocks and transactions played on the unspent outputs
    ([Utxo]) and on the versions of the contracts' keys ([XModel]), one batch of
    writes per block; rolling them back; walking from one block of the ledger to
    another.

    The pool of unconfirmed transactions is used through the operations of
    [MempoolOps]; the checks of transactions ([tx_verification.go]) and the
    outcome of writing a batch to disk are parameters. *)

From Stdlib Require Import ZArith Lia.
From stdpp Require Import base gmap strings list numbers sorting.
From S2P Require Import Prelude GoValues Sandbox LruCache LedgerHash Ledger XModel Utxo SpinLock.

Set Default Proof Using "Type".

Definition ErrDoubleSpent : string := "utxo can not be spent more than once".
Definition ErrAlreadyInUnconfirmed : string := "this transaction is in unconfirmed state".
Definition ErrPreBlockMissMatch : string := "play block failed because pre-hash != latest_block".
Definition ErrRWSetInvalid : string := "RWSet of transaction invalid".
Definition ErrMempoolIsFull : string := "Mempool is full".
Definition ErrTxExist : string := "tx already in mempool".
Definition ErrProposalParamsIsNegativeNumber : string := "negative number for proposal parameter is not allowed".

(** What the state machine asks of the pool of unconfirmed transactions. *)
Class MempoolOps (P : Type) := {
  mp_HasTx : string -> P -> bool;
  mp_Full : P -> bool;
  mp_PutTx : Transaction -> P -> outcome unit * P;
  mp_FindConflictByTx : Transaction -> P -> list Transaction * P;
  mp_DeleteTxAndChildren : string -> P -> P;
  mp_BatchDeleteTx : list Transaction -> P -> P;
  mp_BatchConfirmTx : list Transaction -> P -> P;
  mp_BatchConfirmTxID : list string -> P -> P;
  mp_Range : P -> list Transaction
}.

Record UtxoMeta := mkUM { IrreversibleBlockHeight : Z; IrreversibleSlideWindow : Z }.

Record State (P : Type) := mkState {
  xmodel : XModel;
  utxo : UtxoVM;
  spLock : SpinLock;
  Meta : UtxoMeta;
  MetaTmp : UtxoMeta;
  latestBlockid : string;
  CacheSize : Z;
  Mempool : P
}.
Arguments mkState {P}.
Arguments xmodel {P}. Arguments utxo {P}. Arguments spLock {P}. Arguments Meta {P}. Arguments MetaTmp {P}.
Arguments latestBlockid {P}. Arguments CacheSize {P}. Arguments Mempool {P}.

Section State.
Context {P : Type} `{MempoolOps P}.
Notation St := (State P).

Definition set_xmodel (s : St) v := mkState v (utxo s) (spLock s) (Meta s) (MetaTmp s) (latestBlockid s) (CacheSize s) (Mempool s).
Definition set_utxo (s : St) v := mkState (xmodel s) v (spLock s) (Meta s) (MetaTmp s) (latestBlockid s) (CacheSize s) (Mempool s).
Definition set_spLock (s : St) v := mkState (xmodel s) (utxo s) v (Meta s) (MetaTmp s) (latestBlockid s) (CacheSize s) (Mempool s).
Definition set_Meta (s : St) v := mkState (xmodel s) (utxo s) (spLock s) v (MetaTmp s) (latestBlockid s) (CacheSize s) (Mempool s).
Definition set_MetaTmp (s : St) v := mkState (xmodel s) (utxo s) (spLock s) (Meta s) v (latestBlockid s) (CacheSize s) (Mempool s).
Definition set_latest (s : St) v := mkState (xmodel s) (utxo s) (spLock s) (Meta s) (MetaTmp s) v (CacheSize s) (Mempool s).
Definition set_Mempool (s : St) (v : P) : St := mkState (xmodel s) (utxo s) (spLock s) (Meta s) (MetaTmp s) (latestBlockid s) (CacheSize s) v.

Definition on_state (f : St -> St) : M St unit := fun s => (Ret tt, f s).
Definition on_xmodel {A} (c : M XModel A) : M St A := fun s => let (o, x) := c (xmodel s) in (o, set_xmodel s x).
Definition on_ledger {A} (c : M Ledger A) : M St A := on_xmodel (fun x => let (o, l) := c (ledger x) in (o, set_ledger x l)).
Definition put (op : state_op) (s : St) : St := set_xmodel s (emit op (xmodel s)).
Definition up (f : UtxoVM -> UtxoVM) (s : St) : St := set_utxo s (f (utxo s)).
Definition pool (f : P -> P) (s : St) : St := set_Mempool s (f (Mempool s)).
Definition batch_id (s : St) : nat := b_id (xbatch (xmodel s)).
Definition new_batch (s : St) : St := set_xmodel s (NewBatch (xmodel s)).

Definition clearBalanceCache (s : St) : St :=
  set_xmodel (up (fun u => set_balances u (NewLRUCache (CacheSize s)) ∅) s) (CleanCache (xmodel s)).
Definition ClearCache (s : St) : St :=
  clearBalanceCache (up (fun u => set_prevFound (set_uCache u (NewUtxoCache (CacheSize s))) (NewLRUCache (CacheSize s))) s).

(** [UpdateUtxoTotal]: the total is stored without its sign. *)
Definition UpdateUtxoTotal (delta : Z) (inc : bool) (s : St) : St :=
  let s := up (fun u => set_total u (if inc then utxoTotal u + delta else utxoTotal u - delta)%Z) s in
  put (PutTotal (SetBytes (Bytes (utxoTotal (utxo s))))) s.

(** ** Playing a transaction *)

Definition is_fee (out : TxOutput) : bool := bool_decide (ToAddr out = FeePlaceholder).
Definition input_utxo (txIn : TxInput) : string := GenUtxoKeyWithPrefix (FromAddr txIn) (ti_RefTxid txIn) (ti_RefOffset txIn).
Definition output_utxo (addr txid : string) (offset : nat) : string := GenUtxoKeyWithPrefix addr txid (wrap32 (Z.of_nat offset)).
Definition utxo_Insert (addr key : string) (item : UtxoItem) (u : UtxoVM) : UtxoVM := set_uCache u (cache_Insert (uCache u) addr key item).
Definition utxo_Remove (addr key : string) (u : UtxoVM) : UtxoVM := set_uCache u (cache_remove (uCache u) addr key).

(** The insertions a [CacheFiller] has collected. *)
Definition hooks : Type := list (string * string * UtxoItem).
Definition Commit (hs : hooks) (s : St) : St := foldl (fun s '(addr, key, item) => up (utxo_Insert addr key item) s) s hs.

Definition spend_input (txIn : TxInput) (s : St) : St :=
  let key := input_utxo txIn in
  let s := put (DelUtxo key) s in
  let s := up (utxo_Remove (FromAddr txIn) key) s in
  let s := up (SubBalance (FromAddr txIn) (SetBytes (ti_Amount txIn))) s in
  up (RemoveBatchCache key) s.

(** The output [offset]; the insertion into the cache is left to the filler, if
    there is one. *)
Definition create_output (txid : string) (coinbase filler : bool) (offset : nat) (out : TxOutput) (s : St) : hooks * St :=
  let addr := ToAddr out in
  let key := output_utxo addr txid offset in
  let amount := SetBytes (to_Amount out) in
  if is_fee out || (amount =? 0)%Z then ([], s)
  else
    let item := mkItem amount (to_FrozenHeight out) in
    let s := put (PutUtxo key item) s in
    let s := if filler then s else up (utxo_Insert addr key item) s in
    let s := up (AddBalance addr amount) s in
    let s := if coinbase then UpdateUtxoTotal amount true s else s in
    (if filler then [(addr, key, item)] else [], up (InsertBatchCache key item) s).

Fixpoint create_outputs (txid : string) (coinbase filler : bool) (offset : nat) (outs : list TxOutput) (s : St) : hooks * St :=
  match outs with
  | [] => ([], s)
  | out :: outs =>
      let (h, s) := create_output txid coinbase filler offset out s in
      let (hs, s) := create_outputs txid coinbase filler (S offset) outs s in (h ++ hs, s)
  end.

Definition marked (tx : Transaction) : bool := match ModifyBlock tx with Some m => Marked m | None => false end.

Definition check_amounts (tx : Transaction) (s : St) : outcome unit :=
  if marked tx then Ret tt
  else CheckInputEqualOutput (utxoTable (db (xmodel s))) (TrunkHeight (meta (ledger (xmodel s)))) (batch_id s) (utxo s) tx.

Definition doTxInternal (tx : Transaction) (filler : bool) : M St hooks := fun s =>
  let s := up (CleanBatchCache (batch_id s)) s in
  match check_amounts tx s with
  | Err e => (Err e, s)
  | Panic => (Panic, s)
  | Ret _ =>
      match on_xmodel (XModel_DoTx tx) s with
      | (Err _, s) => (Err ErrRWSetInvalid, s)
      | (Panic, s) => (Panic, s)
      | (Ret _, s) =>
          let s := foldl (fun s txIn => spend_input txIn s) s (TxInputs tx) in
          let (hs, s) := create_outputs (Txid tx) (Coinbase tx) filler 0 (TxOutputs tx) s in (Ret hs, s)
      end
  end.

(** The outputs to the placeholder go to the proposer of the block. *)
Definition pay_output (txid proposer : string) (offset : nat) (out : TxOutput) (s : St) : St :=
  if is_fee out then
    let key := output_utxo proposer txid offset in
    let item := mkItem (SetBytes (to_Amount out)) 0 in
    let s := put (PutUtxo key item) s in
    let s := up (AddBalance proposer (Amount item)) s in
    up (utxo_Insert proposer key item) s
  else s.

Fixpoint pay_outputs (txid proposer : string) (offset : nat) (outs : list TxOutput) (s : St) : St :=
  match outs with
  | [] => s
  | out :: outs => pay_outputs txid proposer (S offset) outs (pay_output txid proposer offset out s)
  end.
Definition payFee (tx : Transaction) (block : InternalBlock) (s : St) : St := pay_outputs (Txid tx) (Proposer block) 0 (TxOutputs tx) s.

(** ** Rolling a transaction back *)

Definition restore_input (txIn : TxInput) (s : St) : St :=
  let key := input_utxo txIn in
  let item := mkItem (SetBytes (ti_Amount txIn)) (ti_FrozenHeight txIn) in
  let s := up (utxo_Insert (FromAddr txIn) key item) s in
  let s := put (PutUtxo key item) s in
  let s := up (UnlockKey key) s in
  up (AddBalance (FromAddr txIn) (Amount item)) s.

Definition remove_output (txid : string) (coinbase : bool) (offset : nat) (out : TxOutput) (s : St) : St :=
  let amount := SetBytes (to_Amount out) in
  if is_fee out || (amount =? 0)%Z then s
  else
    let key := output_utxo (ToAddr out) txid offset in
    let s := put (DelUtxo key) s in
    let s := up (utxo_Remove (ToAddr out) key) s in
    let s := up (SubBalance (ToAddr out) amount) s in
    if coinbase then UpdateUtxoTotal amount false s else s.

Fixpoint remove_outputs (txid : string) (coinbase : bool) (offset : nat) (outs : list TxOutput) (s : St) : St :=
  match outs with
  | [] => s
  | out :: outs => remove_outputs txid coinbase (S offset) outs (remove_output txid coinbase offset out s)
  end.

Definition undoTxInternal (tx : Transaction) : M St unit := fun s =>
  match on_xmodel (XModel_UndoTx tx) s with
  | (Err _, s) => (Err ErrRWSetInvalid, s)
  | (Panic, s) => (Panic, s)
  | (Ret _, s) =>
      let s := foldl (fun s txIn => restore_input txIn s) s (TxInputs tx) in
      (Ret tt, remove_outputs (Txid tx) (Coinbase tx) 0 (TxOutputs tx) s)
  end.

Definition unpay_output (txid proposer : string) (offset : nat) (out : TxOutput) (s : St) : St :=
  if is_fee out then
    let key := output_utxo proposer txid offset in
    let s := put (DelUtxo key) s in
    let s := up (utxo_Remove proposer key) s in
    up (SubBalance proposer (SetBytes (to_Amount out))) s
  else s.

Fixpoint unpay_outputs (txid proposer : string) (offset : nat) (outs : list TxOutput) (s : St) : St :=
  match outs with
  | [] => s
  | out :: outs => unpay_outputs txid proposer (S offset) outs (unpay_output txid proposer offset out s)
  end.
Definition undoPayFee (tx : Transaction) (block : InternalBlock) (s : St) : St := unpay_outputs (Txid tx) (Proposer block) 0 (TxOutputs tx) s.

(** ** The irreversible height *)

Definition UpdateIrreversibleBlockHeight (next : Z) (s : St) : St :=
  let s := put (PutIrreversible next) s in
  set_MetaTmp s (mkUM next (IrreversibleSlideWindow (MetaTmp s))).

Definition UpdateNextIrreversibleBlockHeight (blockHeight curHeight window : Z) : M St unit := fun s =>
  if (window <? 0)%Z then (Err ErrProposalParamsIsNegativeNumber, s)
  else if (window =? 0)%Z then (Ret tt, s)
  else if (curHeight <? 0)%Z then (Err "curIrreversibleBlockHeight is less than 0", s)
  else
    let next := sub64 blockHeight window in
    if (next <=? curHeight)%Z then (Ret tt, s) else (Ret tt, UpdateIrreversibleBlockHeight next s).

Definition UpdateNextIrreversibleBlockHeightForPrune (blockHeight curHeight window : Z) : M St unit := fun s =>
  if (window <? 0)%Z then (Err ErrProposalParamsIsNegativeNumber, s)
  else if (window =? 0)%Z then (Ret tt, s)
  else if (curHeight <? 0)%Z then (Err "curIrreversibleBlockHeight is less than 0", s)
  else
    let next := sub64 blockHeight window in
    let next := if (next <=? 0)%Z then 0%Z else next in
    (Ret tt, UpdateIrreversibleBlockHeight next s).

Definition update_meta (s : St) : St := set_Meta s (MetaTmp s).

(** ** Blocks *)

(** The checks of [tx_verification.go] and whether the disk takes a batch. *)
Context (ImmediateVerifyTx : Transaction -> bool -> St -> bool).
Context (ImmediateVerifyAutoTx : Z -> Transaction -> bool -> St -> bool).
Context (verifyBlockTxs : InternalBlock -> bool -> gset string -> M St unit).
Context (write_ok : St -> bool).

Definition verifyAutogenTxValid (tx : Transaction) : bool :=
  Autogen tx && negb (bool_decide (TxInputsExt tx = []) && bool_decide (TxOutputsExt tx = [])).

(** [batch.Write]; a failure empties the caches. *)
Definition write_batch : M St unit := fun s =>
  if write_ok s then (Ret tt, set_xmodel s (WriteBatch (xmodel s))) else (Err ErrBatchWrite, ClearCache s).

Definition updateLatestBlockid (newBlockid : string) : M St unit :=
  do! on_ledger (QueryBlockHeader newBlockid) in
  do! on_state (put (PutPointer newBlockid)) in
  do! write_batch in
  on_state (fun s => set_latest s newBlockid).

Definition update_irreversible (blockHeight : Z) : M St unit := fun s =>
  UpdateNextIrreversibleBlockHeight blockHeight (IrreversibleBlockHeight (Meta s)) (IrreversibleSlideWindow (Meta s)) s.
Definition update_irreversible_prune (blockHeight : Z) : M St unit := fun s =>
  UpdateNextIrreversibleBlockHeightForPrune blockHeight (IrreversibleBlockHeight (Meta s)) (IrreversibleSlideWindow (Meta s)) s.

(** A transaction that the node has not run yet: play it, fill the cache. *)
Definition play_tx (tx : Transaction) : M St unit :=
  let! hs := doTxInternal tx true in on_state (Commit hs).

Definition verify_todo (height : Z) (tx : Transaction) : M St unit := fun s =>
  if verifyAutogenTxValid tx && negb (Coinbase tx) && negb (ImmediateVerifyAutoTx height tx false s)
  then (Err "immediate verify auto tx error", s)
  else if negb (Autogen tx) && negb (Coinbase tx) && negb (ImmediateVerifyTx tx false s)
  then (Err "immediate verify tx error", s)
  else (Ret tt, s).

Fixpoint todo_txs (block : InternalBlock) (txs : list Transaction) : M St unit :=
  match txs with
  | [] => mpure tt
  | tx :: txs =>
      do! verify_todo (Height block) tx in
      do! play_tx tx in
      do! on_state (payFee tx block) in
      todo_txs block txs
  end.

Definition todo_block (block : InternalBlock) : M St unit :=
  do! on_state new_batch in
  do! todo_txs block (Transactions block) in
  do! update_irreversible (Height block) in
  do! updateLatestBlockid (Blockid block) in
  on_state update_meta.

Fixpoint todo_blocks (blocks : list InternalBlock) : M St unit :=
  match blocks with [] => mpure tt | b :: bs => do! todo_block b in todo_blocks bs end.

(** The blocks are listed from the target down. *)
Definition procTodoBlkForWalk (todoBlocks : list InternalBlock) : M St unit := todo_blocks (rev todoBlocks).

(** From the last transaction of the block to the first ([txs] is reversed). *)
Fixpoint undo_txs (block : InternalBlock) (undoDone : gset string) (txs : list Transaction) : M St unit :=
  match txs with
  | [] => mpure tt
  | tx :: txs =>
      do! (if decide (Txid tx ∈ undoDone) then mpure tt
           else do! undoTxInternal tx in on_state (pool (mp_DeleteTxAndChildren (Txid tx)))) in
      do! on_state (undoPayFee tx block) in
      undo_txs block undoDone txs
  end.

Definition undo_block (undoDone : gset string) (ledgerPrune : bool) (block : InternalBlock) : M St unit := fun s =>
  if negb ledgerPrune && (Height block <=? IrreversibleBlockHeight (Meta s))%Z
  then (Err "block to be undo is older than irreversibleBlockHeight.", s)
  else
    (do! on_state new_batch in
     do! undo_txs block undoDone (rev (Transactions block)) in
     do! (if ledgerPrune then update_irreversible_prune (Height block) else mpure tt) in
     do! updateLatestBlockid (PreHash block) in
     on_state update_meta) s.

Fixpoint procUndoBlkForWalk (undoBlocks : list InternalBlock) (undoDone : gset string) (ledgerPrune : bool) : M St unit :=
  match undoBlocks with
  | [] => mpure tt
  | b :: bs => do! undo_block undoDone ledgerPrune b in procUndoBlkForWalk bs undoDone ledgerPrune
  end.

(** ** The unconfirmed transactions *)

Definition undoUnconfirmedTx (tx : Transaction) : M St unit :=
  do! undoTxInternal tx in on_state (put (DelUnconfirmed (Txid tx))).

(** Those of [txs] that were not undone before; with the order of undoing. *)
Fixpoint undo_unconfirmed (txs : list Transaction) (undoDone : gset string) (undoList : list Transaction)
    : M St (gset string * list Transaction) :=
  match txs with
  | [] => mpure (undoDone, undoList)
  | tx :: txs =>
      if decide (Txid tx ∈ undoDone) then undo_unconfirmed txs undoDone undoList
      else do! undoUnconfirmedTx tx in undo_unconfirmed txs ({[Txid tx]} ∪ undoDone) (undoList ++ [tx])
  end.

Definition delete_txs (txs : list Transaction) (p : P) : P := foldl (fun p tx => mp_DeleteTxAndChildren (Txid tx) p) p txs.

Definition RollBackUnconfirmedTx : M St (gset string * list Transaction) :=
  do! on_state new_batch in
  let! txs := (fun s => (Ret (rev (mp_Range (Mempool s))), s)) in
  let! done := undo_unconfirmed txs ∅ [] in
  do! write_batch in
  do! on_state (pool (delete_txs done.2)) in
  mpure done.

(** [Walk] up to its last step, which replays the transactions it returns. *)
Definition Walk (fuel : nat) (blockid : string) (ledgerPrune : bool) : M St (list Transaction) := fun s =>
  if bool_decide (blockid = latestBlockid s) then (Ret [], s)
  else
    match RollBackUnconfirmedTx s with
    | (Err _, s) => (Err "walk rollback unconfirm tx fail", s)
    | (Panic, s) => (Panic, s)
    | (Ret (undoDone, undoList), s) =>
        let s := clearBalanceCache s in
        match FindUndoAndTodoBlocks fuel (latestBlockid s) blockid (ledger (xmodel s)) with
        | Err _ => (Err "walk find common parent block fail", s)
        | Panic => (Panic, s)
        | Ret (undoBlocks, todoBlocks) =>
            match procUndoBlkForWalk undoBlocks undoDone ledgerPrune s with
            | (Err _, s) => (Err "walk undo block fail", s)
            | (Panic, s) => (Panic, s)
            | (Ret _, s) =>
                match procTodoBlkForWalk todoBlocks s with
                | (Err _, s) => (Err "walk todo block fail", s)
                | (Panic, s) => (Panic, s)
                | (Ret _, s) => (Ret undoList, s)
                end
            end
        end
    end.

(** ** A block received from the network *)

Fixpoint block_inputs (keys : gset string) (ins : list TxInput) : outcome (gset string) :=
  match ins with
  | [] => Ret keys
  | txIn :: ins => if decide (input_key txIn ∈ keys) then Err ErrUTXODuplicated else block_inputs ({[input_key txIn]} ∪ keys) ins
  end.

(** The transactions of the block the pool has, and those of the pool that
    conflict with the others. *)
Fixpoint scan_block (txs : list Transaction) (keys : gset string) (confirmed : gset string) (undoTxs : list Transaction)
    : M St (gset string * list Transaction) :=
  match txs with
  | [] => mpure (confirmed, undoTxs)
  | tx :: txs =>
      let! keys := mlift (block_inputs keys (TxInputs tx)) in
      fun s =>
        if mp_HasTx (Txid tx) (Mempool s)
        then scan_block txs keys ({[Txid tx]} ∪ confirmed) undoTxs (put (DelUnconfirmed (Txid tx)) s)
        else let (cs, p) := mp_FindConflictByTx tx (Mempool s) in scan_block txs keys confirmed (undoTxs ++ cs) (set_Mempool s p)
  end.

Fixpoint undo_conflicts (txs : list Transaction) (undoDone : gset string) : M St unit :=
  match txs with
  | [] => mpure tt
  | tx :: txs =>
      if decide (Txid tx ∈ undoDone) then undo_conflicts txs undoDone
      else
        do! on_state (put (DelUnconfirmed (Txid tx))) in
        do! undoUnconfirmedTx tx in
        undo_conflicts txs ({[Txid tx]} ∪ undoDone)
  end.

Definition processUnconfirmTxs (block : InternalBlock) : M St (list Transaction * gset string) := fun s =>
  if negb (bool_decide (PreHash block = latestBlockid s)) then (Err ErrPreBlockMissMatch, s)
  else
    (let! found := scan_block (Transactions block) ∅ ∅ [] in
     do! undo_conflicts found.2 ∅ in
     mpure (found.2, found.1)) s.

Fixpoint play_txs (block : InternalBlock) (confirmed : gset string) (txs : list Transaction) : M St unit :=
  match txs with
  | [] => mpure tt
  | tx :: txs =>
      do! (if decide (Txid tx ∈ confirmed) then mpure tt else play_tx tx) in
      do! on_state (payFee tx block) in
      play_txs block confirmed txs
  end.

Definition PlayAndRepost (blockid : string) (isRootTx : bool) : M St unit :=
  do! on_state new_batch in
  let! block := on_ledger (QueryBlock blockid) in
  let! found := processUnconfirmTxs block in
  let (undoTxs, unconfirmToConfirm) := (found : list Transaction * gset string) in
  do! verifyBlockTxs block isRootTx unconfirmToConfirm in
  do! play_txs block unconfirmToConfirm (Transactions block) in
  do! update_irreversible (Height block) in
  do! updateLatestBlockid (Blockid block) in
  do! on_state (pool (mp_BatchConfirmTxID (elements unconfirmToConfirm))) in
  do! on_state (pool (mp_BatchDeleteTx undoTxs)) in
  on_state update_meta.

Definition Play (blockid : string) : M St unit := PlayAndRepost blockid true.

(** ** A block of the node's own *)

Fixpoint miner_txs (block : InternalBlock) (txs : list Transaction) : M St unit :=
  match txs with
  | [] => mpure tt
  | tx :: txs =>
      do! (if Coinbase tx || Autogen tx then do! doTxInternal tx false in mpure tt else on_state (put (DelUnconfirmed (Txid tx)))) in
      do! on_state (payFee tx block) in
      miner_txs block txs
  end.

(** A failure of a transaction or of the pointer empties the balances. *)
Definition or_clear {A} (c : M St A) : M St A := fun s =>
  match c s with (Ret a, s) => (Ret a, s) | (Err e, s) => (Err e, clearBalanceCache s) | (Panic, s) => (Panic, s) end.

Definition PlayForMiner (blockid : string) : M St unit :=
  do! on_state new_batch in
  let! block := on_ledger (QueryBlock blockid) in
  fun s =>
    if negb (bool_decide (PreHash block = latestBlockid s)) then (Err ErrPreBlockMissMatch, s)
    else
      (do! or_clear (miner_txs block (Transactions block)) in
       do! update_irreversible (Height block) in
       do! or_clear (updateLatestBlockid (Blockid block)) in
       do! on_state (pool (mp_BatchConfirmTx (Transactions block))) in
       on_state update_meta) s.

(** ** Posting a transaction *)

(** Between [TryLock] and [Unlock]; other threads are the subject of [SpinLock]. *)
Definition post_locked (tx : Transaction) : M St unit := fun s =>
  if mp_HasTx (Txid tx) (Mempool s) then (Err ErrAlreadyInUnconfirmed, s)
  else if mp_Full (Mempool s) then (Err ErrMempoolIsFull, s)
  else
    (do! on_state new_batch in
     let! hs := doTxInternal tx true in
     fun s =>
       match mp_PutTx tx (Mempool s) with
       | (Panic, p) => (Panic, set_Mempool s p)
       | (Err e, p) =>
           if bool_decide (e = ErrTxExist) then
             (do! on_state (put (PutUnconfirmed (Txid tx) tx)) in do! write_batch in on_state (Commit hs)) (set_Mempool s p)
           else (do! undoTxInternal tx in mlift (Err e)) (set_Mempool s p)
       | (Ret _, p) => (do! on_state (put (PutUnconfirmed (Txid tx) tx)) in do! write_batch in on_state (Commit hs)) (set_Mempool s p)
       end) s.

Definition doTxSync (tx : Transaction) : M St unit := fun s =>
  let '(succ, ok, sp) := TryLock (ExtractLockKeys tx) (spLock s) in
  let s := set_spLock s sp in
  let (o, s) := if ok then post_locked tx s else (Err ErrDoubleSpent, s) in
  (o, set_spLock s (Unlock succ (spLock s))).

(** [recoverUnconfirmedTx], run in the background after a walk. *)
Fixpoint recover_txs (txs : list Transaction) : M St unit :=
  match txs with
  | [] => mpure tt
  | tx :: txs => fun s =>
      if Coinbase tx || Autogen tx then recover_txs txs s
      else
        match on_ledger (HasTransaction (Txid tx)) s with
        | (Ret true, s) => recover_txs txs s
        | (Ret false, s) => if ImmediateVerifyTx tx false s then let (o, s) := doTxSync tx s in
                              match o with Panic => (Panic, s) | _ => recover_txs txs s end
                            else recover_txs txs s
        | (Err _, s) => (Ret tt, s)
        | (Panic, s) => (Panic, s)
        end
  end.
Definition recoverUnconfirmedTx (undoList : list Transaction) : M St unit := recover_txs (rev undoList).
End State.
