(* ===== verification/StateSpec.v ===== *)
(** * The state machine: money, rolling back, irreversibility

    Theorems about [State]: playing a block conserves money, rolling it back
    restores the outputs and the versions, a walk never crosses the irreversible
    height. *)

From Stdlib Require Import ZArith Lia.
From stdpp Require Import base gmap strings list numbers sorting.
From S2P Require Import Prelude GoValues Sandbox LruCache LedgerHash Ledger XModel Utxo SpinLock State.

Set Default Proof Using "Type".

(** ** Tables of outputs *)

Notation Table := (gmap string UtxoItem).

Definition held (T : Table) : Z := map_fold (fun _ i acc => (Amount i + acc)%Z) 0%Z T.
Definition ins_all (l : list (string * UtxoItem)) (T : Table) : Table := foldl (fun T kv => <[kv.1 := kv.2]> T) T l.
Definition del_all (ks : list string) (T : Table) : Table := foldl (fun T k => delete k T) T ks.

Lemma held_insert T k i : T !! k = None -> held (<[k := i]> T) = (Amount i + held T)%Z.
Proof. intros H. unfold held. rewrite map_fold_insert_L; [done| |done]. intros. lia. Qed.

Lemma held_delete T k i : T !! k = Some i -> held (delete k T) = (held T - Amount i)%Z.
Proof. intros H. unfold held. rewrite (map_fold_delete_L _ _ k i T); [lia| |done]. intros. lia. Qed.

Lemma ins_all_lookup l : forall T k, NoDup l.*1 ->
  ins_all l T !! k = match (list_to_map l : Table) !! k with Some i => Some i | None => T !! k end.
Proof.
  unfold ins_all. induction l as [|[k' i'] l IH]; intros T k Hnd; cbn; [by rewrite lookup_empty|].
  cbn in Hnd. apply NoDup_cons in Hnd as [Hni Hnd]. rewrite IH by done. destruct (decide (k = k')) as [->|Hne].
  - rewrite !lookup_insert_eq. by rewrite not_elem_of_list_to_map_1.
  - by rewrite !lookup_insert_ne.
Qed.

Lemma ins_all_out l T k : k ∉ l.*1 -> ins_all l T !! k = T !! k.
Proof.
  unfold ins_all. revert T. induction l as [|[k' i'] l IH]; intros T Hk; [done|]. cbn in *. apply not_elem_of_cons in Hk as [? ?].
  rewrite IH by done. by rewrite lookup_insert_ne.
Qed.

Lemma ins_all_in l T k i : NoDup l.*1 -> (k, i) ∈ l -> ins_all l T !! k = Some i.
Proof. intros Hnd Hin. rewrite ins_all_lookup by done. apply elem_of_list_to_map in Hin; [|done]. by rewrite Hin. Qed.

Lemma del_all_lookup ks : forall T k, del_all ks T !! k = if decide (k ∈ ks) then None else T !! k.
Proof.
  unfold del_all. induction ks as [|x ks IH]; intros T k; [done|]. cbn [foldl]. rewrite IH.
  destruct (decide (k ∈ ks)), (decide (k ∈ x :: ks)) as [Hc|Hc]; rewrite elem_of_cons in Hc; try done; [naive_solver| |].
  - destruct Hc as [->|]; [by rewrite lookup_delete_eq|done].
  - rewrite lookup_delete_ne; [done|naive_solver].
Qed.

Lemma held_ins_all l : forall T, NoDup l.*1 -> (forall k, k ∈ l.*1 -> T !! k = None) ->
  held (ins_all l T) = (held T + zsum (fun kv => Amount kv.2) l)%Z.
Proof.
  unfold ins_all. induction l as [|[k i] l IH]; intros T Hnd Hf; cbn [foldl]; [cbn; lia|]. cbn in Hnd. apply NoDup_cons in Hnd as [Hni Hnd].
  rewrite IH, held_insert, zsum_cons; [cbn; lia|apply Hf; by left|done|]. intros k' Hk'. cbn.
  rewrite lookup_insert_ne; [apply Hf; by right|]. by intros ->.
Qed.

Lemma held_del_all ks : forall T items, NoDup ks -> Forall2 (fun k i => T !! k = Some i) ks items ->
  held (del_all ks T) = (held T - zsum Amount items)%Z.
Proof.
  unfold del_all. induction ks as [|k ks IH]; intros T items Hnd Hf; cbn [foldl].
  { apply Forall2_nil_inv_l in Hf as ->. cbn. lia. }
  apply NoDup_cons in Hnd as [Hni Hnd]. apply Forall2_cons_inv_l in Hf as (i & is_ & Hi & His & ->).
  rewrite (IH _ is_), (held_delete _ _ i), zsum_cons; [lia|done|done|]. apply Forall2_lookup. intros n.
  pose proof (proj1 (Forall2_lookup _ _ _) His n) as Hn. destruct (ks !! n) as [k'|] eqn:Ek; inversion Hn; subst; constructor.
  rewrite lookup_delete_ne; [done|]. intros ->. apply Hni. by eapply list_elem_of_lookup_2.
Qed.

(** ** The outputs a transaction makes *)

Fixpoint made (txid : string) (offset : nat) (outs : list TxOutput) : list (string * UtxoItem) :=
  match outs with
  | [] => []
  | out :: outs =>
      (if is_fee out || (SetBytes (to_Amount out) =? 0)%Z then []
       else [(output_utxo (ToAddr out) txid offset, mkItem (SetBytes (to_Amount out)) (to_FrozenHeight out))]) ++ made txid (S offset) outs
  end.

Fixpoint paid (txid proposer : string) (offset : nat) (outs : list TxOutput) : list (string * UtxoItem) :=
  match outs with
  | [] => []
  | out :: outs =>
      (if is_fee out then [(output_utxo proposer txid offset, mkItem (SetBytes (to_Amount out)) 0)] else []) ++ paid txid proposer (S offset) outs
  end.

(** A key that an output of [txid] from [offset] on may have. *)
Definition key_of (txid : string) (offset : nat) (key : string) : Prop :=
  exists addr n, (offset <= n)%nat /\ (Z.of_nat n <= int32_max)%Z /\ key = GenUtxoKeyWithPrefix addr txid (Z.of_nat n).

Definition small (offset : nat) (outs : list TxOutput) : Prop := (Z.of_nat (offset + length outs) <= int32_max + 1)%Z.

Lemma output_utxo_eq addr txid offset : (Z.of_nat offset <= int32_max)%Z -> output_utxo addr txid offset = GenUtxoKeyWithPrefix addr txid (Z.of_nat offset).
Proof. intros H. unfold output_utxo. rewrite wrap32_id; [done|]. unfold is_int32, int32_min, int32_max in *. lia. Qed.

Lemma small_cons offset out outs : small offset (out :: outs) -> (Z.of_nat offset <= int32_max)%Z /\ small (S offset) outs.
Proof. unfold small. cbn. lia. Qed.

Lemma made_keys txid outs : forall offset, small offset outs -> forall k, k ∈ (made txid offset outs).*1 -> key_of txid offset k.
Proof.
  induction outs as [|out outs IH]; intros offset Hs k; cbn; [by intros ?%elem_of_nil|]. apply small_cons in Hs as [Ho Hs].
  rewrite fmap_app, elem_of_app. intros [Hk|Hk].
  - destruct (is_fee out || _); [by apply elem_of_nil in Hk|]. cbn in Hk. apply list_elem_of_singleton in Hk as ->.
    exists (ToAddr out), offset. split_and!; [lia|done|by apply output_utxo_eq].
  - destruct (IH _ Hs _ Hk) as (a & n & ? & ? & ->). exists a, n. split_and!; [lia|done..].
Qed.

Lemma paid_keys txid proposer outs : forall offset, small offset outs -> forall k, k ∈ (paid txid proposer offset outs).*1 -> key_of txid offset k.
Proof.
  induction outs as [|out outs IH]; intros offset Hs k; cbn; [by intros ?%elem_of_nil|]. apply small_cons in Hs as [Ho Hs].
  rewrite fmap_app, elem_of_app. intros [Hk|Hk].
  - destruct (is_fee out); [|by apply elem_of_nil in Hk]. cbn in Hk. apply list_elem_of_singleton in Hk as ->.
    exists proposer, offset. split_and!; [lia|done|by apply output_utxo_eq].
  - destruct (IH _ Hs _ Hk) as (a & n & ? & ? & ->). exists a, n. split_and!; [lia|done..].
Qed.

Lemma offset_int64 n : (Z.of_nat n <= int32_max)%Z -> is_int64 (Z.of_nat n).
Proof. unfold is_int64, int64_min, int64_max, int32_max. lia. Qed.

Lemma key_of_inj txid n k addr : (Z.of_nat n <= int32_max)%Z -> key_of txid (S n) k -> k <> GenUtxoKeyWithPrefix addr txid (Z.of_nat n).
Proof. intros Hn (a & m & Hm & Hl & ->) E. apply GenUtxoKey_inj in E as [_ E]; [lia|by apply offset_int64..]. Qed.

Lemma made_paid_NoDup txid proposer outs : forall offset, small offset outs ->
  NoDup (made txid offset outs ++ paid txid proposer offset outs).*1.
Proof.
  induction outs as [|out outs IH]; intros offset Hs; [constructor|]. pose proof Hs as Hs'. apply small_cons in Hs as [Ho Hs].
  specialize (IH _ Hs). cbn [made paid]. rewrite !fmap_app in *.
  assert (forall addr k, k ∈ (made txid (S offset) outs).*1 ++ (paid txid proposer (S offset) outs).*1 ->
    k <> output_utxo addr txid offset) as Hne.
  { intros addr k [Hk|Hk]%elem_of_app; rewrite output_utxo_eq by done; apply key_of_inj; try done; [by apply made_keys in Hk|by apply paid_keys in Hk]. }
  destruct (is_fee out); cbn [orb]; [|destruct (_ =? 0)%Z].
  - cbn. rewrite (Permutation_app_comm _ (_ :: _)). cbn. rewrite (Permutation_app_comm (paid _ _ _ _).*1). constructor; [|done].
    intros Hin. by apply (Hne proposer) in Hin.
  - done.
  - cbn. constructor; [|done]. intros Hin. by apply (Hne (ToAddr out)) in Hin.
Qed.

Lemma made_paid_sum txid proposer outs : forall offset,
  (zsum (fun kv => Amount kv.2) (made txid offset outs) + zsum (fun kv => Amount kv.2) (paid txid proposer offset outs) = zsum out_amount outs)%Z.
Proof.
  induction outs as [|out outs IH]; intros offset; [done|]. cbn [made paid]. rewrite !zsum_app, zsum_cons, <- (IH (S offset)). unfold out_amount at 1.
  destruct (is_fee out); cbn [orb]; [|destruct (Z.eqb_spec (SetBytes (to_Amount out)) 0) as [->|]]; cbn; lia.
Qed.

(** No output of the transaction is in the table yet. *)
Definition fresh (T : Table) (txid : string) : Prop := forall k, key_of txid 0 k -> T !! k = None.

Lemma string_app_inj_r (a b c : string) : a +:+ c = b +:+ c -> a = b.
Proof.
  intros E. pose proof (f_equal String.length E) as El. rewrite !string_length_app in El.
  assert (String.length a = String.length b) as Hl by lia. clear El. revert b E Hl.
  induction a as [|x a IH]; intros [|y b] E Hl; try done. rewrite !app_String in E. injection E as -> E. by rewrite (IH b); [|done|injection Hl].
Qed.

(** The key of an output tells its address. *)
Lemma GenUtxoKey_addr a1 t1 o1 a2 t2 o2 :
  is_int64 o1 -> is_int64 o2 -> GenUtxoKeyWithPrefix a1 t1 o1 = GenUtxoKeyWithPrefix a2 t2 o2 -> a1 = a2.
Proof.
  intros H1 H2 E. destruct (GenUtxoKey_inj _ _ _ _ _ _ H1 H2 E) as [-> ->]. unfold GenUtxoKeyWithPrefix, GenUtxoKey in E.
  apply (inj _) in E. by eapply string_app_inj_r.
Qed.

(** ** The versions do not notice the outputs *)

Definition utxo_op (op : state_op) : bool :=
  match op with PutUtxo _ _ | DelUtxo _ | PutTotal _ | PutPointer _ | PutIrreversible _ => true | _ => false end.

(** A step that only writes outputs, totals or pointers. *)
Record quiet (x x' : XModel) : Prop := {
  qt_ok : xstate_ok x -> xstate_ok x';
  qt_sees : sees x x';
  qt_slot : forall raw, slot (pending x') raw = slot (pending x) raw;
  qt_db : db x' = db x;
  qt_id : b_id (xbatch x') = b_id (xbatch x);
  qt_blocks : blocksTable (ledger x') = blocksTable (ledger x)
}.

#[global] Instance quiet_preorder : PreOrder quiet.
Proof.
  split; [done|]. intros x y z [H1 H2 H3 H4 H5 H6] [K1 K2 K3 K4 K5 K6]. split; [auto|by etrans|intros raw; by rewrite K3|congruence..].
Qed.

Lemma quiet_emit op x : utxo_op op = true -> quiet x (emit op x).
Proof.
  intros Hop. assert (forall raw, slot (pending (emit op x)) raw = slot (pending x) raw) as Hslot.
  { intros raw. rewrite slot_emit. by destruct op. }
  split; try done. intros [Hok Hr Hv Hf Hu]. split.
  - by eapply xm_ok_frame.
  - destruct Hr as [[Hl Hc]|[Hl Hc]]; [left; split; [done|]|right; split; [done|]]; intros raw.
    + unfold view. rewrite Hslot. apply Hc.
    + by rewrite Hslot.
  - intros raw. rewrite Hslot. split; apply (sees_slot_ok x); try done; apply Hv.
  - done.
  - rewrite pending_emit. change (db (emit op x)) with (db x). rewrite <- Hu. by destruct (pending x), op.
Qed.

Section Spec.
Context {P : Type} `{MempoolOps P}.
Implicit Types s t : State P.

Definition table s : Table := utxoTable (pending (xmodel s)).
Definition stored s : Table := utxoTable (db (xmodel s)).

(** ** The caches agree with the batch *)

(** [spent]: the keys deleted in the batch under construction. *)
Record coh s (spent : gset string) : Prop := {
  co_cache : forall a k i, cache_find (uCache (utxo s)) a k = Some i ->
    table s !! k = Some i /\ exists txid o, is_int64 o /\ k = GenUtxoKeyWithPrefix a txid o;
  co_batch : uLastBatch (utxo s) = Some (batch_id s) -> forall k i, uBatchCache (utxo s) !! k = Some i -> table s !! k = Some i;
  co_stored : forall k i, stored s !! k = Some i -> k ∈ spent \/ table s !! k = Some i;
  co_amount : forall k i, table s !! k = Some i -> (0 <= Amount i)%Z;
  co_last : forall n, uLastBatch (utxo s) = Some n -> (n <= batch_id s)%nat
}.

Lemma table_put op s : table (put op s) = utxoTable (db_op (pending (xmodel s)) op).
Proof. unfold table, put. cbn [xmodel set_xmodel]. by rewrite pending_emit. Qed.

Lemma table_PutUtxo k i s : table (put (PutUtxo k i) s) = <[k := i]> (table s).
Proof. rewrite table_put. unfold table. by destruct (pending (xmodel s)). Qed.
Lemma table_DelUtxo k s : table (put (DelUtxo k) s) = delete k (table s).
Proof. rewrite table_put. unfold table. by destruct (pending (xmodel s)). Qed.
Lemma table_PutTotal z s : table (put (PutTotal z) s) = table s.
Proof. rewrite table_put. unfold table. by destruct (pending (xmodel s)). Qed.
Lemma table_up f s : table (up f s) = table s.
Proof. done. Qed.

Lemma change_balance_frame addr d u :
  uCache (change_balance addr d u) = uCache u /\ uBatchCache (change_balance addr d u) = uBatchCache u /\
  uLastBatch (change_balance addr d u) = uLastBatch u /\ utxoTotal (change_balance addr d u) = utxoTotal u.
Proof. unfold change_balance. by destruct (Get (BalanceCache u) addr) as [[b|] c]. Qed.

(** What a step on the outputs does: the table, the total, nothing else. *)
Definition meta_of s : UtxoMeta * UtxoMeta * string := (Meta s, MetaTmp s, latestBlockid s).

Record moves s s' (T : Table) (total : Z) : Prop := {
  mv_table : table s' = T;
  mv_total : utxoTotal (utxo s') = total;
  mv_quiet : quiet (xmodel s) (xmodel s');
  mv_meta : meta_of s' = meta_of s
}.

Lemma spend_input_utxo txIn s :
  let s' := spend_input txIn s in
  uCache (utxo s') = cache_remove (uCache (utxo s)) (FromAddr txIn) (input_utxo txIn) /\
  uBatchCache (utxo s') = delete (input_utxo txIn) (uBatchCache (utxo s)) /\
  uLastBatch (utxo s') = uLastBatch (utxo s) /\ utxoTotal (utxo s') = utxoTotal (utxo s) /\
  table s' = delete (input_utxo txIn) (table s) /\ quiet (xmodel s) (xmodel s').
Proof.
  destruct (change_balance_frame (FromAddr txIn) (- SetBytes (ti_Amount txIn)) (utxo_Remove (FromAddr txIn) (input_utxo txIn) (utxo s)))
    as (E1 & E2 & E3 & E4).
  split_and!; cbn; unfold SubBalance; rewrite ?E1, ?E2, ?E3, ?E4; try done.
  - unfold spend_input. rewrite !table_up. apply table_DelUtxo.
  - by apply quiet_emit.
Qed.

(** Deleting the output [k] of address [a]. *)
Lemma coh_delete s s' spent a k txid o :
  is_int64 o -> k = GenUtxoKeyWithPrefix a txid o -> coh s spent ->
  uCache (utxo s') = cache_remove (uCache (utxo s)) a k -> uBatchCache (utxo s') = delete k (uBatchCache (utxo s)) ->
  uLastBatch (utxo s') = uLastBatch (utxo s) -> table s' = delete k (table s) -> quiet (xmodel s) (xmodel s') ->
  coh s' ({[k]} ∪ spent).
Proof.
  intros Ho Ek [Hc Hb Hst Ha Hlast] E1 E2 E3 ET Hq. split.
  - intros a' k' i. rewrite E1. intros [Hf Hne]%cache_remove_find. destruct (Hc _ _ _ Hf) as [Hk (txid' & o' & Ho' & Ek')]. rewrite ET.
    split; [|by exists txid', o']. rewrite lookup_delete_ne; [done|]. intros E. apply Hne. rewrite <- E in Ek' |- *. f_equal.
    rewrite Ek in Ek'. symmetry. exact (GenUtxoKey_addr _ _ _ _ _ _ Ho Ho' Ek').
  - rewrite E2, E3, ET. unfold batch_id. rewrite (qt_id _ _ Hq). intros Hl k' i [Hne Hk]%lookup_delete_Some.
    rewrite lookup_delete_ne by done. by apply Hb.
  - intros k' i. unfold stored. rewrite (qt_db _ _ Hq), ET. intros Hk. destruct (decide (k' = k)) as [->|Hne]; [left; set_solver|].
    rewrite lookup_delete_ne by done. destruct (Hst k' i Hk); [left; set_solver|by right].
  - intros k' i. rewrite ET. intros [_ Hk]%lookup_delete_Some. by eapply Ha.
  - rewrite E3. unfold batch_id. by rewrite (qt_id _ _ Hq).
Qed.

Lemma spend_inputs_spec ins : forall s spent,
  Forall (fun i => is_int64 (ti_RefOffset i)) ins -> coh s spent ->
  let s' := foldl (fun s txIn => spend_input txIn s) s ins in
  coh s' (list_to_set (input_utxo <$> ins) ∪ spent) /\ moves s s' (del_all (input_utxo <$> ins) (table s)) (utxoTotal (utxo s)) /\
  uLastBatch (utxo s') = uLastBatch (utxo s).
Proof.
  induction ins as [|txIn ins IH]; intros s spent Hi Hc; cbn [foldl fmap list_fmap list_to_set].
  { split_and!; [by rewrite (left_id_L ∅ (∪))|by split|done]. }
  apply Forall_cons in Hi as [Ho Hi]. destruct (spend_input_utxo txIn s) as (E1 & E2 & E3 & E4 & E5 & Hq).
  pose proof (coh_delete _ _ _ _ _ _ _ Ho eq_refl Hc E1 E2 E3 E5 Hq) as Hc1.
  destruct (IH _ _ Hi Hc1) as (Hc2 & [F1 F2 F3 F5] & F4). split_and!.
  - replace (_ ∪ spent) with (list_to_set (input_utxo <$> ins) ∪ ({[input_utxo txIn]} ∪ spent)) by set_solver. done.
  - split; [by rewrite F1, E5|by rewrite F2|by etrans|by rewrite F5].
  - by rewrite F4.
Qed.

(** Adding an output to the table, and to the cache or not. *)
Lemma coh_insert s s' spent k i :
  coh s spent -> (0 <= Amount i)%Z -> table s !! k = None ->
  (forall a' k' j, cache_find (uCache (utxo s')) a' k' = Some j -> cache_find (uCache (utxo s)) a' k' = Some j \/
     (k' = k /\ j = i /\ exists txid o, is_int64 o /\ k = GenUtxoKeyWithPrefix a' txid o)) ->
  (uBatchCache (utxo s') = uBatchCache (utxo s) \/ uBatchCache (utxo s') = <[k := i]> (uBatchCache (utxo s))) ->
  uLastBatch (utxo s') = uLastBatch (utxo s) -> table s' = <[k := i]> (table s) -> quiet (xmodel s) (xmodel s') ->
  coh s' spent.
Proof.
  intros [Hc Hb Hst Ha Hlast] Hi Hk Hcache Hbatch E3 ET Hq.
  assert (forall k' j, table s !! k' = Some j -> table s' !! k' = Some j) as Hkeep.
  { intros k' j Hk'. rewrite ET, lookup_insert_ne; [done|]. intros <-. congruence. }
  split.
  - intros a' k' j [Hf|(-> & -> & Hkey)]%Hcache.
    + destruct (Hc _ _ _ Hf) as [Hk' Hkey]. auto.
    + split; [by rewrite ET, lookup_insert_eq|done].
  - rewrite E3. unfold batch_id. rewrite (qt_id _ _ Hq). intros Hl k' j Hk'. destruct Hbatch as [E|E]; rewrite E in Hk'.
    + by apply Hkeep, Hb.
    + apply lookup_insert_Some in Hk' as [[<- <-]|[Hne Hk']]; [by rewrite ET, lookup_insert_eq|by apply Hkeep, Hb].
  - intros k' j. unfold stored. rewrite (qt_db _ _ Hq). intros [?|Hk']%Hst; auto.
  - intros k' j. rewrite ET. intros [[<- <-]|[_ Hk']]%lookup_insert_Some; [done|by eapply Ha].
  - rewrite E3. unfold batch_id. by rewrite (qt_id _ _ Hq).
Qed.

(** An insertion into the cache of an output of the table. *)
Lemma utxo_Insert_spec s spent a k i txid o :
  coh s spent -> table s !! k = Some i -> is_int64 o -> k = GenUtxoKeyWithPrefix a txid o ->
  coh (up (utxo_Insert a k i) s) spent.
Proof.
  intros [Hc Hb Hst Ha Hlast] Hk Ho Ek. split; try done. intros a' k' j [(-> & -> & ->)|[_ Hf]]%cache_Insert_find; [|by apply Hc].
  split; [done|]. by exists txid, o.
Qed.

(** One output made. *)
Lemma create_output_utxo txid coinbase filler offset out s h s' :
  is_fee out || (SetBytes (to_Amount out) =? 0)%Z = false ->
  create_output txid coinbase filler offset out s = (h, s') ->
  let k := output_utxo (ToAddr out) txid offset in
  let i := mkItem (SetBytes (to_Amount out)) (to_FrozenHeight out) in
  (uCache (utxo s') = if filler then uCache (utxo s) else cache_Insert (uCache (utxo s)) (ToAddr out) k i) /\
  uBatchCache (utxo s') = <[k := i]> (uBatchCache (utxo s)) /\ uLastBatch (utxo s') = uLastBatch (utxo s) /\
  utxoTotal (utxo s') = (utxoTotal (utxo s) + if coinbase then Amount i else 0)%Z /\
  table s' = <[k := i]> (table s) /\ quiet (xmodel s) (xmodel s') /\ h = (if filler then [(ToAddr out, k, i)] else []) /\ meta_of s' = meta_of s.
Proof.
  intros Hs. unfold create_output. rewrite Hs. set (k := output_utxo _ _ _). set (i := mkItem _ _). intros [= <- <-]. cbv zeta.
  set (s1 := if filler then put (PutUtxo k i) s else up (utxo_Insert (ToAddr out) k i) (put (PutUtxo k i) s)).
  assert (table s1 = <[k := i]> (table s) /\ quiet (xmodel s) (xmodel s1) /\ uBatchCache (utxo s1) = uBatchCache (utxo s) /\
    uLastBatch (utxo s1) = uLastBatch (utxo s) /\ utxoTotal (utxo s1) = utxoTotal (utxo s) /\
    uCache (utxo s1) = (if filler then uCache (utxo s) else cache_Insert (uCache (utxo s)) (ToAddr out) k i) /\ meta_of s1 = meta_of s) as (T1 & Q1 & B1 & L1 & V1 & C1 & M1).
  { subst s1. destruct filler; split_and!; rewrite ?table_up; try done; first [apply table_PutUtxo|by apply quiet_emit]. }
  clearbody s1. destruct (change_balance_frame (ToAddr out) (Amount i) (utxo s1)) as (E1 & E2 & E3 & E4).
  set (s2 := up (AddBalance (ToAddr out) (SetBytes (to_Amount out))) s1).
  assert (table s2 = table s1 /\ xmodel s2 = xmodel s1 /\ uBatchCache (utxo s2) = uBatchCache (utxo s1) /\
    uLastBatch (utxo s2) = uLastBatch (utxo s1) /\ utxoTotal (utxo s2) = utxoTotal (utxo s1) /\ uCache (utxo s2) = uCache (utxo s1) /\ meta_of s2 = meta_of s1) as (T2 & X2 & B2 & L2 & V2 & C2 & M2).
  { subst s2. split_and!; try done. }
  clearbody s2. destruct coinbase; cbn; rewrite ?B2, ?L2, ?V2, ?C2, ?B1, ?L1, ?V1, ?C1; split_and!; try done.
  - rewrite table_up. unfold UpdateUtxoTotal. cbn zeta. rewrite table_PutTotal, table_up. congruence.
  - etrans; [exact Q1|]. rewrite <- X2. by apply quiet_emit.
  - rewrite <- M1, <- M2. done.
  - lia.
  - rewrite table_up. congruence.
  - by rewrite X2.
  - rewrite <- M1, <- M2. done.
Qed.

Definition unused s (txid : string) (offset : nat) : Prop := forall k, key_of txid offset k -> table s !! k = None.

Lemma unused_next s s' txid offset a i :
  (Z.of_nat offset <= int32_max)%Z -> unused s txid offset -> table s' = <[output_utxo a txid offset := i]> (table s) -> unused s' txid (S offset).
Proof.
  intros Ho Hu ET k Hk. rewrite ET, lookup_insert_ne.
  - apply Hu. destruct Hk as (b & n & ? & ? & ->). exists b, n. split_and!; [lia|done..].
  - rewrite output_utxo_eq by done. intros E. by apply (key_of_inj _ _ _ a Ho) in Hk.
Qed.

Lemma unused_skip s txid offset : unused s txid offset -> unused s txid (S offset).
Proof. intros Hu k (b & n & ? & ? & ->). apply Hu. exists b, n. split_and!; [lia|done..]. Qed.

Lemma output_key_of txid offset a : (Z.of_nat offset <= int32_max)%Z -> key_of txid offset (output_utxo a txid offset).
Proof. intros Ho. exists a, offset. split_and!; [lia|done|by apply output_utxo_eq]. Qed.

Definition hook_ok (T : Table) (h : string * string * UtxoItem) : Prop :=
  T !! h.1.2 = Some h.2 /\ exists txid o, is_int64 o /\ h.1.2 = GenUtxoKeyWithPrefix h.1.1 txid o.

Lemma create_outputs_spec txid coinbase filler outs : forall offset s spent hs s',
  small offset outs -> unused s txid offset -> coh s spent ->
  create_outputs txid coinbase filler offset outs s = (hs, s') ->
  coh s' spent /\ uLastBatch (utxo s') = uLastBatch (utxo s) /\ Forall (hook_ok (table s')) hs /\
  moves s s' (ins_all (made txid offset outs) (table s))
    (utxoTotal (utxo s) + if coinbase then zsum (fun kv => Amount kv.2) (made txid offset outs) else 0).
Proof.
  induction outs as [|out outs IH]; intros offset s spent hs s' Hs Hu Hc; cbn [create_outputs made].
  { intros [= <- <-]. split_and!; try done. split; try done. destruct coinbase; cbn; lia. }
  pose proof Hs as Hs0. apply small_cons in Hs as [Ho Hs]. destruct (create_output txid coinbase filler offset out s) as [h s1] eqn:E1.
  destruct (create_outputs txid coinbase filler (S offset) outs s1) as [hs2 s2] eqn:E2. intros [= <- <-].
  destruct (is_fee out || (SetBytes (to_Amount out) =? 0)%Z) eqn:Hskip.
  { unfold create_output in E1. rewrite Hskip in E1. injection E1 as <- <-. by apply (IH _ _ _ _ _ Hs (unused_skip _ _ _ Hu) Hc) in E2. }
  destruct (create_output_utxo _ _ _ _ _ _ _ _ Hskip E1) as (C1 & B1 & L1 & V1 & T1 & Q1 & -> & M1). set (k := output_utxo _ _ _) in *. set (i := mkItem _ _) in *.
  assert (k = GenUtxoKeyWithPrefix (ToAddr out) txid (Z.of_nat offset)) as Ek by (by apply output_utxo_eq).
  assert (coh s1 spent) as Hc1.
  { apply (coh_insert s s1 spent k i Hc); try done; [apply SetBytes_nonneg|by apply Hu, output_key_of| |by right].
    intros a' k' j. rewrite C1. destruct filler; [by left|]. intros [(-> & -> & ->)|[_ ?]]%cache_Insert_find; [right|by left].
    split_and!; [done..|]. exists txid, (Z.of_nat offset). split; [by apply offset_int64|done]. }
  destruct (IH _ _ _ _ _ Hs (unused_next _ _ _ _ _ _ Ho Hu T1) Hc1 E2) as (Hc2 & L2 & Hh & [T2 V2 Q2 M2]).
  assert (table s2 !! k = Some i) as Hki.
  { rewrite T2, ins_all_out; [by rewrite T1, lookup_insert_eq|]. intros Hk%made_keys; [|done]. by apply (key_of_inj _ _ _ (ToAddr out) Ho) in Hk. }
  split_and!; [done|congruence| |].
  - apply Forall_app. split; [|done]. destruct filler; [|constructor]. constructor; [|constructor]. split; [done|].
    exists txid, (Z.of_nat offset). split; [by apply offset_int64|done].
  - split; [by rewrite T2, T1| |by etrans|by rewrite M2]. rewrite V2, V1, zsum_app, zsum_cons. destruct coinbase; cbn; lia.
Qed.

Lemma Commit_spec hs : forall s spent, coh s spent -> Forall (hook_ok (table s)) hs ->
  coh (Commit hs s) spent /\ moves s (Commit hs s) (table s) (utxoTotal (utxo s)) /\ uLastBatch (utxo (Commit hs s)) = uLastBatch (utxo s).
Proof.
  induction hs as [|[[a k] i] hs IH]; intros s spent Hc Hh; [by split_and!|]. apply Forall_cons in Hh as [(Hk & txid & o & Ho & Ek) Hh].
  unfold Commit. cbn [foldl]. destruct (IH (up (utxo_Insert a k i) s) spent) as (Hc' & [M1 M2 M3 M4] & L); [by eapply utxo_Insert_spec|done|].
  split_and!; [done|by split|done].
Qed.

Lemma pay_outputs_spec txid proposer outs : forall offset s spent,
  small offset outs -> (forall k, k ∈ (paid txid proposer offset outs).*1 -> table s !! k = None) -> coh s spent ->
  let s' := pay_outputs txid proposer offset outs s in
  coh s' spent /\ uLastBatch (utxo s') = uLastBatch (utxo s) /\
  moves s s' (ins_all (paid txid proposer offset outs) (table s)) (utxoTotal (utxo s)).
Proof.
  induction outs as [|out outs IH]; intros offset s spent Hs Hu Hc; cbn [pay_outputs paid]; [by split_and!|].
  pose proof Hs as Hs0. apply small_cons in Hs as [Ho Hs]. unfold pay_output. cbn [paid] in Hu. destruct (is_fee out) eqn:Ef; [|by apply IH].
  set (k := output_utxo proposer txid offset) in *. set (i := mkItem _ _) in *.
  assert (k = GenUtxoKeyWithPrefix proposer txid (Z.of_nat offset)) as Ek by (by apply output_utxo_eq).
  destruct (change_balance_frame proposer (Amount i) (utxo s)) as (E1 & E2 & E3 & E4).
  set (s1 := up (utxo_Insert proposer k i) _).
  assert (table s1 = <[k := i]> (table s)) as T1 by (subst s1; rewrite !table_up; apply table_PutUtxo).
  assert (quiet (xmodel s) (xmodel s1)) as Q1 by (by apply quiet_emit).
  assert (uCache (utxo s1) = cache_Insert (uCache (utxo s)) proposer k i /\ uBatchCache (utxo s1) = uBatchCache (utxo s) /\
    uLastBatch (utxo s1) = uLastBatch (utxo s) /\ utxoTotal (utxo s1) = utxoTotal (utxo s) /\ meta_of s1 = meta_of s) as (C1 & B1 & L1 & V1 & M1).
  { subst s1. cbn. unfold AddBalance. cbn in E1, E2, E3, E4. rewrite E1, E2, E3, E4. done. }
  clearbody s1. assert (coh s1 spent) as Hc1.
  { apply (coh_insert s s1 spent k i Hc); try done; [apply SetBytes_nonneg|apply Hu; by left| |by left].
    intros a' k' j. rewrite C1. intros [(-> & -> & ->)|[_ ?]]%cache_Insert_find; [right|by left].
    split_and!; [done..|]. exists txid, (Z.of_nat offset). split; [by apply offset_int64|done]. }
  destruct (IH (S offset) s1 spent Hs) as (Hc2 & L2 & [T2 V2 Q2 M2]); [|done|].
  { intros k' Hk'. rewrite T1, lookup_insert_ne; [apply Hu; by right|]. rewrite Ek. intros E. apply paid_keys in Hk'; [|done].
    by apply (key_of_inj _ _ _ proposer Ho) in Hk'. }
  split_and!; [done|congruence|]. split; [by rewrite T2, T1|congruence|by etrans|by rewrite M2].
Qed.

(** ** A transaction of a block *)

(** The shape of a transaction: its offsets are those of the wire format, it is
    not marked as modified, and one that issues money spends none and pays no fee. *)
Record plain_tx (tx : Transaction) : Prop := {
  pt_marked : marked tx = false;
  pt_offsets : Forall (fun i => is_int64 (ti_RefOffset i)) (TxInputs tx);
  pt_small : small 0 (TxOutputs tx);
  pt_coinbase : Coinbase tx = true -> TxInputs tx = [] /\ Forall (fun o => is_fee o = false) (TxOutputs tx)
}.

Definition input_keys (tx : Transaction) : list string := input_utxo <$> TxInputs tx.

(** The item an input spends. *)
Definition spends (T : Table) (txIn : TxInput) (i : UtxoItem) : Prop :=
  T !! input_utxo txIn = Some i /\ Bytes (Amount i) = ti_Amount txIn.

Definition issued (tx : Transaction) : Z := if Coinbase tx then zsum (fun kv => Amount kv.2) (made (Txid tx) 0 (TxOutputs tx)) else 0%Z.

Lemma coh_clean s spent : coh s spent -> coh (up (CleanBatchCache (batch_id s)) s) spent.
Proof.
  intros [Hc Hb Hst Ha Hlast]. unfold up, CleanBatchCache. case_decide as E.
  - by split.
  - split; try done. cbn. by intros n [= <-].
Qed.

Lemma coh_frames s s' spent :
  coh s spent -> utxo s' = utxo s -> frames (xmodel s) (xmodel s') -> coh s' spent.
Proof.
  intros [Hc Hb Hst Ha Hlast] Eu [E1 E2 E3 _]. assert (table s' = table s) as ET by done. assert (stored s' = stored s) as ES by (unfold stored; by rewrite E1).
  split; rewrite ?Eu, ?ET, ?ES; try done; unfold batch_id; rewrite E2; done.
Qed.

Lemma find_utxo_table s spent addr key i :
  coh s spent -> uLastBatch (utxo s) = Some (batch_id s) -> UTXOTablePrefix +:+ key ∉ spent ->
  find_utxo (stored s) (batch_id s) (utxo s) addr key = Some i -> table s !! (UTXOTablePrefix +:+ key) = Some i.
Proof.
  intros [Hc Hb Hst Ha Hlast] Hl Hni. unfold find_utxo. destruct (cache_find _ addr _) as [j|] eqn:Ef; [intros [= <-]; by eapply Hc|].
  rewrite decide_True by done. destruct (uBatchCache (utxo s) !! _) as [j|] eqn:Eb; [intros [= <-]; by eapply Hb|].
  intros [?|?]%Hst; done.
Qed.

Lemma check_amounts_spec s spent tx :
  coh s spent -> uLastBatch (utxo s) = Some (batch_id s) -> plain_tx tx -> (forall k, k ∈ input_keys tx -> k ∉ spent) ->
  check_amounts tx s = Ret tt ->
  exists items, Forall2 (spends (table s)) (TxInputs tx) items /\ NoDup (input_keys tx) /\
    (zsum Amount items = zsum out_amount (TxOutputs tx) \/ zsum Amount items = 0%Z /\ Coinbase tx = true).
Proof.
  intros Hc Hl Hpt Hsp. unfold check_amounts. rewrite (pt_marked _ Hpt). intros (items & Hf & Hnd & Hsum)%Check_spec. exists items.
  assert (Forall2 (spends (table s)) (TxInputs tx) items) as Hf'.
  { apply Forall2_same_length_lookup. split; [by eapply Forall2_length|]. intros n txIn i Hn Hi.
    pose proof (Forall2_lookup_lr _ _ _ _ _ _ Hf Hn Hi) as (Hfind & Hb & _). split; [|done].
    apply (find_utxo_table s spent (FromAddr txIn)); try done. apply Hsp. unfold input_keys. apply list_elem_of_fmap. exists txIn. split; [done|].
    by eapply list_elem_of_lookup_2. }
  assert (zsum (fun i => SetBytes (Bytes (Amount i))) items = zsum Amount items) as Es.
  { apply zsum_ext. intros i Hi. apply SetBytes_Bytes. apply list_elem_of_lookup in Hi as [n Hn].
    destruct (Forall2_lookup_r _ _ _ _ _ Hf' Hn) as (txIn & _ & Hk & _). by eapply co_amount. }
  rewrite Es in Hsum. split_and!; [done| |done]. unfold input_keys. assert (input_utxo <$> TxInputs tx = String.append UTXOTablePrefix <$> (input_key <$> TxInputs tx)) as ->.
  { by rewrite <- list_fmap_compose. }
  by apply NoDup_fmap_2; [apply _|].
Qed.

(** Everything a transaction played leaves. *)
Record played s s' (spent : gset string) (tx : Transaction) (items : list UtxoItem) : Prop := {
  pl_coh : coh s' (list_to_set (input_keys tx) ∪ spent);
  pl_items : Forall2 (spends (table s)) (TxInputs tx) items;
  pl_nodup : NoDup (input_keys tx);
  pl_sum : zsum Amount items = zsum out_amount (TxOutputs tx) \/ zsum Amount items = 0%Z /\ Coinbase tx = true;
  pl_table : table s' = ins_all (made (Txid tx) 0 (TxOutputs tx)) (del_all (input_keys tx) (table s));
  pl_total : utxoTotal (utxo s') = (utxoTotal (utxo s) + issued tx)%Z;
  pl_ok : xstate_ok (xmodel s');
  pl_sees : sees (xmodel s) (xmodel s');
  pl_stored : stored s' = stored s;
  pl_adm : admissible (view (xmodel s)) tx;
  pl_slot : forall raw, slot (pending (xmodel s')) raw = do_slots (Txid tx) raw 0 (TxOutputsExt tx) (slot (pending (xmodel s)) raw);
  pl_meta : meta_of s' = meta_of s;
  pl_blocks : blocksTable (ledger (xmodel s')) = blocksTable (ledger (xmodel s));
  pl_id : batch_id s' = batch_id s
}.

Lemma doTx_played s spent tx filler hs s' :
  coh s spent -> xstate_ok (xmodel s) -> recorded (xmodel s) tx -> TxBlockid tx <> "" -> plain_tx tx -> unused s (Txid tx) 0 ->
  (forall k, k ∈ input_keys tx -> k ∉ spent) -> doTxInternal tx filler s = (Ret hs, s') ->
  (exists items, played s s' spent tx items) /\ Forall (hook_ok (table s')) hs.
Proof.
  intros Hc Hx Hrec Hb Hpt Hfr Hsp. unfold doTxInternal. pose proof (coh_clean _ _ Hc) as Hc0.
  set (s0 := up (CleanBatchCache (batch_id s)) s) in *.
  assert (uLastBatch (utxo s0) = Some (batch_id s0)) as Hl0 by (subst s0; cbn; unfold CleanBatchCache; by case_decide).
  assert (table s0 = table s /\ xmodel s0 = xmodel s /\ utxoTotal (utxo s0) = utxoTotal (utxo s) /\ meta_of s0 = meta_of s) as (T0 & X0 & V0 & M0).
  { subst s0. split_and!; try done. cbn. unfold CleanBatchCache. by case_decide. }
  clearbody s0. destruct (check_amounts tx s0) as [[]|e|] eqn:Ec; [|done..].
  destruct (check_amounts_spec _ _ _ Hc0 Hl0 Hpt Hsp Ec) as (items & Hit & Hnd & Hsum). rewrite T0 in Hit.
  rewrite <- X0 in Hx, Hrec. destruct (DoTx_spec (xmodel s0) tx Hx Hrec Hb) as (o & x1 & Ed & Hx1 & Hsee1 & Hfr1 & Ho).
  unfold on_xmodel. rewrite Ed. destruct Ho as [(-> & Hadm & Hslot)|[[e ->] _]]; [|done].
  set (s1 := set_xmodel s0 x1). assert (coh s1 spent) as Hc1 by (by apply (coh_frames s0)).
  assert (table s1 = table s) as T1 by (rewrite <- T0; apply (fr_utxo _ _ Hfr1)).
  destruct (spend_inputs_spec (TxInputs tx) s1 spent (pt_offsets _ Hpt) Hc1) as (Hc2 & [T2 V2 Q2 M2] & L2).
  set (s2 := foldl _ s1 (TxInputs tx)) in *. clearbody s2. fold (input_keys tx) in T2, Hc2.
  destruct (create_outputs _ _ _ _ _ s2) as [hs3 s3] eqn:E3. intros [= <- <-].
  assert (unused s2 (Txid tx) 0) as Hu2.
  { intros k Hk. rewrite T2, T1, del_all_lookup. case_decide; [done|]. by apply Hfr. }
  destruct (create_outputs_spec _ _ _ _ _ _ _ _ _ (pt_small _ Hpt) Hu2 Hc2 E3) as (Hc3 & L3 & Hh & [T3 V3 Q3 M3]).
  assert (quiet x1 (xmodel s3)) as Q by (by etrans). split; [exists items|done]. split; try done.
  - by rewrite T3, T2, T1.
  - rewrite V3, V2. cbn. rewrite V0. unfold issued. by destruct (Coinbase tx).
  - by apply (qt_ok _ _ Q).
  - rewrite <- X0. etrans; [exact Hsee1|apply Q].
  - unfold stored. rewrite (qt_db _ _ Q), (fr_db _ _ Hfr1), X0. done.
  - by rewrite <- X0.
  - intros raw. rewrite (qt_slot _ _ Q), Hslot, X0. done.
  - rewrite M3, M2. exact M0.
  - by rewrite (qt_blocks _ _ Q), (fr_blocks _ _ Hfr1), X0.
  - unfold batch_id. by rewrite (qt_id _ _ Q), (fr_batch _ _ Hfr1), X0.
Qed.

(** *** With its fee *)

Definition fee_keys (tx : Transaction) (proposer : string) : list (string * UtxoItem) := paid (Txid tx) proposer 0 (TxOutputs tx).
Definition new_keys (tx : Transaction) : list (string * UtxoItem) := made (Txid tx) 0 (TxOutputs tx).
(** The table after the transaction and its fee. *)
Definition after (tx : Transaction) (proposer : string) (T : Table) : Table :=
  ins_all (fee_keys tx proposer) (ins_all (new_keys tx) (del_all (input_keys tx) T)).

Record stepped s s' (spent : gset string) (proposer : string) (tx : Transaction) (items : list UtxoItem) : Prop := {
  st_coh : coh s' (list_to_set (input_keys tx) ∪ spent);
  st_items : Forall2 (spends (table s)) (TxInputs tx) items;
  st_nodup : NoDup (input_keys tx);
  st_sum : zsum Amount items = zsum out_amount (TxOutputs tx) \/ zsum Amount items = 0%Z /\ Coinbase tx = true;
  st_table : table s' = after tx proposer (table s);
  st_total : utxoTotal (utxo s') = (utxoTotal (utxo s) + issued tx)%Z;
  st_ok : xstate_ok (xmodel s');
  st_sees : sees (xmodel s) (xmodel s');
  st_stored : stored s' = stored s;
  st_adm : admissible (view (xmodel s)) tx;
  st_slot : forall raw, slot (pending (xmodel s')) raw = do_slots (Txid tx) raw 0 (TxOutputsExt tx) (slot (pending (xmodel s)) raw);
  st_meta : meta_of s' = meta_of s;
  st_blocks : blocksTable (ledger (xmodel s')) = blocksTable (ledger (xmodel s));
  st_id : batch_id s' = batch_id s
}.

Lemma unused_new T tx proposer k : small 0 (TxOutputs tx) -> (forall k, key_of (Txid tx) 0 k -> T !! k = None) ->
  k ∈ (fee_keys tx proposer).*1 -> ins_all (new_keys tx) (del_all (input_keys tx) T) !! k = None.
Proof.
  intros Hs Hu Hk. pose proof (made_paid_NoDup (Txid tx) proposer (TxOutputs tx) 0 Hs) as Hnd. rewrite fmap_app in Hnd.
  apply NoDup_app in Hnd as (_ & Hd & _). rewrite ins_all_out.
  - rewrite del_all_lookup. case_decide; [done|]. apply Hu. by apply paid_keys in Hk.
  - intros Hin. by apply (Hd k).
Qed.

Lemma play_tx_stepped s spent tx block s1 :
  coh s spent -> xstate_ok (xmodel s) -> recorded (xmodel s) tx -> TxBlockid tx <> "" -> plain_tx tx -> unused s (Txid tx) 0 ->
  (forall k, k ∈ input_keys tx -> k ∉ spent) -> play_tx tx s = (Ret tt, s1) ->
  exists items, stepped s (payFee tx block s1) spent (Proposer block) tx items.
Proof.
  intros Hc Hx Hrec Hb Hpt Hu Hsp. unfold play_tx, mbnd. destruct (doTxInternal tx true s) as [[hs|e|] s0] eqn:Ed; [|done..].
  intros [= <-]. destruct (doTx_played _ _ _ _ _ _ Hc Hx Hrec Hb Hpt Hu Hsp Ed) as [[items []] Hh]. exists items.
  destruct (Commit_spec hs s0 _ pl_coh0 Hh) as (Hc1 & [T1 V1 Q1 M1] & _). set (s1 := Commit hs s0) in *. clearbody s1.
  assert (forall k, k ∈ (paid (Txid tx) (Proposer block) 0 (TxOutputs tx)).*1 -> table s1 !! k = None) as Hnew.
  { intros k Hk. rewrite T1, pl_table0. by apply (unused_new (table s) tx (Proposer block)); [apply Hpt|..]. }
  destruct (pay_outputs_spec (Txid tx) (Proposer block) (TxOutputs tx) 0 s1 _ (pt_small _ Hpt) Hnew Hc1) as (Hc2 & _ & [T2 V2 Q2 M2]).
  assert (quiet (xmodel s0) (xmodel (payFee tx block s1))) as Q by (by etrans).
  split; try done.
  - unfold payFee. by rewrite T2, T1, pl_table0.
  - unfold payFee. by rewrite V2, V1.
  - by apply (qt_ok _ _ Q).
  - etrans; [done|apply Q].
  - unfold stored. by rewrite (qt_db _ _ Q).
  - intros raw. by rewrite (qt_slot _ _ Q).
  - unfold payFee. by rewrite M2, M1.
  - by rewrite (qt_blocks _ _ Q).
  - unfold batch_id. by rewrite (qt_id _ _ Q).
Qed.

Lemma stepped_conserves s s' spent proposer tx items :
  plain_tx tx -> unused s (Txid tx) 0 -> stepped s s' spent proposer tx items ->
  (held (table s') - utxoTotal (utxo s') = held (table s) - utxoTotal (utxo s))%Z.
Proof.
  intros Hpt Hu [_ Hit Hnd Hsum HT HV]. rewrite HT, HV. unfold after.
  pose proof (made_paid_NoDup (Txid tx) proposer (TxOutputs tx) 0 (pt_small _ Hpt)) as Hnd2. rewrite fmap_app in Hnd2. apply NoDup_app in Hnd2 as (N1 & _ & N2).
  rewrite held_ins_all; [|done|by intros k; apply unused_new; [apply Hpt|]].
  rewrite held_ins_all; [|done|intros k Hk; rewrite del_all_lookup; case_decide; [done|]; apply Hu; apply made_keys in Hk; [done|apply Hpt]].
  assert (Forall2 (fun k i => table s !! k = Some i) (input_keys tx) items) as Hf.
  { unfold input_keys. apply Forall2_fmap_l. eapply Forall2_impl; [exact Hit|]. by intros txIn i [? _]. }
  rewrite (held_del_all _ _ items Hnd Hf). pose proof (made_paid_sum (Txid tx) proposer (TxOutputs tx) 0) as Hs. unfold issued, fee_keys, new_keys.
  destruct (Coinbase tx) eqn:Ecb.
  - destruct (pt_coinbase _ Hpt Ecb) as [Ei Hfee]. rewrite Ei in Hit. apply Forall2_nil_inv_l in Hit as ->.
    assert (paid (Txid tx) proposer 0 (TxOutputs tx) = []) as ->; [|cbn; lia].
    clear -Hfee. generalize 0%nat. induction Hfee as [|o outs Ho _ IH]; intros n; [done|]. cbn. rewrite Ho. apply IH.
  - destruct Hsum as [Hsum|[_ ?]]; [|done]. lia.
Qed.

(** ** Rolling a transaction back *)

(** Tables with the same amounts under the same keys. *)
Definition same_amounts (T1 T2 : Table) : Prop := forall k, Amount <$> T1 !! k = Amount <$> T2 !! k.

#[global] Instance same_amounts_equiv : Equivalence same_amounts.
Proof. split; [done|by intros T1 T2 E k|]. intros T1 T2 T3 E1 E2 k. by rewrite E1. Qed.

Definition given_back (tx : Transaction) : list (string * UtxoItem) :=
  (fun txIn => (input_utxo txIn, mkItem (SetBytes (ti_Amount txIn)) (ti_FrozenHeight txIn))) <$> TxInputs tx.

Lemma restore_inputs_moves ins : forall s,
  moves s (foldl (fun s txIn => restore_input txIn s) s ins)
    (ins_all ((fun txIn => (input_utxo txIn, mkItem (SetBytes (ti_Amount txIn)) (ti_FrozenHeight txIn))) <$> ins) (table s)) (utxoTotal (utxo s)).
Proof.
  induction ins as [|txIn ins IH]; intros s; [by split|]. cbn [foldl fmap list_fmap]. destruct (IH (restore_input txIn s)) as [T1 V1 Q1 M1].
  set (i := mkItem _ _) in *.
  assert (table (restore_input txIn s) = <[input_utxo txIn := i]> (table s)) as T0.
  { unfold restore_input. cbv zeta. rewrite !table_up. rewrite (table_PutUtxo _ _ (up _ s)). by rewrite table_up. }
  split; [by rewrite T1, T0| | |by rewrite M1].
  - rewrite V1. unfold restore_input. cbv zeta. cbn [utxo up set_utxo]. unfold AddBalance.
    rewrite (proj2 (proj2 (proj2 (change_balance_frame _ _ _)))). cbn. unfold UnlockKey. by destruct (lockKeys _ !! _).
  - etrans; [|exact Q1]. by apply quiet_emit.
Qed.

Lemma remove_outputs_moves txid coinbase outs : forall offset s,
  moves s (remove_outputs txid coinbase offset outs s) (del_all (made txid offset outs).*1 (table s))
    (utxoTotal (utxo s) - if coinbase then zsum (fun kv => Amount kv.2) (made txid offset outs) else 0).
Proof.
  induction outs as [|out outs IH]; intros offset s; cbn [remove_outputs made]; [split; [done|destruct coinbase; cbn; lia|done|done]|].
  destruct (IH (S offset) (remove_output txid coinbase offset out s)) as [T1 V1 Q1 M1]. revert T1 V1 Q1 M1. unfold remove_output.
  destruct (is_fee out || _); [by intros; split|]. cbv zeta. set (k := output_utxo _ _ _).
  set (s2 := up (SubBalance _ _) _). assert (utxoTotal (utxo s2) = utxoTotal (utxo s)) as V2.
  { subst s2. cbn. unfold SubBalance. by rewrite (proj2 (proj2 (proj2 (change_balance_frame _ _ _)))). }
  assert (table s2 = delete k (table s)) as T2 by (subst s2; rewrite !table_up; apply table_DelUtxo).
  assert (meta_of s2 = meta_of s) as M2 by done.
  assert (quiet (xmodel s) (xmodel s2)) as Q2 by (by apply quiet_emit). clearbody s2.
  set (s3 := if coinbase then UpdateUtxoTotal _ false s2 else s2).
  assert (table s3 = delete k (table s)) as T3 by (subst s3; destruct coinbase; [unfold UpdateUtxoTotal; cbv zeta; by rewrite table_PutTotal, table_up|done]).
  assert (utxoTotal (utxo s3) = (utxoTotal (utxo s) - if coinbase then SetBytes (to_Amount out) else 0)%Z) as V3.
  { subst s3. rewrite <- V2. destruct coinbase; cbn; lia. }
  assert (quiet (xmodel s) (xmodel s3)) as Q3 by (etrans; [exact Q2|]; subst s3; destruct coinbase; [by apply quiet_emit|done]).
  assert (meta_of s3 = meta_of s) as M3 by (subst s3; rewrite <- M2; by destruct coinbase). clearbody s3.
  intros T1 V1 Q1 M1. rewrite fmap_app, zsum_app, zsum_cons. split; [by rewrite T1, T3| |by etrans|by rewrite M1].
  rewrite V1, V3. destruct coinbase; cbn; lia.
Qed.

Lemma unpay_outputs_moves txid proposer outs : forall offset s,
  moves s (unpay_outputs txid proposer offset outs s) (del_all (paid txid proposer offset outs).*1 (table s)) (utxoTotal (utxo s)).
Proof.
  induction outs as [|out outs IH]; intros offset s; cbn [unpay_outputs paid]; [by split|].
  destruct (IH (S offset) (unpay_output txid proposer offset out s)) as [T1 V1 Q1 M1]. revert T1 V1 Q1 M1. unfold unpay_output.
  destruct (is_fee out); [|by intros; split]. cbv zeta. set (k := output_utxo _ _ _). set (s2 := up (SubBalance _ _) _).
  assert (utxoTotal (utxo s2) = utxoTotal (utxo s)) as V2.
  { subst s2. cbn. unfold SubBalance. by rewrite (proj2 (proj2 (proj2 (change_balance_frame _ _ _)))). }
  assert (table s2 = delete k (table s)) as T2 by (subst s2; rewrite !table_up; apply table_DelUtxo).
  assert (meta_of s2 = meta_of s) as M2 by done.
  assert (quiet (xmodel s) (xmodel s2)) as Q2 by (by apply quiet_emit). clearbody s2.
  intros T1 V1 Q1 M1. split; [rewrite T1, T2; done|congruence|by etrans|congruence].
Qed.

(** The table after undoing the transaction and its fee. *)
Definition undone (tx : Transaction) (proposer : string) (T : Table) : Table :=
  del_all (fee_keys tx proposer).*1 (del_all (new_keys tx).*1 (ins_all (given_back tx) T)).

Lemma undone_after tx proposer T T' items :
  plain_tx tx -> (forall k, key_of (Txid tx) 0 k -> T !! k = None) -> (forall k i, T !! k = Some i -> (0 <= Amount i)%Z) ->
  Forall2 (spends T) (TxInputs tx) items -> NoDup (input_keys tx) ->
  same_amounts T' (after tx proposer T) -> same_amounts (undone tx proposer T') T.
Proof.
  intros Hpt Hu Ha Hit Hnd Hsame k. unfold undone. rewrite !del_all_lookup.
  pose proof (paid_keys (Txid tx) proposer (TxOutputs tx) 0 (pt_small _ Hpt) k) as Hpk.
  pose proof (made_keys (Txid tx) (TxOutputs tx) 0 (pt_small _ Hpt) k) as Hmk.
  case_decide as Hp; [by rewrite (Hu _ (Hpk Hp))|]. case_decide as Hm; [by rewrite (Hu _ (Hmk Hm))|].
  assert ((given_back tx).*1 = input_keys tx) as Egb by (unfold given_back; by rewrite <- list_fmap_compose).
  destruct (decide (k ∈ input_keys tx)) as [Hin|Hni].
  - pose proof Hin as Hin'. unfold input_keys in Hin'. apply list_elem_of_fmap in Hin' as (txIn & -> & HtxIn). apply list_elem_of_lookup in HtxIn as [n Hn].
    destruct (Forall2_lookup_l _ _ _ _ _ Hit Hn) as (i & _ & Hi & Hb).
    rewrite (ins_all_in (given_back tx) _ _ (mkItem (SetBytes (ti_Amount txIn)) (ti_FrozenHeight txIn))), Hi; [| |].
    + cbn. rewrite <- Hb, SetBytes_Bytes by (by eapply Ha). done.
    + by rewrite Egb.
    + apply list_elem_of_fmap. exists txIn. split; [done|]. by eapply list_elem_of_lookup_2.
  - rewrite ins_all_out by (by rewrite Egb). rewrite Hsame. unfold after. rewrite !ins_all_out by done. rewrite del_all_lookup, decide_False by done. done.
Qed.

Lemma undo_tx_spec t tx block (Pre : string -> option string * option string) :
  xstate_ok (xmodel t) -> (forall raw, slot_ok (xmodel t) raw (Pre raw)) ->
  admissible (fun raw => slot_version (Pre raw)) tx -> no_fresh_delete tx ->
  (forall raw, restored (slot (pending (xmodel t)) raw) (do_slots (Txid tx) raw 0 (TxOutputsExt tx) (Pre raw))) ->
  exists t0, undoTxInternal tx t = (Ret tt, t0) /\ forall p, let t' := undoPayFee tx block (set_Mempool t0 p) in
    xstate_ok (xmodel t') /\ sees (xmodel t) (xmodel t') /\ (forall raw, restored (slot (pending (xmodel t')) raw) (Pre raw)) /\
    table t' = undone tx (Proposer block) (table t) /\ utxoTotal (utxo t') = (utxoTotal (utxo t) - issued tx)%Z /\ stored t' = stored t /\
    blocksTable (ledger (xmodel t')) = blocksTable (ledger (xmodel t)) /\ meta_of t' = meta_of t /\ batch_id t' = batch_id t.
Proof.
  intros Hx HP Ha Hnf Hres. destruct (UndoTx_spec _ _ _ Hx HP Ha Hnf Hres) as (x1 & Eu & Hx1 & Hsee1 & Hfr & Hres1).
  unfold undoTxInternal, on_xmodel. rewrite Eu. eexists. split; [done|]. intros p. set (t' := undoPayFee tx block _). set (t1 := set_xmodel t x1) in *.
  assert (table t1 = table t) as T1 by apply (fr_utxo _ _ Hfr).
  destruct (restore_inputs_moves (TxInputs tx) t1) as [T2 V2 Q2 M2]. set (t2 := foldl _ t1 (TxInputs tx)) in *. clearbody t2.
  destruct (remove_outputs_moves (Txid tx) (Coinbase tx) (TxOutputs tx) 0 t2) as [T3 V3 Q3 M3]. set (t3 := remove_outputs _ _ _ _ t2) in *. clearbody t3.
  destruct (unpay_outputs_moves (Txid tx) (Proposer block) (TxOutputs tx) 0 (set_Mempool t3 p)) as [T4 V4 Q4 M4].
  change (table (set_Mempool t3 p)) with (table t3) in T4. change (utxo (set_Mempool t3 p)) with (utxo t3) in V4. change (xmodel (set_Mempool t3 p)) with (xmodel t3) in Q4.
  change (unpay_outputs _ _ _ _ _) with t' in T4, V4, Q4, M4. clearbody t'.
  assert (quiet x1 (xmodel t')) as Q by (etrans; [exact Q2|]; by etrans).
  split_and!.
  - by apply (qt_ok _ _ Q).
  - etrans; [exact Hsee1|apply Q].
  - intros raw. rewrite (qt_slot _ _ Q). apply Hres1.
  - by rewrite T4, T3, T2, T1.
  - rewrite V4, V3, V2. unfold issued. by destruct (Coinbase tx).
  - unfold stored. by rewrite (qt_db _ _ Q), (fr_db _ _ Hfr).
  - by rewrite (qt_blocks _ _ Q), (fr_blocks _ _ Hfr).
  - rewrite M4. change (meta_of (set_Mempool t3 p)) with (meta_of t3). by rewrite M3, M2.
  - unfold batch_id. by rewrite (qt_id _ _ Q), (fr_batch _ _ Hfr).
Qed.

(** ** The transactions of a block *)

Context (ImmediateVerifyTx : Transaction -> bool -> State P -> bool).
Context (ImmediateVerifyAutoTx : Z -> Transaction -> bool -> State P -> bool).

Definition goods s (txs : list Transaction) : Prop :=
  Forall (fun tx => sees_tx (xmodel s) tx /\ plain_tx tx /\ unused s (Txid tx) 0) txs /\ NoDup (Txid <$> txs).

Lemma unused_after s s' tx proposer txid :
  txid <> Txid tx -> small 0 (TxOutputs tx) -> table s' = after tx proposer (table s) -> unused s txid 0 -> unused s' txid 0.
Proof.
  intros Hne Hs ET Hu k Hk. assert (forall k, key_of (Txid tx) 0 k -> ~ key_of txid 0 k) as Hd.
  { intros k' (a & n & _ & Hn & ->) (b & m & _ & Hm & E). apply GenUtxoKey_inj in E as [E _]; [by subst|by apply offset_int64..]. }
  rewrite ET. unfold after. rewrite !ins_all_out.
  - rewrite del_all_lookup. case_decide; [done|]. by apply Hu.
  - intros Hin. apply (Hd k); [|done]. by apply made_keys in Hin.
  - intros Hin. apply (Hd k); [|done]. by apply paid_keys in Hin.
Qed.

Lemma goods_next s s' tx txs proposer items spent :
  goods s (tx :: txs) -> stepped s s' spent proposer tx items -> goods s' txs.
Proof.
  intros [Hf Hnd] Hst. apply Forall_cons in Hf as [(_ & Hpt & _) Hf]. cbn in Hnd. apply NoDup_cons in Hnd as [Hni Hnd]. split; [|done].
  rewrite Forall_forall in Hf |- *. intros x Hx. destruct (Hf x Hx) as (H1 & H2 & H3). split_and!; [|done|].
  - eapply sees_tx_sees; [apply Hst|done].
  - eapply unused_after; [|apply Hpt|apply Hst|done]. intros E. apply Hni. rewrite <- E. by apply list_elem_of_fmap_2.
Qed.

(** Where undoing the block may start: the state the block left, as far as the
    outputs' amounts, the total and the versions go. *)
Record like (t s : State P) : Prop := {
  lk_ok : xstate_ok (xmodel t);
  lk_sees : sees (xmodel s) (xmodel t);
  lk_slot : forall raw, restored (slot (pending (xmodel t)) raw) (slot (pending (xmodel s)) raw);
  lk_table : same_amounts (table t) (table s);
  lk_total : utxoTotal (utxo t) = utxoTotal (utxo s)
}.

(** What playing transactions keeps, and that undoing them leads back. *)
Record block_played block (txs : list Transaction) s s' (spent : gset string) : Prop := {
  bp_coh : coh s' spent;
  bp_ok : xstate_ok (xmodel s');
  bp_sees : sees (xmodel s) (xmodel s');
  bp_stored : stored s' = stored s;
  bp_money : (held (table s') - utxoTotal (utxo s') = held (table s) - utxoTotal (utxo s))%Z;
  bp_meta : meta_of s' = meta_of s;
  bp_blocks : blocksTable (ledger (xmodel s')) = blocksTable (ledger (xmodel s));
  bp_id : batch_id s' = batch_id s;
  bp_back : Forall no_fresh_delete txs -> forall t, like t s' -> exists t', undo_txs block ∅ (rev txs) t = (Ret tt, t') /\ like t' s /\ sees (xmodel t) (xmodel t') /\
    stored t' = stored t /\ meta_of t' = meta_of t /\ blocksTable (ledger (xmodel t')) = blocksTable (ledger (xmodel t)) /\ batch_id t' = batch_id t
}.

Lemma undo_txs_app block tx txs t t1 : undo_txs block ∅ txs t = (Ret tt, t1) ->
  undo_txs block ∅ (txs ++ [tx]) t = undo_txs block ∅ [tx] t1.
Proof.
  revert t. induction txs as [|x txs IH]; intros t; [by intros [= <-]|]. cbn [app undo_txs]. unfold mbnd.
  destruct (_ t) as [[[]| |] t2]; [|done..]. cbn. apply IH.
Qed.

Lemma stepped_back s s' spent block tx items t :
  plain_tx tx -> no_fresh_delete tx -> unused s (Txid tx) 0 -> (forall k i, table s !! k = Some i -> (0 <= Amount i)%Z) -> xstate_ok (xmodel s) ->
  stepped s s' spent (Proposer block) tx items -> like t s' ->
  exists t', undo_txs block ∅ [tx] t = (Ret tt, t') /\ like t' s /\ sees (xmodel t) (xmodel t') /\
    stored t' = stored t /\ meta_of t' = meta_of t /\ blocksTable (ledger (xmodel t')) = blocksTable (ledger (xmodel t)) /\ batch_id t' = batch_id t.
Proof.
  intros Hpt Hnf Hu Ha Hx [_ Hit Hnd _ HT HV _ Hsee _ Hadm Hslot _ _ _] [Lo Ls Lsl Lt Lv].
  destruct (undo_tx_spec t tx block (fun raw => slot (pending (xmodel s)) raw) Lo) as (t0 & Eu & Hp).
  - intros raw. apply (sees_slot_ok (xmodel s)); [by etrans|apply Hx].
  - done.
  - done.
  - intros raw. rewrite <- Hslot. apply Lsl.
  - destruct (Hp (mp_DeleteTxAndChildren (Txid tx) (Mempool t0))) as (P1 & P2 & P3 & P4 & P5 & P6 & P7 & P8 & P9).
    eexists. split; [|split_and!; [|exact P2|exact P6|exact P8|exact P7|exact P9]].
    + cbn [undo_txs]. rewrite decide_False by set_solver. unfold mbnd. by rewrite Eu.
    + split; [exact P1| |exact P3| |].
      * intros txid. rewrite P2, Ls. apply Hsee.
      * rewrite P4. eapply undone_after; try done. etrans; [exact Lt|]. by rewrite HT.
      * rewrite P5, Lv, HV. lia.
Qed.

Lemma todo_txs_spec block txs : forall s spent s',
  goods s txs -> coh s spent -> xstate_ok (xmodel s) -> NoDup (concat (input_keys <$> txs)) ->
  (forall k, k ∈ concat (input_keys <$> txs) -> k ∉ spent) ->
  todo_txs ImmediateVerifyTx ImmediateVerifyAutoTx block txs s = (Ret tt, s') ->
  block_played block txs s s' (list_to_set (concat (input_keys <$> txs)) ∪ spent).
Proof.
  induction txs as [|tx txs IH]; intros s spent s' Hg Hc Hx Hnd Hsp; cbn [todo_txs].
  { intros [= <-]. split; try done; [cbn; by rewrite (left_id_L ∅ (∪))|]. intros _ t Ht. exists t. by split_and!. }
  cbn [fmap list_fmap concat] in *. apply NoDup_app in Hnd as (_ & Hdis & Hnd).
  pose proof Hg as [[((Hrec & Hb) & Hpt & Hu) _]%Forall_cons _].
  unfold mbnd at 1. unfold verify_todo. destruct (verifyAutogenTxValid tx && _ && _); [done|]. destruct (negb (Autogen tx) && _ && _); [done|].
  unfold mbnd at 1. destruct (play_tx tx s) as [[[]| |] s1] eqn:Ep; [|done..]. unfold mbnd at 1. cbn [on_state]. intros Hrun.
  assert (forall k, k ∈ input_keys tx -> k ∉ spent) as Hsp0 by (intros k Hk; apply Hsp, elem_of_app; by left).
  destruct (play_tx_stepped s spent tx block s1 Hc Hx Hrec Hb Hpt Hu Hsp0 Ep) as [items Hst]. set (s2 := payFee tx block s1) in *.
  assert (forall k, k ∈ concat (input_keys <$> txs) -> k ∉ list_to_set (input_keys tx) ∪ spent) as Hsp1.
  { intros k Hk. rewrite not_elem_of_union, elem_of_list_to_set. split; [intros Hin; by apply (Hdis k)|apply Hsp, elem_of_app; by right]. }
  destruct (IH s2 _ s' (goods_next _ _ _ _ _ _ _ Hg Hst) (st_coh _ _ _ _ _ _ Hst) (st_ok _ _ _ _ _ _ Hst) Hnd Hsp1 Hrun)
    as [B1 B2 B3 B4 B5 B6 B7 B8 B9].
  pose proof (stepped_conserves _ _ _ _ _ _ Hpt Hu Hst) as Hmoney. split.
  - replace (list_to_set (input_keys tx ++ _) ∪ spent) with (list_to_set (concat (input_keys <$> txs)) ∪ (list_to_set (input_keys tx) ∪ spent) : gset string); [done|].
    rewrite list_to_set_app_L. set_solver.
  - done.
  - etrans; [apply Hst|done].
  - by rewrite B4, (st_stored _ _ _ _ _ _ Hst).
  - lia.
  - by rewrite B6, (st_meta _ _ _ _ _ _ Hst).
  - by rewrite B7, (st_blocks _ _ _ _ _ _ Hst).
  - by rewrite B8, (st_id _ _ _ _ _ _ Hst).
  - intros [Hnf Hnfs]%Forall_cons t Ht. destruct (B9 Hnfs t Ht) as (t1 & E1 & L1 & S1 & R1 & M1 & K1 & I1).
    destruct (stepped_back s s2 spent block tx items t1 Hpt Hnf Hu (co_amount _ _ Hc) Hx Hst L1) as (t2 & E2 & L2 & S2 & R2 & M2 & K2 & I2).
    exists t2. cbn [rev]. rewrite (undo_txs_app _ _ _ _ _ E1). split_and!; first [done|congruence|by etrans].
Qed.

(** ** Blocks *)

Context (write_ok : State P -> bool).

Lemma quiet_headers x c : quiet x (set_ledger x (set_headers (ledger x) c)).
Proof.
  assert (same x (set_ledger x (set_headers (ledger x) c))) as Hs by done.
  split; try done. intros [[Hl Hc] Hr Hv Hf Hu]. split; [|exact Hr|by eapply same_versions_ok|exact Hf|exact Hu].
  split; [exact Hl|]. intros b c' Hb. rewrite <- (same_sees _ _ Hs). by apply (Hc b).
Qed.

Lemma fetchBlock_headers id l : exists c, (fetchBlock id l).2 = set_headers l c.
Proof.
  unfold fetchBlock. destruct (Get (blkHeaderCache l) id) as [[b|] c]; cbn; [by exists c|].
  destruct (blocksTable l !! id); [by eexists|by exists c].
Qed.

Lemma fetchBlock_known id l : is_Some (blocksTable l !! id) -> exists b, (fetchBlock id l).1 = Ret b.
Proof.
  intros [b Hb]. unfold fetchBlock. destruct (Get (blkHeaderCache l) id) as [[b'|] c]; cbn; [by exists b'|]. rewrite Hb. by exists b.
Qed.

(** Between two blocks: the batch is written, the caches agree with the database. *)
Definition at_rest s : Prop := xstate_ok (xmodel (new_batch s)) /\ coh (new_batch s) ∅.
Definition rests_like t s : Prop := like (new_batch t) (new_batch s).

(** [updateLatestBlockid] writes what the batch holds. *)
Record closed s s' (id : string) : Prop := {
  cl_quiet : exists x, quiet (xmodel s) x /\ xmodel s' = WriteBatch x /\ table s = utxoTable (pending x);
  cl_utxo : utxo s' = utxo s;
  cl_meta : meta_of s' = (Meta s, MetaTmp s, id)
}.

Lemma updateLatestBlockid_closed id s s' : updateLatestBlockid write_ok id s = (Ret tt, s') -> closed s s' id.
Proof.
  unfold updateLatestBlockid, mbnd, on_ledger, on_xmodel, QueryBlockHeader. destruct (fetchBlock_headers id (ledger (xmodel s))) as [c Ec].
  destruct (fetchBlock id (ledger (xmodel s))) as [[b| |] l]; [|done..]. cbn [snd] in Ec. subst l.
  unfold on_state, write_batch. set (s1 := put _ _). destruct (write_ok s1); [|done]. intros [= <-].
  split; [|done|done]. exists (xmodel s1). split_and!; [|done|].
  - subst s1. etrans; [apply quiet_headers|]. by apply quiet_emit.
  - symmetry. change (table s1 = table s). subst s1. rewrite table_put. unfold table. cbn [xmodel set_xmodel]. unfold pending. cbn [db xbatch set_ledger].
    by destruct (db_write _ _).
Qed.

Lemma updateLatestBlockid_ok id s : (forall t, write_ok t = true) -> is_Some (blocksTable (ledger (xmodel s)) !! id) ->
  exists s', updateLatestBlockid write_ok id s = (Ret tt, s').
Proof.
  intros Hw Hb. unfold updateLatestBlockid, mbnd, on_ledger, on_xmodel, QueryBlockHeader. destruct (fetchBlock_known _ _ Hb) as [b Eb].
  destruct (fetchBlock id (ledger (xmodel s))) as [o l]. cbn in Eb. subst o. cbn. unfold write_batch. rewrite Hw. by eexists.
Qed.

Lemma closed_next s s' id :
  xstate_ok (xmodel s) -> closed s s' id ->
  xstate_ok (xmodel (new_batch s')) /\ sees (xmodel s) (xmodel (new_batch s')) /\ table (new_batch s') = table s /\ stored s' = table s /\
  (forall raw, slot (pending (xmodel (new_batch s'))) raw = slot (pending (xmodel s)) raw) /\
  blocksTable (ledger (xmodel s')) = blocksTable (ledger (xmodel s)) /\ (batch_id s < batch_id (new_batch s'))%nat.
Proof.
  intros Hx [(x & Q & Ex & ET) Eu Em]. destruct (next_batch_ok x (qt_ok _ _ Q Hx)) as (Hn & Hs & Hsl).
  assert (xmodel (new_batch s') = NewBatch (WriteBatch x)) as En by (unfold new_batch; cbn; by rewrite Ex).
  rewrite En. split_and!; try done.
  - etrans; [apply Q|done].
  - unfold table. rewrite En. symmetry. exact ET.
  - unfold stored. rewrite Ex. symmetry. exact ET.
  - intros raw. rewrite Hsl. apply Q.
  - rewrite Ex. apply (qt_blocks _ _ Q).
  - unfold batch_id. rewrite En. cbn. rewrite (qt_id _ _ Q). lia.
Qed.

Lemma closed_at_rest s s' spent id : xstate_ok (xmodel s) -> coh s spent -> closed s s' id -> at_rest s'.
Proof.
  intros Hx [Hc Hb Hst Ha Hlast] Hcl. destruct (closed_next _ _ _ Hx Hcl) as (Hx' & _ & ET & ES & _ & _ & Hid). split; [done|].
  assert (utxo (new_batch s') = utxo s) as Eu by apply Hcl. split; rewrite ?Eu, ?ET; try done.
  - intros Hl. apply Hlast in Hl. lia.
  - intros k i Hk. right. change (stored (new_batch s')) with (stored s') in Hk. by rewrite ES in Hk.
  - intros n Hn. apply Hlast in Hn. lia.
Qed.

Lemma closed_like t t' s id : like t s -> closed t t' id -> like (new_batch t') s.
Proof.
  intros [Lo Ls Lsl Lt Lv] Hcl. destruct (closed_next _ _ _ Lo Hcl) as (Hx & Hs & ET & _ & Hsl & _). split; try done.
  - by etrans.
  - intros raw. by rewrite Hsl.
  - by rewrite ET.
  - change (utxo (new_batch t')) with (utxo t'). by rewrite (cl_utxo _ _ _ Hcl).
Qed.

(** The step of the irreversible height. *)
Lemma update_irreversible_moves h s s' : update_irreversible h s = (Ret tt, s') ->
  table s' = table s /\ utxo s' = utxo s /\ quiet (xmodel s) (xmodel s') /\ Meta s' = Meta s /\ latestBlockid s' = latestBlockid s.
Proof.
  unfold update_irreversible, UpdateNextIrreversibleBlockHeight. repeat case_match; intros [= <-]; try done.
  unfold UpdateIrreversibleBlockHeight. cbv zeta. split_and!; try done; [|by apply quiet_emit].
  change (table (put (PutIrreversible (sub64 h (IrreversibleSlideWindow (Meta s)))) s) = table s). rewrite table_put. unfold table. by destruct (pending (xmodel s)).
Qed.

Lemma coh_quiet s s' spent : utxo s' = utxo s -> table s' = table s -> quiet (xmodel s) (xmodel s') -> coh s spent -> coh s' spent.
Proof.
  intros Eu ET Q [Hc Hb Hst Ha Hlast]. assert (stored s' = stored s) as ES by (unfold stored; by rewrite (qt_db _ _ Q)).
  split; rewrite ?Eu, ?ET, ?ES; unfold batch_id; rewrite ?(qt_id _ _ Q); done.
Qed.

Lemma at_rest_meta s : at_rest s -> at_rest (update_meta s).
Proof. intros [Hx Hc]. split; [exact Hx|]. by apply (coh_quiet (new_batch s)). Qed.

(** What a block needs: transactions the ledger has recorded, none of them modified
    by the regulator, with identifiers of their own under which the table holds no
    output; coinbase transactions without inputs and fees; and no output spent twice. *)
Definition good_block s (block : InternalBlock) : Prop :=
  goods (new_batch s) (Transactions block) /\ NoDup (concat (input_keys <$> Transactions block)).

(** What a block leaves, and that it can be undone. *)
Record block_done s s' (block : InternalBlock) : Prop := {
  bd_rest : at_rest s';
  bd_money : (held (stored s') - utxoTotal (utxo s') = held (stored s) - utxoTotal (utxo s))%Z;
  bd_latest : latestBlockid s' = Blockid block;
  bd_blocks : blocksTable (ledger (xmodel s')) = blocksTable (ledger (xmodel s));
  bd_sees : sees (xmodel (new_batch s)) (xmodel (new_batch s'));
  bd_meta : Meta s' = MetaTmp s';
  bd_back : Forall no_fresh_delete (Transactions block) -> forall t, rests_like t s' -> (forall u, write_ok u = true) -> (IrreversibleBlockHeight (Meta t) < Height block)%Z ->
    is_Some (blocksTable (ledger (xmodel t)) !! PreHash block) ->
    exists t', undo_block write_ok ∅ false block t = (Ret tt, t') /\ rests_like t' s /\ latestBlockid t' = PreHash block /\
      Meta t' = MetaTmp t /\ MetaTmp t' = MetaTmp t /\ blocksTable (ledger (xmodel t')) = blocksTable (ledger (xmodel t))
}.

Lemma todo_block_done s block s' :
  at_rest s -> good_block s block -> todo_block ImmediateVerifyTx ImmediateVerifyAutoTx write_ok block s = (Ret tt, s') -> block_done s s' block.
Proof.
  intros [Hx Hc] [Hg Hnd]. unfold todo_block, mbnd at 1, on_state at 1. set (s0 := new_batch s) in *.
  unfold mbnd at 1. destruct (todo_txs _ _ block _ s0) as [[[]| |] s1] eqn:E1; [|done..].
  apply (todo_txs_spec _ _ _ ∅) in E1; [|done..|set_solver]. destruct E1 as [B1 B2 B3 B4 B5 B6 B7 B8 B9].
  unfold mbnd at 1. destruct (update_irreversible (Height block) s1) as [[[]| |] s2] eqn:E2; [|done..].
  apply update_irreversible_moves in E2 as (T2 & U2 & Q2 & M2 & L2).
  unfold mbnd. destruct (updateLatestBlockid write_ok (Blockid block) s2) as [[[]| |] s3] eqn:E3; [|done..]. intros [= <-].
  apply updateLatestBlockid_closed in E3.
  assert (xstate_ok (xmodel s2)) as Hx2 by (by apply (qt_ok _ _ Q2)).
  assert (exists spent, coh s2 spent) as [spent Hc2] by (eexists; by apply (coh_quiet s1)).
  destruct (closed_next _ _ _ Hx2 E3) as (N1 & N2 & N3 & N4 & N5 & N6 & N7). split.
  - by eapply at_rest_meta, (closed_at_rest s2 s3).
  - change (stored (update_meta s3)) with (stored s3). change (utxo (update_meta s3)) with (utxo s3).
    rewrite N4, (cl_utxo _ _ _ E3), T2, U2. exact B5.
  - pose proof (cl_meta _ _ _ E3) as Em. by injection Em.
  - change (xmodel (update_meta s3)) with (xmodel s3). by rewrite N6, (qt_blocks _ _ Q2), B7.
  - do 2 (etrans; [eassumption||apply Q2|]). exact N2.
  - done.
  - intros Hnf t Ht Hw Hh Hpre. change (new_batch (update_meta s3)) with (update_meta (new_batch s3)) in Ht.
    assert (like (new_batch t) s1) as L1.
    { destruct Ht as [Lo Ls Lsl Lt Lv]. split; [done| |intros raw|etrans; [exact Lt|]|].
      - etrans; [apply Q2|]. etrans; [exact N2|exact Ls].
      - rewrite <- (qt_slot _ _ Q2), <- N5. apply Lsl.
      - rewrite <- T2, <- N3. done.
      - rewrite Lv, <- U2, <- (cl_utxo _ _ _ E3). done. }
    destruct (B9 Hnf _ L1) as (t1 & Eu & L2' & S1 & R1 & M1 & K1 & I1).
    unfold undo_block. replace (negb false && _) with false by (cbn; lia).
    unfold mbnd at 1, on_state at 1. unfold mbnd at 1. rewrite Eu. unfold mbnd at 1, mpure at 1. unfold mbnd.
    destruct (updateLatestBlockid_ok (PreHash block) t1 Hw) as [t2 E5]; [by rewrite K1|]. rewrite E5. apply updateLatestBlockid_closed in E5.
    eexists. split; [done|]. pose proof (cl_meta _ _ _ E5) as Em. unfold meta_of in Em, M1. injection M1 as M1a M1b M1c. injection Em as Em1 Em2 Em3.
    destruct (closed_next _ _ _ (lk_ok _ _ L2') E5) as (_ & _ & _ & _ & _ & K2 & _).
    split_and!.
    + by destruct (closed_like t1 t2 _ _ L2' E5).
    + exact Em3.
    + cbn. by rewrite Em2, M1b.
    + cbn. by rewrite Em2, M1b.
    + cbn. by rewrite K2, K1.
Qed.

Notation play_block := (todo_block ImmediateVerifyTx ImmediateVerifyAutoTx write_ok).
Notation play_blocks := (todo_blocks ImmediateVerifyTx ImmediateVerifyAutoTx write_ok).

(** C2: playing a good block conserves money.  From a state at rest, when a block
    that is good (its transactions are recorded, unmodified, have identifiers under
    which no output is held, its coinbase transactions have neither inputs nor fees,
    and no output is spent twice in it, none of which the function itself checks) is
    played, the sum of all unspent outputs changes by exactly what the block's
    coinbase transactions add to the recorded total: transfers and fees neither
    create nor destroy anything.  The state is at rest again.  Without the last
    condition it does not hold: [walked_block_spends_twice]. *)
Theorem block_conserves_money s block s' :
  at_rest s -> good_block s block -> play_block block s = (Ret tt, s') ->
  at_rest s' /\ latestBlockid s' = Blockid block /\
  (held (stored s') - held (stored s) = utxoTotal (utxo s') - utxoTotal (utxo s))%Z.
Proof using All.
  intros Hr Hg E. destruct (todo_block_done _ _ _ Hr Hg E) as [H1 H2 H3 _ _ _ _]. split_and!; [done..|lia].
Qed.

(** Every block of a chain is good in the state it meets. *)
Fixpoint good_blocks (bs : list InternalBlock) s : Prop :=
  match bs with
  | [] => True
  | b :: bs => good_block s b /\ forall s1, play_block b s = (Ret tt, s1) -> good_blocks bs s1
  end.

Definition undoable (bs : list InternalBlock) t : Prop :=
  Meta t = MetaTmp t /\ Forall (fun b => (IrreversibleBlockHeight (Meta t) < Height b)%Z /\ is_Some (blocksTable (ledger (xmodel t)) !! PreHash b)) bs.

Lemma procUndo_app done bs cs t t1 : procUndoBlkForWalk write_ok bs done false t = (Ret tt, t1) ->
  procUndoBlkForWalk write_ok (bs ++ cs) done false t = procUndoBlkForWalk write_ok cs done false t1.
Proof.
  revert t. induction bs as [|b bs IH]; intros t; [by intros [= <-]|]. cbn [app procUndoBlkForWalk]. unfold mbnd.
  destruct (undo_block _ _ _ b t) as [[[]| |] t2]; [apply IH|done..].
Qed.

Lemma play_blocks_back bs : forall s s' t, (forall u, write_ok u = true) ->
  at_rest s -> good_blocks bs s -> Forall (fun b => Forall no_fresh_delete (Transactions b)) bs ->
  play_blocks bs s = (Ret tt, s') -> rests_like t s' -> undoable bs t ->
  exists t', procUndoBlkForWalk write_ok (rev bs) ∅ false t = (Ret tt, t') /\ rests_like t' s /\
    Meta t' = Meta t /\ Meta t' = MetaTmp t' /\ blocksTable (ledger (xmodel t')) = blocksTable (ledger (xmodel t)).
Proof.
  induction bs as [|b bs IH]; intros s s' t Hw Hr Hg Hnf; cbn [todo_blocks].
  { intros [= <-] Hl [Hm _]. exists t. by split_and!. }
  unfold mbnd. destruct (todo_block _ _ _ b s) as [[[]| |] s1] eqn:E1; [|done..]. intros E2 Hl [Hm Hall]. destruct Hg as [Hg Hgs]. apply Forall_cons in Hnf as [Hnf Hnfs].
  apply Forall_cons in Hall as [[Hh Hpre] Hall]. pose proof (todo_block_done _ _ _ Hr Hg E1) as Hd.
  destruct (IH s1 s' t Hw (bd_rest _ _ _ Hd) (Hgs _ E1) Hnfs E2 Hl (conj Hm Hall)) as (t1 & Eu & L1 & M1 & M2 & K1).
  destruct (bd_back _ _ _ Hd Hnf t1 L1 Hw) as (t2 & Eb & L2 & _ & M3 & M4 & K2); [by rewrite M1|by rewrite K1|].
  exists t2. cbn [rev]. rewrite (procUndo_app _ _ _ _ _ Eu). cbn [procUndoBlkForWalk]. unfold mbnd. rewrite Eb. split_and!; [done|done|congruence..].
Qed.

(** C8: walking back undoes walking forward.  When a chain of good blocks, none of
    whose transactions deletes a contract key that never had a version, was played
    from a state at rest, rolling the blocks back in reverse order succeeds, as
    long as they are above the irreversible height, their parents are known and the
    store takes the writes, and gives every address the amounts it had under the same
    keys, the recorded total and every contract key the version it had.  Rolling back
    the deletion of a key without a version leaves one: [undone_delete_leaves_version]. *)
Theorem chain_rolls_back bs s s' :
  (forall u, write_ok u = true) -> at_rest s -> good_blocks bs s -> Forall (fun b => Forall no_fresh_delete (Transactions b)) bs ->
  play_blocks bs s = (Ret tt, s') -> undoable bs s' ->
  exists s'', procUndoBlkForWalk write_ok (rev bs) ∅ false s' = (Ret tt, s'') /\
    same_amounts (stored s'') (stored s) /\ utxoTotal (utxo s'') = utxoTotal (utxo s) /\
    (forall raw, view (xmodel (new_batch s'')) raw = view (xmodel (new_batch s)) raw).
Proof.
  intros Hw Hr Hg Hnf E Hu. assert (rests_like s' s') as Hl.
  { assert (xstate_ok (xmodel (new_batch s'))) as Hx; [|by split].
    revert s Hr Hg E. clear Hu Hnf. induction bs as [|b bs IH]; intros s Hr Hg; cbn [todo_blocks]; [intros [= <-]; apply Hr|].
    unfold mbnd. destruct (todo_block _ _ _ b s) as [[[]| |] s1] eqn:E1; [|done..]. destruct Hg as [Hg Hgs].
    apply IH; [apply (todo_block_done _ _ _ Hr Hg E1)|by apply Hgs]. }
  destruct (play_blocks_back bs s s' s' Hw Hr Hg Hnf E Hl Hu) as (s'' & Eu & [_ _ L3 L4 L5] & _). exists s''. split_and!; [done|exact L4|exact L5|].
  intros raw. unfold view. by apply restored_version.
Qed.

(** ** The irreversible height *)

Definition irreversible s : Z := IrreversibleBlockHeight (Meta s).
Definition window s : Z := IrreversibleSlideWindow (Meta s).
(** Between blocks the two copies of the parameters agree. *)
Definition meta_settled s : Prop := Meta s = MetaTmp s.

Lemma foldl_meta {A} (f : State P -> A -> State P) : (forall s a, meta_of (f s a) = meta_of s) -> forall l s, meta_of (foldl f s l) = meta_of s.
Proof. intros Hf l. induction l as [|a l IH]; intros s; [done|]. cbn. by rewrite IH. Qed.

Lemma create_outputs_meta txid cb filler outs : forall n s hs s', create_outputs txid cb filler n outs s = (hs, s') -> meta_of s' = meta_of s.
Proof.
  induction outs as [|out outs IH]; intros n s hs s'; cbn [create_outputs]; [by intros [= _ <-]|].
  destruct (create_output txid cb filler n out s) as [h s1] eqn:E1. destruct (create_outputs txid cb filler (S n) outs s1) as [hs2 s2] eqn:E2.
  intros [= _ <-]. rewrite (IH _ _ _ _ E2). unfold create_output in E1. destruct (is_fee out || _); [by injection E1 as _ <-|].
  injection E1 as _ <-. by destruct filler, cb.
Qed.

Lemma pay_outputs_meta txid proposer outs : forall n s, meta_of (pay_outputs txid proposer n outs s) = meta_of s.
Proof. induction outs as [|out outs IH]; intros n s; [done|]. cbn [pay_outputs]. rewrite IH. unfold pay_output. by destruct (is_fee out). Qed.

Lemma on_xmodel_meta {A} (c : M XModel A) s o s' : on_xmodel c s = (o, s') -> meta_of s' = meta_of s.
Proof. unfold on_xmodel. destruct (c (xmodel s)). by intros [= _ <-]. Qed.

Lemma doTxInternal_meta tx filler s o s' : doTxInternal tx filler s = (o, s') -> meta_of s' = meta_of s.
Proof.
  unfold doTxInternal. set (s0 := up _ s). destruct (check_amounts tx s0); [|by intros [= _ <-]..].
  destruct (on_xmodel (XModel_DoTx tx) s0) as [[u|e|] s1] eqn:E1; apply on_xmodel_meta in E1; [|intros [= _ <-]; exact E1..].
  destruct (create_outputs _ _ _ _ _ _) as [hs s2] eqn:E2. intros [= _ <-]. rewrite (create_outputs_meta _ _ _ _ _ _ _ _ E2), foldl_meta; [exact E1|done].
Qed.

Lemma undoTxInternal_meta tx s o s' : undoTxInternal tx s = (o, s') -> meta_of s' = meta_of s.
Proof.
  unfold undoTxInternal. destruct (on_xmodel (XModel_UndoTx tx) s) as [[u|e|] s1] eqn:E1; apply on_xmodel_meta in E1; intros [= _ <-]; [|exact E1..].
  rewrite (mv_meta _ _ _ _ (remove_outputs_moves _ _ _ _ _)), foldl_meta; [exact E1|done].
Qed.

Lemma todo_txs_meta block txs : forall s s', todo_txs ImmediateVerifyTx ImmediateVerifyAutoTx block txs s = (Ret tt, s') -> meta_of s' = meta_of s.
Proof.
  induction txs as [|tx txs IH]; intros s s'; cbn [todo_txs]; [by intros [= <-]|]. unfold mbnd at 1, verify_todo.
  destruct (verifyAutogenTxValid tx && _ && _); [done|]. destruct (negb (Autogen tx) && _ && _); [done|].
  unfold mbnd at 1, play_tx, mbnd at 1. destruct (doTxInternal tx true s) as [[hs|e|] s1] eqn:E1; [|done..]. cbn [on_state]. unfold mbnd at 1. intros Hrun%IH.
  rewrite Hrun. unfold payFee, Commit. cbn. rewrite pay_outputs_meta, foldl_meta; [by apply doTxInternal_meta in E1|]. by intros s2 [[a k] i].
Qed.

Lemma undo_txs_meta block done txs : forall s s', undo_txs block done txs s = (Ret tt, s') -> meta_of s' = meta_of s.
Proof.
  induction txs as [|tx txs IH]; intros s s'; cbn [undo_txs]; [by intros [= <-]|]. unfold mbnd at 1.
  destruct (decide (Txid tx ∈ done)); cbn.
  - intros ->%IH. apply (mv_meta _ _ _ _ (unpay_outputs_moves _ _ _ _ _)).
  - unfold mbnd at 1. destruct (undoTxInternal tx s) as [[[]| |] s1] eqn:E1; [|done..]. cbn. intros ->%IH.
    unfold undoPayFee. rewrite (mv_meta _ _ _ _ (unpay_outputs_moves _ _ _ _ _)). by apply undoTxInternal_meta in E1.
Qed.

Lemma undo_block_height done block s s' : undo_block write_ok done false block s = (Ret tt, s') ->
  (IrreversibleBlockHeight (Meta s) < Height block)%Z /\ Meta s' = MetaTmp s /\ MetaTmp s' = MetaTmp s.
Proof.
  unfold undo_block. cbn [negb andb]. destruct (Z.leb_spec (Height block) (IrreversibleBlockHeight (Meta s))); [done|].
  unfold mbnd at 1, on_state at 1. unfold mbnd at 1. destruct (undo_txs block done _ (new_batch s)) as [[[]| |] s1] eqn:E1; [|done..].
  apply undo_txs_meta in E1. unfold mbnd at 1, mpure at 1. unfold mbnd.
  destruct (updateLatestBlockid write_ok (PreHash block) s1) as [[[]| |] s2] eqn:E2; [|done..]. intros [= <-].
  pose proof (cl_meta _ _ _ (updateLatestBlockid_closed _ _ _ E2)) as Em. unfold meta_of in E1, Em. injection E1 as F1 F2 F3. injection Em as G1 G2 G3.
  cbn in *. split_and!; [done|congruence..].
Qed.

(** Consensus never rolls back irreversible blocks.  If rolling back a list of
    blocks succeeds (other than for pruning), each of them was above the
    irreversible height, which has not changed. *)
Theorem irreversible_blocks_stay done blocks : forall s s',
  meta_settled s -> procUndoBlkForWalk write_ok blocks done false s = (Ret tt, s') ->
  Forall (fun b => (irreversible s < Height b)%Z) blocks /\ meta_settled s' /\ Meta s' = Meta s.
Proof using All.
  induction blocks as [|b blocks IH]; intros s s' Hm; cbn [procUndoBlkForWalk]; [by intros [= <-]|]. unfold mbnd.
  destruct (undo_block write_ok done false b s) as [[[]| |] s1] eqn:E1; [|done..]. apply undo_block_height in E1 as (Hh & M1 & M2). intros E2.
  destruct (IH s1 s') as (Hf & M3 & M4); [unfold meta_settled in *; congruence|done|]. unfold meta_settled, irreversible in *.
  rewrite M1, <- Hm in Hf. split_and!; [by constructor|congruence..].
Qed.

(** The irreversible height follows the chain and never goes back.  After a
    block of height [h] it is the larger of its old value and [h - window] (with
    the window switched off it stays); the window is unchanged. *)
Theorem irreversible_height_grows s block s' :
  meta_settled s -> is_int64 (Height block - window s) -> play_block block s = (Ret tt, s') ->
  meta_settled s' /\ window s' = window s /\ (0 <= window s)%Z /\
  irreversible s' = if (window s =? 0)%Z then irreversible s else Z.max (irreversible s) (Height block - window s).
Proof using All.
  unfold meta_settled, irreversible, window. intros Hm Hi. unfold todo_block, mbnd at 1, on_state at 1. unfold mbnd at 1. destruct (todo_txs _ _ block _ (new_batch s)) as [[[]| |] s1] eqn:E1; [|done..].
  apply todo_txs_meta in E1. unfold mbnd at 1. destruct (update_irreversible (Height block) s1) as [[[]| |] s2] eqn:E2; [|done..]. unfold mbnd.
  destruct (updateLatestBlockid write_ok (Blockid block) s2) as [[[]| |] s3] eqn:E3; [|done..]. intros [= <-].
  pose proof (cl_meta _ _ _ (updateLatestBlockid_closed _ _ _ E3)) as Em. unfold meta_of in E1, Em. injection E1 as F1 F2 F3. injection Em as G1 G2 G3.
  change (Meta (new_batch s)) with (Meta s) in F1. change (MetaTmp (new_batch s)) with (MetaTmp s) in F2.
  revert E2. unfold update_irreversible, UpdateNextIrreversibleBlockHeight. rewrite F1. unfold sub64. rewrite wrap64_id by done.
  change (Meta (update_meta s3)) with (MetaTmp s3). change (MetaTmp (update_meta s3)) with (MetaTmp s3). rewrite G2.
  destruct (Z.ltb_spec (IrreversibleSlideWindow (Meta s)) 0); [done|].
  destruct (Z.eqb_spec (IrreversibleSlideWindow (Meta s)) 0) as [Ez|Ez]; [intros [= <-]; rewrite F2, <- Hm; done|].
  destruct (IrreversibleBlockHeight (Meta s) <? 0)%Z; [done|]. destruct (Z.leb_spec (Height block - IrreversibleSlideWindow (Meta s)) (IrreversibleBlockHeight (Meta s))).
  - intros [= <-]. rewrite F2, <- Hm. split_and!; [done..|]. lia.
  - intros [= <-]. cbn. rewrite F2, <- Hm. split_and!; [done..|]. lia.
Qed.
End Spec.

(** ** Examples *)

Module StateExample.
(** A pool that keeps what it is given. *)
#[export] Instance ListPool : MempoolOps (list Transaction) := {
  mp_HasTx id p := existsb (fun tx => bool_decide (Txid tx = id)) p;
  mp_Full _ := false;
  mp_PutTx tx p := (Ret tt, p ++ [tx]);
  mp_FindConflictByTx _ p := ([], p);
  mp_DeleteTxAndChildren id p := List.filter (fun tx => negb (bool_decide (Txid tx = id))) p;
  mp_BatchDeleteTx _ p := p;
  mp_BatchConfirmTx _ p := p;
  mp_BatchConfirmTxID _ p := p;
  mp_Range p := p
}.

Definition tx (id blk : string) (cb : bool) (ins : list TxInput) (outs : list TxOutput) : Transaction := mkTx id blk cb false "" ins outs [] [] None.
Definition inp (addr txid : string) (off amount frozen : Z) : TxInput := mkTxIn txid off addr (Bytes amount) frozen.
Definition out (addr : string) (amount : Z) : TxOutput := mkTxOut (Bytes amount) addr 0.
Definition blk (id pre : string) (height : Z) (txs : list Transaction) : InternalBlock :=
  mkBlk 1 0 id pre "miner" "" "" "" height 0 txs (Z.of_nat (length txs)) [] 0 0 ∅ 0 None true "".

(** Block [b1] mints 10 to [c], moves 5 from [a] to [b] (3) with a fee of 2. *)
Definition cb : Transaction := tx "cb" "b1" true [] [out "c" 10].
Definition t1 : Transaction := tx "t1" "b1" false [inp "a" "t0" 0 5 0] [out "b" 3; out "$" 2].
(** The same transfer, claiming that what it spends was frozen for good; another
    spending of the same output; a transaction that does not balance. *)
Definition t1f : Transaction := tx "t1" "b1" false [inp "a" "t0" 0 5 (-1)] [out "b" 5].
Definition t2 : Transaction := tx "t2" "b1" false [inp "a" "t0" 0 5 0] [out "d" 5].
Definition t3 : Transaction := tx "t3" "b1" false [] [out "e" 1].
(** One that spends the output of [t2]. *)
Definition t4 : Transaction := tx "t4" "" false [inp "d" "t2" 0 5 0] [out "f" 5].

Definition b1 : InternalBlock := blk "b1" "g" 1 [cb; t1].
Definition b1f : InternalBlock := blk "b1" "g" 1 [t1f].
Definition b1d : InternalBlock := blk "b1" "g" 1 [t1; t2].
Definition b1x : InternalBlock := blk "b1" "g" 1 [t2; t3].

Definition store (b : InternalBlock) : InternalBlock :=
  mkBlk 1 0 (Blockid b) (PreHash b) "miner" "" "" "" (Height b) 0 [] (TxCount b) (Some ∘ Txid <$> Transactions b) 0 0 ∅ 0 None true "".
Definition ledger_of (b : InternalBlock) : Ledger :=
  set_confirmed (set_blocks empty_ledger (<["b1" := store b]> (<["g" := blk "g" "" 0 []]> ∅))) (list_to_map ((fun tx => (Txid tx, tx)) <$> Transactions b)).

Definition k0 : string := GenUtxoKeyWithPrefix "a" "t0" 0.
Definition db0 : StateDB := mkDB ∅ ∅ ∅ {[k0 := mkItem 5 0]} (Some 5%Z) (Some "g") None.
Definition vm0 : UtxoVM := MakeUtxo 100 (Some 5%Z).
Definition state0 (b : InternalBlock) : State (list Transaction) := mkState (NewXModel (ledger_of b) db0) vm0 NewSpinLock (mkUM 0 2) (mkUM 0 2) "g" 100 [].

Definition todo (b : InternalBlock) := todo_block (fun _ _ _ => true) (fun _ _ _ _ => true) (fun _ => true) b (state0 b).
Definition undo (b : InternalBlock) := undo_block (fun _ => true) ∅ false b.
Definition play (b : InternalBlock) := PlayAndRepost (fun _ _ _ => mpure tt) (fun _ => true) (Blockid b) false (state0 b).

Lemma xmodel0 b : xstate_ok (xmodel (new_batch (state0 b))).
Proof. apply (next_batch_ok (NewXModel (ledger_of b) db0)). apply NewXModel_ok. split; [split; [constructor|done]|]. by intros id t. Qed.

Lemma rest0 b : at_rest (state0 b).
Proof.
  split; [apply xmodel0|]. split; try done.
  - intros k i Hk. by right.
  - intros k i. change (table (new_batch (state0 b))) with ({[k0 := mkItem 5 0]} : gmap string UtxoItem). by intros [<- <-]%lookup_singleton_Some.
Qed.

Lemma unused0 b txid : txid <> "t0" -> unused (new_batch (state0 b)) txid 0.
Proof.
  intros Hne k (a & n & _ & Hn & ->). change (table (new_batch (state0 b))) with ({[k0 := mkItem 5 0]} : gmap string UtxoItem).
  apply lookup_singleton_ne. intros E. apply GenUtxoKey_inj in E as [E _]; [by subst|done|by apply offset_int64].
Qed.
End StateExample.
Import StateExample.

(** Rolling back writes the frozen height the transaction claimed.  Nothing
    compares that claim with the output: spending an output with the claim that
    it was frozen for good is accepted, and rolling the block back leaves the
    output frozen for good. *)
Theorem rollback_freezes_output :
  let '(o1, s1) := todo b1f in
  let '(o2, s2) := undo b1f s1 in
  o1 = Ret tt /\ o2 = Ret tt /\ stored (state0 b1f) !! k0 = Some (mkItem 5 0) /\ stored s2 !! k0 = Some (mkItem 5 (-1)).
Proof. by vm_compute. Qed.

(** A block walked to may spend an output twice.  [PlayAndRepost] refuses a
    block in which two transactions spend the same output, but
    [procTodoBlkForWalk] accepts it: the second transaction finds the output in
    the database, which the batch has not reached.  The outputs then add up to
    more than the recorded total. *)
Theorem walked_block_spends_twice :
  (play b1d).1 = Err ErrUTXODuplicated /\
  (todo b1d).1 = Ret tt /\ held (stored (state0 b1d)) = 5%Z /\ held (stored (todo b1d).2) = 10%Z /\ utxoTotal (utxo (todo b1d).2) = 5%Z.
Proof. split_and!; by vm_compute. Qed.

(** A refused block leaves outputs in the cache.  When the last transaction of
    a block fails, the batch is dropped but the outputs of the others stay in the
    cache of outputs; a transaction posted afterwards can spend one of them,
    which adds to the database money that was never there. *)
Theorem refused_block_leaves_outputs :
  let '(o1, s1) := play b1x in
  let '(o2, s2) := doTxSync (fun _ => true) t4 s1 in
  o1 = Err ErrInputOutputNotEqual /\ stored s1 = stored (state0 b1x) /\ o2 = Ret tt /\
  held (stored s1) = 5%Z /\ held (stored s2) = 10%Z /\ utxoTotal (utxo s2) = 5%Z.
Proof. vm_compute. by split_and!. Qed.

Lemma known0 b txx : Txid txx <> "" -> TxOutputsExt txx = [] -> outs_of (xmodel (new_batch (state0 b))) (Txid txx) = Some [] -> TxBlockid txx <> "" ->
  sees_tx (xmodel (new_batch (state0 b))) txx.
Proof.
  intros Hid Ho Hk Hb. split; [|done]. split; [split_and!; [done| |]|].
  - by rewrite Ho.
  - intros outs. rewrite Hk, Ho. by intros [= <-].
  - by rewrite Ho.
Qed.

Lemma good_b1 : good_block (state0 b1) b1.
Proof.
  split; [split|by apply (bool_decide_unpack _); vm_compute]; [|by apply (bool_decide_unpack _); vm_compute].
  constructor; [|constructor; [|constructor]]; split_and!; try (apply known0; [done|done|by vm_compute|done]); try (by apply unused0).
  - split; [done|constructor|by vm_compute|]. intros _. split; [done|]. by repeat constructor.
  - split; [done|constructor; [by vm_compute|constructor]|by vm_compute|done].
Qed.

Lemma block_conserves_money_witness :
  exists s', todo b1 = (Ret tt, s') /\ at_rest s' /\ (held (stored s') - held (stored (state0 b1)) = 15 - 5)%Z.
Proof.
  destruct (todo b1) as [o s'] eqn:E. exists s'.
  assert (o = Ret tt) as -> by (change o with (o, s').1; rewrite <- E; by vm_compute). split; [done|].
  destruct (block_conserves_money (fun _ _ _ => true) (fun _ _ _ _ => true) (fun _ => true) (state0 b1) b1 s' (rest0 b1) good_b1 E) as (Hr & _ & Hm).
  split; [exact Hr|]. rewrite Hm. change s' with (Ret tt, s').2. rewrite <- E. by vm_compute.
Defined.

Lemma chain_rolls_back_witness :
  exists s' s'', todo b1 = (Ret tt, s') /\ undo b1 s' = (Ret tt, s'') /\ same_amounts (stored s'') (stored (state0 b1)).
Proof.
  destruct (todo b1) as [o s'] eqn:E.
  assert (o = Ret tt) as -> by (change o with (o, s').1; rewrite <- E; by vm_compute).
  assert (todo_blocks (fun _ _ _ => true) (fun _ _ _ _ => true) (fun _ => true) [b1] (state0 b1) = (Ret tt, s')) as E'.
  { cbn [todo_blocks]. unfold mbnd. unfold todo in E. rewrite E. done. }
  destruct (chain_rolls_back (fun _ _ _ => true) (fun _ _ _ _ => true) (fun _ => true) [b1] (state0 b1) s') as (s'' & Hu & Hs & _).
  - done.
  - apply rest0.
  - split; [apply good_b1|done].
  - repeat constructor.
  - exact E'.
  - change s' with (Ret tt, s').2. rewrite <- E. clear. split; [by vm_compute|]. constructor; [|constructor]. split; [by vm_compute|].
    apply (bool_decide_unpack _). by vm_compute.
  - exists s', s''. split; [done|]. split; [|exact Hs]. clear -Hu. cbn [rev app procUndoBlkForWalk] in Hu. unfold mbnd in Hu. unfold undo.
    destruct (undo_block _ _ _ b1 s') as [[[]| |] t]; [|done..]. exact Hu.
Defined.

Lemma irreversible_blocks_stay_witness :
  exists s'', procUndoBlkForWalk (fun _ => true) [b1] ∅ false (todo b1).2 = (Ret tt, s'') /\
    Forall (fun b => (irreversible (todo b1).2 < Height b)%Z) [b1].
Proof.
  destruct (procUndoBlkForWalk (fun _ => true) [b1] ∅ false (todo b1).2) as [o s''] eqn:E. exists s''.
  assert (o = Ret tt) as -> by (change o with (o, s'').1; rewrite <- E; by vm_compute). split; [done|].
  exact (proj1 (irreversible_blocks_stay (fun _ _ _ => true) (fun _ _ _ _ => true) (fun _ => true) ∅ [b1] (todo b1).2 s'' ltac:(unfold meta_settled; by vm_compute) E)).
Defined.

(** A block of height 7 with a window of 2 makes 5 irreversible. *)
Definition b7 : InternalBlock := blk "b1" "g" 7 [].
Lemma irreversible_height_grows_witness : exists s', todo b7 = (Ret tt, s') /\ irreversible s' = 5%Z.
Proof.
  destruct (todo b7) as [o s'] eqn:E. exists s'.
  assert (o = Ret tt) as -> by (change o with (o, s').1; rewrite <- E; by vm_compute). split; [done|].
  destruct (irreversible_height_grows (fun _ _ _ => true) (fun _ _ _ _ => true) (fun _ => true) (state0 b7) b7 s') as (_ & _ & _ & Hh);
    [done|apply (bool_decide_unpack _); by vm_compute|exact E|exact Hh].
Defined.
