(* ===== verification/Mempool.v ===== *)
(** * The pool of unconfirmed transactions

    [bcs/ledger/xledger/tx/mempool.go], [node.go] and the readers of the pool in
    [tx.go].  The pool is a graph of nodes that point to each other: an output
    of a node points to the node of the transaction that spends it, an input
    points back.  Nodes are objects, so the model keeps them in a heap and a
    pointer is an address in it; [make], [append] and the writes to a slice or a
    map of a node are updates of the heap.

    The order in which Go ranges over a map is not specified: it is the
    parameter [range_order], any permutation of the entries (the same for equal
    maps).  A recursion deeper than the number of nodes repeats a node and does
    not end; it is a panic, as an exhausted stack is. *)

From Stdlib Require Import ZArith Lia.
From stdpp Require Import base gmap strings list numbers sorting.
From S2P Require Import Prelude GoValues Sandbox LedgerHash XModel.

Set Default Proof Using "Type".

Definition ErrTxExist : string := "tx already in mempool".
Definition ErrInvalidTx : string := "invalid tx".
Definition ErrPoolDoubleSpent : string := "double spent in mempool".
Definition ErrPoolFull : string := "The tx mempool is full".
Definition stoneNodeID : string := "stoneNodeID".

Notation ptr := nat (only parsing).

(** ** Nodes *)

Record Node := mkNode {
  n_txid : string;
  n_tx : option Transaction;
  readonlyInputs : gmap string ptr;
  readonlyOutputs : gmap string ptr;
  bucketKeyToNode : gmap string ptr;
  txInputs : list (option ptr);
  txInputsExt : list (option ptr);
  txOutputs : list (option ptr);
  txOutputsExt : list (option ptr)
}.

Definition tx_inputs (tx : option Transaction) : list TxInput := from_option TxInputs [] tx.
Definition tx_inputs_ext (tx : option Transaction) : list TxInputExt := from_option TxInputsExt [] tx.
Definition tx_outputs (tx : option Transaction) : list TxOutput := from_option TxOutputs [] tx.
Definition tx_outputs_ext (tx : option Transaction) : list TxOutputExt := from_option TxOutputsExt [] tx.

(** A node without a transaction stands for one that is not known. *)
Definition NewNode (txid : string) (tx : option Transaction) : Node :=
  mkNode txid tx ∅ ∅ ∅ (replicate (length (tx_inputs tx)) None) (replicate (length (tx_inputs_ext tx)) None)
    (replicate (length (tx_outputs tx)) None) (replicate (length (tx_outputs_ext tx)) None).

Definition set_n_tx (n : Node) v := mkNode (n_txid n) v (readonlyInputs n) (readonlyOutputs n) (bucketKeyToNode n) (txInputs n) (txInputsExt n) (txOutputs n) (txOutputsExt n).
Definition set_roIn (n : Node) v := mkNode (n_txid n) (n_tx n) v (readonlyOutputs n) (bucketKeyToNode n) (txInputs n) (txInputsExt n) (txOutputs n) (txOutputsExt n).
Definition set_roOut (n : Node) v := mkNode (n_txid n) (n_tx n) (readonlyInputs n) v (bucketKeyToNode n) (txInputs n) (txInputsExt n) (txOutputs n) (txOutputsExt n).
Definition set_bkNode (n : Node) v := mkNode (n_txid n) (n_tx n) (readonlyInputs n) (readonlyOutputs n) v (txInputs n) (txInputsExt n) (txOutputs n) (txOutputsExt n).
Definition set_txIn (n : Node) v := mkNode (n_txid n) (n_tx n) (readonlyInputs n) (readonlyOutputs n) (bucketKeyToNode n) v (txInputsExt n) (txOutputs n) (txOutputsExt n).
Definition set_txInExt (n : Node) v := mkNode (n_txid n) (n_tx n) (readonlyInputs n) (readonlyOutputs n) (bucketKeyToNode n) (txInputs n) v (txOutputs n) (txOutputsExt n).
Definition set_txOut (n : Node) v := mkNode (n_txid n) (n_tx n) (readonlyInputs n) (readonlyOutputs n) (bucketKeyToNode n) (txInputs n) (txInputsExt n) v (txOutputsExt n).
Definition set_txOutExt (n : Node) v := mkNode (n_txid n) (n_tx n) (readonlyInputs n) (readonlyOutputs n) (bucketKeyToNode n) (txInputs n) (txInputsExt n) (txOutputs n) v.

(** The pool; [heap] holds the nodes ever made, [next] is a free address. *)
Record Mempool := mkPool {
  txLimit : Z;
  heap : gmap nat Node;
  next : ptr;
  confirmed : gmap string ptr;
  unconfirmed : gmap string ptr;
  orphans : gmap string ptr;
  bucketKeyNodes : gmap string (gmap string ptr);
  emptyTxIDNode : option ptr;
  stoneNode : option ptr
}.

Definition set_heap (m : Mempool) v := mkPool (txLimit m) v (next m) (confirmed m) (unconfirmed m) (orphans m) (bucketKeyNodes m) (emptyTxIDNode m) (stoneNode m).
Definition set_confirmed (m : Mempool) v := mkPool (txLimit m) (heap m) (next m) v (unconfirmed m) (orphans m) (bucketKeyNodes m) (emptyTxIDNode m) (stoneNode m).
Definition set_unconfirmed (m : Mempool) v := mkPool (txLimit m) (heap m) (next m) (confirmed m) v (orphans m) (bucketKeyNodes m) (emptyTxIDNode m) (stoneNode m).
Definition set_orphans (m : Mempool) v := mkPool (txLimit m) (heap m) (next m) (confirmed m) (unconfirmed m) v (bucketKeyNodes m) (emptyTxIDNode m) (stoneNode m).
Definition set_bkNodes (m : Mempool) v := mkPool (txLimit m) (heap m) (next m) (confirmed m) (unconfirmed m) (orphans m) v (emptyTxIDNode m) (stoneNode m).
Definition set_emptyNode (m : Mempool) v := mkPool (txLimit m) (heap m) (next m) (confirmed m) (unconfirmed m) (orphans m) (bucketKeyNodes m) v (stoneNode m).
Definition set_stoneNode (m : Mempool) v := mkPool (txLimit m) (heap m) (next m) (confirmed m) (unconfirmed m) (orphans m) (bucketKeyNodes m) (emptyTxIDNode m) v.

Definition defaultMaxtxLimit : Z := 100000.
Definition NewMempool (limit : Z) : Mempool :=
  mkPool (if (limit <=? 0)%Z then defaultMaxtxLimit else limit) ∅ 0 ∅ ∅ ∅ ∅ None None.

(** ** The heap *)

Definition on_pool (f : Mempool -> Mempool) : M Mempool unit := fun m => (Ret tt, f m).
Definition alloc (n : Node) : M Mempool ptr := fun m =>
  (Ret (next m), mkPool (txLimit m) (<[next m := n]> (heap m)) (S (next m)) (confirmed m) (unconfirmed m) (orphans m)
                   (bucketKeyNodes m) (emptyTxIDNode m) (stoneNode m)).
Definition load (p : ptr) : M Mempool Node := fun m =>
  match heap m !! p with Some n => (Ret n, m) | None => (Panic, m) end.
Definition update (p : ptr) (f : Node -> Node) : M Mempool unit := on_pool (fun m => set_heap m (alter f p (heap m))).

(** [for x := range l]; [l] is read when the loop starts. *)
Fixpoint each {S A} (f : A -> M S unit) (l : list A) : M S unit :=
  match l with [] => mpure tt | x :: l => do! f x in each f l end.
Fixpoint each_acc {S A B} (f : A -> B -> M S B) (l : list A) (b : B) : M S B :=
  match l with [] => mpure b | x :: l => let! b := f x b in each_acc f l b end.

(** [s[i] = v] of a slice. *)
Definition in_range {A} (i : Z) (l : list A) : bool := ((0 <=? i) && (i <? Z.of_nat (length l)))%Z.
Definition store (get : Node -> list (option ptr)) (set : Node -> list (option ptr) -> Node) (p : ptr) (i : Z) (v : option ptr) : M Mempool unit :=
  let! n := load p in
  if in_range i (get n) then update p (fun n => set n (<[Z.to_nat i := v]> (get n))) else mpanic.
Definition store_txOut := store txOutputs set_txOut.
Definition store_txOutExt := store txOutputsExt set_txOutExt.
Definition store_txIn := store txInputs set_txIn.
Definition store_txInExt := store txInputsExt set_txInExt.

(** [append(s, make([]*Node, k)...)] up to length [k]. *)
Definition grow (l : list (option ptr)) (k : Z) : list (option ptr) := l ++ replicate (Z.to_nat (k - Z.of_nat (length l))) None.

(** ** Keys *)

Definition input_bk (i : TxInputExt) : string := ie_Bucket i +:+ ie_Key i.
Definition output_bk (o : TxOutputExt) : string := oe_Bucket o +:+ oe_Key o.
Definition ref_of (i : TxInputExt) : string := default "" (ie_RefTxid i).
Definition has_value (o : TxOutputExt) : bool := match oe_Value o with Some v => negb (is_empty_string (blob_string v)) | None => false end.

(** [isReadonlyKey] of the input [i] of [tx]. *)
Definition isReadonlyKey (tx : Transaction) (i : TxInputExt) : bool :=
  negb (existsb (fun o => bool_decide (oe_Bucket o = ie_Bucket i) && bool_decide (oe_Key o = ie_Key i) && has_value o) (TxOutputsExt tx)).

Definition makeVersion (i : TxInputExt) : string := MakeVersion (ref_of i) (ie_RefOffset i).

Section Pool.
Context `{MapOrder}.
(** [m.Tx.ledger.QueryTransaction], and a bound on the loop over orphans. *)
Context (queryTxFromDB : string -> option Transaction) (fuel : nat).

(** ** Relatives *)

Definition txid_of (h : gmap nat Node) (p : ptr) : string := from_option n_txid "" (h !! p).

(** Pointers of [l] by the first of each txid; nil pointers are left out. *)
Fixpoint dedup (h : gmap nat Node) (seen : gset string) (l : list (option ptr)) : list ptr :=
  match l with
  | [] => []
  | None :: l => dedup h seen l
  | Some p :: l => if decide (txid_of h p ∈ seen) then dedup h seen l else p :: dedup h ({[txid_of h p]} ∪ seen) l
  end.
Definition getAllChildren (h : gmap nat Node) (n : Node) : list ptr :=
  dedup h ∅ (txOutputs n ++ txOutputsExt n ++ (Some <$> map_values (readonlyOutputs n))).
Definition getAllParent (h : gmap nat Node) (n : Node) : list ptr :=
  dedup h ∅ (txInputs n ++ txInputsExt n ++ (Some <$> map_values (readonlyInputs n))).

Definition count_some {A} (l : list (option A)) : nat := length (omap id l).
Definition getInputSum (n : Node) : Z := Z.of_nat (count_some (txInputs n) + count_some (txInputsExt n) + size (readonlyInputs n)).

(** [n.updateInput]: input [index] of [n] spends output [offset] of [node].
    Returns the node that spent it before. *)
Definition updateInput (n : ptr) (index : nat) (offset : Z) (node : ptr) (retrieve : bool) : M Mempool (option ptr) :=
  let! nd := load node in
  if ((offset <? 0) || (bool_decide (is_Some (n_tx nd)) && (Z.of_nat (length (txOutputs nd)) <=? offset)))%Z then mfail ErrInvalidTx
  else
    do! (if n_tx nd then mpure tt else update node (fun nd => set_txOut nd (grow (txOutputs nd) (offset + 1)))) in
    let! nd := load node in
    match txOutputs nd !! Z.to_nat offset with
    | None => mpanic
    | Some on =>
        if bool_decide (is_Some on) && negb retrieve then mfail ErrPoolDoubleSpent
        else
          do! store_txIn n (Z.of_nat index) (Some node) in
          do! store_txOut node offset (Some n) in
          mpure on
    end.

Definition updateInputExt (n : ptr) (index : nat) (input : TxInputExt) (node : ptr) (retrieve : bool) : M Mempool (option ptr) :=
  let offset := ie_RefOffset input in
  let! nd := load node in
  if ((offset <? 0) || (bool_decide (is_Some (n_tx nd)) && (Z.of_nat (length (txOutputsExt nd)) <=? offset)))%Z then mfail ErrInvalidTx
  else
    let! this := load n in
    match n_tx this with
    | None => mpanic
    | Some tx =>
        if isReadonlyKey tx input then
          do! update node (fun nd => set_roOut nd (<[n_txid this := n]> (readonlyOutputs nd))) in
          do! update n (fun this => set_roIn this (<[n_txid nd := node]> (readonlyInputs this))) in
          mpure None
        else
          do! (if n_tx nd then mpure tt else update node (fun nd => set_txOutExt nd (grow (txOutputsExt nd) (offset + 1)))) in
          let! nd := load node in
          match txOutputsExt nd !! Z.to_nat offset with
          | None => mpanic
          | Some on =>
              if bool_decide (is_Some on) && negb retrieve then mfail ErrPoolDoubleSpent
              else
                do! store_txOutExt node offset (Some n) in
                do! store_txInExt n (Z.of_nat index) (Some node) in
                mpure on
          end
    end.

(** ** Cutting a node off its parents *)

Definition break_input (n : ptr) (i : nat) : M Mempool unit :=
  let! nd := load n in
  match txInputs nd !! i with
  | Some (Some fn) =>
      match tx_inputs (n_tx nd) !! i with
      | None => mpanic
      | Some input => do! store_txOut fn (ti_RefOffset input) None in store_txIn n (Z.of_nat i) None
      end
  | _ => mpure tt
  end.

Definition break_input_ext (n : ptr) (i : nat) : M Mempool unit :=
  let! nd := load n in
  match txInputsExt nd !! i with
  | Some (Some fn) =>
      match tx_inputs_ext (n_tx nd) !! i with
      | None => mpanic
      | Some input =>
          let offset := ie_RefOffset input in
          let! father := load fn in
          do! (if (offset <? Z.of_nat (length (txOutputsExt father)))%Z then store_txOutExt fn offset None else mpure tt) in
          let! father := load fn in
          do! (match bucketKeyToNode father !! input_bk input with
               | Some nn => let! nnd := load nn in
                   if bool_decide (n_txid nnd = n_txid nd)
                   then update fn (fun fn => set_bkNode fn (delete (input_bk input) (bucketKeyToNode fn))) else mpure tt
               | None => mpure tt
               end) in
          store_txInExt n (Z.of_nat i) None
      end
  | _ => mpure tt
  end.

Definition break_readonly (n : ptr) (k : string) : M Mempool unit :=
  let! nd := load n in
  match readonlyInputs nd !! k with
  | None => mpure tt
  | Some fn =>
      do! update fn (fun fn => set_roOut fn (delete (n_txid nd) (readonlyOutputs fn))) in
      update n (fun n => set_roIn n (delete k (readonlyInputs n)))
  end.

Definition breakOutputs (n : ptr) : M Mempool unit :=
  let! nd := load n in
  do! each (break_input n) (seq 0 (length (txInputs nd))) in
  do! each (break_input_ext n) (seq 0 (length (txInputsExt nd))) in
  each (break_readonly n) (map_keys (readonlyInputs nd)).

(** ** The index by key *)

Definition tx_bks (tx : option Transaction) : list string := (input_bk <$> tx_inputs_ext tx) ++ (output_bk <$> tx_outputs_ext tx).

Definition del_bk (txid : string) (bkn : gmap string (gmap string ptr)) (key : string) : gmap string (gmap string ptr) :=
  match bkn !! key with
  | None => bkn
  | Some nodes => let nodes := delete txid nodes in
      if bool_decide (nodes = ∅) then delete key bkn else <[key := nodes]> bkn
  end.
Definition put_bk (txid : string) (p : ptr) (bkn : gmap string (gmap string ptr)) (key : string) : gmap string (gmap string ptr) :=
  <[key := <[txid := p]> (default ∅ (bkn !! key))]> bkn.

Definition deleteBucketKey (p : ptr) : M Mempool unit :=
  let! n := load p in on_pool (fun m => set_bkNodes m (foldl (del_bk (n_txid n)) (bucketKeyNodes m) (tx_bks (n_tx n)))).
Definition putBucketKey (p : ptr) : M Mempool unit :=
  let! n := load p in on_pool (fun m => set_bkNodes m (foldl (put_bk (n_txid n) p) (bucketKeyNodes m) (tx_bks (n_tx n)))).

(** ** Depth first *)

(** The nodes ranged over and the transactions found, in order. *)
Definition found : Type := gset ptr * list (option Transaction).

Definition dfs_slot (visit : ptr -> found -> M Mempool found) (node : ptr) (slot : Node -> option ptr) (acc : found) : M Mempool found :=
  let! nd := load node in
  match slot nd with
  | Some v => if decide (node ∈ acc.1) then mpure acc else visit v acc
  | None => mpure acc
  end.

(** [m.dfs]; [f] is what is done to a node after its children. *)
Fixpoint dfs (depth : nat) (f : ptr -> M Mempool unit) (node : ptr) (acc : found) : M Mempool found :=
  match depth with
  | O => mpanic
  | S depth =>
      if decide (node ∈ acc.1) then mpure acc
      else
        let! nd := load node in
        let! acc := each_acc (fun i => dfs_slot (dfs depth f) node (fun nd => mjoin (txOutputs nd !! i))) (seq 0 (length (txOutputs nd))) acc in
        let! acc := each_acc (fun i => dfs_slot (dfs depth f) node (fun nd => mjoin (txOutputsExt nd !! i))) (seq 0 (length (txOutputsExt nd))) acc in
        let! nd := load node in
        let! acc := each_acc (fun k => dfs_slot (dfs depth f) node (fun nd => readonlyOutputs nd !! k)) (map_keys (readonlyOutputs nd)) acc in
        do! f node in
        mpure ({[node]} ∪ acc.1, acc.2 ++ [n_tx nd])
  end.

Definition run_dfs (f : ptr -> M Mempool unit) (node : ptr) (ranged : gset ptr) : M Mempool found := fun m =>
  dfs (S (size (heap m))) f node (ranged, []) m.

Definition doDelNode (p : ptr) : M Mempool unit :=
  do! breakOutputs p in
  do! deleteBucketKey p in
  let! n := load p in
  on_pool (fun m => set_orphans (set_unconfirmed (set_confirmed m (delete (n_txid n) (confirmed m)))
                                   (delete (n_txid n) (unconfirmed m))) (delete (n_txid n) (orphans m))).

Definition deleteChildrenFromNode (p : ptr) : M Mempool (list (option Transaction)) :=
  let! acc := run_dfs doDelNode p ∅ in mpure acc.2.

Definition deleteTx (txid : string) : M Mempool (list (option Transaction)) := fun m =>
  let cut p := do! deleteBucketKey p in do! breakOutputs p in deleteChildrenFromNode p in
  match unconfirmed m !! txid, orphans m !! txid, confirmed m !! txid with
  | Some p, _, _ => cut p (set_unconfirmed m (delete txid (unconfirmed m)))
  | None, Some p, _ => cut p (set_orphans m (delete txid (orphans m)))
  | None, None, Some p => cut p (set_confirmed m (delete txid (confirmed m)))
  | None, None, None => (Ret [], m)
  end.

Definition BatchDeleteTx (txs : list Transaction) : M Mempool unit := each (fun tx => do! deleteTx (Txid tx) in mpure tt) txs.
Definition DeleteTxAndChildren (txid : string) : M Mempool (list (option Transaction)) := deleteTx txid.

(** ** Queries *)

Definition HasTx (txid : string) (m : Mempool) : bool :=
  bool_decide (is_Some (unconfirmed m !! txid)) || bool_decide (is_Some (confirmed m !! txid)) ||
  bool_decide (is_Some (orphans m !! txid ≫= fun p => heap m !! p ≫= n_tx)).
Definition Full (m : Mempool) : bool := (txLimit m <=? Z.of_nat (size (unconfirmed m)))%Z.
Definition GetTxCounnt (m : Mempool) : Z := Z.of_nat (size (unconfirmed m)) + Z.of_nat (size (orphans m)).
Definition GetTx (txid : string) (m : Mempool) : option (option Transaction) :=
  match unconfirmed m !! txid with
  | Some p => Some (heap m !! p ≫= n_tx)
  | None => match orphans m !! txid with Some p => Some (heap m !! p ≫= n_tx) | None => None end
  end.
Definition getNode (txid : string) (m : Mempool) : option ptr :=
  match confirmed m !! txid with
  | Some p => Some p
  | None => match unconfirmed m !! txid with Some p => Some p | None => orphans m !! txid end
  end.
Definition inConfirmedOrUnconfirmed (txid : string) (m : Mempool) : bool :=
  bool_decide (is_Some (confirmed m !! txid)) || bool_decide (is_Some (unconfirmed m !! txid)).

(** ** Conflicts *)

Definition findByUtxo (txid : string) (offset : Z) (ranged : gset ptr) : M Mempool found := fun m =>
  match getNode txid m with
  | None => (Ret (ranged, []), m)
  | Some p =>
      (let! nd := load p in
       if (Z.of_nat (length (txOutputs nd)) <=? offset)%Z then mpure (ranged, [])
       else if (offset <? 0)%Z then mpanic
       else match mjoin (txOutputs nd !! Z.to_nat offset) with
            | None => mpure (ranged, [])
            | Some n => run_dfs (fun _ => mpure tt) n ranged
            end) m
  end.

(** The keys a transaction overwrites, with the versions it overwrites. *)
Definition getTxUsedKeyVersion (tx : Transaction) : gmap string string :=
  foldl (fun kv i => if decide (input_bk i ∈ output_bk <$> TxOutputsExt tx) then <[input_bk i := makeVersion i]> kv else kv) ∅ (TxInputsExt tx).

Definition conflicting (used : gmap string string) (tx : Transaction) (i : TxInputExt) : bool :=
  bool_decide (input_bk i ∈ output_bk <$> TxOutputsExt tx) && bool_decide (used !! input_bk i = Some (makeVersion i)).

Definition findKeyConflictTxs (node : ptr) (used : gmap string string) (acc : found) : M Mempool found :=
  let! nd := load node in
  each_acc (fun i acc =>
    if from_option (fun tx => conflicting used tx i) false (n_tx nd) && negb (bool_decide (node ∈ acc.1))
    then let! r := run_dfs (fun _ => mpure tt) node acc.1 in mpure (r.1, acc.2 ++ r.2)
    else mpure acc) (tx_inputs_ext (n_tx nd)) acc.

Definition find_inputs (tx : Transaction) (acc : found) : M Mempool found :=
  each_acc (fun i acc => let! r := findByUtxo (ti_RefTxid i) (ti_RefOffset i) acc.1 in mpure (r.1, acc.2 ++ r.2)) (TxInputs tx) acc.
Definition find_keys (used : gmap string string) (acc : found) : M Mempool found := 
  each_acc (fun k acc m =>
    match bucketKeyNodes m !! k with
    | None => (Ret acc, m)
    | Some nodes => each_acc (fun n => findKeyConflictTxs n used) (map_values nodes) acc m
    end) (map_keys used) acc.

Definition FindConflictByTx (tx : Transaction) : M Mempool (list (option Transaction)) := fun m =>
  if HasTx (Txid tx) m then (Ret [], m)
  else (let! acc := find_inputs tx (∅, []) in let! acc := find_keys (getTxUsedKeyVersion tx) acc in mpure acc.2) m.

(** ** Orphans *)

Definition is_orphan (h : gmap nat Node) (m : Mempool) (p : ptr) : bool := bool_decide (is_Some (orphans m !! txid_of h p)).

Definition all_fathers (n : Node) (m : Mempool) : bool :=
  forallb (fun v => from_option (fun v => inConfirmedOrUnconfirmed (txid_of (heap m) v) m) true v)
    (txInputs n ++ txInputsExt n ++ (Some <$> map_values (readonlyInputs n))).

Fixpoint orphans_loop (fuel : nat) (q : list ptr) : M Mempool unit := 
  match q with
  | [] => mpure tt
  | p :: q =>
      match fuel with
      | O => mpanic
      | S fuel => fun m =>
          (let! n := load p in
           if all_fathers n m then
             let m := set_unconfirmed (set_orphans m (delete (n_txid n) (orphans m))) (<[n_txid n := p]> (unconfirmed m)) in
             fun _ => orphans_loop fuel (q ++ filter (fun c => is_orphan (heap m) m c) (getAllChildren (heap m) n)) m
           else orphans_loop fuel q) m
      end
  end.
Definition processOrphansToUnconfirmed (orphans : list ptr) : M Mempool unit := orphans_loop fuel orphans.

Definition checkAndMoveOrphan (p : ptr) : M Mempool unit := fun m =>
  (let! n := load p in
   processOrphansToUnconfirmed
     (filter (fun c => is_orphan (heap m) m c) (omap id (txOutputs n ++ txOutputsExt n ++ (Some <$> map_values (readonlyOutputs n)))))) m.

(** ** Adding a transaction *)

Definition getEvidenceRoot : M Mempool ptr := fun m =>
  match stoneNode m with
  | Some p => (Ret p, m)
  | None => (let! p := alloc (NewNode stoneNodeID None) in do! on_pool (fun m => set_stoneNode m (Some p)) in mpure p) m
  end.

(** A transaction without inputs hangs below the stone node. *)
Definition processEvidenceNode (node : ptr) : M Mempool unit :=
  let! stone := getEvidenceRoot in
  let! sn := load stone in
  let! n := load node in
  do! on_pool (fun m => set_confirmed m (<[n_txid sn := stone]> (confirmed m))) in
  do! update stone (fun sn => set_roOut sn (<[n_txid n := node]> (readonlyOutputs sn))) in
  do! update node (fun n => set_roIn n (<[n_txid sn := stone]> (readonlyInputs n))) in
  on_pool (fun m => set_unconfirmed m (<[n_txid n := node]> (unconfirmed m))).

Definition getEmptyNode : M Mempool ptr := fun m =>
  match emptyTxIDNode m with
  | Some p => (Ret p, m)
  | None => (let! p := alloc (NewNode "" None) in do! on_pool (fun m => set_emptyNode m (Some p)) in mpure p) m
  end.

(** A key never written before: the parent is the node of the empty txid.  The
    caller ignores the error. *)
Definition processEmptyRefTxID (node : ptr) (index : nat) (input : TxInputExt) : M Mempool unit :=
  let! e := getEmptyNode in
  do! on_pool (fun m => set_confirmed m (<["" := e]> (confirmed m))) in
  let! en := load e in
  let! n := load node in
  match n_tx n with
  | None => mpanic
  | Some tx =>
      if isReadonlyKey tx input then
        do! update e (fun en => set_roOut en (<[n_txid n := node]> (readonlyOutputs en))) in
        update node (fun n => set_roIn n (<[n_txid en := e]> (readonlyInputs n)))
      else if bool_decide (is_Some (bucketKeyToNode en !! input_bk input)) then mpure tt
      else
        do! update e (fun en => set_bkNode en (<[input_bk input := node]> (bucketKeyToNode en))) in
        store_txInExt node (Z.of_nat index) (Some e)
  end.

(** The node that holds output [id], made when the pool has none: from the
    ledger it is confirmed, otherwise it stands for an unknown transaction.
    [link] connects it; the table is written after. *)
Definition with_parent (id : string) (by_db : Transaction -> string) (link : ptr -> M Mempool (option ptr)) : M Mempool bool := fun m =>
  let linked p := let! del := link p in
                  match del with Some d => let! dn := load d in do! deleteTx (n_txid dn) in mpure tt | None => mpure tt end in
  match confirmed m !! id, unconfirmed m !! id, orphans m !! id with
  | Some p, _, _ => (do! linked p in mpure false) m
  | None, Some p, _ => (do! linked p in mpure false) m
  | None, None, Some p => (do! linked p in mpure true) m
  | None, None, None =>
      match queryTxFromDB id with
      | Some dbTx =>
          (let! p := alloc (NewNode (Txid dbTx) (Some dbTx)) in
           do! linked p in
           do! on_pool (fun m => set_confirmed m (<[by_db dbTx := p]> (confirmed m))) in mpure false) m
      | None =>
          (let! p := alloc (NewNode id None) in
           do! linked p in
           do! on_pool (fun m => set_orphans m (<[id := p]> (orphans m))) in mpure true) m
      end
  end.

Fixpoint process_inputs (node : ptr) (retrieve : bool) (index : nat) (inputs : list TxInput) (isOrphan : bool) : M Mempool bool :=
  match inputs with
  | [] => mpure isOrphan
  | input :: inputs =>
      let! o := with_parent (ti_RefTxid input) Txid (fun p => updateInput node index (ti_RefOffset input) p retrieve) in
      process_inputs node retrieve (S index) inputs (isOrphan || o)
  end.
Definition processTxInputs (node : ptr) (tx : Transaction) (retrieve : bool) : M Mempool bool := process_inputs node retrieve 0 (TxInputs tx) false.

Fixpoint process_inputs_ext (node : ptr) (retrieve : bool) (index : nat) (inputs : list TxInputExt) (isOrphan : bool) : M Mempool bool :=
  match inputs with
  | [] => mpure isOrphan
  | input :: inputs =>
      if is_empty_string (ref_of input)
      then do! processEmptyRefTxID node index input in process_inputs_ext node retrieve (S index) inputs isOrphan
      else
        let! o := with_parent (ref_of input) (fun _ => ref_of input) (fun p => updateInputExt node index input p retrieve) in
        process_inputs_ext node retrieve (S index) inputs (isOrphan || o)
  end.
Definition processTxInputsExt (node : ptr) (tx : Transaction) (retrieve : bool) : M Mempool bool := process_inputs_ext node retrieve 0 (TxInputsExt tx) false.

Definition processNodeInputs (node : ptr) (tx : Transaction) (retrieve : bool) : M Mempool bool :=
  let! a := processTxInputs node tx retrieve in
  let! b := processTxInputsExt node tx retrieve in
  mpure (a || b).

(** [pruneSlice]: the children of outputs that do not exist are deleted. *)
Definition pruneSlice (p : ptr) (get : Node -> list (option ptr)) (set : Node -> list (option ptr) -> Node) (maxLen : nat) : M Mempool unit :=
  let! n := load p in
  do! each (fun i =>
        let! n := load p in
        match mjoin (get n !! i) with
        | None => mpanic
        | Some c => let! cn := load c in do! deleteTx (n_txid cn) in mpure tt
        end) (seq maxLen (length (get n) - maxLen)) in
  update p (fun n => set n (grow (take maxLen (get n)) (Z.of_nat maxLen))).

Definition processNodeOutputs (p : ptr) (tx : Transaction) (isOrphan : bool) : M Mempool unit :=
  do! pruneSlice p txOutputs set_txOut (length (TxOutputs tx)) in
  do! pruneSlice p txOutputsExt set_txOutExt (length (TxOutputsExt tx)) in
  if isOrphan then mpure tt else checkAndMoveOrphan p.

(** The node of an unknown transaction gets its transaction. *)
Definition fill_node (tx : Transaction) (n : Node) : Node :=
  match n_tx n with
  | Some _ => n
  | None => mkNode (n_txid n) (Some tx) ∅ ∅ ∅ (replicate (length (TxInputs tx)) None) (replicate (length (TxInputsExt tx)) None) (txOutputs n) (txOutputsExt n)
  end.

Definition node_for (tx : Transaction) : M Mempool ptr := fun m =>
  match orphans m !! Txid tx with
  | Some p => (do! update p (fill_node tx) in mpure p) m
  | None => alloc (NewNode (Txid tx) (Some tx)) m
  end.

Definition enlist (isOrphan : bool) (p : ptr) (txid : string) (m : Mempool) : Mempool :=
  if isOrphan then set_orphans m (<[txid := p]> (orphans m))
  else set_orphans (set_unconfirmed m (<[txid := p]> (unconfirmed m))) (delete txid (orphans m)).

Definition putTx (tx : Transaction) (retrieve : bool) : M Mempool unit :=
  let! p := node_for tx in
  let! n := load p in
  do! (if bool_decide (TxInputs tx = []) && bool_decide (TxInputsExt tx = []) then processEvidenceNode p else mpure tt) in
  let! isOrphan := processNodeInputs p tx retrieve in
  do! on_pool (enlist isOrphan p (n_txid n)) in
  do! processNodeOutputs p tx isOrphan in
  putBucketKey p.

Definition PutTx (tx : Transaction) : M Mempool unit := fun m =>
  if Full m then (Err ErrPoolFull, m)
  else if HasTx (Txid tx) m then (Err ErrTxExist, m)
  else putTx tx false m.

(** ** Confirming *)

(** Each step cuts the node off its parents, so the sum of the inputs of all
    nodes bounds the steps. *)
Definition input_total (h : gmap nat Node) : nat := map_fold (fun _ n acc => Z.to_nat (getInputSum n) + acc) 0 h.

Definition confirm_node (p : ptr) : M Mempool unit :=
  do! breakOutputs p in
  let! n := load p in
  do! on_pool (fun m => set_orphans (set_unconfirmed (set_confirmed m (<[n_txid n := p]> (confirmed m)))
                                       (delete (n_txid n) (unconfirmed m))) (delete (n_txid n) (orphans m))) in
  do! checkAndMoveOrphan p in
  deleteBucketKey p.

Fixpoint confirm_loop (steps : nat) (q : list ptr) : M Mempool unit :=
  match q with
  | [] => mpure tt
  | p :: q =>
      match steps with
      | O => mpanic
      | S steps => fun m =>
          (let! n := load p in
           let q := q ++ filter (fun v => confirmed m !! txid_of (heap m) v = None) (getAllParent (heap m) n) in
           do! confirm_node p in
           confirm_loop steps q) m
      end
  end.
Definition moveToConfirmed (p : ptr) : M Mempool unit := fun m => confirm_loop (S (input_total (heap m))) [p] m.

Definition has_child (n : Node) : bool :=
  negb (bool_decide (bucketKeyToNode n = ∅) && bool_decide (readonlyOutputs n = ∅) &&
        bool_decide (omap id (txOutputs n) = []) && bool_decide (omap id (txOutputsExt n) = [])).
Definition stays_confirmed (h : gmap nat Node) (txid : string) (p : ptr) : bool :=
  is_empty_string txid || bool_decide (txid = stoneNodeID) || from_option has_child true (h !! p).
Definition cleanConfirmedTxs (m : Mempool) : Mempool :=
  set_confirmed m (filter (fun kv => stays_confirmed (heap m) kv.1 kv.2) (confirmed m)).

Definition confirm_id (txid : string) : M Mempool unit := fun m =>
  match confirmed m !! txid, unconfirmed m !! txid, orphans m !! txid with
  | Some _, _, _ => (Ret tt, m)
  | None, Some p, _ => moveToConfirmed p m
  | None, None, Some p => if bool_decide (is_Some (heap m !! p ≫= n_tx)) then moveToConfirmed p m else (Ret tt, m)
  | None, None, None => (Ret tt, m)
  end.

Definition BatchConfirmTxID (txids : list string) : M Mempool unit := do! each confirm_id txids in on_pool cleanConfirmedTxs.
Definition BatchConfirmTx (txs : list Transaction) : M Mempool unit := BatchConfirmTxID (Txid <$> txs).
Definition ConfirmTxID (txid : string) : M Mempool unit := fun m =>
  if bool_decide (is_Some (confirmed m !! txid)) then (Ret tt, m) else (do! confirm_id txid in on_pool cleanConfirmedTxs) m.

(** The transactions that spend what a block's transaction spends. *)
Definition drop_spender (get : Node -> list (option ptr)) (refTxid : string) (offset : Z) : M Mempool unit := fun m =>
  let drop p := let! n := load p in
                if in_range offset (get n) then
                  match mjoin (get n !! Z.to_nat offset) with
                  | Some c => let! cn := load c in do! deleteTx (n_txid cn) in mpure tt
                  | None => mpure tt
                  end
                else mpanic in
  match unconfirmed m !! refTxid, orphans m !! refTxid with
  | Some p, _ => drop p m
  | None, Some p => drop p m
  | None, None => (Ret tt, m)
  end.
Definition updateNodeTxInput := drop_spender txOutputs.
Definition updateNodeTxInputExt := drop_spender txOutputsExt.

Definition processConflict (tx : Transaction) : M Mempool unit :=
  do! each (fun i => updateNodeTxInput (ti_RefTxid i) (ti_RefOffset i)) (TxInputs tx) in
  each (fun i => if isReadonlyKey tx i then mpure tt else updateNodeTxInputExt (ref_of i) (ie_RefOffset i)) (TxInputsExt tx).

Definition ConfirmTx (tx : Transaction) : M Mempool unit := fun m =>
  match confirmed m !! Txid tx, unconfirmed m !! Txid tx, orphans m !! Txid tx with
  | Some _, _, _ => (Ret tt, m)
  | None, Some p, _ => (do! moveToConfirmed p in on_pool cleanConfirmedTxs) m
  | None, None, Some p =>
      (do! (match heap m !! p ≫= n_tx with Some _ => mpure tt | None => do! mtry (putTx tx true) in mpure tt end) in
       do! moveToConfirmed p in on_pool cleanConfirmedTxs) m
  | None, None, None => processConflict tx m
  end.

(** ** Reading the pool in order *)

Section Range.
Context {A : Type} (f : Transaction -> A -> bool * A).

(** The inputs of each node that are still to come, the nodes to visit, what
    the callback has collected. *)
Record ranging := mkRanging { sums : gmap ptr Z; queue : list ptr; acc : A }.

(** Either the walk goes on or it ends: [return], or a panic that is caught. *)
Definition isNextNode (h : gmap nat Node) (p : ptr) (r : ranging) : option bool * ranging :=
  let sum := match sums r !! p with Some sum => (sum - 1)%Z | None => (from_option getInputSum 0%Z (h !! p) - 1)%Z end in
  let r := mkRanging (<[p := sum]> (sums r)) (queue r) (acc r) in
  if (sum =? 0)%Z then (Some true, r) else if (sum =? -1)%Z then (None, r) else (Some false, r).

Definition range_child (h : gmap nat Node) (p : ptr) (r : ranging) : bool * ranging :=
  match isNextNode h p r with
  | (None, r) => (false, r)
  | (Some false, r) => (true, r)
  | (Some true, r) =>
      match h !! p ≫= n_tx with
      | None => (false, r)
      | Some tx => let (go, a) := f tx (acc r) in
                   (go, mkRanging (sums r) (if go then queue r ++ [p] else queue r) a)
      end
  end.

Fixpoint range_children (h : gmap nat Node) (l : list ptr) (r : ranging) : bool * ranging :=
  match l with
  | [] => (true, r)
  | p :: l => match range_child h p r with (true, r) => range_children h l r | (false, r) => (false, r) end
  end.

Definition out_nodes (n : Node) : list ptr :=
  omap id (txOutputs n) ++ omap id (txOutputsExt n) ++ map_values (readonlyOutputs n) ++ map_values (bucketKeyToNode n).

Fixpoint range_loop (steps : nat) (h : gmap nat Node) (r : ranging) : ranging :=
  match steps with
  | O => r
  | S steps =>
      match queue r with
      | [] => r
      | p :: q =>
          match range_children h (from_option out_nodes [] (h !! p)) (mkRanging (sums r) q (acc r)) with
          | (true, r) => range_loop steps h r
          | (false, r) => r
          end
      end
  end.

(** Every node enters the queue once, apart from the confirmed ones. *)
Definition Range (m : Mempool) (a : A) : A :=
  acc (range_loop (S (size (confirmed m) + size (heap m))) (heap m) (mkRanging ∅ (map_values (confirmed m)) a)).
End Range.

(** What the miner packs: [size] of [proto.Size], [inTrunk] of the ledger. *)
Definition GetUnconfirmedTx (inTrunk : string -> bool) (protoSize : Transaction -> Z) (dedup : bool) (sizeLimit : Z) (m : Mempool) : list Transaction :=
  (Range (fun tx (a : Z * list Transaction) =>
     if dedup && inTrunk (Txid tx) then (true, a)
     else
       let sum := if (0 <? sizeLimit)%Z then (a.1 + protoSize tx)%Z else a.1 in
       if (0 <? sizeLimit)%Z && (sizeLimit <? sum)%Z then (false, (sum, a.2)) else (true, (sum, a.2 ++ [tx]))) m (0%Z, [])).2.

(** The transactions with a limit on their size, and those of them that are late
    (and the one that was too much). *)
Definition SortUnconfirmedTx (late : Transaction -> bool) (protoSize : Transaction -> Z) (sizeLimit : Z) (m : Mempool) : list Transaction * list Transaction :=
  let r := Range (fun tx (a : Z * (list Transaction * list Transaction)) =>
     let delayedTxs := if late tx then a.2.2 ++ [tx] else a.2.2 in
     let sum := if (0 <? sizeLimit)%Z then (a.1 + protoSize tx)%Z else a.1 in
     if (0 <? sizeLimit)%Z && (sizeLimit <? sum)%Z then (false, (sum, (a.2.1, delayedTxs))) else (true, (sum, (a.2.1 ++ [tx], delayedTxs)))) m (0%Z, ([], [])) in
  r.2.

(** Those that are late, each with what its removal removed. *)
Definition GetDelayedTxs (late : Transaction -> bool) : M Mempool (list (option Transaction)) := fun m =>
  let delayed := Range (fun tx l => (true, if late tx then l ++ [tx] else l)) m [] in
  each_acc (fun tx acc => let! deleted := DeleteTxAndChildren (Txid tx) in mpure (acc ++ [Some tx] ++ deleted ++ [Some tx])) (rev delayed) [] m.

(** The transactions of the unconfirmed table, at the start of the node. *)
Definition LoadUnconfirmedTxFromDisk (table : list Transaction) : M Mempool unit := each PutTx table.
End Pool.
