(* ===== verification/MempoolGraph.v ===== *)
(** * The graph of the memory pool

    Every pointer of a node of [Mempool] lies in a slot: an output, an output of
    the key-value state, the table of readers or the table of first writers on
    the side of the parent, an input, an input of the key-value state or a
    parent that is only read on the side of the child.  A heap is [linked] when
    the slots of the two sides match; the code that links two nodes or cuts them
    off keeps it so. *)

From Stdlib Require Import ZArith Lia.
From stdpp Require Import base gmap strings list numbers sorting.
From S2P Require Import Prelude GoValues Sandbox LedgerHash XModel Mempool.

Set Default Proof Using "Type".

Inductive oslot := OOut (o : nat) | OExt (o : nat) | ORo (t : string) | OBk (k : string).
Inductive islot := IIn (i : nat) | IExt (i : nat) | IRo (t : string).

#[global] Instance oslot_dec : EqDecision oslot. Proof. solve_decision. Defined.
#[global] Instance islot_dec : EqDecision islot. Proof. solve_decision. Defined.

Definition out_at (n : Node) (s : oslot) : option nat :=
  match s with
  | OOut o => mjoin (txOutputs n !! o)
  | OExt o => mjoin (txOutputsExt n !! o)
  | ORo t => readonlyOutputs n !! t
  | OBk k => bucketKeyToNode n !! k
  end.
Definition in_at (n : Node) (s : islot) : option nat :=
  match s with
  | IIn i => mjoin (txInputs n !! i)
  | IExt i => mjoin (txInputsExt n !! i)
  | IRo t => readonlyInputs n !! t
  end.

Definition put_out (s : oslot) (v : option nat) (n : Node) : Node :=
  match s with
  | OOut o => set_txOut n (<[o := v]> (txOutputs n))
  | OExt o => set_txOutExt n (<[o := v]> (txOutputsExt n))
  | ORo t => set_roOut n (partial_alter (fun _ => v) t (readonlyOutputs n))
  | OBk k => set_bkNode n (partial_alter (fun _ => v) k (bucketKeyToNode n))
  end.
Definition put_in (s : islot) (v : option nat) (n : Node) : Node :=
  match s with
  | IIn i => set_txIn n (<[i := v]> (txInputs n))
  | IExt i => set_txInExt n (<[i := v]> (txInputsExt n))
  | IRo t => set_roIn n (partial_alter (fun _ => v) t (readonlyInputs n))
  end.

(** The slots of a slice exist up to its length. *)
Definition out_room (n : Node) (s : oslot) : Prop :=
  match s with OOut o => o < length (txOutputs n) | OExt o => o < length (txOutputsExt n) | _ => True end.
Definition in_room (n : Node) (s : islot) : Prop :=
  match s with IIn i => i < length (txInputs n) | IExt i => i < length (txInputsExt n) | _ => True end.

Lemma mjoin_insert {A} (l : list (option A)) i j v :
  (i < length l \/ v = None) -> mjoin (<[i := v]> l !! j) = if decide (i = j) then v else mjoin (l !! j).
Proof.
  intros Hi. case_decide as E.
  - subst j. destruct (decide (i < length l)) as [Hl|Hl]; [by rewrite list_lookup_insert_eq|].
    rewrite lookup_ge_None_2 by (rewrite length_insert; lia). destruct Hi; [lia|by subst].
  - by rewrite list_lookup_insert_ne.
Qed.

Lemma partial_alter_at {A} (m : gmap string A) k j v : partial_alter (fun _ => v) k m !! j = if decide (k = j) then v else m !! j.
Proof. case_decide; [subst; by rewrite lookup_partial_alter_eq|by rewrite lookup_partial_alter_ne]. Qed.

Lemma out_at_put n s v s' : (out_room n s \/ v = None) -> out_at (put_out s v n) s' = if decide (s = s') then v else out_at n s'.
Proof.
  intros Hr. destruct s as [o|o|t|k], s' as [o'|o'|t'|k']; cbn in *;
    rewrite ?mjoin_insert, ?partial_alter_at by done; repeat case_decide; congruence.
Qed.
Lemma in_at_put n s v s' : (in_room n s \/ v = None) -> in_at (put_in s v n) s' = if decide (s = s') then v else in_at n s'.
Proof.
  intros Hr. destruct s as [o|o|t], s' as [o'|o'|t']; cbn in *;
    rewrite ?mjoin_insert, ?partial_alter_at by done; repeat case_decide; congruence.
Qed.
Lemma in_at_put_out n s v s' : in_at (put_out s v n) s' = in_at n s'.
Proof. by destruct s, s'. Qed.
Lemma out_at_put_in n s v s' : out_at (put_in s v n) s' = out_at n s'.
Proof. by destruct s, s'. Qed.

Lemma out_at_room n s p : out_at n s = Some p -> out_room n s.
Proof. destruct s; cbn; try done; intros (x & E & _)%bind_Some; by apply lookup_lt_Some in E. Qed.
Lemma in_at_room n s p : in_at n s = Some p -> in_room n s.
Proof. destruct s; cbn; try done; intros (x & E & _)%bind_Some; by apply lookup_lt_Some in E. Qed.

(** What links never change: the transaction and the length of the slices. *)
Record same_frame (n n' : Node) : Prop := {
  sf_txid : n_txid n' = n_txid n;
  sf_tx : n_tx n' = n_tx n;
  sf_in : length (txInputs n') = length (txInputs n);
  sf_inExt : length (txInputsExt n') = length (txInputsExt n);
  sf_out : length (txOutputs n') = length (txOutputs n);
  sf_outExt : length (txOutputsExt n') = length (txOutputsExt n)
}.
#[global] Instance same_frame_refl : Reflexive same_frame.
Proof. intros n. by split. Qed.
#[global] Instance same_frame_trans : Transitive same_frame.
Proof. intros n1 n2 n3 [] []. split; congruence. Qed.

Lemma put_out_frame s v n : same_frame n (put_out s v n).
Proof. destruct s; split; cbn; by rewrite ?length_insert. Qed.
Lemma put_in_frame s v n : same_frame n (put_in s v n).
Proof. destruct s; split; cbn; by rewrite ?length_insert. Qed.

Lemma in_room_frame n n' s : same_frame n n' -> in_room n s -> in_room n' s.
Proof. intros [_ _ E1 E2 _ _]. destruct s; cbn; by rewrite ?E1, ?E2. Qed.

(** The slot of the parent that an input of [n] belongs to. *)
Definition target (n : Node) (s : islot) : oslot :=
  match s with
  | IIn i => OOut (Z.to_nat (from_option ti_RefOffset 0%Z (tx_inputs (n_tx n) !! i)))
  | IExt i => match tx_inputs_ext (n_tx n) !! i with
              | Some inp => if is_empty_string (ref_of inp) then OBk (input_bk inp) else OExt (Z.to_nat (ie_RefOffset inp))
              | None => OExt 0
              end
  | IRo _ => ORo (n_txid n)
  end.

Lemma target_frame n n' s : same_frame n n' -> target n' s = target n s.
Proof. intros [Et Ex _ _ _ _]. destruct s; cbn; by rewrite ?Et, ?Ex. Qed.

(** What an input slot in use says about the transaction: [t] is the parent's id. *)
Definition input_ok (n : Node) (s : islot) (t : string) : Prop :=
  match s with
  | IIn i => exists inp, tx_inputs (n_tx n) !! i = Some inp /\ (0 <= ti_RefOffset inp)%Z /\ ti_RefTxid inp = t
  | IExt i => exists inp, tx_inputs_ext (n_tx n) !! i = Some inp /\ (0 <= ie_RefOffset inp)%Z /\ ref_of inp = t
  | IRo t' => t' = t /\ (t = "" \/ t = stoneNodeID \/ t ∈ ref_of <$> tx_inputs_ext (n_tx n))
  end.
Lemma input_ok_frame n n' s t : same_frame n n' -> input_ok n' s t <-> input_ok n s t.
Proof. intros [Et Ex _ _ _ _]. destruct s; cbn; by rewrite ?Ex. Qed.

(** The node of the empty txid has first writers and no other outputs of keys;
    no other node has first writers. *)
Definition node_ok (n : Node) : Prop :=
  (n_txid n = "" -> txOutputsExt n = []) /\ (n_txid n <> "" -> forall k, bucketKeyToNode n !! k = None).

(** ** Heaps *)

Notation Heap := (gmap nat Node).

Definition hout (h : Heap) (p : nat) (s : oslot) : option nat := h !! p ≫= fun n => out_at n s.
Definition hin (h : Heap) (c : nat) (s : islot) : option nat := h !! c ≫= fun n => in_at n s.
Definition htarget (h : Heap) (c : nat) (s : islot) : oslot := from_option (fun n => target n s) (OOut 0) (h !! c).

Record linked (h : Heap) : Prop := {
  ln_out : forall c s p, hin h c s = Some p -> hout h p (htarget h c s) = Some c;
  ln_in : forall p o c, hout h p o = Some c -> exists s, hin h c s = Some p /\ htarget h c s = o;
  ln_inj : forall c s s' p, hin h c s = Some p -> hin h c s' = Some p -> htarget h c s = htarget h c s' -> s = s';
  ln_input : forall c s p n, h !! c = Some n -> hin h c s = Some p -> input_ok n s (txid_of h p);
  ln_node : forall p n, h !! p = Some n -> node_ok n
}.

(** Heaps with the same nodes, apart from their links. *)
Definition framed (h h' : Heap) : Prop := forall p, option_Forall2 same_frame (h !! p) (h' !! p).

#[global] Instance framed_refl : Reflexive framed.
Proof. intros h p. destruct (h !! p); by constructor. Qed.
#[global] Instance framed_trans : Transitive framed.
Proof. intros h1 h2 h3 H1 H2 p. specialize (H1 p). specialize (H2 p). destruct H1; inversion H2; subst; constructor. by etrans. Qed.

Lemma framed_alter f p h : (forall n, same_frame n (f n)) -> framed h (alter f p h).
Proof.
  intros Hf q. destruct (decide (p = q)) as [->|Hne].
  - rewrite lookup_alter_eq. destruct (h !! q); by constructor.
  - rewrite lookup_alter_ne by done. destruct (h !! q); by constructor.
Qed.
Lemma framed_txid h h' p : framed h h' -> txid_of h' p = txid_of h p.
Proof. intros Hf. unfold txid_of. destruct (Hf p) as [n n' Hs|]; [apply Hs|done]. Qed.
Lemma framed_target h h' c s : framed h h' -> htarget h' c s = htarget h c s.
Proof. intros Hf. unfold htarget. destruct (Hf c) as [n n' Hs|]; [by apply target_frame|done]. Qed.
Lemma framed_lookup h h' p n' : framed h h' -> h' !! p = Some n' -> exists n, h !! p = Some n /\ same_frame n n'.
Proof. intros Hf E. specialize (Hf p). rewrite E in Hf. inversion Hf; subst. eauto. Qed.
Lemma framed_lookup_fwd h h' p n : framed h h' -> h !! p = Some n -> exists n', h' !! p = Some n' /\ same_frame n n'.
Proof. intros Hf E. specialize (Hf p). rewrite E in Hf. inversion Hf; subst. eauto. Qed.
Lemma framed_dom h h' : framed h h' -> dom h' = dom h.
Proof. intros Hf. apply set_eq. intros p. rewrite !elem_of_dom. specialize (Hf p). by destruct Hf as [n n' _|]; split; intros []; eauto. Qed.
Lemma framed_tx h h' p : framed h h' -> h' !! p ≫= n_tx = h !! p ≫= n_tx.
Proof. intros Hf. destruct (Hf p) as [n n' Hs|]; [apply Hs|done]. Qed.

Lemma hout_put h p s v p' s' : (forall n, h !! p = Some n -> out_room n s \/ v = None) -> is_Some (h !! p) ->
  hout (alter (put_out s v) p h) p' s' = if decide (p = p' /\ s = s') then v else hout h p' s'.
Proof.
  intros Hr [n Hn]. unfold hout. destruct (decide (p = p')) as [<-|Hne].
  - rewrite lookup_alter_eq, Hn. cbn. rewrite out_at_put by auto. repeat case_decide; naive_solver.
  - rewrite lookup_alter_ne by done. rewrite decide_False by naive_solver. done.
Qed.
Lemma hin_put h p s v p' s' : (forall n, h !! p = Some n -> in_room n s \/ v = None) -> is_Some (h !! p) ->
  hin (alter (put_in s v) p h) p' s' = if decide (p = p' /\ s = s') then v else hin h p' s'.
Proof.
  intros Hr [n Hn]. unfold hin. destruct (decide (p = p')) as [<-|Hne].
  - rewrite lookup_alter_eq, Hn. cbn. rewrite in_at_put by auto. repeat case_decide; naive_solver.
  - rewrite lookup_alter_ne by done. rewrite decide_False by naive_solver. done.
Qed.
Lemma hin_put_out h p s v p' s' : hin (alter (put_out s v) p h) p' s' = hin h p' s'.
Proof.
  unfold hin. destruct (decide (p = p')) as [<-|Hne]; [|by rewrite lookup_alter_ne].
  rewrite lookup_alter_eq. destruct (h !! p); [|done]. cbn. apply in_at_put_out.
Qed.
Lemma hout_put_in h p s v p' s' : hout (alter (put_in s v) p h) p' s' = hout h p' s'.
Proof.
  unfold hout. destruct (decide (p = p')) as [<-|Hne]; [|by rewrite lookup_alter_ne].
  rewrite lookup_alter_eq. destruct (h !! p); [|done]. cbn. apply out_at_put_in.
Qed.
Lemma put_out_node_ok s v n : node_ok n -> (forall k, s = OBk k -> n_txid n = "" \/ v = None) -> node_ok (put_out s v n).
Proof.
  intros [H1 H2] Hs. split; [|destruct s; cbn; auto].
  - destruct s; cbn; auto. intros E. by rewrite (H1 E).
  - intros E k'. rewrite partial_alter_at. destruct (Hs k eq_refl) as [?| ->]; [done|]. case_decide; auto.
Qed.
Lemma put_in_node_ok s v n : node_ok n -> node_ok (put_in s v n).
Proof. by destruct s. Qed.

Lemma alter_nodes_ok (f : Node -> Node) p (h : Heap) :
  (forall n, h !! p = Some n -> node_ok n -> node_ok (f n)) -> (forall q n, h !! q = Some n -> node_ok n) ->
  forall q n, alter f p h !! q = Some n -> node_ok n.
Proof. intros Hf Hh q n [(-> & n0 & Hn & ->)|[Hne Hn]]%lookup_alter_Some; eauto. Qed.

(** ** Cutting one link *)

Definition unlink (h : Heap) (c : nat) (s : islot) (p : nat) : Heap :=
  alter (put_in s None) c (alter (put_out (htarget h c s) None) p h).

Section Unlink.
Context (h : Heap) (c : nat) (s : islot) (p : nat).
Context (L : linked h) (E : hin h c s = Some p).

Lemma child_exists : is_Some (h !! c).
Proof using E. unfold hin in E. destruct (h !! c); [eauto|done]. Qed.
Lemma parent_exists : is_Some (h !! p).
Proof using L E. pose proof (ln_out _ L _ _ _ E) as H. unfold hout in H. destruct (h !! p); [eauto|done]. Qed.

Lemma unlink_framed : framed h (unlink h c s p).
Proof using Type. etrans; apply framed_alter; intros n; [apply put_out_frame|apply put_in_frame]. Qed.

Lemma unlink_in c' s' : hin (unlink h c s p) c' s' = if decide (c = c' /\ s = s') then None else hin h c' s'.
Proof using E.
  unfold unlink. rewrite hin_put; [|by right|].
  - by rewrite hin_put_out.
  - destruct child_exists as [n Hn]. destruct (framed_lookup_fwd h (alter (put_out (htarget h c s) None) p h) c n) as (n' & Hn' & _); [|done|eauto].
    apply framed_alter, put_out_frame.
Qed.
Lemma unlink_out p' o : hout (unlink h c s p) p' o = if decide (p = p' /\ htarget h c s = o) then None else hout h p' o.
Proof using L E. unfold unlink. rewrite hout_put_in, hout_put; [done|by right|apply parent_exists]. Qed.

Lemma unlink_linked : linked (unlink h c s p).
Proof using L E.
  pose proof unlink_framed as Hf. split.
  - intros c' s' p'. rewrite unlink_in, (framed_target _ _ _ _ Hf), unlink_out. case_decide as E1; [done|]. intros E2.
    rewrite decide_False; [by apply (ln_out _ L)|]. intros [<- Et].
    assert (c' = c) as -> by (pose proof (ln_out _ L _ _ _ E) as H1; pose proof (ln_out _ L _ _ _ E2) as H2; congruence).
    apply E1. split; [done|]. by eapply (ln_inj _ L).
  - intros p' o c'. rewrite unlink_out. case_decide as E1; [done|]. intros (s' & E2 & Et)%(ln_in _ L).
    exists s'. rewrite unlink_in, (framed_target _ _ _ _ Hf). split; [|done]. rewrite decide_False; [done|]. intros [-> ->]. apply E1. split; congruence.
  - intros c' s1 s2 p'. rewrite !unlink_in, !(framed_target _ _ _ _ Hf). repeat case_decide; try done. apply (ln_inj _ L).
  - intros c' s' p' n. rewrite unlink_in, (framed_txid _ _ _ Hf). intros (n0 & Hn0 & Hs)%(framed_lookup _ _ _ _ Hf).
    case_decide; [done|]. intros E2. rewrite (input_ok_frame _ _ _ _ Hs). by eapply (ln_input _ L).
  - unfold unlink. apply alter_nodes_ok; [intros n _; apply put_in_node_ok|]. apply alter_nodes_ok; [|apply (ln_node _ L)].
    intros n _ Hn. apply put_out_node_ok; [done|]. by right.
Qed.
End Unlink.

(** ** Making one link *)

Definition link (h : Heap) (c : nat) (s : islot) (p : nat) : Heap :=
  alter (put_in s (Some p)) c (alter (put_out (htarget h c s) (Some c)) p h).

Section Link.
Context (h : Heap) (c : nat) (s : islot) (p : nat) (cn pn : Node).
Context (L : linked h) (Hc : h !! c = Some cn) (Hp : h !! p = Some pn).
Context (Hin : in_room cn s) (Hout : out_room pn (target cn s)).
Context (Efree : hin h c s = None) (Ofree : hout h p (htarget h c s) = None).
Context (Hi : input_ok cn s (n_txid pn)) (Hbk : forall k, target cn s = OBk k -> n_txid pn = "").

Lemma link_framed : framed h (link h c s p).
Proof using Type. etrans; apply framed_alter; intros n; [apply put_out_frame|apply put_in_frame]. Qed.

Lemma htarget_here : htarget h c s = target cn s.
Proof using Hc. unfold htarget. by rewrite Hc. Qed.

Lemma link_in c' s' : hin (link h c s p) c' s' = if decide (c = c' /\ s = s') then Some p else hin h c' s'.
Proof using Hc Hin.
  pose proof (framed_alter (put_out (htarget h c s) (Some c)) p h (fun n => put_out_frame _ _ n)) as Hf.
  unfold link. rewrite hin_put; [by rewrite hin_put_out| |].
  - intros n (n0 & Hn0 & Hs)%(framed_lookup _ _ _ _ Hf). left. apply (in_room_frame n0); [done|]. by replace n0 with cn by congruence.
  - destruct (framed_lookup_fwd _ _ _ _ Hf Hc) as (n' & -> & _). eauto.
Qed.
Lemma link_out p' o : hout (link h c s p) p' o = if decide (p = p' /\ htarget h c s = o) then Some c else hout h p' o.
Proof using Hc Hp Hout. unfold link. rewrite hout_put_in, hout_put; [done| |eauto]. intros n Hn. left. rewrite htarget_here. by replace n with pn by congruence. Qed.

Lemma link_linked : linked (link h c s p).
Proof using All.
  pose proof link_framed as Hf. split.
  - intros c' s' p'. rewrite link_in, (framed_target _ _ _ _ Hf), link_out. case_decide as E1; [destruct E1 as [<- <-]; intros [= <-]; by rewrite decide_True|].
    intros E2%(ln_out _ L). rewrite decide_False; [done|]. intros [<- Et]. rewrite <- Et in E2. congruence.
  - intros p' o c'. rewrite link_out. case_decide as E1.
    + destruct E1 as [<- <-]. intros [= <-]. exists s. by rewrite link_in, (framed_target _ _ _ _ Hf), decide_True.
    + intros (s' & E2 & Et)%(ln_in _ L). exists s'. rewrite link_in, (framed_target _ _ _ _ Hf). split; [|done].
      rewrite decide_False; [done|]. intros [-> ->]. congruence.
  - intros c' s1 s2 p'. rewrite !link_in, !(framed_target _ _ _ _ Hf). repeat case_decide; try apply (ln_inj _ L); destruct_and?; subst; try done.
    + intros [= <-] E2%(ln_out _ L) Et. rewrite <- Et in E2. congruence.
    + intros E2%(ln_out _ L) [= <-] Et. rewrite Et in E2. congruence.
  - intros c' s' p' n. rewrite link_in, (framed_txid _ _ _ Hf). intros (n0 & Hn0 & Hs)%(framed_lookup _ _ _ _ Hf).
    rewrite (input_ok_frame _ _ _ _ Hs). case_decide as E1; [|intros E2; by eapply (ln_input _ L)].
    destruct E1 as [<- <-]. intros [= <-]. replace n0 with cn by congruence. unfold txid_of. rewrite Hp. exact Hi.
  - unfold link. apply alter_nodes_ok; [intros n _; apply put_in_node_ok|]. apply alter_nodes_ok; [|apply (ln_node _ L)].
    intros n Hn Hk. apply put_out_node_ok; [done|]. intros k Ek. left. replace n with pn by congruence. apply (Hbk k). by rewrite <- htarget_here.
Qed.
End Link.

(** A new node has no links. *)
Lemma alloc_linked h p n : linked h -> h !! p = None -> node_ok n -> (forall s, in_at n s = None) -> (forall s, out_at n s = None) ->
  linked (<[p := n]> h) /\ (forall c s, hin (<[p := n]> h) c s = hin h c s) /\ (forall q s, hout (<[p := n]> h) q s = hout h q s).
Proof.
  intros L Hp Hn Hi Ho.
  assert (forall c s, hin (<[p := n]> h) c s = hin h c s) as Ein.
  { intros c s. unfold hin. destruct (decide (p = c)) as [<-|Hne]; [by rewrite lookup_insert_eq, Hp; cbn|by rewrite lookup_insert_ne]. }
  assert (forall c s, hout (<[p := n]> h) c s = hout h c s) as Eout.
  { intros c s. unfold hout. destruct (decide (p = c)) as [<-|Hne]; [by rewrite lookup_insert_eq, Hp; cbn|by rewrite lookup_insert_ne]. }
  assert (forall q x, h !! q = Some x -> q <> p) as Hne by (intros q x Hq ->; congruence).
  assert (forall c s q, hin h c s = Some q -> htarget (<[p := n]> h) c s = htarget h c s) as Et.
  { intros c s q E. unfold htarget. unfold hin in E. destruct (h !! c) as [x|] eqn:Hx; [|done]. rewrite lookup_insert_ne; [by rewrite Hx|]. intros ->. by apply (Hne c x). }
  split_and!; [|done..]. split.
  - intros c s q. rewrite Ein. intros E. rewrite (Et _ _ _ E), Eout. by apply (ln_out _ L).
  - intros q o c. rewrite Eout. intros (s & E & Es)%(ln_in _ L). exists s. rewrite Ein. split; [done|]. by rewrite (Et _ _ _ E).
  - intros c s s' q. rewrite !Ein. intros E E'. rewrite (Et _ _ _ E), (Et _ _ _ E'). by apply (ln_inj _ L) with q.
  - intros c s q x. rewrite Ein. intros Hx E. assert (h !! c = Some x) as Hx'.
    { unfold hin in E. destruct (h !! c) as [y|] eqn:Hy; [|done]. rewrite lookup_insert_ne in Hx; [congruence|]. intros ->. by apply (Hne c y). }
    replace (txid_of (<[p := n]> h) q) with (txid_of h q); [by eapply (ln_input _ L)|].
    unfold txid_of. rewrite lookup_insert_ne; [done|]. intros <-. pose proof (ln_out _ L _ _ _ E) as Ho'. unfold hout in Ho'. by rewrite Hp in Ho'.
  - intros q x [[<- <-]|[_ Hx]]%lookup_insert_Some; [done|]. by eapply (ln_node _ L).
Qed.

(** ** The code that cuts *)

Lemma load_ok p n m : heap m !! p = Some n -> load p m = (Ret n, m).
Proof. intros E. unfold load. by rewrite E. Qed.

Lemma slot_store_ok get set p i v n m : heap m !! p = Some n -> (0 <= i)%Z -> Z.to_nat i < length (get n) ->
  store get set p i v m = (Ret tt, set_heap m (alter (fun n => set n (<[Z.to_nat i := v]> (get n))) p (heap m))).
Proof.
  intros E Hi Hl. unfold store. rewrite (mbnd_ret _ _ _ _ _ (load_ok _ _ _ E)). unfold in_range.
  replace ((0 <=? i)%Z && (i <? Z.of_nat (length (get n)))%Z) with true by lia. done.
Qed.

Lemma is_empty_eq s : is_empty_string s = true <-> s = "".
Proof. by destruct s. Qed.

(** The heap after a node was cut off at [s]. *)
Definition cut_at (h : Heap) (c : nat) (s : islot) : Heap := match hin h c s with Some p => unlink h c s p | None => h end.

Lemma cut_at_spec h c s : linked h -> linked (cut_at h c s) /\ framed h (cut_at h c s) /\
  (forall c' s', hin (cut_at h c s) c' s' = if decide (c = c' /\ s = s') then None else hin h c' s').
Proof.
  intros L. unfold cut_at. destruct (hin h c s) as [p|] eqn:E.
  - split_and!; [by apply unlink_linked|apply unlink_framed|]. intros. by apply unlink_in.
  - split_and!; [done|done|]. intros c' s'. case_decide as D; [|done]. destruct D as [<- <-]. done.
Qed.

Lemma break_input_cut n i m : linked (heap m) -> is_Some (heap m !! n) ->
  break_input n i m = (Ret tt, set_heap m (cut_at (heap m) n (IIn i))).
Proof.
  intros L [nd Hn]. unfold break_input. rewrite (mbnd_ret _ _ _ _ _ (load_ok _ _ _ Hn)). unfold cut_at.
  assert (hin (heap m) n (IIn i) = mjoin (txInputs nd !! i)) as Ei by (unfold hin; by rewrite Hn). rewrite Ei.
  destruct (txInputs nd !! i) as [[fn|]|] eqn:E; cbn in Ei |- *; [|by destruct m..].
  destruct (ln_input _ L _ _ _ _ Hn Ei) as (inp & Hinp & Hoff & _). rewrite Hinp.
  pose proof (ln_out _ L _ _ _ Ei) as Ho. unfold htarget in Ho. rewrite Hn in Ho. cbn in Ho. rewrite Hinp in Ho. cbn in Ho.
  unfold hout in Ho. destruct (heap m !! fn) as [fnd|] eqn:Hf; [|done]. pose proof (out_at_room fnd (OOut _) _ Ho) as Hr. cbn in Hr.
  unfold store_txOut. rewrite (mbnd_ret _ _ _ _ _ (slot_store_ok txOutputs set_txOut fn _ None _ _ Hf Hoff Hr)). unfold store_txIn. set (h1 := alter _ fn _).
  assert (framed (heap m) h1) as Hfr by (apply framed_alter; intros x; apply (put_out_frame (OOut _) None x)).
  destruct (framed_lookup_fwd _ _ _ _ Hfr Hn) as (nd' & Hn' & Hs).
  rewrite (slot_store_ok _ _ _ _ _ nd'); [|done|lia|rewrite (sf_in _ _ Hs), Nat2Z.id; by apply lookup_lt_Some in E].
  f_equal. unfold unlink, set_heap. cbn [heap]. f_equal. rewrite Nat2Z.id. unfold htarget. rewrite Hn. cbn. rewrite Hinp. done.
Qed.

Lemma break_input_ext_cut n i m : linked (heap m) -> is_Some (heap m !! n) ->
  break_input_ext n i m = (Ret tt, set_heap m (cut_at (heap m) n (IExt i))).
Proof.
  intros L [nd Hn]. unfold break_input_ext. rewrite (mbnd_ret _ _ _ _ _ (load_ok _ _ _ Hn)). unfold cut_at.
  assert (hin (heap m) n (IExt i) = mjoin (txInputsExt nd !! i)) as Ei by (unfold hin; by rewrite Hn). rewrite Ei.
  destruct (txInputsExt nd !! i) as [[fn|]|] eqn:E; cbn in Ei |- *; [|by destruct m..].
  destruct (ln_input _ L _ _ _ _ Hn Ei) as (inp & Hinp & Hoff & Href). rewrite Hinp.
  pose proof (ln_out _ L _ _ _ Ei) as Ho. unfold htarget in Ho. rewrite Hn in Ho. cbn in Ho. rewrite Hinp in Ho.
  unfold hout in Ho. destruct (heap m !! fn) as [fnd|] eqn:Hf; [|done]. cbn in Ho. unfold txid_of in Href. rewrite Hf in Href. cbn in Href.
  rewrite (mbnd_ret _ _ _ _ _ (load_ok _ _ _ Hf)). destruct (ln_node _ L _ _ Hf) as [Hne Hnb].
  assert (forall h1, framed (heap m) h1 -> exists nd', h1 !! n = Some nd' /\ length (txInputsExt nd') = length (txInputsExt nd)) as Hlen.
  { intros h1 Hfr. destruct (framed_lookup_fwd _ _ _ _ Hfr Hn) as (nd' & Hn' & Hs). exists nd'. split; [done|apply Hs]. }
  assert (unlink (heap m) n (IExt i) fn = alter (put_in (IExt i) None) n (alter (put_out (target nd (IExt i)) None) fn (heap m))) as Eul
    by (unfold unlink, htarget; by rewrite Hn). rewrite Eul. cbn [target]. rewrite Hinp. rewrite <- Href in *.
  destruct (is_empty_string (ref_of inp)) eqn:Ee.
  - apply is_empty_eq in Ee. rewrite (Hne Ee). cbn [length]. rewrite (proj2 (Z.ltb_ge _ _)) by exact Hoff.
    cbn in Ho. unfold mbnd at 1, mpure at 1. rewrite (mbnd_ret _ _ _ _ _ (load_ok _ _ _ Hf)), Ho. unfold mbnd at 1.
    rewrite (mbnd_ret _ _ _ _ _ (load_ok _ _ _ Hn)), bool_decide_eq_true_2 by done. unfold update, on_pool. set (h1 := alter _ fn _).
    destruct (Hlen h1) as (nd' & Hn' & El); [apply framed_alter; intros x; apply (put_out_frame (OBk _) None x)|].
    unfold store_txInExt. rewrite (slot_store_ok _ _ _ _ _ nd'); [|done|lia|rewrite El, Nat2Z.id; by apply lookup_lt_Some in E]. rewrite Nat2Z.id. done.
  - pose proof (out_at_room fnd (OExt _) _ Ho) as Hr. cbn in Hr. replace (ie_RefOffset inp <? Z.of_nat (length (txOutputsExt fnd)))%Z with true by lia.
    unfold mbnd at 1, store_txOutExt. rewrite (slot_store_ok txOutputsExt set_txOutExt fn _ None _ _ Hf Hoff Hr). set (h1 := alter _ fn _).
    assert (framed (heap m) h1) as Hfr by (apply framed_alter; intros x; apply (put_out_frame (OExt _) None x)).
    destruct (framed_lookup_fwd _ _ _ _ Hfr Hf) as (fnd' & Hf' & Hs).
    rewrite (mbnd_ret _ _ _ _ _ (load_ok _ fnd' (set_heap m h1) Hf')). 
    assert (bucketKeyToNode fnd' = bucketKeyToNode fnd) as -> by (unfold h1 in Hf'; rewrite lookup_alter_eq, Hf in Hf'; by injection Hf' as <-).
    rewrite Hnb by (intros E0%is_empty_eq; congruence). unfold mbnd, mpure. destruct (Hlen h1 Hfr) as (nd' & Hn' & El).
    unfold store_txInExt. rewrite (slot_store_ok _ _ _ _ _ nd'); [|done|lia|rewrite El, Nat2Z.id; by apply lookup_lt_Some in E]. rewrite Nat2Z.id. done.
Qed.

Lemma break_readonly_cut n k m : linked (heap m) -> is_Some (heap m !! n) ->
  break_readonly n k m = (Ret tt, set_heap m (cut_at (heap m) n (IRo k))).
Proof.
  intros L [nd Hn]. unfold break_readonly. rewrite (mbnd_ret _ _ _ _ _ (load_ok _ _ _ Hn)). unfold cut_at.
  assert (hin (heap m) n (IRo k) = readonlyInputs nd !! k) as Ei by (unfold hin; by rewrite Hn). rewrite Ei.
  destruct (readonlyInputs nd !! k) as [fn|] eqn:E; [|by destruct m]. unfold mbnd, update, on_pool. f_equal.
  unfold unlink, htarget. rewrite Hn. done.
Qed.

Lemma each_cut {A} (g : A -> M Mempool unit) (slot : A -> islot) n (l : list A) :
  (forall x m, linked (heap m) -> is_Some (heap m !! n) -> g x m = (Ret tt, set_heap m (cut_at (heap m) n (slot x)))) ->
  forall m, linked (heap m) -> is_Some (heap m !! n) ->
  exists h', each g l m = (Ret tt, set_heap m h') /\ linked h' /\ framed (heap m) h' /\
    forall c s, hin h' c s = if decide (c = n /\ s ∈ slot <$> l) then None else hin (heap m) c s.
Proof.
  intros Hg. induction l as [|x l IH]; intros m L Hn.
  - exists (heap m). split_and!; [by destruct m|done|done|]. intros c s. rewrite decide_False; [done|]. cbn. set_solver.
  - cbn [each]. rewrite (mbnd_ret _ _ _ _ _ (Hg x m L Hn)). destruct (cut_at_spec (heap m) n (slot x) L) as (L1 & F1 & I1).
    destruct (IH (set_heap m (cut_at (heap m) n (slot x)))) as (h' & E & L' & F' & I'); [done|cbn; destruct Hn as [nd Hn]; destruct (framed_lookup_fwd _ _ _ _ F1 Hn) as (? & -> & _); eauto|].
    exists h'. split_and!; [exact E|done|by etrans|]. intros c s. rewrite I'. cbn [heap set_heap]. rewrite I1. cbn [fmap list_fmap].
    repeat case_decide; set_solver.
Qed.

(** [breakOutputs] cuts every link to a parent, and no other. *)
Lemma breakOutputs_spec `{MapOrder} n m : linked (heap m) -> is_Some (heap m !! n) ->
  exists h', breakOutputs n m = (Ret tt, set_heap m h') /\ linked h' /\ framed (heap m) h' /\
    forall c s, hin h' c s = if decide (c = n) then None else hin (heap m) c s.
Proof.
  intros L [nd Hn]. unfold breakOutputs. rewrite (mbnd_ret _ _ _ _ _ (load_ok _ _ _ Hn)).
  destruct (each_cut (break_input n) IIn n (seq 0 (length (txInputs nd))) (break_input_cut n) m L) as (h1 & E1 & L1 & F1 & I1); [eauto|].
  rewrite (mbnd_ret _ _ _ _ _ E1). destruct (framed_lookup_fwd _ _ _ _ F1 Hn) as (nd1 & Hn1 & S1).
  destruct (each_cut (break_input_ext n) IExt n (seq 0 (length (txInputsExt nd))) (break_input_ext_cut n) (set_heap m h1) L1) as (h2 & E2 & L2 & F2 & I2); [eauto|].
  rewrite (mbnd_ret _ _ _ _ _ E2). cbn [heap set_heap] in *. destruct (framed_lookup_fwd _ _ _ _ F2 Hn1) as (nd2 & Hn2 & S2).
  destruct (each_cut (break_readonly n) IRo n (map_keys (readonlyInputs nd)) (break_readonly_cut n) (set_heap m h2) L2) as (h3 & E3 & L3 & F3 & I3); [eauto|].
  exists h3. split_and!; [exact E3|done|by do 2 (etrans; [done|])|]. intros c s. rewrite I3. cbn [heap set_heap]. rewrite I2. cbn [heap set_heap]. rewrite I1.
  destruct (decide (c = n)) as [->|Hne]; [|by rewrite !decide_False by naive_solver].
  destruct (hin (heap m) n s) as [q|] eqn:Eq; [|by repeat case_decide]. unfold hin in Eq. rewrite Hn in Eq. cbn in Eq.
  pose proof (in_at_room _ _ _ Eq) as Hr. destruct s as [i|i|t]; cbn in Hr, Eq.
  - rewrite (decide_False (P := _ /\ _)), (decide_False (P := _ /\ _)), decide_True; [done|..]; rewrite ?list_elem_of_fmap; [|naive_solver..].
    split; [done|]. exists i. split; [done|]. apply elem_of_seq. lia.
  - rewrite (decide_False (P := _ /\ _)), decide_True; [done|..]; rewrite ?list_elem_of_fmap; [|naive_solver..].
    split; [done|]. exists i. split; [done|]. apply elem_of_seq. lia.
  - rewrite decide_True; [done|]. split; [done|]. apply list_elem_of_fmap. exists t. split; [done|].
    unfold map_keys. apply list_elem_of_fmap. exists (t, q). split; [done|]. rewrite range_order_perm. by apply elem_of_map_to_list.
Qed.
