(* ===== verification/MempoolSpec.v ===== *)
(** * The memory pool: what its operations keep

    [pool_ok] describes the pool between two calls when every transaction's
    parents are known.  Adding a transaction, removing one with all that depend
    on it and confirming transactions keep it, and none of them panics. *)

From Stdlib Require Import ZArith Lia.
From stdpp Require Import base gmap strings list numbers sorting.
From S2P Require Import Prelude GoValues Sandbox LedgerHash XModel Mempool MempoolGraph.

Set Default Proof Using "Type".

Definition conf (m : Mempool) (p : nat) : Prop := exists t, confirmed m !! t = Some p.
Definition unconf (m : Mempool) (p : nat) : Prop := exists t, unconfirmed m !! t = Some p.
Definition real_id (t : string) : Prop := t <> "" /\ t <> stoneNodeID.
Definition bk_at (b : gmap string (gmap string nat)) (k t : string) : option nat := b !! k ≫= (fun nodes => nodes !! t).
Definition node_tx (h : Heap) (p : nat) : option Transaction := h !! p ≫= n_tx.

(** The transactions that [tx] refers to. *)
Definition refs (tx : Transaction) : list string :=
  (ti_RefTxid <$> TxInputs tx) ++ filter (fun t => t <> "") (ref_of <$> TxInputsExt tx).

(** The unconfirmed transaction [t]. *)
Definition pool_tx (m : Mempool) (t : string) : option Transaction := unconfirmed m !! t ≫= node_tx (heap m).

(** A transaction whose node has no parent: the only links its inputs ask for
    were taken. *)
Definition lost (m : Mempool) (u : string) : Prop := exists p, unconfirmed m !! u = Some p /\ forall s, hin (heap m) p s = None.

(** [g] is the node that is being added, if there is one. *)
Record pool_wf (g : option nat) (m : Mempool) : Prop := {
  w_linked : linked (heap m);
  w_next : forall p, is_Some (heap m !! p) -> p < next m;
  w_conf : forall t p, confirmed m !! t = Some p -> exists n, heap m !! p = Some n /\ n_txid n = t /\ (real_id t -> is_Some (n_tx n));
  w_unconf : forall t p, unconfirmed m !! t = Some p ->
    exists n tx, heap m !! p = Some n /\ n_tx n = Some tx /\ n_txid n = t /\ Txid tx = t /\ real_id t;
  w_disj : forall t p, confirmed m !! t = Some p -> unconfirmed m !! t = None;
  w_orphans : orphans m = ∅;
  w_child : forall c s p, hin (heap m) c s = Some p -> unconf m c \/ g = Some c;
  w_parent : forall c s p, hin (heap m) c s = Some p -> conf m p \/ unconf m p;
  w_order : forall c s p, hin (heap m) c s = Some p -> conf m p \/ p < c;
  w_empty : forall p, emptyTxIDNode m = Some p -> exists n, heap m !! p = Some n /\ n_txid n = "" /\ n_tx n = None;
  w_stone : forall p, stoneNode m = Some p -> exists n, heap m !! p = Some n /\ n_txid n = stoneNodeID /\ n_tx n = None;
  w_empty_conf : forall p, confirmed m !! "" = Some p -> emptyTxIDNode m = Some p;
  w_stone_conf : forall p, confirmed m !! stoneNodeID = Some p -> stoneNode m = Some p;
  w_refs : forall t p tx, unconfirmed m !! t = Some p -> g <> Some p -> node_tx (heap m) p = Some tx ->
    forall r, r ∈ refs tx -> exists s q, hin (heap m) p s = Some q /\ txid_of (heap m) q = r;
  w_spends : forall t p tx i, unconfirmed m !! t = Some p -> g <> Some p -> node_tx (heap m) p = Some tx -> i < length (TxInputs tx) ->
    is_Some (hin (heap m) p (IIn i));
  w_index : forall k t p, bk_at (bucketKeyNodes m) k t = Some p <->
    unconfirmed m !! t = Some p /\ g <> Some p /\ k ∈ tx_bks (node_tx (heap m) p)
}.
Notation pool_ok := (pool_wf None).

Lemma conf_txid g m p : pool_wf g m -> conf m p -> confirmed m !! txid_of (heap m) p = Some p.
Proof. intros W [t Ht]. destruct (w_conf _ _ W _ _ Ht) as (n & Hn & E & _). unfold txid_of. rewrite Hn. cbn. by rewrite E. Qed.
Lemma unconf_txid g m p : pool_wf g m -> unconf m p -> unconfirmed m !! txid_of (heap m) p = Some p.
Proof. intros W [t Ht]. destruct (w_unconf _ _ W _ _ Ht) as (n & tx & Hn & _ & E & _). unfold txid_of. rewrite Hn. cbn. by rewrite E. Qed.
Lemma conf_not_unconf g m p : pool_wf g m -> conf m p -> ~ unconf m p.
Proof. intros W Hc Hu. apply (conf_txid _ _ _ W), (w_disj _ _ W) in Hc. apply (unconf_txid _ _ _ W) in Hu. congruence. Qed.

Lemma NewMempool_ok limit : pool_ok (NewMempool limit).
Proof.
  assert (forall c s, hin (heap (NewMempool limit)) c s = None) as Hi by done. assert (forall c s, hout (heap (NewMempool limit)) c s = None) as Ho by done.
  split; try done; intros *; rewrite ?Hi; try done.
  - by intros [].
  - split; [done|]. by intros [].
Qed.

(** ** The index by key *)

Lemma bk_at_del b keys t k t' :
  bk_at (foldl (del_bk t) b keys) k t' = if decide (t' = t /\ k ∈ keys) then None else bk_at b k t'.
Proof.
  revert b. induction keys as [|key keys IH]; intros b; cbn [foldl]; [rewrite decide_False by set_solver; done|].
  rewrite IH. assert (bk_at (del_bk t b key) k t' = if decide (t' = t /\ k = key) then None else bk_at b k t') as E.
  { clear IH. unfold del_bk, bk_at. destruct (b !! key) as [nodes|] eqn:Eb.
    - case_bool_decide as Hn.
      + destruct (decide (k = key)) as [->|Hne]; [|rewrite lookup_delete_ne by congruence; by rewrite decide_False by naive_solver].
        rewrite lookup_delete_eq, Eb. cbn. case_decide as D; [done|]. destruct (decide (t' = t)) as [->|Ht]; [naive_solver|].
        rewrite <- (lookup_delete_ne nodes t t') by congruence. by rewrite Hn, lookup_empty.
      + destruct (decide (k = key)) as [->|Hne]; [|rewrite lookup_insert_ne by congruence; by rewrite decide_False by naive_solver].
        rewrite lookup_insert_eq, Eb. cbn. destruct (decide (t' = t)) as [->|Ht]; [by rewrite lookup_delete_eq, decide_True|].
        rewrite lookup_delete_ne by congruence. by rewrite decide_False by naive_solver.
    - case_decide as D; [|done]. destruct D as [_ ->]. by rewrite Eb. }
  rewrite E. repeat case_decide; set_solver.
Qed.

Lemma bk_at_put b keys t p k t' :
  bk_at (foldl (put_bk t p) b keys) k t' = if decide (t' = t /\ k ∈ keys) then Some p else bk_at b k t'.
Proof.
  revert b. induction keys as [|key keys IH]; intros b; cbn [foldl]; [rewrite decide_False by set_solver; done|].
  rewrite IH. assert (bk_at (put_bk t p b key) k t' = if decide (t' = t /\ k = key) then Some p else bk_at b k t') as E.
  { clear IH. unfold put_bk, bk_at. destruct (decide (k = key)) as [->|Hne]; [|rewrite lookup_insert_ne by congruence; by rewrite decide_False by naive_solver].
    rewrite lookup_insert_eq. cbn. destruct (decide (t' = t)) as [->|Ht]; [by rewrite lookup_insert_eq, decide_True|].
    rewrite lookup_insert_ne by congruence. rewrite decide_False by naive_solver. destruct (b !! key); done. }
  rewrite E. repeat case_decide; set_solver.
Qed.

(** ** Removing nodes *)

(** [m'] is [m] after the nodes of [D] were cut off and struck from the tables. *)
Record cut_off (D : gset nat) (m m' : Mempool) : Prop := {
  co_linked : linked (heap m');
  co_frame : framed (heap m) (heap m');
  co_in : forall c s, hin (heap m') c s = if decide (c ∈ D) then None else hin (heap m) c s;
  co_conf : forall t, confirmed m' !! t = if decide (t ∈ (set_map (txid_of (heap m)) D : gset string)) then None else confirmed m !! t;
  co_unconf : forall t, unconfirmed m' !! t = if decide (t ∈ (set_map (txid_of (heap m)) D : gset string)) then None else unconfirmed m !! t;
  co_orphans : forall t, orphans m' !! t = if decide (t ∈ (set_map (txid_of (heap m)) D : gset string)) then None else orphans m !! t;
  co_index : forall k t p, bk_at (bucketKeyNodes m') k t = Some p <->
    bk_at (bucketKeyNodes m) k t = Some p /\ forall q, q ∈ D -> txid_of (heap m) q = t -> k ∉ tx_bks (node_tx (heap m) q);
  co_rest : txLimit m' = txLimit m /\ next m' = next m /\ emptyTxIDNode m' = emptyTxIDNode m /\ stoneNode m' = stoneNode m
}.

Lemma cut_off_refl m : linked (heap m) -> cut_off ∅ m m.
Proof.
  intros L. split; try done; intros; rewrite ?decide_False by set_solver; try done. split; [|naive_solver]. intros E. split; [done|]. set_solver.
Qed.

Lemma cut_off_trans D1 D2 m1 m2 m3 : cut_off D1 m1 m2 -> cut_off D2 m2 m3 -> cut_off (D1 ∪ D2) m1 m3.
Proof.
  intros [L1 F1 I1 C1 U1 O1 B1 R1] [L2 F2 I2 C2 U2 O2 B2 R2].
  assert (forall D : gset nat, (set_map (txid_of (heap m2)) D : gset string) = set_map (txid_of (heap m1)) D) as Es.
  { intros D. apply set_eq. intros t. rewrite !elem_of_map. by setoid_rewrite (framed_txid _ _ _ F1). }
  split.
  - done.
  - by etrans.
  - intros c s. rewrite I2, I1. repeat case_decide; set_solver.
  - intros t. rewrite C2, C1, Es, set_map_union_L. repeat case_decide; set_solver.
  - intros t. rewrite U2, U1, Es, set_map_union_L. repeat case_decide; set_solver.
  - intros t. rewrite O2, O1, Es, set_map_union_L. repeat case_decide; set_solver.
  - intros k t p. rewrite B2, B1. setoid_rewrite (framed_txid _ _ _ F1). unfold node_tx. setoid_rewrite (framed_tx _ _ _ F1). set_solver.
  - destruct R1 as (? & ? & ? & ?), R2 as (? & ? & ? & ?). split_and!; congruence.
Qed.

Lemma cut_off_out D m m' p o c : linked (heap m) -> cut_off D m m' ->
  hout (heap m') p o = Some c <-> hout (heap m) p o = Some c /\ c ∉ D.
Proof.
  intros L C. split.
  - intros (s & E & Et)%(ln_in _ (co_linked _ _ _ C)). rewrite (co_in _ _ _ C) in E. case_decide as Hc; [done|]. split; [|done].
    rewrite (framed_target _ _ _ _ (co_frame _ _ _ C)) in Et. rewrite <- Et. by apply (ln_out _ L).
  - intros [(s & E & Et)%(ln_in _ L) Hc]. rewrite <- Et, <- (framed_target _ _ _ _ (co_frame _ _ _ C)).
    apply (ln_out _ (co_linked _ _ _ C)). by rewrite (co_in _ _ _ C), decide_False.
Qed.

Section Spec.
Context `{O : MapOrder}.

Lemma deleteBucketKey_run p n m : heap m !! p = Some n ->
  deleteBucketKey p m = (Ret tt, set_bkNodes m (foldl (del_bk (n_txid n)) (bucketKeyNodes m) (tx_bks (n_tx n)))).
Proof. intros E. unfold deleteBucketKey. by rewrite (mbnd_ret _ _ _ _ _ (load_ok _ _ _ E)). Qed.

Lemma doDelNode_cut p m : linked (heap m) -> is_Some (heap m !! p) -> exists m', doDelNode p m = (Ret tt, m') /\ cut_off {[p]} m m'.
Proof.
  intros L [n Hn]. unfold doDelNode. destruct (breakOutputs_spec p m L) as (h' & E1 & L1 & F1 & I1); [eauto|].
  rewrite (mbnd_ret _ _ _ _ _ E1). destruct (framed_lookup_fwd _ _ _ _ F1 Hn) as (n' & Hn' & S1).
  rewrite (mbnd_ret _ _ _ _ _ (deleteBucketKey_run p n' (set_heap m h') Hn')).
  rewrite (mbnd_ret _ _ _ _ _ (load_ok p n' (set_bkNodes (set_heap m h') _) Hn')). eexists. split; [reflexivity|].
  assert ((set_map (txid_of (heap m)) ({[p]} : gset nat) : gset string) = {[n_txid n]}) as Es.
  { rewrite set_map_singleton_L. unfold txid_of. by rewrite Hn. }
  rewrite (sf_txid _ _ S1). split; cbn [heap set_heap set_bkNodes set_confirmed set_unconfirmed set_orphans]; try done.
  - intros c s. rewrite I1. repeat case_decide; set_solver.
  - intros t. rewrite Es. cbn. case_decide as D; [|rewrite lookup_delete_ne by set_solver; done]. apply elem_of_singleton in D as ->. by rewrite lookup_delete_eq.
  - intros t. rewrite Es. cbn. case_decide as D; [|rewrite lookup_delete_ne by set_solver; done]. apply elem_of_singleton in D as ->. by rewrite lookup_delete_eq.
  - intros t. rewrite Es. cbn. case_decide as D; [|rewrite lookup_delete_ne by set_solver; done]. apply elem_of_singleton in D as ->. by rewrite lookup_delete_eq.
  - intros k t q. cbn. rewrite bk_at_del, (sf_tx _ _ S1).
    assert (txid_of (heap m) p = n_txid n /\ node_tx (heap m) p = n_tx n) as [Ei Ex] by (unfold txid_of, node_tx; by rewrite Hn).
    case_decide as D.
    + destruct D as [-> Hk]. split; [done|]. intros [_ Hq]. destruct (Hq p); [set_solver|done|by rewrite Ex].
    + split; [|by intros []]. intros Eb. split; [done|]. intros q' ->%elem_of_singleton. rewrite Ei, Ex. intros <- Hk. naive_solver.
Qed.

(** ** Depth first, removing *)

Definition ranked (rk : nat -> nat) (h : Heap) : Prop := forall c s p, hin h c s = Some p -> rk p < rk c.
Definition above (rk : nat -> nat) (h : Heap) (q : nat) : nat := size (filter (fun x => rk q < rk x) (dom h)).

Definition walked (o : oslot) : bool := match o with OBk _ => false | _ => true end.
Definition isolated (h : Heap) (q : nat) : Prop :=
  (forall s, hin h q s = None) /\ (forall o, walked o = true -> hout h q o = None).

(** What hangs below a node. *)
Inductive desc (h : Heap) (p : nat) : nat -> Prop :=
| desc_refl : desc h p p
| desc_step q o c : desc h p q -> walked o = true -> hout h q o = Some c -> desc h p c.

Lemma desc_trans h p q c : desc h p q -> desc h q c -> desc h p c.
Proof. intros H1. induction 1; [done|]. by eapply desc_step. Qed.
Lemma desc_mono h h' p q : (forall p o c, hout h' p o = Some c -> hout h p o = Some c) -> desc h' p q -> desc h p q.
Proof. intros Hs. induction 1; [constructor|]. eapply desc_step; eauto. Qed.
Lemma desc_ranked h rk p q : linked h -> ranked rk h -> desc h p q -> rk p <= rk q.
Proof. intros L Hr. induction 1 as [|q o c _ IH _ E]; [done|]. apply (ln_in _ L) in E as (s & E & _). apply Hr in E. lia. Qed.

Lemma ranked_cut rk D m m' : cut_off D m m' -> ranked rk (heap m) -> ranked rk (heap m').
Proof. intros C Hr c s p. rewrite (co_in _ _ _ C). case_decide; [done|]. apply Hr. Qed.
Lemma above_cut rk D m m' q : cut_off D m m' -> above rk (heap m') q = above rk (heap m) q.
Proof. intros C. unfold above. by rewrite (framed_dom _ _ (co_frame _ _ _ C)). Qed.
Lemma above_child rk h p o c : linked h -> ranked rk h -> hout h p o = Some c -> above rk h c < above rk h p.
Proof.
  intros L Hr E. apply (ln_in _ L) in E as (s & E & _). pose proof (Hr _ _ _ E) as Hlt. unfold above. apply subset_size. split.
  - intros x. rewrite !elem_of_filter. intros [? ?]. split; [lia|done].
  - intros Hsub. assert (c ∈ filter (fun x => rk p < rk x) (dom h)) as Hc.
    { apply elem_of_filter. split; [done|]. apply elem_of_dom. unfold hin in E. destruct (h !! c); [eauto|done]. }
    apply Hsub, elem_of_filter in Hc as [? _]. lia.
Qed.

Lemma isolated_cut D m m' q : linked (heap m) -> cut_off D m m' -> isolated (heap m) q -> isolated (heap m') q.
Proof.
  intros L C [Hi Ho]. split.
  - intros s. rewrite (co_in _ _ _ C). by case_decide.
  - intros o Hw. apply eq_None_not_Some. intros [c [Hc _]%(cut_off_out _ _ _ _ _ _ L C)]. by rewrite Ho in Hc.
Qed.

Lemma out_isolated h p o v : linked h -> isolated h v -> hout h p o <> Some v.
Proof. intros L [Hi _] (s & E & _)%(ln_in _ L). by rewrite Hi in E. Qed.

(** What a call of [dfs] that starts from the nodes [R] does. *)
Record del_post (R : gset nat) (node : nat -> Prop) (m m' : Mempool) (D : gset nat) (l' : list (option Transaction)) : Prop := {
  dp_cut : cut_off D m m';
  dp_iso : forall q, q ∈ R ∪ D -> isolated (heap m') q;
  dp_desc : forall q, q ∈ D -> exists p, node p /\ desc (heap m) p q;
  dp_new : D ## R;
  dp_list : exists ds, l' = node_tx (heap m) <$> ds /\ NoDup ds /\ D = list_to_set ds
}.

Lemma del_post_trans R P1 P2 m m1 m2 D1 D2 l1 l2 :
  linked (heap m) -> (forall p, P2 p -> exists q, P1 q /\ desc (heap m) q p) ->
  del_post R P1 m m1 D1 l1 -> del_post (R ∪ D1) P2 m1 m2 D2 l2 -> del_post R P1 m m2 (D1 ∪ D2) (l1 ++ l2).
Proof.
  intros L HP [C1 I1 S1 N1 (ds1 & -> & Nd1 & ->)] [C2 I2 S2 N2 (ds2 & -> & Nd2 & ->)]. split.
  - by eapply cut_off_trans.
  - intros q Hq. apply I2. set_solver.
  - intros q [Hq|Hq]%elem_of_union; [by apply S1|]. destruct (S2 q Hq) as (p & Hp & Hd). destruct (HP p Hp) as (r & Hr & Hd').
    exists r. split; [done|]. eapply desc_trans; [done|]. eapply desc_mono; [|done]. intros x o c Hx. by apply (cut_off_out _ _ _ _ _ _ L C1) in Hx as [? _].
  - set_solver.
  - exists (ds1 ++ ds2). split_and!.
    + rewrite fmap_app. f_equal. apply list_fmap_ext. intros i x _. unfold node_tx. apply (framed_tx _ _ _ (co_frame _ _ _ C1)).
    + apply NoDup_app. split_and!; [done| |done]. intros x Hx1 Hx2. apply (N2 x); [by apply elem_of_list_to_set|]. apply elem_of_union_r. by apply elem_of_list_to_set.
    + by rewrite list_to_set_app_L.
Qed.

Lemma each_acc_fmap {S A B C} (g : A -> B) (f : B -> C -> M S C) l c m :
  each_acc (fun a => f (g a)) l c m = each_acc f (g <$> l) c m.
Proof. revert c m. induction l as [|a l IH]; intros c m; [done|]. cbn. unfold mbnd. by destruct (f (g a) c m) as [[]]. Qed.

Lemma each_acc_app {S A B} (f : A -> B -> M S B) l1 l2 b m :
  each_acc f (l1 ++ l2) b m = mbnd (each_acc f l1 b) (fun b => each_acc f l2 b) m.
Proof.
  revert b m. induction l1 as [|a l1 IH]; intros b m; [done|]. cbn. unfold mbnd. destruct (f a b m) as [[b'| |] m']; [|done..].
  rewrite IH. done.
Qed.

Section Dfs.
Context (rk : nat -> nat).

(** The loop over some of the slots of [node]; [IH] is the recursive call. *)
Definition below (node : nat) (h : Heap) (p : nat) : Prop := exists o, walked o = true /\ hout h node o = Some p.

Lemma dfs_slots_del depth node slots :
  (forall v R l m, linked (heap m) -> ranked rk (heap m) -> is_Some (heap m !! v) -> above rk (heap m) v < depth ->
     (forall q, q ∈ R -> isolated (heap m) q) ->
     exists D l' m', dfs depth doDelNode v (R, l) m = (Ret (R ∪ D, l ++ l'), m') /\ del_post R (eq v) m m' D l' /\ v ∈ R ∪ D) ->
  Forall (fun o => walked o = true) slots ->
  forall R l m, linked (heap m) -> ranked rk (heap m) -> is_Some (heap m !! node) -> above rk (heap m) node < S depth ->
     (forall q, q ∈ R -> isolated (heap m) q) -> node ∉ R ->
     exists D l' m', each_acc (fun o => dfs_slot (dfs depth doDelNode) node (fun nd => out_at nd o)) slots (R, l) m = (Ret (R ∪ D, l ++ l'), m') /\
       del_post R (below node (heap m)) m m' D l' /\ node ∉ D /\ forall o, o ∈ slots -> hout (heap m') node o = None.
Proof.
  intros IH Hw. induction Hw as [|o slots Ho Hw IHs]; intros R l m L Hr Hn Ha Hiso HR; cbn [each_acc].
  { exists ∅, [], m. rewrite (right_id_L ∅ (∪)), app_nil_r. split_and!; [done| |set_solver|set_solver].
    split; [by apply cut_off_refl|intros q Hq; apply Hiso; set_solver|set_solver|set_solver|]. exists []. split_and!; [done|constructor|done]. }
  destruct Hn as [nd Hn]. unfold dfs_slot at 1. unfold mbnd at 1. rewrite (mbnd_ret _ _ _ _ _ (load_ok _ _ _ Hn)).
  assert (hout (heap m) node o = out_at nd o) as Eo by (unfold hout; by rewrite Hn). destruct (out_at nd o) as [v|] eqn:Ev.
  - rewrite decide_False by done. pose proof (above_child rk _ _ _ _ L Hr Eo) as Hav.
    pose proof Eo as (sv & Esv & _)%(ln_in _ L).
    destruct (IH v R l m L Hr) as (D1 & l1 & m1 & -> & P1 & Hv); [by eapply child_exists|lia|done|].
    pose proof (dp_cut _ _ _ _ _ _ P1) as C1. pose proof (co_linked _ _ _ C1) as L1.
    assert (node ∉ D1) as Hnd.
    { intros Hin. destruct (dp_desc _ _ _ _ _ _ P1 node Hin) as (? & <- & Hd). apply (desc_ranked _ rk) in Hd; [|done..]. apply Hr in Esv. lia. }
    destruct (framed_lookup_fwd _ _ _ _ (co_frame _ _ _ C1) Hn) as (nd1 & Hn1 & _).
    destruct (IHs (R ∪ D1) (l ++ l1) m1) as (D2 & l2 & m2 & E2 & P2 & Hn2 & Hno);
      [done|by eapply ranked_cut|eauto|by rewrite (above_cut _ _ _ _ _ C1)|apply P1|set_solver|].
    exists (D1 ∪ D2), (l1 ++ l2), m2. rewrite (assoc_L (∪)), app_assoc. split_and!; [exact E2| |set_solver|].
    + eapply (del_post_trans R _ (below node (heap m1))); [done| | |exact P2].
      * intros p (o' & Ho' & Hp). exists p. split; [|constructor]. exists o'. split; [done|]. by apply (cut_off_out _ _ _ _ _ _ L C1) in Hp as [? _].
      * destruct P1 as [A1 A2 A3 A4 A5]. split; [done..| |done|done]. intros q Hq. destruct (A3 q Hq) as (? & <- & Hd). exists v. split; [|done]. by exists o.
    + intros o' [->|Ho']%elem_of_cons; [|by apply Hno]. pose proof (dp_cut _ _ _ _ _ _ P2) as C2.
      apply eq_None_not_Some. intros [c [Hc Hc2]%(cut_off_out _ _ _ _ _ _ L1 C2)].
      apply (cut_off_out _ _ _ _ _ _ L C1) in Hc as [Hc Hc1]. replace c with v in * by congruence.
      assert (v ∈ R) as HvR by set_solver. destruct (Hiso v HvR) as [Hi _]. by rewrite Hi in Esv.
  - cbn. destruct (IHs R l m L Hr) as (D2 & l2 & m2 & E2 & P2 & Hn2 & Hno); [eauto|done..|].
    exists D2, l2, m2. split_and!; [exact E2|done|done|]. intros o' [->|Ho']%elem_of_cons; [|by apply Hno].
    apply eq_None_not_Some. intros [c [Hc _]%(cut_off_out _ _ _ _ _ _ L (dp_cut _ _ _ _ _ _ P2))]. congruence.
Qed.

Lemma del_post_weaken R (P P' : nat -> Prop) m m' D l : (forall q, P q -> exists p, P' p /\ desc (heap m) p q) -> del_post R P m m' D l -> del_post R P' m m' D l.
Proof.
  intros HP [A1 A2 A3 A4 A5]. split; [done..| |done|done]. intros q Hq. destruct (A3 q Hq) as (p & Hp & Hd). destruct (HP p Hp) as (r & Hr & Hd').
  exists r. split; [done|]. by eapply desc_trans.
Qed.

Lemma below_desc h node p : below node h p -> exists q, node = q /\ desc h q p.
Proof. intros (o & Ho & E). exists node. split; [done|]. eapply desc_step; [constructor|done|done]. Qed.

Lemma walked_slots n o p : walked o = true -> out_at n o = Some p ->
  o ∈ (OOut <$> seq 0 (length (txOutputs n))) ++ (OExt <$> seq 0 (length (txOutputsExt n))) ++ (ORo <$> map_keys (readonlyOutputs n)).
Proof.
  intros Hw E. pose proof (out_at_room _ _ _ E) as Hr. rewrite !elem_of_app, !list_elem_of_fmap. destruct o as [i|i|t|k]; cbn in Hr, E; [| | |done].
  - left. exists i. split; [done|]. apply elem_of_seq. lia.
  - right; left. exists i. split; [done|]. apply elem_of_seq. lia.
  - right; right. exists t. split; [done|]. unfold map_keys. apply list_elem_of_fmap. exists (t, p). split; [done|].
    rewrite range_order_perm. by apply elem_of_map_to_list.
Qed.

Lemma Forall_slots {A} (g : A -> oslot) l : (forall a, walked (g a) = true) -> Forall (fun o => walked o = true) (g <$> l).
Proof. intros Hg. apply Forall_fmap, Forall_forall. intros a _. apply Hg. Qed.

(** The last step of a call: the node itself, which has no children left. *)
Lemma dfs_last_del R node m m1 D l1 : linked (heap m) -> ranked rk (heap m) ->
  del_post R (eq node) m m1 D l1 -> node ∉ R -> node ∉ D -> is_Some (heap m !! node) -> (forall o, walked o = true -> hout (heap m1) node o = None) ->
  exists m', doDelNode node m1 = (Ret tt, m') /\ del_post R (eq node) m m' (D ∪ {[node]}) (l1 ++ [node_tx (heap m) node]).
Proof.
  intros L Hr P HR HD [nd Hn] Hno. pose proof (dp_cut _ _ _ _ _ _ P) as C1. pose proof (co_linked _ _ _ C1) as L1.
  destruct (framed_lookup_fwd _ _ _ _ (co_frame _ _ _ C1) Hn) as (nd1 & Hn1 & S1).
  destruct (doDelNode_cut node m1 L1) as (m' & E & C2); [eauto|]. exists m'. split; [done|].
  eapply (del_post_trans R _ (eq node)); [done|intros p <-; exists node; split; [done|constructor]|done|]. split; [done| | | |].
  - intros q [Hq| ->%elem_of_singleton]%elem_of_union; [eapply isolated_cut; [exact L1|exact C2|by apply P]|]. split.
    + intros s. rewrite (co_in _ _ _ C2), decide_True; [done|set_solver].
    + intros o Ho. apply eq_None_not_Some. intros [c [Hc _]%(cut_off_out _ _ _ _ _ _ L1 C2)]. by rewrite Hno in Hc.
  - intros q ->%elem_of_singleton. exists node. split; [done|constructor].
  - set_solver.
  - exists [node]. split_and!; [|apply NoDup_singleton|set_solver]. cbn. unfold node_tx. by rewrite (framed_tx _ _ _ (co_frame _ _ _ C1)).
Qed.

Lemma dfs_del depth : forall node R l m, linked (heap m) -> ranked rk (heap m) -> is_Some (heap m !! node) -> above rk (heap m) node < depth ->
  (forall q, q ∈ R -> isolated (heap m) q) ->
  exists D l' m', dfs depth doDelNode node (R, l) m = (Ret (R ∪ D, l ++ l'), m') /\ del_post R (eq node) m m' D l' /\ node ∈ R ∪ D.
Proof.
  induction depth as [|depth IH]; intros node R l m L Hr Hn Ha Hiso; [lia|]. cbn [dfs fst]. destruct (decide (node ∈ R)) as [Hin|HR].
  { exists ∅, [], m. rewrite (right_id_L ∅ (∪)), app_nil_r. split_and!; [done| |done].
    split; [by apply cut_off_refl|intros q Hq; apply Hiso; set_solver|set_solver|set_solver|]. exists []. split_and!; [done|constructor|done]. }
  destruct Hn as [nd Hn]. rewrite (mbnd_ret _ _ _ _ _ (load_ok _ _ _ Hn)).
  destruct (dfs_slots_del depth node (OOut <$> seq 0 (length (txOutputs nd))) IH (Forall_slots OOut _ (fun _ => eq_refl)) R l m L Hr) as (D1 & l1 & m1 & E1 & P1 & N1 & O1); [eauto|done..|].
  rewrite <- (each_acc_fmap OOut) in E1. rewrite (mbnd_ret _ _ _ _ _ E1). clear E1.
  pose proof (dp_cut _ _ _ _ _ _ P1) as C1. pose proof (co_linked _ _ _ C1) as L1. destruct (framed_lookup_fwd _ _ _ _ (co_frame _ _ _ C1) Hn) as (nd1 & Hn1 & S1).
  destruct (dfs_slots_del depth node (OExt <$> seq 0 (length (txOutputsExt nd))) IH (Forall_slots OExt _ (fun _ => eq_refl)) (R ∪ D1) (l ++ l1) m1 L1) as (D2 & l2 & m2 & E2 & P2 & N2 & O2);
    [by eapply ranked_cut|eauto|by rewrite (above_cut _ _ _ _ _ C1)|apply P1|set_solver|].
  rewrite <- (each_acc_fmap OExt) in E2. rewrite (mbnd_ret _ _ _ _ _ E2). clear E2.
  pose proof (dp_cut _ _ _ _ _ _ P2) as C2. pose proof (co_linked _ _ _ C2) as L2. destruct (framed_lookup_fwd _ _ _ _ (co_frame _ _ _ C2) Hn1) as (nd2 & Hn2 & S2).
  rewrite (mbnd_ret _ _ _ _ _ (load_ok _ _ _ Hn2)).
  destruct (dfs_slots_del depth node (ORo <$> map_keys (readonlyOutputs nd2)) IH (Forall_slots ORo _ (fun _ => eq_refl)) (R ∪ D1 ∪ D2) (l ++ l1 ++ l2) m2 L2) as (D3 & l3 & m3 & E3 & P3 & N3 & O3);
    [by do 2 (eapply ranked_cut; [done|])|eauto|by rewrite (above_cut _ _ _ _ _ C2), (above_cut _ _ _ _ _ C1)|apply P2|set_solver|].
  rewrite <- (each_acc_fmap ORo) in E3. rewrite app_assoc in E3. rewrite (mbnd_ret _ _ _ _ _ E3). clear E3.
  pose proof (dp_cut _ _ _ _ _ _ P3) as C3.
  assert (del_post R (eq node) m m2 (D1 ∪ D2) (l1 ++ l2)) as P12.
  { eapply del_post_trans; [done| |by eapply del_post_weaken, P1; apply below_desc|exact P2].
    intros p (q & Hq & Hd)%below_desc. subst q. exists node. split; [done|]. eapply desc_mono; [|done]. intros x o c Hx. by apply (cut_off_out _ _ _ _ _ _ L C1) in Hx as [? _]. }
  pose proof (dp_cut _ _ _ _ _ _ P12) as C12.
  assert (del_post R (eq node) m m3 (D1 ∪ D2 ∪ D3) ((l1 ++ l2) ++ l3)) as P123.
  { eapply del_post_trans; [done| |exact P12|rewrite (assoc_L (∪)); exact P3].
    intros p (q & Hq & Hd)%below_desc. subst q. exists node. split; [done|]. eapply desc_mono; [|done]. intros x o c Hx. by apply (cut_off_out _ _ _ _ _ _ L C12) in Hx as [? _]. }
  destruct (dfs_last_del R node m m3 _ _ L Hr P123) as (m' & E4 & P4); [done|set_solver|eauto| |].
  { intros o Ho. apply eq_None_not_Some. intros [c Hc]. pose proof Hc as [Hc2 _]%(cut_off_out _ _ _ _ _ _ L2 C3).
    pose proof Hc2 as Hs. unfold hout in Hs. rewrite Hn2 in Hs. cbn in Hs. apply walked_slots in Hs; [|done].
    rewrite (sf_out _ _ S2), (sf_out _ _ S1), (sf_outExt _ _ S2), (sf_outExt _ _ S1), !elem_of_app in Hs. destruct Hs as [Hs|[Hs|Hs]].
    - apply O1 in Hs. apply (cut_off_out _ _ _ _ _ _ L1 C2) in Hc2 as [Hc2 _]. congruence.
    - apply O2 in Hs. congruence.
    - apply O3 in Hs. congruence. }
  rewrite (mbnd_ret _ _ _ _ _ E4). exists (D1 ∪ D2 ∪ D3 ∪ {[node]}), (((l1 ++ l2) ++ l3) ++ [node_tx (heap m) node]), m'. split_and!; [|done|set_solver].
  assert (n_tx nd2 = node_tx (heap m) node) as -> by (rewrite (sf_tx _ _ S2), (sf_tx _ _ S1); unfold node_tx; by rewrite Hn).
  unfold mpure. cbn [fst snd]. replace ({[node]} ∪ (R ∪ D1 ∪ D2 ∪ D3)) with (R ∪ (D1 ∪ D2 ∪ D3 ∪ {[node]})) by (clear; set_solver).
  by rewrite <- !app_assoc.
Qed.
End Dfs.

(** ** Removing a transaction *)

Definition listed (m : Mempool) (p : nat) : Prop := conf m p \/ unconf m p.

Lemma listed_inj g m p q : pool_wf g m -> listed m p -> listed m q -> txid_of (heap m) p = txid_of (heap m) q -> p = q.
Proof.
  intros W [Hp|Hp] [Hq|Hq] E.
  - apply (conf_txid _ _ _ W) in Hp, Hq. congruence.
  - apply (conf_txid _ _ _ W), (w_disj _ _ W) in Hp. apply (unconf_txid _ _ _ W) in Hq. congruence.
  - apply (conf_txid _ _ _ W), (w_disj _ _ W) in Hq. apply (unconf_txid _ _ _ W) in Hp. congruence.
  - apply (unconf_txid _ _ _ W) in Hp, Hq. congruence.
Qed.

Lemma listed_exists g m p : pool_wf g m -> listed m p -> is_Some (heap m !! p).
Proof. intros W [[t Hp]|[t Hp]]; [destruct (w_conf _ _ W _ _ Hp) as (n & -> & _)|destruct (w_unconf _ _ W _ _ Hp) as (n & tx & -> & _)]; eauto. Qed.

Lemma getNode_listed g m t p : pool_wf g m -> getNode t m = Some p <-> listed m p /\ txid_of (heap m) p = t.
Proof.
  intros W. unfold getNode. rewrite (w_orphans _ _ W), lookup_empty. split.
  - destruct (confirmed m !! t) as [q|] eqn:Ec.
    + intros [= ->]. split; [left; by exists t|]. destruct (w_conf _ _ W _ _ Ec) as (n & Hn & <- & _). unfold txid_of. by rewrite Hn.
    + destruct (unconfirmed m !! t) as [q|] eqn:Eu; [|done]. intros [= ->]. split; [right; by exists t|].
      destruct (w_unconf _ _ W _ _ Eu) as (n & tx & Hn & _ & <- & _). unfold txid_of. by rewrite Hn.
  - intros [[Hp|Hp] <-].
    + by rewrite (conf_txid _ _ _ W Hp).
    + rewrite (unconf_txid _ _ _ W Hp). destruct (confirmed m !! _) as [q|] eqn:Ec; [|done]. apply (w_disj _ _ W) in Ec. by rewrite (unconf_txid _ _ _ W Hp) in Ec.
Qed.

Definition pool_rank (m : Mempool) (c : nat) : nat := if decide (confirmed m !! txid_of (heap m) c = Some c) then 0 else S c.
Lemma pool_ranked m : pool_ok m -> ranked (pool_rank m) (heap m).
Proof.
  intros W c s p E. unfold pool_rank. rewrite (decide_False (P := confirmed m !! txid_of (heap m) c = Some c)).
  - destruct (w_order _ _ W _ _ _ E) as [Hp|Hp]; [rewrite decide_True by (by eapply conf_txid); lia|]. case_decide; lia.
  - intros Hc. destruct (w_child _ _ W _ _ _ E) as [Hu|]; [|done]. eapply (conf_not_unconf _ m c); [done|by eexists|done].
Qed.
Lemma above_bound rk h q : above rk h q < S (size h).
Proof. unfold above. rewrite <- size_dom. apply Nat.lt_succ_r, subseteq_size. intros x [_ Hx]%elem_of_filter. done. Qed.

(** A node that only the first writers of keys hang from is the empty one. *)
Lemma out_walked m p o c : linked (heap m) -> txid_of (heap m) p <> "" -> hout (heap m) p o = Some c -> walked o = true.
Proof.
  intros L Ht E. destruct o as [?|?|?|k]; try done. exfalso. unfold hout in E. unfold txid_of in Ht. destruct (heap m !! p) as [n|] eqn:Hn; [|done].
  destruct (ln_node _ L _ _ Hn) as [_ Hb]. cbn in E. by rewrite (Hb Ht) in E.
Qed.

Section CutOff.
Context (D : gset nat) (m m' : Mempool) (W : pool_ok m) (C : cut_off D m m').
Context (Hiso : forall q, q ∈ D -> isolated (heap m') q) (Hlist : forall q, q ∈ D -> listed m q /\ txid_of (heap m) q <> "").

Lemma cut_id q : listed m q -> txid_of (heap m) q ∈ (set_map (txid_of (heap m)) D : gset string) <-> q ∈ D.
Proof using W Hlist.
  intros Hq. rewrite elem_of_map. split; [|eauto]. intros (x & E & Hx). destruct (Hlist x Hx) as [Hl _].
  by rewrite (listed_inj _ _ _ _ W Hq Hl E).
Qed.
Lemma cut_conf q : conf m q -> q ∉ D -> conf m' q.
Proof using W C Hlist.
  intros Hq Hn. exists (txid_of (heap m) q). rewrite (co_conf _ _ _ C), decide_False; [by eapply conf_txid|]. intros Hin%cut_id; [done|by left].
Qed.
Lemma cut_unconf q : unconf m q -> q ∉ D -> unconf m' q.
Proof using W C Hlist.
  intros Hq Hn. exists (txid_of (heap m) q). rewrite (co_unconf _ _ _ C), decide_False; [by eapply unconf_txid|]. intros Hin%cut_id; [done|by right].
Qed.
Lemma unconf_cut t q : unconfirmed m' !! t = Some q <-> unconfirmed m !! t = Some q /\ q ∉ D.
Proof using W C Hlist.
  rewrite (co_unconf _ _ _ C). assert (unconfirmed m !! t = Some q -> txid_of (heap m) q = t) as Ht.
  { intros E. destruct (w_unconf _ _ W _ _ E) as (n & tx & Hn & _ & <- & _). unfold txid_of. by rewrite Hn. }
  case_decide as Hd.
  - split; [done|]. intros [E Hn]. rewrite <- (Ht E) in Hd. apply cut_id in Hd; [done|]. right. by exists t.
  - split; [|by intros []]. intros E. split; [done|]. intros Hq. apply Hd. rewrite <- (Ht E). apply cut_id; [right; by exists t|done].
Qed.

Lemma cut_parent c s p : hin (heap m') c s = Some p -> hin (heap m) c s = Some p /\ c ∉ D /\ p ∉ D.
Proof using W C Hiso Hlist.
  intros E'. pose proof E' as E. rewrite (co_in _ _ _ C) in E. case_decide as Hc; [done|]. split_and!; [done..|]. intros Hp. destruct (Hlist p Hp) as [_ Ht].
  pose proof (ln_out _ (co_linked _ _ _ C) _ _ _ E') as Ho. destruct (Hiso p Hp) as [_ Hw]. rewrite Hw in Ho; [done|].
  eapply (out_walked m'); [apply C|by rewrite (framed_txid _ _ _ (co_frame _ _ _ C))|exact Ho].
Qed.

Lemma cut_off_ok : pool_ok m'.
Proof using All.
  pose proof (co_frame _ _ _ C) as F. destruct (co_rest _ _ _ C) as (_ & En & Ee & Es). split.
  - apply C.
  - intros p [n (n0 & Hn & _)%(framed_lookup _ _ _ _ F)]. rewrite En. by apply (w_next _ _ W).
  - intros t p. rewrite (co_conf _ _ _ C). case_decide; [done|]. intros (n & Hn & <- & Hx)%(w_conf _ _ W).
    destruct (framed_lookup_fwd _ _ _ _ F Hn) as (n' & Hn' & S'). exists n'. by rewrite (sf_tx _ _ S'), (sf_txid _ _ S').
  - intros t p [(n & tx & Hn & Hx & H1 & H2 & H3)%(w_unconf _ _ W) _]%unconf_cut.
    destruct (framed_lookup_fwd _ _ _ _ F Hn) as (n' & Hn' & S'). exists n', tx. rewrite (sf_tx _ _ S'), (sf_txid _ _ S'). done.
  - intros t p. rewrite (co_conf _ _ _ C), (co_unconf _ _ _ C). case_decide; [done|]. apply (w_disj _ _ W).
  - apply map_empty. intros t. rewrite (co_orphans _ _ _ C), (w_orphans _ _ W), lookup_empty. by case_decide.
  - intros c s p (E & Hc & _)%cut_parent. left. destruct (w_child _ _ W _ _ _ E) as [Hu|]; [|done]. by apply cut_unconf.
  - intros c s p (E & _ & Hp)%cut_parent. destruct (w_parent _ _ W _ _ _ E); [left; by apply cut_conf|right; by apply cut_unconf].
  - intros c s p (E & _ & Hp)%cut_parent. destruct (w_order _ _ W _ _ _ E); [left; by apply cut_conf|by right].
  - intros p. rewrite Ee. intros (n & Hn & H1 & H2)%(w_empty _ _ W). destruct (framed_lookup_fwd _ _ _ _ F Hn) as (n' & Hn' & S').
    exists n'. by rewrite (sf_tx _ _ S'), (sf_txid _ _ S').
  - intros p. rewrite Es. intros (n & Hn & H1 & H2)%(w_stone _ _ W). destruct (framed_lookup_fwd _ _ _ _ F Hn) as (n' & Hn' & S').
    exists n'. by rewrite (sf_tx _ _ S'), (sf_txid _ _ S').
  - intros p. rewrite (co_conf _ _ _ C), Ee. case_decide; [done|]. apply (w_empty_conf _ _ W).
  - intros p. rewrite (co_conf _ _ _ C), Es. case_decide; [done|]. apply (w_stone_conf _ _ W).
  - intros t p tx [Eu Hp]%unconf_cut _. unfold node_tx. rewrite (framed_tx _ _ _ F). intros Hx r Hr.
    destruct (w_refs _ _ W _ _ _ Eu ltac:(done) Hx r Hr) as (s & q & Hq & Ht). exists s, q. rewrite (co_in _ _ _ C), decide_False, (framed_txid _ _ _ F); done.
  - intros t p tx i [Eu Hp]%unconf_cut _. unfold node_tx. rewrite (framed_tx _ _ _ F), (co_in _ _ _ C), decide_False by done. by apply (w_spends _ _ W _ _ _ _ Eu).
  - intros k t p. rewrite (co_index _ _ _ C), (w_index _ _ W), unconf_cut. unfold node_tx. rewrite (framed_tx _ _ _ F). split.
    + intros [(Eu & _ & Hk) Hno]. split_and!; [done| |done..]. intros Hp. apply (Hno p Hp); [|done].
      destruct (w_unconf _ _ W _ _ Eu) as (n & tx & Hn & _ & <- & _). unfold txid_of. by rewrite Hn.
    + intros ([Eu Hp] & _ & Hk). split_and!; [done..|]. intros q Hq Et. exfalso. apply Hp. destruct (Hlist q Hq) as [Hl _].
      replace p with q; [done|]. eapply (listed_inj _ m); [done|done|right; by exists t|]. rewrite Et.
      destruct (w_unconf _ _ W _ _ Eu) as (n & tx & Hn & _ & <- & _). unfold txid_of. by rewrite Hn.
Qed.
End CutOff.

(** What [deleteTx] does before it goes down. *)
Definition struck (p : nat) (m m1 : Mempool) : Prop :=
  heap m1 = heap m /\ next m1 = next m /\ txLimit m1 = txLimit m /\ emptyTxIDNode m1 = emptyTxIDNode m /\ stoneNode m1 = stoneNode m /\
  bucketKeyNodes m1 = bucketKeyNodes m /\
  forall t, t <> txid_of (heap m) p -> confirmed m1 !! t = confirmed m !! t /\ unconfirmed m1 !! t = unconfirmed m !! t /\ orphans m1 !! t = orphans m !! t.

Lemma delete_below p m m1 : pool_ok m -> listed m p -> struck p m m1 ->
  exists D ds m', (do! deleteBucketKey p in do! breakOutputs p in deleteChildrenFromNode p) m1 = (Ret (node_tx (heap m) <$> ds), m') /\
    cut_off D m m' /\ (forall q, q ∈ D -> isolated (heap m') q) /\ (forall q, q ∈ D <-> desc (heap m) p q) /\ NoDup ds /\ D = list_to_set ds.
Proof.
  intros W Hl (Eh & En & El & Ee & Es & Eb & Et). destruct (listed_exists _ _ _ W Hl) as [n Hn]. pose proof (w_linked _ _ W) as L.
  assert (txid_of (heap m) p = n_txid n /\ node_tx (heap m) p = n_tx n) as [Ei Ex] by (unfold txid_of, node_tx; by rewrite Hn).
  assert (heap m1 !! p = Some n) as Hn1 by (by rewrite Eh). rewrite (mbnd_ret _ _ _ _ _ (deleteBucketKey_run _ _ _ Hn1)). set (m2 := set_bkNodes m1 _).
  destruct (breakOutputs_spec p m2) as (h' & E1 & L1 & F1 & I1); [cbn; by rewrite Eh|cbn; rewrite Eh; eauto|]. rewrite (mbnd_ret _ _ _ _ _ E1).
  cbn [m2 heap set_bkNodes] in F1, I1. rewrite Eh in F1, I1. set (m3 := set_heap m2 h').
  assert (ranked (pool_rank m) h') as Hr. { intros c s q. rewrite I1. case_decide; [done|]. by apply pool_ranked. }
  destruct (framed_lookup_fwd _ _ _ _ F1 Hn) as (n' & Hn' & S1).
  destruct (dfs_del (pool_rank m) (S (size (heap m3))) p ∅ [] m3 L1 Hr) as (D & l' & m' & Ed & [C Hiso Hd _ (ds & -> & Nd & HD)] & Hp);
    [cbn; eauto|apply above_bound|set_solver|].
  unfold deleteChildrenFromNode, run_dfs, mbnd. rewrite Ed. cbn [mpure fst snd app]. rewrite (left_id_L ∅ (∪)) in *.
  assert (forall x o c, hout h' x o = Some c -> hout (heap m) x o = Some c) as Hsub.
  { intros x o c (s & E & Et')%(ln_in _ L1). rewrite (framed_target _ _ _ _ F1) in Et'. rewrite I1 in E. case_decide; [done|]. rewrite <- Et'. by apply (ln_out _ L). }
  assert (forall t, t ∉ (set_map (txid_of h') D : gset string) -> t <> txid_of (heap m) p) as Hne.
  { intros t Hn0 ->. apply Hn0, elem_of_map. exists p. by rewrite (framed_txid _ _ _ F1). }
  assert ((set_map (txid_of h') D : gset string) = set_map (txid_of (heap m)) D) as Esm.
  { apply set_eq. intros t. rewrite !elem_of_map. by setoid_rewrite (framed_txid _ _ _ F1). }
  assert (cut_off D m m') as C'.
  { split; [apply C|etrans; [exact F1|apply C]| | | | | |].
    - intros c s. rewrite (co_in _ _ _ C). cbn. rewrite I1. repeat case_decide; subst; done.
    - intros t. rewrite (co_conf _ _ _ C). cbn [m3 m2 heap set_heap]. rewrite <- Esm. case_decide as Dt; [done|]. by apply Et, Hne.
    - intros t. rewrite (co_unconf _ _ _ C). cbn [m3 m2 heap set_heap]. rewrite <- Esm. case_decide as Dt; [done|]. by apply Et, Hne.
    - intros t. rewrite (co_orphans _ _ _ C). cbn [m3 m2 heap set_heap]. rewrite <- Esm. case_decide as Dt; [done|]. by apply Et, Hne.
    - intros k t q. rewrite (co_index _ _ _ C). cbn. rewrite bk_at_del, Eb. setoid_rewrite (framed_txid _ _ _ F1). unfold node_tx. setoid_rewrite (framed_tx _ _ _ F1).
      case_decide as Dt; [|done]. destruct Dt as [-> Hk]. split; [by intros []|]. intros [_ Hno]. exfalso. apply (Hno p Hp); [done|]. by rewrite Hn.
    - destruct (co_rest _ _ _ C) as (? & ? & ? & ?). cbn in *. split_and!; congruence. }
  exists D, ds, m'. split_and!; [|done|done| |done|done].
  - unfold mpure. do 2 f_equal. apply list_fmap_ext. intros i x _. unfold node_tx. cbn. by rewrite (framed_tx _ _ _ F1).
  - intros q. split.
    + intros Hq. destruct (Hd q Hq) as (? & <- & Hdq). by eapply desc_mono.
    + induction 1 as [|q o c _ IH Hw E]; [done|]. destruct (decide (c ∈ D)) as [|Hc]; [done|]. exfalso.
      assert (hout (heap m') q o = Some c) as E' by (by apply (cut_off_out _ _ _ _ _ _ L C')).
      destruct (Hiso q) as [_ Ho]; [set_solver|]. by rewrite Ho in E'.
Qed.

(** [b] depends on [a]: [a] itself, or an unconfirmed transaction that refers to
    one that depends on it. *)
Inductive depends (m : Mempool) (a : string) : string -> Prop :=
| dep_here : depends m a a
| dep_step b c tx : depends m a b -> pool_tx m c = Some tx -> b ∈ refs tx -> depends m a c.

Lemma pool_tx_Some m t tx : pool_ok m -> pool_tx m t = Some tx <->
  exists p n, unconfirmed m !! t = Some p /\ heap m !! p = Some n /\ n_tx n = Some tx /\ n_txid n = t /\ Txid tx = t.
Proof.
  intros W. unfold pool_tx, node_tx. split.
  - intros (p & Eu & (n & Hn & Hx)%bind_Some)%bind_Some. exists p, n. destruct (w_unconf _ _ W _ _ Eu) as (n' & tx' & Hn' & Hx' & E1 & E2 & _).
    replace n' with n in * by congruence. split_and!; congruence.
  - intros (p & n & -> & Hn & Hx & _). cbn. by rewrite Hn.
Qed.

Lemma edge_refs m c s p : pool_ok m -> hin (heap m) c s = Some p -> real_id (txid_of (heap m) p) ->
  exists tx, pool_tx m (txid_of (heap m) c) = Some tx /\ node_tx (heap m) c = Some tx /\ txid_of (heap m) p ∈ refs tx.
Proof.
  intros W E [H1 H2]. destruct (w_child _ _ W _ _ _ E) as [[t Eu]|]; [|done]. destruct (w_unconf _ _ W _ _ Eu) as (n & tx & Hn & Hx & Et & _).
  assert (txid_of (heap m) c = t) as -> by (unfold txid_of; by rewrite Hn). exists tx. split_and!; [unfold pool_tx; rewrite Eu; cbn; unfold node_tx; by rewrite Hn|unfold node_tx; by rewrite Hn|].
  pose proof (ln_input _ (w_linked _ _ W) _ _ _ _ Hn E) as Hi. unfold refs. apply elem_of_app. destruct s as [i|i|u]; cbn in Hi; rewrite Hx in Hi; cbn in Hi.
  - destruct Hi as (inp & Hi & _ & <-). left. apply list_elem_of_fmap_2. by eapply list_elem_of_lookup_2.
  - destruct Hi as (inp & Hi & _ & Er). right. apply list_elem_of_filter. split; [done|]. rewrite <- Er. apply list_elem_of_fmap_2. by eapply list_elem_of_lookup_2.
  - destruct Hi as (-> & [?|[?|Hi]]); [done..|]. right. by apply list_elem_of_filter.
Qed.

Lemma edge_walked m c s p : pool_ok m -> hin (heap m) c s = Some p -> txid_of (heap m) p <> "" -> walked (htarget (heap m) c s) = true.
Proof. intros W E Ht. eapply out_walked; [apply W|done|]. apply (ln_out _ (w_linked _ _ W) _ _ _ E). Qed.

Lemma child_unconf m p o c : pool_ok m -> hout (heap m) p o = Some c -> unconf m c.
Proof. intros W (s & E & _)%(ln_in _ (w_linked _ _ W)). by destruct (w_child _ _ W _ _ _ E). Qed.

Lemma desc_listed m p q : pool_ok m -> listed m p -> desc (heap m) p q -> q = p \/ unconf m q.
Proof. intros W Hp Hd. destruct Hd as [|q o c _ _ E]; [by left|]. right. by eapply child_unconf. Qed.

Lemma unconf_real m q : pool_ok m -> unconf m q -> real_id (txid_of (heap m) q).
Proof. intros W [t Eu]. destruct (w_unconf _ _ W _ _ Eu) as (n & tx & Hn & _ & E & _ & Hr). unfold txid_of. rewrite Hn. cbn. by rewrite E. Qed.

Lemma desc_depends m p q : pool_ok m -> listed m p -> real_id (txid_of (heap m) p) -> desc (heap m) p q ->
  depends m (txid_of (heap m) p) (txid_of (heap m) q).
Proof.
  intros W Hp Hr. induction 1 as [|q o c Hd IH Hw E]; [constructor|]. apply (ln_in _ (w_linked _ _ W)) in E as (s & E & _).
  assert (real_id (txid_of (heap m) q)) as Hq by (destruct (desc_listed _ _ _ W Hp Hd) as [->|]; [done|by apply unconf_real]).
  destruct (edge_refs _ _ _ _ W E Hq) as (tx & Hx & _ & Hin). by eapply dep_step.
Qed.

Lemma depends_desc m t u : pool_ok m -> t <> "" -> depends m t u -> u = t \/ exists p q, getNode t m = Some p /\ desc (heap m) p q /\ unconf m q /\ txid_of (heap m) q = u.
Proof.
  intros W Ht. induction 1 as [|b c tx Hd IH Hx Hin]; [by left|]. right. apply (pool_tx_Some _ _ _ W) in Hx as (pc & nc & Ec & Hnc & Hxc & Etc & _).
  assert (node_tx (heap m) pc = Some tx) as Hnx by (unfold node_tx; by rewrite Hnc).
  destruct (w_refs _ _ W _ _ _ Ec ltac:(done) Hnx b Hin) as (s & q & E & Eq). pose proof (ln_out _ (w_linked _ _ W) _ _ _ E) as Ho.
  assert (txid_of (heap m) pc = c) as Epc by (unfold txid_of; rewrite Hnc; done).
  assert (exists p, getNode t m = Some p /\ desc (heap m) p q) as (p & Hp & Hdq).
  { destruct IH as [->|(p & q' & Hp & Hd' & Hq' & Eq')].
    - exists q. split; [|constructor]. apply (getNode_listed None); [done|]. split; [by apply (w_parent _ _ W _ _ _ E)|done].
    - exists p. split; [done|]. replace q with q'; [done|]. eapply (listed_inj _ m); [done|by right|by apply (w_parent _ _ W _ _ _ E)|congruence]. }
  exists p, pc. split_and!; [done| |by exists c|done]. eapply desc_step; [done| |exact Ho]. eapply edge_walked; [done|done|].
  apply (getNode_listed None) in Hp as [Hl Et]; [|done]. destruct (desc_listed _ _ _ W Hl Hdq) as [->|Hu]; [congruence|apply (unconf_real _ _ W Hu)].
Qed.

Lemma unconfirmed_cut_tx D m m' u : pool_ok m -> cut_off D m m' -> (forall q, q ∈ D -> listed m q /\ txid_of (heap m) q <> "") ->
  (forall q, unconfirmed m !! u = Some q -> q ∈ D -> pool_tx m' u = None) /\
  ((forall q, unconfirmed m !! u = Some q -> q ∉ D) -> pool_tx m' u = pool_tx m u).
Proof.
  intros W C Hl. unfold pool_tx. split.
  - intros q Eu Hq. destruct (unconfirmed m' !! u) as [q'|] eqn:E'; [|done].
    apply (unconf_cut D m m' W C Hl) in E' as [E' Hn]. congruence.
  - intros Hd. destruct (unconfirmed m !! u) as [q|] eqn:Eu.
    + assert (unconfirmed m' !! u = Some q) as -> by (apply (unconf_cut D m m' W C Hl); auto).
      cbn. unfold node_tx. apply (framed_tx _ _ _ (co_frame _ _ _ C)).
    + destruct (unconfirmed m' !! u) as [q'|] eqn:E'; [|done]. apply (unconf_cut D m m' W C Hl) in E' as [E' _]. congruence.
Qed.

(** The transactions of a list of unconfirmed nodes. *)
Lemma unconf_txs m ds : pool_ok m -> NoDup ds -> (forall q, q ∈ ds -> unconf m q) ->
  exists txs, node_tx (heap m) <$> ds = Some <$> txs /\ NoDup (Txid <$> txs) /\
    (fun tx => unconfirmed m !! Txid tx) <$> txs = Some <$> ds /\ Forall (fun tx => pool_tx m (Txid tx) = Some tx) txs.
Proof.
  intros W. induction ds as [|q ds IH]; intros Nd Hall; [exists []; split_and!; [done|constructor|done|constructor]|].
  apply NoDup_cons in Nd as [Hni Nd]. destruct IH as (txs & E1 & E2 & E3 & E4); [done|set_solver|].
  destruct (Hall q) as [t Eu]; [set_solver|]. destruct (w_unconf _ _ W _ _ Eu) as (n & tx & Hn & Hx & _ & Ex & _). subst t.
  assert (node_tx (heap m) q = Some tx) as Hq by (unfold node_tx; by rewrite Hn). exists (tx :: txs). cbn. rewrite Hq, E1, E3, Eu. split_and!; [done| |done|].
  - apply NoDup_cons. split; [|done]. intros (tx' & E & Hin)%list_elem_of_fmap. apply Hni.
    assert (unconfirmed m !! Txid tx' ∈ (Some <$> ds)) as (q' & Eq' & Hq')%list_elem_of_fmap by (rewrite <- E3; by apply (list_elem_of_fmap_2 (fun tx => unconfirmed m !! Txid tx))).
    rewrite <- E in Eq'. congruence.
  - constructor; [|done]. unfold pool_tx. by rewrite Eu.
Qed.

Lemma unconf_txs_elem m ds txs tx : (fun tx => unconfirmed m !! Txid tx) <$> txs = Some <$> ds -> Forall (fun tx => pool_tx m (Txid tx) = Some tx) txs ->
  tx ∈ txs <-> pool_tx m (Txid tx) = Some tx /\ exists q, q ∈ ds /\ unconfirmed m !! Txid tx = Some q.
Proof.
  intros E Hf. rewrite Forall_forall in Hf. split.
  - intros Hin. split; [by apply Hf|]. assert (unconfirmed m !! Txid tx ∈ (Some <$> ds)) as (q & Eq & Hq)%list_elem_of_fmap; [|eauto].
    rewrite <- E. by apply (list_elem_of_fmap_2 (fun tx => unconfirmed m !! Txid tx)).
  - intros [Hp (q & Hq & Eq)]. assert (Some q ∈ ((fun tx => unconfirmed m !! Txid tx) <$> txs)) as (tx' & Eq' & Hin)%list_elem_of_fmap by (rewrite E; by apply list_elem_of_fmap_2).
    replace tx with tx'; [done|]. pose proof (Hf _ Hin) as Hp'. unfold pool_tx in *. rewrite <- Eq' in Hp'. rewrite Eq in Hp. congruence.
Qed.

Lemma unconf_getNode m t q : pool_ok m -> unconfirmed m !! t = Some q -> listed m q /\ txid_of (heap m) q = t.
Proof.
  intros W Eq. apply (getNode_listed None); [done|]. unfold getNode. rewrite Eq.
  destruct (confirmed m !! t) eqn:Ec; [|done]. apply (w_disj _ _ W) in Ec. congruence.
Qed.

(** The nodes below [p] are the transactions that depend on its own. *)
Lemma depends_iff m t p u q : pool_ok m -> real_id t -> getNode t m = Some p -> unconfirmed m !! u = Some q -> depends m t u <-> desc (heap m) p q.
Proof.
  intros W Hr Eg Eq. destruct (proj1 (getNode_listed None m t p W) Eg) as [Hl Et]. destruct (unconf_getNode _ _ _ W Eq) as [Hlq Euq]. split.
  - intros Hu. destruct (depends_desc _ _ _ W (proj1 Hr) Hu) as [->|(p' & q' & Hp' & Hd & Hq' & Eq')].
    + replace q with p; [constructor|]. eapply (listed_inj _ m); [done..|congruence].
    + replace p with p' in * by congruence. replace q with q'; [done|]. eapply (listed_inj _ m); [done|by right|done|congruence].
  - intros Hd. rewrite <- Et in Hr. pose proof (desc_depends _ _ _ W Hl Hr Hd) as Hdep. by rewrite Et, Euq in Hdep.
Qed.

Lemma deleteTx_struck m t p : pool_ok m -> getNode t m = Some p ->
  exists m1, struck p m m1 /\ deleteTx t m = (do! deleteBucketKey p in do! breakOutputs p in deleteChildrenFromNode p) m1.
Proof.
  intros W Eg. destruct (proj1 (getNode_listed None m t p W) Eg) as [Hl Et]. unfold deleteTx, struck. rewrite (w_orphans _ _ W), lookup_empty, Et. destruct Hl as [Hp|Hp].
  - apply (conf_txid _ _ _ W) in Hp. rewrite Et in Hp. rewrite (w_disj _ _ W _ _ Hp), Hp. eexists. split; [|done]. split_and!; [done..|].
    intros u Hu. cbn. rewrite lookup_delete_ne by congruence. by rewrite (w_orphans _ _ W).
  - apply (unconf_txid _ _ _ W) in Hp. rewrite Et in Hp. rewrite Hp. eexists. split; [|done]. split_and!; [done..|].
    intros u Hu. cbn. rewrite lookup_delete_ne by congruence. by rewrite (w_orphans _ _ W).
Qed.

Lemma deleteTx_unknown m t : pool_ok m -> t <> "" -> getNode t m = None ->
  deleteTx t m = (Ret [], m) /\ pool_tx m t = None /\ forall u, depends m t u -> pool_tx m u = None.
Proof.
  intros W Ht Eg. assert (unconfirmed m !! t = None /\ confirmed m !! t = None) as [Eu Ec].
  { unfold getNode in Eg. destruct (confirmed m !! t); [done|]. by destruct (unconfirmed m !! t). }
  assert (pool_tx m t = None) as Ep by (unfold pool_tx; by rewrite Eu). split_and!; [|done|].
  - unfold deleteTx. by rewrite Eu, Ec, (w_orphans _ _ W), lookup_empty.
  - intros u Hu. destruct (depends_desc _ _ _ W Ht Hu) as [->|(p & q & Hp & _)]; [done|congruence].
Qed.

(** C16: deleting a transaction takes everything that depends on it along.  From a
    pool in order, [deleteTx] ends (it does not panic and its recursion is not
    too deep); the unconfirmed transactions it removes are exactly those that
    refer to the transaction, directly or through others; the pool is in order
    again and no other transaction has lost its place.  For an unconfirmed transaction the list returned has each of them
    once. *)
Theorem deleteTx_removes_dependents m t : pool_ok m -> real_id t ->
  exists l m', deleteTx t m = (Ret l, m') /\ pool_ok m' /\
    (forall u, depends m t u -> pool_tx m' u = None) /\ (forall u, ~ depends m t u -> pool_tx m' u = pool_tx m u) /\
    (forall u, lost m' u -> lost m u) /\
    (is_Some (pool_tx m t) -> exists txs, l = Some <$> txs /\ NoDup (Txid <$> txs) /\
       forall tx, tx ∈ txs <-> pool_tx m (Txid tx) = Some tx /\ depends m t (Txid tx)).
Proof.
  intros W Hr. pose proof Hr as [Hne _]. destruct (getNode t m) as [p|] eqn:Eg.
  - destruct (deleteTx_struck _ _ _ W Eg) as (m1 & Hs & ->). destruct (proj1 (getNode_listed None m t p W) Eg) as [Hl Et].
    destruct (delete_below p m m1 W Hl Hs) as (D & ds & m' & -> & C & Hiso & HD & Nd & Eds). clear Hs.
    assert (forall q, q ∈ D -> listed m q /\ txid_of (heap m) q <> "") as Hld.
    { intros q Hq%HD. destruct (desc_listed _ _ _ W Hl Hq) as [->|Hu]; [by rewrite Et|]. split; [by right|]. apply (unconf_real _ _ W Hu). }
    assert (forall u q, unconfirmed m !! u = Some q -> depends m t u <-> q ∈ D) as Hdep by (intros u q Eq; rewrite HD; by apply depends_iff).
    eexists _, m'. split; [reflexivity|]. split_and!.
    + by eapply cut_off_ok.
    + intros u Hu. destruct (unconfirmed m !! u) as [q|] eqn:Eq; [by eapply (unconfirmed_cut_tx D m m' u W C Hld), Hdep|].
      rewrite (proj2 (unconfirmed_cut_tx D m m' u W C Hld)); [|by intros q; rewrite Eq]. unfold pool_tx. by rewrite Eq.
    + intros u Hu. apply (unconfirmed_cut_tx D m m' u W C Hld). intros q Eq Hq. apply Hu. by apply (Hdep _ _ Eq).
    + intros u (q & [Eq Hq]%(unconf_cut D m m' W C Hld) & Hno). exists q. split; [done|]. intros s. specialize (Hno s). by rewrite (co_in _ _ _ C), decide_False in Hno.
    + intros [tx0 (p0 & n0 & E0 & _)%(pool_tx_Some _ _ _ W)]. destruct (unconf_txs m ds W Nd) as (txs & E1 & E2 & E3 & E4).
      { intros q Hq. assert (q ∈ D) as Hq'%HD by (rewrite Eds; by apply elem_of_list_to_set). destruct (desc_listed _ _ _ W Hl Hq') as [->|]; [|done].
        exists t. rewrite E0. f_equal. destruct (unconf_getNode _ _ _ W E0) as [Hl0 Et0]. eapply (listed_inj _ m); [done..|congruence]. }
      exists txs. split_and!; [done..|]. intros tx. rewrite (unconf_txs_elem m ds txs tx E3 E4). split.
      * intros (Hp & q & Hq & Eq). split; [done|]. apply (Hdep _ _ Eq). rewrite Eds. by apply elem_of_list_to_set.
      * intros [Hp Hu]. split; [done|]. pose proof Hp as (q & n & Eu & _)%(pool_tx_Some _ _ _ W). exists q. split; [|done].
        apply (Hdep _ _ Eu) in Hu. rewrite Eds in Hu. by apply elem_of_list_to_set in Hu.
  - destruct (deleteTx_unknown _ _ W Hne Eg) as (-> & Ep & Hu). exists [], m. split_and!; [done..|]. intros []. congruence.
Qed.
End Spec.
