(* ===== verification/MempoolConfirm.v ===== *)
(** * The memory pool: confirming transactions

    [moveToConfirmed] and its callers: a confirmed transaction leaves the
    unconfirmed ones together with everything it depends on, and keeps the
    place of a parent for those that depend on it. *)

From Stdlib Require Import ZArith Lia.
From stdpp Require Import base gmap strings list numbers sorting.
From S2P Require Import Prelude GoValues Sandbox LedgerHash XModel Mempool MempoolGraph MempoolSpec.

Set Default Proof Using "Type".

Section Confirm.
Context `{O : MapOrder} (fuel : nat).

(** ** The number of links *)

Definition insum (n : Node) : nat := Z.to_nat (getInputSum n).
Lemma insum_eq n : insum n = count_some (txInputs n) + count_some (txInputsExt n) + size (readonlyInputs n).
Proof. unfold insum, getInputSum. apply Nat2Z.id. Qed.

Lemma slices_eq (l l' : list (option nat)) : length l = length l' -> (forall i, mjoin (l !! i) = mjoin (l' !! i)) -> l = l'.
Proof.
  intros El Hl. apply list_eq_same_length with (length l); [done|done|]. intros i x y _ Hx Hy. specialize (Hl i). rewrite Hx, Hy in Hl. exact Hl.
Qed.

Lemma insum_ext n n' : same_frame n n' -> (forall s, in_at n' s = in_at n s) -> insum n' = insum n.
Proof.
  intros [_ _ E1 E2 _ _] Hs. rewrite !insum_eq. replace (txInputs n') with (txInputs n); [|apply slices_eq; [done|]; intros i; symmetry; apply (Hs (IIn i))].
  replace (txInputsExt n') with (txInputsExt n); [|apply slices_eq; [done|]; intros i; symmetry; apply (Hs (IExt i))].
  replace (readonlyInputs n') with (readonlyInputs n); [done|]. apply map_eq. intros t. symmetry. apply (Hs (IRo t)).
Qed.

Lemma count_some_None (l : list (option nat)) : (forall i, mjoin (l !! i) = None) -> count_some l = 0.
Proof.
  intros Hl. unfold count_some. induction l as [|x l IH]; [done|]. pose proof (Hl 0) as H0. cbn in H0. subst x. apply IH. intros i. apply (Hl (S i)).
Qed.

Lemma insum_0 n : (forall s, in_at n s = None) -> insum n = 0.
Proof.
  intros Hs. rewrite insum_eq, !count_some_None; [|intros i; apply (Hs (IExt i))|intros i; apply (Hs (IIn i))].
  assert (readonlyInputs n = ∅) as -> by (apply map_empty; intros t; apply (Hs (IRo t))). done.
Qed.

Definition nat_total (s : gmap nat nat) : nat := map_fold (fun _ k acc => k + acc) 0 s.
Lemma input_total_sums h : input_total h = nat_total (insum <$> h).
Proof.
  unfold input_total, nat_total. by rewrite map_fold_fmap.
Qed.

Lemma nat_total_insert s p k : s !! p = Some k -> nat_total (<[p := 0]> s) + k = nat_total s.
Proof.
  intros E. unfold nat_total. rewrite <- insert_delete_eq, map_fold_insert_L; [|intros; lia|by rewrite lookup_delete_eq].
  rewrite (map_fold_delete_L _ _ p k s); [lia|intros; lia|done].
Qed.

Lemma input_total_cut h h' p n : framed h h' -> h !! p = Some n -> (forall c s, hin h' c s = if decide (c = p) then None else hin h c s) ->
  input_total h' + insum n = input_total h.
Proof.
  intros F Hn Hi. rewrite !input_total_sums, <- (nat_total_insert (insum <$> h) p (insum n)) by (by rewrite lookup_fmap, Hn). do 2 f_equal.
  apply map_eq. intros q. rewrite lookup_fmap. destruct (decide (q = p)) as [->|Hq].
  - rewrite lookup_insert_eq. destruct (framed_lookup_fwd _ _ _ _ F Hn) as (n' & Hn' & _). rewrite Hn'. cbn. f_equal. apply insum_0.
    intros s. specialize (Hi p s). unfold hin in Hi. by rewrite Hn', decide_True in Hi.
  - rewrite lookup_insert_ne, lookup_fmap by done. specialize (Hi q). setoid_rewrite decide_False in Hi; [|done]. unfold hin in Hi.
    destruct (F q) as [x y S|]; [|done]. cbn in *. f_equal. by apply insum_ext.
Qed.

Lemma dedup_length h seen l : length (dedup h seen l) <= length (omap id l).
Proof. revert seen. induction l as [|[p|] l IH]; intros seen; cbn; [done| |apply IH]. case_decide; cbn; [|apply le_n_S]; [|apply IH]. etrans; [apply IH|lia]. Qed.

Lemma omap_id_Some (l : list nat) : omap id (Some <$> l) = l.
Proof. induction l as [|x l IH]; [done|]. cbn. by rewrite IH. Qed.

Lemma map_values_length (m : gmap string nat) : length (map_values m) = size m.
Proof. unfold map_values. rewrite length_fmap, range_order_perm. apply length_map_to_list. Qed.

Lemma getAllParent_length h n : length (getAllParent h n) <= insum n.
Proof.
  unfold getAllParent. etrans; [apply dedup_length|]. rewrite !omap_app, !length_app, omap_id_Some, map_values_length, insum_eq. unfold count_some. lia.
Qed.

Lemma dedup_elem h seen l p : Some p ∈ l -> txid_of h p ∈ seen \/ exists q, q ∈ dedup h seen l /\ txid_of h q = txid_of h p.
Proof.
  revert seen. induction l as [|x l IH]; intros seen; [by intros ?%elem_of_nil|]. intros [<-|Hin]%elem_of_cons; cbn.
  - case_decide; [by left|]. right. exists p. split; [left|done].
  - destruct x as [y|]; [|by apply IH]. case_decide as Hd; [by apply IH|]. destruct (IH ({[txid_of h y]} ∪ seen) Hin) as [Hs|(q & Hq & E)].
    + apply elem_of_union in Hs as [->%elem_of_singleton|Hs]; [|by left]. right. exists y. split; [left|done].
    + right. exists q. split; [by right|done].
Qed.
Lemma dedup_sub h seen l p : p ∈ dedup h seen l -> Some p ∈ l.
Proof.
  revert seen. induction l as [|[y|] l IH]; intros seen; cbn; [by intros ?%elem_of_nil| |intros; right; by eapply IH].
  case_decide; [intros; right; by eapply IH|]. intros [->|Hin]%elem_of_cons; [left|right; by eapply IH].
Qed.

Lemma mjoin_elem (l : list (option nat)) p : Some p ∈ l <-> exists i, mjoin (l !! i) = Some p.
Proof.
  rewrite list_elem_of_lookup. split; intros [i Hi]; exists i; [by rewrite Hi|]. destruct (l !! i) as [[q|]|]; cbn in Hi; congruence.
Qed.

Lemma parents_slots n p : Some p ∈ txInputs n ++ txInputsExt n ++ (Some <$> map_values (readonlyInputs n)) <-> exists s, in_at n s = Some p.
Proof.
  rewrite !elem_of_app, (mjoin_elem (txInputs n)), (mjoin_elem (txInputsExt n)). assert (Some p ∈ (Some <$> map_values (readonlyInputs n)) <-> exists t, readonlyInputs n !! t = Some p) as ->.
  { rewrite <- map_values_elem, list_elem_of_fmap. split; [intros (q & [= ->] & ?); done|eauto]. }
  split; [intros [[i E]|[[i E]|[t E]]]; [by exists (IIn i)|by exists (IExt i)|by exists (IRo t)]|]. intros [[i|i|t] E]; eauto.
Qed.

(** ** Confirming one node *)

Lemma filter_none {A} (Q : A -> Prop) `{!forall x, Decision (Q x)} (l : list A) : (forall x, ~ Q x) -> filter Q l = [].
Proof. intros Hq. induction l as [|x l IH]; [done|]. by rewrite filter_cons_False. Qed.

Lemma checkAndMoveOrphan_none p n m : orphans m = ∅ -> heap m !! p = Some n -> checkAndMoveOrphan fuel p m = (Ret tt, m).
Proof.
  intros Eo Hn. unfold checkAndMoveOrphan. rewrite (mbnd_ret _ _ _ _ _ (load_ok _ _ _ Hn)). unfold processOrphansToUnconfirmed.
  rewrite filter_none; [by destruct fuel|]. intros c. unfold is_orphan. rewrite Eo, lookup_empty, bool_decide_eq_false_2; [auto|by intros []].
Qed.

(** [m'] is [m] with the node [p] moved to the confirmed ones. *)
Record moved (p : nat) (m m' : Mempool) : Prop := {
  mv_linked : linked (heap m');
  mv_frame : framed (heap m) (heap m');
  mv_in : forall c s, hin (heap m') c s = if decide (c = p) then None else hin (heap m) c s;
  mv_conf : confirmed m' = <[txid_of (heap m) p := p]> (confirmed m);
  mv_unconf : unconfirmed m' = delete (txid_of (heap m) p) (unconfirmed m);
  mv_orphans : orphans m' = ∅;
  mv_index : forall k t, bk_at (bucketKeyNodes m') k t =
    if decide (t = txid_of (heap m) p /\ k ∈ tx_bks (node_tx (heap m) p)) then None else bk_at (bucketKeyNodes m) k t;
  mv_rest : next m' = next m /\ emptyTxIDNode m' = emptyTxIDNode m /\ stoneNode m' = stoneNode m
}.

Lemma confirm_node_moved p m : pool_ok m -> is_Some (heap m !! p) -> exists m', confirm_node fuel p m = (Ret tt, m') /\ moved p m m'.
Proof.
  intros W [n Hn]. unfold confirm_node. destruct (breakOutputs_spec p m (w_linked _ _ W)) as (h' & E1 & L1 & F1 & I1); [eauto|].
  rewrite (mbnd_ret _ _ _ _ _ E1). destruct (framed_lookup_fwd _ _ _ _ F1 Hn) as (n' & Hn' & S1).
  rewrite (mbnd_ret _ _ _ _ _ (load_ok p n' (set_heap m h') Hn')). unfold mbnd at 1, on_pool. set (m2 := set_orphans _ _).
  rewrite (mbnd_ret _ _ _ _ _ (checkAndMoveOrphan_none p n' m2 ltac:(cbn; rewrite (w_orphans _ _ W); apply delete_empty) Hn')).
  rewrite (deleteBucketKey_run p n' m2 Hn'). eexists. split; [done|].
  assert (txid_of (heap m) p = n_txid n /\ node_tx (heap m) p = n_tx n) as [Ei Ex] by (unfold txid_of, node_tx; by rewrite Hn).
  split; [exact L1|exact F1|exact I1| | | | |done]; cbn; rewrite ?(sf_txid _ _ S1), ?Ei; try done.
  - rewrite (w_orphans _ _ W). apply delete_empty.
  - intros k t. by rewrite bk_at_del, (sf_tx _ _ S1), Ex.
Qed.

Section Moved.
Context (p : nat) (m m' : Mempool) (W : pool_ok m) (Hp : listed m p) (V : moved p m m').

Lemma moved_conf q : conf m q -> conf m' q.
Proof using All.
  intros Hq. exists (txid_of (heap m) q). rewrite (mv_conf _ _ _ V). destruct (decide (txid_of (heap m) p = txid_of (heap m) q)) as [E|E].
  - rewrite E, lookup_insert_eq. f_equal. eapply (listed_inj _ m); [done|done|by left|done].
  - rewrite lookup_insert_ne by done. by eapply conf_txid.
Qed.
Lemma moved_here : conf m' p.
Proof using V. exists (txid_of (heap m) p). by rewrite (mv_conf _ _ _ V), lookup_insert_eq. Qed.
Lemma unconf_moved t q : unconfirmed m' !! t = Some q <-> unconfirmed m !! t = Some q /\ q <> p.
Proof using All.
  rewrite (mv_unconf _ _ _ V), lookup_delete_Some. split; intros [E1 E2].
  - split; [done|]. intros ->. apply E1. by destruct (unconf_getNode _ _ _ W E2) as [_ <-].
  - split; [|done]. intros <-. apply E2. destruct (unconf_getNode _ _ _ W E1) as [Hq Eq]. by eapply (listed_inj _ m).
Qed.
Lemma moved_listed q : listed m q -> listed m' q.
Proof using All.
  intros [Hq|[t Hq]]; [left; by apply moved_conf|]. destruct (decide (q = p)) as [->|Hne]; [left; apply moved_here|].
  right. exists t. by apply unconf_moved.
Qed.
Lemma moved_edge c s q : hin (heap m') c s = Some q -> c <> p /\ hin (heap m) c s = Some q.
Proof using V. rewrite (mv_in _ _ _ V). by case_decide. Qed.

Lemma moved_ok : pool_ok m'.
Proof using All.
  pose proof (mv_frame _ _ _ V) as F. destruct (mv_rest _ _ _ V) as (En & Ee & Es).
  assert (forall q n, heap m !! q = Some n -> exists n', heap m' !! q = Some n' /\ n_txid n' = n_txid n /\ n_tx n' = n_tx n) as Hf.
  { intros q n Hn. destruct (framed_lookup_fwd _ _ _ _ F Hn) as (n' & Hn' & S'). exists n'. split_and!; [done|apply S'..]. }
  assert (forall t q, confirmed m' !! t = Some q -> confirmed m !! t = Some q \/ (t = txid_of (heap m) p /\ q = p)) as Hc.
  { intros t q. rewrite (mv_conf _ _ _ V). intros [[<- <-]|[_ E]]%lookup_insert_Some; auto. }
  split.
  - apply V.
  - intros q [n (n0 & Hn & _)%(framed_lookup _ _ _ _ F)]. rewrite En. by apply (w_next _ _ W).
  - intros t q Ht. assert (exists n, heap m !! q = Some n /\ n_txid n = t /\ (real_id t -> is_Some (n_tx n))) as (n & Hn & E & Hx).
    { destruct (Hc _ _ Ht) as [E|[-> ->]]; [by apply (w_conf _ _ W)|]. destruct Hp as [Hl|Hl]; [by apply (w_conf _ _ W); eapply conf_txid|].
      destruct (w_unconf _ _ W _ _ (unconf_txid _ _ _ W Hl)) as (n & tx & Hn & Hx & E & _). exists n. split_and!; [done|done|]. rewrite Hx. eauto. }
    destruct (Hf _ _ Hn) as (n' & Hn' & E1 & E2). exists n'. by rewrite E1, E2.
  - intros t q [(n & tx & Hn & H1 & H2 & H3)%(w_unconf _ _ W) _]%unconf_moved. destruct (Hf _ _ Hn) as (n' & Hn' & E1 & E2). exists n', tx. by rewrite E1, E2.
  - intros t q [E|[-> ->]]%Hc; rewrite (mv_unconf _ _ _ V); [|by rewrite lookup_delete_eq]. apply lookup_delete_None. right. by apply (w_disj _ _ W) in E.
  - apply V.
  - intros c s q [Hne E]%moved_edge. destruct (w_child _ _ W _ _ _ E) as [[t Hu]|]; [|done]. left. exists t. by apply unconf_moved.
  - intros c s q [_ E]%moved_edge. apply moved_listed. apply (w_parent _ _ W _ _ _ E).
  - intros c s q [_ E]%moved_edge. destruct (w_order _ _ W _ _ _ E); [left; by apply moved_conf|by right].
  - intros q. rewrite Ee. intros (n & Hn & H1 & H2)%(w_empty _ _ W). destruct (Hf _ _ Hn) as (n' & Hn' & E1 & E2). exists n'. by rewrite E1, E2.
  - intros q. rewrite Es. intros (n & Hn & H1 & H2)%(w_stone _ _ W). destruct (Hf _ _ Hn) as (n' & Hn' & E1 & E2). exists n'. by rewrite E1, E2.
  - intros q. rewrite Ee. intros [E|[E ->]]%Hc; [by apply (w_empty_conf _ _ W)|]. destruct Hp as [Hl|Hl].
    + apply (w_empty_conf _ _ W). rewrite E. by eapply conf_txid.
    + destruct (unconf_real _ _ W Hl) as [Hr _]. congruence.
  - intros q. rewrite Es. intros [E|[E ->]]%Hc; [by apply (w_stone_conf _ _ W)|]. destruct Hp as [Hl|Hl].
    + apply (w_stone_conf _ _ W). rewrite E. by eapply conf_txid.
    + destruct (unconf_real _ _ W Hl) as [_ Hr]. congruence.
  - intros t q tx [Eu Hq]%unconf_moved _. unfold node_tx. rewrite (framed_tx _ _ _ F). intros Hx r Hr.
    destruct (w_refs _ _ W _ _ _ Eu ltac:(done) Hx r Hr) as (s & x & E & Et). exists s, x. by rewrite (mv_in _ _ _ V), decide_False, (framed_txid _ _ _ F).
  - intros t q tx i [Eu Hq]%unconf_moved _. unfold node_tx. rewrite (framed_tx _ _ _ F), (mv_in _ _ _ V), decide_False by done. by apply (w_spends _ _ W _ _ _ _ Eu).
  - intros k t q. rewrite (mv_index _ _ _ V), unconf_moved. replace (node_tx (heap m') q) with (node_tx (heap m) q) by (unfold node_tx; by rewrite (framed_tx _ _ _ F)). case_decide as Hd.
    + destruct Hd as [-> Hk]. split; [done|]. intros ([Eu Hq] & _). exfalso. apply Hq. destruct (unconf_getNode _ _ _ W Eu) as [Hl E]. by eapply (listed_inj _ m).
    + rewrite (w_index _ _ W). split; [|intros ([? ?] & ? & ?); done]. intros (Eu & _ & Hk). split_and!; [done| |done|done].
      intros ->. apply Hd. destruct (unconf_getNode _ _ _ W Eu) as [_ <-]. done.
Qed.

Lemma moved_out q o c : hout (heap m') q o = Some c <-> hout (heap m) q o = Some c /\ c <> p.
Proof using W V.
  pose proof (w_linked _ _ W) as L. pose proof (mv_linked _ _ _ V) as L'. pose proof (mv_frame _ _ _ V) as F. split.
  - intros (s & [Hc E]%moved_edge & Et)%(ln_in _ L'). split; [|done]. rewrite <- Et, (framed_target _ _ _ _ F). by apply (ln_out _ L).
  - intros [(s & E & Et)%(ln_in _ L) Hc]. rewrite <- Et, <- (framed_target _ _ _ _ F). apply (ln_out _ L'). by rewrite (mv_in _ _ _ V), decide_False.
Qed.

(** A path that is cut went through [p]. *)
Lemma desc_moved q c : desc (heap m) q c -> desc (heap m') q c \/ (desc (heap m) q p /\ desc (heap m) p c).
Proof using W V.
  induction 1 as [|x o c Hd [IH|[IH1 IH2]] Hw E]; [left; constructor| |right; split; [done|by eapply desc_step]].
  destruct (decide (c = p)) as [->|Hc]; [right; split; [by eapply desc_step|constructor]|]. left. eapply desc_step; [done|done|]. by apply moved_out.
Qed.
Lemma moved_desc q c : desc (heap m') q c -> desc (heap m) q c.
Proof using W V. apply desc_mono. intros x o y Hx. by apply moved_out in Hx as [? _]. Qed.
End Moved.

(** The parents that are not confirmed, by slots. *)
Definition open_parents (m : Mempool) (n : Node) : list nat := filter (fun v => confirmed m !! txid_of (heap m) v = None) (getAllParent (heap m) n).

Lemma open_parents_elem m p n q : pool_ok m -> heap m !! p = Some n ->
  q ∈ open_parents m n <-> unconf m q /\ exists s, hin (heap m) p s = Some q.
Proof.
  intros W Hn. unfold open_parents, getAllParent. rewrite list_elem_of_filter. split.
  - intros [Hc [s E]%dedup_sub%parents_slots]. assert (hin (heap m) p s = Some q) as Es by (unfold hin; by rewrite Hn). split; [|eauto].
    destruct (w_parent _ _ W _ _ _ Es) as [Hq|]; [|done]. apply (conf_txid _ _ _ W) in Hq. congruence.
  - intros [Hu [s E]]. assert (confirmed m !! txid_of (heap m) q = None) as Hc.
    { destruct (confirmed m !! _) eqn:Ec; [|done]. apply (w_disj _ _ W) in Ec. rewrite (unconf_txid _ _ _ W Hu) in Ec. done. }
    split; [done|]. unfold hin in E. rewrite Hn in E. cbn in E.
    destruct (dedup_elem (heap m) ∅ (txInputs n ++ txInputsExt n ++ (Some <$> map_values (readonlyInputs n))) q) as [?|(x & Hx & Ex)]; [by apply parents_slots; eauto|set_solver|].
    replace q with x; [done|]. apply dedup_sub, parents_slots in Hx as [sx Esx].
    assert (hin (heap m) p sx = Some x) as Hxi by (unfold hin; by rewrite Hn).
    eapply (listed_inj _ m); [done|apply (w_parent _ _ W _ _ _ Hxi)|by right|done].
Qed.

(** One step of the loop: what is still below the queue. *)
Lemma confirm_step_below p n m m' Q q : pool_ok m -> listed m p -> heap m !! p = Some n -> moved p m m' -> unconf m q ->
  (q <> p /\ ~ exists x, x ∈ Q ++ open_parents m n /\ desc (heap m') q x) <-> ~ exists x, x ∈ p :: Q /\ desc (heap m) q x.
Proof.
  intros W Hp Hn V Hu. assert (forall x, desc (heap m) q x -> x = q \/ unconf m x) as Hux by (intros x; apply desc_listed; [done|by right]). split.
  - intros [Hne Hno] (x & Hx & Hd). assert (~ desc (heap m) q p) as Hqp.
    { intros Hdp. inversion Hdp as [|y o c Hdy Hw E]; subst; [done|]. destruct (ln_in _ (w_linked _ _ W) _ _ _ E) as (s & Es & _).
      apply Hno. exists y. split; [apply elem_of_app; right; apply (open_parents_elem m p n y W Hn); split; [destruct (Hux y Hdy) as [->|]; done|eauto]|].
      destruct (desc_moved p m m' W V _ _ Hdy) as [|[_ Hpy]]; [done|]. exfalso.
      apply (desc_ranked _ (pool_rank m)) in Hpy; [|apply W|by apply pool_ranked]. apply (pool_ranked _ W) in Es. lia. }
    apply elem_of_cons in Hx as [->|Hx]; [done|]. destruct (desc_moved p m m' W V _ _ Hd) as [Hd'|[? _]]; [|done].
    apply Hno. exists x. split; [apply elem_of_app; by left|done].
  - intros Hno. split; [intros ->; apply Hno; exists p; split; [left|constructor]|]. intros (x & [Hx|Hx]%elem_of_app & Hd).
    + apply Hno. exists x. split; [by right|]. by eapply moved_desc.
    + apply (open_parents_elem m p n x W Hn) in Hx as [Hxu [s E]]. apply Hno. exists p. split; [left|]. eapply desc_step; [by eapply moved_desc| |apply (ln_out _ (w_linked _ _ W) _ _ _ E)].
      eapply edge_walked; [done|done|]. apply (unconf_real _ _ W Hxu).
Qed.

(** ** The loop *)

Lemma confirm_loop_spec steps : forall Q m, pool_ok m -> (forall q, q ∈ Q -> listed m q) -> length Q + input_total (heap m) <= steps ->
  exists m', confirm_loop fuel steps Q m = (Ret tt, m') /\ pool_ok m' /\ framed (heap m) (heap m') /\
    (forall c s, unconf m' c -> hin (heap m') c s = hin (heap m) c s) /\
    forall t q, unconfirmed m' !! t = Some q <-> unconfirmed m !! t = Some q /\ ~ exists x, x ∈ Q /\ desc (heap m) q x.
Proof.
  induction steps as [|steps IH]; intros Q m W HQ Hs.
  { destruct Q; [|cbn in Hs; lia]. exists m. split_and!; [done..|]. intros t q. split; [|by intros []]. intros E. split; [done|]. intros (x & ?%elem_of_nil & _). done. }
  destruct Q as [|p Q]; cbn [confirm_loop].
  { exists m. split_and!; [done..|]. intros t q. split; [|by intros []]. intros E. split; [done|]. intros (x & ?%elem_of_nil & _). done. }
  assert (listed m p) as Hp by (apply HQ; left). destruct (listed_exists _ _ _ W Hp) as [n Hn]. rewrite (mbnd_ret _ _ _ _ _ (load_ok _ _ _ Hn)). fold (open_parents m n).
  destruct (confirm_node_moved p m W) as (m1 & E1 & V); [eauto|]. rewrite (mbnd_ret _ _ _ _ _ E1).
  destruct (IH (Q ++ open_parents m n) m1) as (m' & E' & W' & F' & I' & U').
  - by eapply moved_ok.
  - intros q [Hq|Hq]%elem_of_app; (eapply moved_listed; [done|done|exact V|]); [apply HQ; by right|]. apply (open_parents_elem m p n q W Hn) in Hq as [Hu _]. by right.
  - pose proof (input_total_cut _ _ _ _ (mv_frame _ _ _ V) Hn (mv_in _ _ _ V)) as Et. pose proof (getAllParent_length (heap m) n) as Hl.
    pose proof (length_filter (fun v => confirmed m !! txid_of (heap m) v = None) (getAllParent (heap m) n)) as Hf.
    rewrite length_app. unfold open_parents. cbn [length] in Hs. lia.
  - exists m'. split_and!; [done|done|etrans; [apply V|done]| |].
    { intros c s [t Hc]. rewrite I' by (by exists t). apply U' in Hc as [[_ Hne]%(unconf_moved p m m1 W Hp V) _]. by rewrite (mv_in _ _ _ V), decide_False. }
    intros t q. rewrite U', (unconf_moved p m m1 W Hp V). split.
    + intros [[E Hne] Hno]. split; [done|]. eapply confirm_step_below; eauto. by exists t.
    + intros [E Hno]. apply (confirm_step_below p n m m1 Q q W Hp Hn V) in Hno as [Hne Hno]; [done|by exists t].
Qed.

(** What is left of the unconfirmed transactions after those that [gone] names. *)
Definition left_after (gone : string -> Prop) (m m' : Mempool) : Prop :=
  pool_ok m' /\ (forall u, gone u -> pool_tx m' u = None) /\ (forall u, ~ gone u -> pool_tx m' u = pool_tx m u) /\ (forall u, lost m' u -> lost m u).

Lemma left_after_same m : pool_ok m -> forall gone, (forall u, gone u -> pool_tx m u = None) -> left_after gone m m.
Proof. by intros W gone Hg. Qed.

Lemma moveToConfirmed_spec m id p : pool_ok m -> unconfirmed m !! id = Some p ->
  exists m', moveToConfirmed fuel p m = (Ret tt, m') /\ left_after (fun u => depends m u id) m m'.
Proof.
  intros W E. destruct (unconf_getNode _ _ _ W E) as [Hl Et]. destruct (confirm_loop_spec (S (input_total (heap m))) [p] m W) as (m' & E' & W' & F & I & U).
  - by intros q ->%list_elem_of_singleton.
  - done.
  - exists m'. split; [done|]. split; [done|].
    assert (forall u q, unconfirmed m !! u = Some q -> depends m u id <-> desc (heap m) q p) as Hdep.
    { intros u q Eq. destruct (unconf_getNode _ _ _ W Eq) as [Hlq Euq]. apply depends_iff; [done| |by apply (getNode_listed None)|done].
      rewrite <- Euq. apply unconf_real; [done|by exists u]. }
    split_and!.
    + intros u Hu. unfold pool_tx. destruct (unconfirmed m' !! u) as [q|] eqn:Eq; [|done]. apply U in Eq as [Eq Hno]. exfalso. apply Hno.
      exists p. split; [by apply list_elem_of_singleton|]. by apply (Hdep u).
    + intros u Hu. unfold pool_tx. destruct (unconfirmed m !! u) as [q|] eqn:Eq.
      * assert (unconfirmed m' !! u = Some q) as ->; [|cbn; unfold node_tx; apply (framed_tx _ _ _ F)].
        apply U. split; [done|]. intros (x & ->%list_elem_of_singleton & Hd). apply Hu. by apply (Hdep u q).
      * destruct (unconfirmed m' !! u) as [q|] eqn:Eq'; [|done]. apply U in Eq' as [Eq' _]. congruence.
    + intros u (q & Eq & Hno). exists q. split; [by apply U in Eq as [? _]|]. intros s. rewrite <- I; [done|by exists u].
Qed.

Lemma depends_unknown m a b : pool_tx m b = None -> depends m a b -> b = a.
Proof. intros E. destruct 1 as [|b c tx _ Hx _]; [done|congruence]. Qed.
Lemma depends_trans m a b c : depends m a b -> depends m b c -> depends m a c.
Proof. intros H1. induction 1; [done|]. by eapply dep_step. Qed.
Lemma left_sub gone m m' u tx : left_after gone m m' -> pool_tx m' u = Some tx -> pool_tx m u = Some tx /\ ~ gone u.
Proof.
  intros (_ & H1 & H2 & _) E. assert (~ gone u) as Hg by (intros Hg; apply H1 in Hg; congruence). split; [|done]. by rewrite <- H2.
Qed.
Lemma left_depends gone m m' a b : left_after gone m m' -> depends m' a b -> depends m a b.
Proof. intros Hl. induction 1 as [|b c tx _ IH Hx Hin]; [constructor|]. apply (left_sub _ _ _ _ _ Hl) in Hx as [Hx _]. by eapply dep_step. Qed.
(** A dependency is lost only when something on the way has gone. *)
Lemma depends_left gone m m' a b : left_after gone m m' -> (forall c, depends m a c -> ~ gone c) -> depends m a b -> depends m' a b.
Proof.
  intros (W & H1 & H2 & _) Hg. induction 1 as [|b c tx Hd IH Hx Hin]; [constructor|]. eapply dep_step; [done| |exact Hin].
  rewrite H2; [done|]. apply Hg. by eapply dep_step.
Qed.

Lemma confirm_id_spec m id : pool_ok m -> exists m', confirm_id fuel id m = (Ret tt, m') /\ left_after (fun u => depends m u id) m m'.
Proof.
  intros W. unfold confirm_id. rewrite (w_orphans _ _ W), lookup_empty. destruct (unconfirmed m !! id) as [p|] eqn:Eu.
  - destruct (confirmed m !! id) eqn:Ec; [apply (w_disj _ _ W) in Ec; congruence|]. by apply moveToConfirmed_spec.
  - assert (pool_tx m id = None) as Ep by (unfold pool_tx; by rewrite Eu). exists m. split; [by destruct (confirmed m !! id)|].
    apply left_after_same; [done|]. intros u Hu. by rewrite <- (depends_unknown _ _ _ Ep Hu).
Qed.

Lemma confirm_ids_spec ids : forall m, pool_ok m ->
  exists m', each (confirm_id fuel) ids m = (Ret tt, m') /\ left_after (fun u => exists id, id ∈ ids /\ depends m u id) m m'.
Proof.
  induction ids as [|id ids IH]; intros m W; cbn [each].
  { exists m. split; [done|]. apply left_after_same; [done|]. by intros u (id & ?%elem_of_nil & _). }
  destruct (confirm_id_spec m id W) as (m1 & E1 & L1). rewrite (mbnd_ret _ _ _ _ _ E1). destruct (IH m1 (proj1 L1)) as (m' & E' & L'). exists m'. split; [done|].
  split; [apply L'|]. split_and!.
  - intros u (id' & Hin & Hd). destruct (pool_tx m' u) as [tx|] eqn:Eu; [|done]. exfalso.
    apply (left_sub _ _ _ _ _ L') in Eu as [Eu Hg']. apply (left_sub _ _ _ _ _ L1) in Eu as [_ Hg1].
    apply elem_of_cons in Hin as [->|Hin]; [done|]. apply Hg'. exists id'. split; [done|]. eapply depends_left; [exact L1| |done].
    intros c Hc Hcd. apply Hg1. by eapply depends_trans.
  - intros u Hu. destruct L' as (_ & _ & H2 & _). pose proof L1 as (W1 & A1 & A2 & _). rewrite H2; [apply A2|].
    + intros Hd. apply Hu. exists id. split; [left|done].
    + intros (id' & Hin & Hd). apply Hu. exists id'. split; [by right|]. by eapply left_depends.
  - intros u Hu. apply L1. by apply L'.
Qed.

(** ** The confirmed ones nothing hangs from *)

Lemma childless h p n : h !! p = Some n -> has_child n = false -> forall o, hout h p o = None.
Proof.
  intros Hn. unfold has_child. rewrite negb_false_iff, !andb_true_iff, !bool_decide_eq_true. intros [[[H1 H2] H3] H4] o.
  assert (forall l : list (option nat), omap id l = [] -> forall i, mjoin (l !! i) = None) as Hl.
  { intros l E i. destruct (l !! i) as [[x|]|] eqn:Ei; [|done..]. exfalso. assert (x ∈ omap id l) as Hx; [|rewrite E in Hx; by apply elem_of_nil in Hx].
    apply list_elem_of_omap. exists (Some x). split; [by eapply list_elem_of_lookup_2|done]. }
  unfold hout. rewrite Hn. destruct o; cbn; [by apply Hl|by apply Hl|by rewrite H2|by rewrite H1].
Qed.

Lemma clean_conf m q : pool_ok m -> conf m q -> (exists o c, hout (heap m) q o = Some c) -> conf (cleanConfirmedTxs m) q.
Proof.
  intros W Hq (o & c & E). pose proof (conf_txid _ _ _ W Hq) as Eq. exists (txid_of (heap m) q). cbn. apply map_lookup_filter_Some. split; [done|].
  unfold stays_confirmed. destruct (listed_exists None m q W) as [n Hn]; [by left|]. destruct (has_child n) eqn:Eh; [cbn; rewrite Hn; cbn; rewrite Eh; by rewrite orb_true_r|].
  rewrite (childless _ _ _ Hn Eh) in E. done.
Qed.

Lemma cleanConfirmedTxs_ok m : pool_ok m -> pool_ok (cleanConfirmedTxs m).
Proof.
  intros W. assert (forall t q, confirmed (cleanConfirmedTxs m) !! t = Some q -> confirmed m !! t = Some q) as Hc.
  { intros t q. cbn. intros [? _]%map_lookup_filter_Some. done. }
  assert (forall c s p, hin (heap m) c s = Some p -> conf m p -> conf (cleanConfirmedTxs m) p) as Hp.
  { intros c s p E Hq. apply clean_conf; [done|done|]. eexists _, c. by apply (ln_out _ (w_linked _ _ W) _ _ _ E). }
  split; try apply W.
  - intros t p Ec%Hc. by apply (w_conf _ _ W).
  - intros t p Ec%Hc. by apply (w_disj _ _ W) in Ec.
  - intros c s p E. destruct (w_parent _ _ W _ _ _ E); [left; by eapply Hp|by right].
  - intros c s p E. destruct (w_order _ _ W _ _ _ E); [left; by eapply Hp|by right].
  - intros p Ec%Hc. by apply (w_empty_conf _ _ W).
  - intros p Ec%Hc. by apply (w_stone_conf _ _ W).
Qed.

(** A transaction of [ids] is [u] or refers to it, directly or through others. *)
Definition needed (m : Mempool) (ids : list string) (u : string) : Prop := exists id, id ∈ ids /\ depends m u id.

(** Confirming transactions removes them and what they depend on, and only
    that.  From a pool in order, [BatchConfirmTxID] ends without a panic, for any
    ids in any order; the unconfirmed transactions that leave the pool are
    exactly the named ones and those that a named one refers to, directly or
    through others; the pool is in order again and no transaction lost its place. *)
Theorem BatchConfirmTxID_spec m ids : pool_ok m ->
  exists m', BatchConfirmTxID fuel ids m = (Ret tt, m') /\ pool_ok m' /\
    (forall u, needed m ids u -> pool_tx m' u = None) /\ (forall u, ~ needed m ids u -> pool_tx m' u = pool_tx m u) /\
    (forall u, lost m' u -> lost m u).
Proof.
  intros W. destruct (confirm_ids_spec ids m W) as (m1 & E & W1 & H1 & H2 & H3). exists (cleanConfirmedTxs m1).
  unfold BatchConfirmTxID. rewrite (mbnd_ret _ _ _ _ _ E). split_and!; [done|by apply cleanConfirmedTxs_ok|exact H1|exact H2|exact H3].
Qed.
End Confirm.
