(* ===== verification/MempoolFind.v ===== *)
(** * The memory pool: the transactions in the way of another

    [FindConflictByTx] collects what a transaction of a block invalidates: the
    unconfirmed transactions that spend one of its outputs or overwrite the same
    version of a key, with all that depend on them.  The walk changes nothing,
    so the heap is fixed; [postorder] says what a walk that has seen [R] may
    list. *)

From Stdlib Require Import ZArith Lia.
From stdpp Require Import base gmap strings list numbers sorting.
From S2P Require Import Prelude GoValues Sandbox LedgerHash XModel Mempool MempoolGraph MempoolSpec.

Set Default Proof Using "Type".

(** ** Walks *)

(** New nodes, each after its children. *)
Inductive postorder (h : Heap) : gset nat -> list nat -> Prop :=
| po_nil R : postorder h R []
| po_cons R q ds : q ∉ R -> (forall o c, walked o = true -> hout h q o = Some c -> c ∈ R) -> postorder h ({[q]} ∪ R) ds -> postorder h R (q :: ds).

Lemma postorder_app h R ds1 ds2 : postorder h R ds1 -> postorder h (R ∪ list_to_set ds1) ds2 -> postorder h R (ds1 ++ ds2).
Proof.
  induction 1 as [R|R q ds Hq Hc _ IH]; cbn; [by rewrite (right_id_L ∅ (∪))|]. intros Hp. constructor; [done..|]. apply IH.
  by replace ({[q]} ∪ R ∪ list_to_set ds) with (R ∪ ({[q]} ∪ list_to_set ds)) by set_solver.
Qed.
Lemma postorder_fresh h R ds : postorder h R ds -> NoDup ds /\ forall q, q ∈ ds -> q ∉ R.
Proof.
  induction 1 as [R|R q ds Hq Hc _ [IH1 IH2]]; [split; [constructor|by intros q ?%elem_of_nil]|]. split.
  - apply NoDup_cons. split; [|done]. intros Hin. apply (IH2 _ Hin). set_solver.
  - intros x [->|Hx]%elem_of_cons; [done|]. apply IH2 in Hx. set_solver.
Qed.
Lemma postorder_children h R ds : postorder h R ds -> forall l1 q l2 o c, ds = l1 ++ q :: l2 -> walked o = true -> hout h q o = Some c -> c ∈ R \/ c ∈ l1.
Proof.
  induction 1 as [R|R q' ds Hq Hc _ IH]; intros l1 q l2 o c E Hw Ho; [by destruct l1|]. destruct l1 as [|x l1]; injection E as -> ->.
  - left. by eapply Hc.
  - destruct (IH l1 q l2 o c eq_refl Hw Ho) as [Hin|]; [|right; by right]. apply elem_of_union in Hin as [->%elem_of_singleton|]; [right; left|by left].
Qed.
Lemma postorder_desc h ds p q : postorder h ∅ ds -> p ∈ ds -> desc h p q -> q ∈ ds.
Proof.
  intros Hp Hin. induction 1 as [|q o c _ IH Hw Ho]; [done|]. apply list_elem_of_split in IH as (l1 & l2 & ->).
  destruct (postorder_children _ _ _ Hp _ _ _ _ _ eq_refl Hw Ho); set_solver.
Qed.

(** [ds] is what a search from [roots] adds to [R]. *)
Record searched (h : Heap) (R : gset nat) (roots : nat -> Prop) (ds : list nat) : Prop := {
  se_order : postorder h R ds;
  se_desc : forall q, q ∈ ds -> exists r, roots r /\ desc h r q;
  se_roots : forall r, roots r -> r ∈ R ∪ list_to_set ds
}.

Lemma searched_nil h R roots : (forall r, roots r -> r ∈ R) -> searched h R roots [].
Proof. intros Hr. split; [constructor|by intros q ?%elem_of_nil|]. set_solver. Qed.
Lemma searched_app h R P1 P2 (P : nat -> Prop) ds1 ds2 : (forall r, P r <-> P1 r \/ P2 r) ->
  searched h R P1 ds1 -> searched h (R ∪ list_to_set ds1) P2 ds2 -> searched h R P (ds1 ++ ds2).
Proof.
  intros HP [A1 B1 C1] [A2 B2 C2]. split.
  - by apply postorder_app.
  - intros q [Hq|Hq]%elem_of_app; [destruct (B1 q Hq) as (r & ? & ?)|destruct (B2 q Hq) as (r & ? & ?)]; exists r; (split; [apply HP|]; auto).
  - intros r [Hr|Hr]%HP; [apply C1 in Hr|apply C2 in Hr]; rewrite list_to_set_app_L; set_solver.
Qed.
Lemma searched_both h R P1 P2 ds1 ds2 : searched h R P1 ds1 -> searched h (R ∪ list_to_set ds1) P2 ds2 -> searched h R (fun r => P1 r \/ P2 r) (ds1 ++ ds2).
Proof. by apply searched_app. Qed.
Lemma searched_ext h R (P P' : nat -> Prop) ds : (forall r, P r <-> P' r) -> searched h R P ds -> searched h R P' ds.
Proof.
  intros HP [A B C]. split; [done| |].
  - intros q Hq. destruct (B q Hq) as (r & Hr & Hd). exists r. split; [by apply HP|done].
  - intros r Hr. by apply C, HP.
Qed.
Lemma searched_elem h roots ds q : searched h ∅ roots ds -> q ∈ ds <-> exists r, roots r /\ desc h r q.
Proof.
  intros [A B C]. split; [apply B|]. intros (r & Hr & Hd). eapply postorder_desc; [done| |done]. apply C in Hr. set_solver.
Qed.

(** The state of a search. *)
Definition extends (m : Mempool) (ds : list nat) (acc : found) : found := (acc.1 ∪ list_to_set ds, acc.2 ++ (node_tx (heap m) <$> ds)).
Lemma extends_nil m acc : extends m [] acc = acc.
Proof. destruct acc. unfold extends. cbn. by rewrite (right_id_L ∅ (∪)), app_nil_r. Qed.
Lemma extends_app m ds1 ds2 acc : extends m ds2 (extends m ds1 acc) = extends m (ds1 ++ ds2) acc.
Proof. unfold extends. cbn. by rewrite list_to_set_app_L, (assoc_L (∪)), fmap_app, app_assoc. Qed.

(** [c] goes on with the search from [roots]. *)
Definition searches (m : Mempool) (roots : nat -> Prop) (c : found -> M Mempool found) : Prop :=
  forall acc, exists ds, c acc m = (Ret (extends m ds acc), m) /\ searched (heap m) acc.1 roots ds.

Lemma searches_nothing m (roots : nat -> Prop) : (forall r, ~ roots r) -> searches m roots mpure.
Proof. intros Hr acc. exists []. rewrite extends_nil. split; [done|]. apply searched_nil. intros r H. by apply Hr in H. Qed.

(** A loop searches from all its roots. *)
Lemma searches_each {A} m (roots : A -> nat -> Prop) (f : A -> found -> M Mempool found) l :
  (forall x, x ∈ l -> searches m (roots x) (f x)) -> searches m (fun r => exists x, x ∈ l /\ roots x r) (each_acc f l).
Proof.
  induction l as [|x l IH]; intros Hf acc; cbn [each_acc].
  { apply searches_nothing. by intros r (? & ?%elem_of_nil & _). }
  destruct (Hf x (list_elem_of_here _ _) acc) as (ds1 & E1 & S1). rewrite (mbnd_ret _ _ _ _ _ E1).
  destruct (IH (fun y Hy => Hf y (list_elem_of_further _ _ _ Hy)) (extends m ds1 acc)) as (ds2 & E2 & S2). exists (ds1 ++ ds2). rewrite E2, extends_app. split; [done|].
  eapply searched_app; [|exact S1|exact S2]. intros r. setoid_rewrite elem_of_cons. naive_solver.
Qed.
Lemma searches_bnd m P1 P2 (c1 c2 : found -> M Mempool found) : searches m P1 c1 -> searches m P2 c2 ->
  searches m (fun r => P1 r \/ P2 r) (fun acc => mbnd (c1 acc) c2).
Proof.
  intros H1 H2 acc. destruct (H1 acc) as (ds1 & E1 & S1). rewrite (mbnd_ret _ _ _ _ _ E1). destruct (H2 (extends m ds1 acc)) as (ds2 & E2 & S2).
  exists (ds1 ++ ds2). rewrite E2, extends_app. split; [done|]. by apply searched_both.
Qed.

Section Find.
Context `{O : MapOrder}.

Definition skip (p : nat) : M Mempool unit := mpure tt.

(** The node itself, after its children. *)
Lemma searched_node m node R ds : node ∉ R -> node ∉ ds -> searched (heap m) R (below node (heap m)) ds -> searched (heap m) R (eq node) (ds ++ [node]).
Proof.
  intros HR Hd [A B C]. split.
  - apply postorder_app; [done|]. constructor; [set_solver| |constructor]. intros o c Hw Ho. apply C. by exists o.
  - intros q [Hq| ->%list_elem_of_singleton]%elem_of_app; [|exists node; split; [done|constructor]].
    destruct (B q Hq) as (r & (o & Hw & Ho) & Hdq). exists node. split; [done|]. eapply desc_trans; [|done]. eapply desc_step; [constructor|done..].
  - intros r <-. rewrite list_to_set_app_L. set_solver.
Qed.

Section Walk.
Context (m : Mempool) (rk : nat -> nat) (L : linked (heap m)) (Hr : ranked rk (heap m)).

Lemma dfs_slots_find depth node nd slots : heap m !! node = Some nd -> Forall (fun o => walked o = true) slots -> above rk (heap m) node < S depth ->
  (forall v, is_Some (heap m !! v) -> above rk (heap m) v < depth -> searches m (eq v) (dfs depth skip v)) ->
  forall acc, node ∉ acc.1 -> exists ds, each_acc (fun o => dfs_slot (dfs depth skip) node (fun nd => out_at nd o)) slots acc m = (Ret (extends m ds acc), m) /\
    searched (heap m) acc.1 (fun r => exists o, o ∈ slots /\ hout (heap m) node o = Some r) ds /\ node ∉ ds.
Proof using L Hr.
  intros Hn Hw Ha IH. induction Hw as [|o slots Ho Hw IHs]; intros acc HR; cbn [each_acc].
  { exists []. rewrite extends_nil. split_and!; [done| |apply not_elem_of_nil]. apply searched_nil. by intros r (? & ?%elem_of_nil & _). }
  assert (hout (heap m) node o = out_at nd o) as Eo by (unfold hout; by rewrite Hn). unfold dfs_slot at 1. unfold mbnd at 1. rewrite (mbnd_ret _ _ _ _ _ (load_ok _ _ _ Hn)).
  destruct (out_at nd o) as [v|] eqn:Ev.
  - rewrite decide_False by done. pose proof (above_child rk _ _ _ _ L Hr Eo) as Hav. pose proof Eo as (sv & Esv & _)%(ln_in _ L).
    destruct (IH v) with acc as (ds1 & E1 & S1); [by eapply child_exists|lia|]. rewrite E1.
    assert (node ∉ ds1) as Hnd.
    { intros Hin. destruct (se_desc _ _ _ _ S1 node Hin) as (? & <- & Hd). apply (desc_ranked _ rk) in Hd; [|done..]. apply Hr in Esv. lia. }
    destruct (IHs (extends m ds1 acc)) as (ds2 & E2 & S2 & Hn2); [cbn; set_solver|]. exists (ds1 ++ ds2). rewrite E2, extends_app. split_and!; [done| |set_solver].
    eapply searched_app; [|exact S1|exact S2]. intros r. setoid_rewrite elem_of_cons. naive_solver.
  - destruct (IHs acc HR) as (ds2 & E2 & S2 & Hn2). exists ds2. split_and!; [exact E2| |done]. eapply searched_ext, S2. intros r. setoid_rewrite elem_of_cons. naive_solver.
Qed.

Lemma dfs_find depth : forall node, is_Some (heap m !! node) -> above rk (heap m) node < depth -> searches m (eq node) (dfs depth skip node).
Proof using L Hr.
  induction depth as [|depth IH]; intros node [nd Hn] Ha acc; [lia|]. cbn [dfs]. destruct (decide (node ∈ acc.1)) as [Hin|HR].
  { exists []. rewrite extends_nil. split; [done|]. apply searched_nil. by intros r <-. }
  rewrite (mbnd_ret _ _ _ _ _ (load_ok _ _ _ Hn)).
  destruct (dfs_slots_find depth node nd (OOut <$> seq 0 (length (txOutputs nd))) Hn (Forall_slots OOut _ (fun _ => eq_refl)) Ha IH acc HR) as (ds1 & E1 & S1 & N1).
  rewrite <- (each_acc_fmap OOut) in E1. rewrite (mbnd_ret _ _ _ _ _ E1). clear E1.
  destruct (dfs_slots_find depth node nd (OExt <$> seq 0 (length (txOutputsExt nd))) Hn (Forall_slots OExt _ (fun _ => eq_refl)) Ha IH (extends m ds1 acc)) as (ds2 & E2 & S2 & N2);
    [cbn; set_solver|]. rewrite <- (each_acc_fmap OExt) in E2. rewrite (mbnd_ret _ _ _ _ _ E2), (mbnd_ret _ _ _ _ _ (load_ok _ _ _ Hn)). clear E2. rewrite extends_app.
  destruct (dfs_slots_find depth node nd (ORo <$> map_keys (readonlyOutputs nd)) Hn (Forall_slots ORo _ (fun _ => eq_refl)) Ha IH (extends m (ds1 ++ ds2) acc)) as (ds3 & E3 & S3 & N3);
    [cbn; set_solver|]. rewrite <- (each_acc_fmap ORo) in E3. rewrite (mbnd_ret _ _ _ _ _ E3). clear E3. rewrite extends_app, <- app_assoc. unfold skip, mbnd, mpure.
  exists ((ds1 ++ ds2 ++ ds3) ++ [node]). split.
  - rewrite <- (extends_app m (ds1 ++ ds2 ++ ds3)). generalize (extends m (ds1 ++ ds2 ++ ds3) acc). intros a. unfold extends.
    replace (node_tx (heap m) <$> [node]) with [n_tx nd] by (assert (node_tx (heap m) node = n_tx nd) as <- by (unfold node_tx; by rewrite Hn); done).
    by replace ({[node]} ∪ a.1) with (a.1 ∪ list_to_set [node]) by set_solver.
  - apply searched_node; [done|set_solver|]. eapply searched_app; [|exact S1|eapply searched_both; [exact S2|]].
    2: { unfold extends in S3. cbn [fst] in S3. rewrite list_to_set_app_L, (assoc_L (∪)) in S3. exact S3. }
    intros r. cbn. split.
    + intros (o & Hw & Ho). pose proof Ho as Hs. unfold hout in Hs. rewrite Hn in Hs. cbn in Hs. apply walked_slots in Hs; [|done]. rewrite !elem_of_app in Hs. naive_solver.
    + intros [(o & (? & -> & _)%list_elem_of_fmap & Ho)|[(o & (? & -> & _)%list_elem_of_fmap & Ho)|(o & (? & -> & _)%list_elem_of_fmap & Ho)]]; eexists; by split; [|exact Ho].
Qed.
End Walk.

Lemma run_dfs_find m node : pool_ok m -> is_Some (heap m !! node) -> 
  forall R, exists ds, run_dfs skip node R m = (Ret (extends m ds (R, [])), m) /\ searched (heap m) R (eq node) ds.
Proof.
  intros W Hn R. destruct (dfs_find m (pool_rank m) (w_linked _ _ W) (pool_ranked _ W) (S (size (heap m))) node Hn (above_bound _ _ _) (R, [])) as (ds & E & S).
  exists ds. split; [exact E|exact S].
Qed.

(** ** Where the search starts *)

(** The unconfirmed node [r] has a transaction with [P]. *)
Definition node_with (m : Mempool) (P : Transaction -> Prop) (r : nat) : Prop :=
  exists t x, unconfirmed m !! t = Some r /\ node_tx (heap m) r = Some x /\ P x.

Definition spends (ref : string) (offset : Z) (u : Transaction) : Prop := exists j, j ∈ TxInputs u /\ ti_RefTxid j = ref /\ ti_RefOffset j = offset.

Lemma spender_node m ref offset r : pool_ok m -> (0 <= offset)%Z ->
  (exists p, getNode ref m = Some p /\ hout (heap m) p (OOut (Z.to_nat offset)) = Some r) <-> node_with m (spends ref offset) r.
Proof.
  intros W Hoff. pose proof (w_linked _ _ W) as L. split.
  - intros (p & [Hl Et]%(getNode_listed None _ _ _ W) & (s & Es & Eo)%(ln_in _ L)). destruct (w_child _ _ W _ _ _ Es) as [[t Eu]|]; [|done].
    destruct (w_unconf _ _ W _ _ Eu) as (n & x & Hn & Hx & _). exists t, x. split_and!; [done|unfold node_tx; by rewrite Hn|].
    pose proof (ln_input _ L _ _ _ _ Hn Es) as Hi. unfold htarget in Eo. rewrite Hn in Eo. destruct s as [i|i|u]; cbn in Eo, Hi; [|by repeat case_match|done].
    rewrite Hx in Eo, Hi. cbn in Eo, Hi. destruct Hi as (inp & Hi & H0 & Er). rewrite Hi in Eo. cbn in Eo. injection Eo as Eo.
    exists inp. split_and!; [by eapply list_elem_of_lookup_2|congruence|lia].
  - intros (t & x & Eu & Hx & j & (i & Hi)%list_elem_of_lookup & Er & Eo).
    destruct (w_spends _ _ W _ _ _ i Eu ltac:(done) Hx) as [q Eq]; [by eapply lookup_lt_Some|].
    destruct (w_unconf _ _ W _ _ Eu) as (n & x' & Hn & Hx' & _). assert (x' = x) as -> by (unfold node_tx in Hx; rewrite Hn in Hx; cbn in Hx; congruence).
    pose proof (ln_input _ L _ _ _ _ Hn Eq) as Hin. cbn in Hin. rewrite Hx' in Hin. cbn in Hin. destruct Hin as (inp & Hin & _ & Et). replace inp with j in * by congruence.
    exists q. split; [apply (getNode_listed None _ _ _ W); split; [by apply (w_parent _ _ W _ _ _ Eq)|congruence]|].
    pose proof (ln_out _ L _ _ _ Eq) as Ho. unfold htarget in Ho. rewrite Hn in Ho. cbn in Ho. rewrite Hx' in Ho. cbn in Ho. rewrite Hi in Ho. cbn in Ho. by rewrite Eo in Ho.
Qed.

Lemma run_dfs_searches m node roots : pool_ok m -> is_Some (heap m !! node) -> (forall r, roots r <-> node = r) ->
  searches m roots (fun acc => let! r := run_dfs skip node acc.1 in mpure (r.1, acc.2 ++ r.2)).
Proof.
  intros W Hn Hr acc. destruct (run_dfs_find m node W Hn acc.1) as (ds & E & S). rewrite (mbnd_ret _ _ _ _ _ E). exists ds. split; [done|].
  eapply searched_ext, S. intros r. by rewrite Hr.
Qed.

Lemma findByUtxo_searches m ref offset : pool_ok m -> (0 <= offset)%Z ->
  searches m (node_with m (spends ref offset)) (fun acc => let! r := findByUtxo ref offset acc.1 in mpure (r.1, acc.2 ++ r.2)).
Proof.
  intros W Hoff acc. unfold mbnd at 1. unfold findByUtxo.
  assert ((forall r, ~ node_with m (spends ref offset) r) -> exists ds, (Ret (acc.1, acc.2 ++ []), m) = (Ret (extends m ds acc), m) /\ searched (heap m) acc.1 (node_with m (spends ref offset)) ds) as Hnone.
  { intros Hno. destruct (searches_nothing m _ Hno acc) as (ds & E & S). exists ds. rewrite app_nil_r. destruct acc. by split. }
  destruct (getNode ref m) as [p|] eqn:Eg; [|apply Hnone; intros r (p & ? & _)%spender_node; congruence].
  destruct (proj1 (getNode_listed None m ref p W) Eg) as [Hl _]. destruct (listed_exists _ _ _ W Hl) as [nd Hn]. rewrite (mbnd_ret _ _ _ _ _ (load_ok _ _ _ Hn)).
  assert (hout (heap m) p (OOut (Z.to_nat offset)) = mjoin (txOutputs nd !! Z.to_nat offset)) as Eo by (unfold hout; by rewrite Hn).
  assert (mjoin (txOutputs nd !! Z.to_nat offset) = None -> forall r, ~ node_with m (spends ref offset) r) as Hfree.
  { intros Ef r (q & Eq & Ho)%spender_node; [|done|done]. congruence. }
  destruct (Z.leb_spec (Z.of_nat (length (txOutputs nd))) offset) as [Hlen|Hlen].
  { cbn. apply Hnone, Hfree. by rewrite lookup_ge_None_2 by lia. }
  destruct (Z.ltb_spec offset 0) as [|_]; [lia|]. destruct (mjoin (txOutputs nd !! Z.to_nat offset)) as [c|] eqn:Ec; [|by apply Hnone, Hfree].
  destruct (ln_in _ (w_linked _ _ W) _ _ _ Eo) as (s & Es & _). refine (run_dfs_searches m c _ W _ _ acc); [by eapply child_exists|]. intros r. rewrite <- spender_node by done. split; [intros (q & Eq & Ho); congruence|].
  intros <-. eauto.
Qed.

(** [u] overwrites a version in [used]. *)
Definition overwrites (used : gmap string string) (u : Transaction) : Prop := exists j, j ∈ TxInputsExt u /\ conflicting used u j = true.

Lemma findKeyConflictTxs_searches m node used : pool_ok m -> unconf m node ->
  searches m (fun r => node = r /\ exists x, node_tx (heap m) node = Some x /\ overwrites used x) (findKeyConflictTxs node used).
Proof.
  intros W [t Eu] acc. destruct (w_unconf _ _ W _ _ Eu) as (nd & x & Hn & Hx & _). unfold findKeyConflictTxs. rewrite (mbnd_ret _ _ _ _ _ (load_ok _ _ _ Hn)), Hx.
  destruct (searches_each m (fun j r => node = r /\ conflicting used x j = true)
    (fun i acc => if conflicting used x i && negb (bool_decide (node ∈ acc.1)) then let! r := run_dfs skip node acc.1 in mpure (r.1, acc.2 ++ r.2) else mpure acc) (TxInputsExt x)) with acc as (ds & E & S).
  - intros j Hj a. destruct (conflicting used x j); cbn [andb]; [|by apply searches_nothing; intros r []]. case_bool_decide as Hin; cbn [negb].
    + exists []. rewrite extends_nil. split; [done|]. apply searched_nil. by intros r [<- _].
    + apply (run_dfs_searches m node); [done|eauto|naive_solver].
  - exists ds. split; [exact E|]. eapply searched_ext, S. intros r. unfold node_tx. rewrite Hn. cbn. rewrite Hx. unfold overwrites. naive_solver.
Qed.

Lemma find_keys_searches m used : pool_ok m -> searches m (node_with m (overwrites used)) (find_keys used).
Proof.
  intros W acc. unfold find_keys.
  destruct (searches_each m (fun k r => exists t, bk_at (bucketKeyNodes m) k t = Some r /\ exists x, node_tx (heap m) r = Some x /\ overwrites used x)
    (fun k acc m => match bucketKeyNodes m !! k with None => (Ret acc, m) | Some nodes => each_acc (fun n => findKeyConflictTxs n used) (map_values nodes) acc m end)
    (map_keys used)) with acc as (ds & E & S).
  - intros k _ a. unfold bk_at. destruct (bucketKeyNodes m !! k) as [nodes|] eqn:Ek; cbn; [|by apply searches_nothing; intros r (? & ? & _)].
    destruct (searches_each m (fun n r => n = r /\ exists x, node_tx (heap m) n = Some x /\ overwrites used x) (fun n => findKeyConflictTxs n used) (map_values nodes)) with a as (ds & E & S).
    + intros n [t Et]%map_values_elem. apply findKeyConflictTxs_searches; [done|]. exists t.
      assert (bk_at (bucketKeyNodes m) k t = Some n) as [? _]%(w_index _ _ W); [|done]. unfold bk_at. by rewrite Ek.
    + exists ds. split; [exact E|]. eapply searched_ext, S. intros r. setoid_rewrite map_values_elem. naive_solver.
  - exists ds. split; [exact E|]. eapply searched_ext, S. intros r. setoid_rewrite map_keys_elem. unfold node_with. split.
    + intros (k & _ & t & (Eu & _ & _)%(w_index _ _ W) & x & Hx & Ho). eauto.
    + intros (t & x & Eu & Hx & j & Hj & Hc). exists (input_bk j). pose proof Hc as [H1 H2]%andb_true_iff. apply bool_decide_eq_true in H1, H2.
      split; [eauto|]. exists t. split; [|by exists x; split; [|exists j]]. apply (w_index _ _ W). split_and!; [done|done|]. rewrite Hx.
      apply elem_of_app. left. by apply list_elem_of_fmap_2.
Qed.

(** ** The conflicts of a transaction *)

(** They spend the same output, or overwrite the same version of a key. *)
Definition conflicts (tx u : Transaction) : Prop :=
  (exists i j, i ∈ TxInputs tx /\ j ∈ TxInputs u /\ ti_RefTxid i = ti_RefTxid j /\ ti_RefOffset i = ti_RefOffset j) \/
  (exists i j, i ∈ TxInputsExt tx /\ j ∈ TxInputsExt u /\ input_bk i = input_bk j /\ makeVersion i = makeVersion j /\
     input_bk i ∈ output_bk <$> TxOutputsExt tx /\ input_bk i ∈ output_bk <$> TxOutputsExt u).

Lemma used_foldl (keys : list string) l (kv : gmap string string) k v : NoDup (input_bk <$> l) -> (forall i, i ∈ l -> kv !! input_bk i = None) ->
  foldl (fun kv i => if decide (input_bk i ∈ keys) then <[input_bk i := makeVersion i]> kv else kv) kv l !! k = Some v <->
  kv !! k = Some v \/ exists i, i ∈ l /\ input_bk i = k /\ makeVersion i = v /\ k ∈ keys.
Proof.
  revert kv. induction l as [|i l IH]; intros kv Nd Hf; cbn [foldl]; [setoid_rewrite elem_of_nil; naive_solver|]. cbn in Nd. apply NoDup_cons in Nd as [Hni Nd].
  rewrite IH; [|done|].
  - setoid_rewrite elem_of_cons. case_decide as Hd; [|naive_solver]. rewrite lookup_insert_Some. specialize (Hf i (list_elem_of_here _ _)). split.
    + intros [[[<- <-]|[_ ?]]|(j & Hj & ?)]; [right; exists i; auto|by left|right; exists j; naive_solver].
    + intros [E|(j & [->|Hj] & <- & <- & Hk)]; [left; right; split; [congruence|done]|by left; left|right; eauto].
  - intros j Hj. case_decide; [|apply Hf; by right]. rewrite lookup_insert_ne; [apply Hf; by right|]. intros E. apply Hni. rewrite E. by apply list_elem_of_fmap_2.
Qed.

Lemma conflicts_roots m tx r : NoDup (input_bk <$> TxInputsExt tx) ->
  (exists i, i ∈ TxInputs tx /\ node_with m (spends (ti_RefTxid i) (ti_RefOffset i)) r) \/ node_with m (overwrites (getTxUsedKeyVersion tx)) r <-> node_with m (conflicts tx) r.
Proof.
  intros Nd. assert (forall k v, getTxUsedKeyVersion tx !! k = Some v <-> exists i, i ∈ TxInputsExt tx /\ input_bk i = k /\ makeVersion i = v /\ k ∈ output_bk <$> TxOutputsExt tx) as Hu.
  { intros k v. unfold getTxUsedKeyVersion. rewrite used_foldl by (done || intros; apply lookup_empty). rewrite lookup_empty. naive_solver. }
  unfold node_with, spends, overwrites, conflicting, conflicts. split.
  - intros [(i & Hi & t & x & Eu & Hx & j & Hj & E1 & E2)|(t & x & Eu & Hx & j & Hj & [H1 H2]%andb_true_iff)].
    + exists t, x. split_and!; [done..|]. left. exists i, j. by split_and!.
    + apply bool_decide_eq_true in H1, H2. apply Hu in H2 as (i & Hi & E1 & E2 & Hk). exists t, x. split_and!; [done..|]. right. exists i, j. rewrite E1. by split_and!.
  - intros (t & x & Eu & Hx & [(i & j & Hi & Hj & E1 & E2)|(i & j & Hi & Hj & E1 & E2 & H1 & H2)]); [left; exists i; split; [done|]|right]; exists t, x; (split_and!; [done..|]); exists j.
    + by split_and!.
    + split; [done|]. apply andb_true_iff. split; apply bool_decide_eq_true; [by rewrite <- E1|]. apply Hu. exists i. rewrite <- E1. by split_and!.
Qed.

Lemma find_searches m tx : pool_ok m -> NoDup (input_bk <$> TxInputsExt tx) -> Forall (fun i => (0 <= ti_RefOffset i)%Z) (TxInputs tx) ->
  exists ds, (let! acc := find_inputs tx (∅, []) in let! acc := find_keys (getTxUsedKeyVersion tx) acc in mpure acc.2) m = (Ret (node_tx (heap m) <$> ds), m) /\
    searched (heap m) ∅ (node_with m (conflicts tx)) ds.
Proof.
  intros W Nd Hoff. assert (searches m (fun r => exists i, i ∈ TxInputs tx /\ node_with m (spends (ti_RefTxid i) (ti_RefOffset i)) r) (find_inputs tx)) as Hin.
  { apply (searches_each m (fun i => node_with m (spends (ti_RefTxid i) (ti_RefOffset i)))). intros i Hi. rewrite Forall_forall in Hoff. by apply findByUtxo_searches; [|apply Hoff]. }
  destruct (Hin (∅, [])) as (ds1 & E1 & S1). rewrite (mbnd_ret _ _ _ _ _ E1).
  destruct (find_keys_searches m (getTxUsedKeyVersion tx) W (extends m ds1 (∅, []))) as (ds2 & E2 & S2). rewrite (mbnd_ret _ _ _ _ _ E2), extends_app.
  exists (ds1 ++ ds2). split; [done|]. eapply searched_ext; [intros r; apply (conflicts_roots m tx r Nd)|]. by apply searched_both.
Qed.

Lemma conflict_depends m tx ds u : pool_ok m -> searched (heap m) ∅ (node_with m (conflicts tx)) ds -> 
  (exists q, q ∈ ds /\ unconfirmed m !! u = Some q) <->
  is_Some (unconfirmed m !! u) /\ exists v, pool_tx m (Txid v) = Some v /\ conflicts tx v /\ depends m (Txid v) u.
Proof.
  intros W S. split.
  - intros (q & (r & (t & v & Er & Hv & Hc) & Hd)%(searched_elem _ _ _ _ S) & Eq). split; [by rewrite Eq|]. exists v.
    destruct (w_unconf _ _ W _ _ Er) as (n & x & Hn & Hx & _ & E1 & Hr). assert (x = v) as -> by (unfold node_tx in Hv; rewrite Hn in Hv; cbn in Hv; congruence). subst t.
    split_and!; [unfold pool_tx; by rewrite Er|done|]. eapply depends_iff; [done|done| |done|done]. apply (getNode_listed None _ _ _ W), (unconf_getNode _ _ _ W Er).
  - intros [[q Eq] (v & Hv & Hc & Hd)]. exists q. split; [|done]. apply (searched_elem _ _ _ _ S).
    apply (pool_tx_Some _ _ _ W) in Hv as (r & n & Er & Hn & Hx & Et & _). exists r. split.
    + exists (Txid v), v. split_and!; [done|unfold node_tx; by rewrite Hn|done].
    + eapply depends_iff; [exact W| |apply (getNode_listed None _ _ _ W), (unconf_getNode _ _ _ W Er)|exact Eq|exact Hd].
      destruct (w_unconf _ _ W _ _ Er) as (? & ? & _ & _ & _ & _ & ?). done.
Qed.

Lemma searched_unconf m tx ds q : pool_ok m -> searched (heap m) ∅ (node_with m (conflicts tx)) ds -> q ∈ ds -> unconf m q.
Proof.
  intros W S (r & (t & v & Er & _) & Hd)%(searched_elem _ _ _ _ S). destruct (desc_listed m r q W (or_intror (ex_intro _ t Er)) Hd) as [->|]; [by exists t|done].
Qed.

(** The transactions in the way of another one.  For a transaction the pool does not have,
    [FindConflictByTx] ends without a panic, leaves the pool as it is and
    returns, each once, exactly the unconfirmed transactions that conflict with
    the transaction, by an output they both spend or by a version of a key they
    both overwrite, and those that depend on such a one; every transaction comes
    after all those that refer to it, so they can be undone in this order. *)
Theorem FindConflictByTx_exact m tx : pool_ok m -> HasTx (Txid tx) m = false ->
  NoDup (input_bk <$> TxInputsExt tx) -> Forall (fun i => (0 <= ti_RefOffset i)%Z) (TxInputs tx) ->
  exists txs, FindConflictByTx tx m = (Ret (Some <$> txs), m) /\ NoDup (Txid <$> txs) /\
    (forall u, u ∈ txs <-> pool_tx m (Txid u) = Some u /\
       exists v, pool_tx m (Txid v) = Some v /\ conflicts tx v /\ depends m (Txid v) (Txid u)) /\
    (forall l1 u l2 w, txs = l1 ++ u :: l2 -> pool_tx m (Txid w) = Some w -> Txid u ∈ refs w -> w ∈ l1).
Proof.
  intros W Hh Nd Hoff. destruct (find_searches m tx W Nd Hoff) as (ds & E & S). pose proof (postorder_fresh _ _ _ (se_order _ _ _ _ S)) as [Nds _].
  destruct (unconf_txs m ds W Nds) as (txs & E1 & E2 & E3 & E4); [intros q; by apply (searched_unconf m tx)|].
  exists txs. unfold FindConflictByTx. rewrite Hh, E, E1. split_and!; [done|done| |].
  - intros u. rewrite (unconf_txs_elem m ds) by done. rewrite (conflict_depends m tx ds) by done. split; [naive_solver|]. intros [Hp Hv]. split_and!; [done| |done].
    apply bind_Some in Hp as (q & Eq & _). by rewrite Eq.
  - intros l1 u l2 w -> Hw Hin. rewrite fmap_app in E3. symmetry in E3. apply fmap_app_inv in E3 as (d1 & d2 & E3 & E3' & ->).
    destruct d2 as [|q d2]; [done|]. cbn in E3'. injection E3' as Eq _. apply Forall_app in E4 as [E4 _].
    apply (unconf_txs_elem m d1 l1); [done|done|]. split; [done|]. apply (pool_tx_Some _ _ _ W) in Hw as (pw & n & Ew & Hn & Hx & _).
    exists pw. split; [|done]. destruct (w_refs _ _ W _ _ w Ew ltac:(done)) with (Txid u) as (s & q' & Es & Et); [unfold node_tx; by rewrite Hn|done|].
    destruct (unconf_getNode _ _ _ W Eq) as [Hl Etq]. assert (q' = q) as -> by (eapply (listed_inj _ m); [done|by apply (w_parent _ _ W _ _ _ Es)|done|congruence]).
    assert (txid_of (heap m) q <> "") as Hne by (rewrite Etq; destruct (w_unconf _ _ W _ _ Eq) as (? & ? & _ & _ & _ & _ & [? _]); done).
    destruct (postorder_children _ _ _ (se_order _ _ _ _ S) d1 q d2 _ pw eq_refl (edge_walked _ _ _ _ W Es Hne) (ln_out _ (w_linked _ _ W) _ _ _ Es)); [set_solver|done].
Qed.
End Find.
