(* ===== verification/MempoolPut.v ===== *)
(** * The memory pool: adding a transaction

    [PutTx] links a new node to the nodes of the transactions it refers to and
    then lists it.  [adding] is the state in between: the pool is in order apart
    from the new node, which is not listed yet. *)

From Stdlib Require Import ZArith Lia.
From stdpp Require Import base gmap strings list numbers sorting.
From S2P Require Import Prelude GoValues Sandbox LedgerHash XModel Mempool MempoolGraph MempoolSpec MempoolConfirm.

Set Default Proof Using "Type".

(** The node [c] of [tx] is being added. *)
Record adding (c : nat) (tx : Transaction) (m : Mempool) : Prop := {
  ad_wf : pool_wf (Some c) m;
  ad_node : exists n, heap m !! c = Some n /\ n_tx n = Some tx /\ n_txid n = Txid tx /\
    length (txInputs n) = length (TxInputs tx) /\ length (txInputsExt n) = length (TxInputsExt tx) /\
    length (txOutputs n) = length (TxOutputs tx) /\ length (txOutputsExt n) = length (TxOutputsExt tx);
  ad_new : confirmed m !! Txid tx = None /\ unconfirmed m !! Txid tx = None;
  ad_order : forall p, unconf m p -> p < c;
  ad_real : real_id (Txid tx)
}.

Lemma adding_unlisted c tx m : adding c tx m -> ~ listed m c.
Proof.
  intros A [Hc|Hu]; destruct (ad_node _ _ _ A) as (n & Hn & _ & Et & _).
  - apply (conf_txid _ _ _ (ad_wf _ _ _ A)) in Hc. unfold txid_of in Hc. rewrite Hn in Hc. cbn in Hc. rewrite Et in Hc. destruct (ad_new _ _ _ A). congruence.
  - apply (ad_order _ _ _ A) in Hu. lia.
Qed.

Lemma adding_frame c tx m h' : adding c tx m -> framed (heap m) h' ->
  exists n, h' !! c = Some n /\ n_tx n = Some tx /\ n_txid n = Txid tx /\
    length (txInputs n) = length (TxInputs tx) /\ length (txInputsExt n) = length (TxInputsExt tx) /\
    length (txOutputs n) = length (TxOutputs tx) /\ length (txOutputsExt n) = length (TxOutputsExt tx).
Proof.
  intros A F. destruct (ad_node _ _ _ A) as (n & Hn & H1 & H2 & H3 & H4 & H5 & H6). destruct (framed_lookup_fwd _ _ _ _ F Hn) as (n' & Hn' & [S1 S2 S3 S4 S5 S6]).
  exists n'. split_and!; congruence.
Qed.

(** ** One link *)

Section AddLink.
Context (c : nat) (tx : Transaction) (m : Mempool) (s : islot) (p : nat) (cn pn : Node).
Context (A : adding c tx m) (Hc : heap m !! c = Some cn) (Hp : heap m !! p = Some pn) (Hl : listed m p).
Context (Hin : in_room cn s) (Hout : out_room pn (target cn s)).
Context (Efree : hin (heap m) c s = None) (Ofree : hout (heap m) p (htarget (heap m) c s) = None).
Context (Hi : input_ok cn s (n_txid pn)) (Hbk : forall k, target cn s = OBk k -> n_txid pn = "").

Let W : pool_wf (Some c) m := ad_wf _ _ _ A.
Let m' : Mempool := set_heap m (link (heap m) c s p).

Lemma add_link_in c' s' : hin (heap m') c' s' = if decide (c = c' /\ s = s') then Some p else hin (heap m) c' s'.
Proof using Hc Hin. by eapply link_in. Qed.

Lemma add_link : adding c tx m'.
Proof using All.
  assert (framed (heap m) (heap m')) as F by apply link_framed.
  assert (forall q n, heap m !! q = Some n -> exists n', heap m' !! q = Some n' /\ n_txid n' = n_txid n /\ n_tx n' = n_tx n) as Hf.
  { intros q n Hn. destruct (framed_lookup_fwd _ _ _ _ F Hn) as (n' & Hn' & S'). exists n'. split_and!; [done|apply S'..]. }
  assert (linked (heap m')) as L' by (eapply link_linked; [apply W|done..]). split; [split| |apply A|apply A|apply A].
  - done.
  - intros q [n (n0 & Hn & _)%(framed_lookup _ _ _ _ F)]. by apply (w_next _ _ W).
  - intros t q (n & Hn & H1 & H2)%(w_conf _ _ W). destruct (Hf _ _ Hn) as (n' & Hn' & E1 & E2). exists n'. by rewrite E1, E2.
  - intros t q (n & x & Hn & H1 & H2 & H3)%(w_unconf _ _ W). destruct (Hf _ _ Hn) as (n' & Hn' & E1 & E2). exists n', x. by rewrite E1, E2.
  - apply (w_disj _ _ W).
  - apply (w_orphans _ _ W).
  - intros c' s' q. rewrite add_link_in. case_decide as Hd; [destruct Hd as [<- _]; by right|]. apply (w_child _ _ W).
  - intros c' s' q. rewrite add_link_in. case_decide as Hd; [intros [= <-]; done|]. apply (w_parent _ _ W).
  - intros c' s' q. rewrite add_link_in. case_decide as Hd; [|apply (w_order _ _ W)]. destruct Hd as [<- _]. intros [= <-].
    destruct Hl as [|Hu]; [by left|right]. by apply (ad_order _ _ _ A).
  - intros q (n & Hn & H1 & H2)%(w_empty _ _ W). destruct (Hf _ _ Hn) as (n' & Hn' & E1 & E2). exists n'. by rewrite E1, E2.
  - intros q (n & Hn & H1 & H2)%(w_stone _ _ W). destruct (Hf _ _ Hn) as (n' & Hn' & E1 & E2). exists n'. by rewrite E1, E2.
  - apply (w_empty_conf _ _ W).
  - apply (w_stone_conf _ _ W).
  - intros t q x Eu Hg. unfold node_tx. rewrite (framed_tx _ _ _ F). intros Hx r Hr. destruct (w_refs _ _ W _ _ _ Eu Hg Hx r Hr) as (s' & y & E & Et).
    exists s', y. rewrite add_link_in, decide_False, (framed_txid _ _ _ F); [done|]. intros [-> _]. done.
  - intros t q x i Eu Hg. unfold node_tx. rewrite (framed_tx _ _ _ F), add_link_in, decide_False by (intros [-> _]; done). by apply (w_spends _ _ W _ _ _ _ Eu).
  - intros k t q. cbn [m' bucketKeyNodes unconfirmed set_heap]. rewrite (w_index _ _ W). unfold node_tx. by rewrite (framed_tx _ _ _ F).
  - by apply (adding_frame c tx m).
Qed.
End AddLink.

(** ** A confirmed node *)

(** A node of the ledger, of the empty txid or the stone enters the table of
    confirmed nodes. *)
Lemma add_conf c tx m t p n : adding c tx m -> heap m !! p = Some n -> n_txid n = t -> (real_id t -> is_Some (n_tx n)) ->
  confirmed m !! t = None \/ confirmed m !! t = Some p -> unconfirmed m !! t = None -> t <> Txid tx ->
  (t = "" -> emptyTxIDNode m = Some p) -> (t = stoneNodeID -> stoneNode m = Some p) ->
  adding c tx (set_confirmed m (<[t := p]> (confirmed m))).
Proof.
  intros A Hn Et Hx Hc Hu Ht He Hs. pose proof (ad_wf _ _ _ A) as W.
  assert (forall q, conf m q -> conf (set_confirmed m (<[t := p]> (confirmed m))) q) as Hconf.
  { intros q [u Hq]. exists u. cbn. destruct (decide (t = u)) as [->|]; [|by rewrite lookup_insert_ne]. rewrite lookup_insert_eq. destruct Hc; congruence. }
  split; [|apply A| |apply A|apply A]; [split; try apply W; cbn [confirmed set_confirmed]|].
  - intros u q [[<- <-]|[_ Hq]]%lookup_insert_Some; [eauto|]. by apply (w_conf _ _ W).
  - intros u q [[<- <-]|[_ Hq]]%lookup_insert_Some; [done|]. by apply (w_disj _ _ W) in Hq.
  - intros c' s q E. destruct (w_parent _ _ W _ _ _ E); [left; by apply Hconf|by right].
  - intros c' s q E. destruct (w_order _ _ W _ _ _ E); [left; by apply Hconf|by right].
  - intros q [[E <-]|[_ Hq]]%lookup_insert_Some; [by apply He|]. by apply (w_empty_conf _ _ W).
  - intros q [[E <-]|[_ Hq]]%lookup_insert_Some; [by apply Hs|]. by apply (w_stone_conf _ _ W).
  - cbn. rewrite lookup_insert_ne by done. apply A.
Qed.

(** A new node that is not linked. *)
Lemma alloc_wf g m n (m' := (alloc n m).2) : pool_wf g m -> node_ok n -> (forall s, in_at n s = None) -> (forall s, out_at n s = None) ->
  pool_wf g m' /\ heap m !! next m = None /\ (forall c' s, hin (heap m') c' s = hin (heap m) c' s) /\ (forall q, q <> next m -> heap m' !! q = heap m !! q).
Proof.
  intros W Hok Hin Hout. assert (heap m !! next m = None) as Hfree.
  { destruct (heap m !! next m) eqn:E; [|done]. assert (next m < next m); [|lia]. apply (w_next _ _ W). eauto. }
  destruct (alloc_linked _ _ _ (w_linked _ _ W) Hfree Hok Hin Hout) as (L & Hi & Ho).
  assert (forall q x, heap m !! q = Some x -> q <> next m) as Hne by (intros q x Hq ->; congruence).
  assert (forall q, q <> next m -> heap m' !! q = heap m !! q) as Hkeep by (intros q Hq; cbn; by rewrite lookup_insert_ne).
  assert (forall q, is_Some (heap m !! q) -> node_tx (heap m') q = node_tx (heap m) q /\ txid_of (heap m') q = txid_of (heap m) q) as Hsame.
  { intros q [x Hx]. unfold node_tx, txid_of. by rewrite Hkeep by eauto. }
  assert (forall c' s q, hin (heap m) c' s = Some q -> is_Some (heap m !! q)) as Hpar.
  { intros c' s q E. eapply listed_exists; [done|]. apply (w_parent _ _ W _ _ _ E). }
  split_and!; [|done|done|done]. split; try apply W.
  - exact L.
  - intros q [x Hq]. change (<[next m := n]> (heap m) !! q = Some x) in Hq. apply lookup_insert_Some in Hq as [[<- _]|[_ Hq]]; cbn; [lia|].
    assert (q < next m); [|lia]. apply (w_next _ _ W). eauto.
  - intros t q (x & Hx & E)%(w_conf _ _ W). exists x. by rewrite Hkeep by eauto.
  - intros t q (x & y & Hx & E)%(w_unconf _ _ W). exists x, y. by rewrite Hkeep by eauto.
  - intros c' s q. rewrite Hi. apply (w_child _ _ W).
  - intros c' s q. rewrite Hi. apply (w_parent _ _ W).
  - intros c' s q. rewrite Hi. apply (w_order _ _ W).
  - intros q (x & Hx & E)%(w_empty _ _ W). exists x. by rewrite Hkeep by eauto.
  - intros q (x & Hx & E)%(w_stone _ _ W). exists x. by rewrite Hkeep by eauto.
  - intros t q x Eu Hg. destruct (w_unconf _ _ W _ _ Eu) as (y & z & Hy & _). rewrite (proj1 (Hsame q ltac:(eauto))). intros Hx r Hr.
    destruct (w_refs _ _ W _ _ _ Eu Hg Hx r Hr) as (s & v & E & Et). exists s, v. rewrite Hi. split; [done|]. by rewrite (proj2 (Hsame v (Hpar _ _ _ E))).
  - intros t q x i Eu Hg. destruct (w_unconf _ _ W _ _ Eu) as (y & z & Hy & _). rewrite (proj1 (Hsame q ltac:(eauto))), Hi. by apply (w_spends _ _ W _ _ _ _ Eu).
  - intros k t q. change (bk_at (bucketKeyNodes m) k t = Some q <-> unconfirmed m !! t = Some q /\ g <> Some q /\ k ∈ tx_bks (node_tx (heap m') q)). rewrite (w_index _ _ W).
    assert (unconfirmed m !! t = Some q -> node_tx (heap m') q = node_tx (heap m) q) as Es.
    { intros Eu. apply Hsame. destruct (w_unconf _ _ W _ _ Eu) as (y & z & Hy & _). eauto. }
    split; intros (Eu & Hg & Hk); [rewrite Es by done|rewrite Es in Hk by done]; done.
Qed.

Lemma add_alloc c tx m n (m' := (alloc n m).2) : adding c tx m -> node_ok n -> (forall s, in_at n s = None) -> (forall s, out_at n s = None) ->
  adding c tx m' /\ heap m' !! next m = Some n /\ ~ listed m (next m) /\ next m <> c /\
  (forall c' s, hin (heap m') c' s = hin (heap m) c' s) /\ (forall q, q <> next m -> heap m' !! q = heap m !! q).
Proof.
  intros A Hok Hin Hout. pose proof (ad_wf _ _ _ A) as W. destruct (alloc_wf _ m n W Hok Hin Hout) as (W' & Hfree & Hi & Hkeep).
  destruct (ad_node _ _ _ A) as (x & Hx & R). assert (c <> next m) as Hc by (intros ->; congruence).
  split_and!; [|by cbn; rewrite lookup_insert_eq| |done|done|done].
  - split; [done| |apply A|apply A|apply A]. exists x. split; [by rewrite Hkeep|done].
  - intros Hl. destruct (listed_exists _ _ _ W Hl) as [y Hy]. congruence.
Qed.

Lemma NewNode_free t tx : (forall s, in_at (NewNode t tx) s = None) /\ (forall s, out_at (NewNode t tx) s = None).
Proof.
  assert (forall k i, mjoin (replicate k (None : option nat) !! i) = None) as Hr.
  { intros k i. destruct (replicate k None !! i) eqn:E; [|done]. by apply lookup_replicate in E as [-> _]. }
  split; intros []; cbn; first [apply Hr|apply lookup_empty].
Qed.
Lemma NewNode_ok t tx : (t = "" -> TxOutputsExt <$> tx = None) -> node_ok (NewNode t tx).
Proof. intros H. split; cbn; [|done]. intros E. destruct tx; [by specialize (H E)|done]. Qed.

(** ** The code that links *)

Lemma lookup_store (l : list (option nat)) (off : Z) : (0 <= off)%Z -> (off < Z.of_nat (length l))%Z -> exists v, l !! Z.to_nat off = Some v /\ Z.to_nat off < length l.
Proof. intros H1 H2. assert (Z.to_nat off < length l) as Hl by lia. destruct (lookup_lt_is_Some_2 _ _ Hl) as [v Hv]. eauto. Qed.

Lemma updateInput_run c i inp p m cn pn :
  heap m !! c = Some cn -> heap m !! p = Some pn -> c <> p -> is_Some (n_tx pn) -> tx_inputs (n_tx cn) !! i = Some inp -> i < length (txInputs cn) ->
  match updateInput c i (ti_RefOffset inp) p false m with
  | (Err _, m') => m' = m
  | (Ret None, m') => m' = set_heap m (link (heap m) c (IIn i) p) /\ (0 <= ti_RefOffset inp)%Z /\
                      out_room pn (target cn (IIn i)) /\ out_at pn (target cn (IIn i)) = None
  | _ => False
  end.
Proof.
  intros Hc Hp Hne [ptx Hx] Hi Hl. unfold updateInput. rewrite (mbnd_ret _ _ _ _ _ (load_ok _ _ _ Hp)), Hx, bool_decide_eq_true_2 by eauto. cbn [andb].
  destruct (Z.ltb_spec (ti_RefOffset inp) 0) as [|H0]; cbn [orb]; [done|]. destruct (Z.leb_spec (Z.of_nat (length (txOutputs pn))) (ti_RefOffset inp)) as [|H1]; [done|].
  unfold mbnd at 1, mpure at 1. rewrite (mbnd_ret _ _ _ _ _ (load_ok _ _ _ Hp)). destruct (lookup_store _ _ H0 H1) as (on & Eon & Hr). rewrite Eon.
  destruct on as [on|]; [done|]. cbn [negb]. rewrite bool_decide_eq_false_2 by (by intros []). cbn [andb].
  unfold store_txIn. rewrite (mbnd_ret _ _ _ _ _ (slot_store_ok txInputs set_txIn c (Z.of_nat i) (Some p) cn m Hc ltac:(lia) ltac:(by rewrite Nat2Z.id))).
  set (h1 := alter _ c (heap m)). assert (h1 !! p = Some pn) as Hp1 by (unfold h1; by rewrite lookup_alter_ne).
  unfold store_txOut. rewrite (mbnd_ret _ _ _ _ _ (slot_store_ok txOutputs set_txOut p _ (Some c) pn (set_heap m h1) Hp1 H0 Hr)).
  split_and!; [|done|cbn; by rewrite Hi|cbn; rewrite Hi; cbn; by rewrite Eon]. unfold mpure. cbn [set_heap heap]. f_equal. unfold h1, link. rewrite alter_alter_ne by congruence.
  rewrite Nat2Z.id. unfold htarget. rewrite Hc. cbn. by rewrite Hi.
Qed.

(** The slot that an input of the key-value state uses. *)
Definition ext_slot (tx : Transaction) (i : nat) (inp : TxInputExt) (t : string) : islot := if isReadonlyKey tx inp then IRo t else IExt i.

Lemma updateInputExt_run c tx i inp p m cn pn :
  heap m !! c = Some cn -> heap m !! p = Some pn -> c <> p -> is_Some (n_tx pn) -> n_tx cn = Some tx -> TxInputsExt tx !! i = Some inp ->
  i < length (txInputsExt cn) -> is_empty_string (ref_of inp) = false ->
  match updateInputExt c i inp p false m with
  | (Err _, m') => m' = m
  | (Ret None, m') => m' = set_heap m (link (heap m) c (ext_slot tx i inp (n_txid pn)) p) /\ (0 <= ie_RefOffset inp)%Z /\
                      (isReadonlyKey tx inp = false -> out_room pn (target cn (IExt i)) /\ out_at pn (target cn (IExt i)) = None)
  | _ => False
  end.
Proof.
  intros Hc Hp Hne [ptx Hx] Htx Hi Hl Hne'. unfold updateInputExt. rewrite (mbnd_ret _ _ _ _ _ (load_ok _ _ _ Hp)), Hx, bool_decide_eq_true_2 by eauto. cbn [andb].
  destruct (Z.ltb_spec (ie_RefOffset inp) 0) as [|H0]; cbn [orb]; [done|]. destruct (Z.leb_spec (Z.of_nat (length (txOutputsExt pn))) (ie_RefOffset inp)) as [|H1]; [done|].
  rewrite (mbnd_ret _ _ _ _ _ (load_ok _ _ _ Hc)), Htx. unfold ext_slot. destruct (isReadonlyKey tx inp).
  { unfold mbnd, update, on_pool, mpure. split_and!; [|done|done]. f_equal. unfold link, htarget. by rewrite Hc. }
  unfold mbnd at 1, mpure at 1. rewrite (mbnd_ret _ _ _ _ _ (load_ok _ _ _ Hp)). destruct (lookup_store _ _ H0 H1) as (on & Eon & Hr). rewrite Eon.
  destruct on as [on|]; [done|]. cbn [negb]. rewrite bool_decide_eq_false_2 by (by intros []). cbn [andb].
  assert (target cn (IExt i) = OExt (Z.to_nat (ie_RefOffset inp))) as Et by (cbn; rewrite Htx; cbn; by rewrite Hi, Hne').
  unfold store_txOutExt. rewrite (mbnd_ret _ _ _ _ _ (slot_store_ok txOutputsExt set_txOutExt p _ (Some c) pn m Hp H0 Hr)).
  set (h1 := alter _ p (heap m)). assert (h1 !! c = Some cn) as Hc1 by (unfold h1; by rewrite lookup_alter_ne).
  unfold store_txInExt. rewrite (mbnd_ret _ _ _ _ _ (slot_store_ok txInputsExt set_txInExt c (Z.of_nat i) (Some p) cn (set_heap m h1) Hc1 ltac:(lia) ltac:(by rewrite Nat2Z.id))).
  split_and!; [|done|by rewrite Et; cbn; rewrite Eon]. unfold mpure. cbn [set_heap heap]. f_equal. rewrite Nat2Z.id. unfold h1, link, htarget. rewrite Hc. cbn [from_option]. rewrite Et. done.
Qed.

(** ** One step of the construction *)

Record stepped (c : nat) (tx : Transaction) (used : islot -> Prop) (m m' : Mempool) : Prop := {
  sp_add : adding c tx m';
  sp_conf : forall t p, confirmed m !! t = Some p -> confirmed m' !! t = Some p;
  sp_unconf : unconfirmed m' = unconfirmed m;
  sp_keep : forall s q, hin (heap m) c s = Some q -> hin (heap m') c s = Some q;
  sp_free : forall s, ~ used s -> hin (heap m) c s = None -> hin (heap m') c s = None;
  sp_others : forall c' s, c' <> c -> hin (heap m') c' s = hin (heap m) c' s;
  sp_old : forall q x, heap m !! q = Some x -> exists x', heap m' !! q = Some x' /\ n_tx x' = n_tx x /\ n_txid x' = n_txid x
}.

Lemma stepped_refl c tx used m : adding c tx m -> stepped c tx used m m.
Proof. intros A. split; eauto. Qed.
Lemma stepped_trans c tx used m1 m2 m3 : stepped c tx used m1 m2 -> stepped c tx used m2 m3 -> stepped c tx used m1 m3.
Proof.
  intros [A1 C1 U1 K1 F1 X1 O1] [A2 C2 U2 K2 F2 X2 O2]. split; [done|auto|congruence|auto|auto|intros; by rewrite X2, X1|].
  intros q x Hx. destruct (O1 _ _ Hx) as (x1 & H1 & E1 & E2). destruct (O2 _ _ H1) as (x2 & H2 & E3 & E4). exists x2. split_and!; congruence.
Qed.
Lemma stepped_mono c tx (used used' : islot -> Prop) m m' : (forall s, used s -> used' s) -> stepped c tx used m m' -> stepped c tx used' m m'.
Proof. intros H [A C U K F X Ol]. split; [done..| |done|done]. intros s Hs. apply F. auto. Qed.

(** The new node refers to [r]. *)
Definition refers (c : nat) (m : Mempool) (r : string) : Prop := exists s q, hin (heap m) c s = Some q /\ txid_of (heap m) q = r.
Lemma refers_stepped c tx used m m' r : adding c tx m -> stepped c tx used m m' -> refers c m r -> refers c m' r.
Proof.
  intros A S (s & q & E & Er). exists s, q. split; [by apply S|]. destruct (listed_exists _ _ q (ad_wf _ _ _ A)) as [x Hx]; [apply (w_parent _ _ (ad_wf _ _ _ A) _ _ _ E)|].
  destruct (sp_old _ _ _ _ _ S _ _ Hx) as (x' & Hx' & _ & Et). unfold txid_of in *. rewrite Hx' in *. rewrite Hx in Er. cbn in *. congruence.
Qed.

Lemma framed_old h h' : framed h h' -> forall q x, h !! q = Some x -> exists x', h' !! q = Some x' /\ n_tx x' = n_tx x /\ n_txid x' = n_txid x.
Proof. intros F q x Hx. destruct (framed_lookup_fwd _ _ _ _ F Hx) as (x' & Hx' & S). exists x'. split_and!; [done|apply S..]. Qed.

(** A link that is made, or that is there already. *)
Lemma link_stepped c tx m s p cn pn : adding c tx m -> heap m !! c = Some cn -> heap m !! p = Some pn -> listed m p ->
  in_room cn s -> out_room pn (target cn s) -> hin (heap m) c s = None -> hout (heap m) p (htarget (heap m) c s) = None ->
  input_ok cn s (n_txid pn) -> (forall k, target cn s = OBk k -> n_txid pn = "") ->
  let m' := set_heap m (link (heap m) c s p) in (stepped c tx (eq s) m m' /\ refers c m' (n_txid pn)) /\ is_Some (hin (heap m') c s).
Proof.
  intros A Hc Hp Hl Hi Ho E1 E2 Hk Hb m'. assert (forall c' s', hin (heap m') c' s' = if decide (c = c' /\ s = s') then Some p else hin (heap m) c' s') as Ein
    by (intros; by eapply add_link_in). split; [|exists p; by rewrite Ein, decide_True]. split; [split|].
  - by eapply add_link.
  - done.
  - done.
  - intros s' q Eq. rewrite Ein, decide_False; [done|]. intros [_ <-]. congruence.
  - intros s' Hs Eq. rewrite Ein, decide_False; [done|]. naive_solver.
  - intros c' s' Hc'. rewrite Ein, decide_False; [done|]. naive_solver.
  - apply framed_old, link_framed.
  - exists s, p. rewrite Ein, decide_True by done. split; [done|]. unfold txid_of. destruct (framed_old _ _ (link_framed (heap m) c s p) _ _ Hp) as (x & Hx & _ & Et).
    cbn [m' heap set_heap]. rewrite Hx. exact Et.
Qed.

(** The slots of readers: either free on both sides or linked to each other. *)
Lemma readonly_slot c tx m p pn : adding c tx m -> heap m !! p = Some pn -> listed m p ->
  (hin (heap m) c (IRo (n_txid pn)) = None /\ hout (heap m) p (ORo (Txid tx)) = None) \/
  (hin (heap m) c (IRo (n_txid pn)) = Some p /\ hout (heap m) p (ORo (Txid tx)) = Some c).
Proof.
  intros A Hp Hl. pose proof (ad_wf _ _ _ A) as W. pose proof (w_linked _ _ W) as L. destruct (ad_node _ _ _ A) as (cn & Hc & Hx & Ht & _).
  assert (htarget (heap m) c (IRo (n_txid pn)) = ORo (Txid tx)) as Etg by (unfold htarget; rewrite Hc; cbn; by rewrite Ht).
  destruct (hin (heap m) c (IRo (n_txid pn))) as [p'|] eqn:E.
  - right. assert (p' = p) as ->.
    { eapply (listed_inj _ m); [done|apply (w_parent _ _ W _ _ _ E)|done|]. destruct (ln_input _ L _ _ _ _ Hc E) as [<- _]. unfold txid_of. by rewrite Hp. }
    split; [done|]. rewrite <- Etg. by apply (ln_out _ L).
  - left. split; [done|]. apply eq_None_not_Some. intros [c' (s & Es & Et)%(ln_in _ L)]. unfold htarget in Et. 
    destruct (heap m !! c') as [cn'|] eqn:Hc'; [|done]. cbn in Et. destruct s as [i|i|t]; cbn in Et; [done|by repeat case_match|]. injection Et as Et.
    destruct (w_child _ _ W _ _ _ Es) as [[u Eu]|[= <-]].
    + destruct (w_unconf _ _ W _ _ Eu) as (n & x & Hn & _ & En & _). destruct (ad_new _ _ _ A) as [_ Hno]. congruence.
    + destruct (ln_input _ L _ _ _ _ Hc' Es) as [Ep _]. unfold txid_of in Ep. rewrite Hp in Ep. cbn in Ep. congruence.
Qed.

Lemma readonly_stepped c tx m p pn : adding c tx m -> heap m !! p = Some pn -> listed m p ->
  (n_txid pn = "" \/ n_txid pn = stoneNodeID \/ n_txid pn ∈ ref_of <$> TxInputsExt tx) ->
  let m' := set_heap m (link (heap m) c (IRo (n_txid pn)) p) in stepped c tx (fun s => s = IRo (n_txid pn)) m m' /\ refers c m' (n_txid pn).
Proof.
  intros A Hp Hl Hr. destruct (ad_node _ _ _ A) as (cn & Hc & Hx & Ht & _).
  assert (htarget (heap m) c (IRo (n_txid pn)) = ORo (Txid tx)) as Etg by (unfold htarget; rewrite Hc; cbn; by rewrite Ht).
  destruct (readonly_slot c tx m p pn A Hp Hl) as [[E1 E2]|[E1 E2]].
  - destruct (link_stepped c tx m (IRo (n_txid pn)) p cn pn A Hc Hp Hl) as [[S R] _]; [done|done|done|by rewrite Etg|cbn; rewrite Hx; done|done|].
    split; [|done]. eapply stepped_mono, S. by intros s <-.
  - assert (link (heap m) c (IRo (n_txid pn)) p = heap m) as Eid.
    { unfold link. rewrite Etg. unfold hout in E2. rewrite Hp in E2. unfold hin in E1. rewrite Hc in E1. cbn in E1, E2.
      rewrite (alter_id (put_out (ORo (Txid tx)) (Some c)) (heap m) p).
      - apply alter_id. intros x Hx'. replace x with cn by congruence. cbn. rewrite partial_alter_id by congruence. by destruct cn.
      - intros x Hx'. replace x with pn by congruence. cbn. rewrite partial_alter_id by congruence. by destruct pn. }
    cbn. rewrite Eid. assert (set_heap m (heap m) = m) as -> by (by destruct m). split; [by apply stepped_refl|].
    exists (IRo (n_txid pn)), p. split; [done|]. unfold txid_of. by rewrite Hp.
Qed.

Section Put.
Context `{O : MapOrder} (queryTxFromDB : string -> option Transaction) (fuel : nat).
(** What the ledger answers. *)
Context (db_id : forall id tx, queryTxFromDB id = Some tx -> Txid tx = id).

(** ** Finding the parent *)

Definition known (m : Mempool) (id : string) : Prop := is_Some (confirmed m !! id) \/ is_Some (unconfirmed m !! id) \/ is_Some (queryTxFromDB id).

Lemma known_stepped c tx used m m' id : stepped c tx used m m' -> known m id -> known m' id.
Proof. intros S [[p Hc]|[Hu|Hd]]; [left; exists p; by apply S|right; left; by rewrite (sp_unconf _ _ _ _ _ S)|by right; right]. Qed.

(** What is asked of the code that links the new node to its parent [p]. *)
Definition links (c : nat) (tx : Transaction) (used : islot -> Prop) (id : string) (m : Mempool) (lk : nat -> M Mempool (option nat)) : Prop :=
  forall p pn m0, adding c tx m0 -> (forall s, hin (heap m0) c s = hin (heap m) c s) -> heap m0 !! p = Some pn -> is_Some (n_tx pn) -> n_txid pn = id -> p <> c ->
  match lk p m0 with
  | (Err _, m') => m' = m0
  | (Ret None, m') => exists h', m' = set_heap m0 h' /\
      forall m1, heap m1 = heap m0 -> adding c tx m1 -> listed m1 p ->
        (stepped c tx used m1 (set_heap m1 h') /\ refers c (set_heap m1 h') id) /\ forall s, (forall x, used x <-> x = s) -> is_Some (hin h' c s)
  | _ => False
  end.

Lemma listed_linked c tx used id m lk p : adding c tx m -> real_id id -> links c tx used id m lk -> listed m p -> txid_of (heap m) p = id ->
  match lk p m with
  | (Err _, m') => m' = m
  | (Ret None, m') => (stepped c tx used m m' /\ refers c m' id) /\ forall s, (forall x, used x <-> x = s) -> is_Some (hin (heap m') c s)
  | _ => False
  end.
Proof.
  intros A Hr Hk Hl Et. pose proof (ad_wf _ _ _ A) as W. destruct (listed_exists _ _ _ W Hl) as [pn Hp].
  assert (n_txid pn = id) as Ep by (unfold txid_of in Et; by rewrite Hp in Et).
  assert (is_Some (n_tx pn)) as Hx.
  { destruct Hl as [[t Hc]|[t Hu]].
    - destruct (w_conf _ _ W _ _ Hc) as (n & Hn & E1 & E2). replace n with pn in * by congruence. apply E2. by rewrite <- E1, Ep.
    - destruct (w_unconf _ _ W _ _ Hu) as (n & x & Hn & E1 & _). replace n with pn in * by congruence. eauto. }
  pose proof (Hk p pn m A (fun _ => eq_refl) Hp Hx Ep) as Hm. specialize (Hm ltac:(intros ->; by apply (adding_unlisted _ _ _ A))).
  destruct (lk p m) as [[[d|]|e|] m']; [done| |done|done]. destruct Hm as (h' & -> & Hm). by apply Hm.
Qed.

Lemma with_parent_spec c tx used id by_db lk m : adding c tx m -> real_id id -> id <> Txid tx -> known m id ->
  (forall x, queryTxFromDB id = Some x -> by_db x = id) -> links c tx used id m lk ->
  match with_parent queryTxFromDB id by_db lk m with
  | (Err _, m') => stepped c tx (fun _ => True) m m'
  | (Ret b, m') => b = false /\ (stepped c tx used m m' /\ refers c m' id) /\ forall s, (forall x, used x <-> x = s) -> is_Some (hin (heap m') c s)
  | _ => False
  end.
Proof using db_id.
  intros A Hr Hne Hkn Hby Hk. pose proof (ad_wf _ _ _ A) as W. unfold with_parent. rewrite (w_orphans _ _ W), lookup_empty.
  assert (forall p, listed m p -> txid_of (heap m) p = id ->
    match (do! (let! del := lk p in match del with Some d => let! dn := load d in do! deleteTx (n_txid dn) in mpure tt | None => mpure tt end) in mpure false) m with
    | (Err _, m') => stepped c tx (fun _ => True) m m'
    | (Ret b, m') => b = false /\ (stepped c tx used m m' /\ refers c m' id) /\ forall s, (forall x, used x <-> x = s) -> is_Some (hin (heap m') c s)
    | _ => False end) as Hfound.
  { intros p Hl Et. pose proof (listed_linked c tx used id m lk p A Hr Hk Hl Et) as Hm. unfold mbnd. destruct (lk p m) as [[[d|]|e|] m']; [done|done| |done]. subst. by apply stepped_refl. }
  destruct (confirmed m !! id) as [p|] eqn:Ec.
  { apply Hfound; [left; by exists id|]. destruct (w_conf _ _ W _ _ Ec) as (n & Hn & E & _). unfold txid_of. by rewrite Hn. }
  destruct (unconfirmed m !! id) as [p|] eqn:Eu.
  { apply Hfound; [right; by exists id|]. destruct (w_unconf _ _ W _ _ Eu) as (n & x & Hn & _ & E & _). unfold txid_of. by rewrite Hn. }
  destruct (queryTxFromDB id) as [dbTx|] eqn:Ed; [|exfalso; unfold known in Hkn; rewrite Ec, Eu, Ed in Hkn; by destruct Hkn as [[]|[[]|[]]]].
  assert (Txid dbTx = id) as Ex by (by apply db_id). rewrite Ex, (Hby _ eq_refl).
  destruct (NewNode_free id (Some dbTx)) as [N1 N2]. assert (node_ok (NewNode id (Some dbTx))) as N3 by (apply NewNode_ok; intros E0; by destruct Hr).
  destruct (add_alloc c tx m (NewNode id (Some dbTx)) A N3 N1 N2) as (A1 & Hp & Hnl & Hpc & Hsame & Hold). cbn [fst snd] in *. set (m1 := (alloc (NewNode id (Some dbTx)) m).2) in *.
  assert (alloc (NewNode id (Some dbTx)) m = (Ret (next m), m1)) as Ea by done. rewrite (mbnd_ret _ _ _ _ _ Ea).
  assert (forall used', stepped c tx used' m m1) as S1.
  { split; [done|done|done|intros s q E; by rewrite Hsame|intros s _ E; by rewrite Hsame|done|].
    intros q x Hx. exists x. rewrite Hold; [done|]. intros ->. pose proof (w_next _ _ W _ (ex_intro _ x Hx)). lia. }
  pose proof (Hk (next m) _ m1 A1 (Hsame c) Hp ltac:(cbn; eauto) eq_refl Hpc) as Hm. unfold mbnd. destruct (lk (next m) m1) as [[[d|]|e|] m2]; [done| |by subst|done].
  destruct Hm as (h' & -> & Hm). cbn. split; [done|]. set (m3 := set_confirmed m1 (<[id := next m]> (confirmed m1))).
  assert (adding c tx m3) as A3.
  { eapply add_conf; [done|exact Hp|done|cbn; eauto|by left|done|done| |]; intros E0; by destruct Hr. }
  assert (stepped c tx used m m3) as S3.
  { destruct (S1 used). split; try done. intros t p E. cbn. rewrite lookup_insert_ne; [done|]. congruence. }
  destruct (Hm m3 eq_refl A3) as [[S4 R4] U4]; [left; exists id; cbn; by rewrite lookup_insert_eq|].
  split; [split; [by eapply stepped_trans|exact R4]|exact U4].
Qed.

(** ** The inputs *)

Lemma links_input c tx m i inp : TxInputs tx !! i = Some inp -> hin (heap m) c (IIn i) = None ->
  links c tx (eq (IIn i)) (ti_RefTxid inp) m (fun p => updateInput c i (ti_RefOffset inp) p false).
Proof.
  intros Hi Hf p pn m0 A Es Hp Hx Et Hpc. destruct (ad_node _ _ _ A) as (cn & Hc & Hcx & Hct & Hl1 & _).
  assert (tx_inputs (n_tx cn) !! i = Some inp) as Hin by (by rewrite Hcx). pose proof (lookup_lt_Some _ _ _ Hi) as Hlt. rewrite <- Hl1 in Hlt.
  pose proof (updateInput_run c i inp p m0 cn pn Hc Hp ltac:(congruence) Hx Hin Hlt) as Hm.
  destruct (updateInput c i (ti_RefOffset inp) p false m0) as [[[d|]|e|] m']; [done| |done|done]. destruct Hm as (-> & H0 & Ho & Hfree).
  eexists. split; [done|]. intros m1 Eh A1 Hl. rewrite <- Eh in *. rewrite <- Et.
  destruct (link_stepped c tx m1 (IIn i) p cn pn) as [SR U]; [done..|by rewrite Es| | | |split; [exact SR|intros s Hs; by rewrite <- (proj1 (Hs _) eq_refl)]].
  - unfold htarget. rewrite Hc. cbn [from_option]. unfold hout. by rewrite Hp.
  - cbn. eauto.
  - done.
Qed.

Lemma used_two i s : (forall x, (x = IExt i \/ exists t, x = IRo t) <-> x = s) -> False.
Proof. intros E. pose proof (proj1 (E (IExt i)) ltac:(by left)) as <-. by pose proof (proj1 (E (IRo "")) ltac:(right; eauto)). Qed.

Lemma links_input_ext c tx m i inp : TxInputsExt tx !! i = Some inp -> is_empty_string (ref_of inp) = false -> hin (heap m) c (IExt i) = None ->
  links c tx (fun s => s = IExt i \/ exists t, s = IRo t) (ref_of inp) m (fun p => updateInputExt c i inp p false).
Proof.
  intros Hi Hne Hf p pn m0 A Es Hp Hx Et Hpc. destruct (ad_node _ _ _ A) as (cn & Hc & Hcx & Hct & _ & Hl2 & _).
  pose proof (lookup_lt_Some _ _ _ Hi) as Hlt. rewrite <- Hl2 in Hlt.
  pose proof (updateInputExt_run c tx i inp p m0 cn pn Hc Hp ltac:(congruence) Hx Hcx Hi Hlt Hne) as Hm.
  destruct (updateInputExt c i inp p false m0) as [[[d|]|e|] m']; [done| |done|done]. destruct Hm as (-> & H0 & Ho).
  eexists. split; [done|]. intros m1 Eh A1 Hl. rewrite <- Eh in *. unfold ext_slot. destruct (isReadonlyKey tx inp).
  - rewrite <- Et. destruct (readonly_stepped c tx m1 p pn A1 Hp Hl) as [S R]; [|split; [split; [|exact R]|]].
    + right; right. rewrite Et. apply list_elem_of_fmap_2. by eapply list_elem_of_lookup_2.
    + eapply stepped_mono, S. intros s ->. right. eauto.
    + intros s Eu. exfalso. by eapply (used_two i).
  - destruct (Ho eq_refl) as [Hroom Hfree]. rewrite <- Et.
    destruct (link_stepped c tx m1 (IExt i) p cn pn) as [[S R] _]; [done..|by rewrite Es| | | |split; [split; [|exact R]|]].
    + unfold htarget. rewrite Hc. cbn [from_option]. unfold hout. by rewrite Hp.
    + cbn. rewrite Hcx. eauto.
    + intros k. cbn. rewrite Hcx. cbn. by rewrite Hi, Hne.
    + eapply stepped_mono, S. intros s <-. by left.
    + intros s Eu. exfalso. by eapply (used_two i).
Qed.

Definition is_in (s : islot) : Prop := exists j, s = IIn j.
Definition is_ext (s : islot) : Prop := (exists j, s = IExt j) \/ exists t, s = IRo t.

Lemma process_inputs_spec c tx inputs : forall idx m b, adding c tx m -> drop idx (TxInputs tx) = inputs ->
  (forall j, idx <= j -> hin (heap m) c (IIn j) = None) -> (forall r, r ∈ ti_RefTxid <$> inputs -> real_id r /\ r <> Txid tx /\ known m r) ->
  match process_inputs queryTxFromDB c false idx inputs b m with
  | (Err _, m') => stepped c tx (fun _ => True) m m'
  | (Ret b', m') => b' = b /\ stepped c tx is_in m m' /\ (forall r, r ∈ ti_RefTxid <$> inputs -> refers c m' r) /\
      (forall j, idx <= j < idx + length inputs -> is_Some (hin (heap m') c (IIn j)))
  | _ => False
  end.
Proof using db_id.
  induction inputs as [|inp inputs IH]; intros idx m b A Hd Hf Hr; cbn [process_inputs].
  { split_and!; [done|by apply stepped_refl|intros r ?%elem_of_nil; done|cbn; lia]. }
  assert (TxInputs tx !! idx = Some inp) as Hi by (rewrite <- (Nat.add_0_r idx), <- lookup_drop, Hd; done).
  destruct (Hr (ti_RefTxid inp)) as (H1 & H2 & H3); [left|].
  pose proof (with_parent_spec c tx (eq (IIn idx)) (ti_RefTxid inp) Txid _ m A H1 H2 H3 (db_id _) (links_input c tx m idx inp Hi (Hf idx (le_n _)))) as Hm.
  unfold mbnd. destruct (with_parent _ _ _ _ m) as [[o|e|] m1]; [|done|done]. destruct Hm as (-> & [S1 R1] & U1). rewrite orb_false_r.
  assert (stepped c tx is_in m m1) as S1' by (eapply stepped_mono, S1; intros s <-; by eexists).
  specialize (IH (S idx) m1 b (sp_add _ _ _ _ _ S1)). destruct (process_inputs _ _ _ _ _ _ m1) as [[b'|e|] m2].
  all: assert (drop (S idx) (TxInputs tx) = inputs) as Hd1 by (by rewrite <- Nat.add_1_r, <- drop_drop, Hd).
  all: assert (forall j, S idx <= j -> hin (heap m1) c (IIn j) = None) as Hf1
    by (intros j Hj; apply (sp_free _ _ _ _ _ S1); [intros [= ->]; lia|apply Hf; lia]).
  all: assert (forall r, r ∈ ti_RefTxid <$> inputs -> real_id r /\ r <> Txid tx /\ known m1 r) as Hr1
    by (intros r Hin; destruct (Hr r) as (? & ? & ?); [by right|]; split_and!; [done|done|by eapply known_stepped]).
  all: specialize (IH Hd1 Hf1 Hr1).
  3: done.
  2: by eapply stepped_trans; [eapply stepped_mono, S1'|].
  destruct IH as (-> & S2 & R2 & U2). split_and!; [done|by eapply stepped_trans| |].
  - intros r [->|Hin]%elem_of_cons; [|by apply R2]. by eapply refers_stepped; [apply S1|exact S2|].
  - intros j Hj. cbn in Hj. destruct (decide (j = idx)) as [->|]; [|apply U2; lia]. destruct (U1 (IIn idx) ltac:(split; congruence)) as [q Eq]. exists q. by apply S2.
Qed.

(** ** The special nodes *)

Lemma add_empty c tx m p n : adding c tx m -> heap m !! p = Some n -> n_txid n = "" -> n_tx n = None -> emptyTxIDNode m = None ->
  adding c tx (set_emptyNode m (Some p)).
Proof.
  intros A Hn H1 H2 He. pose proof (ad_wf _ _ _ A) as W. split; [|apply A..]. split; try apply W; cbn.
  - intros q [= <-]. eauto.
  - intros q E%(w_empty_conf _ _ W). congruence.
Qed.
Lemma add_stone c tx m p n : adding c tx m -> heap m !! p = Some n -> n_txid n = stoneNodeID -> n_tx n = None -> stoneNode m = None ->
  adding c tx (set_stoneNode m (Some p)).
Proof.
  intros A Hn H1 H2 He. pose proof (ad_wf _ _ _ A) as W. split; [|apply A..]. split; try apply W; cbn.
  - intros q [= <-]. eauto.
  - intros q E%(w_stone_conf _ _ W). congruence.
Qed.

(** A table of confirmed nodes that gained the special node [p]. *)
Lemma special_stepped c tx used m t p n : adding c tx m -> heap m !! p = Some n -> n_txid n = t -> ~ real_id t ->
  (forall q, confirmed m !! t = Some q -> q = p) -> (t = "" -> emptyTxIDNode m = Some p) -> (t = stoneNodeID -> stoneNode m = Some p) ->
  let m' := set_confirmed m (<[t := p]> (confirmed m)) in stepped c tx used m m' /\ listed m' p.
Proof.
  intros A Hn Et Ht Hc He Hs m'. pose proof (ad_wf _ _ _ A) as W. split; [split|].
  - eapply add_conf; [done|exact Hn|done|done| | |by intros ->; apply Ht, A|done|done].
    + destruct (confirmed m !! t) as [q|] eqn:E; [right; f_equal; by apply Hc|by left].
    + destruct (unconfirmed m !! t) as [q|] eqn:E; [|done]. destruct (w_unconf _ _ W _ _ E) as (x & y & _ & _ & _ & _ & Hr). done.
  - intros u q E. cbn. destruct (decide (t = u)) as [->|]; [|by rewrite lookup_insert_ne]. rewrite lookup_insert_eq. f_equal. symmetry. by apply Hc.
  - done.
  - done.
  - done.
  - done.
  - intros q x Hx. by exists x.
  - left. exists t. cbn. by rewrite lookup_insert_eq.
Qed.

Lemma alloc_stepped c tx used m n (m' := (alloc n m).2) : adding c tx m -> adding c tx m' -> (forall c' s, hin (heap m') c' s = hin (heap m) c' s) ->
  (forall q, q <> next m -> heap m' !! q = heap m !! q) -> stepped c tx used m m'.
Proof.
  intros A A' Hi Hk. split; [done|done|done|intros s q E; by rewrite Hi|intros s _ E; by rewrite Hi|intros c' s _; apply Hi|].
  intros q x Hx. exists x. rewrite Hk; [done|]. intros ->. pose proof (w_next _ _ (ad_wf _ _ _ A) _ (ex_intro _ x Hx)). lia.
Qed.

Lemma getEmptyNode_spec c tx used m : adding c tx m ->
  exists e n m', getEmptyNode m = (Ret e, m') /\ stepped c tx used m m' /\ heap m' !! e = Some n /\ n_txid n = "" /\ emptyTxIDNode m' = Some e.
Proof.
  intros A. pose proof (ad_wf _ _ _ A) as W. unfold getEmptyNode. destruct (emptyTxIDNode m) as [e|] eqn:Ee.
  - destruct (w_empty _ _ W _ Ee) as (n & Hn & H1 & H2). exists e, n, m. split_and!; [done|by apply stepped_refl|done..].
  - destruct (NewNode_free "" None) as [N1 N2]. destruct (add_alloc c tx m (NewNode "" None) A) as (A1 & Hp & _ & _ & Hi & Hk); [by apply NewNode_ok|done|done|].
    eexists (next m), _, _. split; [reflexivity|]. split_and!; [|exact Hp|done|done].
    pose proof (alloc_stepped c tx used m _ A A1 Hi Hk) as [S1 S2 S3 S4 S5 S6 S7]. split; [by eapply (add_empty c tx _ (next m))|done..].
Qed.

Lemma getEvidenceRoot_spec c tx used m : adding c tx m ->
  exists e n m', getEvidenceRoot m = (Ret e, m') /\ stepped c tx used m m' /\ heap m' !! e = Some n /\ n_txid n = stoneNodeID /\ stoneNode m' = Some e.
Proof.
  intros A. pose proof (ad_wf _ _ _ A) as W. unfold getEvidenceRoot. destruct (stoneNode m) as [e|] eqn:Ee.
  - destruct (w_stone _ _ W _ Ee) as (n & Hn & H1 & H2). exists e, n, m. split_and!; [done|by apply stepped_refl|done..].
  - destruct (NewNode_free stoneNodeID None) as [N1 N2]. destruct (add_alloc c tx m (NewNode stoneNodeID None) A) as (A1 & Hp & _ & _ & Hi & Hk); [by apply NewNode_ok|done|done|].
    eexists (next m), _, _. split; [reflexivity|]. split_and!; [|exact Hp|done|done].
    pose proof (alloc_stepped c tx used m _ A A1 Hi Hk) as [S1 S2 S3 S4 S5 S6 S7]. split; [by eapply (add_stone c tx _ (next m))|done..].
Qed.

Lemma not_real_empty : ~ real_id "". Proof. by intros []. Qed.
Lemma not_real_stone : ~ real_id stoneNodeID. Proof. by intros []. Qed.

Lemma processEmptyRefTxID_spec c tx m i inp : adding c tx m -> TxInputsExt tx !! i = Some inp -> ref_of inp = "" -> (0 <= ie_RefOffset inp)%Z ->
  hin (heap m) c (IExt i) = None ->
  exists m', processEmptyRefTxID c i inp m = (Ret tt, m') /\ stepped c tx (fun s => s = IExt i \/ exists t, s = IRo t) m m' /\
    (isReadonlyKey tx inp = true -> refers c m' "").
Proof.
  intros A Hi Hr H0 Hf. set (used := fun s => s = IExt i \/ exists t, s = IRo t). unfold processEmptyRefTxID.
  destruct (getEmptyNode_spec c tx (fun _ => False) m A) as (e & en & m1 & E1 & S1 & He & Et & Ee). rewrite (mbnd_ret _ _ _ _ _ E1). unfold mbnd at 1, on_pool at 1.
  pose proof (sp_add _ _ _ _ _ S1) as A1.
  destruct (special_stepped c tx (fun _ => False) m1 "" e en A1 He Et not_real_empty) as [S2 Hl]; [|done|done|].
  { intros q Hq. pose proof (w_empty_conf _ _ (ad_wf _ _ _ A1) _ Hq). congruence. }
  set (m2 := set_confirmed m1 _) in *. pose proof (stepped_trans _ _ _ _ _ _ S1 S2) as S0. assert (stepped c tx used m m2) as S12 by (by eapply stepped_mono, S0). pose proof (sp_add _ _ _ _ _ S2) as A2.
  assert (heap m2 !! e = Some en) as He2 by exact He. destruct (ad_node _ _ _ A2) as (cn & Hc & Hx & Ht & _ & Hl2 & _).
  rewrite (mbnd_ret _ _ _ _ _ (load_ok _ _ _ He2)), (mbnd_ret _ _ _ _ _ (load_ok _ _ _ Hc)), Hx. destruct (isReadonlyKey tx inp).
  - destruct (readonly_stepped c tx m2 e en A2 He2 Hl) as [S3 R3]; [by left|]. apply (stepped_mono _ _ _ used) in S3; [|intros s ->; right; eauto].
    unfold link, htarget in S3, R3. rewrite Hc in S3, R3. rewrite Et in R3 at 2. eexists. split; [reflexivity|]. split; [|intros _; exact R3].
    eapply stepped_trans; [exact S12|exact S3].
  - case_bool_decide as Hb; [by eexists|]. unfold mbnd, update, on_pool. set (h1 := alter _ e (heap m2)).
    assert (framed (heap m2) h1) as F1 by (apply framed_alter; intros x; apply (put_out_frame (OBk (input_bk inp)) (Some c) x)).
    destruct (framed_lookup_fwd _ _ _ _ F1 Hc) as (cn' & Hc' & Sf). pose proof (lookup_lt_Some _ _ _ Hi) as Hlt.
    unfold store_txInExt. rewrite (slot_store_ok _ _ _ _ _ cn'); [|exact Hc'|lia|by rewrite Nat2Z.id, (sf_inExt _ _ Sf), Hl2].
    eexists. split; [reflexivity|]. split; [|done]. eapply stepped_trans; [exact S12|]. rewrite Nat2Z.id.
    assert (target cn (IExt i) = OBk (input_bk inp)) as Etg by (cbn; rewrite Hx; cbn; rewrite Hi; by rewrite Hr).
    destruct (link_stepped c tx m2 (IExt i) e cn en A2 Hc He2 Hl) as [[S3 _] _].
    + cbn. by rewrite Hl2.
    + by rewrite Etg.
    + apply (sp_free _ _ _ _ _ S0); [tauto|exact Hf].
    + unfold htarget. rewrite Hc. cbn [from_option]. rewrite Etg. unfold hout. rewrite He2. cbn. by destruct (bucketKeyToNode en !! input_bk inp); [destruct Hb; eauto|].
    + cbn. rewrite Hx. exists inp. split_and!; [done|done|]. by rewrite Et.
    + done.
    + apply (stepped_mono _ _ _ used) in S3; [|intros s <-; by left]. unfold link, htarget in S3. rewrite Hc in S3. cbn [from_option] in S3. rewrite Etg in S3. exact S3.
Qed.

Definition real_refs (inputs : list TxInputExt) : list string := filter (fun t => t <> "") (ref_of <$> inputs).

(** An input that is always linked; the others are first writes of a key. *)
Definition anchored (tx : Transaction) (inp : TxInputExt) : Prop := ref_of inp <> "" \/ isReadonlyKey tx inp = true.

Lemma real_refs_cons inp inputs r : r ∈ real_refs (inp :: inputs) <-> (r = ref_of inp /\ ref_of inp <> "") \/ r ∈ real_refs inputs.
Proof. unfold real_refs. rewrite !list_elem_of_filter. cbn. rewrite elem_of_cons. naive_solver. Qed.

Lemma process_inputs_ext_spec c tx inputs : forall idx m b, adding c tx m -> drop idx (TxInputsExt tx) = inputs ->
  (forall j, idx <= j -> hin (heap m) c (IExt j) = None) -> (forall r, r ∈ real_refs inputs -> real_id r /\ r <> Txid tx /\ known m r) ->
  Forall (fun inp => ref_of inp = "" -> (0 <= ie_RefOffset inp)%Z) inputs ->
  match process_inputs_ext queryTxFromDB c false idx inputs b m with
  | (Err _, m') => stepped c tx (fun _ => True) m m'
  | (Ret b', m') => b' = b /\ stepped c tx is_ext m m' /\ forall inp, inp ∈ inputs -> anchored tx inp -> refers c m' (ref_of inp)
  | _ => False
  end.
Proof using db_id.
  induction inputs as [|inp inputs IH]; intros idx m b A Hd Hf Hr Hfirst; cbn [process_inputs_ext].
  { split_and!; [done|by apply stepped_refl|]. intros x ?%elem_of_nil. done. }
  apply Forall_cons in Hfirst as [H0 Hfirst]. assert (TxInputsExt tx !! idx = Some inp) as Hi by (rewrite <- (Nat.add_0_r idx), <- lookup_drop, Hd; done).
  assert (drop (S idx) (TxInputsExt tx) = inputs) as Hd' by (rewrite <- Nat.add_1_r, <- drop_drop, Hd; done).
  assert (forall b' m1, stepped c tx (fun s => s = IExt idx \/ exists t, s = IRo t) m m1 -> (anchored tx inp -> refers c m1 (ref_of inp)) ->
    match process_inputs_ext queryTxFromDB c false (S idx) inputs b' m1 with
    | (Err _, m') => stepped c tx (fun _ => True) m m'
    | (Ret b2, m') => b2 = b' /\ stepped c tx is_ext m m' /\ forall x, x ∈ inp :: inputs -> anchored tx x -> refers c m' (ref_of x)
    | _ => False
    end) as Hnext.
  { intros b' m1 S1 R1. assert (stepped c tx is_ext m m1) as S1' by (eapply stepped_mono, S1; intros s [->|[t ->]]; [left|right]; eauto).
    assert (forall j, S idx <= j -> hin (heap m1) c (IExt j) = None) as Hf1
      by (intros j Hj; apply (sp_free _ _ _ _ _ S1); [intros [[= ->]|[t [=]]]; lia|apply Hf; lia]).
    assert (forall r, r ∈ real_refs inputs -> real_id r /\ r <> Txid tx /\ known m1 r) as Hr1
      by (intros r Hin; destruct (Hr r) as (? & ? & ?); [apply real_refs_cons; by right|]; split_and!; [done|done|by eapply known_stepped]).
    specialize (IH (S idx) m1 b' (sp_add _ _ _ _ _ S1) Hd' Hf1 Hr1 Hfirst).
    destruct (process_inputs_ext _ _ _ _ _ _ m1) as [[b2|e|] m2]; [|by eapply stepped_trans; [eapply stepped_mono, S1'|]|done].
    destruct IH as (-> & S2 & R2). split_and!; [done|by eapply stepped_trans|]. intros x [->|Hin]%elem_of_cons Hx; [|by apply R2].
    eapply refers_stepped; [apply S1|exact S2|]. by apply R1. }
  destruct (is_empty_string (ref_of inp)) eqn:Ee.
  - apply is_empty_eq in Ee. destruct (processEmptyRefTxID_spec c tx m idx inp A Hi Ee (H0 Ee) (Hf idx (le_n _))) as (m1 & E1 & S1 & R1).
    rewrite (mbnd_ret _ _ _ _ _ E1). apply Hnext; [done|]. rewrite Ee. intros [?|Hro]; [done|by apply R1].
  - assert (ref_of inp <> "") as Hne by (intros E%is_empty_eq; congruence). destruct (Hr (ref_of inp)) as (H1 & H2 & H3); [apply real_refs_cons; by left|].
    pose proof (with_parent_spec c tx _ (ref_of inp) (fun _ => ref_of inp) _ m A H1 H2 H3 ltac:(done) (links_input_ext c tx m idx inp Hi Ee (Hf idx (le_n _)))) as Hm.
    unfold mbnd. destruct (with_parent _ _ _ _ m) as [[o|e|] m1]; [|done|done]. destruct Hm as (-> & [S1 R1] & _). rewrite orb_false_r. by apply Hnext.
Qed.

(** A transaction without inputs is listed at once. *)
Lemma processEvidenceNode_spec c tx m : adding c tx m ->
  exists m1, processEvidenceNode c m = (Ret tt, set_unconfirmed m1 (<[Txid tx := c]> (unconfirmed m1))) /\ stepped c tx is_ext m m1 /\ refers c m1 stoneNodeID.
Proof.
  intros A. unfold processEvidenceNode. destruct (getEvidenceRoot_spec c tx is_ext m A) as (e & en & m1 & E1 & S1 & He & Et & Ee). rewrite (mbnd_ret _ _ _ _ _ E1).
  pose proof (sp_add _ _ _ _ _ S1) as A1. destruct (ad_node _ _ _ A1) as (cn & Hc & Hx & Ht & _).
  rewrite (mbnd_ret _ _ _ _ _ (load_ok _ _ _ He)), (mbnd_ret _ _ _ _ _ (load_ok _ _ _ Hc)). unfold mbnd, on_pool, update. rewrite Ht.
  destruct (special_stepped c tx is_ext m1 stoneNodeID e en A1 He Et not_real_stone) as [S2 Hl]; [|done|done|].
  { intros q Hq. pose proof (w_stone_conf _ _ (ad_wf _ _ _ A1) _ Hq). congruence. }
  destruct (readonly_stepped c tx _ e en (sp_add _ _ _ _ _ S2) He Hl) as [S3 R3]; [by right; left|]. apply (stepped_mono _ _ _ is_ext) in S3; [|intros s ->; right; eauto].
  unfold link, htarget in S3, R3. cbn [heap set_confirmed] in S3, R3. rewrite Hc in S3, R3. cbn [from_option target] in S3, R3. rewrite Ht, Et in S3, R3.
  eexists. split; [|split; [eapply stepped_trans; [exact S1|]; eapply stepped_trans; [exact S2|exact S3]|exact R3]]. cbn. by rewrite Et.
Qed.

(** ** Listing the node *)

Definition listed_at (c : nat) (tx : Transaction) (m : Mempool) : Mempool :=
  set_bkNodes (set_unconfirmed m (<[Txid tx := c]> (unconfirmed m))) (foldl (put_bk (Txid tx) c) (bucketKeyNodes m) (tx_bks (Some tx))).

Lemma listed_at_ok c tx m : adding c tx m -> (forall r, r ∈ refs tx -> refers c m r) -> (forall i, i < length (TxInputs tx) -> is_Some (hin (heap m) c (IIn i))) ->
  pool_ok (listed_at c tx m).
Proof.
  intros A Hr Hsp. pose proof (ad_wf _ _ _ A) as W. destruct (ad_node _ _ _ A) as (n & Hn & Hx & Ht & _). destruct (ad_new _ _ _ A) as [Hc Hu].
  assert (forall t p, unconfirmed m !! t = Some p -> t <> Txid tx /\ p <> c) as Hne.
  { intros t p E. split; [congruence|]. intros ->. assert (c < c); [|lia]. apply (ad_order _ _ _ A). by exists t. }
  assert (forall t p, unconfirmed (listed_at c tx m) !! t = Some p <-> (t = Txid tx /\ p = c) \/ unconfirmed m !! t = Some p) as Eu.
  { intros t p. cbn. rewrite lookup_insert_Some. split; [intros [[-> ->]|[_ E]]; auto|]. intros [[-> ->]|E]; [by left|]. right. split; [|done]. apply Hne in E as [? _]. congruence. }
  assert (forall p, unconf m p -> unconf (listed_at c tx m) p) as Huu by (intros p [t E]; exists t; apply Eu; by right).
  split; try apply W.
  - intros t p [[-> ->]|E]%Eu; [|by apply (w_unconf _ _ W)]. exists n, tx. split_and!; [done..|apply A].
  - intros t p E. change (confirmed m !! t = Some p) in E. cbn. rewrite lookup_insert_ne by congruence. by apply (w_disj _ _ W) in E.
  - intros c' s p E. left. destruct (w_child _ _ W _ _ _ E) as [|[= <-]]; [by apply Huu|]. exists (Txid tx). apply Eu. by left.
  - intros c' s p E. destruct (w_parent _ _ W _ _ _ E); [by left|right; by apply Huu].
  - intros t p x [[-> ->]|E]%Eu _ Hp r Hin.
    + assert (x = tx) as -> by (change (node_tx (heap m) c = Some x) in Hp; unfold node_tx in Hp; rewrite Hn in Hp; cbn in Hp; congruence). by apply Hr.
    + eapply (w_refs _ _ W); [done| |done|done]. intros [= ->]. by apply Hne in E as [_ ?].
  - intros t p x i [[-> ->]|E]%Eu _ Hp Hi.
    + assert (x = tx) as -> by (change (node_tx (heap m) c = Some x) in Hp; unfold node_tx in Hp; rewrite Hn in Hp; cbn in Hp; congruence). by apply Hsp.
    + eapply (w_spends _ _ W); [done| |done|done]. intros [= ->]. by apply Hne in E as [_ ?].
  - intros k t p. rewrite Eu. cbn [bucketKeyNodes listed_at set_bkNodes]. rewrite bk_at_put. change (heap (listed_at c tx m)) with (heap m).
    assert (node_tx (heap m) c = Some tx) as Hct by (unfold node_tx; by rewrite Hn). case_decide as Hd.
    + destruct Hd as [-> Hk]. split; [intros [= <-]; rewrite Hct; auto|]. intros ([[_ ->]|E] & _); [done|]. by apply Hne in E as [? _].
    + rewrite (w_index _ _ W). split.
      * intros (E & _ & Hk). split_and!; [by right|done|done].
      * intros ([[-> ->]|E] & _ & Hk); [rewrite Hct in Hk; naive_solver|]. split_and!; [done| |done]. intros [= ->]. by apply Hne in E as [_ ?].
Qed.

Lemma pruneSlice_none p n m get set k : heap m !! p = Some n -> length (get n) = k -> set n (get n) = n -> pruneSlice p get set k m = (Ret tt, m).
Proof.
  intros Hn Hl Hs. unfold pruneSlice. rewrite (mbnd_ret _ _ _ _ _ (load_ok _ _ _ Hn)), Hl, Nat.sub_diag. cbn [seq each]. unfold mbnd, mpure, update, on_pool.
  f_equal. rewrite alter_id; [by destruct m|]. intros x Hx. replace x with n by congruence. unfold grow. rewrite firstn_all2 by lia.
  replace (Z.to_nat (Z.of_nat k - Z.of_nat (length (get n)))) with 0 by lia. cbn. by rewrite app_nil_r.
Qed.

(** The last part of [putTx], when all parents are known. *)
Lemma putTx_end c tx m n : adding c tx m -> (forall r, r ∈ refs tx -> refers c m r) -> n_txid n = Txid tx ->
  (do! on_pool (enlist false c (n_txid n)) in do! processNodeOutputs fuel c tx false in putBucketKey c) m = (Ret tt, listed_at c tx m).
Proof.
  intros A Hr Ht. pose proof (ad_wf _ _ _ A) as W. destruct (ad_node _ _ _ A) as (cn & Hc & Hx & Hct & _ & _ & Ho & Hoe).
  unfold mbnd at 1, on_pool at 1. unfold enlist. rewrite Ht, (w_orphans _ _ W), delete_empty. set (m1 := set_orphans _ _).
  assert (heap m1 !! c = Some cn) as Hc1 by exact Hc.
  unfold processNodeOutputs. unfold mbnd at 1. rewrite (mbnd_ret _ _ _ _ _ (pruneSlice_none c cn m1 txOutputs set_txOut _ Hc1 Ho ltac:(by destruct cn))).
  rewrite (mbnd_ret _ _ _ _ _ (pruneSlice_none c cn m1 txOutputsExt set_txOutExt _ Hc1 Hoe ltac:(by destruct cn))). rewrite (checkAndMoveOrphan_none fuel c cn m1 eq_refl Hc1).
  unfold putBucketKey. rewrite (mbnd_ret _ _ _ _ _ (load_ok _ _ _ Hc1)). unfold on_pool. rewrite Hx, Hct. f_equal. pose proof (w_orphans _ _ W) as Eo. unfold listed_at, m1. clear -Eo. destruct m. cbn in *. by subst.
Qed.

Lemma start_adding m tx (c := next m) (m' := (alloc (NewNode (Txid tx) (Some tx)) m).2) : pool_ok m -> real_id (Txid tx) -> HasTx (Txid tx) m = false ->
  adding c tx m' /\ (forall s, hin (heap m') c s = None) /\ (forall q, q <> c -> heap m' !! q = heap m !! q).
Proof.
  intros W Hr Hh. unfold HasTx in Hh. apply orb_false_iff in Hh as [[Hu Hc]%orb_false_iff _]. apply bool_decide_eq_false in Hu, Hc.
  apply eq_None_not_Some in Hu, Hc. assert (forall t p, unconfirmed m !! t = Some p -> p < c) as Hlt.
  { intros t p E. apply (w_next _ _ W). destruct (w_unconf _ _ W _ _ E) as (n & x & Hn & _). eauto. }
  assert (pool_wf (Some c) m) as Wc.
  { split; try apply W.
    - intros c' s p E. left. by destruct (w_child _ _ W _ _ _ E).
    - intros t p x Eu _ Hx r Hin. by apply (w_refs _ _ W _ _ _ Eu ltac:(done) Hx).
    - intros t p x i Eu _ Hx Hi'. by apply (w_spends _ _ W _ _ _ _ Eu ltac:(done) Hx).
    - intros k t p. rewrite (w_index _ _ W). split; [|naive_solver]. intros (Eu & _ & Hk). split_and!; [done| |done]. intros [= <-]. apply Hlt in Eu. lia. }
  destruct (NewNode_free (Txid tx) (Some tx)) as [N1 N2]. destruct (alloc_wf _ m _ Wc (NewNode_ok (Txid tx) (Some tx) ltac:(by intros E; destruct Hr)) N1 N2) as (W' & Hf & Hi & Hk).
  split_and!; [|intros s; rewrite Hi; unfold hin, c; by rewrite Hf|done]. split; [done| |done| |done].
  - eexists. split; [cbn; by rewrite lookup_insert_eq|]. cbn. by rewrite !length_replicate.
  - intros p [t E]. by eapply Hlt.
Qed.

(** What [PutTx] may assume of a transaction: ids are hashes, every transaction
    it refers to is in the pool or in the ledger, and the offset it gives for a
    key never written is not negative. *)
Record new_tx (m : Mempool) (tx : Transaction) : Prop := {
  nt_id : real_id (Txid tx);
  nt_refs : forall r, r ∈ refs tx -> real_id r /\ r <> Txid tx /\ known m r;
  nt_first : Forall (fun inp => ref_of inp = "" -> (0 <= ie_RefOffset inp)%Z) (TxInputsExt tx)
}.

Lemma processNodeInputs_spec c tx m : adding c tx m -> (forall s, hin (heap m) c s = None) -> (forall r, r ∈ refs tx -> real_id r /\ r <> Txid tx /\ known m r) ->
  Forall (fun inp => ref_of inp = "" -> (0 <= ie_RefOffset inp)%Z) (TxInputsExt tx) ->
  match processNodeInputs queryTxFromDB c tx false m with
  | (Err _, m') => stepped c tx (fun _ => True) m m'
  | (Ret b, m') => b = false /\ stepped c tx (fun _ => True) m m' /\ (forall r, r ∈ refs tx -> refers c m' r) /\
      (forall inp, inp ∈ TxInputsExt tx -> anchored tx inp -> refers c m' (ref_of inp)) /\
      (forall i, i < length (TxInputs tx) -> is_Some (hin (heap m') c (IIn i)))
  | _ => False
  end.
Proof using db_id.
  intros A Hf Hr Hfirst. unfold processNodeInputs, processTxInputs, processTxInputsExt.
  pose proof (process_inputs_spec c tx (TxInputs tx) 0 m false A eq_refl (fun j _ => Hf (IIn j))) as H1. unfold mbnd.
  specialize (H1 (fun r Hin => Hr r (proj2 (elem_of_app _ _ _) (or_introl Hin)))).
  destruct (process_inputs _ _ _ _ _ _ m) as [[b1|e|] m1]; [|done|done]. destruct H1 as (-> & S1 & R1 & U1). pose proof (sp_add _ _ _ _ _ S1) as A1.
  pose proof (process_inputs_ext_spec c tx (TxInputsExt tx) 0 m1 false A1 eq_refl) as H2.
  assert (forall j, 0 <= j -> hin (heap m1) c (IExt j) = None) as Hf1 by (intros j _; apply (sp_free _ _ _ _ _ S1); [by intros [? ?]|apply Hf]).
  assert (forall r, r ∈ real_refs (TxInputsExt tx) -> real_id r /\ r <> Txid tx /\ known m1 r) as Hr1.
  { intros r Hin. destruct (Hr r) as (? & ? & ?); [apply elem_of_app; by right|]. split_and!; [done|done|by eapply known_stepped]. }
  specialize (H2 Hf1 Hr1 Hfirst). destruct (process_inputs_ext _ _ _ _ _ _ m1) as [[b2|e|] m2]; [|by eapply stepped_trans; [eapply stepped_mono, S1|]|done]. destruct H2 as (-> & S2 & R2). split_and!; [done| | | |].
  - eapply stepped_trans; eapply stepped_mono; [|exact S1| |exact S2]; done.
  - intros r [Hin|[Hne (inp & -> & Hin)%list_elem_of_fmap]%list_elem_of_filter]%elem_of_app; [|apply R2; [done|by left]].
    eapply refers_stepped; [exact A1|exact S2|]. by apply R1.
  - exact R2.
  - intros i Hi. destruct (U1 i) as [q Eq]; [lia|]. exists q. by apply S2.
Qed.

(** The transactions of the pool after [m'] was built on [m] and [tx] listed. *)
Lemma listed_at_txs c tx m m' : pool_ok m -> adding c tx m' -> unconfirmed m' = unconfirmed m ->
  (forall q x, heap m !! q = Some x -> q <> c -> exists x', heap m' !! q = Some x' /\ n_tx x' = n_tx x) ->
  forall u, pool_tx (listed_at c tx m') u = if decide (u = Txid tx) then Some tx else pool_tx m u.
Proof.
  intros W A Eu Hold u. destruct (ad_node _ _ _ A) as (n & Hn & Hx & _). unfold pool_tx. cbn. rewrite Eu. case_decide as Hu.
  - subst u. rewrite lookup_insert_eq. cbn. unfold node_tx. by rewrite Hn.
  - rewrite lookup_insert_ne by congruence. destruct (unconfirmed m !! u) as [q|] eqn:Eq; [|done]. cbn. unfold node_tx.
    destruct (w_unconf _ _ W _ _ Eq) as (x & y & Hq & _). destruct (Hold _ _ Hq) as (x' & Hx' & Et).
    + intros ->. assert (c < c); [|lia]. apply (ad_order _ _ _ A). exists u. by rewrite Eu.
    + rewrite Hx', Hq. exact Et.
Qed.

(** Before the node is listed the transactions are those of [m]. *)
Lemma kept_txs m m0 m' c tx : pool_ok m -> adding c tx m0 -> unconfirmed m0 = unconfirmed m -> (forall q, q <> c -> heap m0 !! q = heap m !! q) ->
  stepped c tx (fun _ => True) m0 m' -> forall u, pool_tx m' u = pool_tx m u.
Proof.
  intros W A Eu Hk S u. unfold pool_tx. rewrite (sp_unconf _ _ _ _ _ S), Eu. destruct (unconfirmed m !! u) as [q|] eqn:Eq; [|done]. cbn. unfold node_tx.
  destruct (w_unconf _ _ W _ _ Eq) as (x & y & Hq & _). assert (q <> c) as Hqc.
  { intros ->. assert (c < c); [|lia]. apply (ad_order _ _ _ A). exists u. by rewrite Eu. }
  rewrite <- Hk in Hq by done. destruct (sp_old _ _ _ _ _ S _ _ Hq) as (x' & Hx' & E & _). rewrite Hx', <- Hk, Hq by done. exact E.
Qed.

(** A transaction that only writes keys for the first time. *)
Definition first_writer (tx : Transaction) : Prop :=
  TxInputs tx = [] /\ TxInputsExt tx <> [] /\ Forall (fun inp => ref_of inp = "" /\ isReadonlyKey tx inp = false) (TxInputsExt tx).

Lemma first_writer_or tx : first_writer tx \/ (TxInputs tx = [] /\ TxInputsExt tx = []) \/ refs tx <> [] \/ exists inp, inp ∈ TxInputsExt tx /\ anchored tx inp.
Proof.
  unfold first_writer, refs. destruct (TxInputs tx) as [|i l]; [|right; right; left; intros [=]]. cbn [fmap list_fmap app]. destruct (TxInputsExt tx) as [|x xs] eqn:Ex; [right; by left|].
  destruct (decide (Forall (fun inp => ref_of inp = "" /\ isReadonlyKey tx inp = false) (x :: xs))) as [Hf|Hf]; [by left|]. right; right; right.
  apply not_Forall_Exists in Hf; [|apply _]. apply Exists_exists in Hf as (inp & Hin & Hn). exists inp. split; [done|]. unfold anchored.
  destruct (decide (ref_of inp = "")); [|by left]. right. destruct (isReadonlyKey tx inp) eqn:Ei; [done|]. exfalso. by apply Hn.
Qed.

Lemma listed_at_lost c tx m m' u : pool_ok m -> adding c tx m' -> unconfirmed m' = unconfirmed m -> (forall c' s, c' <> c -> hin (heap m') c' s = hin (heap m) c' s) ->
  lost (listed_at c tx m') u -> lost m u \/ (u = Txid tx /\ forall s, hin (heap m') c s = None).
Proof.
  intros W A Eu Ho (p & E & Hno). cbn in E. rewrite Eu in E. apply lookup_insert_Some in E as [[<- <-]|[Hne E]]; [by right|]. left. exists p. split; [done|].
  intros s. rewrite <- Ho; [apply Hno|]. intros ->. assert (c < c); [|lia]. apply (ad_order _ _ _ A). exists u. by rewrite Eu.
Qed.

Lemma putTx_run m tx : pool_ok m -> new_tx m tx -> HasTx (Txid tx) m = false ->
  match putTx queryTxFromDB fuel tx false m with
  | (Ret _, m') => pool_ok m' /\ (forall u, pool_tx m' u = if decide (u = Txid tx) then Some tx else pool_tx m u) /\
      (forall u, lost m' u -> lost m u \/ (u = Txid tx /\ first_writer tx))
  | (Err _, m') => (forall u, pool_tx m' u = pool_tx m u) /\ exists g, pool_wf g m'
  | (Panic, _) => False
  end.
Proof using db_id.
  intros W [Hid Hrefs Hfirst] Hh.
  destruct (start_adding m tx W Hid Hh) as (A0 & Hf0 & Hk0). set (m0 := (alloc _ m).2) in *. set (c := next m) in *.
  unfold putTx. assert (node_for tx m = (Ret c, m0)) as En by (unfold node_for; by rewrite (w_orphans _ _ W), lookup_empty). rewrite (mbnd_ret _ _ _ _ _ En).
  destruct (ad_node _ _ _ A0) as (n & Hn & _ & Ht & _). rewrite (mbnd_ret _ _ _ _ _ (load_ok _ _ _ Hn)).
  assert (forall m', stepped c tx (fun _ => True) m0 m' -> (forall r, r ∈ refs tx -> refers c m' r) -> (first_writer tx \/ exists r, refers c m' r) ->
    (forall i, i < length (TxInputs tx) -> is_Some (hin (heap m') c (IIn i))) ->
    pool_ok (listed_at c tx m') /\ (forall u, pool_tx (listed_at c tx m') u = if decide (u = Txid tx) then Some tx else pool_tx m u) /\
    (forall u, lost (listed_at c tx m') u -> lost m u \/ (u = Txid tx /\ first_writer tx))) as Hend.
  { intros m' S R Hroot Hsp. split_and!; [by apply listed_at_ok; [apply S|..]| |].
    - eapply (listed_at_txs c tx m m' W); [apply S|apply (sp_unconf _ _ _ _ _ S)|].
      intros q x Hq Hqc. rewrite <- Hk0 in Hq by done. destruct (sp_old _ _ _ _ _ S _ _ Hq) as (x' & Hx' & E & _). eauto.
    - intros u [|[-> Hno]]%(listed_at_lost c tx m m' u W (sp_add _ _ _ _ _ S) (sp_unconf _ _ _ _ _ S)); [by left| |].
      + right. split; [done|]. destruct Hroot as [|(r & s & q & Eq & _)]; [done|]. by rewrite Hno in Eq.
      + intros c' s Hc'. rewrite (sp_others _ _ _ _ _ S) by done. unfold hin. by rewrite Hk0. }
  assert (forall m', stepped c tx (fun _ => True) m0 m' -> (forall u, pool_tx m' u = pool_tx m u) /\ exists g, pool_wf g m') as Hrefused.
  { intros m' S. split; [|exists (Some c); apply (ad_wf _ _ _ (sp_add _ _ _ _ _ S))]. by apply (kept_txs m m0 m' c tx). }
  destruct (bool_decide (TxInputs tx = []) && bool_decide (TxInputsExt tx = [])) eqn:Eev.
  - apply andb_true_iff in Eev as [E1%bool_decide_eq_true E2%bool_decide_eq_true]. destruct (processEvidenceNode_spec c tx m0 A0) as (m1 & Ee & S1 & Rs).
    rewrite (mbnd_ret _ _ _ _ _ Ee). unfold processNodeInputs, processTxInputs, processTxInputsExt. rewrite E1, E2. cbn [process_inputs process_inputs_ext].
    unfold mbnd at 1 2 3, mpure at 1 2 3. cbn [orb]. set (m2 := set_unconfirmed m1 _).
    assert (forall r, r ∈ refs tx -> refers c m1 r) as R1 by (intros r; unfold refs; rewrite E1, E2; by intros ?%elem_of_nil).
    assert (enlist false c (n_txid n) m2 = enlist false c (n_txid n) m1) as Een by (unfold enlist, m2; cbn; by rewrite Ht, insert_insert_eq).
    pose proof (putTx_end c tx m1 n (sp_add _ _ _ _ _ S1) R1 Ht) as Hp. unfold mbnd at 1, on_pool at 1 in Hp. unfold mbnd at 1, on_pool at 1. rewrite Een, Hp.
    apply Hend; [by eapply stepped_mono, S1|done|right; eauto|rewrite E1; cbn; lia].
  - unfold mbnd at 1, mpure at 1. assert (forall r, r ∈ refs tx -> real_id r /\ r <> Txid tx /\ known m0 r) as Hr0 by exact Hrefs.
    pose proof (processNodeInputs_spec c tx m0 A0 Hf0 Hr0 Hfirst) as Hm. unfold mbnd at 1. destruct (processNodeInputs _ c tx false m0) as [[b|e|] m1]; [|by apply Hrefused|done].
    destruct Hm as (-> & S1 & R1 & R2 & U1). rewrite (putTx_end c tx m1 n (sp_add _ _ _ _ _ S1) R1 Ht). apply Hend; [done|done| |done].
    destruct (first_writer_or tx) as [|[[E1 E2]|[Hr|(inp & Hin & Ha)]]]; [by left|rewrite E1, E2 in Eev; done| |right; exists (ref_of inp); by apply R2].
    right. destruct (refs tx) as [|r rs]; [done|]. exists r. apply R1. left.
Qed.

(** C7: adding a transaction keeps the pool in order.  [PutTx] of a transaction
    whose references are known, which refers neither to itself nor by an identifier
    the pool uses for itself, and which gives no negative offset for a key that was
    never written ([new_tx]), never panics; when it accepts the transaction,
    the pool holds it besides those it held and is in order again, the new
    transaction being linked to all it refers to; it can only be lost, as a
    transaction no walk of the pool reaches, when all it does is to write keys
    for the first time.  When it refuses the transaction, the pool holds what it
    held, and is in order but for one node that is in no table.  With a negative
    offset it does not hold: [negative_offset_panics_later]. *)
Theorem PutTx_adds m tx : pool_ok m -> new_tx m tx ->
  match PutTx queryTxFromDB fuel tx m with
  | (Ret _, m') => pool_ok m' /\ (forall u, pool_tx m' u = if decide (u = Txid tx) then Some tx else pool_tx m u) /\
      (forall u, lost m' u -> lost m u \/ (u = Txid tx /\ first_writer tx))
  | (Err _, m') => (forall u, pool_tx m' u = pool_tx m u) /\ exists g, pool_wf g m'
  | (Panic, _) => False
  end.
Proof using db_id.
  intros W N. unfold PutTx. destruct (Full m); [eauto|]. destruct (HasTx (Txid tx) m) eqn:Hh; [eauto|]. by apply putTx_run.
Qed.
End Put.
