(* ===== verification/MempoolRange.v ===== *)
(** * The memory pool: reading it in order

    [Range] visits the pool from the confirmed nodes and calls its client for a
    node once all its parents were visited.  From a pool in order it is a
    topological sort. *)

From Stdlib Require Import ZArith Lia.
From stdpp Require Import base gmap strings list numbers sorting.
From S2P Require Import Prelude GoValues Sandbox LedgerHash XModel Mempool MempoolGraph MempoolSpec MempoolConfirm.

Set Default Proof Using "Type".

(** ** Occurrences *)

Section Occurrences.
Context {A : Type} `{EqDecision A}.
Definition occ (x : A) (l : list A) : nat := length (filter (fun y => y = x) l).
Definition within (V : list A) (l : list A) : nat := length (filter (fun y => y ∈ V) l).

Lemma occ_cons x y l : occ x (y :: l) = (if decide (y = x) then 1 else 0) + occ x l.
Proof. unfold occ. rewrite filter_cons. by case_decide. Qed.
Lemma occ_app x l1 l2 : occ x (l1 ++ l2) = occ x l1 + occ x l2.
Proof. unfold occ. by rewrite filter_app, length_app. Qed.
Lemma occ_pos x l : 0 < occ x l <-> x ∈ l.
Proof.
  induction l as [|y l IH]; [split; [cbn; lia|by intros ?%elem_of_nil]|]. rewrite occ_cons, elem_of_cons. case_decide; naive_solver lia.
Qed.

Lemma occ_zero x l : x ∉ l -> occ x l = 0.
Proof. intros H. destruct (occ x l) eqn:E; [done|]. exfalso. apply H, occ_pos. lia. Qed.

Lemma within_le V l : within V l <= length l.
Proof. apply length_filter. Qed.
Lemma within_snoc V p l : p ∉ V -> within (V ++ [p]) l = within V l + occ p l.
Proof.
  intros Hp. unfold within, occ. induction l as [|y l IH]; [done|]. rewrite !filter_cons.
  destruct (decide (y = p)) as [->|Hy].
  - rewrite (decide_True (P := p ∈ V ++ [p])), (decide_False (P := p ∈ V)) by set_solver. cbn. lia.
  - destruct (decide (y ∈ V)); [rewrite (decide_True (P := y ∈ V ++ [p]))|rewrite (decide_False (P := y ∈ V ++ [p]))]; set_solver by lia.
Qed.
Lemma within_all V l : within V l = length l <-> forall x, x ∈ l -> x ∈ V.
Proof.
  unfold within. induction l as [|y l IH]; [split; [by intros _ x ?%elem_of_nil|done]|]. rewrite filter_cons. pose proof (length_filter (fun y => y ∈ V) l). split.
  - case_decide; cbn; intros E; [|lia]. intros x [->|Hx]%elem_of_cons; [done|]. apply IH; [lia|done].
  - intros Hx. rewrite decide_True by (apply Hx; left). cbn. f_equal. apply IH. intros x ?. apply Hx. by right.
Qed.
End Occurrences.

Lemma filter_app_cons_inv {A} (P : A -> Prop) `{forall x, Decision (P x)} l l1 x l2 : filter P l = l1 ++ x :: l2 ->
  exists p1 p2, l = p1 ++ x :: p2 /\ l1 = filter P p1.
Proof.
  revert l1. induction l as [|y l IH]; intros l1 E; [by destruct l1|]. rewrite filter_cons in E. case_decide as Hy.
  - destruct l1 as [|z l1]; injection E as -> E; [by exists [], l|]. destruct (IH _ E) as (p1 & p2 & -> & ->). exists (z :: p1), p2. split; [done|].
    by rewrite filter_cons_True.
  - destruct (IH _ E) as (p1 & p2 & -> & ->). exists (y :: p1), p2. split; [done|]. by rewrite filter_cons_False.
Qed.

(** ** The two sides of the links *)

(** All that is handed out. *)
Definition walk `{O : MapOrder} (m : Mempool) : list Transaction := Range (fun tx l => (true, l ++ [tx])) m [].

Section Sides.
Context `{O : MapOrder}.

Definition out_slots (n : Node) : list oslot :=
  (OOut <$> seq 0 (length (txOutputs n))) ++ (OExt <$> seq 0 (length (txOutputsExt n))) ++
  (ORo <$> map_keys (readonlyOutputs n)) ++ (OBk <$> map_keys (bucketKeyToNode n)).
Definition in_slots (n : Node) : list islot :=
  (IIn <$> seq 0 (length (txInputs n))) ++ (IExt <$> seq 0 (length (txInputsExt n))) ++ (IRo <$> map_keys (readonlyInputs n)).

Lemma omap_seq (l : list (option nat)) k : omap id l = omap (fun i => mjoin (l !! (i - k))) (seq k (length l)).
Proof.
  revert k. induction l as [|x l IH]; intros k; [done|]. cbn. rewrite Nat.sub_diag. cbn.
  assert (omap (fun i => mjoin ((x :: l) !! (i - k))) (seq (S k) (length l)) = omap (fun i => mjoin (l !! (i - S k))) (seq (S k) (length l))) as ->.
  { apply list_omap_ext, Forall_Forall2_diag, Forall_forall. intros i Hi%elem_of_seq. replace (i - k) with (S (i - S k)) by lia. done. }
  rewrite <- IH. by destruct x.
Qed.
Lemma omap_seq_0 (l : list (option nat)) : omap id l = omap (fun i => mjoin (l !! i)) (seq 0 (length l)).
Proof. rewrite (omap_seq l 0). apply list_omap_ext, Forall_Forall2_diag, Forall_forall. intros i _. by rewrite Nat.sub_0_r. Qed.

Lemma range_order_lookup {A} (m : gmap string A) : Forall (fun kv => m !! kv.1 = Some kv.2) (range_order m).
Proof. rewrite range_order_perm. apply Forall_forall. intros kv. apply elem_of_map_to_list'. Qed.
Lemma map_values_keys (m : gmap string nat) : map_values m = omap (fun k => m !! k) (map_keys m).
Proof.
  unfold map_values, map_keys. pose proof (range_order_lookup m) as Hf. induction (range_order m) as [|[k v] l IH]; [done|].
  apply Forall_cons in Hf as [Hk Hf]. cbn in *. rewrite Hk. by rewrite <- IH.
Qed.
Lemma map_keys_NoDup (m : gmap string nat) : NoDup (map_keys m).
Proof. unfold map_keys. rewrite range_order_perm. apply NoDup_fst_map_to_list. Qed.
Lemma list_omap_fmap {A B C} (f : A -> B) (g : B -> option C) (l : list A) : omap g (f <$> l) = omap (fun a => g (f a)) l.
Proof. induction l as [|a l IH]; [done|]. cbn. by rewrite IH. Qed.

Lemma out_nodes_slots n : out_nodes n = omap (out_at n) (out_slots n).
Proof.
  unfold out_nodes, out_slots. rewrite !omap_app, !list_omap_fmap, !map_values_keys, (omap_seq_0 (txOutputs n)), (omap_seq_0 (txOutputsExt n)). done.
Qed.
Definition in_list (n : Node) : list nat := omap (in_at n) (in_slots n).
Lemma in_list_length n : length (in_list n) = insum n.
Proof.
  unfold in_list, in_slots. rewrite insum_eq, !omap_app, !list_omap_fmap, !length_app. unfold count_some. rewrite <- (map_values_length (readonlyInputs n)), map_values_keys.
  rewrite (omap_seq_0 (txInputs n)), (omap_seq_0 (txInputsExt n)). cbn. lia.
Qed.

Lemma out_slots_NoDup n : NoDup (out_slots n).
Proof.
  unfold out_slots. repeat (apply NoDup_app; split_and!); try (apply NoDup_fmap_2; [intros ???; congruence|]; first [apply NoDup_seq|apply map_keys_NoDup]);
    intros s; rewrite ?elem_of_app, !list_elem_of_fmap; naive_solver.
Qed.
Lemma in_slots_NoDup n : NoDup (in_slots n).
Proof.
  unfold in_slots. repeat (apply NoDup_app; split_and!); try (apply NoDup_fmap_2; [intros ???; congruence|]; first [apply NoDup_seq|apply map_keys_NoDup]);
    intros s; rewrite ?elem_of_app, !list_elem_of_fmap; naive_solver.
Qed.
Lemma out_slots_elem n s p : out_at n s = Some p -> s ∈ out_slots n.
Proof.
  intros E. pose proof (out_at_room _ _ _ E) as Hr. unfold out_slots. rewrite !elem_of_app, !list_elem_of_fmap. destruct s as [i|i|t|k]; cbn in *.
  - left. exists i. split; [done|]. apply elem_of_seq. lia.
  - right; left. exists i. split; [done|]. apply elem_of_seq. lia.
  - do 2 right; left. exists t. split; [done|]. by eapply map_keys_elem.
  - do 3 right. exists k. split; [done|]. by eapply map_keys_elem.
Qed.
Lemma in_slots_elem n s p : in_at n s = Some p -> s ∈ in_slots n.
Proof.
  intros E. pose proof (in_at_room _ _ _ E) as Hr. unfold in_slots. rewrite !elem_of_app, !list_elem_of_fmap. destruct s as [i|i|t]; cbn in *.
  - left. exists i. split; [done|]. apply elem_of_seq. lia.
  - right; left. exists i. split; [done|]. apply elem_of_seq. lia.
  - do 2 right. exists t. split; [done|]. by eapply map_keys_elem.
Qed.
Lemma in_list_elem n p : p ∈ in_list n <-> exists s, in_at n s = Some p.
Proof.
  unfold in_list. rewrite list_elem_of_omap. split; [intros (s & _ & E); eauto|]. intros [s E]. exists s. split; [by eapply in_slots_elem|done].
Qed.
Lemma out_nodes_elem n c : c ∈ out_nodes n <-> exists s, out_at n s = Some c.
Proof.
  rewrite out_nodes_slots, list_elem_of_omap. split; [intros (s & _ & E); eauto|]. intros [s E]. exists s. split; [by eapply out_slots_elem|done].
Qed.

Lemma occ_omap {S} (f : S -> option nat) x l : occ x (omap f l) = length (filter (fun s => f s = Some x) l).
Proof.
  unfold occ. induction l as [|s l IH]; [done|]. change (omap f (s :: l)) with (match f s with Some y => y :: omap f l | None => omap f l end).
  rewrite filter_cons. destruct (f s) as [y|] eqn:E; [|rewrite decide_False by done; exact IH].
  rewrite filter_cons. destruct (decide (y = x)) as [->|Hy]; [rewrite decide_True by done; cbn; by rewrite IH|]. rewrite decide_False by congruence. exact IH.
Qed.

(** As many outputs of [p] point to [c] as inputs of [c] point to [p]. *)
Lemma balanced h p c pn cn : linked h -> h !! p = Some pn -> h !! c = Some cn -> occ c (out_nodes pn) = occ p (in_list cn).
Proof.
  intros L Hp Hc. rewrite out_nodes_slots. unfold in_list. rewrite !occ_omap.
  assert (forall s, hin h c s = in_at cn s) as Ei by (intros s; unfold hin; by rewrite Hc). assert (forall s, hout h p s = out_at pn s) as Eo by (intros s; unfold hout; by rewrite Hp).
  assert (forall s, htarget h c s = target cn s) as Et by (intros s; unfold htarget; by rewrite Hc).
  rewrite <- (length_fmap (target cn) (filter (fun s => in_at cn s = Some p) (in_slots cn))). apply Permutation_length, NoDup_Permutation.
  - apply NoDup_filter, out_slots_NoDup.
  - assert (forall l, NoDup l -> (forall s, s ∈ l -> in_at cn s = Some p) -> NoDup (target cn <$> l)) as Hnd.
    { induction 1 as [|s l Hs Hl IH]; intros Hall; [constructor|]. cbn. apply NoDup_cons. split; [|apply IH; intros x Hx; apply Hall; by right].
      intros (s' & Es & Hs')%list_elem_of_fmap. apply Hs. replace s with s'; [done|]. apply (ln_inj _ L c s' s p); rewrite ?Ei, ?Et; [apply Hall; by right|apply Hall; left|done]. }
    apply Hnd; [apply NoDup_filter, in_slots_NoDup|]. by intros s [? _]%list_elem_of_filter.
  - intros o. rewrite list_elem_of_filter, list_elem_of_fmap. split.
    + intros [E _]. rewrite <- Eo in E. apply (ln_in _ L) in E as (s & E & <-). rewrite Ei in E. exists s. split; [apply Et|].
      apply list_elem_of_filter. split; [done|]. by eapply in_slots_elem.
    + intros (s & -> & [E _]%list_elem_of_filter). rewrite <- Ei in E. apply (ln_out _ L) in E. rewrite Eo, Et in E. split; [done|]. by eapply out_slots_elem.
Qed.
End Sides.

(** ** The walk *)

Definition collect (tx : Transaction) (l : list Transaction) : bool * list Transaction := (true, l ++ [tx]).

Section Kahn.
Context `{O : MapOrder} (m : Mempool) (W : pool_ok m).
Let h : Heap := heap m.

Definition roots : list nat := map_values (confirmed m).
Definition inl (c : nat) : list nat := from_option in_list [] (h !! c).
Definition outl (p : nat) : list nat := from_option out_nodes [] (h !! p).
Definition indeg (c : nat) : nat := length (inl c).

Lemma inl_elem c p : p ∈ inl c <-> exists s, hin h c s = Some p.
Proof.
  unfold inl, hin. destruct (h !! c) as [n|]; cbn; [apply in_list_elem|]. split; [by intros ?%elem_of_nil|by intros []].
Qed.
Lemma outl_elem p c : c ∈ outl p <-> exists o, hout h p o = Some c.
Proof.
  unfold outl, hout. destruct (h !! p) as [n|]; cbn; [apply out_nodes_elem|]. split; [by intros ?%elem_of_nil|by intros []].
Qed.
Lemma roots_elem p : p ∈ roots <-> conf m p.
Proof. apply map_values_elem. Qed.

Lemma edge_balance p c : is_Some (h !! p) -> is_Some (h !! c) -> occ c (outl p) = occ p (inl c).
Proof using W. intros [pn Hp] [cn Hc]. unfold outl, inl. rewrite Hp, Hc. cbn. eapply balanced; [apply W|done|done]. Qed.

Lemma indeg_sum c n : h !! c = Some n -> getInputSum n = Z.of_nat (indeg c).
Proof.
  intros Hn. unfold indeg, inl. rewrite Hn. cbn. rewrite in_list_length. unfold insum. rewrite Z2Nat.id; [done|]. unfold getInputSum. lia.
Qed.

Lemma child_facts p c : c ∈ outl p -> unconf m c /\ p ∈ inl c /\ exists n tx, h !! c = Some n /\ n_tx n = Some tx.
Proof using W.
  intros [o E]%outl_elem. pose proof (child_unconf _ _ _ _ W E) as Hu. split; [done|]. apply (ln_in _ (w_linked _ _ W)) in E as (s & E & _).
  split; [apply inl_elem; eauto|]. destruct Hu as [t Hu]. destruct (w_unconf _ _ W _ _ Hu) as (n & tx & Hn & Hx & _). eauto.
Qed.

Lemma root_no_input c : conf m c -> inl c = [].
Proof using W.
  intros Hc. destruct (inl c) as [|p l] eqn:E; [done|]. assert (p ∈ inl c) as [s Es]%inl_elem by (rewrite E; left).
  destruct (w_child _ _ W _ _ _ Es) as [Hu|]; [|done]. by destruct (conf_not_unconf _ _ _ W Hc).
Qed.

(** [P] is the list of nodes taken from the queue, [seen] counts the links from
    them, [E] is the list of nodes handed to the client. *)
Record kahn (P : list nat) (seen : nat -> nat) (Q E : list nat) (s : gmap nat Z) : Prop := {
  k_list : P ++ Q = roots ++ E;
  k_nodup : NoDup (roots ++ E);
  k_sums : forall c, s !! c = if decide (seen c = 0) then None else Some (Z.of_nat (indeg c) - Z.of_nat (seen c))%Z;
  k_emit : forall c, c ∈ E <-> 0 < indeg c /\ seen c = indeg c;
  k_topo : forall E1 c E2, E = E1 ++ c :: E2 -> forall q, q ∈ inl c -> q ∈ roots ++ E1
}.

Definition handed (E : list nat) : list Transaction := omap (node_tx h) E.

Lemma kahn_ext P seen seen' Q E s : (forall c, seen c = seen' c) -> kahn P seen Q E s -> kahn P seen' Q E s.
Proof. intros H [K1 K2 K3 K4 K5]. split; try done; intros c; rewrite <- H; auto. Qed.

(** One link to a child [c]. *)
Lemma kahn_link V p Q E s seen c : p ∉ V -> is_Some (h !! p) -> kahn (V ++ [p]) seen Q E s -> c ∈ outl p -> seen c < indeg c ->
  (seen c + 1 = indeg c -> forall q, q ∈ inl c -> q ∈ V ++ [p]) ->
  exists Q' E' s', range_child collect h c (mkRanging s Q (handed E)) = (true, mkRanging s' Q' (handed E')) /\
    kahn (V ++ [p]) (fun x => seen x + (if decide (c = x) then 1 else 0)) Q' E' s'.
Proof using W.
  intros Hp Hpe [K1 K2 K3 K4 K5] Hc Hlt Hall. destruct (child_facts _ _ Hc) as (Hu & Hin & n & tx & Hn & Hx).
  assert (node_tx h c = Some tx) as Hntx by (unfold node_tx; by rewrite Hn). unfold range_child, isNextNode. cbn [sums queue acc].
  set (sum := match s !! c with Some k => _ | None => _ end). assert (sum = Z.of_nat (indeg c) - Z.of_nat (seen c) - 1)%Z as Es.
  { unfold sum. rewrite K3. case_decide as D; [|done]. rewrite Hn. cbn. rewrite (indeg_sum _ _ Hn). lia. }
  assert (forall x, <[c := sum]> s !! x = if decide (seen x + (if decide (c = x) then 1 else 0) = 0) then None
    else Some (Z.of_nat (indeg x) - Z.of_nat (seen x + (if decide (c = x) then 1 else 0)))%Z) as Hs'.
  { intros x. destruct (decide (c = x)) as [<-|Hne]; [rewrite lookup_insert_eq, decide_False by lia; f_equal; lia|].
    rewrite lookup_insert_ne, K3, Nat.add_0_r by done. done. }
  assert (c ∉ roots ++ E) as Hnew.
  { intros [Hr|He]%elem_of_app; [apply roots_elem, root_no_input in Hr; unfold indeg in Hlt; rewrite Hr in Hlt; cbn in Hlt; lia|]. apply K4 in He. lia. }
  destruct (Z.eqb_spec sum 0) as [E0|E0].
  - cbn [fst snd]. change (h !! c ≫= n_tx) with (node_tx h c). rewrite Hntx. cbn [collect acc queue sums].
    exists (Q ++ [c]), (E ++ [c]), (<[c := sum]> s). split; [unfold handed; rewrite omap_app; cbn; by rewrite Hntx|]. split.
    + rewrite !app_assoc. f_equal. by rewrite <- K1, <- app_assoc.
    + rewrite app_assoc. apply NoDup_app. split_and!; [done|intros x Hx1 ->%list_elem_of_singleton; done|apply NoDup_singleton].
    + exact Hs'.
    + intros x. rewrite elem_of_app, list_elem_of_singleton, K4. destruct (decide (c = x)) as [<-|Hne]; [split; [intros _; lia|by right]|].
      rewrite Nat.add_0_r. naive_solver.
    + intros E1 x E2 EE q Hq. apply app_eq_app in EE as (l & [[-> El]|[-> El]]).
      * destruct l as [|y l]; [rewrite app_nil_r in K1; cbn in El; injection El as -> ->|].
        -- assert (q ∈ V ++ [p]) as Hq' by (apply Hall; [lia|done]). assert (q ∈ (V ++ [p]) ++ Q) as Hq2 by (apply elem_of_app; by left). by rewrite K1 in Hq2.
        -- cbn in El. injection El as -> El. by eapply (K5 E1 y l).
      * symmetry in El. destruct l as [|y l]; cbn in El; [injection El as -> ->|by destruct l].
        rewrite app_nil_r. assert (q ∈ (V ++ [p]) ++ Q) as Hq2 by (apply elem_of_app; left; apply Hall; [lia|done]). by rewrite K1 in Hq2.
  - rewrite (proj2 (Z.eqb_neq _ _)) by lia. exists Q, E, (<[c := sum]> s). split; [done|]. split; try done. intros x. rewrite K4.
    destruct (decide (c = x)) as [<-|Hne]; [lia|by rewrite Nat.add_0_r].
Qed.

(** All links of the node [p]. *)
Lemma kahn_children V p rest : p ∉ V -> is_Some (h !! p) -> forall pre Q E s, outl p = pre ++ rest ->
  kahn (V ++ [p]) (fun c => within V (inl c) + occ c pre) Q E s ->
  exists Q' E' s', range_children collect h rest (mkRanging s Q (handed E)) = (true, mkRanging s' Q' (handed E')) /\
    kahn (V ++ [p]) (fun c => within (V ++ [p]) (inl c)) Q' E' s'.
Proof using W.
  intros Hp Hpe. assert (forall c, c ∈ outl p -> within V (inl c) + occ c (outl p) = within (V ++ [p]) (inl c)) as Hw.
  { intros c Hc. destruct (child_facts _ _ Hc) as (_ & _ & n & tx & Hn & _). rewrite within_snoc by done. rewrite edge_balance; [done|done|eauto]. }
  induction rest as [|c rest IH]; intros pre Q E s Ho K; cbn [range_children].
  { exists Q, E, s. split; [done|]. eapply kahn_ext, K. intros c. cbn. rewrite app_nil_r in Ho. subst pre. destruct (decide (c ∈ outl p)) as [Hc|Hc]; [by apply Hw|].
    rewrite within_snoc, (occ_zero c), (occ_zero p); [done| |done|done]. intros [s0 Es]%inl_elem. apply Hc, outl_elem.
    eexists. by apply (ln_out _ (w_linked _ _ W) _ _ _ Es). }
  assert (c ∈ outl p) as Hc by (rewrite Ho; apply elem_of_app; right; left). pose proof (Hw c Hc) as Hwc. rewrite Ho, occ_app, occ_cons, decide_True in Hwc by done.
  pose proof (within_le (V ++ [p]) (inl c)) as Hle. fold (indeg c) in Hle.
  destruct (kahn_link V p Q E s _ c Hp Hpe K Hc) as (Q1 & E1 & s1 & Er & K1); [lia| |].
  { intros Ei. apply within_all. unfold indeg in *. lia. }
  rewrite Er. apply (IH (pre ++ [c])); [by rewrite <- app_assoc|]. eapply kahn_ext, K1. intros x. cbn. rewrite occ_app, occ_cons. cbn. lia.
Qed.

Lemma roots_NoDup : NoDup roots.
Proof using W.
  unfold roots, map_values. rewrite range_order_perm. apply NoDup_fmap_2_strong; [|apply NoDup_map_to_list].
  intros [t1 p1] [t2 p2] H1%elem_of_map_to_list H2%elem_of_map_to_list. cbn. intros ->.
  destruct (w_conf _ _ W _ _ H1) as (n1 & Hn1 & E1 & _), (w_conf _ _ W _ _ H2) as (n2 & Hn2 & E2 & _). congruence.
Qed.

Lemma emitted_unconf P seen Q E s c : kahn P seen Q E s -> c ∈ E -> unconf m c.
Proof using W.
  intros K [Hi _]%(k_emit _ _ _ _ _ K). unfold indeg in Hi. destruct (inl c) as [|p l] eqn:El; [cbn in Hi; lia|].
  assert (p ∈ inl c) as [s0 Es]%inl_elem by (rewrite El; left). by destruct (w_child _ _ W _ _ _ Es).
Qed.

Lemma kahn_size P seen Q E s : kahn P seen Q E s -> length (P ++ Q) <= size h.
Proof using W.
  intros K. rewrite (k_list _ _ _ _ _ K), <- size_dom. rewrite <- (size_list_to_set (C := gset nat)) by apply K. apply subseteq_size.
  intros c. rewrite elem_of_list_to_set, elem_of_app, roots_elem. intros [Hc|Hc%(emitted_unconf _ _ _ _ _ _ K)];
    apply elem_of_dom, (listed_exists None m); [done|by left|done|by right].
Qed.

Lemma kahn_loop steps : forall V Q E s, kahn V (fun c => within V (inl c)) Q E s -> size h < steps + length V ->
  exists E' s', range_loop collect steps h (mkRanging s Q (handed E)) = mkRanging s' [] (handed E') /\
    kahn (roots ++ E') (fun c => within (roots ++ E') (inl c)) [] E' s'.
Proof using W.
  induction steps as [|steps IH]; intros V Q E s K Hs.
  { pose proof (kahn_size _ _ _ _ _ K) as Hl. rewrite length_app in Hl. lia. }
  cbn [range_loop queue]. destruct Q as [|p Q].
  { exists E, s. split; [done|]. pose proof (k_list _ _ _ _ _ K) as El. rewrite app_nil_r in El. subst V.
    destruct K as [K1 K2 K3 K4 K5]. split; try done. }
  assert (p ∈ roots ++ E) as Hp by (rewrite <- (k_list _ _ _ _ _ K); apply elem_of_app; right; left).
  assert (is_Some (h !! p)) as Hpe.
  { apply (listed_exists None m); [done|]. apply elem_of_app in Hp as [Hp%roots_elem|Hp]; [by left|right]. by eapply emitted_unconf. }
  pose proof (k_nodup _ _ _ _ _ K) as Hnd. rewrite <- (k_list _ _ _ _ _ K) in Hnd. apply NoDup_app in Hnd as (_ & Hd & _).
  assert (p ∉ V) as HpV by (intros Hv; apply (Hd p Hv); left). fold (outl p). cbn [sums acc].
  destruct (kahn_children V p (outl p) HpV Hpe [] Q E s) as (Q' & E' & s' & Ec & K'); [done| |].
  - destruct K as [K1 K2 K3 K4 K5]. split; [by rewrite <- app_assoc|done| | |done]; intros c; cbn; rewrite Nat.add_0_r; auto.
  - rewrite Ec. apply (IH (V ++ [p])); [done|]. rewrite length_app. cbn. lia.
Qed.

(** The nodes the walk hands out, in order. *)
Lemma Range_kahn : exists E s, walk m = handed E /\ kahn (roots ++ E) (fun c => within (roots ++ E) (inl c)) [] E s.
Proof using W.
  destruct (kahn_loop (S (size (confirmed m) + size h)) [] roots [] ∅) as (E & s & Er & K).
  - assert (forall c, within [] (inl c) = 0) as Hw by (intros c; unfold within; by rewrite filter_none by set_solver).
    split; [by rewrite app_nil_r|rewrite app_nil_r; apply roots_NoDup| | |].
    + intros c. by rewrite Hw, decide_True, lookup_empty.
    + intros c. rewrite Hw. split; [by intros ?%elem_of_nil|lia].
    + intros E1 c E2 EE. by destruct E1.
  - cbn. lia.
  - exists E, s. split; [|done]. exact (f_equal acc Er).
Qed.
End Kahn.

(** ** Any client *)

(** The client is given the transactions until it has enough. *)
Fixpoint feed {A} (f : Transaction -> A -> bool * A) (txs : list Transaction) (a : A) : bool * A :=
  match txs with
  | [] => (true, a)
  | tx :: txs => let (go, a) := f tx a in if go then feed f txs a else (false, a)
  end.

Lemma feed_app {A} (f : Transaction -> A -> bool * A) l1 l2 a :
  feed f (l1 ++ l2) a = match feed f l1 a with (true, a) => feed f l2 a | r => r end.
Proof. revert a. induction l1 as [|tx l1 IH]; intros a; [done|]. cbn. destruct (f tx a) as [[] a']; [apply IH|done]. Qed.

Section Clients.
Context `{O : MapOrder} {A : Type} (f : Transaction -> A -> bool * A).

(** The run with the client [f] against the run that collects. *)
Definition agrees (l : list Transaction) (a : A) (rc : bool * @ranging (list Transaction)) (rf : bool * @ranging A) : Prop :=
  exists new, acc rc.2 = l ++ new /\
    match feed f new a with
    | (true, a') => rf = (rc.1, mkRanging (sums rc.2) (queue rc.2) a')
    | (false, a') => rf.1 = false /\ acc rf.2 = a'
    end.

Lemma child_agrees h c s q l a : agrees l a (range_child collect h c (mkRanging s q l)) (range_child f h c (mkRanging s q a)).
Proof.
  unfold range_child, isNextNode. cbn [sums queue acc]. set (sum := match s !! c with Some k => _ | None => _ end).
  destruct (sum =? 0)%Z; [|destruct (sum =? -1)%Z; (exists []; by rewrite app_nil_r)].
  destruct (h !! c ≫= n_tx) as [tx|]; [|exists []; by rewrite app_nil_r]. cbn. exists [tx]. split; [done|]. cbn. by destruct (f tx a) as [[] a'].
Qed.

Lemma children_agree h cs : forall s q l a, agrees l a (range_children collect h cs (mkRanging s q l)) (range_children f h cs (mkRanging s q a)).
Proof.
  induction cs as [|c cs IH]; intros s q l a; cbn [range_children]; [exists []; by rewrite app_nil_r|].
  destruct (child_agrees h c s q l a) as (new & E & Hm). destruct (range_child collect h c (mkRanging s q l)) as [b [s' q' l']]. cbn in E. subst l'.
  destruct (feed f new a) as [[] a'] eqn:Ef.
  - rewrite Hm. cbn [fst snd sums queue]. destruct b; [|exists new; by rewrite Ef]. destruct (IH s' q' (l ++ new) a') as (new' & E' & Hm').
    exists (new ++ new'). rewrite app_assoc. split; [done|]. by rewrite feed_app, Ef.
  - destruct Hm as [H1 H2]. destruct (range_child f h c (mkRanging s q a)) as [b' r']. cbn in H1, H2. subst b'.
    destruct b; [|exists new; by rewrite Ef]. destruct (IH s' q' (l ++ new) a') as (new' & E' & _). exists (new ++ new'). rewrite app_assoc. split; [done|]. by rewrite feed_app, Ef.
Qed.

Lemma loop_agrees h steps : forall s q l a, exists new, acc (range_loop collect steps h (mkRanging s q l)) = l ++ new /\
  acc (range_loop f steps h (mkRanging s q a)) = (feed f new a).2.
Proof.
  induction steps as [|steps IH]; intros s q l a; cbn [range_loop queue]; [exists []; by rewrite app_nil_r|].
  destruct q as [|p q]; [exists []; by rewrite app_nil_r|]. cbn [sums acc].
  destruct (children_agree h (from_option out_nodes [] (h !! p)) s q l a) as (new & E & Hm).
  destruct (range_children collect h _ _) as [b [s' q' l']]. cbn in E. subst l'. destruct (feed f new a) as [[] a'] eqn:Ef.
  - rewrite Hm. cbn [fst snd sums queue]. destruct b; [|exists new; by rewrite Ef]. destruct (IH s' q' (l ++ new) a') as (new' & E' & Hm').
    exists (new ++ new'). rewrite app_assoc. split; [done|]. by rewrite feed_app, Ef.
  - destruct Hm as [H1 H2]. destruct (range_children f h _ _) as [b' r']. cbn in H1, H2. subst b'.
    destruct b; [|exists new; by rewrite Ef]. destruct (IH s' q' (l ++ new) a') as (new' & E' & _). exists (new ++ new'). rewrite app_assoc. split; [done|]. by rewrite feed_app, Ef.
Qed.

Lemma Range_feed m a : Range f m a = (feed f (walk m) a).2.
Proof.
  unfold walk, Range. destruct (loop_agrees (heap m) (S (size (confirmed m) + size (heap m))) ∅ (map_values (confirmed m)) [] a) as (new & E & E').
  rewrite E'. cbn [app] in E. unfold collect in E. by rewrite E.
Qed.
End Clients.

(** ** The order *)

Section Order.
Context `{O : MapOrder} (m : Mempool) (W : pool_ok m) (E : list nat) (s : gmap nat Z).
Context (K : kahn m (roots m ++ E) (fun c => within (roots m ++ E) (inl m c)) [] E s).

Lemma emitted_iff c : c ∈ E <-> inl m c <> [] /\ forall q, q ∈ inl m c -> q ∈ roots m ++ E.
Proof using K.
  rewrite (k_emit _ _ _ _ _ _ K), <- within_all. unfold indeg. split; intros [H1 H2]; (split; [|done]).
  - intros E0. rewrite E0 in H1. cbn in H1. lia.
  - destruct (inl m c); [done|cbn; lia].
Qed.

Lemma ancestors_emitted q c : unconf m q -> desc (heap m) q c -> c ∈ E -> q ∈ E.
Proof using W K.
  intros Hq. induction 1 as [|x o c Hd IH Hw Ho]; [done|]. intros [_ Hin]%emitted_iff. apply IH.
  assert (x ∈ roots m ++ E) as [Hr%roots_elem|]%elem_of_app; [|exfalso|done].
  - apply Hin, inl_elem. apply (ln_in _ (w_linked _ _ W)) in Ho as (s0 & Es & _). eauto.
  - apply (conf_not_unconf _ _ _ W Hr). destruct (desc_listed _ _ _ W ltac:(by right) Hd) as [->|]; done.
Qed.

Lemma emitted_not_lost c t : unconfirmed m !! t = Some c -> c ∈ E -> forall a, depends m a t -> ~ lost m a.
Proof using W K.
  intros Et Hc a Hd (q & Ea & Hno). assert (q ∈ E) as [Hne _]%emitted_iff.
  - eapply ancestors_emitted; [by exists a| |exact Hc]. destruct (unconf_getNode _ _ _ W Ea) as [Hl Ei]. eapply depends_iff; [done| |by apply (getNode_listed None)|done|done].
    rewrite <- Ei. apply unconf_real; [done|by exists a].
  - destruct (inl m q) as [|x l] eqn:Ei; [done|]. assert (x ∈ inl m q) as [s0 Es]%inl_elem by (rewrite Ei; left). by rewrite Hno in Es.
Qed.

Lemma not_lost_emitted k : forall c t, pool_rank m c < k -> unconfirmed m !! t = Some c -> (forall a, depends m a t -> ~ lost m a) -> c ∈ E.
Proof using W K.
  induction k as [|k IH]; intros c t Hk Et Hno; [lia|]. apply emitted_iff. split.
  - intros Ei. apply (Hno t); [constructor|]. exists c. split; [done|]. intros s0. apply eq_None_not_Some. intros [q Eq].
    assert (q ∈ inl m c) as Hq by (apply inl_elem; eauto). rewrite Ei in Hq. by apply elem_of_nil in Hq.
  - intros q [s0 Eq]%inl_elem. apply elem_of_app. destruct (w_parent _ _ W _ _ _ Eq) as [Hc|Hu]; [left; by apply roots_elem|right].
    pose proof (unconf_txid _ _ _ W Hu) as Eu. apply (IH q (txid_of (heap m) q)); [|done|].
    + apply (pool_ranked _ W) in Eq. lia.
    + intros a Ha. apply Hno. eapply depends_trans; [exact Ha|]. destruct (edge_refs _ _ _ _ W Eq (unconf_real _ _ W Hu)) as (tx & Hx & _ & Hin).
      destruct (unconf_getNode _ _ _ W Et) as [_ Ec]. rewrite Ec in Hx. eapply dep_step; [constructor|exact Hx|exact Hin].
Qed.
End Order.

Lemma walk_topological `{O : MapOrder} m (txs := walk m) : pool_ok m -> NoDup (Txid <$> txs) /\
    (forall tx, tx ∈ txs <-> pool_tx m (Txid tx) = Some tx /\ forall a, depends m a (Txid tx) -> ~ lost m a) /\
    (forall l1 tx l2 r, txs = l1 ++ tx :: l2 -> r ∈ refs tx -> is_Some (pool_tx m r) -> r ∈ Txid <$> l1).
Proof.
  intros W. destruct (Range_kahn m W) as (E & s & Er & K). assert (forall c, c ∈ E -> unconf m c) as Hu by (intros c; by eapply emitted_unconf).
  pose proof (k_nodup _ _ _ _ _ _ K) as (_ & _ & Nd)%NoDup_app. destruct (unconf_txs m E W Nd Hu) as (txs0 & E1 & E2 & E3 & E4).
  assert (txs = txs0) as Es.
  { unfold txs. rewrite Er. unfold handed. clear -E1. revert txs0 E1. induction E as [|c E IH]; intros txs E1; destruct txs as [|tx txs]; [done|done|done|]. cbn in E1 |- *.
    injection E1 as -> E1. cbn. f_equal. by apply IH. }
  clearbody txs. subst txs0. split_and!; [done| |].
  - intros tx. rewrite (unconf_txs_elem m E txs tx E3 E4). split.
    + intros (Hp & c & Hc & Ec). split; [done|]. by eapply emitted_not_lost.
    + intros [Hp Hno]. split; [done|]. pose proof Hp as (c & n & Ec & _)%(pool_tx_Some _ _ _ W). exists c. split; [|done].
      eapply (not_lost_emitted m W E s K (S (pool_rank m c))); [lia|done|done].
  - intros l1 tx l2 r -> Hr [tx' (q & nq & Eq & Hnq & _ & Etq & _)%(pool_tx_Some _ _ _ W)].
    rewrite fmap_app in E3. symmetry in E3. apply fmap_app_inv in E3 as (L1 & L2 & E3a & E3b & EE). cbn in E3b. destruct L2 as [|c L2]; [done|]. cbn in E3b. injection E3b as Ec E3b.
    apply Forall_app in E4 as [F1 [Hp _]%Forall_cons]. apply (pool_tx_Some _ _ _ W) in Hp as (c' & n & Ec' & Hn & Hx & _). replace c' with c in * by congruence.
    assert (node_tx (heap m) c = Some tx) as Hntx by (unfold node_tx; by rewrite Hn).
    destruct (w_refs _ _ W _ _ _ Ec' ltac:(done) Hntx r Hr) as (s0 & q' & Eq' & Et'). assert (q' = q) as ->.
    { eapply (listed_inj _ m); [done|apply (w_parent _ _ W _ _ _ Eq')|right; by exists r|]. rewrite Et'. unfold txid_of. by rewrite Hnq. }
    assert (q ∈ roots m ++ L1) as [Hc%roots_elem|Hq]%elem_of_app; [apply (k_topo _ _ _ _ _ _ K L1 c L2 EE), inl_elem; eauto| |].
    + exfalso. apply (conf_not_unconf _ _ _ W Hc). by exists r.
    + assert (Some q ∈ ((fun tx => unconfirmed m !! Txid tx) <$> l1)) as (tx1 & E5 & Hin)%list_elem_of_fmap by (rewrite E3a; by apply list_elem_of_fmap_2).
      apply list_elem_of_fmap. exists tx1. split; [|done]. symmetry in E5. destruct (unconf_getNode _ _ _ W E5) as [_ <-]. unfold txid_of. rewrite Hnq. done.
Qed.

(** [Range] reads the pool in an order that can be executed.  From a pool in
    order there is one list of transactions such that every client is given its
    elements in turn, until it wants no more: unconfirmed transactions, each
    once, each after every unconfirmed transaction it refers to, and all of them
    apart from those that depend on a lost one. *)
Theorem Range_topological `{O : MapOrder} m : pool_ok m ->
  exists txs, (forall A (f : Transaction -> A -> bool * A) a, Range f m a = (feed f txs a).2) /\ NoDup (Txid <$> txs) /\
    (forall tx, tx ∈ txs <-> pool_tx m (Txid tx) = Some tx /\ forall a, depends m a (Txid tx) -> ~ lost m a) /\
    (forall l1 tx l2 r, txs = l1 ++ tx :: l2 -> r ∈ refs tx -> is_Some (pool_tx m r) -> r ∈ Txid <$> l1).
Proof.
  intros W. destruct (walk_topological m W) as (H1 & H2 & H3). exists (walk m). split_and!; [intros A f a; apply Range_feed|done..].
Qed.

(** ** What the miner packs *)

Section Pack.
Context `{O : MapOrder} (inTrunk : string -> bool) (protoSize : Transaction -> Z) (dedup : bool) (sizeLimit : Z) (Hlimit : (0 < sizeLimit)%Z).

Definition total_size (txs : list Transaction) : Z := foldr (fun tx n => (protoSize tx + n)%Z) 0%Z txs.
Definition skipped (t : string) : bool := dedup && inTrunk t.
Definition pack (tx : Transaction) (a : Z * list Transaction) : bool * (Z * list Transaction) :=
  if skipped (Txid tx) then (true, a)
  else
    let sum := if (0 <? sizeLimit)%Z then (a.1 + protoSize tx)%Z else a.1 in
    if (0 <? sizeLimit)%Z && (sizeLimit <? sum)%Z then (false, (sum, a.2)) else (true, (sum, a.2 ++ [tx])).

Lemma total_size_snoc l tx : total_size (l ++ [tx]) = (total_size l + protoSize tx)%Z.
Proof. unfold total_size. induction l as [|x l IH]; cbn in *; lia. Qed.

Lemma feed_pack l : forall res, (total_size res <= sizeLimit)%Z ->
  exists pre post, l = pre ++ post /\ let packed := res ++ filter (fun tx => skipped (Txid tx) = false) pre in
    (feed pack l (total_size res, res)).2.2 = packed /\ (total_size packed <= sizeLimit)%Z /\
    (post = [] \/ exists tx rest, post = tx :: rest /\ skipped (Txid tx) = false /\ (sizeLimit < total_size packed + protoSize tx)%Z).
Proof using Hlimit.
  induction l as [|tx l IH]; intros res Hres; cbn [feed].
  { exists [], []. cbn. rewrite app_nil_r. split_and!; [done..|by left]. }
  unfold pack at 1. destruct (skipped (Txid tx)) eqn:Es.
  { destruct (IH res Hres) as (pre & post & -> & H). exists (tx :: pre), post. rewrite filter_cons_False by congruence. by split. }
  destruct (Z.ltb_spec 0 sizeLimit) as [_|]; [|lia]. cbn [andb fst snd]. destruct (Z.ltb_spec sizeLimit (total_size res + protoSize tx)) as [Hlt|Hle].
  { exists [], (tx :: l). cbn. rewrite app_nil_r. split_and!; [done..|]. right. exists tx, l. by split_and!. }
  rewrite <- total_size_snoc in *. destruct (IH (res ++ [tx]) Hle) as (pre & post & -> & H). exists (tx :: pre), post.
  rewrite filter_cons_True by done. split; [done|]. by rewrite <- (assoc_L (++)) in H.
Qed.

(** C6: the miner packs a block that fits, every transaction behind those it refers
    to.  From a pool in order [GetUnconfirmedTx] with a limit above zero returns unconfirmed transactions,
    each once, whose sizes sum up to the limit at most; every transaction comes
    after all unconfirmed ones it refers to, apart from those left out because
    they are in a block already; and a transaction that could be served is only left out when the
    next one in the order of the pool would have exceeded the limit.  Nothing is said
    about a transaction that only reads a version which an earlier one replaces. *)
Theorem GetUnconfirmedTx_packs m (packed := GetUnconfirmedTx inTrunk protoSize dedup sizeLimit m) : pool_ok m ->
  NoDup (Txid <$> packed) /\ (total_size packed <= sizeLimit)%Z /\
  (forall tx, tx ∈ packed -> pool_tx m (Txid tx) = Some tx /\ skipped (Txid tx) = false) /\
  (forall l1 tx l2 r, packed = l1 ++ tx :: l2 -> r ∈ refs tx -> is_Some (pool_tx m r) -> r ∈ Txid <$> l1 \/ skipped r = true) /\
  ((forall tx, pool_tx m (Txid tx) = Some tx -> (forall a, depends m a (Txid tx) -> ~ lost m a) -> tx ∈ packed \/ skipped (Txid tx) = true) \/
   exists tx, pool_tx m (Txid tx) = Some tx /\ tx ∉ packed /\ (sizeLimit < total_size packed + protoSize tx)%Z).
Proof using Hlimit.
  intros W. destruct (walk_topological m W) as (Nd & Hin & Ho). destruct (feed_pack (walk m) []) as (pre & post & E & Ep & Hs & Hrest); [cbn; lia|]. cbn [app] in Ep, Hs, Hrest.
  assert (packed = filter (fun tx => skipped (Txid tx) = false) pre) as -> by (rewrite <- Ep; unfold packed, GetUnconfirmedTx; by rewrite (Range_feed pack)).
  clear Ep. rewrite E in *. split_and!; [| done | | |].
  - rewrite fmap_app in Nd. apply NoDup_app in Nd as (Nd & _). eapply sublist_NoDup; [exact Nd|apply fmap_sublist, sublist_filter].
  - intros tx [H1 H2]%list_elem_of_filter. split; [|done]. apply Hin, elem_of_app. by left.
  - intros l1 tx l2 r Ef Hr Hp. destruct (filter_app_cons_inv _ _ _ _ _ Ef) as (p1 & p2 & -> & ->). rewrite <- app_assoc in Ho. cbn in Ho.
    destruct (proj1 (list_elem_of_fmap _ _ _) (Ho p1 tx (p2 ++ post) r eq_refl Hr Hp)) as (x & -> & Hx). destruct (skipped (Txid x)) eqn:Es; [by right|]. left.
    apply list_elem_of_fmap_2, list_elem_of_filter. by split.
  - destruct Hrest as [->|(tx & rest & -> & Hsk & Hlt)].
    + left. intros tx Hp Hno. destruct (skipped (Txid tx)) eqn:Es; [by right|left]. apply list_elem_of_filter. split; [done|]. rewrite app_nil_r in Hin. by apply Hin.
    + right. exists tx. split_and!; [apply Hin, elem_of_app; right; left| |done]. intros [_ Hx]%list_elem_of_filter.
      rewrite fmap_app in Nd. apply NoDup_app in Nd as (_ & Hd & _). apply (Hd (Txid tx)); [by apply list_elem_of_fmap_2|]. cbn. left.
Qed.
End Pack.
