(* ===== verification/MempoolCases.v ===== *)
(** * The memory pool: examples

    A pool on which the theorems of the pool are used, and what the code does
    where their hypotheses fail: a refused transaction, a negative offset, a
    transaction that comes before its parent, two first writers of a key. *)

From Stdlib Require Import ZArith Lia.
From stdpp Require Import base gmap strings list numbers sorting.
From S2P Require Import Prelude GoValues Sandbox LedgerHash XModel Mempool MempoolGraph MempoolSpec MempoolConfirm MempoolFind MempoolPut MempoolRange.

Set Default Proof Using "Type".

Module PoolExample.
#[global] Existing Instance address_order.

Definition mk (id : string) (ins : list (string * Z)) (outs : nat) (ie : list TxInputExt) (oe : list TxOutputExt) : Transaction :=
  mkTx id "" false false "" ((fun i => mkTxIn i.1 i.2 "" "" 0) <$> ins) (replicate outs (mkTxOut "" "" 0)) ie oe None.
Definition reads (k : string) (ref : option string) (off : Z) : TxInputExt := mkTxInExt "b" k ref off.
Definition sets (k v : string) : TxOutputExt := mkTxOutExt "b" k (Some (Raw v)).

(** The ledger has one transaction: two outputs and a key. *)
Definition base : Transaction := mk "base" [] 2 [] [sets "k" "0"].
Definition db (id : string) : option Transaction := if decide (id = "base") then Some base else None.
Lemma db_id id tx : db id = Some tx -> Txid tx = id.
Proof. unfold db. case_decide; [|done]. intros [= <-]. by subst. Qed.

Definition put (tx : Transaction) (m : Mempool) : outcome unit * Mempool := PutTx db 10 tx m.
Definition puts (txs : list Transaction) : Mempool := foldl (fun m tx => (put tx m).2) (NewMempool 0) txs.

(** [A] spends an output of the ledger, [B] spends [A] and writes the key, [C]
    spends [B]. *)
Definition A : Transaction := mk "A" [("base", 0%Z)] 1 [] [].
Definition B : Transaction := mk "B" [("A", 0%Z)] 1 [reads "k" (Some "base") 0] [sets "k" "1"].
Definition C : Transaction := mk "C" [("B", 0%Z)] 0 [] [].
Definition pool : Mempool := puts [A; B; C].

(** [D] spends what [A] spends. *)
Definition D : Transaction := mk "D" [("base", 0%Z)] 0 [] [].
(** [E] spends a free output and one that [A] spends. *)
Definition E : Transaction := mk "E" [("base", 1%Z); ("base", 0%Z)] 0 [] [].
(** [N] writes a key for the first time and gives a negative offset. *)
Definition N : Transaction := mk "N" [] 0 [reads "n" None (-1)] [sets "n" "1"].
(** [P] writes the key; [Q] only reads what [P] wrote. *)
Definition P : Transaction := mk "P" [("base", 0%Z)] 0 [reads "k" (Some "base") 0] [sets "k" "1"].
Definition Q : Transaction := mk "Q" [("base", 1%Z)] 0 [reads "k" (Some "P") 0] [].
(** Two transactions that write the same key for the first time. *)
Definition F1 : Transaction := mk "F1" [] 0 [reads "n" None 0] [sets "n" "1"].
Definition F2 : Transaction := mk "F2" [] 0 [reads "n" None 0] [sets "n" "2"].
(** [R] is unconfirmed and reads the version of the key that [W] overwrites. *)
Definition R : Transaction := mk "R" [("base", 1%Z)] 0 [reads "k" (Some "base") 0] [].
Definition W : Transaction := mk "W" [("base", 0%Z)] 0 [reads "k" (Some "base") 0] [sets "k" "1"].
(** [X] spends an output that [Y] does not have. *)
Definition X : Transaction := mk "X" [("Y", 2%Z)] 0 [] [].
Definition Y : Transaction := mk "Y" [("base", 0%Z)] 1 [] [].

(** The ids of what the miner packs, without a limit on the size. *)
Definition served (m : Mempool) : list string := Txid <$> GetUnconfirmedTx (fun _ => false) (fun _ => 1%Z) false 0 m.

Lemma put_ok m tx : pool_ok m -> new_tx db m tx -> (put tx m).1 = Ret tt -> pool_ok (put tx m).2.
Proof.
  intros W N. unfold put, PutTx. destruct (Full m); [done|]. destruct (HasTx (Txid tx) m) eqn:Hh; [done|].
  pose proof (putTx_run db 10 db_id m tx W N Hh) as H. destruct (putTx db 10 tx false m) as [[u|e|] m']; cbn; [by intros _; apply H|done|done].
Qed.

(** The references of a concrete transaction, one after the other. *)
Ltac known := intros r;
  match goal with |- _ ∈ refs ?tx -> _ => let l := eval vm_compute in (refs tx) in change (refs tx) with l end;
  rewrite ?elem_of_cons, elem_of_nil; intros Hr; destruct_or?; subst;
  (split_and!; [done|done|first [right; right; vm_compute; by eexists|right; left; vm_compute; by eexists|left; vm_compute; by eexists]]).

Lemma pool_A_ok : pool_ok (puts [A]).
Proof. apply put_ok; [apply NewMempool_ok| |by vm_compute]. split; [done|known|constructor]. Qed.
Lemma pool_B_ok : pool_ok (puts [A; B]).
Proof. apply (put_ok (puts [A])); [apply pool_A_ok| |by vm_compute]. split; [done|known|by repeat constructor]. Qed.
Lemma pool_is_ok : pool_ok pool.
Proof. apply (put_ok (puts [A; B])); [apply pool_B_ok| |by vm_compute]. split; [done|known|constructor]. Qed.
End PoolExample.
Import PoolExample.

(** ** The theorems at work *)

Lemma depends_A_B : depends pool "A" "B".
Proof. apply (dep_step pool "A" "A" "B" B); [constructor|by vm_compute|vm_compute; left]. Qed.
Lemma depends_A_C : depends pool "A" "C".
Proof. apply (dep_step pool "A" "B" "C" C); [apply depends_A_B|by vm_compute|vm_compute; left]. Qed.

Lemma deleteTx_removes_dependents_witness : pool_ok pool /\ exists l m', deleteTx "A" pool = (Ret l, m') /\ pool_ok m' /\ pool_tx m' "C" = None.
Proof.
  split; [apply pool_is_ok|]. destruct (deleteTx_removes_dependents pool "A" pool_is_ok ltac:(done)) as (l & m' & E & W & Hd & _).
  exists l, m'. split_and!; [done|done|apply Hd, depends_A_C].
Defined.

Lemma BatchConfirmTxID_spec_witness : pool_ok pool /\ exists m', BatchConfirmTxID 10 ["C"] pool = (Ret tt, m') /\ pool_ok m' /\ pool_tx m' "A" = None.
Proof.
  split; [apply pool_is_ok|]. destruct (BatchConfirmTxID_spec 10 pool ["C"] pool_is_ok) as (m' & E & W & Hd & _). exists m'. split_and!; [done|done|].
  apply Hd. exists "C". split; [left|apply depends_A_C].
Defined.

Lemma PutTx_adds_witness : pool_ok (puts [A]) /\ pool_ok (put B (puts [A])).2 /\ pool_tx (put B (puts [A])).2 "B" = Some B.
Proof.
  split; [apply pool_A_ok|]. assert (new_tx db (puts [A]) B) as N by (split; [done|known|by repeat constructor]).
  pose proof (PutTx_adds db 10 db_id (puts [A]) B pool_A_ok N) as H. fold (put B (puts [A])) in H. assert ((put B (puts [A])).1 = Ret tt) as E by (by vm_compute).
  destruct (put B (puts [A])) as [o m']. cbn in E. subst. cbn. destruct H as (H1 & H2 & _). split; [exact H1|]. by rewrite (H2 "B").
Defined.

Lemma Range_topological_witness : pool_ok pool /\ exists txs, walk pool = (feed (fun tx l => (true, l ++ [tx])) txs []).2 /\ NoDup (Txid <$> txs).
Proof.
  split; [apply pool_is_ok|]. destruct (Range_topological pool pool_is_ok) as (txs & E & Nd & _). exists txs. split; [apply E|done].
Defined.

Lemma GetUnconfirmedTx_packs_witness : pool_ok pool /\ (0 < 2)%Z /\
  (total_size (fun _ => 1%Z) (GetUnconfirmedTx (fun _ => false) (fun _ => 1%Z) false 2 pool) <= 2)%Z.
Proof.
  split_and!; [apply pool_is_ok|done|]. destruct (GetUnconfirmedTx_packs (fun _ => false) (fun _ => 1%Z) false 2 ltac:(done) pool pool_is_ok) as (_ & H & _). exact H.
Defined.

Lemma FindConflictByTx_exact_witness : pool_ok pool /\ exists txs, FindConflictByTx D pool = (Ret (Some <$> txs), pool) /\ A ∈ txs /\ C ∈ txs.
Proof.
  split; [apply pool_is_ok|]. destruct (FindConflictByTx_exact pool D pool_is_ok) as (txs & E & _ & Hin & _); [by vm_compute|constructor|by repeat constructor|].
  assert (conflicts D A) as Hc by (left; exists (mkTxIn "base" 0 "" "" 0), (mkTxIn "base" 0 "" "" 0); split_and!; [left|left|done|done]).
  exists txs. split; [done|]. split; apply Hin; (split; [by vm_compute|exists A; split_and!; [by vm_compute|done|]]); [constructor|apply depends_A_C].
Defined.

(** ** Where the hypotheses fail *)

(** A refused transaction is packed.  [PutTx] refuses a transaction that
    spends a free output and one that is taken, but has hung its node below the
    free output by then and leaves it there: [Range] serves the transaction to
    the miner and to all other readers, although the pool does not have it. *)
Theorem refused_tx_is_served :
  (put E (puts [A])).1 = Err ErrPoolDoubleSpent /\ HasTx "E" (put E (puts [A])).2 = false /\
  served (put E (puts [A])).2 = ["A"; "E"].
Proof. by vm_compute. Qed.

(** A negative offset stops the node later.  The offset of a key never
    written is not looked at when the transaction is added, so a transaction with
    a negative one is accepted; confirming it, or deleting it, is an index out of
    range.  For the offset of an output, looking for conflicts is. *)
Theorem negative_offset_panics_later :
  (put N (NewMempool 0)).1 = Ret tt /\ served (puts [N]) = ["N"] /\
  (BatchConfirmTx 10 [N] (puts [N])).1 = Panic /\ (deleteTx "N" (puts [N])).1 = Panic /\
  (FindConflictByTx (mk "M" [("base", (-1)%Z)] 0 [] []) (puts [A])).1 = Panic.
Proof. by vm_compute. Qed.

(** A reader that comes before its parent never leaves the pool.  Added after
    the transaction whose key it reads, a transaction is served; added before, as
    [LoadUnconfirmedTxFromDisk] may, since the table is in the order of the ids,
    the node of the parent forgets it when the parent arrives: the reader stays an orphan. *)
Theorem early_reader_is_forgotten :
  served (LoadUnconfirmedTxFromDisk db 10 [P; Q] (NewMempool 0)).2 = ["P"; "Q"] /\
  served (LoadUnconfirmedTxFromDisk db 10 [Q; P] (NewMempool 0)).2 = ["P"] /\
  is_Some (orphans (LoadUnconfirmedTxFromDisk db 10 [Q; P] (NewMempool 0)).2 !! "Q").
Proof. split_and!; [by vm_compute..|vm_compute; by eexists]. Qed.

(** A second first writer is accepted and lost.  [PutTx] accepts two
    transactions that write the same key for the first time; the second is
    counted and is in the way of later ones, but no reader of the pool sees it. *)
Theorem second_first_writer_is_lost :
  (put F2 (puts [F1])).1 = Ret tt /\ GetTxCounnt (puts [F1; F2]) = 2%Z /\ served (puts [F1; F2]) = ["F1"] /\ lost (puts [F1; F2]) "F2".
Proof.
  split_and!; [by vm_compute..|]. exists 2. split; [by vm_compute|]. intros [[|i]|[|i]|t]; by vm_compute.
Qed.

(** A reader is not in the way of a transaction that overwrites what it read. *)
Example reader_is_no_conflict : (FindConflictByTx W (puts [R])).1 = Ret [].
Proof. by vm_compute. Qed.

(** A child of output 1 of a transaction that turns out to have one output: the
    pool looks at the children from there on and meets an output without one. *)
Example gap_in_children_panics : (put X (NewMempool 0)).1 = Ret tt /\ (put Y (puts [X])).1 = Panic.
Proof. by vm_compute. Qed.
