(* ===== verification/Acl.v ===== *)
(** * Access control: accounts and the tree of signatures

    [kernel/permission/acl]: an account has an access control list, which names
    the keys and accounts that may act for it.  A transaction lists the paths by
    which it is authorised ([account/account/key]); the paths are joined to a
    tree of [PermNode]s, the tree is listed breadth first and decided from its
    end to its root.

    The nodes of the tree are objects that are found again by the walk, so they
    are kept in a heap and a pointer is an index.  Weights are [float64]: the
    IEEE 754 operations of [SpecFloat] with 53 bits of precision. *)

From Stdlib Require Import ZArith Lia Ascii SpecFloat.
From stdpp Require Import base gmap strings list numbers sorting.
From S2P Require Import Prelude GoValues.

Set Default Proof Using "Type".

(** ** [float64] *)

Notation float64 := spec_float (only parsing).
Definition float_zero : float64 := S754_zero false.
Definition float_add : float64 -> float64 -> float64 := SFadd 53 1024.
Definition float_le : float64 -> float64 -> bool := SFleb.

(** The number [m / 10^k], rounded to nearest. *)
Definition float_decimal (m : Z) (k : nat) : float64 :=
  let d := (10 ^ Z.of_nat k)%Z in
  let s := Z.max 0 (60 + Z.log2 d - Z.log2 (Z.abs m)) in
  let '(q, r) := Z.div_eucl (Z.abs m * 2 ^ s) d in
  if (m =? 0)%Z then float_zero
  else binary_round_aux 53 1024 (m <? 0)%Z q (- s) (if (r =? 0)%Z then loc_Exact else loc_Inexact (Z.compare (2 * r) d)).

Definition dec_float64 (j : json) : option float64 :=
  match j with
  | JNum n => Some (float_decimal n 0)
  | JDec m k => Some (float_decimal m k)
  | JNull => Some float_zero
  | _ => None
  end.

(** ** Access control lists *)

(** [PermissionRule] is an open enumeration of 32 bits. *)
Definition SIGN_THRESHOLD : Z := 1.
Definition SIGN_AKSET : Z := 2.
Definition SIGN_RATE : Z := 3.
Definition SIGN_SUM : Z := 4.
Definition CA_SERVER : Z := 5.
Definition COMMUNITY_VOTE : Z := 6.

(** Pointers and maps may be nil. *)
Record PermissionModel := mkPm { Rule : Z; AcceptValue : float64 }.
Record AkSets := mkAkSets { Sets : option (gmap string (option (list string))); Expression : string }.
Record Acl := mkAcl { Pm : option PermissionModel; AksWeight : option (gmap string float64); acl_AkSets : option AkSets }.

(** [json.Unmarshal] into an [Acl]. *)
Definition dec_enum (j : json) : option Z :=
  match j with JNum n => if bool_decide (-2147483648 <= n < 2147483648)%Z then Some n else None | JNull => Some 0%Z | _ => None end.

Definition dec_pm (l : list (string * json)) : option PermissionModel :=
  match field dec_enum "rule" l 0%Z, field dec_float64 "acceptValue" l float_zero with
  | Some r, Some v => Some (mkPm r v)
  | _, _ => None
  end.
Definition dec_aksets (l : list (string * json)) : option AkSets :=
  match field (dec_map (dec_pointer (fun l => field dec_strings "aks" l []))) "sets" l None, field_str "expression" l "" with
  | Some sets, Some e => Some (mkAkSets sets e)
  | _, _ => None
  end.
Definition dec_acl (l : list (string * json)) : option Acl :=
  match field (dec_pointer dec_pm) "pm" l None, field (dec_map dec_float64) "aksWeight" l None, field (dec_pointer dec_aksets) "akSets" l None with
  | Some pm, Some w, Some sets => Some (mkAcl pm w sets)
  | _, _, _ => None
  end.
Definition noAcl : Acl := mkAcl None None None.
Definition UnmarshalAcl (b : blob) : option Acl :=
  match b with
  | Raw t => if bool_decide (t = "null") then Some noAcl else None
  | Doc l => dec_acl l
  end.

(** The interface of the manager, [base.AclManager]. *)
Class AclManager := {
  GetAccountACL : string -> outcome (option Acl);
  GetContractMethodACL : string -> string -> outcome (option Acl)
}.

(** ** Names *)

Definition accountSize : nat := 16.
Definition accountPrefix : string := "XC".
Definition accountBcnameSep : ascii := "@".
Definition uriSep : ascii := "/".

Fixpoint all_digits (s : string) : bool :=
  match s with "" => true | String c s => bool_decide (is_Some (digit_value c)) && all_digits s end.

Definition ValidRawAccount (accountName : string) : option string :=
  if is_empty_string accountName then Some "invoke NewAccount failed, account name is empty"
  else if negb (String.length accountName =? accountSize)%nat then Some "invoke NewAccount failed, account name length"
  else if all_digits accountName then None else Some "invoke NewAccount failed, account name expect continuous number".

(** -1 for the empty name, 0 for a key, 1 for an account. *)
Definition IsAccount (name : string) : Z :=
  if is_empty_string name then (-1)%Z
  else if negb (String.prefix accountPrefix name) then 0%Z
  else
    let prefix := default "" (head (Split accountBcnameSep name)) in
    match ValidRawAccount (String.substring 2 (String.length prefix) prefix) with Some _ => 0%Z | None => 1%Z end.

Definition SplitAccountURI (akuri : string) : list string := Split uriSep akuri.

(** ** The permission tree *)

Inductive ValidateStatus := NotVerified | Success | Failed.
#[global] Instance ValidateStatus_eq_dec : EqDecision ValidateStatus.
Proof. solve_decision. Defined.

Record PermNode := mkPermNode { Name : string; ACL : option Acl; pn_Status : ValidateStatus; Children : list nat }.
Definition NewPermNode (akName : string) (acl : option Acl) : PermNode := mkPermNode akName acl NotVerified [].
Definition add_child (c : nat) (n : PermNode) : PermNode := mkPermNode (Name n) (ACL n) (pn_Status n) (Children n ++ [c]).
Definition set_Status (st : ValidateStatus) (n : PermNode) : PermNode := mkPermNode (Name n) (ACL n) st (Children n).

Notation Nodes := (list PermNode) (only parsing).
Definition node_load (p : nat) : M Nodes PermNode := fun h => match h !! p with Some n => (Ret n, h) | None => (Panic, h) end.
Definition node_new (n : PermNode) : M Nodes nat := fun h => (Ret (length h), h ++ [n]).
Definition node_update (p : nat) (f : PermNode -> PermNode) : M Nodes unit := fun h => (Ret tt, alter f p h).

Section Tree.
Context `{AclManager} `{MapOrder}.

Definition child_named (h : Nodes) (name : string) (cs : list nat) : option nat :=
  snd <$> list_find (fun c => Name <$> h !! c = Some name) cs.
Definition FindChild (pnode : nat) (name : string) : M Nodes (option nat) := fun h =>
  (let! n := node_load pnode in mpure (child_named h name (Children n))) h.

(** The nodes of one path below [pnode]. *)
Fixpoint walk_uri (pnode : nat) (aklist : list string) : M Nodes unit :=
  match aklist with
  | [] => mpure tt
  | akname :: aklist =>
      let! childNode := FindChild pnode akname in
      match childNode with
      | Some c => walk_uri c aklist
      | None =>
          let! accountACL := mlift (GetAccountACL akname) in
          let! newNode := node_new (NewPermNode akname accountACL) in
          do! node_update pnode (add_child newNode) in
          walk_uri newNode aklist
      end
  end.

(** The part of a path below the root; [None] when the path is skipped. *)
Definition below_root (rootName : string) (rootIsAccount : bool) (akuri : string) : option (list string) :=
  let aklist := SplitAccountURI akuri in
  if rootIsAccount then
    match aklist with
    | a :: (_ :: _) as rest => if bool_decide (a = rootName) then Some (tail aklist) else None
    | _ => None
    end
  else Some aklist.

Fixpoint buildPermTree (root : nat) (rootName : string) (rootIsAccount : bool) (aksuri : list string) : M Nodes unit :=
  match aksuri with
  | [] => mpure tt
  | akuri :: aksuri =>
      do! (match below_root rootName rootIsAccount akuri with Some aklist => walk_uri root aklist | None => mpure tt end) in
      buildPermTree root rootName rootIsAccount aksuri
  end.

Definition BuildAccountPermTree (account : string) (aksuri : list string) : M Nodes nat :=
  let! accountACL := mlift (GetAccountACL account) in
  let! root := node_new (NewPermNode account accountACL) in
  do! buildPermTree root account true aksuri in mpure root.

Definition BuildMethodPermTree (contractName methodName : string) (aksuri : list string) : M Nodes nat :=
  let! methodACL := mlift (GetContractMethodACL contractName methodName) in
  let! root := node_new (NewPermNode methodName methodACL) in
  do! buildPermTree root methodName false aksuri in mpure root.

(** The list breadth first: [done] are the nodes whose children were listed. *)
Fixpoint bfs (fuel : nat) (h : Nodes) (done todo : list nat) : outcome (list nat) :=
  match todo with
  | [] => Ret done
  | p :: todo =>
      match fuel with
      | O => Panic
      | S fuel => bfs fuel h (done ++ [p]) (todo ++ from_option Children [] (h !! p))
      end
  end.
Definition GetPermTreeList (root : nat) : M Nodes (list nat) := fun h => (bfs (S (length h)) h [] [root], h).

(** ** Rules *)

Definition findWeightInACL (name : string) (acl : option Acl) : float64 :=
  match acl with
  | Some (mkAcl (Some _) (Some w) _) => default float_zero (w !! name)
  | _ => float_zero
  end.

(** The children of a node that count. *)
Definition ThresholdValidator_Validate (pnode : PermNode) (children : list PermNode) : outcome bool :=
  let weightSum := foldl (fun sum node => if decide (pn_Status node = Success) then float_add sum (findWeightInACL (Name node) (ACL pnode)) else sum)
                     float_zero children in
  match ACL pnode ≫= Pm with
  | Some pm => Ret (float_le (AcceptValue pm) weightSum)
  | None => Panic
  end.

Definition findAkInNodeList (name : string) (signedAks : list PermNode) : option PermNode :=
  snd <$> list_find (fun node => Name node = name) signedAks.
Definition validateAkSet (set : list string) (signedAks : list PermNode) : bool :=
  negb (bool_decide (set = [])) && negb (bool_decide (signedAks = [])) &&
  forallb (fun ak => bool_decide (pn_Status <$> findAkInNodeList ak signedAks = Some Success)) set.

(** A nil set is dereferenced. *)
Fixpoint some_set (sets : list (option (list string))) (signedAks : list PermNode) : outcome bool :=
  match sets with
  | [] => Ret false
  | None :: _ => Panic
  | Some set :: sets => if validateAkSet set signedAks then Ret true else some_set sets signedAks
  end.
Definition AKSetsValidator_Validate (pnode : PermNode) (children : list PermNode) : outcome bool :=
  match ACL pnode with
  | None => Ret true
  | Some acl =>
      match acl_AkSets acl ≫= Sets with
      | None => Ret false
      | Some sets => some_set (map_values sets) children
      end
  end.

Definition GetACLValidator (pr : Z) : outcome (PermNode -> list PermNode -> outcome bool) :=
  if bool_decide (pr = SIGN_THRESHOLD) then Ret ThresholdValidator_Validate
  else if bool_decide (pr = SIGN_AKSET) then Ret AKSetsValidator_Validate
  else if bool_decide (pr ∈ [SIGN_RATE; SIGN_SUM; CA_SERVER; COMMUNITY_VOTE]) then Err "This permission rule is not implemented"
  else Err "Unknown permission rule".

(** ** Deciding a node *)

Definition check_acl (pnode : PermNode) (children : list PermNode) : outcome bool :=
  match ACL pnode with
  | None => Ret true
  | Some acl =>
      match Pm acl with
      | None => Err "Acl has empty Pm field"
      | Some pm => match GetACLValidator (Rule pm) with
                   | Ret validate => validate pnode children
                   | Err e => Err e
                   | Panic => Panic
                   end
      end
  end.

(** [asAccount]: the root of the tree of a method is treated as an account. *)
Definition check_node (asAccount : bool) (pnode : PermNode) (children : list PermNode) : outcome bool :=
  let nameCheck := IsAccount (Name pnode) in
  if ((nameCheck <? 0) || (1 <? nameCheck))%Z then Err "Invalid account/ak name"
  else
    let nameCheck := if asAccount then 1%Z else nameCheck in
    if (nameCheck =? 0)%Z then Ret true else check_acl pnode children.

Definition load_all (cs : list nat) (h : Nodes) : list PermNode := omap (fun c => h !! c) cs.

(** The nodes of [plist] from its end on; [plist] is given in reverse. *)
Fixpoint validate_nodes (isAccount : bool) (rplist : list nat) : M Nodes unit :=
  match rplist with
  | [] => mpure tt
  | p :: rplist => fun h =>
      (let! pnode := node_load p in
       let! ok := mlift (check_node (bool_decide (rplist = []) && negb isAccount) pnode (load_all (Children pnode) h)) in
       do! node_update p (set_Status (if ok then Success else Failed)) in
       validate_nodes isAccount rplist) h
  end.

Definition validatePermTree (root : nat) (isAccount : bool) : M Nodes bool :=
  let! plist := GetPermTreeList root in
  do! validate_nodes isAccount (rev plist) in
  let! r := node_load root in
  mpure (bool_decide (pn_Status r = Success)).

Definition run_tree (c : M Nodes bool) : outcome bool := (c []).1.

Definition IdentifyAccount (account : string) (aksuri : list string) : outcome bool :=
  run_tree (let! root := BuildAccountPermTree account aksuri in validatePermTree root true).
Definition CheckContractMethodPerm (aksuri : list string) (contractName methodName : string) : outcome bool :=
  run_tree (let! root := BuildMethodPermTree contractName methodName aksuri in validatePermTree root false).
End Tree.
