(* ===== verification/AclSpec.v ===== *)
(** * Access control: what the tree decides

    The tree is built node by node in a heap, listed breadth first and decided
    from its end; [verdict] is the same decision by recursion on the paths.
    [trie] relates the heap to the paths: there is one node for every prefix. *)

From Stdlib Require Import ZArith Lia Ascii SpecFloat.
From stdpp Require Import base gmap strings list numbers sorting.
From S2P Require Import Prelude GoValues Acl.

Set Default Proof Using "Type".

Notation path := (list string) (only parsing).

(** ** Paths *)

(** What follows [pre] in [p]. *)
Fixpoint strip (pre p : path) : option path :=
  match pre, p with
  | [], _ => Some p
  | x :: pre, y :: p => if decide (x = y) then strip pre p else None
  | _ :: _, [] => None
  end.
Definition suffixes (pre : path) (ps : list path) : list path := omap (strip pre) ps.

(** The first components, in the order they appear. *)
Definition add_head (hs : list string) (p : path) : list string :=
  match p with [] => hs | x :: _ => if decide (x ∈ hs) then hs else hs ++ [x] end.
Definition heads (ps : list path) : list string := foldl add_head [] ps.

Lemma strip_Some pre p q : strip pre p = Some q <-> p = pre ++ q.
Proof.
  revert p. induction pre as [|x pre IH]; intros p; cbn; [naive_solver|]. destruct p as [|y p]; [done|]. case_decide as E; [subst; rewrite IH|]; naive_solver.
Qed.
Lemma strip_pre pre q : strip pre (pre ++ q) = Some q.
Proof. by apply strip_Some. Qed.
Lemma strip_self pre : strip pre pre = Some [].
Proof. apply strip_Some. by rewrite app_nil_r. Qed.
Lemma strip_app pre pre' p : strip (pre ++ pre') p = strip pre p ≫= strip pre'.
Proof. revert p. induction pre as [|x pre IH]; intros p; [done|]. destruct p as [|y p]; [done|]. cbn. case_decide; [apply IH|done]. Qed.
Lemma suffixes_app pre pre' ps : suffixes (pre ++ pre') ps = suffixes pre' (suffixes pre ps).
Proof.
  unfold suffixes. induction ps as [|p ps IH]; [done|]. cbn. rewrite strip_app. destruct (strip pre p) as [q|]; cbn; [|done].
  destruct (strip pre' q); by rewrite IH.
Qed.
Lemma suffixes_snoc pre ps p : suffixes pre (ps ++ [p]) = suffixes pre ps ++ option_list (strip pre p).
Proof. unfold suffixes. rewrite omap_app. cbn. by destruct (strip pre p). Qed.
Lemma suffixes_nil ps : suffixes [] ps = ps.
Proof. unfold suffixes. induction ps as [|p l IH]; [done|]. change (p :: omap (strip []) l = p :: l). by rewrite IH. Qed.
Lemma suffixes_elem pre ps q : q ∈ suffixes pre ps <-> pre ++ q ∈ ps.
Proof. unfold suffixes. rewrite list_elem_of_omap. setoid_rewrite strip_Some. naive_solver. Qed.

Lemma heads_snoc ps p : heads (ps ++ [p]) = add_head (heads ps) p.
Proof. unfold heads. by rewrite foldl_app. Qed.
Lemma heads_elem ps x : x ∈ heads ps <-> exists q, x :: q ∈ ps.
Proof.
  induction ps as [|p ps IH] using rev_ind; [cbn; split; [by intros ?%elem_of_nil|by intros (? & ?%elem_of_nil)]|].
  rewrite heads_snoc. setoid_rewrite elem_of_app. setoid_rewrite list_elem_of_singleton. destruct p as [|y p]; cbn; [naive_solver|].
  case_decide as Hy; [naive_solver|]. rewrite elem_of_app, list_elem_of_singleton. naive_solver.
Qed.
Lemma heads_suffixes pre ps x : x ∈ heads (suffixes pre ps) <-> exists q, pre ++ x :: q ∈ ps.
Proof. rewrite heads_elem. by setoid_rewrite suffixes_elem. Qed.

Definition inside (ps : list path) (pre : path) : Prop := pre = [] \/ exists q, pre ++ q ∈ ps.
Lemma inside_snoc ps pre x : inside ps (pre ++ [x]) <-> x ∈ heads (suffixes pre ps).
Proof.
  unfold inside. rewrite heads_suffixes. setoid_rewrite <- app_assoc. cbn. split; [|by right]. intros [E|?]; [by destruct pre|done].
Qed.

Section Spec.
Context `{AclManager} `{MO : MapOrder} (rootName : string) (rootAcl : option Acl).

(** ** The heap of a tree *)

Definition label (pre : path) (n : PermNode) : Prop :=
  pn_Status n = NotVerified /\
  match last pre with None => Name n = rootName /\ ACL n = rootAcl | Some x => Name n = x /\ GetAccountACL x = Ret (ACL n) end.

Record trie (D : gmap path nat) (ps : list path) (h : Nodes) : Prop := {
  tr_dom : forall pre, is_Some (D !! pre) <-> inside ps pre;
  tr_inj : forall pre pre' a, D !! pre = Some a -> D !! pre' = Some a -> pre = pre';
  tr_node : forall pre a, D !! pre = Some a -> exists n, h !! a = Some n /\ label pre n /\
    Forall2 (fun x c => D !! (pre ++ [x]) = Some c) (heads (suffixes pre ps)) (Children n)
}.

(** A trie looks at the paths through their prefixes only. *)
Lemma trie_ext D ps ps' h : (forall pre, heads (suffixes pre ps') = heads (suffixes pre ps)) -> trie D ps h -> trie D ps' h.
Proof.
  intros E [T1 T2 T3]. split; [|done|].
  - intros pre. rewrite T1. destruct pre as [|x pre _] using rev_ind; [by split; left|]. by rewrite !inside_snoc, E.
  - intros pre a Ha. destruct (T3 pre a Ha) as (n & Hn & Hl & Hf). exists n. by rewrite E.
Qed.

(** A path that is there already adds nothing. *)
Lemma heads_inside ps p pre : inside ps p -> heads (suffixes pre (ps ++ [p])) = heads (suffixes pre ps).
Proof.
  intros Hp. rewrite suffixes_snoc. destruct (strip pre p) as [q|] eqn:Es; cbn; [|by rewrite app_nil_r]. apply strip_Some in Es. subst p.
  rewrite heads_snoc. destruct q as [|x q]; [done|]. cbn. rewrite decide_True; [done|]. apply heads_suffixes.
  destruct Hp as [E|(r & Hr)]; [by destruct pre|]. exists (q ++ r). by rewrite <- app_assoc in Hr.
Qed.
Lemma trie_inside D ps p h a : D !! p = Some a -> trie D ps h -> trie D (ps ++ [p]) h.
Proof. intros Hp T. eapply trie_ext, T. intros pre. apply heads_inside, (tr_dom _ _ _ T). eauto. Qed.

(** A longer path in the place of its prefix. *)
Lemma heads_longer ps p q pre : inside ps (p ++ q) -> heads (suffixes pre (ps ++ [p ++ q])) = heads (suffixes pre (ps ++ [p])).
Proof.
  intros Hi. rewrite heads_inside by done. symmetry. apply heads_inside. destruct Hi as [[-> ->]%app_nil|(r & Hr)]; [by left|]. right. exists (q ++ r). by rewrite app_assoc.
Qed.

Lemma child_named_spec D ps h pre n x : trie D ps h -> Forall2 (fun x c => D !! (pre ++ [x]) = Some c) (heads (suffixes pre ps)) (Children n) ->
  child_named h x (Children n) = D !! (pre ++ [x]).
Proof.
  intros T Hf. unfold child_named. assert (forall y c, D !! (pre ++ [y]) = Some c -> Name <$> h !! c = Some y) as Hname.
  { intros y c Hc. destruct (tr_node _ _ _ T _ _ Hc) as (m & Hm & [_ Hl] & _). rewrite last_snoc in Hl. rewrite Hm. cbn. by destruct Hl as [-> _]. }
  destruct (list_find _ (Children n)) as [[i c]|] eqn:E; cbn.
  - apply list_find_Some in E as (Hi & Hx & _). destruct (Forall2_lookup_r _ _ _ _ _ Hf Hi) as (y & Hy & Hc). rewrite (Hname _ _ Hc) in Hx. injection Hx as ->. done.
  - symmetry. apply eq_None_not_Some. intros [c Hc]. pose proof (ex_intro (fun a => D !! (pre ++ [x]) = Some a) c Hc) as Hin.
    assert (x ∈ heads (suffixes pre ps)) as (i & Hi)%list_elem_of_lookup by (apply inside_snoc, (tr_dom _ _ _ T); eauto).
    destruct (Forall2_lookup_l _ _ _ _ _ Hf Hi) as (c' & Hc' & Hd). apply list_find_None in E. rewrite Forall_forall in E.
    apply (E c'); [by eapply list_elem_of_lookup_2|]. by apply Hname.
Qed.

(** A new node below [pre]. *)
Lemma trie_new D ps h pre a x acl : trie D (ps ++ [pre]) h -> D !! pre = Some a -> D !! (pre ++ [x]) = None -> GetAccountACL x = Ret acl ->
  trie (<[pre ++ [x] := length h]> D) (ps ++ [pre ++ [x]]) (alter (add_child (length h)) a (h ++ [NewPermNode x acl])).
Proof.
  intros T Ha Hx Eacl. set (c := length h). assert (forall pre' b, D !! pre' = Some b -> b < c) as Hlt.
  { intros pre' b Hb. destruct (tr_node _ _ _ T _ _ Hb) as (n & Hn & _). by eapply lookup_lt_Some. }
  assert (heads (suffixes pre (ps ++ [pre ++ [x]])) = heads (suffixes pre (ps ++ [pre])) ++ [x]) as Hpre.
  { rewrite !suffixes_snoc. rewrite strip_pre, strip_self. cbn.
    rewrite !heads_snoc. cbn. rewrite decide_False; [done|]. intros Hin. apply (proj2 (inside_snoc ps pre x)) in Hin.
    assert (inside (ps ++ [pre]) (pre ++ [x])) as [b Hb]%(tr_dom _ _ _ T); [|congruence]. destruct Hin as [|(q & Hq)]; [by left|]. right. exists q. apply elem_of_app. by left. }
  assert (heads (suffixes (pre ++ [x]) (ps ++ [pre ++ [x]])) = []) as Hnew.
  { assert (~ inside ps (pre ++ [x])) as Hni.
    { intros Hin. assert (inside (ps ++ [pre]) (pre ++ [x])) as [b Hb]%(tr_dom _ _ _ T); [|congruence]. destruct Hin as [|(q & Hq)]; [by left|]. right. exists q. apply elem_of_app. by left. }
    rewrite suffixes_snoc, strip_self. cbn. rewrite heads_snoc. cbn.
    destruct (suffixes (pre ++ [x]) ps) as [|q qs] eqn:E; [done|]. exfalso. apply Hni. right. exists q. apply suffixes_elem. rewrite E. left. }
  assert (forall pre', pre' <> pre -> pre' <> pre ++ [x] -> heads (suffixes pre' (ps ++ [pre ++ [x]])) = heads (suffixes pre' (ps ++ [pre]))) as Hother.
  { intros pre' H1 H2. rewrite !suffixes_snoc. destruct (strip pre' (pre ++ [x])) as [q|] eqn:Es.
    - apply strip_Some in Es. destruct q as [|y q _] using rev_ind; [rewrite app_nil_r in Es; congruence|]. rewrite app_assoc in Es. apply app_inj_tail in Es as [-> ->].
      rewrite strip_pre. cbn. rewrite !heads_snoc. destruct q as [|z q]; [by rewrite app_nil_r in H1|done].
    - destruct (strip pre' pre) as [q|] eqn:Es'; [|done]. apply strip_Some in Es'. subst pre. rewrite <- app_assoc in Es. by rewrite strip_pre in Es. }
  split.
  - intros pre'. rewrite lookup_insert_is_Some', (tr_dom _ _ _ T). destruct pre' as [|y pre' _] using rev_ind; [split; [by left|by right; left]|].
    rewrite !inside_snoc. destruct (decide (pre' = pre)) as [->|Hp].
    + rewrite Hpre, elem_of_app, list_elem_of_singleton. split; [intros [E|?]; [apply app_inj_tail in E as [_ ->]; by right|by left]|]. intros [?| ->]; [by right|by left].
    + destruct (decide (pre' = pre ++ [x])) as [->|Hq].
      * rewrite Hnew. split; [|by intros ?%elem_of_nil]. intros [E|Hin].
        { apply (f_equal length) in E. rewrite !length_app in E. cbn in E. lia. }
        apply (proj2 (inside_snoc _ _ _)), (tr_dom _ _ _ T) in Hin. exfalso.
        assert (inside (ps ++ [pre]) (pre ++ [x])) as [b Hb]%(tr_dom _ _ _ T); [|congruence].
        apply (tr_dom _ _ _ T) in Hin as [E|(q & Hq)]; [by destruct pre|]. right. exists (y :: q). by rewrite <- app_assoc in Hq.
      * rewrite Hother by done. split; [intros [E|?]; [|done]; apply app_inj_tail in E as [? _]; congruence|by right].
  - intros p1 p2 b. rewrite !lookup_insert_Some. intros [[<- <-]|[_ H1]] [[<- ?]|[_ H2]]; [done| | |].
    + apply Hlt in H2. lia.
    + subst b. apply Hlt in H1. lia.
    + by eapply (tr_inj _ _ _ T).
  - assert (forall p' b, D !! p' = Some b -> <[pre ++ [x] := c]> D !! p' = Some b) as Hkeep by (intros p' b Hb; rewrite lookup_insert_ne by congruence; done).
    intros p' b. rewrite lookup_insert_Some. intros [[<- <-]|[Hne Hb]].
    + exists (NewPermNode x acl). split_and!.
      * rewrite list_lookup_alter_ne; [by rewrite list_lookup_middle|]. intros ->. apply Hlt in Ha. lia.
      * split; [done|]. by rewrite last_snoc.
      * rewrite Hnew. constructor.
    + destruct (tr_node _ _ _ T _ _ Hb) as (n & Hn & Hl & Hf). pose proof (Hlt _ _ Hb) as Hbc. destruct (decide (p' = pre)) as [->|Hp].
      * replace b with a in * by congruence. exists (add_child c n). split_and!.
        -- rewrite list_lookup_alter_eq, lookup_app_l by done. by rewrite Hn.
        -- exact Hl.
        -- rewrite Hpre. cbn. apply Forall2_app; [|by constructor; [rewrite lookup_insert_eq|]]. eapply Forall2_impl; [exact Hf|]. intros y d. apply Hkeep.
      * exists n. split_and!; [|done|].
        -- rewrite list_lookup_alter_ne, lookup_app_l by (done || intros <-; apply Hp; by eapply (tr_inj _ _ _ T)). done.
        -- rewrite Hother; [|done|congruence]. eapply Forall2_impl; [exact Hf|]. intros y d. apply Hkeep.
Qed.

Definition unknown_name (p : path) : Prop := exists x, x ∈ p /\ forall acl, GetAccountACL x <> Ret acl.

Lemma walk_uri_spec names : forall D ps h pre a, trie D (ps ++ [pre]) h -> D !! pre = Some a ->
  match walk_uri a names h with
  | (Ret _, h') => exists D', trie D' (ps ++ [pre ++ names]) h' /\ D' !! [] = D !! []
  | _ => unknown_name names
  end.
Proof.
  induction names as [|x names IH]; intros D ps h pre a T Ha; cbn [walk_uri].
  { exists D. by rewrite app_nil_r. }
  destruct (tr_node _ _ _ T _ _ Ha) as (n & Hn & Hl & Hf). unfold FindChild. unfold mbnd at 1 2, node_load. rewrite Hn. cbn [mpure].
  rewrite (child_named_spec D _ h pre n x T Hf). destruct (D !! (pre ++ [x])) as [c|] eqn:Ec.
  - assert (trie D (ps ++ [pre ++ [x]]) h) as T'.
    { eapply trie_ext, T. intros p. destruct (proj1 (tr_dom _ _ _ T (pre ++ [x])) ltac:(eauto)) as [|(q & [Hq|E%list_elem_of_singleton]%elem_of_app)]; [by destruct pre| |].
      - apply heads_longer. right. eauto.
      - rewrite <- app_assoc in E. apply (f_equal length) in E. rewrite length_app in E. cbn in E. lia. }
    specialize (IH D ps h (pre ++ [x]) c T' Ec). destruct (walk_uri c names h) as [[]]; rewrite <- ?app_assoc in IH; [exact IH|..]; destruct IH as (y & Hy & ?); exists y; (split; [by right|done]).
  - unfold mbnd at 1, mlift. destruct (GetAccountACL x) as [acl|e|] eqn:Eacl; [|exists x; split; [left|congruence]..].
    unfold mbnd, node_new, node_update. specialize (IH _ ps _ (pre ++ [x]) (length h) (trie_new D ps h pre a x acl T Ha Ec Eacl) (lookup_insert_eq _ _ _)).
    destruct (walk_uri (length h) names _) as [[]]; rewrite <- ?app_assoc in IH; [|destruct IH as (y & Hy & ?); exists y; (split; [by right|done])..].
    destruct IH as (D' & T' & E'). exists D'. split; [exact T'|]. rewrite E'. apply lookup_insert_ne. by destruct pre.
Qed.

Definition tree_paths (rootIsAccount : bool) (aksuri : list string) : list path := omap (below_root rootName rootIsAccount) aksuri.

Lemma buildPermTree_spec isAcc aksuri : forall D ps h root, trie D ps h -> D !! [] = Some root ->
  match buildPermTree root rootName isAcc aksuri h with
  | (Ret _, h') => exists D', trie D' (ps ++ tree_paths isAcc aksuri) h' /\ D' !! [] = Some root
  | _ => exists p, p ∈ tree_paths isAcc aksuri /\ unknown_name p
  end.
Proof.
  induction aksuri as [|uri aksuri IH]; intros D ps h root T Hroot; cbn [buildPermTree tree_paths omap list_omap].
  { exists D. by rewrite app_nil_r. }
  destruct (below_root rootName isAcc uri) as [p|].
  - pose proof (walk_uri_spec p D ps h [] root (trie_inside _ _ _ _ _ Hroot T) Hroot) as Hw. unfold mbnd.
    destruct (walk_uri root p h) as [[]]; [|exists p; (split; [left|done])..]. destruct Hw as (D1 & T1 & E1). rewrite Hroot in E1.
    specialize (IH D1 _ _ root T1 E1). destruct (buildPermTree root rootName isAcc aksuri _) as [[]]; [by rewrite <- app_assoc in IH|..]; destruct IH as (q & Hq & ?); exists q; (split; [by right|done]).
  - apply (IH D ps h root T Hroot).
Qed.

Lemma trie_root : trie {[ [] := 0 ]} [] [NewPermNode rootName rootAcl].
Proof.
  split.
  - intros pre. rewrite lookup_singleton_is_Some. unfold inside. split; [by left|]. intros [->|(q & ?%elem_of_nil)]; done.
  - intros p p' a [<- _]%lookup_singleton_Some [<- _]%lookup_singleton_Some. done.
  - intros p a [<- <-]%lookup_singleton_Some. exists (NewPermNode rootName rootAcl). split_and!; [done|done|constructor].
Qed.

(** ** The list *)

Section Listed.
Context (D : gmap path nat) (ps : list path) (h : Nodes) (T : trie D ps h).

Definition addr (pre : path) : nat := default 0 (D !! pre).
Definition kids (pre : path) : list path := (fun x => pre ++ [x]) <$> heads (suffixes pre ps).
Definition known_prefix (pre : path) : Prop := is_Some (D !! pre).

Lemma addr_inj pre pre' : known_prefix pre -> known_prefix pre' -> addr pre = addr pre' -> pre = pre'.
Proof using T. unfold addr. intros [a Ea] [b Eb]. rewrite Ea, Eb. cbn. intros <-. by eapply (tr_inj _ _ _ T). Qed.

Lemma node_kids pre : known_prefix pre -> exists n, h !! addr pre = Some n /\ label pre n /\ Children n = addr <$> kids pre /\ Forall known_prefix (kids pre).
Proof using T.
  intros [a Ea]. destruct (tr_node _ _ _ T _ _ Ea) as (n & Hn & Hl & Hf). exists n. unfold addr at 1. rewrite Ea. split_and!; [done|done| |].
  - unfold kids. rewrite <- list_fmap_compose. clear -Hf. induction Hf as [|x c xs cs Hx _ IH]; [done|]. cbn. f_equal; [|exact IH]. unfold addr. by rewrite Hx.
  - unfold kids. apply Forall_fmap. clear -Hf. induction Hf as [|x c xs cs Hx _ IH]; constructor; [cbn; unfold known_prefix; by rewrite Hx|exact IH].
Qed.

Lemma kids_NoDup pre : NoDup (kids pre).
Proof.
  unfold kids. apply NoDup_fmap_2; [intros x y E%app_inj_tail; by destruct E|]. clear. generalize (suffixes pre ps) as qs. intros qs. induction qs as [|q qs IH] using rev_ind; [constructor|].
  rewrite heads_snoc. destruct q as [|x q]; cbn; [done|]. case_decide as Hx; [done|]. apply NoDup_app. split_and!; [done| |apply NoDup_singleton].
  intros y Hy ->%list_elem_of_singleton. done.
Qed.

(** [done] were taken from the queue, [todo] are in it. *)
Record bfs_ok (done todo : list path) : Prop := {
  bo_nodup : NoDup (done ++ todo);
  bo_known : Forall known_prefix (done ++ todo);
  bo_root : exists l, done ++ todo = [] :: l;
  bo_parent : forall pre x, pre ++ [x] ∈ done ++ todo -> pre ∈ done;
  bo_kids : forall i pre k, done !! i = Some pre -> k ∈ kids pre -> exists j, i < j /\ (done ++ todo) !! j = Some k
}.

Lemma bfs_start : known_prefix [] -> bfs_ok [] [[]].
Proof.
  intros Hr. split; cbn.
  - apply NoDup_singleton.
  - by constructor.
  - by exists [].
  - intros pre x E%list_elem_of_singleton. by destruct pre.
  - done.
Qed.

Lemma bfs_step done pre todo : bfs_ok done (pre :: todo) -> bfs_ok (done ++ [pre]) (todo ++ kids pre).
Proof using T.
  intros [B1 B2 [l B3] B4 B5]. assert ((done ++ [pre]) ++ todo ++ kids pre = (done ++ pre :: todo) ++ kids pre) as E by (by rewrite <- !app_assoc).
  pose proof B1 as (Hnd & Hdisj & [Hpt Hnt]%NoDup_cons)%NoDup_app. assert (pre ∉ done) as Hpd by (intros Hin; apply (Hdisj _ Hin); left).
  destruct (node_kids pre) as (n & Hn & Hl & Hc & Hk); [by apply Forall_app in B2 as [_ [? _]%Forall_cons]|].
  split; rewrite ?E.
  - apply NoDup_app. split_and!; [done| |apply kids_NoDup]. intros q Hq (x & -> & _)%list_elem_of_fmap. by apply Hpd, (B4 pre x).
  - by apply Forall_app.
  - rewrite B3. by eexists.
  - intros q x [Hin|(y & [-> _]%app_inj_tail & _)%list_elem_of_fmap]%elem_of_app; apply elem_of_app; [left; by eapply B4|right; by left].
  - intros i q k [Hi|[Hi Hq]]%lookup_app_Some Hkq.
    + destruct (B5 i q k Hi Hkq) as (j & Hij & Hj). exists j. split; [done|]. by apply lookup_app_l_Some.
    + destruct (i - length done) as [|?] eqn:Ei; [|done]. injection Hq as <-. apply list_elem_of_lookup in Hkq as (j & Hj).
      exists (length (done ++ pre :: todo) + j). split; [rewrite length_app; cbn; lia|]. rewrite lookup_app_r by lia. by rewrite Nat.add_comm, Nat.add_sub.
Qed.

Lemma bfs_run fuel : forall done todo, bfs_ok done todo -> length h < fuel + length done ->
  exists P, bfs fuel h (addr <$> done) (addr <$> todo) = Ret (addr <$> P) /\ bfs_ok P [].
Proof using T.
  induction fuel as [|fuel IH]; intros done todo B Hf; destruct todo as [|pre todo]; cbn [bfs fmap list_fmap]; [by exists done| |by exists done|].
  - exfalso. assert (length (done ++ pre :: todo) <= length h); [|rewrite length_app in *; cbn in *; lia].
    rewrite <- (length_fmap addr). replace (length h) with (length (seq 0 (length h))) by apply length_seq. apply submseteq_length, NoDup_submseteq.
    + pose proof (bo_nodup _ _ B) as Nd. pose proof (bo_known _ _ B) as Hk. revert Nd Hk. generalize (done ++ pre :: todo) as l. intros l Nd Hk. clear -Nd Hk T.
      induction l as [|q l IHl]; [constructor|]. apply NoDup_cons in Nd as [Hq Nd]. apply Forall_cons in Hk as [Kq Hk]. cbn. apply NoDup_cons. split; [|by apply IHl].
      intros (q' & E & Hq')%list_elem_of_fmap. apply Hq. rewrite Forall_forall in Hk. by rewrite (addr_inj q q' Kq (Hk _ Hq') E).
    + intros a (q & -> & Hq)%list_elem_of_fmap. pose proof (bo_known _ _ B) as Hk. rewrite Forall_forall in Hk. destruct (node_kids q (Hk q Hq)) as (n & Hn & _).
      apply elem_of_seq. apply lookup_lt_Some in Hn. lia.
  - pose proof (bo_known _ _ B) as [_ [Kp _]%Forall_cons]%Forall_app. destruct (node_kids pre Kp) as (n & Hn & _ & Hc & _). rewrite Hn. cbn [from_option]. rewrite Hc.
    destruct (IH (done ++ [pre]) (todo ++ kids pre) (bfs_step _ _ _ B)) as (P & E & BP); [rewrite length_app; cbn; lia|]. exists P. rewrite !fmap_app in E. by split.
Qed.

(** The list has every node before its children. *)
Lemma GetPermTreeList_spec root : D !! [] = Some root -> exists P, GetPermTreeList root h = (Ret (addr <$> P), h) /\ bfs_ok P [].
Proof using T.
  intros Hr. destruct (bfs_run (S (length h)) [] [[]]) as (P & E & B); [apply bfs_start; by exists root|cbn; lia|]. exists P. split; [|done].
  unfold GetPermTreeList. cbn [fmap list_fmap] in E. unfold addr at 1 in E. rewrite Hr in E. cbn in E. f_equal. exact E.
Qed.
End Listed.

(** ** The decision by recursion *)

Definition status_of (v : bool) : ValidateStatus := if v then Success else Failed.
Definition decided (x : string) (v : bool) : PermNode := mkPermNode x None (status_of v) [].
Definition of_outcome {A} (o : outcome A) : option A := match o with Ret a => Some a | _ => None end.

(** The node [name] with the paths [ps] below it: the first components of the
    paths are its children, each with what follows. *)
Fixpoint verdict (depth : nat) (asAccount : bool) (name : string) (acl : option Acl) (ps : list path) : option bool :=
  match depth with
  | O => None
  | S depth =>
      mapM (fun x => of_outcome (GetAccountACL x) ≫= fun a => verdict depth false x a (suffixes [x] ps)) (heads ps) ≫= fun vs =>
      of_outcome (check_node asAccount (NewPermNode name acl) (zip_with decided (heads ps) vs))
  end.

Definition simple (n : PermNode) : PermNode := mkPermNode (Name n) None (pn_Status n) [].
Lemma find_simple name ns : pn_Status <$> findAkInNodeList name (simple <$> ns) = pn_Status <$> findAkInNodeList name ns.
Proof.
  unfold findAkInNodeList. induction ns as [|n ns IH]; [done|]. cbn. case_decide as E; [done|].
  destruct (list_find _ (simple <$> ns)) as [[]|], (list_find _ ns) as [[]|]; done.
Qed.
Lemma threshold_simple n n' ns ns' : ACL n = ACL n' -> simple <$> ns = simple <$> ns' -> ThresholdValidator_Validate n ns = ThresholdValidator_Validate n' ns'.
Proof.
  intros E2 E3. unfold ThresholdValidator_Validate. rewrite E2. set (f := fun (sum : spec_float) node => if decide (pn_Status node = Success) then _ else sum).
  assert (forall l s, foldl f s l = foldl f s (simple <$> l)) as Hf by (induction l as [|x l IH]; intros s; [done|]; cbn; apply IH). by rewrite (Hf ns), (Hf ns'), E3.
Qed.
Lemma aksets_simple n n' ns ns' : ACL n = ACL n' -> simple <$> ns = simple <$> ns' -> AKSetsValidator_Validate n ns = AKSetsValidator_Validate n' ns'.
Proof.
  intros E2 E3. unfold AKSetsValidator_Validate. rewrite E2. destruct (ACL n') as [acl|]; [|done]. destruct (acl_AkSets _ ≫= Sets) as [sets|]; [|done].
  assert (forall set, validateAkSet set ns = validateAkSet set ns') as Hv.
  { intros set. unfold validateAkSet. f_equal; [f_equal; f_equal; apply bool_decide_ext; destruct ns, ns'; done|].
    induction set as [|ak set IH]; [done|]. cbn. rewrite IH. f_equal. apply bool_decide_ext. by rewrite <- (find_simple ak ns), E3, find_simple. }
  induction (map_values sets) as [|[set|] l IH]; [done| |done]. cbn. by rewrite Hv, IH.
Qed.
Lemma check_node_simple asA n n' ns ns' : Name n = Name n' -> ACL n = ACL n' -> simple <$> ns = simple <$> ns' -> check_node asA n ns = check_node asA n' ns'.
Proof.
  intros E1 E2 E3. unfold check_node, check_acl. rewrite E1, E2. case_match; [done|]. case_match; [done|]. destruct (ACL n') as [acl|] eqn:En; [|done]. destruct (Pm acl) as [pm|]; [|done].
  unfold GetACLValidator. repeat case_bool_decide; [apply threshold_simple|apply aksets_simple|done|done]; congruence.
Qed.

Section Decide.
Context (D : gmap path nat) (ps : list path) (h : Nodes) (T : trie D ps h) (isAccount : bool) (N : nat).
Context (pos : 0 < N) (deep : forall p, p ∈ ps -> length p < N).
Notation addr := (addr D).
Notation kids := (kids ps).

Definition V (pre : path) : option bool :=
  match last pre with
  | None => verdict N (negb isAccount) rootName rootAcl ps
  | Some x => of_outcome (GetAccountACL x) ≫= fun a => verdict (N - length pre) false x a (suffixes pre ps)
  end.

Lemma mapM_fmap_eq {A B C} (f : B -> option C) (g : A -> B) l : mapM f (g <$> l) = mapM (fun a => f (g a)) l.
Proof. induction l as [|x l IH]; [done|]. cbn. by rewrite IH. Qed.

Lemma V_unfold pre n : known_prefix D pre -> h !! addr pre = Some n ->
  V pre = mapM V (kids pre) ≫= fun vs => of_outcome (check_node (bool_decide (pre = []) && negb isAccount) n (zip_with decided (heads (suffixes pre ps)) vs)).
Proof using T deep pos.
  intros Hk Hn. destruct (node_kids D ps h T pre Hk) as (n0 & Hn0 & [_ Hl] & _). replace n0 with n in * by congruence.
  assert (exists d, N - length pre = S d) as [d Ed].
  { apply (tr_dom _ _ _ T) in Hk as [->|(q & Hq)]; [exists (N - 1); cbn; lia|]. apply deep in Hq. rewrite length_app in Hq. exists (N - length pre - 1). lia. }
  assert (mapM V (kids pre) = mapM (fun x => of_outcome (GetAccountACL x) ≫= fun a => verdict d false x a (suffixes [x] (suffixes pre ps))) (heads (suffixes pre ps))) as ->.
  { unfold Spec.kids. rewrite mapM_fmap_eq. apply mapM_ext. intros x. unfold V. rewrite last_snoc, suffixes_app, length_app. cbn. by replace (N - (length pre + 1)) with d by lia. }
  unfold V at 1. destruct (last pre) as [x|] eqn:El.
  - destruct Hl as [Hx Ha]. rewrite Ha. cbn. rewrite Ed. cbn. rewrite bool_decide_false by (intros ->; done). cbn [andb].
    destruct (mapM _ _) as [vs|]; [|done]. cbn. f_equal. apply check_node_simple; done.
  - apply last_None in El as ->. destruct Hl as [Hx Ha]. rewrite Nat.sub_0_r in Ed. rewrite Ed. rewrite suffixes_nil.
    cbn [verdict]. rewrite bool_decide_true by done. cbn [andb]. destruct (mapM _ _) as [vs|]; [|done]. cbn. f_equal. apply check_node_simple; done.
Qed.

(** The heap when the nodes of [l] were decided. *)
Definition marked (l : list path) (h' : Nodes) : Prop :=
  forall pre n, known_prefix D pre -> h !! addr pre = Some n ->
    if decide (pre ∈ l) then exists v, V pre = Some v /\ h' !! addr pre = Some (set_Status (status_of v) n) else h' !! addr pre = Some n.

Lemma marked_kids l h' pre n : known_prefix D pre -> h !! addr pre = Some n -> (forall k, k ∈ kids pre -> k ∈ l) -> marked l h' ->
  exists vs, mapM V (kids pre) = Some vs /\ simple <$> load_all (Children n) h' = simple <$> zip_with decided (heads (suffixes pre ps)) vs.
Proof using T deep pos.
  intros Hk Hn Hin Hm. destruct (node_kids D ps h T pre Hk) as (n0 & Hn0 & _ & Hc & Hkn). replace n0 with n in * by congruence. rewrite Hc. clear Hc Hn Hn0 n0.
  unfold Spec.kids in *. induction (heads (suffixes pre ps)) as [|x xs IH]; [by exists []|]. cbn in Hin, Hkn. apply Forall_cons in Hkn as [Kx Hkn].
  destruct IH as (vs & E1 & E2); [intros k Hk'; apply Hin; by right|done|]. destruct (node_kids D ps h T (pre ++ [x]) Kx) as (m & Hm' & [_ Hl] & _). rewrite last_snoc in Hl.
  pose proof (Hm _ _ Kx Hm') as Hx. rewrite decide_True in Hx by (apply Hin; left). destruct Hx as (v & Ev & Hv). exists (v :: vs). cbn. rewrite Ev. cbn. rewrite E1. cbn. split; [done|].
  unfold load_all in *. cbn. rewrite Hv. cbn. f_equal; [|exact E2]. unfold simple. cbn. by destruct Hl as [-> _].
Qed.

Lemma marked_step l h' pre n v : known_prefix D pre -> h !! addr pre = Some n -> V pre = Some v -> pre ∉ l -> marked l h' ->
  marked (pre :: l) (alter (set_Status (status_of v)) (addr pre) h').
Proof using T deep pos.
  intros Hk Hn Ev Hni Hm q m Hq Hqm. destruct (decide (q = pre)) as [->|Hne].
  - rewrite decide_True by left. exists v. split; [done|]. rewrite list_lookup_alter_eq. pose proof (Hm _ _ Hk Hn) as Hp. rewrite decide_False in Hp by done. rewrite Hp. by replace m with n by congruence.
  - assert (addr pre <> addr q) as Ha by (intros E; apply Hne; symmetry; by eapply (addr_inj D ps h T)). rewrite list_lookup_alter_ne by done. specialize (Hm q m Hq Hqm).
    destruct (decide (q ∈ l)); [rewrite decide_True by (by right)|rewrite decide_False by set_solver]; done.
Qed.

Lemma validate_run P : bfs_ok D ps P [] -> forall l1 l2 h', P = l1 ++ l2 -> marked l2 h' ->
  match validate_nodes isAccount (rev (addr <$> l1)) h' with
  | (Ret _, h2) => marked P h2
  | _ => exists pre, pre ∈ l1 /\ V pre = None
  end.
Proof using T deep pos.
  intros [B1 B2 [l B3] _ B5]. rewrite app_nil_r in *. intros l1. induction l1 as [|pre l1 IH] using rev_ind; intros l2 h' E Hm; [by rewrite E|].
  rewrite fmap_app, rev_app_distr. cbn [fmap list_fmap rev app validate_nodes]. rewrite <- app_assoc in E. cbn in E.
  assert (known_prefix D pre) as Hk by (rewrite E in B2; by apply Forall_app in B2 as [_ [? _]%Forall_cons]).
  destruct (node_kids D ps h T pre Hk) as (n & Hn & _). rewrite E in B1. pose proof B1 as (_ & Hd & [Hni _]%NoDup_cons)%NoDup_app.
  pose proof (Hm _ _ Hk Hn) as Hload. rewrite decide_False in Hload by done. unfold mbnd at 1, node_load. rewrite Hload.
  assert (forall k, k ∈ kids pre -> k ∈ l2) as Hkl.
  { intros k Hkk. destruct (B5 (length l1) pre k) as (j & Hj & Ek); [by rewrite E, list_lookup_middle|done|]. rewrite E in Ek. 
    apply (list_elem_of_lookup_2 l2 (j - S (length l1))). rewrite lookup_app_r in Ek by lia. destruct (j - length l1) as [|d] eqn:Ej; [lia|]. cbn in Ek. by replace (j - S (length l1)) with d by lia. }
  destruct (marked_kids l2 h' pre n Hk Hn Hkl Hm) as (vs & Evs & Es).
  assert (bool_decide (rev (addr <$> l1) = []) = bool_decide (pre = [])) as ->.
  { apply bool_decide_ext. rewrite B3 in E. destruct l1 as [|q l1]; injection E as E0 E; [by subst|]. subst q. split.
    - intros Er. apply (f_equal length) in Er. rewrite length_rev in Er. done.
    - intros ->. exfalso. apply (Hd []); [left|left]. }
  pose proof (V_unfold pre n Hk Hn) as EV. rewrite Evs in EV. cbn in EV.
  rewrite (check_node_simple _ n n _ (zip_with decided (heads (suffixes pre ps)) vs) eq_refl eq_refl Es). unfold mbnd at 1, mlift.
  destruct (check_node _ n _) as [v|e|]; cbn in EV; [|exists pre; split; [apply elem_of_app; right; left|done]..].
  unfold mbnd, node_update. specialize (IH (pre :: l2) _ E (marked_step l2 h' pre n v Hk Hn EV Hni Hm)). fold (status_of v).
  destruct (validate_nodes isAccount (rev (addr <$> l1)) _) as [[]]; [done|..]; destruct IH as (q & Hq & ?); exists q; (split; [apply elem_of_app; by left|done]).
Qed.

(** When the root is decided, every node is. *)
Lemma V_all b pre : V [] = Some b -> known_prefix D pre -> is_Some (V pre).
Proof using T deep pos.
  intros Hb. induction pre as [|x pre IH] using rev_ind; intros Hk; [eauto|]. apply (tr_dom _ _ _ T) in Hk.
  assert (known_prefix D pre) as Kp by (apply (tr_dom _ _ _ T); destruct Hk as [E|(q & Hq)]; [by destruct pre|right; exists (x :: q); by rewrite <- app_assoc in Hq]).
  destruct (IH Kp) as [v Hv]. destruct (node_kids D ps h T pre Kp) as (n & Hn & _). rewrite (V_unfold pre n Kp Hn) in Hv. apply bind_Some in Hv as (vs & Hvs & _). apply mapM_Some in Hvs.
  assert (pre ++ [x] ∈ kids pre) as (i & Hi)%list_elem_of_lookup by (unfold Spec.kids; apply (list_elem_of_fmap_2 (fun x => pre ++ [x])), inside_snoc, Hk).
  destruct (Forall2_lookup_l _ _ _ _ _ Hvs Hi) as (w & _ & Hw). eauto.
Qed.
End Decide.

(** ** The whole decision *)

Definition depth_of (ps : list path) : nat := S (max_list (length <$> ps)).
Lemma depth_of_lt ps p : p ∈ ps -> length p < depth_of ps.
Proof. intros Hp. apply Nat.lt_succ_r, max_list_elem_of_le, list_elem_of_fmap_2, Hp. Qed.

Lemma verdict_children n asA name acl ps b : verdict n asA name acl ps = Some b ->
  exists n', n = S n' /\ forall x, x ∈ heads ps -> exists a v, GetAccountACL x = Ret a /\ verdict n' false x a (suffixes [x] ps) = Some v.
Proof.
  destruct n as [|n]; [done|]. cbn. intros (vs & Hvs & _)%bind_Some. exists n. split; [done|]. intros x Hx. apply mapM_Some in Hvs.
  apply list_elem_of_lookup in Hx as (i & Hi). destruct (Forall2_lookup_l _ _ _ _ _ Hvs Hi) as (v & _ & (a & Ha & Hv)%bind_Some).
  exists a, v. split; [|done]. by destruct (GetAccountACL x) as [a'| |]; [injection Ha as ->|..].
Qed.

Lemma verdict_known n : forall asA name acl ps b, verdict n asA name acl ps = Some b -> forall p, p ∈ ps -> ~ unknown_name p.
Proof.
  induction n as [|n IH]; intros asA name acl ps b Hb; [done|]. apply verdict_children in Hb as (n' & [= <-] & Hc). intros p Hp (x & Hx & Hno).
  destruct p as [|y q]; [by apply elem_of_nil in Hx|]. destruct (Hc y) as (a & v & Ha & Hv); [apply heads_elem; eauto|]. apply elem_of_cons in Hx as [->|Hx]; [by eapply Hno|].
  eapply (IH _ _ _ _ _ Hv q); [by apply suffixes_elem|by exists x].
Qed.

Lemma decision isAccount aksuri (ps := tree_paths isAccount aksuri) b :
  run_tree (let! root := (let! root := node_new (NewPermNode rootName rootAcl) in do! buildPermTree root rootName isAccount aksuri in mpure root) in validatePermTree root isAccount) = Ret b <->
  verdict (depth_of ps) (negb isAccount) rootName rootAcl ps = Some b.
Proof.
  unfold run_tree. unfold mbnd at 1 2 3, node_new. cbn [app length]. pose proof (buildPermTree_spec isAccount aksuri _ [] _ 0 trie_root (lookup_singleton_eq _ _)) as Hb.
  destruct (buildPermTree 0 rootName isAccount aksuri _) as [[[]|e|] h]; cbn [app] in Hb.
  2: { destruct Hb as (p & Hp & Hu). split; [done|]. intros E. exfalso. by apply (verdict_known _ _ _ _ _ _ E p). }
  2: { destruct Hb as (p & Hp & Hu). split; [done|]. intros E. exfalso. by apply (verdict_known _ _ _ _ _ _ E p). }
  destruct Hb as (D & T & Hroot). fold ps in T. unfold mpure at 1, validatePermTree. destruct (GetPermTreeList_spec D ps h T 0 Hroot) as (P & EP & B). rewrite (mbnd_ret _ _ _ _ _ EP).
  assert (V ps isAccount (depth_of ps) [] = verdict (depth_of ps) (negb isAccount) rootName rootAcl ps) as EV by done. rewrite <- EV.
  assert (0 < depth_of ps) as Hpos by (unfold depth_of; lia). pose proof (depth_of_lt ps) as Hdeep.
  assert (known_prefix D []) as Hk by (by exists 0). destruct (node_kids D ps h T [] Hk) as (n & Hn & _).
  pose proof (validate_run D ps h T isAccount (depth_of ps) Hpos Hdeep P B P [] h ltac:(by rewrite app_nil_r)) as Hv. 
  assert (marked D ps h isAccount (depth_of ps) [] h) as Hm by (intros q m _ Hqm; rewrite decide_False by apply not_elem_of_nil; done). specialize (Hv Hm).
  assert (forall b', V ps isAccount (depth_of ps) [] = Some b' -> ~ exists pre, pre ∈ P /\ V ps isAccount (depth_of ps) pre = None) as Hundecided.
  { intros b' Eb (pre & Hpre & Hno). destruct (V_all D ps h T isAccount (depth_of ps) Hpos Hdeep b' pre Eb) as [v Ev]; [|congruence].
    pose proof (bo_known _ _ _ _ B) as Hkn. rewrite app_nil_r, Forall_forall in Hkn. by apply Hkn. }
  unfold mbnd at 1. destruct (validate_nodes isAccount (rev (addr D <$> P)) h) as [[[]|e|] h'].
  - specialize (Hv [] n Hk Hn). destruct (bo_root _ _ _ _ B) as [l El]. rewrite app_nil_r in El. rewrite decide_True in Hv by (rewrite El; left). destruct Hv as (v & Ev & Hh).
    unfold addr in Hh. rewrite Hroot in Hh. cbn in Hh. unfold mbnd, node_load. rewrite Hh, Ev. cbn. split; intros [= <-]; [|f_equal; symmetry]; by destruct v.
  - split; [done|]. intros E. exfalso. by eapply Hundecided.
  - split; [done|]. intros E. exfalso. by eapply Hundecided.
Qed.
End Spec.

Lemma IdentifyAccount_verdict `{AclManager} `{MapOrder} account aksuri b (ps := tree_paths account true aksuri) :
  IdentifyAccount account aksuri = Ret b <-> exists acl, GetAccountACL account = Ret acl /\ verdict (depth_of ps) false account acl ps = Some b.
Proof.
  unfold IdentifyAccount, BuildAccountPermTree. destruct (GetAccountACL account) as [acl|e|] eqn:Ea; [|split; [done|by intros (? & ? & _)]..].
  pose proof (decision account acl true aksuri b) as Hd. split; [intros E; exists acl; split; [done|by apply Hd]|]. intros (? & [= <-] & Hv). by apply Hd.
Qed.

(** The permission of a contract method is decided in the same way; the method
    has its own list. *)
Lemma CheckContractMethodPerm_verdict `{AclManager} `{MapOrder} aksuri contractName methodName b (ps := tree_paths methodName false aksuri) :
  CheckContractMethodPerm aksuri contractName methodName = Ret b <->
  exists acl, GetContractMethodACL contractName methodName = Ret acl /\ verdict (depth_of ps) true methodName acl ps = Some b.
Proof.
  unfold CheckContractMethodPerm, BuildMethodPermTree. destruct (GetContractMethodACL contractName methodName) as [acl|e|] eqn:Ea; [|split; [done|by intros (? & ? & _)]..].
  pose proof (decision methodName acl false aksuri b) as Hd. split; [intros E; exists acl; split; [done|by apply Hd]|]. intros (? & [= <-] & Hv). by apply Hd.
Qed.

(** A permission is decided by recursion on the paths.  Building the tree
    node by node, listing it breadth first and deciding it from its end always
    ends, and gives the answer that the recursive definition gives: a key is
    taken as signed, an account or a method is decided by its list from the decisions of its
    members, which are the next components of the paths. *)
Theorem permission_verdict `{AclManager} `{MapOrder} account contractName methodName aksuri b :
  (IdentifyAccount account aksuri = Ret b <->
     exists acl, GetAccountACL account = Ret acl /\
       let ps := tree_paths account true aksuri in verdict (depth_of ps) false account acl ps = Some b) /\
  (CheckContractMethodPerm aksuri contractName methodName = Ret b <->
     exists acl, GetContractMethodACL contractName methodName = Ret acl /\
       let ps := tree_paths methodName false aksuri in verdict (depth_of ps) true methodName acl ps = Some b).
Proof. split; [apply IdentifyAccount_verdict|apply CheckContractMethodPerm_verdict]. Qed.

(** ** What a decision stands for *)

Section Sound.
Context `{AclManager} `{MO : MapOrder} (signed : string -> Prop).

(** [n] agrees: a key by its signature, an account by members that agree, as its
    list asks for; an account without a list agrees to everything. *)
Inductive approved : string -> Prop :=
| ap_key n : IsAccount n = 0%Z -> signed n -> approved n
| ap_open n : IsAccount n = 1%Z -> GetAccountACL n = Ret None -> approved n
| ap_weight n acl pm ms : IsAccount n = 1%Z -> GetAccountACL n = Ret (Some acl) -> Pm acl = Some pm -> Rule pm = SIGN_THRESHOLD ->
    NoDup ms -> (forall m, m ∈ ms -> approved m) ->
    float_le (AcceptValue pm) (foldl (fun sum m => float_add sum (findWeightInACL m (Some acl))) float_zero ms) = true -> approved n
| ap_set n acl pm sets k aks : IsAccount n = 1%Z -> GetAccountACL n = Ret (Some acl) -> Pm acl = Some pm -> Rule pm = SIGN_AKSET ->
    acl_AkSets acl ≫= Sets = Some sets -> sets !! k = Some (Some aks) -> aks <> [] -> (forall m, m ∈ aks -> approved m) -> approved n.

(** Only the last component of a path may be a key. *)
Definition inner_accounts (p : path) : Prop := forall l x r, p = l ++ x :: r -> r <> [] -> IsAccount x = 1%Z.
Definition end_signed (p : path) : Prop := forall l x, p = l ++ [x] -> signed x.

Lemma inner_accounts_tail x p : inner_accounts (x :: p) -> inner_accounts p.
Proof. intros Hi l y r -> Hr. by eapply (Hi (x :: l)). Qed.
Lemma end_signed_tail x p : end_signed (x :: p) -> end_signed p.
Proof. intros Hi l y ->. by eapply (Hi (x :: l)). Qed.

Lemma heads_NoDup ps : NoDup (heads ps).
Proof.
  induction ps as [|p ps IH] using rev_ind; [constructor|]. rewrite heads_snoc. destruct p as [|x p]; [done|]. cbn. case_decide as Hx; [done|].
  apply NoDup_app. split_and!; [done| |apply NoDup_singleton]. by intros y Hy ->%list_elem_of_singleton.
Qed.

(** The children that passed, of a list of names with their decisions. *)
Definition passed (xs : list string) (vs : list bool) : list string := omap (fun xv : string * bool => if xv.2 then Some xv.1 else None) (zip xs vs).
Lemma passed_elem xs vs x : x ∈ passed xs vs <-> exists i, xs !! i = Some x /\ vs !! i = Some true.
Proof.
  unfold passed. rewrite list_elem_of_omap. split.
  - intros ([y []] & (i & Hi)%list_elem_of_lookup & [= <-]). apply lookup_zip_with_Some in Hi as (? & ? & [= <- <-] & ? & ?). eauto.
  - intros (i & Hx & Hv). exists (x, true). split; [|done]. apply (list_elem_of_lookup_2 _ i), lookup_zip_with_Some. eauto.
Qed.
Lemma passed_NoDup xs vs : NoDup xs -> NoDup (passed xs vs).
Proof.
  intros Hx. revert vs. induction Hx as [|x xs Hni _ IH]; intros [|v vs]; cbn; try constructor. unfold passed. cbn. destruct v; cbn; [|apply IH].
  constructor; [|apply IH]. intros (i & Hi & _)%passed_elem. apply Hni. by eapply list_elem_of_lookup_2.
Qed.
Lemma threshold_passed acl xs vs s : foldl (fun sum node => if decide (pn_Status node = Success) then float_add sum (findWeightInACL (Name node) acl) else sum) s (zip_with decided xs vs) =
  foldl (fun sum m => float_add sum (findWeightInACL m acl)) s (passed xs vs).
Proof. revert vs s. induction xs as [|x xs IH]; intros [|v vs] s; [done..|]. unfold passed. cbn. destruct v; cbn; apply IH. Qed.
Lemma akset_passed aks xs vs : validateAkSet aks (zip_with decided xs vs) = true -> aks <> [] /\ forall m, m ∈ aks -> m ∈ passed xs vs.
Proof.
  unfold validateAkSet. intros [[H1 _]%andb_true_iff H2]%andb_true_iff. split; [by apply negb_true_iff, bool_decide_eq_false in H1|]. intros m Hm.
  rewrite forallb_forall in H2. apply list_elem_of_In in Hm. specialize (H2 m Hm). apply bool_decide_eq_true in H2. apply fmap_Some in H2 as (n & Hn & Es).
  unfold findAkInNodeList in Hn. apply fmap_Some in Hn as ([i n'] & (Hi & Hname & _)%list_find_Some & ->). cbn in *. apply lookup_zip_with_Some in Hi as (x & v & -> & Hx & Hv).
  apply passed_elem. exists i. cbn in *. subst x. split; [done|]. by destruct v.
Qed.
Lemma some_set_true sets ns : some_set sets ns = Ret true -> exists set, Some set ∈ sets /\ validateAkSet set ns = true.
Proof.
  induction sets as [|[set|] sets IH]; cbn; [done| |done]. destruct (validateAkSet set ns) eqn:E; [intros _; exists set; split; [left|done]|].
  intros (s & Hs & ?)%IH. exists s. split; [by right|done].
Qed.

Lemma approved_by_children name acl children xs vs : IsAccount name = 1%Z -> GetAccountACL name = Ret acl -> NoDup xs -> (forall m, m ∈ passed xs vs -> approved m) ->
  children = zip_with decided xs vs -> check_acl (NewPermNode name acl) children = Ret true -> approved name.
Proof.
  intros Hn Ha Hnd Hall ->. unfold check_acl. cbn. destruct acl as [acl|]; [|by intros _; apply ap_open]. destruct (Pm acl) as [pm|] eqn:Epm; [|done].
  unfold GetACLValidator. case_bool_decide as H1; [|case_bool_decide as H2; [|by case_bool_decide]].
  - unfold ThresholdValidator_Validate. cbn [ACL NewPermNode]. change (Some acl ≫= Pm) with (Pm acl). rewrite Epm, threshold_passed. intros [= Hle]. apply (ap_weight name acl pm (passed xs vs)); auto using passed_NoDup.
  - unfold AKSetsValidator_Validate. cbn. destruct (acl_AkSets acl ≫= Sets) as [sets|] eqn:Es; [|done].
    intros (set & [k Hk]%map_values_elem & [Hne Hm]%akset_passed)%some_set_true. apply (ap_set name acl pm sets k set); auto.
Qed.

Lemma verdict_sound n : forall name acl ps, verdict n false name acl ps = Some true -> (IsAccount name = 1%Z -> GetAccountACL name = Ret acl) ->
  (IsAccount name = 0%Z -> signed name) -> (forall p, p ∈ ps -> inner_accounts p /\ end_signed p) -> approved name.
Proof.
  induction n as [|n IH]; intros name acl ps Hv Ha Hs Hp; [done|]. cbn in Hv. apply bind_Some in Hv as (vs & Hvs & Hc). apply mapM_Some in Hvs.
  destruct (check_node _ _ _) as [[]| |] eqn:Ec; [|done..]. unfold check_node in Ec. cbn [Name NewPermNode] in Ec. destruct ((IsAccount name <? 0) || (1 <? IsAccount name))%Z eqn:Er; [done|].
  apply orb_false_iff in Er as [E1%Z.ltb_ge E2%Z.ltb_ge]. destruct (Z.eqb_spec (IsAccount name) 0) as [E0|E0]; [by apply ap_key; auto|]. assert (IsAccount name = 1%Z) as E by lia.
  eapply (approved_by_children name acl _ (heads ps) vs E (Ha E) (heads_NoDup ps)); [|reflexivity|exact Ec].
  intros x (i & Hx & Hi)%passed_elem. pose proof (Forall2_lookup_lr _ _ _ _ _ _ Hvs Hx Hi) as Hb. apply bind_Some in Hb as (a & Hao & Hver).
  assert (x ∈ heads ps) as (q & Hq)%heads_elem by (by eapply list_elem_of_lookup_2). apply (IH x a _ Hver).
  - intros _. by destruct (GetAccountACL x) as [a'| |]; [injection Hao as ->|..].
  - intros Hk. destruct (Hp _ Hq) as [Hin Hend]. destruct q as [|y q]; [by apply (Hend [])|]. pose proof (Hin [] x (y :: q) eq_refl ltac:(done)). congruence.
  - intros r Hr%suffixes_elem. destruct (Hp _ Hr) as [Hin Hend]. split; [by eapply inner_accounts_tail|by eapply end_signed_tail].
Qed.
End Sound.

Lemma identified_approved `{AclManager} `{MapOrder} signed account aksuri :
  IdentifyAccount account aksuri = Ret true -> IsAccount account = 1%Z ->
  (forall uri, uri ∈ aksuri -> inner_accounts (SplitAccountURI uri) /\ end_signed signed (SplitAccountURI uri)) -> approved signed account.
Proof.
  intros (acl & Ha & Hv)%IdentifyAccount_verdict Hacc Hp. eapply verdict_sound; [exact Hv|done|congruence|].
  intros p (uri & Huri & Eb)%list_elem_of_omap. destruct (Hp uri Huri) as [Hin Hend]. unfold below_root in Eb.
  destruct (SplitAccountURI uri) as [|a [|y q]]; [done..|]. case_bool_decide; [|done]. injection Eb as <-. split; [by eapply inner_accounts_tail|by eapply end_signed_tail].
Qed.

