(* ===== verification/AclContract.v ===== *)
(** * Access control: the contract and the manager

    [kernel/permission/acl/contract.go], [ak_2_account.go] and [manager.go]: the
    kernel methods that make an account, replace its list and set the list of a
    contract method; the index from keys to the accounts they belong to; and the
    manager that reads the lists back for the permission checks of the file Acl.

    A method that reports an error may have written part of the index; the
    transaction is then refused with all of its writes. *)

From Stdlib Require Import ZArith Lia Ascii SpecFloat.
From stdpp Require Import base gmap strings list numbers sorting.
From S2P Require Import Prelude GoValues Sandbox KContext Acl.

Set Default Proof Using "Type".

(** ** Keys *)

Definition accountBucket : string := "XCAccount".
Definition contractBucket : string := "XCContract".
Definition contract2AccountBucket : string := "XCContract2Account".
Definition account2ContractBucket : string := "XCAccount2Contract".
Definition ak2AccountBucket : string := "XCAK2Account".
Definition akLimit : nat := 1024.
Definition aclSeparator : ascii := "001".
Definition addressAccountSep : ascii := "001".

Definition MakeAccountContractKey (accountName contractName : string) : string := accountName +:+ String aclSeparator contractName.
Definition MakeContractMethodKey (contractName methodName : string) : string := contractName +:+ String aclSeparator methodName.
Definition MakeAccountKey (bcname accountName : string) : string := accountPrefix +:+ accountName +:+ String accountBcnameSep bcname.
Definition MakeAK2AccountKey (ak accountName : string) : string := ak +:+ String addressAccountSep accountName.

(** ** Which lists are accepted *)

Definition validACL (acl : Acl) : option string :=
  match Pm acl with
  | None => Some "valid acl failed, lack of argument of permission model"
  | Some permissionModel =>
      if bool_decide (acl_AkSets acl = None) && bool_decide (AksWeight acl = None) then Some "invoke NewAccount failed, permission model is not valid"
      else if bool_decide (Rule permissionModel = SIGN_THRESHOLD) then
        match AksWeight acl with
        | Some w => if (akLimit <? size w)%nat then Some "valid acl failed, aksWeight is nil or size of aksWeight is very big" else None
        | None => Some "valid acl failed, aksWeight is nil or size of aksWeight is very big"
        end
      else if bool_decide (Rule permissionModel = SIGN_AKSET) then
        match acl_AkSets acl with
        | None => Some "valid acl failed, akSets is nil"
        | Some akSets =>
            match Sets akSets with
            | Some sets => if (akLimit <? size sets)%nat then Some "valid acl failed, Sets is nil or size of Sets is very big" else None
            | None => Some "valid acl failed, Sets is nil or size of Sets is very big"
            end
        end
      else Some "valid acl failed, permission model is not found"
  end.

(** The rule of a list, 0 when there is none. *)
Definition GetRule (acl : Acl) : Z := from_option Rule 0%Z (Pm acl).

Section Contract.
Context {S : Type} `{StateSandbox S} `{MO : MapOrder}.

(** ** The index from keys to accounts *)

Inductive IndexMethod := Del | Put.

Definition index_write (method : IndexMethod) (accountName address : string) : M (KState S) unit :=
  match method with
  | Del => ctx_Del ak2AccountBucket (MakeAK2AccountKey address accountName)
  | Put => ctx_Put ak2AccountBucket (MakeAK2AccountKey address accountName) (Raw "true")
  end.

Fixpoint index_all (method : IndexMethod) (accountName : string) (addresses : list string) : M (KState S) unit :=
  match addresses with
  | [] => mpure tt
  | address :: addresses => do! index_write method accountName address in index_all method accountName addresses
  end.

(** A nil map or a nil set has no entries. *)
Definition updateForThreshold (method : IndexMethod) (aksWeight : option (gmap string float64)) (accountName : string) : M (KState S) unit :=
  index_all method accountName (from_option map_keys [] aksWeight).

Fixpoint updateAkSet (method : IndexMethod) (accountName : string) (sets : list (option (list string))) : M (KState S) unit :=
  match sets with
  | [] => mpure tt
  | set :: sets => do! index_all method accountName (default [] set) in updateAkSet method accountName sets
  end.
Definition updateForAKSet (method : IndexMethod) (akSets : option AkSets) (accountName : string) : M (KState S) unit :=
  updateAkSet method accountName (from_option map_values [] (akSets ≫= Sets)).

(** The error of [json.Unmarshal] is not looked at: a text that is no JSON leaves
    an empty list. *)
Definition update (aclJSON : option blob) (accountName : string) (method : IndexMethod) : M (KState S) unit :=
  match aclJSON with
  | None => mpure tt
  | Some aclJSON =>
      let acl := default noAcl (UnmarshalAcl aclJSON) in
      if bool_decide (GetRule acl = SIGN_THRESHOLD) then updateForThreshold method (AksWeight acl) accountName
      else if bool_decide (GetRule acl = SIGN_AKSET) then updateForAKSet method (acl_AkSets acl) accountName
      else mfail "update ak to account reflection failed, permission model is not found"
  end.

Definition UpdateAK2AccountReflection (aclOldJSON aclNewJSON : option blob) (accountName : string) : M (KState S) unit :=
  do! update aclOldJSON accountName Del in update aclNewJSON accountName Put.

(** ** The methods *)

Record AclKernMethod := mkAclKernMethod { BcName : string; NewAccountResourceAmount : Z }.
Variable t : AclKernMethod.

Definition acl_response (aclJSON : blob) (fee : Z) : M (KState S) Response :=
  do! AddResourceUsed (mkLimits 0 0 0 fee) in mpure (resp_ok (Some aclJSON)).

(** The argument [acl] with the list it stands for. *)
Definition acl_argument (ctx : Context) : M (KState S) (blob * Acl) :=
  match Args ctx !! "acl" with
  | None => mfail "unmarshal args acl error: unexpected end of JSON input"
  | Some aclJSON => match UnmarshalAcl aclJSON with Some aclBuf => mpure (aclJSON, aclBuf) | None => mfail "unmarshal args acl error" end
  end.
Definition check_valid (e : option string) : M (KState S) unit := match e with Some e => mfail e | None => mpure tt end.

Definition NewAccount : KernMethod S := fun _ ctx =>
  if! (XFee (ResourceLimits ctx) <? NewAccountResourceAmount t)%Z fails "gas not enough" in
  let! arg := acl_argument ctx in let '(aclJSON, aclBuf) := arg in
  match Args ctx !! "account_name" with
  | None => mfail "Invoke NewAccount failed, warn: account name is empty"
  | Some accountName =>
      do! check_valid (ValidRawAccount (blob_string accountName)) in
      if! is_empty_string (BcName t) fails "block name is empty" in
      let accountStr := MakeAccountKey (BcName t) (blob_string accountName) in
      do! check_valid (validACL aclBuf) in
      let! oldAccount := mtry (ctx_Get accountBucket accountStr) in
      match oldAccount with
      | inr e => if! negb (bool_decide (e = ErrNotFound)) fails e in
          do! ctx_Put accountBucket accountStr aclJSON in
          do! UpdateAK2AccountReflection None (Some aclJSON) accountStr in
          acl_response aclJSON (NewAccountResourceAmount t)
      | inl _ => mfail "account already exists"
      end
  end.

Definition acl_gas : Z := Z.quot (NewAccountResourceAmount t) 1000.

Definition SetAccountACL : KernMethod S := fun _ ctx =>
  if! (XFee (ResourceLimits ctx) <? acl_gas)%Z fails "gas not enough" in
  let accountName := from_option blob_string "" (Args ctx !! "account_name") in
  let! arg := acl_argument ctx in let '(aclJSON, aclBuf) := arg in
  do! check_valid (validACL aclBuf) in
  let! data := ctx_Get accountBucket accountName in
  do! UpdateAK2AccountReflection (Some data) (Some aclJSON) accountName in
  do! ctx_Put accountBucket accountName aclJSON in
  acl_response aclJSON acl_gas.

Definition SetMethodACL : KernMethod S := fun _ ctx =>
  if! (XFee (ResourceLimits ctx) <? acl_gas)%Z fails "gas not enough" in
  match Args ctx !! "contract_name", Args ctx !! "method_name" with
  | Some contractName, Some methodName =>
      let! arg := acl_argument ctx in let '(aclJSON, aclBuf) := arg in
      do! check_valid (validACL aclBuf) in
      do! ctx_Put contractBucket (MakeContractMethodKey (blob_string contractName) (blob_string methodName)) aclJSON in
      acl_response aclJSON acl_gas
  | _, _ => mfail "set method acl failed, contract name is nil or method name is nil"
  end.

Definition acl_methods : list (string * string * KernMethod S) :=
  [("$acl", "NewAccount", NewAccount); ("$acl", "SetAccountAcl", SetAccountACL); ("$acl", "SetMethodAcl", SetMethodACL)].
End Contract.

(** ** The manager *)

(** [XMSnapshotReader.Get] of the state at the tip; a key without a value reads
    as an empty slice. *)
Notation SnapshotReader := (string -> string -> outcome blob) (only parsing).

Section Manager.
Context `{MO : MapOrder} (reader : SnapshotReader).

Definition read_acl (bucket key : string) : outcome (option Acl) :=
  match reader bucket key with
  | Ret b =>
      if is_empty_string (blob_string b) then Ret None
      else match UnmarshalAcl b with Some acl => Ret (Some acl) | None => Err "json unmarshal acl failed" end
  | Err e => Err ("query acl failed.err:" +:+ e)
  | Panic => Panic
  end.

#[local] Instance Manager : AclManager := {|
  GetAccountACL := read_acl accountBucket;
  GetContractMethodACL := fun contractName methodName => read_acl contractBucket (MakeContractMethodKey contractName methodName)
|}.

(** Getters of nil pointers give the zero value. *)
Definition getAddressesByACL (acl : option Acl) : outcome (list string) :=
  let acl := default noAcl acl in
  if bool_decide (GetRule acl = SIGN_THRESHOLD) then Ret (from_option map_keys [] (AksWeight acl))
  else if bool_decide (GetRule acl = SIGN_AKSET) then Ret (mjoin (default [] <$> from_option map_values [] (acl_AkSets acl ≫= Sets)))
  else Err "Unknown permission rule".

Definition GetAccountAddresses (accountName : string) : outcome (list string) :=
  match GetAccountACL accountName with Ret acl => getAddressesByACL acl | Err e => Err e | Panic => Panic end.
End Manager.
