(* ===== verification/AclIndex.v ===== *)
(** * Access control: the lists and the index agree

    What the methods of the file AclContract do to the state, and the invariant
    they keep: the index from keys to accounts holds exactly the members of the
    lists the manager reads. *)

From Stdlib Require Import ZArith Lia Ascii.
From stdpp Require Import base gmap strings list numbers sorting.
From S2P Require Import Prelude GoValues Sandbox KContext Acl AclContract.

Set Default Proof Using "Type".

(** ** Keys of the index *)

Lemma has_char_app c a b : has_char c (a +:+ b) = has_char c a || has_char c b.
Proof. induction a as [|d a IH]; [done|]. rewrite app_String. cbn [has_char]. by rewrite IH, orb_assoc. Qed.
Lemma has_char_here c s : has_char c (String c s) = true.
Proof. cbn. by rewrite bool_decide_eq_true_2. Qed.

(** The account is what follows the last separator. *)
Lemma sep_cut sep a b a' b' : has_char sep b = false -> has_char sep b' = false -> a +:+ String sep b = a' +:+ String sep b' -> a = a' /\ b = b'.
Proof.
  intros Hb Hb'. revert a'. induction a as [|c a IH]; intros [|c' a'] E; rewrite ?app_String, ?app_EmptyString in E.
  - by injection E.
  - injection E as <- ->. by rewrite has_char_app, has_char_here, orb_true_r in Hb.
  - injection E as -> <-. by rewrite has_char_app, has_char_here, orb_true_r in Hb'.
  - injection E as -> E. by destruct (IH _ E) as [-> ->].
Qed.

Lemma digits_no_char c a : all_digits a = true -> digit_value c = None -> has_char c a = false.
Proof.
  intros Ha Hc. induction a as [|d a IH]; [done|]. cbn in *.
  apply andb_true_iff in Ha as [[v Hd]%bool_decide_eq_true Ha]. rewrite IH by done. rewrite bool_decide_eq_false_2; [done|congruence].
Qed.

(** The name of an account the contract makes. *)
Lemma made_account bc a : ValidRawAccount a = None -> has_char aclSeparator bc = false ->
  IsAccount (MakeAccountKey bc a) = 1%Z /\ has_char aclSeparator (MakeAccountKey bc a) = false.
Proof.
  intros Hv Hbc. assert (all_digits a = true) as Hd.
  { unfold ValidRawAccount in Hv. by repeat case_match. }
  unfold MakeAccountKey. split.
  - unfold IsAccount. change (accountPrefix +:+ a +:+ String accountBcnameSep bc) with (String "X" (String "C" (a +:+ String accountBcnameSep bc))). cbn [is_empty_string].
    assert (forall r, String.prefix accountPrefix (String "X" (String "C" r)) = true) as -> by (by intros []). cbn [negb].
    change (String "X" (String "C" (a +:+ String accountBcnameSep bc))) with (("XC" +:+ a) +:+ String accountBcnameSep bc).
    rewrite Split_app by (rewrite has_char_app; cbn; by apply digits_no_char). cbn [head default]. 
    replace (String.substring _ _ _) with a; [by rewrite Hv|].
    change (a = String.substring 0 (S (S (String.length a))) a). clear. assert (forall n, String.length a <= n -> String.substring 0 n a = a) as H; [|by rewrite H; [|lia]].
    induction a as [|c a IH]; intros [|n] Hn; cbn in *; [done..|lia|]. by rewrite IH by lia.
  - rewrite !has_char_app. change (has_char aclSeparator (String accountBcnameSep bc)) with (has_char aclSeparator bc). rewrite Hbc. cbn. by rewrite digits_no_char.
Qed.

(** ** The effect of the methods *)

Section Effect.
Context {S : Type} `{StateSandboxLaws S} `{MO : MapOrder}.
Implicit Types s : KState S.

Definition index_value (m : IndexMethod) : outcome blob := match m with Del => Err ErrHasDel | Put => Ret (Raw "true") end.

(** The entries of [A] in the index are changed for the keys of [l]. *)
Definition indexed (m : IndexMethod) (A : string) (l : list string) s s' : Prop :=
  kinv s' /\ kst_used s' = kst_used s /\ kst_set s' = kst_set s /\
  forall b k, no_slash b = true ->
    kview s' b k = if decide (b = ak2AccountBucket /\ k ∈ (fun ak => MakeAK2AccountKey ak A) <$> l) then index_value m else kview s b k.

Lemma index_all_law m A l s : kinv s -> exists s', index_all m A l s = (Ret tt, s') /\ indexed m A l s s'.
Proof.
  revert s. induction l as [|ak l IH]; intros s Hi.
  - exists s. split; [done|]. split_and!; [done..|]. intros b k _. by rewrite decide_False by (by intros [_ ?%elem_of_nil]).
  - cbn [index_all].
    assert (exists s1, index_write m A ak s = (Ret tt, s1) /\ kinv s1 /\ kupdate s ak2AccountBucket (MakeAK2AccountKey ak A) (index_value m) s1) as (s1 & E1 & Hi1 & Hu & Hus & Hse)
      by (by destruct m; [apply ctx_Del_law|apply ctx_Put_law]).
    destruct (IH s1 Hi1) as (s2 & E2 & Hi2 & Hus2 & Hse2 & Hv). exists s2. rewrite (mbnd_ret _ _ _ _ _ E1). split; [done|]. split_and!; [done|congruence..|].
    intros b k Hb. rewrite Hv, Hu by done. cbn. destruct (decide (b = ak2AccountBucket)) as [->|Hne].
    + destruct (decide (k = MakeAK2AccountKey ak A)) as [->|Hk].
      * rewrite (decide_True (P := _ = _)) by done. rewrite (decide_True (P := _ /\ _ ∈ _ :: _)) by (split; [done|left]). by case_decide.
      * rewrite (decide_False (P := (_, _) = _)) by congruence. apply decide_ext. rewrite elem_of_cons. naive_solver.
    + rewrite !decide_False by naive_solver. done.
Qed.

Lemma index_all_app m A l1 l2 s : index_all m A (l1 ++ l2) s = (do! index_all m A l1 in index_all m A l2) s.
Proof. revert s. induction l1 as [|ak l1 IH]; intros s; [done|]. cbn [index_all app]. rewrite mbnd_assoc. unfold mbnd at 1 2. destruct (index_write m A ak s) as [[[]| |] s1]; [apply IH|done..]. Qed.
Lemma updateAkSet_join m A sets s : updateAkSet m A sets s = index_all m A (mjoin (default [] <$> sets)) s.
Proof.
  revert s. induction sets as [|set sets IH]; intros s; [done|]. cbn [updateAkSet fmap list_fmap]. change (mjoin (default [] set :: (default [] <$> sets))) with (default [] set ++ mjoin (default [] <$> sets)).
  rewrite index_all_app. unfold mbnd. destruct (index_all m A (default [] set) s) as [[[]| |] s1]; [apply IH|done..].
Qed.

(** An index update follows the addresses of the manager. *)
Lemma update_addresses j A m s : update (Some j) A m s =
  match getAddressesByACL (UnmarshalAcl j) with
  | Ret l => index_all m A l s
  | _ => (Err "update ak to account reflection failed, permission model is not found", s)
  end.
Proof.
  unfold update, getAddressesByACL. case_bool_decide; [done|]. case_bool_decide; [|done]. apply updateAkSet_join.
Qed.

Definition acl_members (j : blob) : list string := match getAddressesByACL (UnmarshalAcl j) with Ret l => l | _ => [] end.

Lemma valid_addresses j acl : UnmarshalAcl j = Some acl -> validACL acl = None -> getAddressesByACL (UnmarshalAcl j) = Ret (acl_members j).
Proof.
  intros E Hv. unfold acl_members. rewrite E. unfold getAddressesByACL, validACL, GetRule in *. cbn. destruct (Pm acl) as [pm|]; [|done]. cbn.
  destruct (bool_decide _ && bool_decide _); [done|]. case_bool_decide; [done|]. by case_bool_decide.
Qed.
Lemma decoded_written j acl : UnmarshalAcl j = Some acl -> written j = Ret j.
Proof. unfold written. destruct (IsDelFlag j) eqn:E; [|done]. by destruct j as [[|[[] [] [] [] [] [] [] []] []]|]. Qed.

(** The state after the list of [A] became [j]: [old] leaves the index. *)
Definition acl_stored (A : string) (j : blob) (old : list string) s s' : Prop :=
  kinv s' /\ kst_set s' = kst_set s /\
  forall b k, no_slash b = true -> kview s' b k =
    if decide ((b, k) = (accountBucket, A)) then Ret j
    else if decide (b = ak2AccountBucket /\ k ∈ (fun ak => MakeAK2AccountKey ak A) <$> acl_members j) then Ret (Raw "true")
    else if decide (b = ak2AccountBucket /\ k ∈ (fun ak => MakeAK2AccountKey ak A) <$> old) then Err ErrHasDel
    else kview s b k.

(** What a request asks for, when it is well formed. *)
Definition acl_request (ctx : Context) : option blob :=
  j ← Args ctx !! "acl"; acl ← UnmarshalAcl j; guard (validACL acl = None);; Some j.
Definition new_request (t : AclKernMethod) (ctx : Context) : option (string * blob) :=
  guard (NewAccountResourceAmount t <= XFee (ResourceLimits ctx))%Z;;
  j ← acl_request ctx; n ← Args ctx !! "account_name";
  guard (ValidRawAccount (blob_string n) = None);; guard (BcName t <> "");;
  Some (MakeAccountKey (BcName t) (blob_string n), j).
Definition set_request (t : AclKernMethod) (ctx : Context) : option (string * blob) :=
  guard (acl_gas t <= XFee (ResourceLimits ctx))%Z;;
  j ← acl_request ctx; Some (from_option blob_string "" (Args ctx !! "account_name"), j).
Definition method_request (t : AclKernMethod) (ctx : Context) : option (string * blob) :=
  guard (acl_gas t <= XFee (ResourceLimits ctx))%Z;;
  c ← Args ctx !! "contract_name"; m ← Args ctx !! "method_name"; j ← acl_request ctx;
  Some (MakeContractMethodKey (blob_string c) (blob_string m), j).

Definition valid_list (j : blob) : Prop := exists acl, UnmarshalAcl j = Some acl /\ validACL acl = None.

Lemma acl_request_valid ctx j : acl_request ctx = Some j -> Args ctx !! "acl" = Some j /\ valid_list j.
Proof.
  unfold acl_request, valid_list. intros E. simplify_option_eq. eauto.
Qed.

(** The index after both updates. *)
Lemma reflection_law old j A s : (forall o, old = Some o -> valid_list o) -> valid_list j -> kinv s ->
  exists s', UpdateAK2AccountReflection old (Some j) A s = (Ret tt, s') /\ kinv s' /\ kst_set s' = kst_set s /\
    forall b k, no_slash b = true -> kview s' b k =
      if decide (b = ak2AccountBucket /\ k ∈ (fun ak => MakeAK2AccountKey ak A) <$> acl_members j) then Ret (Raw "true")
      else if decide (b = ak2AccountBucket /\ k ∈ (fun ak => MakeAK2AccountKey ak A) <$> from_option acl_members [] old) then Err ErrHasDel
      else kview s b k.
Proof.
  intros Ho (acl & Ej & Hv) Hi. unfold UpdateAK2AccountReflection.
  assert (exists s1, update old A Del s = (Ret tt, s1) /\ indexed Del A (from_option acl_members [] old) s s1) as (s1 & E1 & Hi1 & _ & Hs1 & Hv1).
  { destruct old as [o|]; [|by apply (index_all_law Del A [])]. destruct (Ho o eq_refl) as (acl' & Eo & Hvo).
    rewrite update_addresses, (valid_addresses o acl') by done. by apply index_all_law. }
  destruct (index_all_law Put A (acl_members j) s1 Hi1) as (s2 & E2 & Hi2 & _ & Hs2 & Hv2).
  exists s2. rewrite (mbnd_ret _ _ _ _ _ E1), update_addresses, (valid_addresses j acl) by done. split_and!; [done|done|congruence|].
  intros b k Hb. by rewrite Hv2, Hv1.
Qed.

Lemma acl_argument_cases ctx :
  (exists j acl, Args ctx !! "acl" = Some j /\ UnmarshalAcl j = Some acl /\ @acl_argument S ctx = mpure (j, acl)) \/
  (acl_request ctx = None /\ exists e, @acl_argument S ctx = mfail e).
Proof.
  unfold acl_argument, acl_request. destruct (Args ctx !! "acl") as [j|]; [|by right; eauto]. cbn. destruct (UnmarshalAcl j) as [acl|] eqn:E; [|by right; eauto].
  left. eauto 10.
Qed.
Lemma acl_request_of ctx j acl : Args ctx !! "acl" = Some j -> UnmarshalAcl j = Some acl -> acl_request ctx = match validACL acl with None => Some j | Some _ => None end.
Proof. intros E1 E2. unfold acl_request. rewrite E1. cbn. rewrite E2. cbn. by destruct (validACL acl). Qed.

Lemma acl_response_law j fee s : acl_response j fee s = (Ret (resp_ok (Some j)), mkKState (kst_sandbox s) (Limits_Add (kst_used s) (mkLimits 0 0 0 fee)) (kst_set s)).
Proof. reflexivity. Qed.

Variable t : AclKernMethod.
Variable call : CallFn S.

Lemma new_request_list ctx A j : new_request t ctx = Some (A, j) -> valid_list j.
Proof. unfold new_request. intros E. simplify_option_eq. by eapply acl_request_valid. Qed.
Lemma set_request_list ctx A j : set_request t ctx = Some (A, j) -> valid_list j.
Proof. unfold set_request. intros E. simplify_option_eq. by eapply acl_request_valid. Qed.
Lemma method_request_list ctx k j : method_request t ctx = Some (k, j) -> valid_list j.
Proof. unfold method_request. intros E. simplify_option_eq. by eapply acl_request_valid. Qed.

(** [NewAccount]: a well-formed request for a name that has no list. *)
Lemma NewAccount_law ctx s : kinv s ->
  match new_request t ctx with
  | None => exists e, NewAccount t call ctx s = (Err e, s)
  | Some (A, j) =>
      (kview s accountBucket A = Err ErrNotFound /\ exists s', NewAccount t call ctx s = (Ret (resp_ok (Some j)), s') /\ acl_stored A j [] s s') \/
      (kview s accountBucket A <> Err ErrNotFound /\ exists e s', NewAccount t call ctx s = (Err e, s'))
  end.
Proof.
  intros Hi. unfold NewAccount, new_request. destruct (Z.ltb_spec (XFee (ResourceLimits ctx)) (NewAccountResourceAmount t)) as [Hf|Hf].
  { rewrite (option_guard_False (_ <= _)%Z) by lia. by eexists. }
  rewrite (option_guard_True (_ <= _)%Z) by lia. cbn [mbind option_bind].
  destruct (acl_argument_cases ctx) as [(j & acl & Ej & Eacl & ->)|[-> [e ->]]]; [|by eexists]. rewrite mbnd_pure, (acl_request_of ctx j acl) by done.
  destruct (Args ctx !! "account_name") as [n|]; [|destruct (validACL acl); simplify_option_eq; by eexists]. 
  destruct (ValidRawAccount (blob_string n)) as [e|] eqn:Ev; [destruct (validACL acl); simplify_option_eq; by eexists|]. cbn [check_valid]. rewrite mbnd_pure.
  destruct (is_empty_string (BcName t)) eqn:Eb. { destruct (BcName t); [|done]. destruct (validACL acl); simplify_option_eq; by eexists. }
  destruct (validACL acl) as [e|] eqn:Eva; [by eexists|]. cbn [check_valid mbind option_bind]. rewrite mbnd_pure.
  assert (BcName t <> "") as Hb by (by intros Hb; rewrite Hb in Eb). rewrite (option_guard_True (ValidRawAccount _ = None)), (option_guard_True (BcName t <> _)) by done.
  set (A := MakeAccountKey (BcName t) (blob_string n)).
  destruct (ctx_Get_law s accountBucket A Hi eq_refl) as (s1 & Eg & Hi1 & He).
  destruct (kview s accountBucket A) as [v|e|] eqn:Ekv; [| |by destruct (kview_no_panic s accountBucket A)].
  { right. split; [done|]. exists "account already exists", s1. unfold mbnd, mtry. by rewrite Eg. }
  assert (mtry (ctx_Get accountBucket A) s = (Ret (inr e), s1)) as Em by (unfold mtry; by rewrite Eg). rewrite (mbnd_ret _ _ _ _ _ Em).
  destruct (decide (e = ErrNotFound)) as [->|Hne]; [|right; split; [congruence|]; rewrite bool_decide_eq_false_2 by done; by do 2 eexists].
  left. split; [done|]. rewrite bool_decide_eq_true_2 by done. cbn [negb].
  destruct (ctx_Put_law s1 accountBucket A j Hi1 eq_refl) as (s2 & Ep & Hi2 & Hu). rewrite (mbnd_ret _ _ _ _ _ Ep).
  destruct (reflection_law None j A s2) as (s3 & Er & Hi3 & Hs3 & Hv); [done|by exists acl|done|]. rewrite (mbnd_ret _ _ _ _ _ Er), acl_response_law.
  eexists. split; [done|]. destruct Hu as (Hu & _ & Hs2). destruct He as (He & _ & Hs1). split_and!; [done|cbn; congruence|].
  intros b k Hb'. change (kview (mkKState (kst_sandbox s3) _ _) b k) with (kview s3 b k). rewrite Hv, Hu, (decoded_written j acl), He by done. cbn.
  destruct (decide (b = ak2AccountBucket)) as [->|Hnb]; [|by repeat (rewrite (decide_False (P := _ = ak2AccountBucket /\ _)) by naive_solver)].
  by rewrite (decide_False (P := (ak2AccountBucket, k) = _)) by done.
Qed.

(** [SetAccountACL]: a well-formed request for a name that has a list. *)
Lemma SetAccountACL_law ctx s : kinv s ->
  match set_request t ctx with
  | None => exists e, SetAccountACL t call ctx s = (Err e, s)
  | Some (A, j) =>
      match kview s accountBucket A with
      | Ret old => valid_list old -> exists s', SetAccountACL t call ctx s = (Ret (resp_ok (Some j)), s') /\ acl_stored A j (acl_members old) s s'
      | _ => exists e s', SetAccountACL t call ctx s = (Err e, s')
      end
  end.
Proof.
  intros Hi. unfold SetAccountACL, set_request. destruct (Z.ltb_spec (XFee (ResourceLimits ctx)) (acl_gas t)) as [Hf|Hf].
  { rewrite (option_guard_False (_ <= _)%Z) by lia. by eexists. }
  rewrite (option_guard_True (_ <= _)%Z) by lia. cbn [mbind option_bind]. set (A := from_option blob_string "" _).
  destruct (acl_argument_cases ctx) as [(j & acl & Ej & Eacl & ->)|[-> [e ->]]]; [|by eexists]. rewrite mbnd_pure, (acl_request_of ctx j acl) by done.
  destruct (validACL acl) as [e|] eqn:Eva; [by eexists|]. cbn [check_valid mbind option_bind]. rewrite mbnd_pure.
  destruct (ctx_Get_law s accountBucket A Hi eq_refl) as (s1 & Eg & Hi1 & He).
  destruct (kview s accountBucket A) as [old|e|] eqn:Ekv; [|by rewrite (mbnd_err _ _ _ _ _ Eg); do 2 eexists|by destruct (kview_no_panic s accountBucket A)].
  intros Hold. rewrite (mbnd_ret _ _ _ _ _ Eg).
  destruct (reflection_law (Some old) j A s1) as (s2 & Er & Hi2 & Hs2 & Hv); [by intros ? [= <-]|by exists acl|done|]. rewrite (mbnd_ret _ _ _ _ _ Er).
  destruct (ctx_Put_law s2 accountBucket A j Hi2 eq_refl) as (s3 & Ep & Hi3 & Hu). rewrite (mbnd_ret _ _ _ _ _ Ep), acl_response_law.
  eexists. split; [done|]. destruct Hu as (Hu & _ & Hs3). destruct He as (He & _ & Hs1). split_and!; [done|cbn; congruence|].
  intros b k Hb'. change (kview (mkKState (kst_sandbox s3) _ _) b k) with (kview s3 b k). by rewrite Hu, Hv, (decoded_written j acl), He.
Qed.

(** [SetMethodACL] writes one key of another bucket. *)
Lemma SetMethodACL_law ctx s : kinv s ->
  match method_request t ctx with
  | None => exists e, SetMethodACL t call ctx s = (Err e, s)
  | Some (k, j) => exists s', SetMethodACL t call ctx s = (Ret (resp_ok (Some j)), s') /\ kinv s' /\
      forall b k', no_slash b = true -> kview s' b k' = if decide ((b, k') = (contractBucket, k)) then Ret j else kview s b k'
  end.
Proof.
  intros Hi. unfold SetMethodACL, method_request. destruct (Z.ltb_spec (XFee (ResourceLimits ctx)) (acl_gas t)) as [Hf|Hf].
  { rewrite (option_guard_False (_ <= _)%Z) by lia. by eexists. }
  rewrite (option_guard_True (_ <= _)%Z) by lia. cbn [mbind option_bind].
  destruct (Args ctx !! "contract_name") as [c|]; [|by eexists]. destruct (Args ctx !! "method_name") as [m|]; [|by eexists].
  destruct (acl_argument_cases ctx) as [(j & acl & Ej & Eacl & ->)|[-> [e ->]]]; [|by eexists]. rewrite mbnd_pure, (acl_request_of ctx j acl) by done.
  destruct (validACL acl) as [e|] eqn:Eva; [by eexists|]. cbn [check_valid mbind option_bind]. rewrite mbnd_pure. set (k := MakeContractMethodKey _ _).
  destruct (ctx_Put_law s contractBucket k j Hi eq_refl) as (s3 & Ep & Hi3 & Hu & _). rewrite (mbnd_ret _ _ _ _ _ Ep), acl_response_law. cbn.
  eexists. split; [done|]. split; [done|]. intros b k' Hb. rewrite <- (decoded_written j acl) by done. by apply Hu.
Qed.

(** ** The invariant *)

Definition members_of s (A : string) : list string := match kview s accountBucket A with Ret j => acl_members j | _ => [] end.

Record acl_inv s : Prop := mkAclInv {
  ai_kinv : kinv s;
  ai_lists : forall A j, kview s accountBucket A = Ret j -> IsAccount A = 1%Z /\ has_char aclSeparator A = false /\ valid_list j;
  ai_index : forall ak A, has_char aclSeparator A = false ->
    if decide (ak ∈ members_of s A) then kview s ak2AccountBucket (MakeAK2AccountKey ak A) = Ret (Raw "true")
    else forall v, kview s ak2AccountBucket (MakeAK2AccountKey ak A) <> Ret v
}.

Lemma acl_inv_stored A j old s s' : acl_inv s -> IsAccount A = 1%Z -> has_char aclSeparator A = false -> valid_list j ->
  members_of s A = old -> acl_stored A j old s s' -> acl_inv s'.
Proof.
  intros [_ Hl Hx] HA Hsep Hj <- (Hi' & _ & Hv).
  assert (forall B, kview s' accountBucket B = if decide (B = A) then Ret j else kview s accountBucket B) as Hacc.
  { intros B. rewrite Hv by done. destruct (decide (B = A)) as [->|Hne]; [by rewrite decide_True|]. rewrite decide_False by congruence. by rewrite !decide_False by (by intros [? _]). }
  split; [done|..].
  - intros B jB. rewrite Hacc. case_decide; [intros [= <-]; by subst|apply Hl].
  - intros ak B HB. specialize (Hx ak B HB). assert (members_of s' B = if decide (B = A) then acl_members j else members_of s B) as -> by (unfold members_of; rewrite Hacc; by destruct (decide (B = A))).
    rewrite Hv by done. rewrite (decide_False (P := (ak2AccountBucket, _) = _)) by done. destruct (decide (B = A)) as [->|Hne].
    + assert (forall l : list string, MakeAK2AccountKey ak A ∈ (fun ak => MakeAK2AccountKey ak A) <$> l <-> ak ∈ l) as Hkey.
      { intros l. rewrite list_elem_of_fmap. split; [|by eauto]. intros (ak' & E & ?). by apply sep_cut in E as [-> _]. }
      destruct (decide (ak ∈ acl_members j)) as [Hin|Hin]; [by rewrite decide_True by (by rewrite Hkey)|]. rewrite decide_False by (rewrite Hkey; by intros [_ ?]).
      destruct (decide (ak ∈ members_of s A)) as [Hold|Hold]; [by rewrite decide_True by (by rewrite Hkey)|]. by rewrite decide_False by (rewrite Hkey; by intros [_ ?]).
    + assert (forall l : list string, MakeAK2AccountKey ak B ∉ (fun ak => MakeAK2AccountKey ak A) <$> l) as Hkey by (intros l (ak' & E & _)%list_elem_of_fmap; by apply sep_cut in E as [_ ->]).
      rewrite !(decide_False (P := _ = _ /\ MakeAK2AccountKey _ _ ∈ _)) by (intros [_ Hk]; by apply Hkey in Hk). done.
Qed.

(** One call that reports no error. *)
Inductive acl_step s s' : Prop :=
| step_new ctx r : NewAccount t call ctx s = (Ret r, s') -> acl_step s s'
| step_set ctx r : SetAccountACL t call ctx s = (Ret r, s') -> acl_step s s'
| step_method ctx r : SetMethodACL t call ctx s = (Ret r, s') -> acl_step s s'.

Lemma new_request_made ctx A j : new_request t ctx = Some (A, j) -> has_char aclSeparator (BcName t) = false ->
  IsAccount A = 1%Z /\ has_char aclSeparator A = false /\ valid_list j.
Proof. unfold new_request. intros E Hbc. simplify_option_eq. apply and_assoc. split; [by apply made_account|]. by eapply acl_request_valid. Qed.

Lemma acl_step_inv s s' : has_char aclSeparator (BcName t) = false -> acl_inv s -> acl_step s s' -> acl_inv s'.
Proof.
  intros Hbc Hinv Hs. pose proof (ai_kinv s Hinv) as Hi. destruct Hs as [ctx r E|ctx r E|ctx r E].
  - pose proof (NewAccount_law ctx s Hi) as Hl. destruct (new_request t ctx) as [[A j]|] eqn:Er; [|by destruct Hl as [e1 Hl]; congruence].
    destruct Hl as [(Hk & s1 & E1 & Hst)|(_ & e1 & s1 & E1)]; [|congruence]. assert (s1 = s') as -> by congruence.
    destruct (new_request_made ctx A j Er Hbc) as (? & ? & ?). apply (acl_inv_stored A j [] s s'); try done. unfold members_of. by rewrite Hk.
  - pose proof (SetAccountACL_law ctx s Hi) as Hl. destruct (set_request t ctx) as [[A j]|] eqn:Er; [|by destruct Hl as [e1 Hl]; congruence].
    destruct (kview s accountBucket A) as [old| |] eqn:Hk; [|destruct Hl as (e1 & s1 & E1); congruence..].
    destruct (ai_lists s Hinv A old Hk) as (HA & Hsep & Hold). destruct (Hl Hold) as (s1 & E1 & Hst). assert (s1 = s') as -> by congruence.
    apply (acl_inv_stored A j (acl_members old) s s'); try done; [|unfold members_of; by rewrite Hk].
    by eapply set_request_list.
  - pose proof (SetMethodACL_law ctx s Hi) as Hl. destruct (method_request t ctx) as [[k j]|] eqn:Er; [|by destruct Hl as [e1 Hl]; congruence].
    destruct Hl as (s1 & E1 & Hi1 & Hv). assert (s1 = s') as -> by congruence. assert (forall b k', b <> contractBucket -> no_slash b = true -> kview s' b k' = kview s b k') as Hkeep.
    { intros b k' Hb Hs. rewrite Hv by done. by rewrite decide_False by congruence. }
    destruct Hinv as [_ Hl Hx]. split; [done| |].
    + intros A jA. rewrite Hkeep by done. apply Hl.
    + intros ak A HA. unfold members_of. rewrite !Hkeep by done. by apply Hx.
Qed.
End Effect.

(** ** What the manager reads back *)

Section Manager.
Context {S : Type} `{StateSandboxLaws S} `{MO : MapOrder}.
Implicit Types s : KState S.

(** The manager over the state the transactions left. *)
Definition tip_reader s : string -> string -> outcome blob := fun b k => match kview s b k with Ret v => Ret v | _ => Ret (Raw "") end.
Definition list_of s (A : string) : outcome (option Acl) := GetAccountACL (AclManager := Manager (tip_reader s)) A.
Definition method_list_of s (c m : string) : outcome (option Acl) := GetContractMethodACL (AclManager := Manager (tip_reader s)) c m.

Lemma read_acl_tip s b k : read_acl (tip_reader s) b k =
  match kview s b k with
  | Ret j => if is_empty_string (blob_string j) then Ret None else match UnmarshalAcl j with Some acl => Ret (Some acl) | None => Err "json unmarshal acl failed" end
  | _ => Ret None
  end.
Proof. unfold read_acl, tip_reader. by destruct (kview s b k). Qed.
Lemma decoded_not_empty j acl : UnmarshalAcl j = Some acl -> is_empty_string (blob_string j) = false.
Proof. destruct j as [[]|]; [done..|]. intros _. unfold blob_string. cbn [json_text]. done. Qed.
Lemma list_of_decoded s A j acl : kview s accountBucket A = Ret j -> UnmarshalAcl j = Some acl -> list_of s A = Ret (Some acl).
Proof. intros E Ej. change (list_of s A) with (read_acl (tip_reader s) accountBucket A). rewrite read_acl_tip, E. by rewrite (decoded_not_empty j acl Ej), Ej. Qed.
Lemma list_of_none s A : (forall j, kview s accountBucket A <> Ret j) -> list_of s A = Ret None.
Proof. intros E. change (list_of s A) with (read_acl (tip_reader s) accountBucket A). rewrite read_acl_tip. destruct (kview s accountBucket A) eqn:Ek; [|done..]. by destruct (E a). Qed.

Lemma list_of_cases s A : acl_inv s ->
  (exists j acl, kview s accountBucket A = Ret j /\ UnmarshalAcl j = Some acl /\ validACL acl = None /\ list_of s A = Ret (Some acl)) \/
  ((forall j, kview s accountBucket A <> Ret j) /\ list_of s A = Ret None).
Proof.
  intros Hinv. destruct (kview s accountBucket A) as [j|e|] eqn:E; [|right; split; [done|apply list_of_none; congruence]..].
  destruct (ai_lists s Hinv A j E) as (_ & _ & acl & Ej & Hv). left. exists j, acl. split_and!; [done..|]. by eapply list_of_decoded.
Qed.
Lemma lists_after_stored A j acl old s s' B : acl_stored A j old s s' -> UnmarshalAcl j = Some acl -> list_of s' B = if decide (B = A) then Ret (Some acl) else list_of s B.
Proof.
  intros (_ & _ & Hv) Ej. specialize (Hv accountBucket B eq_refl). rewrite !(decide_False (P := accountBucket = _ /\ _)) in Hv by (by intros [? _]).
  destruct (decide (B = A)) as [->|Hne]; [rewrite decide_True in Hv by done; by eapply list_of_decoded|]. rewrite decide_False in Hv by congruence.
  change (read_acl (tip_reader s') accountBucket B = read_acl (tip_reader s) accountBucket B). by rewrite !read_acl_tip, Hv.
Qed.

Lemma addresses_members s A ak : acl_inv s -> ak ∈ members_of s A <-> exists l, GetAccountAddresses (tip_reader s) A = Ret l /\ ak ∈ l.
Proof.
  intros Hinv. unfold GetAccountAddresses. change (@GetAccountACL (Manager (tip_reader s)) A) with (list_of s A). unfold members_of.
  destruct (list_of_cases s A Hinv) as [(j & acl & E & Ej & Hv & ->)|[Hno ->]].
  - rewrite E, <- Ej, (valid_addresses j acl Ej Hv). naive_solver.
  - destruct (kview s accountBucket A) eqn:E; [by destruct (Hno a)|..]; (split; [by intros ?%elem_of_nil|]; by intros (l & ? & _)).
Qed.
End Manager.

(** C14: the index of accounts is exact.  However accounts are made and their
    lists replaced, starting from a chain without accounts, a key is entered in
    the index under an account exactly when it is one of the addresses of the
    account that the manager reports. *)
Theorem acl_index_exact {S} `{StateSandboxLaws S} `{MapOrder} t call (s0 s : KState S) ak A :
  has_char aclSeparator (BcName t) = false -> kinv s0 ->
  (forall b k v, b = accountBucket \/ b = ak2AccountBucket -> kview s0 b k <> Ret v) ->
  rtc (acl_step t call) s0 s -> has_char aclSeparator A = false ->
  kview s ak2AccountBucket (MakeAK2AccountKey ak A) = Ret (Raw "true") <-> exists l, GetAccountAddresses (tip_reader s) A = Ret l /\ ak ∈ l.
Proof.
  intros Hbc Hi0 Hempty Hrun HA.
  assert (acl_inv s0) as H0'.
  { split; [done| |].
    - intros B j E. by destruct (Hempty accountBucket B j); [left|].
    - intros k B _. rewrite decide_False; [intros v; apply Hempty; by right|]. unfold members_of.
      destruct (kview s0 accountBucket B) eqn:E; [by destruct (Hempty accountBucket B a); [left|]|apply not_elem_of_nil..]. }
  assert (acl_inv s) as Hinv. { clear -Hrun H0' Hbc. induction Hrun; [done|]. apply IHHrun. by eapply acl_step_inv. }
  rewrite <- addresses_members by done. pose proof (ai_index s Hinv ak A HA) as Hx. case_decide; [done|]. split; [|done]. intros E. by destruct (Hx _ E).
Qed.

(** A list that is set is the list that is read.  A well-formed request is
    carried out: a new account, only if it has no list; a new list, only for an
    account; then the manager reads the new list for it, and every other account
    keeps the list it had.  The list of a method is read back in the same way. *)
Theorem acl_lists_roundtrip {S} `{StateSandboxLaws S} `{MapOrder} t call ctx (s : KState S) :
  acl_inv s ->
  (forall A j, new_request t ctx = Some (A, j) -> kview s accountBucket A = Err ErrNotFound -> exists acl s', UnmarshalAcl j = Some acl /\
     NewAccount t call ctx s = (Ret (resp_ok (Some j)), s') /\ forall B, list_of s' B = if decide (B = A) then Ret (Some acl) else list_of s B) /\
  (forall A j, set_request t ctx = Some (A, j) -> list_of s A <> Ret None -> exists acl s', UnmarshalAcl j = Some acl /\
     SetAccountACL t call ctx s = (Ret (resp_ok (Some j)), s') /\ forall B, list_of s' B = if decide (B = A) then Ret (Some acl) else list_of s B) /\
  (forall c m j, method_request t ctx = Some (MakeContractMethodKey c m, j) -> exists acl s', UnmarshalAcl j = Some acl /\
     SetMethodACL t call ctx s = (Ret (resp_ok (Some j)), s') /\ method_list_of s' c m = Ret (Some acl) /\ forall B, list_of s' B = list_of s B) /\
  (forall r s', NewAccount t call ctx s = (Ret r, s') -> exists A j, new_request t ctx = Some (A, j) /\ list_of s A = Ret None) /\
  (forall r s', SetAccountACL t call ctx s = (Ret r, s') -> exists A j, set_request t ctx = Some (A, j) /\ list_of s A <> Ret None).
Proof.
  intros Hinv. pose proof (ai_kinv s Hinv) as Hi.
  pose proof (NewAccount_law t call ctx s Hi) as Hnew. pose proof (SetAccountACL_law t call ctx s Hi) as Hset. pose proof (SetMethodACL_law t call ctx s Hi) as Hmet.
  split_and!.
  - intros A j Er Ek. rewrite Er in Hnew. destruct Hnew as [(_ & s' & E & Hst)|(? & _)]; [|done]. destruct (new_request_list t ctx A j Er) as (acl & Ej & _).
    exists acl, s'. split_and!; [done..|]. intros B. by eapply lists_after_stored.
  - intros A j Er Hl. rewrite Er in Hset. destruct (list_of_cases s A Hinv) as [(old & oacl & Ek & Eo & Hv & _)|[_ ?]]; [|done]. rewrite Ek in Hset.
    destruct Hset as (s' & E & Hst); [by exists oacl|]. destruct (set_request_list t ctx A j Er) as (acl & Ej & _). exists acl, s'. split_and!; [done..|]. intros B. by eapply lists_after_stored.
  - intros c m j Er. rewrite Er in Hmet. destruct Hmet as (s' & E & _ & Hv). destruct (method_request_list t ctx _ j Er) as (acl & Ej & _). exists acl, s'. split_and!; [done..| |].
    + change (read_acl (tip_reader s') contractBucket (MakeContractMethodKey c m) = Ret (Some acl)). rewrite read_acl_tip, Hv by done. rewrite decide_True by done. by rewrite (decoded_not_empty j acl Ej), Ej.
    + intros B. change (read_acl (tip_reader s') accountBucket B = read_acl (tip_reader s) accountBucket B). rewrite !read_acl_tip, Hv by done. by rewrite decide_False by done.
  - intros r s' E. destruct (new_request t ctx) as [[A j]|]; [|by destruct Hnew as [e1 ?]; congruence]. exists A, j. split; [done|].
    destruct Hnew as [(Ek & _)|(_ & e1 & s1 & ?)]; [|congruence]. apply list_of_none. congruence.
  - intros r s' E. destruct (set_request t ctx) as [[A j]|]; [|by destruct Hset as [e1 ?]; congruence]. exists A, j. split; [done|].
    destruct (list_of_cases s A Hinv) as [(old & oacl & Ek & Eo & Hv & ->)|[Hno _]]; [done|]. destruct (kview s accountBucket A); [by destruct (Hno a)|destruct Hset as (e1 & s1 & ?); congruence..].
Qed.
