(* ===== verification/AclCases.v ===== *)
(** * Access control: cases

    Concrete chains for the theorems of the files AclSpec and AclIndex, and what
    the permission checks let through. *)

From Stdlib Require Import ZArith Lia Ascii SpecFloat.
From stdpp Require Import base gmap strings list numbers sorting.
From S2P Require Import Prelude GoValues Sandbox KContext Acl AclSpec AclContract AclIndex.

Set Default Proof Using "Type".

(** ** A key in the middle of a path *)

Section Bypass.
Context `{AclManager} `{MO : MapOrder} (account thief : string).

(** The path [account/victim/thief]. *)
Definition through (victim : string) : string := Join uriSep [account; victim; thief].

Lemma through_paths vs : Forall (fun n => has_char uriSep n = false) (account :: thief :: vs) ->
  tree_paths account true (through <$> vs) = (fun v => [v; thief]) <$> vs.
Proof.
  intros [Ha [Ht Hv]%Forall_cons]%Forall_cons. unfold tree_paths. induction Hv as [|v vs Hv _ IH]; [done|]. cbn [fmap list_fmap omap list_omap].
  assert (below_root account true (through v) = Some [v; thief]) as ->; [|by rewrite <- IH].
  unfold below_root, through, SplitAccountURI. rewrite Split_Join by (done || by repeat constructor). by rewrite bool_decide_eq_true_2.
Qed.
Lemma heads_through vs : NoDup vs -> heads ((fun v => [v; thief]) <$> vs) = vs.
Proof.
  induction vs as [|v vs IH] using rev_ind; [done|]. intros (Hn & Hv & _)%NoDup_app. rewrite fmap_app. cbn [fmap list_fmap]. rewrite heads_snoc, IH by done. cbn.
  rewrite decide_False; [done|]. intros ?. apply (Hv v); [done|left].
Qed.
Lemma suffixes_through vs v : NoDup vs -> v ∈ vs -> suffixes [v] ((fun v => [v; thief]) <$> vs) = [[thief]].
Proof.
  intros Hn Hv. unfold suffixes. apply list_elem_of_split in Hv as (l1 & l2 & ->). apply NoDup_app in Hn as (_ & H1 & [H2 _]%NoDup_cons).
  assert (forall l, v ∉ l -> omap (strip [v]) ((fun v => [v; thief]) <$> l) = []) as Hnil.
  { induction l as [|x l IH]; [done|]. intros [Hx Hl]%not_elem_of_cons. cbn. rewrite decide_False by done. by apply IH. }
  rewrite fmap_app, omap_app, Hnil by (intros Hin; apply (H1 v Hin); left). cbn. rewrite decide_True by done. f_equal. by apply Hnil.
Qed.

Lemma key_passes name a ps : IsAccount name = 0%Z -> check_node false (NewPermNode name a) ps = Ret true.
Proof. intros E. unfold check_node. cbn [Name NewPermNode]. by rewrite E. Qed.

(** Members that all pass reach the threshold. *)
Lemma members_pass acl pm vs : IsAccount account = 1%Z -> Pm acl = Some pm -> Rule pm = SIGN_THRESHOLD ->
  float_le (AcceptValue pm) (foldl (fun sum v => float_add sum (findWeightInACL v (Some acl))) float_zero vs) = true ->
  check_node false (NewPermNode account (Some acl)) (zip_with decided vs (replicate (length vs) true)) = Ret true.
Proof.
  intros Hacc Epm Er Hle. unfold check_node. cbn [Name NewPermNode]. rewrite Hacc. cbn -[check_acl]. unfold check_acl. cbn [ACL NewPermNode]. rewrite Epm.
  unfold GetACLValidator. rewrite bool_decide_eq_true_2 by done. unfold ThresholdValidator_Validate. cbn [ACL NewPermNode]. change (Some acl ≫= Pm) with (Pm acl). rewrite Epm, threshold_passed.
  replace (passed vs (replicate (length vs) true)) with vs; [by rewrite Hle|]. unfold passed. clear. induction vs as [|v vs IH]; [done|]. cbn. by f_equal.
Qed.
End Bypass.

(** The account is identified by paths through its members. *)
Lemma identify_through `{AclManager} `{MO : MapOrder} account thief acl pm a vs :
  Forall (fun n => has_char uriSep n = false) (account :: thief :: vs) -> NoDup vs ->
  IsAccount account = 1%Z -> GetAccountACL account = Ret (Some acl) -> Pm acl = Some pm -> Rule pm = SIGN_THRESHOLD ->
  IsAccount thief = 0%Z -> GetAccountACL thief = Ret a ->
  Forall (fun v => IsAccount v = 0%Z /\ GetAccountACL v = Ret None) vs ->
  float_le (AcceptValue pm) (foldl (fun sum v => float_add sum (findWeightInACL v (Some acl))) float_zero vs) = true ->
  IdentifyAccount account (through account thief <$> vs) = Ret true.
Proof.
  intros Hsep Hnd Hacc Eacl Epm Er Ht Et Hvs Hle.
  apply IdentifyAccount_verdict. exists (Some acl). split; [done|]. rewrite through_paths by done. set (ps := _ <$> vs).
  assert (forall n v, v ∈ vs -> verdict (S (S n)) false v None (suffixes [v] ps) = Some true) as Hkey.
  { intros n v Hv. unfold ps. rewrite suffixes_through by done. rewrite Forall_forall in Hvs. destruct (Hvs v Hv) as [Hk _]. cbn [verdict].
    change (heads [[thief]]) with [thief]. cbn [mapM]. rewrite Et. cbn [of_outcome mbind option_bind]. replace (suffixes [thief] [[thief]]) with [@nil string] by (cbn; by rewrite decide_True).
    change (heads [[]]) with (@nil string). cbn [mapM mret option_ret mbind option_bind zip_with]. rewrite key_passes by done. cbn [of_outcome mret option_ret mbind option_bind]. by rewrite key_passes. }
  assert (forall n, verdict (S (S (S n))) false account (Some acl) ps = Some true) as Hroot.
  { intros n. cbn [verdict].
    replace (mapM _ (heads ps)) with (Some (replicate (length vs) true)).
    - cbn [mbind option_bind]. unfold ps. rewrite heads_through by done. by rewrite (members_pass account acl pm vs).
    - symmetry. unfold ps. rewrite heads_through by done. apply mapM_Some. rewrite Forall_forall in Hvs.
      assert (forall l, (forall v, v ∈ l -> v ∈ vs) -> Forall2 (fun x y => of_outcome (GetAccountACL x) ≫= (fun a0 => verdict (S (S n)) false x a0 (suffixes [x] ps)) = Some y) l (replicate (length l) true)) as Hall; [|by apply Hall].
      induction l as [|v l IH]; intros Hl; constructor; [|apply IH; intros; apply Hl; by right]. destruct (Hvs v) as [_ ->]; [apply Hl; left|]. cbn [of_outcome mbind option_bind]. apply Hkey, Hl. left. }
  cbn zeta. destruct vs as [|v vs]; [|pose proof (depth_of_lt ps [v; thief] ltac:(left)) as Hd; cbn [length] in Hd; destruct (depth_of ps) as [|[|[|n]]]; [lia..|apply Hroot]].
  cbn [depth_of verdict]. unfold ps. cbn [fmap list_fmap]. change (heads []) with (@nil string). cbn [mapM mret option_ret mbind option_bind]. by rewrite (members_pass account acl pm []).
Qed.

Lemma through_ends account thief vs : Forall (fun n => has_char uriSep n = false) (account :: thief :: vs) ->
  Forall (fun uri => last (SplitAccountURI uri) = Some thief) (through account thief <$> vs).
Proof.
  intros Hsep. apply Forall_forall. intros uri (v & -> & Hv)%list_elem_of_fmap. unfold through, SplitAccountURI. apply Forall_cons in Hsep as [? [? Hs]%Forall_cons].
  rewrite Split_Join; [done|done|]. rewrite Forall_forall in Hs. repeat constructor; auto.
Qed.

(** A key in the middle of a path is taken as signed.  Only the signature of
    the last component of a path is verified before the tree is decided; so
    whoever signs as [thief] is taken for any account whose list of weights names
    keys [vs] that reach its threshold, none of which signed: each path goes
    through one of them and ends in [thief]. *)
Theorem inner_keys_need_no_signature `{AclManager} `{MO : MapOrder} account thief acl pm a vs :
  Forall (fun n => has_char uriSep n = false) (account :: thief :: vs) -> NoDup vs ->
  IsAccount account = 1%Z -> GetAccountACL account = Ret (Some acl) -> Pm acl = Some pm -> Rule pm = SIGN_THRESHOLD ->
  IsAccount thief = 0%Z -> GetAccountACL thief = Ret a ->
  Forall (fun v => IsAccount v = 0%Z /\ GetAccountACL v = Ret None) vs ->
  float_le (AcceptValue pm) (foldl (fun sum v => float_add sum (findWeightInACL v (Some acl))) float_zero vs) = true ->
  IdentifyAccount account (through account thief <$> vs) = Ret true /\
  Forall (fun uri => last (SplitAccountURI uri) = Some thief) (through account thief <$> vs).
Proof. intros. split; [by eapply identify_through|by apply through_ends]. Qed.

(** ** A chain with accounts *)

Module AclExample.
Import Fresh.
#[local] Existing Instance address_order.

Definition t : AclKernMethod := mkAclKernMethod "xuper" 1000.
Definition no_call : CallFn store := fun _ _ _ _ _ => mpanic.
Definition ctx (args : list (string * blob)) : Context := mkContext "$acl" "alice" "" [] (list_to_map args) MaxLimits.

(** Alice and Bob with 0.5 each, both needed. *)
Definition both : blob :=
  Doc [("pm", JObj [("rule", JNum 1); ("acceptValue", JNum 1)]); ("aksWeight", JObj [("alice", JDec 5 1); ("bob", JDec 5 1)])].
(** Either Carol, or Bob with Dave. *)
Definition either : blob :=
  Doc [("pm", JObj [("rule", JNum 2)]);
       ("akSets", JObj [("sets", JObj [("1", JObj [("aks", JArr [JStr "carol"])]); ("2", JObj [("aks", JArr [JStr "bob"; JStr "dave"])])]);
                        ("expression", JStr "")])].

Definition A : string := "XC1111111111111111@xuper".
Definition new_ctx : Context := ctx [("account_name", Raw "1111111111111111"); ("acl", both)].
Definition set_ctx : Context := ctx [("account_name", Raw A); ("acl", either)].
Definition s0 : KState store := start "$acl".
Definition s1 : KState store := snd (NewAccount t no_call new_ctx s0).
Definition s2 : KState store := snd (SetAccountACL t no_call set_ctx s1).

Lemma s0_empty b k v : b = accountBucket \/ b = ak2AccountBucket -> kview s0 b k <> Ret v.
Proof. by rewrite (start_view "$acl"). Qed.
Lemma pair_at {X Y} (p : X * Y) x : p.1 = x -> p = (x, p.2).
Proof. by destruct p as [? ?]; intros <-. Qed.
Lemma acl_step_s1 : acl_step t no_call s0 s1.
Proof. eapply step_new, (pair_at _ (Ret (resp_ok (Some both)))). vm_compute. reflexivity. Qed.
Lemma acl_step_s2 : acl_step t no_call s1 s2.
Proof. eapply step_set, (pair_at _ (Ret (resp_ok (Some either)))). vm_compute. reflexivity. Qed.
Lemma s0_inv : acl_inv s0.
Proof.
  split; [apply start_inv| |].
  - intros B j E. by destruct (s0_empty accountBucket B j); [left|].
  - intros ak B _. rewrite decide_False; [intros v; apply s0_empty; by right|]. unfold members_of.
    destruct (kview s0 accountBucket B) eqn:E; [by destruct (s0_empty accountBucket B a); [left|]|apply not_elem_of_nil..].
Qed.

(** The manager that reads the lists of [s1]. *)
#[local] Instance manager : AclManager := Manager (tip_reader s1).
End AclExample.

Section Witnesses.
Import Fresh AclExample.
#[local] Existing Instance address_order.

Lemma acl_index_exact_witness :
  kview s2 ak2AccountBucket (MakeAK2AccountKey "dave" A) = Ret (Raw "true") /\ kview s2 ak2AccountBucket (MakeAK2AccountKey "alice" A) <> Ret (Raw "true").
Proof.
  assert (rtc (acl_step t no_call) s0 s2) as Hrun by (eapply rtc_l; [exact acl_step_s1|eapply rtc_once, acl_step_s2]).
  assert (GetAccountAddresses (tip_reader s2) A = Ret ["carol"; "bob"; "dave"]) as Ea by (vm_compute; reflexivity).
  split.
  - apply (acl_index_exact t no_call s0 s2 "dave" A); [reflexivity|apply start_inv|exact s0_empty|exact Hrun|reflexivity|].
    exists ["carol"; "bob"; "dave"]. split; [exact Ea|right; right; left].
  - intros E. apply (acl_index_exact t no_call s0 s2 "alice" A) in E; [|reflexivity|apply start_inv|exact s0_empty|exact Hrun|reflexivity].
    destruct E as (l & E & Hin). rewrite Ea in E. injection E as <-. rewrite !elem_of_cons in Hin. destruct Hin as [?|[?|[?|?%elem_of_nil]]]; done.
Defined.

Lemma acl_lists_roundtrip_witness : exists acl s', UnmarshalAcl either = Some acl /\
  SetAccountACL t no_call set_ctx s1 = (Ret (resp_ok (Some either)), s') /\ list_of s' A = Ret (Some acl).
Proof.
  destruct (acl_lists_roundtrip t no_call set_ctx s1) as (_ & Hset & _).
  - eapply (acl_step_inv t no_call s0 s1); [reflexivity|exact s0_inv|exact acl_step_s1].
  - destruct (Hset A either) as (acl & s' & Ej & E & Hl); [reflexivity|vm_compute; discriminate|]. exists acl, s'. split; [exact Ej|]. split; [exact E|]. by rewrite Hl, decide_True.
Defined.


(** Mallory signs, Alice and Bob do not. *)
Lemma inner_keys_need_no_signature_witness :
  IdentifyAccount (H := manager) A [Join uriSep [A; "alice"; "mallory"]; Join uriSep [A; "bob"; "mallory"]] = Ret true.
Proof.
  destruct (inner_keys_need_no_signature (H := manager) A "mallory" (default noAcl (UnmarshalAcl both)) (mkPm 1 (float_decimal 1 0)) None ["alice"; "bob"]) as [E _].
  - repeat constructor.
  - repeat constructor; set_solver.
  - reflexivity.
  - vm_compute. reflexivity.
  - reflexivity.
  - reflexivity.
  - reflexivity.
  - vm_compute. reflexivity.
  - repeat constructor.
  - vm_compute. reflexivity.
  - exact E.
Defined.
End Witnesses.

(** ** Single cases *)

Section Cases.
Import Fresh AclExample.
#[local] Existing Instance address_order.

Definition one_list (j : blob) : AclManager := {|
  GetAccountACL := fun n => if bool_decide (n = A) then Ret (UnmarshalAcl j) else Ret None;
  GetContractMethodACL := fun _ _ => Ret None
|}.
Definition signed_by (ks : list string) : list string := (fun k => Join uriSep [A; k]) <$> ks.

(** Weights are summed in the order of the signatures: 0.7 + 0.1 + 0.1 + 0.1 is
    rounded to less than 1, 0.1 + 0.1 + 0.1 + 0.7 is not. *)
Definition tenths : blob := Doc [("pm", JObj [("rule", JNum 1); ("acceptValue", JNum 1)]);
  ("aksWeight", JObj [("a", JDec 7 1); ("b", JDec 1 1); ("c", JDec 1 1); ("d", JDec 1 1)])].
Example weights_depend_on_order :
  IdentifyAccount (H := one_list tenths) A (signed_by ["a"; "b"; "c"; "d"]) = Ret false /\
  IdentifyAccount (H := one_list tenths) A (signed_by ["b"; "c"; "d"; "a"]) = Ret true.
Proof. split; vm_compute; reflexivity. Qed.

(** A list with a null set is accepted by [validACL], and the check of the account
    then dereferences nil. *)
Definition null_set : blob := Doc [("pm", JObj [("rule", JNum 2)]); ("akSets", JObj [("sets", JObj [("1", JNull)])])].
Example null_set_panics :
  validACL (default noAcl (UnmarshalAcl null_set)) = None /\ IdentifyAccount (H := one_list null_set) A (signed_by ["carol"]) = Panic.
Proof. split; vm_compute; reflexivity. Qed.

(** A threshold of 0 needs no signature at all. *)
Definition zero : blob := Doc [("pm", JObj [("rule", JNum 1); ("acceptValue", JNum 0)]); ("aksWeight", JObj [])].
Example zero_threshold_is_open : validACL (default noAcl (UnmarshalAcl zero)) = None /\ IdentifyAccount (H := one_list zero) A [] = Ret true.
Proof. split; vm_compute; reflexivity. Qed.

(** An account that does not exist agrees to everything. *)
Example missing_account_agrees : IdentifyAccount (H := one_list both) "XC2222222222222222@xuper" [] = Ret true.
Proof. vm_compute. reflexivity. Qed.
End Cases.
