(* ===== verification/TxHash.v ===== *)
(** * Transaction identifiers and digests

    [bcs/ledger/xledger/state/utxo/txhash]: [encode.go], the encoding of the
    transactions of version 3, in which every variable part is preceded by its
    length, and [txhash.go], which uses JSON for the older versions.  The digest
    is what is signed; the identifier covers the signatures too.

    The record [FullTx] adds to the transaction of the file LedgerHash the members
    that only its verification reads.  A nil slice and an empty one are the same.
    In the JSON encoding strings are taken to need no escape. *)

From Stdlib Require Import ZArith Lia Ascii.
From stdpp Require Import base gmap strings list numbers sorting.
From S2P Require Import Prelude GoValues KContext Sha256 LedgerHash.

Set Default Proof Using "Type".

(** ** Transactions in full *)

Record InvokeRequest := mkInvoke {
  ModuleName : string; ir_ContractName : string; MethodName : string; ir_Args : gmap string blob;
  ir_ResourceLimits : list (ResourceType * Z); ir_Amount : string
}.
Record SignatureInfo := mkSig { PublicKey : string; Sign : string }.
Record XuperSignature := mkXuperSig { PublicKeys : list string; Signature : string }.
Record HDInfo := mkHD { HdPublicKey : string; OriginalHash : string }.

Record FullTx := mkFullTx {
  core : Transaction;
  tx_Version : Z;
  tx_Nonce : string;
  tx_Timestamp : Z;
  ContractRequests : list InvokeRequest;
  tx_Initiator : string;
  tx_AuthRequire : list string;
  InitiatorSigns : list SignatureInfo;
  AuthRequireSigns : list SignatureInfo;
  XuperSign : option XuperSignature;
  tx_HDInfo : option HDInfo
}.

(** ** [encode.go] *)

(** [binary.BigEndian.PutUint64]. *)
Fixpoint be_bytes (n : nat) (z : Z) : string :=
  match n with O => "" | S n => be_bytes n (z / 256) +:+ String (byte_char (z mod 256)) "" end.
Definition EncodeInt64 (x : Z) : string := be_bytes 8 x.
Definition EncodeString (s : string) : string := EncodeInt64 (Z.of_nat (String.length s)) +:+ s.
Definition EncodeBytes : string -> string := EncodeString.
Definition EncodeBool (b : bool) : string := EncodeInt64 (if b then 1 else 0).
Definition EncodeLen {A} (l : list A) : string := EncodeInt64 (Z.of_nat (length l)).

Definition EncodeEach {A} (enc : A -> string) (l : list A) : string := foldr (fun a acc => enc a +:+ acc) "" l.
Definition EncodeMap (m : gmap string blob) : string :=
  EncodeInt64 (Z.of_nat (size m)) +:+
  EncodeEach (fun kv => EncodeString kv.1 +:+ EncodeBytes (blob_string kv.2)) (merge_sort key_le (map_to_list m)).

(** The length of a list and its elements. *)
Definition EncodeList {A} (enc : A -> string) (l : list A) : string := EncodeLen l +:+ EncodeEach enc l.

Definition enc_input (i : TxInput) : string :=
  EncodeBytes (ti_RefTxid i) +:+ EncodeInt64 (ti_RefOffset i) +:+ EncodeBytes (FromAddr i) +:+ EncodeBytes (ti_Amount i) +:+ EncodeInt64 (ti_FrozenHeight i).
Definition enc_output (o : TxOutput) : string :=
  EncodeBytes (to_Amount o) +:+ EncodeBytes (ToAddr o) +:+ EncodeInt64 (to_FrozenHeight o).
Definition enc_input_ext (i : TxInputExt) : string :=
  EncodeString (ie_Bucket i) +:+ EncodeBytes (ie_Key i) +:+ EncodeBytes (default "" (ie_RefTxid i)) +:+ EncodeInt64 (ie_RefOffset i).
Definition value_text (v : option blob) : string := from_option blob_string "" v.
Definition enc_output_ext (o : TxOutputExt) : string :=
  EncodeString (oe_Bucket o) +:+ EncodeBytes (oe_Key o) +:+ EncodeBytes (value_text (oe_Value o)).

Definition enc_limit (l : ResourceType * Z) : string := EncodeInt64 l.1 +:+ EncodeInt64 l.2.
Definition enc_request (r : InvokeRequest) : string :=
  EncodeString (ModuleName r) +:+ EncodeString (ir_ContractName r) +:+ EncodeString (MethodName r) +:+ EncodeMap (ir_Args r) +:+
  EncodeList enc_limit (ir_ResourceLimits r) +:+ EncodeString (ir_Amount r).
Definition enc_sig (s : SignatureInfo) : string := EncodeString (PublicKey s) +:+ EncodeBytes (Sign s).

Definition enc_signs (tx : FullTx) : string :=
  EncodeList enc_sig (InitiatorSigns tx) +:+ EncodeList enc_sig (AuthRequireSigns tx) +:+
  EncodeList EncodeBytes (from_option PublicKeys [] (XuperSign tx)) +:+ EncodeBytes (from_option Signature "" (XuperSign tx)).

(** What is hashed. *)
Definition tx_bytes (tx : FullTx) (includeSigns : bool) : string :=
  EncodeList enc_input (TxInputs (core tx)) +:+ EncodeList enc_output (TxOutputs (core tx)) +:+
  EncodeBytes (Desc (core tx)) +:+ EncodeBool (Coinbase (core tx)) +:+ EncodeString (tx_Nonce tx) +:+ EncodeInt64 (tx_Timestamp tx) +:+
  EncodeInt64 (tx_Version tx) +:+ EncodeBool (Autogen (core tx)) +:+
  EncodeList enc_input_ext (TxInputsExt (core tx)) +:+ EncodeList enc_output_ext (TxOutputsExt (core tx)) +:+
  EncodeList enc_request (ContractRequests tx) +:+
  EncodeString (tx_Initiator tx) +:+ EncodeList EncodeString (tx_AuthRequire tx) +:+
  (if includeSigns then enc_signs tx else "") +:+
  EncodeBytes (from_option HdPublicKey "" (tx_HDInfo tx)) +:+ EncodeBytes (from_option OriginalHash "" (tx_HDInfo tx)).

Definition txDigestHashV2 (tx : FullTx) (includeSigns : bool) : string := DoubleSha256 (tx_bytes tx includeSigns).

(** ** [txhash.go] *)

(** [encoder.Encode]: a value and a line feed; byte slices are in base 64. *)
Definition json_line (j : json) : string := json_text j +:+ String "010" "".
Definition JBytes (s : string) : json := JStr (b64_encode s).
Definition line_if (b : bool) (j : json) : string := if b then json_line j else "".
Definition nonempty (s : string) : bool := negb (is_empty_string s).
Definition bytes_line (s : string) : string := line_if (nonempty s) (JBytes s).

(** Members with [omitempty]; a nil slice is null. *)
Definition omit_str (k v : string) : list (string * json) := if nonempty v then [(k, JStr v)] else [].
Definition omit_bytes (k v : string) : list (string * json) := if nonempty v then [(k, JBytes v)] else [].
Definition omit_int (k : string) (v : Z) : list (string * json) := if (v =? 0)%Z then [] else [(k, JNum v)].
Definition omit_arr (k : string) (l : list json) : list (string * json) := match l with [] => [] | _ => [(k, JArr l)] end.
Definition slice (l : list json) : json := match l with [] => JNull | _ => JArr l end.

Definition json_output (o : TxOutput) : json :=
  JObj (omit_bytes "amount" (to_Amount o) ++ omit_bytes "to_addr" (ToAddr o) ++ omit_int "frozen_height" (to_FrozenHeight o)).
Definition json_limit (l : ResourceType * Z) : json := JObj (omit_int "type" l.1 ++ omit_int "limit" l.2).
Definition json_request (r : InvokeRequest) : json :=
  JObj (omit_str "module_name" (ModuleName r) ++ omit_str "contract_name" (ir_ContractName r) ++ omit_str "method_name" (MethodName r) ++
        (if bool_decide (ir_Args r = ∅) then [] else [("args", JObj (obj_of_map (fun v => JBytes (blob_string v)) (ir_Args r)))]) ++
        omit_arr "resource_limits" (json_limit <$> ir_ResourceLimits r) ++ omit_str "amount" (ir_Amount r)).
Definition json_sig (s : SignatureInfo) : json := JObj (omit_str "PublicKey" (PublicKey s) ++ omit_bytes "Sign" (Sign s)).
Definition json_xuper (x : XuperSignature) : json := JObj (omit_arr "public_keys" (JBytes <$> PublicKeys x) ++ omit_bytes "signature" (Signature x)).
Definition json_hd (h : HDInfo) : json := JObj (omit_bytes "hd_public_key" (HdPublicKey h) ++ omit_bytes "original_hash" (OriginalHash h)).

Definition v1_input (i : TxInput) : string :=
  bytes_line (ti_RefTxid i) +:+ json_line (JNum (ti_RefOffset i)) +:+ bytes_line (FromAddr i) +:+ bytes_line (ti_Amount i) +:+ json_line (JNum (ti_FrozenHeight i)).
Definition v1_input_ext (i : TxInputExt) : string :=
  json_line (JStr (ie_Bucket i)) +:+ bytes_line (ie_Key i) +:+ bytes_line (default "" (ie_RefTxid i)) +:+ json_line (JNum (ie_RefOffset i)).
Definition v1_output_ext (o : TxOutputExt) : string :=
  json_line (JStr (oe_Bucket o)) +:+ bytes_line (oe_Key o) +:+ bytes_line (value_text (oe_Value o)).

Definition encodeTxData (tx : FullTx) (includeSigns : bool) : string :=
  EncodeEach v1_input (TxInputs (core tx)) +:+ json_line (slice (json_output <$> TxOutputs (core tx))) +:+ bytes_line (Desc (core tx)) +:+
  json_line (JStr (tx_Nonce tx)) +:+ json_line (JNum (tx_Timestamp tx)) +:+ json_line (JNum (tx_Version tx)) +:+
  EncodeEach v1_input_ext (TxInputsExt (core tx)) +:+ EncodeEach v1_output_ext (TxOutputsExt (core tx)) +:+
  json_line (slice (json_request <$> ContractRequests tx)) +:+ json_line (JStr (tx_Initiator tx)) +:+ json_line (slice (JStr <$> tx_AuthRequire tx)) +:+
  (if includeSigns then
     json_line (slice (json_sig <$> InitiatorSigns tx)) +:+ json_line (slice (json_sig <$> AuthRequireSigns tx)) +:+
     from_option (fun x => json_line (json_xuper x)) "" (XuperSign tx)
   else "") +:+
  json_line (JBool (Coinbase (core tx))) +:+ json_line (JBool (Autogen (core tx))) +:+
  line_if (2 <=? tx_Version tx)%Z (from_option json_hd JNull (tx_HDInfo tx)).

Definition MakeTransactionID (tx : FullTx) : string :=
  if (3 <=? tx_Version tx)%Z then txDigestHashV2 tx true else DoubleSha256 (encodeTxData tx true).
Definition MakeTxDigestHash (tx : FullTx) : string :=
  if (3 <=? tx_Version tx)%Z then txDigestHashV2 tx false else DoubleSha256 (encodeTxData tx false).

(** ** Unambiguous encodings *)

(** What is encoded, and where it ends, can be read off what follows. *)
Definition unambiguous {A B} (P : A -> Prop) (view : A -> B) (enc : A -> string) : Prop :=
  forall a b s t, P a -> P b -> enc a +:+ s = enc b +:+ t -> view a = view b /\ s = t.

Definition short (s : string) : Prop := is_int64 (Z.of_nat (String.length s)).
Definition short_list {A} (l : list A) : Prop := is_int64 (Z.of_nat (length l)).

Lemma length_be_bytes n z : String.length (be_bytes n z) = n.
Proof. revert z. induction n as [|n IH]; intros z; [done|]. cbn [be_bytes]. rewrite string_length_app, IH. cbn. lia. Qed.
Lemma be_bytes_mod n x y : be_bytes n x = be_bytes n y -> (x mod 256 ^ Z.of_nat n = y mod 256 ^ Z.of_nat n)%Z.
Proof.
  revert x y. induction n as [|n IH]; intros x y E; [by rewrite !Z.mod_1_r|]. cbn [be_bytes] in E.
  apply string_app_inj in E as [E1 E2]; [|by rewrite !length_be_bytes]. injection E2 as E2. apply byte_char_inj in E2; [|apply Z.mod_pos_bound; lia..].
  apply IH in E1. replace (256 ^ Z.of_nat (S n))%Z with (256 * 256 ^ Z.of_nat n)%Z by (rewrite <- Z.pow_succ_r by lia; f_equal; lia).
  rewrite !Z.rem_mul_r by lia. by rewrite E1, E2.
Qed.

Lemma unamb_int : unambiguous is_int64 id EncodeInt64.
Proof.
  intros x y s t Hx Hy E. unfold EncodeInt64 in E. apply (string_app_inj (be_bytes 8 x) s (be_bytes 8 y) t) in E as [E ->]; [|by rewrite !length_be_bytes]. split; [|done].
  apply be_bytes_mod in E. change (256 ^ Z.of_nat 8)%Z with (2 ^ 64)%Z in E. unfold is_int64, int64_min, int64_max, id in *.
  pose proof (Z.div_mod x (2 ^ 64)). pose proof (Z.div_mod y (2 ^ 64)). nia.
Qed.
Lemma unamb_string : unambiguous short id EncodeString.
Proof.
  intros x y s t Hx Hy E. unfold EncodeString in E. rewrite <- !string_app_assoc in E. apply unamb_int in E as [El E]; [|done..].
  apply string_app_inj in E; [done|]. unfold id in El. lia.
Qed.
Lemma unamb_bool : unambiguous (fun _ => True) id EncodeBool.
Proof.
  intros x y s t _ _ E. unfold EncodeBool in E. assert (forall c : bool, is_int64 (if c then 1 else 0)) as Hi by (intros []; unfold is_int64, int64_min, int64_max; lia).
  apply unamb_int in E as [El E]; [|apply Hi..]. split; [|done]. unfold id in *. destruct x, y; lia || done.
Qed.

Lemma unamb_each {A B} (P : A -> Prop) (view : A -> B) enc : unambiguous P view enc ->
  forall l1 l2 s t, Forall P l1 -> Forall P l2 -> length l1 = length l2 -> EncodeEach enc l1 +:+ s = EncodeEach enc l2 +:+ t -> view <$> l1 = view <$> l2 /\ s = t.
Proof.
  intros Hu l1 l2 s t H1. revert l2. induction H1 as [|a l1 Ha _ IH]; intros [|b l2] H2 Hl E; try done. apply Forall_cons in H2 as [Hb H2].
  cbn [EncodeEach foldr] in E. rewrite <- !string_app_assoc in E. apply Hu in E as [Ev E]; [|done..]. destruct (IH l2 H2 ltac:(by injection Hl) E) as [El ->]. split; [|done]. cbn. by rewrite Ev, El.
Qed.
Lemma unamb_list {A B} (P : A -> Prop) (view : A -> B) enc : unambiguous P view enc ->
  unambiguous (fun l => Forall P l /\ short_list l) (fmap view) (EncodeList enc).
Proof.
  intros Hu l1 l2 s t [H1 S1] [H2 S2] E. unfold EncodeList, EncodeLen in E. rewrite <- !string_app_assoc in E.
  apply unamb_int in E as [El E]; [|done..]. unfold id in El. eapply unamb_each; [exact Hu|done..|lia|done].
Qed.

(** A map is given by its entries in order. *)
Definition map_short (m : gmap string blob) : Prop :=
  is_int64 (Z.of_nat (size m)) /\ map_Forall (fun k v => short k /\ short (blob_string v)) m.
Lemma sorted_entries (m : gmap string blob) : list_to_map ((fun kv => (kv.1, blob_string kv.2)) <$> merge_sort key_le (map_to_list m)) = blob_string <$> m.
Proof.
  pose proof (merge_sort_Permutation key_le (map_to_list m)) as Hp.
  change (fun kv : string * blob => (kv.1, blob_string kv.2)) with (prod_map (@id string) blob_string). rewrite list_to_map_fmap. f_equal. assert (NoDup (merge_sort key_le (map_to_list m)).*1) as Hnd by (rewrite Hp; apply NoDup_fst_map_to_list).
  by rewrite (list_to_map_proper _ _ Hnd Hp), list_to_map_to_list.
Qed.
Lemma unamb_map : unambiguous map_short (fmap blob_string) EncodeMap.
Proof.
  intros m1 m2 s t [S1 H1] [S2 H2] E. unfold EncodeMap in E. rewrite <- !string_app_assoc in E. apply unamb_int in E as [El E]; [|done..].
  set (P := fun kv : string * blob => short kv.1 /\ short (blob_string kv.2)).
  assert (forall m, map_Forall (fun k v => short k /\ short (blob_string v)) m -> Forall P (merge_sort key_le (map_to_list m))) as HP.
  { intros m Hm. rewrite merge_sort_Permutation. apply Forall_forall. intros [k v] Hkv%elem_of_map_to_list. by apply Hm. }
  apply (unamb_each P (fun kv => (kv.1, blob_string kv.2))) in E as [Ev ->].
  - split; [|done]. change (blob_string <$> m1 = blob_string <$> m2). rewrite <- (sorted_entries m1), <- (sorted_entries m2). f_equal. exact Ev.
  - intros [k v] [k' v'] s' t' [Hk Hv] [Hk' Hv'] E'. rewrite <- !string_app_assoc in E'. apply unamb_string in E' as [Ek E']; [|done..]. apply unamb_string in E' as [Ev E']; [|done..].
    cbn in *. unfold id in *. by rewrite Ek, Ev, E'.
  - by apply HP.
  - by apply HP.
  - rewrite !merge_sort_Permutation, !length_map_to_list. unfold id in El. lia.
Qed.

(** Sizes and numbers that fit 64 bits. *)
Definition input_ok (i : TxInput) : Prop :=
  short (ti_RefTxid i) /\ is_int64 (ti_RefOffset i) /\ short (FromAddr i) /\ short (ti_Amount i) /\ is_int64 (ti_FrozenHeight i).
Definition output_ok (o : TxOutput) : Prop := short (to_Amount o) /\ short (ToAddr o) /\ is_int64 (to_FrozenHeight o).
Definition input_ext_ok (i : TxInputExt) : Prop :=
  short (ie_Bucket i) /\ short (ie_Key i) /\ short (default "" (ie_RefTxid i)) /\ is_int64 (ie_RefOffset i).
Definition output_ext_ok (o : TxOutputExt) : Prop := short (oe_Bucket o) /\ short (oe_Key o) /\ short (value_text (oe_Value o)).
Definition limit_ok (l : ResourceType * Z) : Prop := is_int64 l.1 /\ is_int64 l.2.
Definition request_ok (r : InvokeRequest) : Prop :=
  short (ModuleName r) /\ short (ir_ContractName r) /\ short (MethodName r) /\ map_short (ir_Args r) /\
  (Forall limit_ok (ir_ResourceLimits r) /\ short_list (ir_ResourceLimits r)) /\ short (ir_Amount r).
Definition sig_ok (s : SignatureInfo) : Prop := short (PublicKey s) /\ short (Sign s).
Definition all_ok {A} (P : A -> Prop) (l : list A) : Prop := Forall P l /\ short_list l.

Record tx_fits (tx : FullTx) : Prop := {
  fit_ins : all_ok input_ok (TxInputs (core tx)); fit_outs : all_ok output_ok (TxOutputs (core tx));
  fit_desc : short (Desc (core tx)); fit_nonce : short (tx_Nonce tx); fit_time : is_int64 (tx_Timestamp tx); fit_version : is_int64 (tx_Version tx);
  fit_reads : all_ok input_ext_ok (TxInputsExt (core tx)); fit_writes : all_ok output_ext_ok (TxOutputsExt (core tx));
  fit_requests : all_ok request_ok (ContractRequests tx); fit_initiator : short (tx_Initiator tx); fit_auth : all_ok short (tx_AuthRequire tx);
  fit_signs : all_ok sig_ok (InitiatorSigns tx) /\ all_ok sig_ok (AuthRequireSigns tx) /\
    all_ok short (from_option PublicKeys [] (XuperSign tx)) /\ short (from_option Signature "" (XuperSign tx));
  fit_hd : short (from_option HdPublicKey "" (tx_HDInfo tx)) /\ short (from_option OriginalHash "" (tx_HDInfo tx))
}.

(** What the encodings keep of the parts in which nil is an empty slice. *)
Definition read_view (i : TxInputExt) : string * string * string * Z := (ie_Bucket i, ie_Key i, default "" (ie_RefTxid i), ie_RefOffset i).
Definition write_view (o : TxOutputExt) : string * string * string := (oe_Bucket o, oe_Key o, value_text (oe_Value o)).
Definition request_view (r : InvokeRequest) := (ModuleName r, ir_ContractName r, MethodName r, blob_string <$> ir_Args r, ir_ResourceLimits r, ir_Amount r).

Record TxContent := mkContent {
  c_inputs : list TxInput; c_outputs : list TxOutput; c_desc : string; c_coinbase : bool; c_nonce : string; c_time : Z; c_version : Z; c_autogen : bool;
  c_reads : list (string * string * string * Z); c_writes : list (string * string * string);
  c_requests : list (string * string * string * gmap string string * list (ResourceType * Z) * string);
  c_initiator : string; c_auth : list string; c_hd : string * string
}.
Definition content (tx : FullTx) : TxContent :=
  mkContent (TxInputs (core tx)) (TxOutputs (core tx)) (Desc (core tx)) (Coinbase (core tx)) (tx_Nonce tx) (tx_Timestamp tx) (tx_Version tx) (Autogen (core tx))
    (read_view <$> TxInputsExt (core tx)) (write_view <$> TxOutputsExt (core tx)) (request_view <$> ContractRequests tx)
    (tx_Initiator tx) (tx_AuthRequire tx) (from_option HdPublicKey "" (tx_HDInfo tx), from_option OriginalHash "" (tx_HDInfo tx)).
Definition signatures (tx : FullTx) : list SignatureInfo * list SignatureInfo * list string * string :=
  (InitiatorSigns tx, AuthRequireSigns tx, from_option PublicKeys [] (XuperSign tx), from_option Signature "" (XuperSign tx)).

(** Read the next part off the equation [E]. *)
Ltac next L E := let H := fresh "Hnext" in apply L in E as [H E]; [|done..]; lazymatch type of H with id ?x = id ?y => change (x = y) in H | _ => idtac end.
Ltac parts E := rewrite <- !string_app_assoc in E.

Lemma unamb_input : unambiguous input_ok id enc_input.
Proof.
  intros a b s t (A1 & A2 & A3 & A4 & A5) (B1 & B2 & B3 & B4 & B5) E. unfold enc_input, EncodeBytes in E. parts E.
  next unamb_string E. next unamb_int E. next unamb_string E. next unamb_string E. next unamb_int E. destruct a, b. unfold id in *. cbn in *. by subst.
Qed.
Lemma unamb_output : unambiguous output_ok id enc_output.
Proof.
  intros a b s t (A1 & A2 & A3) (B1 & B2 & B3) E. unfold enc_output, EncodeBytes in E. parts E.
  next unamb_string E. next unamb_string E. next unamb_int E. destruct a, b. unfold id in *. cbn in *. by subst.
Qed.
Lemma unamb_input_ext : unambiguous input_ext_ok read_view enc_input_ext.
Proof.
  intros a b s t (A1 & A2 & A3 & A4) (B1 & B2 & B3 & B4) E. unfold enc_input_ext, EncodeBytes in E. parts E.
  next unamb_string E. next unamb_string E. next unamb_string E. next unamb_int E. split; [unfold read_view; congruence|done].
Qed.
Lemma unamb_output_ext : unambiguous output_ext_ok write_view enc_output_ext.
Proof.
  intros a b s t (A1 & A2 & A3) (B1 & B2 & B3) E. unfold enc_output_ext, EncodeBytes in E. parts E.
  next unamb_string E. next unamb_string E. next unamb_string E. split; [unfold write_view; congruence|done].
Qed.
Lemma unamb_limit : unambiguous limit_ok id enc_limit.
Proof.
  intros [a x] [b y] s t [A1 A2] [B1 B2] E. unfold enc_limit in E. parts E. next unamb_int E. next unamb_int E. unfold id in *. cbn in *. by subst.
Qed.
Lemma unamb_sig : unambiguous sig_ok id enc_sig.
Proof.
  intros a b s t (A1 & A2) (B1 & B2) E. unfold enc_sig, EncodeBytes in E. parts E. next unamb_string E. next unamb_string E. destruct a, b. unfold id in *. cbn in *. by subst.
Qed.
Lemma unamb_request : unambiguous request_ok request_view enc_request.
Proof.
  intros a b s t (A1 & A2 & A3 & A4 & A5 & A6) (B1 & B2 & B3 & B4 & B5 & B6) E. unfold enc_request in E. parts E.
  next unamb_string E. next unamb_string E. next unamb_string E. next unamb_map E. next (unamb_list _ _ _ unamb_limit) E. next unamb_string E.
  rewrite !list_fmap_id in Hnext3. split; [unfold request_view; congruence|done].
Qed.

Lemma unamb_signs tx tx' s t : tx_fits tx -> tx_fits tx' -> enc_signs tx +:+ s = enc_signs tx' +:+ t -> signatures tx = signatures tx' /\ s = t.
Proof.
  intros F F' E. destruct (fit_signs _ F) as (A1 & A2 & A3 & A4), (fit_signs _ F') as (B1 & B2 & B3 & B4). unfold enc_signs, EncodeBytes in E. parts E.
  next (unamb_list _ _ _ unamb_sig) E. next (unamb_list _ _ _ unamb_sig) E. next (unamb_list _ _ _ unamb_string) E. next unamb_string E.
  rewrite !list_fmap_id in *. split; [unfold signatures; congruence|done].
Qed.

(** What is hashed determines the transaction, and its signatures when they are
    included. *)
Lemma tx_bytes_inj tx tx' b : tx_fits tx -> tx_fits tx' -> tx_bytes tx b = tx_bytes tx' b -> content tx = content tx' /\ (b = true -> signatures tx = signatures tx').
Proof.
  intros F F' E. apply (f_equal (fun s => s +:+ "")) in E. unfold tx_bytes, EncodeBytes in E. parts E. destruct (fit_hd _ F), (fit_hd _ F'). destruct F, F'.
  next (unamb_list _ _ _ unamb_input) E. next (unamb_list _ _ _ unamb_output) E. next unamb_string E. next unamb_bool E. next unamb_string E. next unamb_int E. next unamb_int E.
  next unamb_bool E. next (unamb_list _ _ _ unamb_input_ext) E. next (unamb_list _ _ _ unamb_output_ext) E. next (unamb_list _ _ _ unamb_request) E.
  next unamb_string E. next (unamb_list _ _ _ unamb_string) E.
  assert ((b = true -> signatures tx = signatures tx') /\ EncodeString (from_option HdPublicKey "" (tx_HDInfo tx)) +:+ EncodeString (from_option OriginalHash "" (tx_HDInfo tx)) +:+ "" =
    EncodeString (from_option HdPublicKey "" (tx_HDInfo tx')) +:+ EncodeString (from_option OriginalHash "" (tx_HDInfo tx')) +:+ "") as [Hs E'].
  { destruct b; [|done]. apply unamb_signs in E as [? ?]; done. }
  split; [|done]. next unamb_string E'. next unamb_string E'. rewrite !list_fmap_id in *. unfold content. f_equal; first [done|by f_equal].
Qed.

(** C23: the identifier of a transaction of version 3 commits to it.  Two such
    transactions with one identifier have the same inputs, outputs, description,
    nonce, time, reads, writes, contract calls, initiator, required signers and
    signatures, or the very texts hashed for the two break SHA-256: they differ,
    or their digests do, and have one digest.  With one digest for signing, the
    same but for the signatures. *)
Theorem tx_id_binds tx tx' : tx_fits tx -> tx_fits tx' -> (3 <= tx_Version tx)%Z -> (3 <= tx_Version tx')%Z ->
  (MakeTransactionID tx = MakeTransactionID tx' -> clash (tx_bytes tx true) (tx_bytes tx' true) \/ (content tx = content tx' /\ signatures tx = signatures tx')) /\
  (MakeTxDigestHash tx = MakeTxDigestHash tx' -> clash (tx_bytes tx false) (tx_bytes tx' false) \/ content tx = content tx').
Proof.
  intros F F' V V'. unfold MakeTransactionID, MakeTxDigestHash. rewrite !(proj2 (Z.leb_le 3 _)) by done.
  split; intros [E|?]%DoubleSha256_inj; (by left) || right; apply tx_bytes_inj in E as [? ?]; auto.
Qed.

Definition set_writes (tx : FullTx) (ws : list TxOutputExt) : FullTx :=
  let c := core tx in
  mkFullTx (mkTx (Txid c) (TxBlockid c) (Coinbase c) (Autogen c) (Desc c) (TxInputs c) (TxOutputs c) (TxInputsExt c) ws (ModifyBlock c))
    (tx_Version tx) (tx_Nonce tx) (tx_Timestamp tx) (ContractRequests tx) (tx_Initiator tx) (tx_AuthRequire tx)
    (InitiatorSigns tx) (AuthRequireSigns tx) (XuperSign tx) (tx_HDInfo tx).

Lemma EncodeEach_cons {A} (enc : A -> string) a l : EncodeEach enc (a :: l) = enc a +:+ EncodeEach enc l.
Proof. reflexivity. Qed.
Lemma EncodeEach_app {A} (enc : A -> string) l1 l2 : EncodeEach enc (l1 ++ l2) = EncodeEach enc l1 +:+ EncodeEach enc l2.
Proof. induction l1 as [|a l1 IH]; [done|]. cbn [app]. by rewrite !EncodeEach_cons, IH, string_app_assoc. Qed.
Lemma app_empty_r (s : string) : s +:+ "" = s.
Proof. induction s as [|c s IH]; [done|]. by rewrite app_String, IH. Qed.

(** Before version 3 the write set of a transaction is ambiguous.  Buckets,
    keys and values are encoded one after the other and empty ones are left out:
    the value of a write can be taken away and become a write of its own, to the
    bucket named by its base-64 text, and neither the identifier nor the signed
    digest changes. *)
Theorem tx_id_v1_ambiguous tx l1 l2 b k v : (tx_Version tx < 3)%Z -> blob_string v <> "" ->
  let tx1 := set_writes tx (l1 ++ mkTxOutExt b k (Some v) :: l2) in
  let tx2 := set_writes tx (l1 ++ mkTxOutExt b k None :: mkTxOutExt (b64_encode (blob_string v)) "" None :: l2) in
  MakeTransactionID tx1 = MakeTransactionID tx2 /\ MakeTxDigestHash tx1 = MakeTxDigestHash tx2 /\ content tx1 <> content tx2.
Proof.
  intros V Hv tx1 tx2. assert (nonempty (blob_string v) = true) as Hn by (by destruct (blob_string v)).
  assert (EncodeEach v1_output_ext (TxOutputsExt (core tx1)) = EncodeEach v1_output_ext (TxOutputsExt (core tx2))) as E.
  { cbn [core TxOutputsExt set_writes tx1 tx2]. rewrite !EncodeEach_app. f_equal. rewrite !EncodeEach_cons. unfold v1_output_ext at 1 3 4. cbn [oe_Bucket oe_Key oe_Value value_text from_option].
    unfold bytes_line at 2 4 5 6. unfold line_if. rewrite Hn. cbn [nonempty is_empty_string negb]. by rewrite !app_empty_r, <- !string_app_assoc. }
  assert (forall b, encodeTxData tx1 b = encodeTxData tx2 b) as Ed by (intros ?; unfold encodeTxData; by rewrite E).
  unfold MakeTransactionID, MakeTxDigestHash. change (tx_Version tx1) with (tx_Version tx). change (tx_Version tx2) with (tx_Version tx).
  rewrite (proj2 (Z.leb_gt 3 _)) by done. rewrite !Ed. split_and!; [done..|]. intros Ec. apply (f_equal c_writes), (f_equal length) in Ec. cbn in Ec.
  rewrite !length_fmap, !length_app in Ec. cbn in Ec. lia.
Qed.

(** ** Examples *)

Module TxHashExample.
Definition base (version : Z) (nonce : string) : FullTx :=
  mkFullTx (mkTx "" "" false false "pay" [mkTxIn "ref" 0 "alice" "5" 0] [mkTxOut "5" "bob" 0] [] [] None)
    version nonce 1600000000 [mkInvoke "xkernel" "$acl" "NewAccount" {["acl" := Raw "x"]} [(XFEE, 1000%Z)] ""] "alice" ["alice"] [mkSig "pk" "sg"] [mkSig "pk" "sg"] None None.
Ltac fits :=
  lazymatch goal with
  | |- _ /\ _ => split; fits
  | |- all_ok _ _ => split; fits
  | |- Forall _ [] => constructor
  | |- Forall _ (_ :: _) => constructor; fits
  | |- map_short _ => split; [fits|apply map_Forall_singleton; cbv beta; fits]
  | |- input_ok _ => unfold input_ok; fits
  | |- output_ok _ => unfold output_ok; fits
  | |- request_ok _ => unfold request_ok; cbn [ir_ResourceLimits ir_Args]; fits
  | |- sig_ok _ => unfold sig_ok; fits
  | |- limit_ok _ => unfold limit_ok; fits
  | |- _ => split; vm_compute; discriminate
  end.
Lemma base_fits n : is_int64 (Z.of_nat (String.length n)) -> tx_fits (base 3 n).
Proof. intros Hn. split; cbn; done || fits. Qed.
End TxHashExample.

Lemma tx_id_binds_witness : MakeTxDigestHash (TxHashExample.base 3 "1") <> MakeTxDigestHash (TxHashExample.base 3 "2") \/
  clash (tx_bytes (TxHashExample.base 3 "1") false) (tx_bytes (TxHashExample.base 3 "2") false).
Proof.
  destruct (tx_id_binds (TxHashExample.base 3 "1") (TxHashExample.base 3 "2")) as [_ H].
  - apply TxHashExample.base_fits. cbn. unfold is_int64, int64_min, int64_max. lia.
  - apply TxHashExample.base_fits. cbn. unfold is_int64, int64_min, int64_max. lia.
  - cbn. lia.
  - cbn. lia.
  - destruct (decide (MakeTxDigestHash (TxHashExample.base 3 "1") = MakeTxDigestHash (TxHashExample.base 3 "2"))) as [E|E]; [right|by left].
    destruct (H E) as [|Hc]; [done|]. discriminate Hc.
Defined.

Lemma tx_id_v1_ambiguous_witness : exists tx1 tx2, tx1 <> tx2 /\ MakeTransactionID tx1 = MakeTransactionID tx2.
Proof.
  destruct (tx_id_v1_ambiguous (TxHashExample.base 1 "1") [] [] "counter" "k" (Raw "1")) as (E & _ & Hc); [cbn; lia|done|].
  eexists _, _. split; [|exact E]. intros E'. by rewrite E' in Hc.
Defined.
