(* ===== verification/TxVerify.v ===== *)
(** * Verification of transactions

    [bcs/ledger/xledger/state/tx_verification.go] and [reserved_contract.go], with
    [ParseContractTransferRequest] and [SplitToDags] of [tx/], [IdentifyAK] of the
    access control and [Equal] of the extended model: the checks a transaction
    passes before it is executed, alone and as a part of a block.

    The checks run over the extended model (its caches change).  A Go function
    that returns [(bool, error)] fails here where it returns false.  Cryptography,
    the contract manager, the size of a message, the decoding of messages and the
    execution of templates are parameters. *)

From Stdlib Require Import ZArith Lia Ascii SpecFloat.
From stdpp Require Import base gmap strings list numbers sorting.
From S2P Require Import Prelude GoValues Sandbox KContext Sha256 LedgerHash Ledger XModel Utxo Acl AclContract TxHash.

Set Default Proof Using "Type".

(** ** Constants *)

Definition RootTxVersion : Z := 0.
Definition BetaTxVersion : Z := 3.

Definition ErrInvalidAutogenTx : string := "found invalid autogen-tx".
Definition ErrACLNotEnough : string := "ACL not enough".
Definition ErrInvalidSignature : string := "the signature is invalid or not match the address".
Definition ErrGasNotEnough : string := "Gas not enough".
Definition ErrVersionInvalid : string := "Invalid tx version".
Definition ErrInvalidAccount : string := "Invalid account".
Definition ErrInvalidTxExt : string := "Invalid tx ext".
Definition ErrTxTooLarge : string := "Tx size is too large".
Definition ErrParseContractUtxos : string := "Parse contract utxos error".
Definition ErrContractTxAmout : string := "Contract transfer amount error".
Definition ErrGetReservedContracts : string := "Get reserved contracts error".
Definition ErrRWSetInvalid : string := "RWSet of transaction invalid".
Definition contractUtxoInputKey : string := "ContractUtxo.Inputs".

(** ** What is not modelled: interfaces *)

(** [base.CryptoClient]; the client for a key depends on its curve. *)
Class Crypto := {
  Client : Type;
  Key : Type;
  CreateCryptoClientFromJSONPublicKey : string -> option Client;
  GetEcdsaPublicKeyFromJsonStr : Client -> string -> option Key;
  GetAddressFromPublicKey : Client -> Key -> option string;
  VerifyAddressUsingPublicKey : Client -> string -> Key -> bool;
  VerifyECDSA : Client -> Key -> string -> string -> outcome bool;
  VerifyXuperSignature : Client -> list Key -> string -> string -> outcome bool
}.

Record ContextConfig := mkContextConfig {
  cc_Initiator : string; cc_AuthRequire : list string; cc_ResourceLimits : Limits; cc_Module : string; cc_ContractName : string; cc_TransferAmount : string
}.

(** [contract.Manager] with the sandbox and the contexts it makes. *)
Class ContractManager := {
  Box : Type;
  BoxContext : Type;
  NewStateSandbox : XMReader -> list TxInput -> outcome Box;
  NewContext : ContextConfig -> M Box BoxContext;
  box_Invoke : BoxContext -> string -> gmap string blob -> M Box Response;
  Flush : M Box unit;
  WSet : Box -> list TxOutputExt
}.

(** The chain as the checks see it. *)
Record VerifyEnv `{Crypto} := mkEnv {
  Crypt : Client;
  MaxBlockSize : Z;
  ReservedContracts : list InvokeRequest;
  ReservedWhitelistAccount : string;
  env_GasPrice : GasPrice;
  ModifyBlockAddr : string
}.

(** ** Helpers *)

Definition fits_bool (o : outcome bool) (e : string) : outcome unit :=
  match o with Ret true => Ret tt | Ret false => Err e | Err e => Err e | Panic => Panic end.
(** A step that must answer true; the error is replaced. *)
Definition or_else {S A} (c : M S A) (e : string) : M S A := fun s =>
  match c s with (Err _, s') => (Err e, s') | r => r end.

(** [float64(maxBlkSize) * 0.8], truncated. *)
Definition float_mul : spec_float -> spec_float -> spec_float := SFmul 53 1024.
Definition float_of_int (z : Z) : spec_float := binary_normalize 53 1024 z 0 false.
Definition float_trunc (f : spec_float) : Z :=
  match f with
  | S754_finite s m e => let v := if (0 <=? e)%Z then (Z.pos m * 2 ^ e)%Z else (Z.pos m / 2 ^ (- e))%Z in if s then (- v)%Z else v
  | _ => 0%Z
  end.
Definition TxSizePercent : spec_float := float_decimal 8 1.
Definition MaxTxSizePerBlock (maxBlkSize : Z) : Z := float_trunc (float_mul (float_of_int maxBlkSize) TxSizePercent).

(** ** Pieces of transactions *)

Definition getGasLimitFromTx (tx : Transaction) : outcome Z :=
  match list_find (fun o => ToAddr o = FeePlaceholder) (TxOutputs tx) with
  | None => Ret 0%Z
  | Some (_, output) =>
      let gasLimit := wrap64 (SetBytes (to_Amount output)) in
      if (gasLimit <=? 0)%Z then Err ("bad gas limit " +:+ bigString gasLimit) else Ret gasLimit
  end.

(** At most one request carries an amount. *)
Fixpoint parse_transfer (found : bool) (contractName : string) (amount : Z) (requests : list InvokeRequest) : outcome (string * Z) :=
  match requests with
  | [] => Ret (contractName, amount)
  | req :: requests =>
      if is_empty_string (ir_Amount req) then parse_transfer found contractName amount requests
      else if found then Err "duplicated contract transfer amount"
      else match SetString (ir_Amount req) with
           | (_, false) => Err "bad amount in request"
           | (amount, true) => parse_transfer true (ir_ContractName req) amount requests
           end
  end.
Definition ParseContractTransferRequest (requests : list InvokeRequest) : outcome (string * Z) := parse_transfer false "" 0 requests.

Definition removeDuplicateUser (initiator : string) (authRequire : list string) : list string :=
  foldl (fun users user => if bool_decide (user ∈ users) then users else users ++ [user])
    (if (IsAccount initiator =? 0)%Z then [initiator] else []) authRequire.

Definition verifyAutogenTxValid (tx : Transaction) : bool :=
  Autogen tx && negb (bool_decide (TxInputsExt tx = []) && bool_decide (TxOutputsExt tx = [])).

(** A write set in the order of its raw keys, then of its values. *)
Definition pd_entry (o : TxOutputExt) : string * string := (makeRawKey (oe_Bucket o) (oe_Key o), value_text (oe_Value o)).
Definition pd_le (a b : string * string) : Prop := str_lt a.1 b.1 \/ (a.1 = b.1 /\ str_le a.2 b.2).
#[global] Instance pd_le_dec : RelDecision pd_le.
Proof. intros a b. unfold pd_le, str_lt. apply _. Defined.
Definition Equal (pd vpd : list TxOutputExt) : bool :=
  (length pd =? length vpd)%nat && bool_decide (merge_sort pd_le (pd_entry <$> pd) = merge_sort pd_le (pd_entry <$> vpd)).

(** A block in runs: a transaction that refers to no earlier one of the block
    starts a new run. *)
Definition noDepends (previousTxids : gset string) (tx : Transaction) : bool :=
  forallb (fun i => negb (bool_decide (ti_RefTxid i ∈ previousTxids))) (TxInputs tx) &&
  forallb (fun i => negb (bool_decide (default "" (ie_RefTxid i) ∈ previousTxids))) (TxInputsExt tx).
Fixpoint split_dags (i : nat) (previousTxids : gset string) (oneDag : list FullTx) (dags : list (list FullTx)) (txs : list FullTx) : list (list FullTx) :=
  match txs with
  | [] => match oneDag with [] => dags | _ => dags ++ [oneDag] end
  | tx :: txs =>
      let cut := noDepends previousTxids (core tx) && (0 <? i)%nat in
      split_dags (S i) ({[Txid (core tx)]} ∪ previousTxids) ((if cut then [] else oneDag) ++ [tx]) (if cut then dags ++ [oneDag] else dags) txs
  end.
Definition SplitToDags (txs : list FullTx) : list (list FullTx) := split_dags 0 ∅ [] [] txs.

(** [hex.DecodeString]. *)
Fixpoint hex_decode (s : string) : option string :=
  match s with
  | "" => Some ""
  | String _ "" => None
  | String a (String b s) =>
      match XModel.hex_digit a, XModel.hex_digit b, hex_decode s with
      | Some x, Some y, Some r => Some (String (byte_char (x * 16 + y)) r)
      | _, _, _ => None
      end
  end.

(** ** Reserved contracts *)

Definition genArgs (req : list InvokeRequest) : string := Join "," (ir_ContractName <$> req).

Definition same_request (r q : InvokeRequest) : bool :=
  bool_decide (ModuleName r = ModuleName q) && bool_decide (ir_ContractName r = ir_ContractName q) && bool_decide (MethodName r = MethodName q) &&
  bool_decide (map_Forall (fun k v => from_option blob_string "" (ir_Args r !! k) = blob_string v) (ir_Args q)).
Definition VerifyReservedContractRequests (reservedReqs txReqs : list InvokeRequest) : bool :=
  (length reservedReqs <=? length txReqs)%nat && forallb (fun p => same_request p.1 p.2) (zip reservedReqs txReqs).

Section Verify.
Context `{Crypto} `{AclManager} `{MapOrder} `{ContractManager} {T : Type} `{RBTree T VersionedData}.
(** [proto.Size], [UnmsarshalMessages] for inputs, [tpl.Execute] of a template on
    the names of the contracts, [GetTimerTx]. *)
Variable proto_size : FullTx -> Z.
Variable UnmsarshalMessages : blob -> option (list TxInput).
Variable template_execute : string -> string -> string.
Variable GetTimerTx : Z -> outcome FullTx.
Variable env : VerifyEnv.

(** ** Signatures *)

Definition VerifySign (ak : string) (si : SignatureInfo) (data : string) : outcome bool :=
  match CreateCryptoClientFromJSONPublicKey (PublicKey si) with
  | None => Err "unknown public key"
  | Some xcc =>
      match GetEcdsaPublicKeyFromJsonStr xcc (PublicKey si) with
      | None => Err "invalid public key"
      | Some ecdsaKey =>
          if VerifyAddressUsingPublicKey xcc ak ecdsaKey then VerifyECDSA xcc ecdsaKey (Sign si) data
          else Err "address and public key not match"
      end
  end.

(** The last component of a path signs. *)
Definition last_name (uri : string) : string := default "" (last (SplitAccountURI uri)).
Definition IdentifyAK (akuri : string) (sign : SignatureInfo) (msg : string) : outcome bool := VerifySign (last_name akuri) sign msg.

(** The signatures of an account that starts a transaction: their addresses. *)
Fixpoint initiator_signs (signs : list SignatureInfo) (digestHash : string) : outcome (list string) :=
  match signs with
  | [] => Ret []
  | sign :: signs =>
      match GetEcdsaPublicKeyFromJsonStr (Crypt env) (PublicKey sign) with
      | None => Err "invalid public key"
      | Some ak =>
          match GetAddressFromPublicKey (Crypt env) ak with
          | None => Err "no address"
          | Some addr =>
              match fits_bool (IdentifyAK addr sign digestHash) "verifySignatures failed" with
              | Ret _ => match initiator_signs signs digestHash with Ret addrs => Ret (addr :: addrs) | o => o end
              | Err e => Err e
              | Panic => Panic
              end
          end
      end
  end.

Fixpoint auth_signs (verifiedAddr : gset string) (auths : list (string * SignatureInfo)) (digestHash : string) : outcome (gset string) :=
  match auths with
  | [] => Ret verifiedAddr
  | (authReq, signInfo) :: auths =>
      let addr := last_name authReq in
      if bool_decide (addr ∈ verifiedAddr) then auth_signs verifiedAddr auths digestHash
      else match fits_bool (IdentifyAK addr signInfo digestHash) "verifySignatures failed" with
           | Ret _ => auth_signs ({[addr]} ∪ verifiedAddr) auths digestHash
           | Err e => Err e
           | Panic => Panic
           end
  end.

(** The addresses of a unified signature: the initiator and the signers. *)
Definition xuper_addrs (tx : FullTx) : list string :=
  foldl (fun addrs authReq => let addr := last_name authReq in if bool_decide (addr ∈ addrs) then addrs else addrs ++ [addr]) [tx_Initiator tx] (tx_AuthRequire tx).

Definition verifyXuperSign (tx : FullTx) (xs : XuperSignature) (digestHash : string) : outcome (gset string) :=
  let addrList := xuper_addrs tx in
  if negb (length addrList =? length (PublicKeys xs))%nat then Err "XuperSign: number of address and public key not match"
  else match mapM (GetEcdsaPublicKeyFromJsonStr (Crypt env)) (PublicKeys xs) with
       | None => Err "XuperSign: found invalid public key"
       | Some pubkeys =>
           if negb (forallb (fun p => VerifyAddressUsingPublicKey (Crypt env) p.1 p.2) (zip addrList pubkeys)) then Err "XuperSign: address and public key not match"
           else match VerifyXuperSignature (Crypt env) pubkeys (Signature xs) digestHash with
                | Ret true => Ret (list_to_set addrList)
                | Panic => Panic
                | _ => Err "XuperSign: address and public key not match"
                end
       end.

Definition verify_initiator (tx : FullTx) (digestHash : string) : outcome (gset string) :=
  let akType := IsAccount (tx_Initiator tx) in
  if (akType =? 0)%Z then
    match InitiatorSigns tx with
    | sign :: _ => match fits_bool (IdentifyAK (tx_Initiator tx) sign digestHash) "verifySignatures failed" with
                   | Ret _ => Ret {[tx_Initiator tx]}
                   | Err e => Err e
                   | Panic => Panic
                   end
    | [] => Panic
    end
  else if (akType =? 1)%Z then
    match initiator_signs (InitiatorSigns tx) digestHash with
    | Ret addrs =>
        match fits_bool (IdentifyAccount (tx_Initiator tx) ((fun addr => tx_Initiator tx +:+ "/" +:+ addr) <$> addrs)) "permission check failed" with
        | Ret _ => Ret (list_to_set addrs)
        | Err e => Err e
        | Panic => Panic
        end
    | Err e => Err e
    | Panic => Panic
    end
  else Err ErrInvalidSignature.

Definition verifySignatures (tx : FullTx) (digestHash : string) : outcome (gset string) :=
  match XuperSign tx with
  | Some xs => verifyXuperSign tx xs digestHash
  | None =>
      if (length (InitiatorSigns tx) <? 1)%nat || negb (length (tx_AuthRequire tx) =? length (AuthRequireSigns tx))%nat then Err "invalid signature param"
      else match verify_initiator tx digestHash with
           | Ret verifiedAddr => auth_signs verifiedAddr (zip (tx_AuthRequire tx) (AuthRequireSigns tx)) digestHash
           | o => o
           end
  end.

(** ** Inputs *)

Definition ParseContractUtxoInputs (tx : Transaction) : option (list TxInput) :=
  let extInput := foldl (fun ext out => if bool_decide (oe_Bucket out = TransientBucket) && bool_decide (oe_Key out = contractUtxoInputKey) then oe_Value out else ext)
                    None (TxOutputsExt tx) in
  match extInput with None => Some [] | Some b => UnmsarshalMessages b end.

Definition input_key (i : TxInput) : string := GenUtxoKey (FromAddr i) (ti_RefTxid i) (ti_RefOffset i).

Fixpoint verify_inputs_permission (tx : FullTx) (conUtxoInputs : gset string) (verifiedID : gset string) (ins : list TxInput) : outcome (gset string) :=
  match ins with
  | [] => Ret verifiedID
  | txInput :: ins =>
      let name := FromAddr txInput in
      if bool_decide (input_key txInput ∈ conUtxoInputs) || bool_decide (name ∈ verifiedID) then verify_inputs_permission tx conUtxoInputs verifiedID ins
      else
        let akType := IsAccount name in
        if (akType =? 1)%Z then
          match GetAccountACL name with
          | Ret (Some _) =>
              match fits_bool (IdentifyAccount name (tx_AuthRequire tx)) ErrACLNotEnough with
              | Ret _ => verify_inputs_permission tx conUtxoInputs ({[name]} ∪ verifiedID) ins
              | Err _ => Err ErrACLNotEnough
              | Panic => Panic
              end
          | Panic => Panic
          | _ => Err ErrInvalidAccount
          end
        else if (akType =? 0)%Z then Err ErrInvalidSignature
        else Err ErrInvalidAccount
  end.

Definition verifyUTXOPermission (tx : FullTx) (verifiedID : gset string) : outcome (gset string) :=
  match ParseContractUtxoInputs (core tx) with
  | None => Err ErrParseContractUtxos
  | Some conUtxoInputs => verify_inputs_permission tx (list_to_set (input_key <$> conUtxoInputs)) verifiedID (TxInputs (core tx))
  end.

(** ** Permissions *)

(** An account that was identified before is not checked again. *)
Definition identify_once (tx : FullTx) (accountName : string) (verifiedID : gset string) : M XModel (gset string) :=
  if bool_decide (accountName ∈ verifiedID) then mpure verifiedID
  else do! mlift (fits_bool (IdentifyAccount accountName (tx_AuthRequire tx)) "permission check failed") in mpure ({[accountName]} ∪ verifiedID).

Definition verifyContractOwnerPermission (contractName : string) (tx : FullTx) (verifiedID : gset string) : M XModel (gset string) :=
  let! r := GetWithTxStatus contract2AccountBucket contractName in
  let '(versionData, confirmed) := r in
  if! negb confirmed fails "pure data is nil or unconfirmed" in
  identify_once tx (blob_string (vd_value versionData)) verifiedID.

Definition verify_write (tx : FullTx) (ele : TxOutputExt) (verifiedID : gset string) : M XModel (gset string) :=
  if bool_decide (oe_Bucket ele = accountBucket) then identify_once tx (oe_Key ele) verifiedID
  else if bool_decide (oe_Bucket ele = contractBucket) then
    if! negb (has_char aclSeparator (oe_Key ele)) fails "invalid raw key" in
    verifyContractOwnerPermission (default "" (head (GoValues.Split aclSeparator (oe_Key ele)))) tx verifiedID
  else if bool_decide (oe_Bucket ele = contract2AccountBucket) then
    match oe_Value ele with
    | None => mfail "account name is empty"
    | Some accountValue => identify_once tx (blob_string accountValue) verifiedID
    end
  else mpure verifiedID.

Fixpoint verify_writes (tx : FullTx) (writeSet : list TxOutputExt) (verifiedID : gset string) : M XModel (gset string) :=
  match writeSet with
  | [] => mpure verifiedID
  | ele :: writeSet => let! verifiedID := verify_write tx ele verifiedID in verify_writes tx writeSet verifiedID
  end.

Definition verifyRWSetPermission (tx : FullTx) (verifiedID : gset string) : M XModel (gset string) :=
  match ContractRequests tx with
  | [] => mpure verifiedID
  | _ => verify_writes tx (TxOutputsExt (core tx)) verifiedID
  end.

Fixpoint verify_requests (allUsers : list string) (req : list InvokeRequest) : outcome unit :=
  match req with
  | [] => Ret tt
  | r :: req =>
      match fits_bool (CheckContractMethodPerm allUsers (ir_ContractName r) (MethodName r)) ErrACLNotEnough with
      | Ret _ => verify_requests allUsers req
      | Err _ => Err ErrACLNotEnough
      | Panic => Panic
      end
  end.
Definition verifyContractPermission (tx : FullTx) (allUsers : list string) : outcome unit := verify_requests allUsers (ContractRequests tx).

Definition verifyContractTxAmount (tx : FullTx) : outcome unit :=
  match ParseContractTransferRequest (ContractRequests tx) with
  | Ret (contractName, amountCon) =>
      let amountOut := zsum (fun o => SetBytes (to_Amount o)) (List.filter (fun o => bool_decide (ToAddr o = contractName)) (TxOutputs (core tx))) in
      if (amountOut =? amountCon)%Z then Ret tt else Err ErrContractTxAmout
  | Err e => Err e
  | Panic => Panic
  end.

(** ** Read and write sets *)

Definition VerifyReservedWhitelist (tx : FullTx) : outcome bool :=
  if (length (ReservedContracts env) =? 0)%nat || is_empty_string (ReservedWhitelistAccount env) then Ret false
  else match GetAccountACL (ReservedWhitelistAccount env) with
       | Panic => Panic
       | Ret (Some acl) =>
           let tx' := core tx in
           if nonempty (Desc tx') || negb (length (ContractRequests tx) =? 0)%nat || negb (length (TxInputsExt tx') =? 0)%nat || negb (length (TxOutputsExt tx') =? 0)%nat then Ret false
           else if (length (TxInputs tx') =? 0)%nat && (length (TxOutputs tx') =? 0)%nat then Ret true
           else match TxInputs tx' with
                | [] => Panic (* index out of range *)
                | i :: _ =>
                    let fromAddr := FromAddr i in
                    let toAddrs : gset string := list_to_set (ToAddr <$> List.filter (fun o => negb (bool_decide (ToAddr o = FeePlaceholder))) (TxOutputs tx')) in
                    Ret (forallb (fun v => bool_decide (FromAddr v = fromAddr)) (TxInputs tx') && (size toAddrs <=? 2)%nat &&
                         forallb (fun k => bool_decide (k = fromAddr) || bool_decide (is_Some (AksWeight acl ≫= (fun w => w !! k)))) (elements toAddrs))
                end
       | _ => Ret false
       end.

(** The reserved requests with their templates filled in. *)
Definition fill_request (names : string) (rc : InvokeRequest) : InvokeRequest :=
  mkInvoke (ModuleName rc) (ir_ContractName rc) (MethodName rc) ((fun v => Raw (template_execute (blob_string v) names)) <$> ir_Args rc) (ir_ResourceLimits rc) (ir_Amount rc).
Definition GetReservedContractRequests (req : list InvokeRequest) (isPreExec : bool) : outcome (list InvokeRequest) :=
  let tpl := ReservedContracts env in
  if isPreExec || (length tpl =? 0)%nat then Ret (fill_request (genArgs req) <$> tpl)
  else if (length req <? length tpl)%nat then Err ErrGetReservedContracts
  else Ret (fill_request (if (length tpl <? length req)%nat then genArgs (drop (length tpl) req) else "") <$> tpl).

Definition version_of_input (txIn : TxInputExt) : string := match ie_RefTxid txIn with None => "" | Some _ => GetVersionOfTxInput txIn end.

Fixpoint gen_reads (inBlock : bool) (ins : list TxInputExt) : M XModel (list VersionedData) :=
  match ins with
  | [] => mpure []
  | txIn :: ins =>
      let! verData := (if inBlock then GetFromLedger txIn else XModel_Get (ie_Bucket txIn) (ie_Key txIn)) in
      if! negb (bool_decide (GetVersion verData = version_of_input txIn)) fails "prepareEnv fail, inputs version is not valid" in
      let! inputs := gen_reads inBlock ins in mpure (verData :: inputs)
  end.
Definition GenRWSetFromTx (tx : Transaction) : M XModel (list VersionedData * list TxOutputExt) :=
  let! rset := gen_reads (nonempty (TxBlockid tx)) (TxInputsExt tx) in mpure (rset, TxOutputsExt tx).

(** The suffix test of [strings.HasSuffix]. *)
Definition has_suffix (suffix s : string) : bool :=
  bool_decide (String.substring (String.length s - String.length suffix) (String.length suffix) s = suffix) && (String.length suffix <=? String.length s)%nat.

(** The requests run one after the other in one sandbox. *)
Fixpoint run_requests (tx : FullTx) (reserved : nat) (transContractName : string) (transAmount : Z) (i : nat) (gasLimit : Z) (reqs : list InvokeRequest) : M Box unit :=
  match reqs with
  | [] => mpure tt
  | tmpReq :: reqs =>
      let limits := FromPbLimits (ir_ResourceLimits tmpReq) in
      let gasLimit := if (reserved <=? i)%nat then sub64 gasLimit (TotalGas limits (env_GasPrice env)) else gasLimit in
      if! (gasLimit <? 0)%Z fails "out of gas" in
      let config := mkContextConfig (tx_Initiator tx) (tx_AuthRequire tx) limits (ModuleName tmpReq) (ir_ContractName tmpReq)
                      (if bool_decide (transContractName = ir_ContractName tmpReq) then bigString transAmount else "") in
      let! ctx := mtry (NewContext config) in
      match ctx with
      | inr err =>
          if (i <? reserved)%nat && (bool_decide (err = "leveldb: not found") || has_suffix "not found" err)
          then run_requests tx reserved transContractName transAmount (S i) gasLimit reqs
          else mfail err
      | inl ctx =>
          let! resp := box_Invoke ctx (MethodName tmpReq) (ir_Args tmpReq) in
          if! (400 <=? Status resp)%Z && (i <? reserved)%nat fails (Message resp) in
          run_requests tx reserved transContractName transAmount (S i) gasLimit reqs
      end
  end.

Definition verifyTxRWSets (tx : FullTx) : M XModel unit :=
  let! white := mlift (VerifyReservedWhitelist tx) in
  if white then mpure tt
  else
    let req := ContractRequests tx in
    let! reservedRequests := mlift (GetReservedContractRequests req false) in
    if! negb (VerifyReservedContractRequests reservedRequests req) fails "verify reservedContracts error" in
    match req with
    | [] => if! negb (length (TxInputsExt (core tx)) =? 0)%nat || negb (length (TxOutputsExt (core tx)) =? 0)%nat fails ErrInvalidTxExt in mpure tt
    | _ =>
        let! rw := GenRWSetFromTx (core tx) in
        let '(rset, wset) := rw in
        match ParseContractUtxoInputs (core tx) with
        | None => mfail "unmarshal error"
        | Some utxoInput =>
            let! sandBox := mlift (NewStateSandbox (mem_reader (XMReaderFromRWSet rset : T)) utxoInput) in
            let! trans := mlift (ParseContractTransferRequest req) in
            let! gasLimit := mlift (getGasLimitFromTx (core tx)) in
            match (do! run_requests tx (length reservedRequests) trans.1 trans.2 0 gasLimit req in Flush) sandBox with
            | (Ret _, box) => if Equal wset (WSet box) then mpure tt else mfail "write set not equal"
            | (Err e, _) => mfail e
            | (Panic, _) => mpanic
            end
        end
    end.

(** ** The checks of one transaction *)

Definition rwset_error (c : M XModel unit) : M XModel unit := fun s =>
  match c s with (Err e, s') => (Err (if String.prefix "Gas not enough" e then ErrGasNotEnough else ErrRWSetInvalid), s') | r => r end.

Definition check_version (tx : FullTx) (isRootTx : bool) : outcome unit :=
  if negb isRootTx && (tx_Version tx =? RootTxVersion)%Z then Err ErrVersionInvalid
  else if (BetaTxVersion <? tx_Version tx)%Z || (tx_Version tx <? RootTxVersion)%Z then Err ErrVersionInvalid
  else Ret tt.
Definition check_size (tx : FullTx) : outcome unit :=
  if (MaxTxSizePerBlock (MaxBlockSize env) <? proto_size tx)%Z then Err ErrTxTooLarge else Ret tt.
Definition check_txid (tx : FullTx) : outcome unit :=
  if bool_decide (Txid (core tx) = MakeTransactionID tx) then Ret tt else Err "Txid verify failed".

Definition ImmediateVerifyTx (tx : FullTx) (isRootTx : bool) : M XModel unit :=
  do! mlift (check_version tx isRootTx) in
  if! Autogen (core tx) fails ErrInvalidAutogenTx in
  do! mlift (check_size tx) in
  if (RootTxVersion <? tx_Version tx)%Z then
    do! mlift (check_txid tx) in
    let digestHash := MakeTxDigestHash tx in
    let! verifiedID := or_else (mlift (verifySignatures tx digestHash)) ErrInvalidSignature in
    let authUsers := removeDuplicateUser (tx_Initiator tx) (tx_AuthRequire tx) in
    let! verifiedID := or_else (mlift (verifyUTXOPermission tx verifiedID)) ErrACLNotEnough in
    do! or_else (mlift (verifyContractPermission tx authUsers)) ErrACLNotEnough in
    do! or_else (mlift (verifyContractTxAmount tx)) ErrContractTxAmout in
    do! or_else (verifyRWSetPermission tx verifiedID) ErrACLNotEnough in
    rwset_error (verifyTxRWSets tx)
  else mpure tt.

Definition verifyAutoTxRWSets (tx autoTx : Transaction) : outcome unit :=
  if negb (bool_decide (read_view <$> TxInputsExt tx = read_view <$> TxInputsExt autoTx)) then Err "read set not equal"
  else if negb (bool_decide (write_view <$> TxOutputsExt tx = write_view <$> TxOutputsExt autoTx)) then Err "write set not equal"
  else Ret tt.

Definition ImmediateVerifyAutoTx (blockHeight : Z) (tx : FullTx) (isRootTx : bool) : M XModel unit :=
  let! autoTx := mlift (GetTimerTx blockHeight) in
  do! mlift (check_version tx isRootTx) in
  do! mlift (check_size tx) in
  if (RootTxVersion <? tx_Version tx)%Z then
    do! mlift (check_txid tx) in
    rwset_error (mlift (verifyAutoTxRWSets (core tx) (core autoTx)))
  else mpure tt.

(** ** Marked transactions *)

(** What [verifyMarked] answers: passed, marked or relying on a marked one, error. *)
Notation marking := (bool * bool * option string)%type (only parsing).

(** The mark is taken off the transaction before its digest is made.  A signature
    that does not verify leaves no error. *)
Definition unmark (tx : FullTx) : FullTx :=
  let c := core tx in
  mkFullTx (mkTx (Txid c) (TxBlockid c) (Coinbase c) (Autogen c) (Desc c) (TxInputs c) (TxOutputs c) (TxInputsExt c) (TxOutputsExt c) (Some (mkModify "" false 0 "" "")))
    (tx_Version tx) (tx_Nonce tx) (tx_Timestamp tx) (ContractRequests tx) (tx_Initiator tx) (tx_AuthRequire tx)
    (InitiatorSigns tx) (AuthRequireSigns tx) (XuperSign tx) (tx_HDInfo tx).
Definition verifyMarkedTx (tx : FullTx) (mb : ModifyBlockInfo) : outcome unit * FullTx :=
  match CreateCryptoClientFromJSONPublicKey (mb_PublicKey mb) with
  | None => (Err "unknown public key", tx)
  | Some xcc =>
      match GetEcdsaPublicKeyFromJsonStr xcc (mb_PublicKey mb) with
      | None => (Err "invalid public key", tx)
      | Some ecdsaKey =>
          if negb (VerifyAddressUsingPublicKey xcc (ModifyBlockAddr env) ecdsaKey) then (Err "address and public key not match", tx)
          else match hex_decode (mb_Sign mb) with
               | None => (Err "invalide arg type: sign byte", tx)
               | Some bytesign =>
                   let tx := unmark tx in
                   match VerifyECDSA xcc ecdsaKey bytesign (MakeTxDigestHash tx) with
                   | Err e => (Err e, tx)
                   | Panic => (Panic, tx)
                   | Ret _ => (Ret tt, tx)
                   end
               end
      end
  end.

Definition checkRelyOnMarkedTxid (reftxid blockid : string) : M XModel marking := fun s =>
  match QueryTransaction reftxid (ledger s) with
  | (Panic, l) => (Panic, set_ledger s l)
  | (Err _, l) => (Ret (true, false, None), set_ledger s l)
  | (Ret reftx, l) =>
      let s := set_ledger s l in
      match ModifyBlock reftx with
      | Some mb =>
          if Marked mb then
            if nonempty blockid then
              match QueryBlock blockid l with
              | (Panic, l) => (Panic, set_ledger s l)
              | (Err e, l) => (Ret (false, true, Some e), set_ledger s l)
              | (Ret ib, l) => (Ret (bool_decide (Height ib <= EffectiveHeight mb)%Z, true, None), set_ledger s l)
              end
            else (Ret (false, true, None), s)
          else (Ret (true, false, None), s)
      | None => (Ret (true, false, None), s)
      end
  end.

(** The flag of the loop is shadowed: at the end it is false. *)
Fixpoint rely_loop (refs : list string) (blockid : string) : M XModel marking :=
  match refs with
  | [] => mpure (true, false, None)
  | reftxid :: refs =>
      if is_empty_string reftxid then rely_loop refs blockid
      else
        let! r := checkRelyOnMarkedTxid reftxid blockid in
        let '(ok, rely, err) := r in
        if negb ok || bool_decide (err <> None) then mpure r else rely_loop refs blockid
  end.
Definition verifyRelyOnMarkedTxs (tx : Transaction) : M XModel marking :=
  rely_loop ((ti_RefTxid <$> TxInputs tx) ++ ((fun i => default "" (ie_RefTxid i)) <$> TxInputsExt tx)) (TxBlockid tx).

Definition verifyMarked (tx : FullTx) : M XModel (marking * FullTx) :=
  let rely := (let! m := verifyRelyOnMarkedTxs (core tx) in mpure (m, tx)) in
  match ModifyBlock (core tx) with
  | Some mb =>
      if Marked mb then
        match verifyMarkedTx tx mb with
        | (Ret _, tx) => mpure (true, true, None, tx)
        | (Err e, tx) => mpure (false, true, Some e, tx)
        | (Panic, _) => mpanic
        end
      else rely
  | None => rely
  end.

(** ** The transactions of a block *)

(** A transaction that fails and is marked, or relies on a marked one, ends the
    run with the error of [verifyMarked], which may be nil.  The result is the
    transactions, which are shared with the block, as they are left. *)
Fixpoint verifyDAGTxs (blockHeight : Z) (txs : list FullTx) (isRootTx : bool) (unconfirmToConfirm : gset string) : M XModel (list FullTx) :=
  match txs with
  | [] => mpure []
  | tx :: txs =>
      let continue := (let! rest := verifyDAGTxs blockHeight txs isRootTx unconfirmToConfirm in mpure (tx :: rest)) in
      if bool_decide (Txid (core tx) ∈ unconfirmToConfirm) then continue
      else
        do! (if verifyAutogenTxValid (core tx) then or_else (ImmediateVerifyAutoTx blockHeight tx isRootTx) "dotx failed to ImmediateVerifyAutoTx error" else mpure tt) in
        if negb (Autogen (core tx)) && negb (Coinbase (core tx)) then
          let! r := mtry (ImmediateVerifyTx tx isRootTx) in
          match r with
          | inl _ => continue
          | inr _ =>
              let! m := verifyMarked tx in
              let '(ok, isRelyOnMarkedTx, err, tx) := m in
              if isRelyOnMarkedTx then match err with Some e => mfail e | None => mpure (tx :: txs) end
              else mfail "dotx failed to ImmediateVerifyTx error"
          end
        else continue
  end.

(** The runs are verified at the same time and all to their ends; the error that
    is kept is one of theirs, here the one of the first run that has one. *)
Fixpoint verify_dags (blockHeight : Z) (dags : list (list FullTx)) (isRootTx : bool) (unconfirmToConfirm : gset string) : M XModel (list FullTx) :=
  match dags with
  | [] => mpure []
  | txs :: dags => fun s =>
      match verifyDAGTxs blockHeight txs isRootTx unconfirmToConfirm s with
      | (Panic, s) => (Panic, s)
      | (Ret txs, s) => match verify_dags blockHeight dags isRootTx unconfirmToConfirm s with (Ret rest, s) => (Ret (txs ++ rest), s) | r => r end
      | (Err e, s) => match verify_dags blockHeight dags isRootTx unconfirmToConfirm s with (Panic, s) => (Panic, s) | (_, s) => (Err e, s) end
      end
  end.
Definition verifyBlockTxs (blockHeight : Z) (txs : list FullTx) (isRootTx : bool) (unconfirmToConfirm : gset string) : M XModel (list FullTx) :=
  verify_dags blockHeight (SplitToDags txs) isRootTx unconfirmToConfirm.

(** ** Checks for running contracts *)

Definition VerifyContractPermission (initiator : string) (authRequire : list string) (contractName methodName : string) : outcome bool :=
  CheckContractMethodPerm (removeDuplicateUser initiator authRequire) contractName methodName.

Definition VerifyContractOwnerPermission (contractName : string) (authRequire : list string) : M XModel unit :=
  let! r := GetWithTxStatus contract2AccountBucket contractName in
  let '(versionData, confirmed) := r in
  if! negb confirmed fails "contract for account not confirmed" in
  let accountName := blob_string (vd_value versionData) in
  if! is_empty_string accountName fails "contract not found" in
  mlift (fits_bool (IdentifyAccount accountName authRequire) "verify contract owner permission failed").
End Verify.
