(* ===== verification/TxVerifySpec.v ===== *)
(** * Verification of transactions: what is accepted

    A transaction that passes the checks of the file TxVerify is authorised by
    whoever owns what it spends and what it changes; and the cases in which the
    checks let a transaction through that nobody authorised. *)

From Stdlib Require Import ZArith Lia Ascii SpecFloat.
From stdpp Require Import base gmap strings list numbers sorting.
From S2P Require Import Prelude GoValues Sandbox KContext Sha256 LedgerHash Ledger XModel Utxo Acl AclSpec AclContract AclCases TxHash TxVerify.

Set Default Proof Using "Type".

(** ** Runs of a block *)

Lemma split_dags_concat txs : forall i prev one dags, concat (split_dags i prev one dags txs) = concat dags ++ one ++ txs.
Proof.
  induction txs as [|tx txs IH]; intros i prev one dags; cbn [split_dags].
  - rewrite app_nil_r. destruct one; [by rewrite app_nil_r|]. rewrite concat_app. cbn. by rewrite app_nil_r.
  - rewrite IH. destruct (noDepends prev (core tx) && (0 <? i)%nat); [rewrite concat_app; cbn; rewrite app_nil_r|]; by rewrite <- !app_assoc.
Qed.
Lemma SplitToDags_concat txs : concat (SplitToDags txs) = txs.
Proof. apply split_dags_concat. Qed.

Lemma fits_bool_true o e : fits_bool o e = Ret tt -> o = Ret true.
Proof. by destruct o as [[]| |]. Qed.
Lemma or_else_ret {S A} (c : M S A) e s a s' : or_else c e s = (Ret a, s') -> c s = (Ret a, s').
Proof. unfold or_else. by destruct (c s) as [[]]. Qed.
Lemma mlift_ret {S A} (o : outcome A) (s : S) a s' : mlift o s = (Ret a, s') -> o = Ret a /\ s' = s.
Proof. unfold mlift. by intros [= -> ->]. Qed.

(** Take the first step of a run [E : (let! x := c in k) s = (Ret _, _)]. *)
Ltac step E := let a := fresh "a" in let s1 := fresh "s" in let H := fresh "Hstep" in
  apply mbnd_inv_ret in E as (a & s1 & H & E); first [apply or_else_ret in H|idtac]; first [apply mlift_ret in H as [H ->]|idtac];
  lazymatch type of a with unit => destruct a | _ => idtac end.

Section Accepted.
Context `{Cr : Crypto} `{Am : AclManager} `{MO : MapOrder} (env : VerifyEnv).

(** A signature of the transaction verifies for [n]. *)
Definition signed_by (tx : FullTx) (n : string) : Prop :=
  let digest := MakeTxDigestHash tx in
  (exists sg, sg ∈ InitiatorSigns tx ++ AuthRequireSigns tx /\ IdentifyAK n sg digest = Ret true) \/
  (exists xs keys i key, XuperSign tx = Some xs /\ mapM (GetEcdsaPublicKeyFromJsonStr (Crypt env)) (PublicKeys xs) = Some keys /\
     VerifyXuperSignature (Crypt env) keys (Signature xs) digest = Ret true /\ keys !! i = Some key /\ VerifyAddressUsingPublicKey (Crypt env) n key = true).

Lemma auth_signs_spec d auths : forall V V', auth_signs V auths d = Ret V' ->
  V ⊆ V' /\ (forall a sg, (a, sg) ∈ auths -> last_name a ∈ V') /\ (forall n, n ∈ V' -> n ∈ V \/ exists a sg, (a, sg) ∈ auths /\ IdentifyAK n sg d = Ret true).
Proof.
  induction auths as [|[a sg] auths IH]; intros V V' E; cbn [auth_signs] in E.
  - injection E as <-. split; [done|]. split; [by intros ? ? ?%elem_of_nil|by left].
  - assert (exists V1, V ⊆ V1 /\ last_name a ∈ V1 /\ (forall n, n ∈ V1 -> n ∈ V \/ (n = last_name a /\ IdentifyAK n sg d = Ret true)) /\ auth_signs V1 auths d = Ret V') as (V1 & F1 & F2 & F3 & E1).
    { case_bool_decide as Ha; [exists V; split_and!; [done..|by left|done]|].
      destruct (fits_bool (IdentifyAK (last_name a) sg d) _) as [[]| |] eqn:Ef; [|done..]. apply fits_bool_true in Ef.
      exists ({[last_name a]} ∪ V). split_and!; [set_solver|set_solver| |done]. intros n [->%elem_of_singleton|?]%elem_of_union; auto. }
    destruct (IH _ _ E1) as (I1 & I2 & I3). split_and!; [set_solver| |].
    + intros a' sg' [[= -> ->]|Hin]%elem_of_cons; [set_solver|by eapply I2].
    + intros n [?|(a' & sg' & Hin & ?)]%I3; [|right; exists a', sg'; split; [by right|done]].
      destruct (F3 n) as [?|[-> ?]]; [done|by left|]. right. exists a, sg. split; [left|done].
Qed.

Lemma initiator_signs_spec d signs : forall addrs, initiator_signs env signs d = Ret addrs -> forall n, n ∈ addrs -> exists sg, sg ∈ signs /\ IdentifyAK n sg d = Ret true.
Proof.
  induction signs as [|sg signs IH]; intros addrs E n Hn; cbn [initiator_signs] in E; [injection E as <-; by apply elem_of_nil in Hn|].
  destruct (GetEcdsaPublicKeyFromJsonStr (Crypt env) (PublicKey sg)) as [k|]; [|done]. destruct (GetAddressFromPublicKey (Crypt env) k) as [addr|]; [|done].
  destruct (fits_bool (IdentifyAK addr sg d) _) as [[]| |] eqn:Ef; [|done..]. apply fits_bool_true in Ef.
  destruct (initiator_signs env signs d) as [l| |] eqn:El; [|done..]. injection E as <-.
  apply elem_of_cons in Hn as [->|Hn]; [exists sg; split; [left|done]|]. destruct (IH l eq_refl n Hn) as (sg' & ? & ?). exists sg'. split; [by right|done].
Qed.

(** Everyone in the result of [verifySignatures] signed, and every required
    signer is in it. *)
Lemma verifySignatures_sound tx V : verifySignatures env tx (MakeTxDigestHash tx) = Ret V ->
  (forall n, n ∈ V -> signed_by tx n) /\ (forall uri, uri ∈ tx_AuthRequire tx -> last_name uri ∈ V).
Proof.
  unfold verifySignatures. destruct (XuperSign tx) as [xs|] eqn:Ex.
  - unfold verifyXuperSign. destruct (length (xuper_addrs tx) =? length (PublicKeys xs))%nat eqn:El; [|done]. cbn [negb]. apply Nat.eqb_eq in El.
    destruct (mapM _ (PublicKeys xs)) as [keys|] eqn:Ek; [|done]. destruct (forallb _ _) eqn:Ef; [|done]. cbn [negb].
    destruct (VerifyXuperSignature _ _ _ _) as [[]| |] eqn:Ev; [|done..]. intros [= <-]. split.
    + intros n Hn. apply elem_of_list_to_set, list_elem_of_lookup in Hn as (i & Hi). right.
      pose proof (length_mapM _ _ _ Ek) as Hl. destruct (lookup_lt_is_Some_2 keys i) as [key Hkey]; [apply lookup_lt_Some in Hi; lia|].
      exists xs, keys, i, key. split_and!; [done..|]. rewrite forallb_forall in Ef. apply (Ef (n, key)), list_elem_of_In, list_elem_of_lookup. exists i. rewrite lookup_zip_with, Hi, Hkey. done.
    + intros uri Hu. apply elem_of_list_to_set. unfold xuper_addrs. revert Hu.
      assert (forall l acc x, x ∈ acc \/ x ∈ (last_name <$> l) -> x ∈ foldl (fun addrs authReq => let addr := last_name authReq in if bool_decide (addr ∈ addrs) then addrs else addrs ++ [addr]) acc l) as Hfold.
      { induction l as [|y l IH]; intros acc x Hx; cbn; [destruct Hx as [|?%elem_of_nil]; done|]. apply IH. destruct Hx as [Hx|[->|Hx]%elem_of_cons]; [left|left|by right]; case_bool_decide; rewrite ?elem_of_app; auto.
        right. left. }
      intros Hu. apply Hfold. right. apply list_elem_of_fmap. eauto.
  - destruct ((length (InitiatorSigns tx) <? 1)%nat || _) eqn:El; [done|]. apply orb_false_iff in El as [_ El]. apply negb_false_iff, Nat.eqb_eq in El.
    destruct (verify_initiator env tx _) as [V0| |] eqn:E0; [|done..]. intros (Hsub & Hall & Hfrom)%auth_signs_spec. split.
    + intros n [Hn|(a & sg & Hin & ?)]%Hfrom; [|left; exists sg; split; [|done]; apply elem_of_app; right; by apply elem_of_zip_r in Hin]. left. unfold verify_initiator in E0.
      destruct (IsAccount (tx_Initiator tx) =? 0)%Z; [|destruct (IsAccount (tx_Initiator tx) =? 1)%Z; [|done]].
      * destruct (InitiatorSigns tx) as [|sg signs]; [done|]. destruct (fits_bool (IdentifyAK _ _ _) _) as [[]| |] eqn:Ef; [|done..]. apply fits_bool_true in Ef. injection E0 as <-.
        apply elem_of_singleton in Hn as ->. exists sg. split; [left|done].
      * destruct (initiator_signs env _ _) as [addrs| |] eqn:Ei; [|done..]. destruct (fits_bool (IdentifyAccount _ _) _) as [[]| |]; [|done..]. injection E0 as <-.
        apply elem_of_list_to_set in Hn. destruct (initiator_signs_spec _ _ _ Ei n Hn) as (sg & ? & ?). exists sg. split; [apply elem_of_app; by left|done].
    + intros uri (i & Hi)%list_elem_of_lookup. destruct (lookup_lt_is_Some_2 (AuthRequireSigns tx) i) as [sg Hsg]; [apply lookup_lt_Some in Hi; lia|].
      apply (Hall uri sg), list_elem_of_lookup. exists i. by rewrite lookup_zip_with, Hi, Hsg.
Qed.

(** [n] was found to have signed, or was identified. *)
Definition vouched (tx : FullTx) (n : string) : Prop := signed_by tx n \/ IdentifyAccount n (tx_AuthRequire tx) = Ret true.

(** An owner of an output: a signer, or an account that was identified. *)
Definition owner_ok (tx : FullTx) (n : string) : Prop := signed_by tx n \/ (IsAccount n = 1%Z /\ IdentifyAccount n (tx_AuthRequire tx) = Ret true).
Lemma owner_vouched tx n : owner_ok tx n -> vouched tx n.
Proof. intros [?|[_ ?]]; [by left|by right]. Qed.

Lemma inputs_owner_ok tx con ins : forall V V', (forall n, n ∈ V -> owner_ok tx n) -> verify_inputs_permission tx con V ins = Ret V' ->
  (forall n, n ∈ V' -> owner_ok tx n) /\ (forall i, i ∈ ins -> input_key i ∈ con \/ owner_ok tx (FromAddr i)).
Proof.
  induction ins as [|i ins IH]; intros V V' HV E; cbn [verify_inputs_permission] in E; [injection E as <-; split; [done|by intros ? ?%elem_of_nil]|].
  assert (exists V1, (forall n, n ∈ V1 -> owner_ok tx n) /\ (input_key i ∈ con \/ owner_ok tx (FromAddr i)) /\ verify_inputs_permission tx con V1 ins = Ret V') as (V1 & F1 & F2 & E1).
  { case_bool_decide as Hc; cbn [orb] in E; [exists V; auto|]. case_bool_decide as Hn; [exists V; auto|].
    destruct (Z.eqb_spec (IsAccount (FromAddr i)) 1) as [Hacc|]; [|by destruct (IsAccount (FromAddr i) =? 0)%Z]. destruct (GetAccountACL (FromAddr i)) as [[acl|]| |]; [|done..].
    destruct (fits_bool _ _) as [[]| |] eqn:Ef; [|done..]. apply fits_bool_true in Ef. exists ({[FromAddr i]} ∪ V). split_and!; [|by right; right|done].
    intros n [->%elem_of_singleton|?]%elem_of_union; [by right|auto]. }
  destruct (IH _ _ F1 E1) as [I1 I2]. split; [done|]. intros j [->|Hj]%elem_of_cons; auto.
Qed.

Lemma identify_once_spec tx n V s V' s' : (forall n, n ∈ V -> vouched tx n) -> identify_once tx n V s = (Ret V', s') -> (forall n, n ∈ V' -> vouched tx n) /\ vouched tx n.
Proof.
  intros HV E. unfold identify_once in E. case_bool_decide as Hn; [by injection E as <- <-; auto|]. step E. apply fits_bool_true in Hstep. injection E as <- <-.
  split; [|by right]. intros m [->%elem_of_singleton|?]%elem_of_union; [by right|auto].
Qed.

(** What a write needs: the consent of the account whose list it changes, of the
    owner of the contract whose method it restricts (as the state has it then), or
    of the account it gives a contract to. *)
Definition write_vouched (tx : FullTx) (w : TxOutputExt) : Prop :=
  (oe_Bucket w = accountBucket -> vouched tx (oe_Key w)) /\
  (oe_Bucket w = contractBucket -> exists c s d s', head (GoValues.Split aclSeparator (oe_Key w)) = Some c /\
     GetWithTxStatus contract2AccountBucket c s = (Ret (d, true), s') /\ vouched tx (blob_string (vd_value d))) /\
  (oe_Bucket w = contract2AccountBucket -> exists v, oe_Value w = Some v /\ vouched tx (blob_string v)).

Lemma verify_write_spec tx w V s V' s' : (forall n, n ∈ V -> vouched tx n) -> verify_write tx w V s = (Ret V', s') -> (forall n, n ∈ V' -> vouched tx n) /\ write_vouched tx w.
Proof.
  intros HV E. unfold verify_write in E. unfold write_vouched. case_bool_decide as B1.
  { destruct (identify_once_spec _ _ _ _ _ _ HV E) as [F1 F2]. split; [done|]. rewrite B1. split_and!; done. }
  case_bool_decide as B2.
  { destruct (has_char aclSeparator (oe_Key w)); [|done]. cbn [negb] in E. unfold verifyContractOwnerPermission in E. step E. destruct a as [d []]; [|done].
    destruct (identify_once_spec _ _ _ _ _ _ HV E) as [F1 F2]. split; [done|]. rewrite B2. split_and!; [done| |done]. intros _.
    destruct (GoValues.Split aclSeparator (oe_Key w)) as [|c l] eqn:Es; [by destruct (Split_not_nil _ _ Es)|]. cbn in Hstep. exists c. eauto 10. }
  case_bool_decide as B3; [|injection E as <- <-; done].
  destruct (oe_Value w) as [v|]; [|done]. destruct (identify_once_spec _ _ _ _ _ _ HV E) as [F1 F2]. split; [done|]. split_and!; [done..|eauto].
Qed.
Lemma verify_writes_spec tx ws : forall V s V' s', (forall n, n ∈ V -> vouched tx n) -> verify_writes tx ws V s = (Ret V', s') -> forall w, w ∈ ws -> write_vouched tx w.
Proof.
  induction ws as [|w ws IH]; intros V s V' s' HV E x Hx; [by apply elem_of_nil in Hx|]. cbn [verify_writes] in E. step E.
  destruct (verify_write_spec _ _ _ _ _ _ HV Hstep) as [F1 F2]. apply elem_of_cons in Hx as [->|Hx]; [done|]. by eapply IH.
Qed.

(** Who is vouched for agrees, when no key stands inside a path. *)
Lemma vouched_approved tx n : (forall uri, uri ∈ tx_AuthRequire tx -> inner_accounts (SplitAccountURI uri)) -> (forall uri, uri ∈ tx_AuthRequire tx -> signed_by tx (last_name uri)) ->
  IsAccount n = 1%Z -> vouched tx n -> signed_by tx n \/ approved (signed_by tx) n.
Proof.
  intros Hin Hs Hn [?|Hid]; [by left|right]. eapply identified_approved; [exact Hid|done|]. intros uri Hu. split; [by apply Hin|].
  intros l x E. specialize (Hs uri Hu). unfold last_name in Hs. by rewrite E, last_snoc in Hs.
Qed.

Context `{Cm : ContractManager} {T : Type} `{Rb : RBTree T VersionedData}.
Variable proto_size : FullTx -> Z.
Variable UnmsarshalMessages : blob -> option (list TxInput).
Variable template_execute : string -> string -> string.
Variable GetTimerTx : Z -> outcome FullTx.

Local Notation ImmediateVerifyTx := (ImmediateVerifyTx (T := T) proto_size UnmsarshalMessages template_execute env).

(** The checks that an accepted transaction passed. *)
Record accepted (tx : FullTx) : Prop := mkAccepted {
  ac_txid : Txid (core tx) = MakeTransactionID tx;
  ac_signers : forall uri, uri ∈ tx_AuthRequire tx -> signed_by tx (last_name uri);
  ac_inputs : exists con, ParseContractUtxoInputs UnmsarshalMessages (core tx) = Some con /\
    forall i, i ∈ TxInputs (core tx) -> input_key i ∈ input_key <$> con \/ owner_ok tx (FromAddr i);
  ac_methods : forall r, r ∈ ContractRequests tx ->
    CheckContractMethodPerm (removeDuplicateUser (tx_Initiator tx) (tx_AuthRequire tx)) (ir_ContractName r) (MethodName r) = Ret true;
  ac_amount : verifyContractTxAmount tx = Ret tt;
  ac_writes : forall w, w ∈ TxOutputsExt (core tx) -> write_vouched tx w;
  ac_rwset : exists s s', verifyTxRWSets (T := T) UnmsarshalMessages template_execute env tx s = (Ret tt, s')
}.

Lemma verify_requests_ret users req : verify_requests users req = Ret tt -> forall r, r ∈ req -> CheckContractMethodPerm users (ir_ContractName r) (MethodName r) = Ret true.
Proof.
  induction req as [|q req IH]; intros E r Hr; [by apply elem_of_nil in Hr|]. cbn [verify_requests] in E. destruct (fits_bool _ _) as [[]| |] eqn:Ef; [|done..]. apply fits_bool_true in Ef.
  apply elem_of_cons in Hr as [->|Hr]; [done|auto].
Qed.

(** Without requests nothing is written. *)
Lemma rwsets_no_requests tx s s' : verifyTxRWSets (T := T) UnmsarshalMessages template_execute env tx s = (Ret tt, s') -> ContractRequests tx = [] -> TxOutputsExt (core tx) = [].
Proof.
  intros E Er. unfold verifyTxRWSets in E. step E. destruct a.
  - unfold VerifyReservedWhitelist in Hstep. destruct (_ || _); [done|]. destruct (GetAccountACL _) as [[acl|]| |]; [|done..].
    destruct (TxOutputsExt (core tx)); [done|]. cbn in Hstep. rewrite !orb_true_r in Hstep. done.
  - rewrite Er in E. step E. destruct (VerifyReservedContractRequests _ _); [|done]. cbn [negb] in E. destruct (_ || _) eqn:El; [done|].
    apply orb_false_iff in El as [_ El]. apply negb_false_iff, Nat.eqb_eq in El. by destruct (TxOutputsExt (core tx)).
Qed.

Lemma ImmediateVerifyTx_accepted tx isRoot s s' : ImmediateVerifyTx tx isRoot s = (Ret tt, s') -> (0 < tx_Version tx)%Z -> accepted tx.
Proof.
  intros E Hv. unfold TxVerify.ImmediateVerifyTx in E. step E. destruct (Autogen (core tx)); [done|]. step E. rewrite (proj2 (Z.ltb_lt _ _)) in E by done.
  step E. step E. rename a into V. destruct (verifySignatures_sound _ _ Hstep2) as [HV Hs]. step E. rename a into V'. unfold verifyUTXOPermission in Hstep3.
  destruct (ParseContractUtxoInputs _ _) as [con|] eqn:Ec; [|done]. destruct (inputs_owner_ok tx _ _ V V' (fun n Hn => or_introl (HV n Hn)) Hstep3) as [HV' Hins].
  step E. step E. step E. unfold rwset_error in E. destruct (verifyTxRWSets _ _ _ _ _) as [[[]| |] s1] eqn:Erw; [|done..].
  unfold check_txid in Hstep1. case_bool_decide; [|done]. split; [done| | | |done| |by eexists _, _].
  - intros uri Hu. by apply HV, Hs.
  - exists con. split; [done|]. intros i Hi. destruct (Hins i Hi) as [Hc|?]; [left|by right]. by apply elem_of_list_to_set in Hc.
  - by apply verify_requests_ret.
  - intros w Hw. unfold verifyRWSetPermission in Hstep6. destruct (ContractRequests tx) eqn:Er; [rewrite (rwsets_no_requests _ _ _ Erw Er) in Hw; by apply elem_of_nil in Hw|]. eapply verify_writes_spec; [|done..]. intros n Hn. by apply owner_vouched, HV'.
Qed.
End Accepted.

(** C5: nobody spends what is not theirs.  If a transaction is accepted, and no key
    stands inside one of the paths it lists, then its identifier is its hash, and
    whoever owns an output that it spends, other than one the transaction declares
    as an input of its contract calls, has signed it or agrees to it by the rules of
    its access control list; so has every account whose list it replaces, and every
    account that receives a contract by it (who held the contract before is not
    asked). *)
Theorem accepted_tx_authorised `{Crypto} `{AclManager} `{MapOrder} `{ContractManager} {T} `{RBTree T VersionedData}
    proto_size unmarshal tpl env tx s s' :
  ImmediateVerifyTx (T := T) proto_size unmarshal tpl env tx false s = (Ret tt, s') ->
  (forall uri, uri ∈ tx_AuthRequire tx -> inner_accounts (SplitAccountURI uri)) ->
  let agrees n := signed_by env tx n \/ approved (signed_by env tx) n in
  Txid (core tx) = MakeTransactionID tx /\
  (exists con, ParseContractUtxoInputs unmarshal (core tx) = Some con /\
     forall i, i ∈ TxInputs (core tx) -> input_key i ∈ input_key <$> con \/ agrees (FromAddr i)) /\
  (forall w, w ∈ TxOutputsExt (core tx) -> oe_Bucket w = accountBucket -> IsAccount (oe_Key w) = 1%Z -> agrees (oe_Key w)) /\
  (forall w, w ∈ TxOutputsExt (core tx) -> oe_Bucket w = contract2AccountBucket -> exists v, oe_Value w = Some v /\ (IsAccount (blob_string v) = 1%Z -> agrees (blob_string v))).
Proof.
  intros E Hin agrees. assert (0 < tx_Version tx)%Z as Hv.
  { unfold ImmediateVerifyTx in E. step E. unfold check_version, RootTxVersion in Hstep. cbn in Hstep. destruct (Z.eqb_spec (tx_Version tx) 0); [done|].
    destruct (_ || _) eqn:Er; [done|]. apply orb_false_iff in Er as [_ Er%Z.ltb_ge]. lia. }
  destruct (ImmediateVerifyTx_accepted _ _ _ _ _ _ _ _ E Hv) as [Hid Hs (con & Ec & Hi) _ _ Hw _].
  assert (forall n, IsAccount n = 1%Z -> vouched env tx n -> agrees n) as Hvo by (intros n; by apply vouched_approved).
  split_and!; [done| | |].
  - exists con. split; [done|]. intros i Hii. destruct (Hi i Hii) as [?|[?|[Hacc Hid']]]; [by left|by right; left|]. right. apply Hvo; [done|by right].
  - intros w Hww Hb Hacc. apply Hvo; [done|]. by apply (Hw w Hww).
  - intros w Hww Hb. destruct (Hw w Hww) as (_ & _ & Hc). destruct (Hc Hb) as (v & Ev & Hvv). exists v. split; [done|]. intros. by apply Hvo.
Qed.

(** The transaction is started by [n] and carries one signature that counts, its. *)
Definition signed_only_by `{Crypto} (tx : FullTx) (n : string) : Prop :=
  tx_Initiator tx = n /\ XuperSign tx = None /\ exists sg, InitiatorSigns tx = [sg] /\ IdentifyAK n sg (MakeTxDigestHash tx) = Ret true.

(** C38: one signature empties an account.  Whoever holds the key [thief] can spend
    the outputs of any account whose list names keys that reach its threshold,
    without a signature of any of them: the transaction is signed by [thief] alone
    and lists the paths through the members; both the check of the signatures and
    the check of the owners of the inputs succeed, whatever else it holds. *)
Theorem thief_spends_account `{Crypto} `{AclManager} `{MapOrder} unmarshal env tx account thief acl pm a vs :
  (* the account *)
  Forall (fun n => has_char uriSep n = false) (account :: thief :: vs) -> NoDup vs ->
  IsAccount account = 1%Z -> GetAccountACL account = Ret (Some acl) -> Pm acl = Some pm -> Rule pm = SIGN_THRESHOLD ->
  Forall (fun v => IsAccount v = 0%Z /\ GetAccountACL v = Ret None) vs ->
  float_le (AcceptValue pm) (foldl (fun sum v => float_add sum (findWeightInACL v (Some acl))) float_zero vs) = true ->
  (* the transaction *)
  IsAccount thief = 0%Z -> GetAccountACL thief = Ret a -> signed_only_by tx thief ->
  tx_AuthRequire tx = through account thief <$> vs -> length (AuthRequireSigns tx) = length vs ->
  TxOutputsExt (core tx) = [] -> (forall i, i ∈ TxInputs (core tx) -> FromAddr i = account) ->
  verifySignatures env tx (MakeTxDigestHash tx) = Ret {[thief]} /\ is_ret (verifyUTXOPermission unmarshal tx {[thief]}) = true.
Proof.
  intros Hsep Hnd Hacc Eacl Epm Er Hvs Hle Ht Et (Ei & Ex & sg & Es & Hsg) Ea El Eo Hins.
  pose proof (identify_through account thief acl pm a vs Hsep Hnd Hacc Eacl Epm Er Ht Et Hvs Hle) as Hid. pose proof (through_ends account thief vs Hsep) as Hends. split.
  - unfold verifySignatures. rewrite Ex, Es, Ea, length_fmap, El, Nat.eqb_refl. cbn [length Nat.ltb Nat.leb orb negb]. unfold verify_initiator. rewrite Ei, Ht, Es. cbn [Z.eqb]. rewrite Hsg. cbn [fits_bool].
    clear - Hends. generalize (AuthRequireSigns tx). intros sgs. revert sgs. induction Hends as [|uri l Hu _ IH]; intros [|g sgs]; [done..|]. cbn [zip_with auth_signs]. unfold last_name. rewrite Hu. cbn [default from_option id].
    rewrite bool_decide_eq_true_2 by set_solver. apply IH.
  - unfold verifyUTXOPermission, ParseContractUtxoInputs. rewrite Eo. cbn [foldl fmap list_fmap list_to_set].
    assert (forall V ins, (forall i, i ∈ ins -> FromAddr i = account) -> is_ret (verify_inputs_permission tx ∅ V ins) = true) as Hall; [|by apply Hall].
    intros V ins. revert V. induction ins as [|i ins IH]; intros V Hi; [done|]. cbn [verify_inputs_permission]. rewrite (Hi i) by left.
    rewrite bool_decide_eq_false_2 by set_solver. cbn [orb]. case_bool_decide; [apply IH; intros; apply Hi; by right|].
    rewrite Hacc, Z.eqb_refl, Eacl, Ea, Hid. cbn [fits_bool]. apply IH. intros; apply Hi; by right.
Qed.
