(* ===== verification/TxVerifyBlock.v ===== *)
(** * Verification of transactions: write sets and blocks

    The write set of an accepted transaction is what its calls produce, and every
    transaction of an accepted block was verified, unless one was marked. *)

From Stdlib Require Import ZArith Lia Ascii SpecFloat.
From stdpp Require Import base gmap strings list numbers sorting.
From S2P Require Import Prelude GoValues Sandbox KContext Sha256 LedgerHash Ledger XModel Utxo Acl AclSpec AclContract AclCases TxHash TxVerify TxVerifySpec.

Set Default Proof Using "Type".

(** ** Comparing write sets *)

#[local] Instance pd_le_trans : Transitive pd_le.
Proof.
  intros [a x] [b y] [c z] [L1|[E1 L1]] [L2|[E2 L2]]; cbn in *; subst; unfold pd_le; cbn; [left; by eapply str_lt_trans|by left|by left|right; split; [done|by eapply str_le_trans]].
Qed.
#[local] Instance pd_le_total : Total pd_le.
Proof.
  intros [a x] [b y]. unfold pd_le. cbn. destruct (String.compare a b) eqn:E; [apply string_compare_eq in E as ->|left; by left|right; left; by apply str_lt_gt].
  destruct (String.compare x y) eqn:E'; [left; right; split; [done|unfold str_le; congruence]..|]. right. right. split; [done|]. apply str_lt_gt in E'. unfold str_le, str_lt in *. congruence.
Qed.
#[local] Instance pd_le_antisymm : AntiSymm (=) pd_le.
Proof.
  intros [a x] [b y] [L1|[E1 L1]] [L2|[E2 L2]]; cbn in *.
  - destruct (str_lt_irrefl a). by eapply str_lt_trans.
  - subst. by destruct (str_lt_irrefl a).
  - subst. by destruct (str_lt_irrefl b).
  - subst. f_equal. apply str_le_lt_eq in L1 as [L1|]; [|done]. destruct (str_lt_irrefl x). by eapply str_lt_le_trans.
Qed.

Lemma Equal_true pd vpd : Equal pd vpd = true <-> pd_entry <$> pd ≡ₚ pd_entry <$> vpd.
Proof.
  unfold Equal. rewrite andb_true_iff, Nat.eqb_eq, bool_decide_eq_true. split.
  - intros [_ E]. by rewrite <- (merge_sort_Permutation pd_le (pd_entry <$> pd)), E, merge_sort_Permutation.
  - intros Hp. split; [by apply Permutation_length in Hp; rewrite !length_fmap in Hp|].
    apply (Sorted_unique pd_le); [apply Sorted_merge_sort, _..|]. by rewrite !merge_sort_Permutation.
Qed.

(** Write sets are compared as sets of raw keys with values.  Sorting both
    and comparing them element by element accepts exactly the permutations; where
    the bucket ends in a raw key is not compared, so the write set of a
    transaction may name other buckets than its contracts wrote. *)
Theorem Equal_permutation pd vpd :
  (Equal pd vpd = true <-> pd_entry <$> pd ≡ₚ pd_entry <$> vpd) /\
  (forall b c k v, Equal [mkTxOutExt b (c +:+ "/" +:+ k) v] [mkTxOutExt (b +:+ "/" +:+ c) k v] = true).
Proof.
  split; [apply Equal_true|]. intros b c k v. apply Equal_true. cbn. unfold pd_entry, makeRawKey, BucketSeperator. cbn [oe_Bucket oe_Key oe_Value]. by rewrite <- !string_app_assoc.
Qed.

Section Blocks.
Context `{Cr : Crypto} `{Am : AclManager} `{MO : MapOrder} (env : VerifyEnv) `{Cm : ContractManager} {T : Type} `{Rb : RBTree T VersionedData}.
Variable proto_size : FullTx -> Z.
Variable UnmsarshalMessages : blob -> option (list TxInput).
Variable template_execute : string -> string -> string.
Variable GetTimerTx : Z -> outcome FullTx.

(** ** Re-execution *)

(** The calls of [tx] run on the reads it declares, and leave [box]. *)
Definition reexecuted (tx : FullTx) (rset : list VersionedData) (box : Box) : Prop :=
  exists con sandBox trans gasLimit reserved,
    ParseContractUtxoInputs UnmsarshalMessages (core tx) = Some con /\
    NewStateSandbox (mem_reader (XMReaderFromRWSet rset : T)) con = Ret sandBox /\
    ParseContractTransferRequest (ContractRequests tx) = Ret trans /\ getGasLimitFromTx (core tx) = Ret gasLimit /\
    GetReservedContractRequests template_execute env (ContractRequests tx) false = Ret reserved /\
    VerifyReservedContractRequests reserved (ContractRequests tx) = true /\
    (do! run_requests env tx (length reserved) trans.1 trans.2 0 gasLimit (ContractRequests tx) in Flush) sandBox = (Ret tt, box).

Lemma verifyTxRWSets_ret tx s s' : verifyTxRWSets (T := T) UnmsarshalMessages template_execute env tx s = (Ret tt, s') -> ContractRequests tx <> [] ->
  exists rset box, gen_reads (nonempty (TxBlockid (core tx))) (TxInputsExt (core tx)) s = (Ret rset, s') /\ reexecuted tx rset box /\ Equal (TxOutputsExt (core tx)) (WSet box) = true.
Proof.
  intros E Hne. unfold verifyTxRWSets in E. step E. destruct a.
  { unfold VerifyReservedWhitelist in Hstep. destruct (_ || _); [done|]. destruct (GetAccountACL _) as [[acl|]| |]; [|done..]. destruct (ContractRequests tx); [done|]. cbn in Hstep. by rewrite orb_true_r in Hstep. }
  step E. rename a into reserved. destruct (VerifyReservedContractRequests _ _) eqn:Ev; [|done]. cbn [negb] in E.
  destruct (ContractRequests tx) as [|r rs] eqn:Er; [done|]. rewrite <- Er in *. unfold GenRWSetFromTx in E. step E. unfold mbnd in Hstep1. destruct (gen_reads _ _ s) as [[rset| |] s1] eqn:Eg; [|done..]. injection Hstep1 as <- <-.
  destruct (ParseContractUtxoInputs _ _) as [con|] eqn:Ec; [|done]. step E. step E. step E.
  destruct (mbnd _ _ _) as [[[]| |] box] eqn:Erun; [|done..]. destruct (Equal _ _) eqn:Eq; [|done]. injection E as <-.
  exists rset, box. split_and!; [done| |done]. unfold reexecuted. by eexists _, _, _, _, _.
Qed.

(** ** Blocks *)

Local Notation ImmediateVerifyTx := (ImmediateVerifyTx (T := T) proto_size UnmsarshalMessages template_execute env).
Local Notation verifyDAGTxs := (verifyDAGTxs (T := T) proto_size UnmsarshalMessages template_execute GetTimerTx env).
Local Notation verify_dags := (verify_dags (T := T) proto_size UnmsarshalMessages template_execute GetTimerTx env).
Local Notation verifyBlockTxs := (verifyBlockTxs (T := T) proto_size UnmsarshalMessages template_execute GetTimerTx env).
Local Notation ImmediateVerifyAutoTx := (ImmediateVerifyAutoTx proto_size GetTimerTx env).

(** What is checked of one transaction: nothing, if it is confirmed already or
    pays the miner; the timer's transaction, if it was generated and reads or
    writes something; the checks of users' transactions otherwise. *)
Definition checked (h : Z) (isRoot : bool) (confirmed : gset string) (tx : FullTx) : Prop :=
  Txid (core tx) ∈ confirmed \/
  ((verifyAutogenTxValid (core tx) = true -> exists s s', ImmediateVerifyAutoTx h tx isRoot s = (Ret tt, s')) /\
   (Autogen (core tx) = false -> Coinbase (core tx) = false -> exists s s', ImmediateVerifyTx tx isRoot s = (Ret tt, s'))).

(** A transaction that did not pass, but is marked or relies on a marked one. *)
Definition excused (isRoot : bool) (tx : FullTx) : Prop :=
  exists s e s1 ok err tx' s2, ImmediateVerifyTx tx isRoot s = (Err e, s1) /\ verifyMarked env tx s1 = (Ret (ok, true, err, tx'), s2).

Lemma verifyDAGTxs_checked h isRoot confirmed txs : forall s out s', verifyDAGTxs h txs isRoot confirmed s = (Ret out, s') ->
  (forall tx, tx ∈ txs -> checked h isRoot confirmed tx) \/ exists tx, tx ∈ txs /\ excused isRoot tx.
Proof.
  induction txs as [|tx txs IH]; intros s out s' E; [left; by intros ? ?%elem_of_nil|]. cbn [TxVerify.verifyDAGTxs] in E.
  assert (forall s, (let! rest := verifyDAGTxs h txs isRoot confirmed in mpure (tx :: rest)) s = (Ret out, s') -> checked h isRoot confirmed tx ->
    (forall t, t ∈ tx :: txs -> checked h isRoot confirmed t) \/ exists t, t ∈ tx :: txs /\ excused isRoot t) as Hgo.
  { intros s0 E0 Hc. step E0. destruct (IH _ _ _ Hstep) as [Hall|(t & Ht & ?)]; [left|right; exists t; split; [by right|done]]. intros t [->|?]%elem_of_cons; auto. }
  case_bool_decide as Hin; [apply (Hgo s E); by left|].
  apply mbnd_inv_ret in E as ([] & s1 & Ha & E).
  assert (verifyAutogenTxValid (core tx) = true -> exists s s', ImmediateVerifyAutoTx h tx isRoot s = (Ret tt, s')) as Hauto.
  { intros Hv. rewrite Hv in Ha. apply or_else_ret in Ha. eauto. }
  destruct (negb (Autogen (core tx)) && negb (Coinbase (core tx))) eqn:Ek.
  - apply mbnd_inv_ret in E as (r & s2 & Ht & E). apply mtry_inv_ret in Ht as [([] & -> & Ev)|(e & -> & Ev)].
    + apply (Hgo s2 E). right. split; [done|]. intros _ _. eauto.
    + right. exists tx. split; [left|]. apply mbnd_inv_ret in E as ([[[ok rely] err] tx'] & s3 & Em & E). destruct rely; [|done]. unfold excused. eauto 10.
  - apply (Hgo s1 E). right. split; [done|]. intros Hau Hco. by rewrite Hau, Hco in Ek.
Qed.

Lemma verify_dags_checked h isRoot confirmed dags : forall s out s', verify_dags h dags isRoot confirmed s = (Ret out, s') ->
  (forall tx, tx ∈ concat dags -> checked h isRoot confirmed tx) \/ exists tx, tx ∈ concat dags /\ excused isRoot tx.
Proof.
  induction dags as [|txs dags IH]; intros s out s' E; [left; by intros ? ?%elem_of_nil|]. cbn [TxVerify.verify_dags] in E.
  destruct (verifyDAGTxs h txs isRoot confirmed s) as [[txs'| |] s1] eqn:E1; [| |done].
  - destruct (verify_dags h dags isRoot confirmed s1) as [[rest| |] s2] eqn:E2; [|done..]. cbn [concat]. setoid_rewrite elem_of_app.
    destruct (verifyDAGTxs_checked _ _ _ _ _ _ _ E1) as [A1|(t & ? & ?)]; [|right; eauto]. destruct (IH _ _ _ E2) as [A2|(t & ? & ?)]; [|right; eauto]. left. naive_solver.
  - by destruct (verify_dags h dags isRoot confirmed s1) as [[]].
Qed.
End Blocks.

(** C24: what a block's transactions went through.  If the transactions of a block
    are accepted, then the runs they were put in make up the block, in its order, and
    every transaction was checked as its kind asks for: not at all when it is known to
    the pool already, pays the miner, or was generated without reads and writes;
    against the timer's transaction when it was generated; by all the checks of a
    user's transaction otherwise.  Or else one of them did not pass and was marked or
    relied on a marked transaction. *)
Theorem block_txs_checked `{Crypto} `{AclManager} `{MapOrder} `{ContractManager} {T} `{RBTree T VersionedData}
    proto_size unmarshal tpl timer env h txs isRoot confirmed s out s' :
  verifyBlockTxs (T := T) proto_size unmarshal tpl timer env h txs isRoot confirmed s = (Ret out, s') ->
  concat (SplitToDags txs) = txs /\
  ((forall tx, tx ∈ txs -> checked env (T := T) proto_size unmarshal tpl timer h isRoot confirmed tx) \/
   exists tx, tx ∈ txs /\ excused env (T := T) proto_size unmarshal tpl isRoot tx).
Proof.
  intros E. split; [apply SplitToDags_concat|]. rewrite <- (SplitToDags_concat txs). by eapply verify_dags_checked.
Qed.

(** C25: the write set of an accepted transaction is what its calls produce.  If a
    transaction with contract calls is accepted, there are the versions it
    declares to have read, as the state has them, such that running its calls on
    them alone leaves a write set that is, up to its order, the one it declares. *)
Theorem accepted_write_set `{Crypto} `{AclManager} `{MapOrder} `{ContractManager} {T} `{RBTree T VersionedData}
    proto_size unmarshal tpl env tx s s' :
  ImmediateVerifyTx (T := T) proto_size unmarshal tpl env tx false s = (Ret tt, s') -> ContractRequests tx <> [] -> (0 < tx_Version tx)%Z ->
  exists s0 rset box s1, gen_reads (nonempty (TxBlockid (core tx))) (TxInputsExt (core tx)) s0 = (Ret rset, s1) /\
    reexecuted env (T := T) unmarshal tpl tx rset box /\ pd_entry <$> TxOutputsExt (core tx) ≡ₚ pd_entry <$> WSet box.
Proof.
  intros E Hne Hv. destruct (ImmediateVerifyTx_accepted _ _ _ _ _ _ _ _ E Hv) as [_ _ _ _ _ _ (s0 & s1 & Erw)].
  destruct (verifyTxRWSets_ret _ _ _ _ _ _ Erw Hne) as (rset & box & Eg & Hre & Heq%Equal_true). by exists s0, rset, box, s1.
Qed.

(** The first input of [tx] spends an output of a transaction that carries a mark;
    [tx] is in no block yet, or in one above the height of the mark. *)
Definition spends_marked (s : XModel) (tx : FullTx) : Prop :=
  exists i ins reftx mb l, TxInputs (core tx) = i :: ins /\ ti_RefTxid i <> "" /\ QueryTransaction (ti_RefTxid i) (ledger s) = (Ret reftx, l) /\
    ModifyBlock reftx = Some mb /\ Marked mb = true /\
    (TxBlockid (core tx) = "" \/ exists ib l', QueryBlock (TxBlockid (core tx)) l = (Ret ib, l') /\ (EffectiveHeight mb < Height ib)%Z).

(** C39: behind a bad transaction that relies on a marked one nothing is checked.  A
    user's transaction that fails its own checks, is not marked itself, and spends an
    output of a marked transaction by its first input, is accepted when it is not in a
    block yet or its block is higher than the mark takes effect; and so, unchecked, is
    whatever follows it in its run. *)
Theorem nothing_checked_behind_marked `{Crypto} `{AclManager} `{MapOrder} `{ContractManager} {T} `{RBTree T VersionedData}
    proto_size unmarshal tpl timer env h tx txs isRoot confirmed s e s1 :
  Txid (core tx) ∉ confirmed -> Autogen (core tx) = false -> Coinbase (core tx) = false -> ModifyBlock (core tx) = None ->
  ImmediateVerifyTx (T := T) proto_size unmarshal tpl env tx isRoot s = (Err e, s1) ->
  spends_marked s1 tx ->
  exists s', verifyDAGTxs (T := T) proto_size unmarshal tpl timer env h (tx :: txs) isRoot confirmed s = (Ret (tx :: txs), s').
Proof.
  intros Hc Hau Hco Hm Ev (i & ins & reftx & mb & l & Ei & Hr & Eq & Emb & Hmark & Hblk). cbn [verifyDAGTxs]. rewrite bool_decide_eq_false_2 by done. unfold verifyAutogenTxValid. rewrite Hau, Hco. cbn [andb negb]. rewrite mbnd_pure.
  assert (mtry (ImmediateVerifyTx (T := T) proto_size unmarshal tpl env tx isRoot) s = (Ret (inr e), s1)) as Et by (unfold mtry; by rewrite Ev). rewrite (mbnd_ret _ _ _ _ _ Et).
  assert (exists s2, verifyMarked env tx s1 = (Ret (false, true, None, tx), s2)) as [s2 Es2]; [|rewrite (mbnd_ret _ _ _ _ _ Es2); by exists s2].
  assert (exists s2, checkRelyOnMarkedTxid (ti_RefTxid i) (TxBlockid (core tx)) s1 = (Ret (false, true, None), s2)) as [s2 Ec].
  { unfold checkRelyOnMarkedTxid. rewrite Eq, Emb, Hmark. destruct Hblk as [->|(ib & l' & Eb & Hlt)]; [by eexists|]. destruct (nonempty (TxBlockid (core tx))) eqn:En; [|by eexists].
    rewrite Eb, bool_decide_eq_false_2 by lia. by eexists. }
  exists s2. unfold verifyMarked. rewrite Hm. unfold verifyRelyOnMarkedTxs. rewrite Ei. cbn [fmap list_fmap app rely_loop].
  destruct (is_empty_string (ti_RefTxid i)) eqn:Ee; [by destruct (ti_RefTxid i)|]. rewrite mbnd_assoc, (mbnd_ret _ _ _ _ _ Ec). done.
Qed.

(** It is flagged as generated and touches no contract data. *)
Definition bare_generated (tx : Transaction) : Prop := Autogen tx = true /\ TxInputsExt tx = [] /\ TxOutputsExt tx = [].

(** A generated transaction that reads and writes nothing is not checked at
    all, whatever outputs it spends. *)
Theorem generated_tx_unchecked `{Crypto} `{AclManager} `{MapOrder} `{ContractManager} {T} `{RBTree T VersionedData}
    proto_size unmarshal tpl timer env h tx isRoot confirmed s :
  bare_generated (core tx) ->
  verifyBlockTxs (T := T) proto_size unmarshal tpl timer env h [tx] isRoot confirmed s = (Ret [tx], s).
Proof.
  intros (Ha & Hi & Ho). unfold verifyBlockTxs, SplitToDags. cbn [split_dags]. rewrite andb_false_r. cbn [app verify_dags verifyDAGTxs]. unfold verifyAutogenTxValid. rewrite Ha, Hi, Ho.
  by case_bool_decide.
Qed.
