(* ===== verification/TxVerifyCases.v ===== *)
(** * Verification of transactions: cases

    A small chain on which the theorems of the files TxVerifySpec and
    TxVerifyBlock are used: a key is its own address, a signature of a message is
    the message, and a contract writes one key. *)

From Stdlib Require Import ZArith Lia Ascii SpecFloat.
From stdpp Require Import base gmap strings list numbers sorting.
From S2P Require Import Prelude GoValues Sandbox KContext Sha256 LedgerHash Ledger XModel Utxo Acl AclSpec AclContract AclIndex AclCases TxHash TxVerify TxVerifySpec TxVerifyBlock.

Set Default Proof Using "Type".

Module VerifyExample.
#[export] Existing Instance address_order.

#[export] Instance crypto : Crypto := {|
  Client := unit; Key := string;
  CreateCryptoClientFromJSONPublicKey := fun _ => Some tt;
  GetEcdsaPublicKeyFromJsonStr := fun _ pk => Some pk;
  GetAddressFromPublicKey := fun _ k => Some k;
  VerifyAddressUsingPublicKey := fun _ n k => bool_decide (n = k);
  VerifyECDSA := fun _ _ sg msg => Ret (bool_decide (sg = msg));
  VerifyXuperSignature := fun _ _ sg msg => Ret (bool_decide (sg = msg))
|}.

(** A contract writes its name under [k]. *)
#[export] Instance contracts : ContractManager := {|
  Box := list TxOutputExt; BoxContext := string;
  NewStateSandbox := fun _ _ => Ret [];
  NewContext := fun cfg => mpure (cc_ContractName cfg);
  box_Invoke := fun c m _ box => (Ret (resp_ok None), box ++ [mkTxOutExt c "k" (Some (Raw m))]);
  Flush := mpure tt;
  WSet := fun box => box
|}.

Definition A : string := AclExample.A.
#[export] Instance lists : AclManager := one_list AclExample.both.
Definition env : VerifyEnv := mkEnv _ tt 1000000 [] "" (mkGasPrice 0 0 0 0) "admin".
Definition size (_ : FullTx) : Z := 500.
Definition no_messages (_ : blob) : option (list TxInput) := None.
Definition no_tpl (t _ : string) : string := t.
Definition no_timer (_ : Z) : outcome FullTx := Err "no timer".

(** A transaction with its signatures and its identifier. *)
Definition sign (who : string) (tx : FullTx) : SignatureInfo := mkSig who (MakeTxDigestHash tx).
Definition sealed (signers : list string) (tx : FullTx) : FullTx :=
  let tx1 := mkFullTx (core tx) (tx_Version tx) (tx_Nonce tx) (tx_Timestamp tx) (ContractRequests tx) (tx_Initiator tx) (tx_AuthRequire tx)
               [sign (tx_Initiator tx) tx] ((fun k => sign k tx) <$> signers) (XuperSign tx) (tx_HDInfo tx) in
  let c := core tx in
  mkFullTx (mkTx (MakeTransactionID tx1) (TxBlockid c) (Coinbase c) (Autogen c) (Desc c) (TxInputs c) (TxOutputs c) (TxInputsExt c) (TxOutputsExt c) (ModifyBlock c))
    (tx_Version tx) (tx_Nonce tx) (tx_Timestamp tx) (ContractRequests tx) (tx_Initiator tx) (tx_AuthRequire tx) (InitiatorSigns tx1) (AuthRequireSigns tx1) (XuperSign tx) (tx_HDInfo tx).
Definition draft (from : string) (who : string) (auth : list string) (reqs : list InvokeRequest) (writes : list TxOutputExt) : FullTx :=
  mkFullTx (mkTx "" "" false false "" [mkTxIn "T1" 0 from "5" 0] [mkTxOut "5" "bob" 0] [] writes None) 3 "n" 1 reqs who auth [] [] None None.

Definition state : XModel := XMExample.start.

(** Alice and Bob spend from their account and call a contract. *)
Definition uri (ks : list string) : string := Join uriSep (A :: ks).
Definition call : InvokeRequest := mkInvoke "wasm" "counter" "increase" ∅ [] "".
Definition honest : FullTx := sealed ["alice"; "bob"] (draft A "alice" [uri ["alice"]; uri ["bob"]] [call] [mkTxOutExt "counter" "k" (Some (Raw "increase"))]).
(** Mallory spends from it. *)
Definition theft : FullTx := sealed ["mallory"; "mallory"] (draft A "mallory" [uri ["alice"; "mallory"]; uri ["bob"; "mallory"]] [] []).

Lemma honest_auth : tx_AuthRequire honest = [uri ["alice"]; uri ["bob"]].
Proof. reflexivity. Qed.
Lemma honest_input : TxInputs (core honest) = [mkTxIn "T1" 0 A "5" 0].
Proof. reflexivity. Qed.
Lemma honest_con : ParseContractUtxoInputs no_messages (core honest) = Some [].
Proof. reflexivity. Qed.
Lemma uri_parts k : has_char uriSep k = false -> SplitAccountURI (uri [k]) = [A; k].
Proof. intros Hk. unfold SplitAccountURI, uri. apply Split_Join; [done|]. by repeat constructor. Qed.

Lemma fst_pair {X Y} (p : X * Y) x : p.1 = x -> exists y, p = (x, y).
Proof. destruct p as [? y]. intros <-. by exists y. Qed.
Notation verify tx := (ImmediateVerifyTx (T := gmap string VersionedData) size no_messages no_tpl env tx false).

Lemma honest_passes : exists s', verify honest state = (Ret tt, s').
Proof. apply fst_pair. vm_compute. reflexivity. Qed.
(** The theft passes every check. *)
Lemma theft_passes : exists s', verify theft state = (Ret tt, s').
Proof. apply fst_pair. vm_compute. reflexivity. Qed.
(** With a signature of Bob instead of Alice it would not. *)
Lemma half_refused : exists s', verify (sealed ["bob"] (draft A "bob" [uri ["bob"]] [] [])) state = (Err ErrACLNotEnough, s').
Proof. apply fst_pair. vm_compute. reflexivity. Qed.
End VerifyExample.
Import VerifyExample.

Lemma accepted_tx_authorised_witness : signed_by env honest A \/ approved (signed_by env honest) A.
Proof.
  destruct honest_passes as [s' E].
  destruct (accepted_tx_authorised size no_messages no_tpl env honest state s' E) as (_ & (con & Ec & Hi) & _).
  - clear E. intros u Hu. rewrite honest_auth in Hu. assert (exists k, SplitAccountURI u = [A; k]) as [k Hp].
    { apply elem_of_cons in Hu as [->|Hu]; [exists "alice"; by apply uri_parts|]. apply list_elem_of_singleton in Hu as ->. exists "bob". by apply uri_parts. }
    intros l x r E' Hr. rewrite Hp in E'. destruct l as [|y [|z l]]; [|injection E' as _ _ <-; done|by destruct l]. injection E' as <- _. reflexivity.
  - assert (mkTxIn "T1" 0 A "5" 0 ∈ TxInputs (core honest)) as Hin by (rewrite honest_input; left).
    rewrite honest_con in Ec. injection Ec as <-.
    specialize (Hi _ Hin). cbn [fmap list_fmap FromAddr] in Hi. rewrite elem_of_nil in Hi. destruct Hi as [[]|Hag].
    exact Hag.
Defined.

Lemma thief_spends_account_witness : verifySignatures env theft (MakeTxDigestHash theft) = Ret {["mallory"]} /\ is_ret (verifyUTXOPermission no_messages theft {["mallory"]}) = true.
Proof.
  apply (thief_spends_account no_messages env theft A "mallory" (default noAcl (UnmarshalAcl AclExample.both)) (mkPm 1 (float_decimal 1 0)) None ["alice"; "bob"]).
  - repeat constructor.
  - repeat constructor; set_solver.
  - reflexivity.
  - vm_compute. reflexivity.
  - reflexivity.
  - reflexivity.
  - repeat constructor.
  - vm_compute. reflexivity.
  - reflexivity.
  - reflexivity.
  - split; [reflexivity|]. split; [reflexivity|]. exists (sign "mallory" theft). split; vm_compute; reflexivity.
  - reflexivity.
  - reflexivity.
  - reflexivity.
  - intros i Hi. apply list_elem_of_singleton in Hi as ->. reflexivity.
Defined.

Notation verify_block txs := (verifyBlockTxs (T := gmap string VersionedData) size no_messages no_tpl no_timer env 7 txs false ∅).

Lemma block_txs_checked_witness : exists s', verify_block [honest; theft] state = (Ret [honest; theft], s') /\ concat (SplitToDags [honest; theft]) = [honest; theft].
Proof.
  assert ((verify_block [honest; theft] state).1 = Ret [honest; theft]) as E by (vm_compute; reflexivity). destruct (fst_pair _ _ E) as [s' E']. exists s'. split; [exact E'|].
  exact (proj1 (block_txs_checked size no_messages no_tpl no_timer env 7 [honest; theft] false ∅ state [honest; theft] s' E')).
Defined.

Lemma accepted_write_set_witness : exists rset box, reexecuted env (T := gmap string VersionedData) no_messages no_tpl honest rset box /\
  pd_entry <$> TxOutputsExt (core honest) ≡ₚ pd_entry <$> WSet box.
Proof.
  destruct honest_passes as [s' E]. destruct (accepted_write_set size no_messages no_tpl env honest state s' E) as (s0 & rset & box & s1 & _ & Hre & Hp); [discriminate|reflexivity|].
  exists rset, box. split; [exact Hre|exact Hp].
Defined.

(** An output of a marked transaction is spent without a signature, and a theft
    without one follows. *)
Definition marked_ledger : Ledger := set_confirmed empty_ledger {["T1" := mkTx "T1" "B1" false false "" [] [] [] [] (Some (mkModify "" true 5 "" ""))]}.
Definition marked_state : XModel := NewXModel marked_ledger (mkDB ∅ ∅ ∅ ∅ None None None).
Definition unsigned : FullTx := draft "victim" "mallory" [] [] [].

Lemma nothing_checked_behind_marked_witness : exists s', verifyDAGTxs (T := gmap string VersionedData) size no_messages no_tpl no_timer env 7 [unsigned; unsigned] false ∅ marked_state = (Ret [unsigned; unsigned], s').
Proof.
  assert (check_txid unsigned = Err "Txid verify failed") as Et by (vm_compute; reflexivity).
  assert (check_size size env unsigned = Ret tt) as Es by (vm_compute; reflexivity).
  assert (verify unsigned marked_state = (Err "Txid verify failed", marked_state)) as E1.
  { unfold ImmediateVerifyTx, mbnd, mlift. rewrite Es, Et. reflexivity. }
  apply (nothing_checked_behind_marked size no_messages no_tpl no_timer env 7 unsigned [unsigned] false ∅ marked_state "Txid verify failed" marked_state).
  - apply not_elem_of_empty.
  - reflexivity.
  - reflexivity.
  - reflexivity.
  - exact E1.
  - exists (mkTxIn "T1" 0 "victim" "5" 0), [], (mkTx "T1" "B1" false false "" [] [] [] [] (Some (mkModify "" true 5 "" ""))), (mkModify "" true 5 "" ""),
      (QueryTransaction "T1" marked_ledger).2.
    split; [reflexivity|]. split; [discriminate|]. split; [vm_compute; reflexivity|]. split; [reflexivity|]. split; [reflexivity|]. left. reflexivity.
Defined.

Definition generated : FullTx :=
  mkFullTx (mkTx "" "" false true "" [mkTxIn "T1" 0 "victim" "5" 0] [mkTxOut "5" "mallory" 0] [] [] None) 3 "n" 1 [] "" [] [] [] None None.
Lemma generated_tx_unchecked_witness : verify_block [generated] state = (Ret [generated], state).
Proof. apply (generated_tx_unchecked size no_messages no_tpl no_timer env 7 generated false ∅ state). repeat split. Defined.

(** ** Single cases *)

(** On a chain with reserved contracts and a white list, a transaction without
    inputs and with an output is an index out of range. *)
Example reserved_whitelist_panics :
  VerifyReservedWhitelist (mkEnv _ tt 1000000 [call] A (mkGasPrice 0 0 0 0) "")
    (mkFullTx (mkTx "" "" false false "" [] [mkTxOut "" "bob" 0] [] [] None) 3 "n" 1 [] "mallory" [] [] [] None None) = Panic.
Proof. vm_compute. reflexivity. Qed.

(** A mark whose signature does not verify is taken for a good one. *)
Example bad_mark_is_taken :
  verifyMarkedTx env unsigned (mkModify "" true 5 "admin" "00") = (Ret tt, unmark unsigned).
Proof. vm_compute. reflexivity. Qed.
