(* ===== verification/Consensus.v ===== *)
(** * What the consensus plugins share

    [kernel/consensus/base/common/common.go], the conversions between the
    certificate a block stores and the certificate the replica works with; the
    part of [bcs/ledger/xledger/state/block.go] that makes the storage of a block;
    and the interface [LedgerRely] of [kernel/consensus/context/context.go], by
    which a plugin sees the chain.

    The storage travels as a JSON document whose members are exactly the fields of
    [ConsensusStorage]; it is kept as the record.  Making the replica of a plugin
    ([NewSmr] of [chained-bft/smr.go], [initBFT] of the plugins) is here too.  The encoding of a certificate by
    protobuf is a parameter, [ProtoQC]. *)

From Stdlib Require Import ZArith Lia Ascii.
From stdpp Require Import base gmap strings list numbers sorting.
From S2P Require Import Prelude GoValues LedgerHash QCTree Smr.

Set Default Proof Using "Type".

(** ** Results without state *)

#[global] Instance outcome_mret : MRet outcome := fun A a => Ret a.
#[global] Instance outcome_fmap : FMap outcome := fun A B f o => outcome_bind o (fun a => Ret (f a)).
#[global] Instance outcome_mbind : MBind outcome := fun A B k o => outcome_bind o k.

Lemma obind_ret {A B} (a : A) (k : A -> outcome B) : (Ret a ≫= k) = k a.
Proof. reflexivity. Qed.

Lemma obind_inv_ret {A B} (o : outcome A) (k : A -> outcome B) b :
  (o ≫= k) = Ret b -> exists a, o = Ret a /\ k a = Ret b.
Proof. destruct o as [a| |]; [|done..]. intros E. by exists a. Qed.

(** Integer division: by zero it panics. *)
Definition div64 (a b : Z) : outcome Z := if (b =? 0)%Z then Panic else Ret (quot64 a b).
Definition rem64 (a b : Z) : outcome Z := if (b =? 0)%Z then Panic else Ret (Z.rem a b).

Lemma div64_ret a b : (0 <= a)%Z -> (0 < b)%Z -> (a <= int64_max)%Z -> div64 a b = Ret (a / b)%Z.
Proof.
  intros Ha Hb Hm. unfold div64. rewrite (proj2 (Z.eqb_neq _ _)) by lia. unfold quot64. rewrite Z.quot_div_nonneg by lia.
  assert (0 <= a / b)%Z by (apply Z.div_pos; lia). assert (a / b <= a)%Z by (apply Z.div_le_upper_bound; nia).
  f_equal. apply wrap64_id. unfold is_int64, int64_min, int64_max in *. lia.
Qed.

(** [l[i]] *)
Definition index64 {A} (l : list A) (i : Z) : outcome A :=
  if (i <? 0)%Z then Panic else match l !! Z.to_nat i with Some a => Ret a | None => Panic end.

(** [time.Millisecond], in nanoseconds. *)
Definition Millisecond : Z := 1000000.

(** ** The chain as a plugin sees it *)

(** A snapshot at a block answers with the value a key had there, nil if none. *)
Record LedgerRely := mkRely {
  QueryBlockHeaderByHeight : Z -> outcome InternalBlock;
  QueryBlockHeader : string -> outcome InternalBlock;
  GetTipBlock : InternalBlock;
  CreateSnapshot : string -> outcome (string -> string -> outcome (option blob))
}.
Definition QueryTipBlockHeader (l : LedgerRely) : InternalBlock := GetTipBlock l.

(** ** The storage of a block *)

Record ConsensusStorage := mkStorage { cs_Justify : option Justify; cs_CurTerm : Z; cs_CurBlockNum : Z; cs_TargetBits : Z }.

(** The number of the block in its term is not part of what a block agent
    hands out.  The agent marshals three fields of the block, so that the text the
    consensus parses is always well formed, and the error of parsing it cannot
    occur. *)
Definition GetConsensusStorage (blk : InternalBlock) : ConsensusStorage :=
  mkStorage (BJustify blk) (CurTerm blk) 0 (TargetBits blk).

(** ** The block agent *)

(** [MakeBlockId] writes the identifier into the block it computes it for. *)
Definition MakeBlockId (blk : InternalBlock) : string * InternalBlock :=
  let blkId := MakeBlockID blk in (blkId, set_id blk blkId).

Definition set_nonce (b : InternalBlock) (nonce : Z) : InternalBlock :=
  mkBlk (Version b) nonce (Blockid b) (PreHash b) (Proposer b) (BSign b) (Pubkey b) (MerkleRoot b) (Height b) (Timestamp b)
    (Transactions b) (TxCount b) (MerkleTree b) (CurTerm b) (CurBlockNum b) (FailedTxs b) (TargetBits b) (BJustify b) (InTrunk b) (NextHash b).

(** What may be set, with a value of its type. *)
Inductive BlockItem := item_nonce (n : Z) | item_blockid (id : string) | item_sign (sg : string).
Definition SetItem (item : BlockItem) (blk : InternalBlock) : InternalBlock :=
  match item with item_nonce n => set_nonce blk n | item_blockid id => set_id blk id | item_sign sg => set_sign blk sg end.

Definition InvalidJustify : string := "Justify structure is invalid.".

(** [proto.Marshal] and [proto.Unmarshal] of a certificate. *)
Class ProtoQC := {
  proto_Marshal : Justify -> string;
  proto_Unmarshal : string -> option Justify
}.
Class ProtoQCLaws `{ProtoQC} := {
  proto_roundtrip q : proto_Unmarshal (proto_Marshal q) = Some q
}.

(** Nil slices: the signatures are nil when there are none. *)
Definition nil_if_empty {A} (l : list A) : option (list A) := match l with [] => None | _ => Some l end.

Definition OldSignToNew (storage : ConsensusStorage) : option (list QuorumCertSign) :=
  match cs_Justify storage with
  | None => None
  | Some oldQC =>
      match j_SignInfos oldQC with
      | None => None
      | Some old => nil_if_empty ((fun s => mkSign (si_Address s) (si_PublicKey s) (si_Sign s)) <$> old)
      end
  end.

Definition NewSignToOld (new : list QuorumCertSign) : list SignInfo :=
  (fun s => mkSignInfo (SAddress s) (SPublicKey s) (SSign s)) <$> new.

(** A byte slice of the old structure is nil when it is empty. *)
Definition slice_of (s : string) : bytes := if is_empty_string s then None else Some s.

Definition OldQCToNew `{ProtoQC} (storage : ConsensusStorage) : outcome QuorumCert :=
  match cs_Justify storage with
  | None => Err InvalidJustify
  | Some oldQC =>
      match proto_Unmarshal (j_ProposalMsg oldQC) with
      | None => Err "proto: cannot parse invalid wire-format data"
      | Some justifyQC =>
          Ret (NewQuorumCert (mkVoteInfo (slice_of (j_ProposalId oldQC)) (j_ViewNumber oldQC)
                                         (slice_of (j_ProposalId justifyQC)) (j_ViewNumber justifyQC))
                             None (OldSignToNew storage))
      end
  end.

Definition NewToOldQC `{ProtoQC} (new : QuorumCert) : Justify :=
  let vote := qc_vote new in
  let oldParentQC := mkJustifyPb (default "" (ParentId vote)) "" 0 (ParentView vote) None in
  mkJustifyPb (default "" (ProposalId vote)) (proto_Marshal oldParentQC) 0 (ProposalView vote) (Some (NewSignToOld (GetSignsInfo new))).

(** ** Lists of validators *)

Fixpoint AddressEqual (a b : list string) : bool :=
  match a, b with
  | [], [] => true
  | x :: a, y :: b => bool_decide (x = y) && AddressEqual a b
  | _, _ => false
  end.

Lemma AddressEqual_spec a b : AddressEqual a b = bool_decide (a = b).
Proof.
  revert b. induction a as [|x a IH]; intros [|y b]; cbn [AddressEqual]; [by rewrite bool_decide_eq_true_2|by rewrite bool_decide_eq_false_2..|].
  rewrite IH. repeat case_bool_decide; naive_solver.
Qed.

Definition MaxMapSize : Z := 1000.

Definition CleanProduceMap (now period : Z) (isProduce : gmap Z bool) : outcome (gmap Z bool) :=
  if (Z.of_nat (size isProduce) <=? MaxMapSize)%Z then Ret isProduce
  else
    key ← div64 (Z.quot now Millisecond) period;
    Ret (filter (fun kv => (sub64 key MaxMapSize < kv.1)%Z) isProduce).

(** ** The replica of a plugin *)

Definition block_of (b : InternalBlock) : Block := mkBlock (slice_of (Blockid b)) (Height b) (slice_of (PreHash b)).

Definition NewSmr (view : Z) (t : QCPendingTree) : SmrState :=
  mkSmr view 0 0 t (GetProposalView (highQC t)) {[ utils_F (GetProposalId (In (root t))) := 0%Z ]} ∅ [].

Definition GetJustifySigns (block : InternalBlock) : option (list QuorumCertSign) := OldSignToNew (GetConsensusStorage block).

(** The signatures of the last three blocks, until one is missing. *)
Fixpoint load_votes (ledger : LedgerRely) (n : nat) (height : Z) (s : SmrState) : SmrState :=
  match n with
  | O => s
  | S n =>
      match QueryBlockHeaderByHeight ledger height with
      | Ret b => load_votes ledger n (sub64 height 1) (LoadVotes s (slice_of (PreHash b)) (GetJustifySigns b))
      | _ => s
      end
  end.

(** [None] when the tree of certificates cannot be made. *)
Definition initBFT (ledger : LedgerRely) (startHeight : Z) : outcome (option SmrState) :=
  let header h := match QueryBlockHeaderByHeight ledger h with Ret b => Some (mkHeader (Blockid b) (Height b)) | _ => None end in
  let tipHeight := Height (QueryTipBlockHeader ledger) in
  qcTree ← InitQCTree header startHeight tipHeight;
  match qcTree with
  | None => Ret None
  | Some t =>
      let restarted := negb (bytes_equal (GetProposalId (genesis t)) (GetProposalId (In (root t)))) in
      let s := NewSmr (if restarted then sub64 tipHeight 1 else startHeight) t in
      Ret (Some (if restarted then load_votes ledger 3 tipHeight s else s))
  end.

(** ** What is stored is what is read back *)

(** The certificate a miner writes into its block is the one the others read:
    the vote and the signatures, nil slices and empty ones being the same, and
    without the commit information, which blocks do not carry. *)
Lemma OldQCToNew_NewToOldQC `{ProtoQCLaws} qc term num bits :
  OldQCToNew (mkStorage (Some (NewToOldQC qc)) term num bits) =
  Ret (mkQC (mkVoteInfo (slice_of (default "" (ProposalId (qc_vote qc)))) (ProposalView (qc_vote qc))
                        (slice_of (default "" (ParentId (qc_vote qc)))) (ParentView (qc_vote qc)))
            None (nil_if_empty (GetSignsInfo qc))).
Proof.
  unfold OldQCToNew, NewToOldQC, OldSignToNew. cbn. rewrite proto_roundtrip. cbn. unfold NewQuorumCert, NewSignToOld. do 2 f_equal.
  f_equal. rewrite <- list_fmap_compose. induction (GetSignsInfo qc) as [|[] l IH]; [done|]. cbn. by f_equal.
Qed.
