(* ===== verification/Tdpos.v ===== *)
(** * Tdpos: the schedule and the miner's part

    [bcs/consensus/tdpos]: [common.go] (configuration, storage of the election),
    [schedule.go] (who may produce a block when, and who the producers of a term
    are) and [tdpos.go] (competing for a slot, checking a block, preparing and
    confirming one).  The contract of the same package is in the file TdposContract.

    Time is an argument: each reading of the clock is one, in nanoseconds.  The
    plugin sees the chain through [LedgerRely] and drives the replica of the file
    Smr when chained BFT is on. *)

From Stdlib Require Import ZArith Lia Ascii.
From stdpp Require Import base gmap strings list numbers sorting.
From S2P Require Import Prelude GoValues LedgerHash QCTree Smr Consensus.

Set Default Proof Using "Type".

(** ** Constants *)

Definition tdposBucket : string := "$tdpos".
Definition xposBucket : string := "$xpos".
Definition nominateKey : string := "nominate".
Definition voteKeyPrefix : string := "vote_".
Definition revokeKey : string := "revoke".

Definition ErrInvalidProposer : string := "invalid proposer".
Definition ErrTimeoutBlock : string := "new block is out of date".
Definition ErrHeightTooLow : string := "target height is lower than 4".
Definition ErrValueNotFound : string := "value not found, please check your input parameters".
Definition ErrSchedule : string := "minerScheduling overflow".

(** ** Configuration *)

Record tdposConfig := mkConfig {
  cfg_Version : Z; ProposerNum : Z; Period : Z; AlternateInterval : Z; TermInterval : Z; BlockNum : Z;
  VoteUnitPrice : Z; InitTimestamp : Z; InitProposer : gmap string (list string); EnableBFT : option (gmap string bool)
}.

Section Config.
Context `{MapOrder}.

Definition int64_keys : gmap string Z :=
  list_to_map ((fun k => (k, 0%Z)) <$> ["version"; "proposer_num"; "period"; "alternate_interval"; "term_interval"; "block_num"; "timestamp"]).

(** The numbers are strings; a member of another type makes the assertion panic. *)
Fixpoint read_int64s (consCfg : list (string * json)) (keys : list string) (int64Map : gmap string Z) : outcome (gmap string Z) :=
  match keys with
  | [] => Ret int64Map
  | k :: keys =>
      match obj_get k consCfg with
      | None => if bool_decide (k = "version") then read_int64s consCfg keys int64Map
                else Err ("marshal consensus config failed key " +:+ k +:+ " unset")
      | Some (JStr v) =>
          match ParseInt64 v with
          | None => Err ("marshal consensus config failed key " +:+ k +:+ " set error")
          | Some value => read_int64s consCfg keys (<[k := value]> int64Map)
          end
      | Some _ => Panic
      end
  end.

Definition dec_bool (j : json) : option bool :=
  match j with JBool b => Some b | JNull => Some false | _ => None end.

Definition buildConfigs (input : blob) : outcome tdposConfig :=
  match input with
  | Raw _ => Err "invalid character"
  | Doc consCfg =>
      m ← read_int64s consCfg (map_keys int64_keys) int64_keys;
      match obj_get "vote_unit_price" consCfg with
      | Some (JStr p) =>
          let (price, ok) := SetString p in
          if negb ok then Err "vote_unit_price set error"
          else
            match field (dec_map dec_strings) "init_proposer" consCfg None, field (dec_map dec_bool) "bft_config" consCfg None with
            | Some init, Some bft =>
                match init with
                | None => Err "init_proposer is required"
                | Some init =>
                    match init !! "1" with
                    | None | Some [] => Err "init_proposer 1 is required"
                    | Some _ =>
                        let int k := default 0%Z (m !! k) in
                        Ret (mkConfig (int "version") (int "proposer_num") (int "period") (int "alternate_interval") (int "term_interval")
                                      (int "block_num") price (int "timestamp") init bft)
                    end
                end
            | _, _ => Err "unmarshal to temp struct failed"
            end
      | _ => Panic
      end
  end.
End Config.

(** ** The stored election *)

(** Candidate to nominator to amount; voter to ballots. *)
Definition nominateValue : Type := gmap string (gmap string Z).
Definition voteValue : Type := gmap string Z.

Definition dec_ballot (j : json) : option Z := match j with JNull => Some 0%Z | _ => dec_int64 j end.
Definition dec_record (j : json) : option (gmap string Z) := default ∅ <$> dec_map dec_ballot j.
Definition unmarshal_map {A} (dec : json -> option A) (res : blob) : option (gmap string A) :=
  match res with
  | Raw t => if bool_decide (t = "null") then Some ∅ else None
  | Doc l => map_of_obj dec l ∅
  end.
Definition UnmarshalNominate (res : blob) : option nominateValue := unmarshal_map dec_record res.
Definition UnmarshalVote (res : blob) : option voteValue := unmarshal_map dec_ballot res.

Definition election_key (name : string) (version : Z) (k : string) : string := name +:+ "_" +:+ bigString version +:+ "_" +:+ k.

(** ** The schedule *)

Record tdposSchedule := mkSchedule {
  address : string; period : Z; blockNum : Z; proposerNum : Z; alternateInterval : Z; termInterval : Z; initTimestamp : Z;
  enableChainedBFT : bool; validators : list string; initValidators : list string; curTerm : Z; miner : string;
  startHeight : Z; consensusName : string; consensusVersion : Z; bindContractBucket : string
}.

Definition set_validators (s : tdposSchedule) (v : list string) : tdposSchedule :=
  mkSchedule (address s) (period s) (blockNum s) (proposerNum s) (alternateInterval s) (termInterval s) (initTimestamp s)
    (enableChainedBFT s) v (initValidators s) (curTerm s) (miner s) (startHeight s) (consensusName s) (consensusVersion s) (bindContractBucket s).
Definition set_term (s : tdposSchedule) (term : Z) (m : string) : tdposSchedule :=
  mkSchedule (address s) (period s) (blockNum s) (proposerNum s) (alternateInterval s) (termInterval s) (initTimestamp s)
    (enableChainedBFT s) (validators s) (initValidators s) term m (startHeight s) (consensusName s) (consensusVersion s) (bindContractBucket s).

(** The term, the position among the producers and the number of the block of an
    instant; [-1] between two slots; all zero before the first term. *)
Definition minerScheduling (s : tdposSchedule) (timestamp : Z) : outcome (Z * Z * Z) :=
  if (timestamp <? initTimestamp s)%Z then Ret (0, 0, 0)%Z
  else
    let T := Z.quot timestamp Millisecond in
    let initT := Z.quot (initTimestamp s) Millisecond in
    let termTime := add64 (add64 (termInterval s) (mul64 (mul64 (sub64 (blockNum s) 1) (proposerNum s)) (period s)))
                          (mul64 (sub64 (proposerNum s) 1) (alternateInterval s)) in
    q ← div64 (sub64 T initT) termTime;
    let term := add64 q 1 in
    let termBegin := sub64 (add64 (add64 initT (mul64 (sub64 term 1) termTime)) (termInterval s)) (alternateInterval s) in
    if (T <=? termBegin)%Z then Ret (term, 0, -1)%Z
    else
      let posTime := add64 (alternateInterval s) (mul64 (period s) (sub64 (blockNum s) 1)) in
      pos ← div64 (sub64 T termBegin) posTime;
      let proposerBegin := sub64 (add64 (add64 termBegin (mul64 pos posTime)) (alternateInterval s)) (period s) in
      if (T <=? proposerBegin)%Z then Ret (term, pos, -1)%Z
      else
        blockPos ← div64 (sub64 T proposerBegin) (period s);
        Ret (term, pos, blockPos).

(** The test that the handlers make of a slot. *)
Definition in_slot (s : tdposSchedule) (pos blockPos : Z) : bool :=
  negb ((blockPos <? 0) || (blockNum s <=? blockPos) || (proposerNum s <=? pos))%Z.

Section Schedule.
Context `{MapOrder}.
Variable ledger : LedgerRely.
Implicit Types s : tdposSchedule.

Definition getSnapshotKey (height : Z) (bucket key : string) : outcome (option blob) :=
  if (height <=? 0)%Z then Err ErrHeightTooLow
  else
    block ← QueryBlockHeaderByHeight ledger height;
    reader ← CreateSnapshot ledger (Blockid block);
    reader bucket key.

(** The ballots of a candidate: [None] when it has none. *)
Definition candidate_ballots (s : tdposSchedule) (height : Z) (candidate : string) : outcome (option Z) :=
  let key := election_key (consensusName s) (consensusVersion s) (voteKeyPrefix +:+ candidate) in
  res ← getSnapshotKey (sub64 height 3) (bindContractBucket s) key;
  match res with
  | None => Ret None
  | Some res =>
      match UnmarshalVote res with
      | None => Err "json: cannot unmarshal into Go value"
      | Some votes =>
          let ballots := foldl add64 0%Z (map_values votes) in
          Ret (if (ballots <=? 0)%Z then None else Some ballots)
      end
  end.

Record termBallots := mkTermBallots { tb_Address : string; Ballots : Z }.

Fixpoint collect_ballots (s : tdposSchedule) (height : Z) (candidates : list string) : outcome (list termBallots) :=
  match candidates with
  | [] => Ret []
  | candidate :: rest =>
      b ← candidate_ballots s height candidate;
      l ← collect_ballots s height rest;
      Ret (match b with None => l | Some n => mkTermBallots candidate n :: l end)
  end.

(** [termBallotsSlice.Less], of two candidates: more ballots first, then the
    greater address. *)
Definition Less (a b : termBallots) : bool :=
  if (Ballots b =? Ballots a)%Z then bool_decide (str_lt (tb_Address b) (tb_Address a)) else (Ballots b <? Ballots a)%Z.
Definition not_less (a b : termBallots) : Prop := Less b a = false.
#[global] Instance not_less_dec : RelDecision not_less.
Proof. intros a b. unfold not_less. apply _. Defined.

Definition calTopKNominator (s : tdposSchedule) (height : Z) : outcome (list string) :=
  if (height <? add64 (startHeight s) 3)%Z then Ret (initValidators s)
  else
    let nKey := election_key (consensusName s) (consensusVersion s) nominateKey in
    res ← getSnapshotKey (sub64 height 3) (bindContractBucket s) nKey;
    match res with
    | None => Ret (initValidators s)
    | Some res =>
        match UnmarshalNominate res with
        | None => Err "json: cannot unmarshal into Go value"
        | Some nominated =>
            termBallotSli ← collect_ballots s height (map_keys nominated);
            if (Z.of_nat (length termBallotSli) <? proposerNum s)%Z then Ret (initValidators s)
            else Ret (tb_Address <$> take (Z.to_nat (proposerNum s)) (merge_sort not_less termBallotSli))
        end
    end.

(** The term a block says it belongs to; its storage always parses
    ([GetConsensusStorage]). *)
Definition getTerm (pos : Z) : outcome Z :=
  b ← QueryBlockHeaderByHeight ledger pos;
  Ret (cs_CurTerm (GetConsensusStorage b)).

(** The loop halves the interval; its length is fuel enough. *)
Fixpoint binary_search (fuel : nat) (begin end_ term : Z) : outcome Z :=
  match fuel with
  | O => Panic
  | S fuel =>
      if (begin <? end_)%Z then
        let mid := add64 begin (quot64 (sub64 end_ begin) 2) in
        midTerm ← getTerm mid;
        nextMidTerm ← getTerm (add64 mid 1);
        if (midTerm <? term)%Z && (nextMidTerm =? term)%Z then Ret mid
        else if (midTerm <? term)%Z then binary_search fuel (add64 mid 1) end_ term
        else binary_search fuel begin mid term
      else Ret begin
  end.
Definition binarySearch (begin end_ term : Z) : outcome Z := binary_search (S (Z.to_nat (end_ - begin))) begin end_ term.

(** The validators of a block of the chain: those elected at the last block of
    the term before. *)
Definition calHisValidators (s : tdposSchedule) (height : Z) : outcome (list string) :=
  block ← QueryBlockHeaderByHeight ledger height;
  '(term, pos, blockPos) ← minerScheduling s (Timestamp block);
  let internal := add64 (mul64 pos (blockNum s)) blockPos in
  let begin := sub64 (sub64 (Height block) internal) 1 in
  let begin := if (begin <=? startHeight s)%Z then startHeight s else begin in
  targetHeight ← binarySearch begin (Height block) term;
  calTopKNominator s targetHeight.

Definition CalOldProposers (s : tdposSchedule) (height timestamp : Z) (storage : ConsensusStorage) : outcome (list string) :=
  if (height <? add64 (startHeight s) 3)%Z then Ret (initValidators s)
  else
    let tipHeight := Height (QueryTipBlockHeader ledger) in
    if (height <? tipHeight)%Z then calHisValidators s height
    else
      tipTerm ← getTerm tipHeight;
      '(inputTerm, _, _) ← minerScheduling s timestamp;
      if (tipTerm =? inputTerm)%Z then calHisValidators s tipHeight
      else
        let targetHeight := if enableChainedBFT s && negb (cs_TargetBits storage =? 0)%Z then cs_TargetBits storage else tipHeight in
        calTopKNominator s targetHeight.

Definition calAddTime (s : tdposSchedule) (now round tipHeight : Z) : outcome Z :=
  '(_, nowPos, nowBlockPos) ← minerScheduling s now;
  if (round <=? tipHeight)%Z then Ret 0%Z
  else if (nowPos =? sub64 (proposerNum s) 1)%Z && (nowBlockPos =? sub64 (blockNum s) 1)%Z then Ret (mul64 (termInterval s) Millisecond)
  else if (nowBlockPos =? sub64 (blockNum s) 1)%Z then Ret (mul64 (alternateInterval s) Millisecond)
  else Ret (mul64 (period s) Millisecond).

Definition CalculateProposers (s : tdposSchedule) (now1 now2 height : Z) : outcome (list string) :=
  if (height <? add64 (startHeight s) 3)%Z then Ret (initValidators s)
  else
    addTime ← calAddTime s now1 height (Height (QueryTipBlockHeader ledger));
    '(inputTerm, _, _) ← minerScheduling s (add64 now2 addTime);
    if (curTerm s =? inputTerm)%Z then Ret (validators s) else calTopKNominator s height.

(** [UpdateProposers]: an error or an empty list leaves the validators. *)
Definition UpdateProposers (s : tdposSchedule) (now1 now2 height : Z) : outcome (bool * tdposSchedule) :=
  if (height <? add64 (startHeight s) 3)%Z then Ret (false, s)
  else
    match CalculateProposers s now1 now2 height with
    | Panic => Panic
    | Err _ | Ret [] => Ret (false, s)
    | Ret nextProposers =>
        if negb (AddressEqual nextProposers (validators s)) then Ret (true, set_validators s nextProposers) else Ret (false, s)
    end.

(** [None] is nil. *)
Definition GetValidators (s : tdposSchedule) (now1 now2 round : Z) : outcome (option (list string)) :=
  if (round <? add64 (startHeight s) 3)%Z then Ret (Some (initValidators s))
  else
    match (match QueryBlockHeaderByHeight ledger round with
           | Ret block => CalOldProposers s round (Timestamp block) (GetConsensusStorage block)
           | Err _ => CalculateProposers s now1 now2 round
           | Panic => Panic
           end) with
    | Ret proposers => Ret (Some proposers)
    | Err _ => Ret None
    | Panic => Panic
    end.

Definition GetLeader (s : tdposSchedule) (now1 now2 now3 now4 round : Z) : outcome string :=
  match QueryBlockHeaderByHeight ledger round with
  | Ret b => Ret (Proposer b)
  | Panic => Panic
  | Err _ =>
      proposers ← GetValidators s now1 now2 round;
      match proposers with
      | None => Ret ""
      | Some proposers =>
          addTime ← calAddTime s now3 round (Height (QueryTipBlockHeader ledger));
          '(_, pos, _) ← minerScheduling s (add64 now4 addTime);
          if (proposerNum s <=? pos)%Z then Ret "" else index64 proposers pos
      end
  end.

(** [None] when no schedule is made. *)
Definition NewSchedule (xconfig : tdposConfig) (start : Z) : outcome (option tdposSchedule) :=
  let init := default [] (InitProposer xconfig !! "1") in
  let s := mkSchedule "" (Period xconfig) (BlockNum xconfig) (ProposerNum xconfig) (AlternateInterval xconfig) (TermInterval xconfig)
             (InitTimestamp xconfig) false init init 0 "" start "tdpos" (cfg_Version xconfig) tdposBucket in
  let tipBlock := GetTipBlock ledger in
  let finish (refresh : list string) :=
    let s := if negb (AddressEqual (validators s) refresh) && negb (bool_decide (refresh = [])) then set_validators s refresh else s in
    match EnableBFT xconfig with
    | None => s
    | Some _ => mkSchedule (address s) (period s) (blockNum s) (proposerNum s) (alternateInterval s) (termInterval s) (initTimestamp s)
                  true (validators s) (initValidators s) (curTerm s) (miner s) (startHeight s) "xpos" (consensusVersion s) xposBucket
    end in
  match CalOldProposers s (Height tipBlock) (Timestamp tipBlock) (GetConsensusStorage tipBlock) with
  | Ret refresh => Ret (Some (finish refresh))
  | Err e => if bool_decide (e = ErrHeightTooLow) then Ret (Some (finish [])) else Ret None
  | Panic => Panic
  end.
End Schedule.

(** ** The plugin *)

Record tdposConsensus := mkTdpos { isProduce : gmap Z bool; election : tdposSchedule; smr : SmrState }.

Section Plugin.
Context `{MapOrder} `{ProtoQC}.
Variable ledger : LedgerRely.
(** The cryptography of the replica. *)
Variable VerifyVoteMsgSign : QuorumCertSign -> bytes -> bool * option string.
Variable SignVoteMsg : bytes -> outcome QuorumCertSign.
Variable SignProposalMsg : Z -> bytes -> Z -> JustifyQC -> outcome QuorumCertSign.

Definition needSync (s : tdposSchedule) : bool :=
  let tipBlock := GetTipBlock ledger in
  if (Height tipBlock =? 0)%Z then true else negb (bool_decide (Proposer tipBlock = address s)).

(** One pass takes two readings of the clock, and the one that finds a slot up to
    two more; [None] while the node is still waiting. *)
Fixpoint CompeteMaster (clock : list Z) (tp : tdposConsensus) : option (outcome (bool * bool) * tdposConsensus) :=
  match clock with
  | now1 :: now2 :: clock =>
      let s := election tp in
      match div64 (Z.quot now1 Millisecond) (period s) with
      | Ret key =>
          match isProduce tp !! key with
          | Some _ =>
              match CleanProduceMap now2 (period s) (isProduce tp) with
              | Ret cleaned => CompeteMaster clock (mkTdpos cleaned s (smr tp))
              | _ => Some (Panic, tp)
              end
          | None =>
              let tp := mkTdpos (<[key := true]> (isProduce tp)) s (smr tp) in
              match minerScheduling s now2 with
              | Ret (term, pos, blockPos) =>
                  if negb (in_slot s pos blockPos) then CompeteMaster clock tp
                  else
                    match clock with
                    | now3 :: now4 :: _ =>
                        match (if (curTerm s <? term)%Z then UpdateProposers ledger s now3 now4 (Height (QueryTipBlockHeader ledger))
                               else Ret (false, s)) with
                        | Ret (_, s) =>
                            match index64 (validators s) pos with
                            | Ret m =>
                                let s := set_term s term m in
                                let tp := mkTdpos (isProduce tp) s (smr tp) in
                                if bool_decide (m = address s) then Some (Ret (true, needSync s), tp) else Some (Ret (false, false), tp)
                            | _ => Some (Panic, mkTdpos (isProduce tp) (set_term s term (miner s)) (smr tp))
                            end
                        | _ => Some (Panic, tp)
                        end
                    | _ => None
                    end
              | _ => Some (Panic, tp)
              end
          end
      | _ => Some (Panic, tp)
      end
  | _ => None
  end.

(** The justify of the block is certified by the validators of its parent. *)
Definition check_justify (tp : tdposConsensus) (block : InternalBlock) : outcome bool :=
  justify ← OldQCToNew (GetConsensusStorage block);
  match QueryBlockHeader ledger (PreHash block) with
  | Ret preBlock =>
      vals ← CalOldProposers ledger (election tp) (Height preBlock) (Timestamp preBlock) (GetConsensusStorage preBlock);
      _ ← CheckProposal VerifyVoteMsgSign (smr tp) (In (blockToProposalNode (smr tp) (block_of block))) justify (nil_if_empty vals);
      Ret true
  | _ => Panic
  end.

Definition CheckMinerMatch (tp : tdposConsensus) (block : InternalBlock) : outcome bool :=
  let s := election tp in
  '(_, pos, blockPos) ← minerScheduling s (Timestamp block);
  if negb (in_slot s pos blockPos) then Err ErrValueNotFound
  else
    wantProposers ← CalOldProposers ledger s (Height block) (Timestamp block) (GetConsensusStorage block);
    want ← index64 wantProposers pos;
    if negb (bool_decide (want = Proposer block)) then Err ErrInvalidProposer
    else if negb (enableChainedBFT s) then Ret true
    else if (Height block <=? startHeight s)%Z then Ret true
    else check_justify tp block.

(** The election as the replica asks it; a panic of the schedule is taken for nil. *)
Definition election_validators (s : tdposSchedule) (now1 now2 : Z) (round : Z) : option (list string) :=
  match GetValidators ledger s now1 now2 round with Ret v => v | _ => None end.

Definition query_block (id : bytes) : option Block :=
  match QueryBlockHeader ledger (default "" id) with Ret b => Some (block_of b) | _ => None end.

(** The block to go back to, if any, and the storage of the new block.  The tip's
    height is kept in 32 bits. *)
Definition ProcessBeforeMiner (now1 now2 timestamp : Z) : M tdposConsensus (bytes * ConsensusStorage) := fun tp =>
  let s := election tp in
  match minerScheduling s timestamp with
  | Ret (term, pos, blockPos) =>
      if negb (in_slot s pos blockPos) || negb (term =? curTerm s)%Z then (Err ErrTimeoutBlock, tp)
      else
        match index64 (validators s) pos with
        | Ret v =>
            if negb (bool_decide (v = address s)) then (Err ErrTimeoutBlock, tp)
            else if negb (enableChainedBFT s) then (Ret (None, mkStorage None (curTerm s) blockPos 0), tp)
            else
              let tipBlock := GetTipBlock ledger in
              match ResetProposerStatus (election_validators s now1 now2) (Z.to_nat (Height tipBlock) + 2) query_block (block_of tipBlock) (validators s) (smr tp) with
              | (Ret (truncate, qc), sm) =>
                  let tp := mkTdpos (isProduce tp) s sm in
                  if truncate then (Ret (GetProposalId qc, mkStorage (Some (NewToOldQC qc)) (curTerm s) blockPos (wrap32 (Height tipBlock))), tp)
                  else (Ret (None, mkStorage (Some (NewToOldQC qc)) (curTerm s) blockPos 0), tp)
              | (Err e, sm) => (Err e, mkTdpos (isProduce tp) s sm)
              | (Panic, sm) => (Panic, mkTdpos (isProduce tp) s sm)
              end
        | _ => (Panic, tp)
        end
  | _ => (Panic, tp)
  end.

Definition ProcessConfirmBlock (now now1 now2 : Z) (block : InternalBlock) : M tdposConsensus unit := fun tp =>
  let s := election tp in
  if negb (enableChainedBFT s) then (Ret tt, tp)
  else
    match (if (startHeight s <? Height block)%Z then Some <$> OldQCToNew (GetConsensusStorage block) else Ret None) with
    | Ret justify =>
        match minerScheduling s (Timestamp block) with
        | Ret (_, pos, blockPos) =>
            if negb (in_slot s pos blockPos) then (Err ErrSchedule, tp)
            else
              match index64 (validators s) pos with
              | Ret v =>
                  let nextValidators :=
                    if bool_decide (v = address s) && bool_decide (Proposer block = address s)
                    then GetValidators ledger s now1 now2 (add64 (Height block) 1) else Ret None in
                  match nextValidators with
                  | Ret nextValidators =>
                      let (r, sm) := KeepUpWithBlock (address s) SignVoteMsg SignProposalMsg now (block_of block) justify nextValidators (smr tp) in
                      (r, mkTdpos (isProduce tp) s sm)
                  | _ => (Panic, tp)
                  end
              | _ => (Panic, tp)
              end
        | _ => (Panic, tp)
        end
    | Err e => (Err e, tp)
    | Panic => (Panic, tp)
    end.
End Plugin.
