(* ===== verification/TdposSlots.v ===== *)
(** * Tdpos: the slots of the schedule

    The arithmetic of [minerScheduling] (file Tdpos) as a partition of time: every
    instant belongs to at most one slot, slots are ordered like time, and every
    validator has its blocks in every term. *)

From Stdlib Require Import ZArith Lia Ascii.
From stdpp Require Import base gmap strings list numbers sorting.
From S2P Require Import Prelude GoValues LedgerHash QCTree Smr Consensus Tdpos.

Set Default Proof Using "Type".
Local Open Scope Z_scope.

(** ** A configuration that makes sense *)

Definition termTime (s : tdposSchedule) : Z := termInterval s + (blockNum s - 1) * proposerNum s * period s + (proposerNum s - 1) * alternateInterval s.
Definition posTime (s : tdposSchedule) : Z := alternateInterval s + period s * (blockNum s - 1).

(** The intervals are ordered as the comment of [minerScheduling] asks, and a term
    is shorter than two to the 62 milliseconds. *)
Record config_ok (s : tdposSchedule) : Prop := {
  ok_period : 0 < period s;
  ok_alternate : period s <= alternateInterval s;
  ok_interval : alternateInterval s <= termInterval s;
  ok_blocks : 1 <= blockNum s;
  ok_proposers : 1 <= proposerNum s;
  ok_term : termTime s < 2 ^ 62;
  ok_init : 0 <= initTimestamp s
}.

(** A moment of the clock in milliseconds since the first term began. *)
Definition elapsed (s : tdposSchedule) (timestamp : Z) : Z := timestamp / Millisecond - initTimestamp s / Millisecond.

(** The slot of block [b] of the producer [pos] in a term begins so many
    milliseconds after the first term did. *)
Definition slot_begin (s : tdposSchedule) (term pos b : Z) : Z :=
  (term - 1) * termTime s + (termInterval s - alternateInterval s) + pos * posTime s + (alternateInterval s - period s) + b * period s.

Record slot_of (s : tdposSchedule) (timestamp term pos b : Z) : Prop := {
  so_term : 1 <= term;
  so_pos : 0 <= pos < proposerNum s;
  so_block : 0 <= b < blockNum s;
  so_begin : slot_begin s term pos b <= elapsed s timestamp;
  so_end : elapsed s timestamp < slot_begin s term pos b + period s;
  so_first : slot_begin s term pos 0 < elapsed s timestamp
}.

Section Slots.
Variable s : tdposSchedule.
Hypothesis ok : config_ok s.

Lemma termTime_split : termTime s = (termInterval s - alternateInterval s) + proposerNum s * posTime s.
Proof using Type. unfold termTime, posTime. ring. Qed.

Lemma posTime_pos : period s * blockNum s <= posTime s /\ 0 < posTime s.
Proof using ok. destruct ok. unfold posTime. nia. Qed.

Lemma termTime_pos : 0 < termTime s /\ posTime s <= termTime s /\ termInterval s <= termTime s.
Proof using ok.
  pose proof posTime_pos. destruct ok. rewrite termTime_split.
  assert (posTime s <= proposerNum s * posTime s) by nia.
  split_and!; [nia|lia|]. unfold posTime in *. nia.
Qed.

(** The machine computes the term's length. *)
Lemma termTime_machine :
  add64 (add64 (termInterval s) (mul64 (mul64 (sub64 (blockNum s) 1) (proposerNum s)) (period s))) (mul64 (sub64 (proposerNum s) 1) (alternateInterval s)) = termTime s.
Proof using ok.
  destruct ok. pose proof termTime_pos as (Ht & Hp & Hti). pose proof posTime_pos as [Hq Hq'].
  assert (0 <= (blockNum s - 1) * proposerNum s) by nia.
  assert ((blockNum s - 1) * proposerNum s <= (blockNum s - 1) * proposerNum s * period s) by nia.
  assert (0 <= (proposerNum s - 1) * alternateInterval s) by nia.
  assert (blockNum s <= posTime s) by nia. assert (proposerNum s <= proposerNum s * posTime s) by nia.
  assert (proposerNum s <= termTime s) by (rewrite termTime_split; nia).
  unfold termTime in *.
  unwrap64. lia.
Qed.

Lemma posTime_machine : add64 (alternateInterval s) (mul64 (period s) (sub64 (blockNum s) 1)) = posTime s.
Proof using ok.
  destruct ok. pose proof termTime_pos as (Ht & Hp & Hti). pose proof posTime_pos as [Hq Hq'].
  unfold posTime in *. assert (blockNum s <= period s * blockNum s) by nia. assert (0 <= period s * (blockNum s - 1)) by nia.
  unwrap64. lia.
Qed.

(** ** The schedule, without the machine *)

Definition scheduled (timestamp : Z) : Z * Z * Z :=
  let e := elapsed s timestamp in
  let term := e / termTime s + 1 in
  let r := e mod termTime s in
  let q := r - (termInterval s - alternateInterval s) in
  if q <=? 0 then (term, 0, -1)
  else
    let pos := q / posTime s in
    let o := q mod posTime s - (alternateInterval s - period s) in
    if o <=? 0 then (term, pos, -1) else (term, pos, o / period s).

Lemma minerScheduling_scheduled timestamp : is_int64 timestamp -> initTimestamp s <= timestamp -> minerScheduling s timestamp = Ret (scheduled timestamp).
Proof using ok.
  intros H64 Hge. pose proof termTime_pos as (Ht & Hpt & Hti). pose proof posTime_pos as [Hq Hq']. pose proof termTime_machine as Etm. pose proof posTime_machine as Epm.
  destruct ok. unfold minerScheduling. rewrite (proj2 (Z.ltb_ge _ _)) by lia. rewrite Etm, Epm. clear Etm Epm.
  rewrite !Z.quot_div_nonneg by (unfold Millisecond; lia).
  set (T := timestamp / Millisecond). set (I := initTimestamp s / Millisecond).
  assert (0 <= I <= T) as HIT. { unfold I, T, Millisecond. split; [apply Z.div_pos; lia|apply Z.div_le_mono; lia]. }
  assert (T < 2 ^ 44) as HT. { unfold is_int64, int64_max in H64. unfold T, Millisecond. apply Z.div_lt_upper_bound; lia. }
  unfold scheduled, elapsed. fold T I. set (e := T - I).
  assert (sub64 T I = e) as -> by (unwrap64; lia).
  pose proof (Z.div_mod e (termTime s) ltac:(lia)) as Hdm. pose proof (Z.mod_pos_bound e (termTime s) ltac:(lia)) as Hmb.
  assert (0 <= e / termTime s) by (apply Z.div_pos; lia). assert (e / termTime s <= e) by (apply Z.div_le_upper_bound; nia).
  set (k := e / termTime s) in *. set (r := e mod termTime s) in *.
  rewrite div64_ret by (unfold int64_max; lia). fold k. rewrite obind_ret.
  assert (add64 k 1 = k + 1) as -> by (unwrap64; lia).
  assert (sub64 (k + 1) 1 = k) as -> by (unwrap64; lia).
  assert (0 <= k * termTime s <= e) by nia.
  assert (sub64 (add64 (add64 I (mul64 k (termTime s))) (termInterval s)) (alternateInterval s) = T - (r - (termInterval s - alternateInterval s))) as ->.
  { unwrap64. lia. }
  set (q := r - (termInterval s - alternateInterval s)).
  destruct (Z.leb_spec T (T - q)); destruct (Z.leb_spec q 0); [done|lia|lia|].
  assert (sub64 T (T - q) = q) as -> by (unwrap64; lia).
  rewrite div64_ret by (unfold int64_max; lia). rewrite obind_ret.
  pose proof (Z.div_mod q (posTime s) ltac:(lia)) as Hdm2. pose proof (Z.mod_pos_bound q (posTime s) ltac:(lia)) as Hmb2.
  assert (0 <= q / posTime s) by (apply Z.div_pos; lia). assert (q / posTime s <= q) by (apply Z.div_le_upper_bound; nia).
  set (p := q / posTime s) in *. set (o := q mod posTime s) in *.
  assert (0 <= p * posTime s <= q) by nia.
  assert (sub64 (add64 (add64 (T - q) (mul64 p (posTime s))) (alternateInterval s)) (period s) = T - (o - (alternateInterval s - period s))) as ->.
  { unwrap64. lia. }
  set (o' := o - (alternateInterval s - period s)).
  destruct (Z.leb_spec T (T - o')); destruct (Z.leb_spec o' 0); [done|lia|lia|].
  assert (sub64 T (T - o') = o') as -> by (unwrap64; lia).
  by rewrite div64_ret by (unfold int64_max; lia).
Qed.

Lemma elapsed_nonneg timestamp : initTimestamp s <= timestamp -> 0 <= elapsed s timestamp.
Proof using Type. intros. unfold elapsed. assert (initTimestamp s / Millisecond <= timestamp / Millisecond) by (apply Z.div_le_mono; unfold Millisecond; lia). lia. Qed.

Lemma scheduled_cases timestamp term pos b : initTimestamp s <= timestamp -> scheduled timestamp = (term, pos, b) ->
  term = elapsed s timestamp / termTime s + 1 /\ 0 <= pos < proposerNum s /\ (b = -1 \/ slot_of s timestamp term pos b).
Proof using ok.
  intros Hge E. pose proof (elapsed_nonneg _ Hge) as He. pose proof termTime_pos as (Ht & Hpt & Hti). pose proof posTime_pos as [Hq Hq']. pose proof termTime_split as Hsp.
  destruct ok. unfold scheduled in E. set (e := elapsed s timestamp) in *.
  pose proof (Z.div_mod e (termTime s) ltac:(lia)) as Hdm. pose proof (Z.mod_pos_bound e (termTime s) ltac:(lia)) as Hmb.
  assert (0 <= e / termTime s) by (apply Z.div_pos; lia). set (k := e / termTime s) in *. set (r := e mod termTime s) in *.
  set (q := r - (termInterval s - alternateInterval s)) in *. destruct (Z.leb_spec q 0); [simplify_eq; lia|].
  pose proof (Z.div_mod q (posTime s) ltac:(lia)) as Hdm2. pose proof (Z.mod_pos_bound q (posTime s) ltac:(lia)) as Hmb2.
  assert (0 <= q / posTime s < proposerNum s) by (split; [apply Z.div_pos; lia|apply Z.div_lt_upper_bound; lia]).
  set (p := q / posTime s) in *. set (o := q mod posTime s) in *. set (o' := o - (alternateInterval s - period s)) in *.
  destruct (Z.leb_spec o' 0); simplify_eq; [lia|]. split_and!; [done|lia..|]. right.
  pose proof (Z.div_mod o' (period s) ltac:(lia)) as Hdm3. pose proof (Z.mod_pos_bound o' (period s) ltac:(lia)) as Hmb3.
  assert (0 <= o' / period s < blockNum s) by (split; [apply Z.div_pos; lia|apply Z.div_lt_upper_bound; [lia|unfold posTime in *; lia]]).
  split; [lia..| | |]; unfold slot_begin; nia.
Qed.

Lemma slot_scheduled timestamp term pos b : slot_of s timestamp term pos b -> scheduled timestamp = (term, pos, b).
Proof using ok.
  intros [H1 H2 H3 H4 H5 H6]. pose proof termTime_pos as (Ht & Hpt & Hti). pose proof posTime_pos as [Hq Hq']. pose proof termTime_split as Hsp. destruct ok.
  unfold slot_begin in *. unfold scheduled. set (e := elapsed s timestamp) in *. set (base := termInterval s - alternateInterval s) in *.
  assert (b * period s + period s <= posTime s - alternateInterval s + period s) by (unfold posTime; nia).
  assert ((pos + 1) * posTime s <= proposerNum s * posTime s) by nia. assert (0 <= pos * posTime s) by nia. assert (0 <= b * period s) by nia.
  assert (e / termTime s = term - 1) as Ek by (symmetry; apply (Z.div_unique e _ _ (e - termTime s * (term - 1))); [left; nia|lia]).
  assert (e mod termTime s = e - termTime s * (term - 1)) as -> by (symmetry; apply (Z.mod_unique e _ (term - 1)); [left; nia|lia]). rewrite Ek.
  set (q := e - termTime s * (term - 1) - base). assert (pos * posTime s + (alternateInterval s - period s) < q) by (unfold q; nia).
  assert (q < (pos + 1) * posTime s) by (unfold q; nia).
  rewrite (proj2 (Z.leb_gt q 0)) by lia.
  assert (q / posTime s = pos) as -> by (symmetry; apply (Z.div_unique q _ _ (q - posTime s * pos)); [left; nia|lia]).
  assert (q mod posTime s = q - posTime s * pos) as -> by (symmetry; apply (Z.mod_unique q _ pos); [left; nia|lia]).
  set (o := q - posTime s * pos - (alternateInterval s - period s)). rewrite (proj2 (Z.leb_gt o 0)) by (unfold o; lia).
  assert (o / period s = b) as -> by (symmetry; apply (Z.div_unique o _ _ (o - period s * b)); [left; unfold o, q; nia|lia]).
  by replace (term - 1 + 1) with term by lia.
Qed.

(** Later instants are not in earlier slots. *)
Lemma slots_ordered t1 t2 term1 pos1 b1 term2 pos2 b2 : t1 <= t2 -> slot_of s t1 term1 pos1 b1 -> slot_of s t2 term2 pos2 b2 ->
  term1 <= term2 /\ (term1 = term2 -> pos1 * blockNum s + b1 <= pos2 * blockNum s + b2).
Proof using ok.
  intros Hle [A1 A2 A3 A4 A5 _] [B1 B2 B3 B4 B5 _]. pose proof termTime_pos as (Ht & Hpt & Hti). pose proof posTime_pos as [Hq Hq']. pose proof termTime_split as Hsp. destruct ok.
  assert (elapsed s t1 <= elapsed s t2) as He. { unfold elapsed. assert (t1 / Millisecond <= t2 / Millisecond) by (apply Z.div_le_mono; unfold Millisecond; lia). lia. }
  unfold slot_begin in *. assert (posTime s = alternateInterval s + period s * (blockNum s - 1)) by done.
  assert (forall b, 0 <= b < blockNum s -> 0 <= b * period s <= period s * (blockNum s - 1)) as Hb by (intros; split; [apply Z.mul_nonneg_nonneg|rewrite (Z.mul_comm (period s)); apply Z.mul_le_mono_nonneg_r]; lia).
  pose proof (Hb b1 A3). pose proof (Hb b2 B3).
  assert (forall p, 0 <= p < proposerNum s -> 0 <= p * posTime s <= (proposerNum s - 1) * posTime s) as Hp by (intros; split; [apply Z.mul_nonneg_nonneg|apply Z.mul_le_mono_nonneg_r]; lia).
  pose proof (Hp pos1 A2). pose proof (Hp pos2 B2).
  split.
  - destruct (Z.le_gt_cases term1 term2) as [|Hgt]; [done|]. exfalso. assert (term2 * termTime s <= (term1 - 1) * termTime s) by (apply Z.mul_le_mono_nonneg_r; lia). lia.
  - intros ->. destruct (Z.lt_trichotomy pos1 pos2) as [Hlt|[->|Hgt]].
    + assert ((pos1 + 1) * blockNum s <= pos2 * blockNum s) by (apply Z.mul_le_mono_nonneg_r; lia). lia.
    + assert (b1 <= b2); [|lia]. destruct (Z.le_gt_cases b1 b2) as [|Hgt]; [done|]. assert ((b2 + 1) * period s <= b1 * period s) by (apply Z.mul_le_mono_nonneg_r; lia). lia.
    + exfalso. assert ((pos2 + 1) * posTime s <= pos1 * posTime s) by (apply Z.mul_le_mono_nonneg_r; lia). lia.
Qed.
End Slots.

Lemma in_slot_of s timestamp term pos b : config_ok s -> is_int64 timestamp -> initTimestamp s <= timestamp ->
  minerScheduling s timestamp = Ret (term, pos, b) -> in_slot s pos b = true -> slot_of s timestamp term pos b.
Proof.
  intros ok H64 Hge E Hin. rewrite minerScheduling_scheduled in E by done. injection E as E.
  destruct (scheduled_cases s ok _ _ _ _ Hge E) as (_ & _ & [->|Hs]); [|done]. done.
Qed.

Lemma slot_of_in s timestamp term pos b : slot_of s timestamp term pos b -> in_slot s pos b = true.
Proof. intros [? ? ? _ _ _]. unfold in_slot. rewrite (proj2 (Z.ltb_ge _ _)), !(proj2 (Z.leb_gt _ _)) by lia. done. Qed.

