(* ===== verification/TdposElect.v ===== *)
(** * Tdpos: the validators of a term

    Who is elected from a snapshot ([calTopKNominator]), how the last block of the
    term before is found ([binarySearch]), and that the miner, which takes its
    validators when a term begins, and a node that checks its blocks later agree. *)

From Stdlib Require Import ZArith Lia Ascii.
From stdpp Require Import base gmap strings list numbers sorting.
From S2P Require Import Prelude GoValues LedgerHash QCTree Smr Consensus Tdpos TdposSlots.

Set Default Proof Using "Type".

(** ** The order of the candidates *)

Definition outranks (a b : termBallots) : Prop :=
  (Ballots b < Ballots a)%Z \/ (Ballots a = Ballots b /\ str_lt (tb_Address b) (tb_Address a)).

Lemma not_less_spec a b : not_less a b <-> outranks a b \/ a = b.
Proof.
  destruct a as [a n], b as [b m]. unfold not_less, Less, outranks. cbn. destruct (Z.eqb_spec n m) as [->|Hne].
  - rewrite bool_decide_eq_false. split.
    + intros Hn. destruct (String.compare a b) eqn:E; [right|by destruct Hn|left; right].
      * by apply string_compare_eq in E as ->.
      * split; [done|]. by apply str_lt_gt.
    + intros [[?|[_ Hlt]]|[= ->]] Hlt'; [lia| |by apply str_lt_irrefl in Hlt']. by apply (str_lt_irrefl a), (str_lt_trans a b a).
  - rewrite Z.ltb_ge. split; [intros; left; left; lia|]. intros [[?|[? _]]|[= ? ?]]; lia.
Qed.

Lemma outranks_trans a b c : outranks a b -> outranks b c -> outranks a c.
Proof. unfold outranks. intros [?|[-> ?]] [?|[E ?]]; [left; lia..|]. right. rewrite E. split; [done|]. by eapply str_lt_trans. Qed.
Lemma outranks_irrefl a : ~ outranks a a.
Proof. intros [?|[_ ?%str_lt_irrefl]]; [lia|done]. Qed.

#[global] Instance not_less_trans : Transitive not_less.
Proof. intros a b c. rewrite !not_less_spec. intros [?| ->] [?| ->]; [left; by eapply outranks_trans|by left|by left|by right]. Qed.
#[global] Instance not_less_antisymm : AntiSymm (=) not_less.
Proof. intros a b. rewrite !not_less_spec. intros [H1| ->] [H2|?]; [|done..]. by destruct (outranks_irrefl a (outranks_trans _ _ _ H1 H2)). Qed.
#[global] Instance not_less_total : Total not_less.
Proof.
  intros [a n] [b m]. rewrite !not_less_spec. unfold outranks. cbn.
  destruct (Z.lt_trichotomy n m) as [|[->|]]; [right; left; left; lia| |left; left; left; lia].
  destruct (String.compare a b) eqn:E; [apply string_compare_eq in E as ->; left; by right|right; left; by right|left; left; right; split; [done|by apply str_lt_gt]].
Qed.

(** ** Sums do not depend on the order *)

Lemma foldl_add64 l n : foldl add64 (wrap64 n) l = wrap64 (n + foldr Z.add 0%Z l).
Proof.
  revert n. induction l as [|x l IH]; intros n; cbn [foldl foldr]; [f_equal; lia|].
  unfold add64 at 2. rewrite wrap64_add_l, IH. f_equal. lia.
Qed.

Lemma sum_map_values `{MapOrder} (m : gmap string Z) : foldr Z.add 0%Z (map_values m) = sum_map id m.
Proof.
  transitivity (foldr Z.add 0%Z (map_to_list m).*2).
  - unfold map_values. apply (foldr_permutation_proper (=) Z.add 0%Z); [intros; lia|]. f_equiv. apply range_order_perm.
  - induction m as [|k v m Hk IH] using map_ind; [by rewrite map_to_list_empty|].
    rewrite sum_map_insert_new by done. cbn [id]. rewrite <- IH.
    transitivity (foldr Z.add 0%Z ((k, v) :: map_to_list m).*2); [|done].
    apply (foldr_permutation_proper (=) Z.add 0%Z); [intros; lia|]. f_equiv. by apply map_to_list_insert.
Qed.

(** The ballots of a candidate with the given votes. *)
Definition ballots_of (votes : voteValue) : option Z :=
  let n := wrap64 (sum_map id votes) in if (n <=? 0)%Z then None else Some n.

Lemma sum_ballots `{MapOrder} votes : foldl add64 0%Z (map_values votes) = wrap64 (sum_map id votes).
Proof. rewrite <- sum_map_values. change 0%Z with (wrap64 0). apply foldl_add64. Qed.

Lemma StronglySorted_lookup2 {A} (R : relation A) l : StronglySorted R l -> forall i j a b, (i < j)%nat -> l !! i = Some a -> l !! j = Some b -> R a b.
Proof.
  induction 1 as [|x l _ IH Hx]; intros [|i] [|j] a b Hij Ha Hb; cbn in *; simplify_eq; [lia| |lia|].
  - eapply Forall_lookup_1; [exact Hx|done].
  - apply (IH i j); [lia|done..].
Qed.

(** ** The election *)

(** The candidates with ballots. *)
Definition tally_of (nominated : nominateValue) (votes : string -> voteValue) : gmap string Z :=
  map_imap (fun c _ => ballots_of (votes c)) nominated.

Definition entry (cn : string * Z) : termBallots := mkTermBallots cn.1 cn.2.

(** The first [k] of the ranking. *)
Definition winners (tally : gmap string Z) (k : Z) : list string :=
  tb_Address <$> take (Z.to_nat k) (merge_sort not_less (entry <$> map_to_list tally)).

(** What is to be elected: [k] different candidates, in the order of their rank,
    whom nobody else outranks. *)
Record elected (tally : gmap string Z) (k : Z) (vs : list string) : Prop := {
  el_number : Z.of_nat (length vs) = k;
  el_distinct : NoDup vs;
  el_ranked : forall i j a b, (i < j)%nat -> vs !! i = Some a -> vs !! j = Some b ->
    exists n m, tally !! a = Some n /\ tally !! b = Some m /\ outranks (mkTermBallots a n) (mkTermBallots b m);
  el_member : forall a, a ∈ vs -> is_Some (tally !! a);
  el_best : forall a b n m, a ∈ vs -> b ∉ vs -> tally !! a = Some n -> tally !! b = Some m -> outranks (mkTermBallots a n) (mkTermBallots b m)
}.

Section Election.
Variable tally : gmap string Z.

Local Notation ranking := (merge_sort not_less (entry <$> map_to_list tally)).

Lemma ranking_perm : ranking ≡ₚ entry <$> map_to_list tally.
Proof. apply merge_sort_Permutation. Qed.

Lemma ranking_sorted : StronglySorted not_less ranking.
Proof. apply StronglySorted_merge_sort; apply _. Qed.

Lemma ranking_elem t : t ∈ ranking <-> tally !! tb_Address t = Some (Ballots t).
Proof.
  rewrite ranking_perm, list_elem_of_fmap. split.
  - intros ([c n] & -> & Hin). by apply elem_of_map_to_list in Hin.
  - intros E. exists (tb_Address t, Ballots t). split; [by destruct t|]. by apply elem_of_map_to_list.
Qed.

Lemma ranking_nodup : NoDup (tb_Address <$> ranking).
Proof.
  assert (tb_Address <$> ranking ≡ₚ (map_to_list tally).*1) as ->; [|apply NoDup_fst_map_to_list].
  rewrite ranking_perm, <- list_fmap_compose. done.
Qed.

Lemma ranking_outranks i j a b : (i < j)%nat -> ranking !! i = Some a -> ranking !! j = Some b -> outranks a b.
Proof.
  intros Hij Ha Hb. assert (not_less a b) as Hn by (by apply (StronglySorted_lookup2 _ _ ranking_sorted i j)).
  apply not_less_spec in Hn as [?| ->]; [done|]. exfalso.
  pose proof (NoDup_lookup _ i j (tb_Address b) ranking_nodup) as Hne. rewrite !list_lookup_fmap, Ha, Hb in Hne. specialize (Hne eq_refl eq_refl). lia.
Qed.

Lemma winners_elected k : (0 <= k <= Z.of_nat (size tally))%Z -> elected tally k (winners tally k).
Proof.
  intros Hk. assert (length ranking = size tally) as Hlen by (by rewrite ranking_perm, length_fmap, length_map_to_list).
  assert (forall i a, winners tally k !! i = Some a -> (i < Z.to_nat k)%nat /\ exists t, ranking !! i = Some t /\ tb_Address t = a) as Hlook.
  { intros i a Hi. unfold winners in Hi. rewrite list_lookup_fmap in Hi. apply fmap_Some in Hi as (t & Ht & ->).
    destruct (decide (i < Z.to_nat k)%nat); [|by rewrite lookup_take_ge in Ht by lia]. rewrite lookup_take_lt in Ht by done. eauto. }
  split.
  - unfold winners. rewrite length_fmap, length_take, Hlen. lia.
  - unfold winners. rewrite fmap_take. eapply sublist_NoDup; [apply ranking_nodup|apply sublist_take].
  - intros i j a b Hij Ha Hb. apply Hlook in Ha as (_ & ta & Ha & <-). apply Hlook in Hb as (_ & tb & Hb & <-).
    exists (Ballots ta), (Ballots tb). split_and!; [by apply ranking_elem; eapply list_elem_of_lookup_2..|]. destruct ta, tb. by eapply ranking_outranks.
  - intros a (i & Ha)%list_elem_of_lookup. apply Hlook in Ha as (_ & ta & Ha & <-). eexists. by apply ranking_elem; eapply list_elem_of_lookup_2.
  - intros a b n m (i & Ha)%list_elem_of_lookup Hb En Em. apply Hlook in Ha as (Hi & ta & Ha & <-).
    assert (mkTermBallots b m ∈ ranking) as (j & Hj)%list_elem_of_lookup by (by apply ranking_elem).
    assert (Z.to_nat k <= j)%nat as Hkj.
    { destruct (decide (j < Z.to_nat k)%nat) as [Hlt|]; [|lia]. exfalso. apply Hb. unfold winners. apply list_elem_of_fmap. exists (mkTermBallots b m). split; [done|].
      apply list_elem_of_lookup. exists j. by rewrite lookup_take_lt. }
    assert (tally !! tb_Address ta = Some (Ballots ta)) as Et by (by apply ranking_elem; eapply list_elem_of_lookup_2). rewrite Et in En. injection En as <-.
    destruct ta. eapply (ranking_outranks i j); [lia|done..].
Qed.
End Election.

(** What the snapshot three blocks below a height holds: the nominated candidates
    and, for each, its votes. *)
Record ballot_box (ledger : LedgerRely) (s : tdposSchedule) (height : Z) (nominated : nominateValue) (votes : string -> voteValue) : Prop := {
  bb_nominated : exists doc, getSnapshotKey ledger (sub64 height 3) (bindContractBucket s) (election_key (consensusName s) (consensusVersion s) nominateKey) = Ret (Some doc) /\
    UnmarshalNominate doc = Some nominated;
  bb_votes : forall c, is_Some (nominated !! c) -> exists o,
    getSnapshotKey ledger (sub64 height 3) (bindContractBucket s) (election_key (consensusName s) (consensusVersion s) (voteKeyPrefix +:+ c)) = Ret o /\
    match o with None => votes c = ∅ | Some d => UnmarshalVote d = Some (votes c) end
}.

Lemma collect_spec `{MapOrder} ledger s height nominated votes cands :
  ballot_box ledger s height nominated votes -> (forall c, c ∈ cands -> is_Some (nominated !! c)) ->
  collect_ballots ledger s height cands = Ret (omap (fun c => mkTermBallots c <$> ballots_of (votes c)) cands).
Proof.
  intros Hb. induction cands as [|c cands IH]; intros Hin; [done|]. cbn [collect_ballots omap list_omap].
  assert (candidate_ballots ledger s height c = Ret (ballots_of (votes c))) as ->.
  { unfold candidate_ballots. destruct (bb_votes _ _ _ _ _ Hb c (Hin c ltac:(by left))) as (o & -> & Ho). cbn.
    destruct o as [d|]; [rewrite Ho, sum_ballots; done|]. rewrite Ho. done. }
  cbn. rewrite IH by (intros; apply Hin; by right). cbn. by destruct (ballots_of (votes c)).
Qed.

Lemma collected_perm `{MapOrder} nominated votes :
  omap (fun c => mkTermBallots c <$> ballots_of (votes c)) (map_keys nominated) ≡ₚ entry <$> map_to_list (tally_of nominated votes).
Proof.
  apply NoDup_Permutation.
  - assert (NoDup (map_keys nominated)) as Hnd. { unfold map_keys. rewrite (fmap_Permutation fst _ _ (range_order_perm nominated)). apply NoDup_fst_map_to_list. }
    induction Hnd as [|c l Hc _ IH]; cbn; [constructor|]. destruct (ballots_of (votes c)); cbn; [|done]. constructor; [|done].
    rewrite list_elem_of_omap. intros (c' & Hc' & E). destruct (ballots_of (votes c')); cbn in E; [|done]. by simplify_eq.
  - apply NoDup_fmap_2; [|apply NoDup_map_to_list]. intros [] [] [= -> ->]. done.
  - intros t. rewrite list_elem_of_omap, list_elem_of_fmap. unfold tally_of. split.
    + intros (c & Hc%map_keys_elem & E). destruct (ballots_of (votes c)) as [n|] eqn:En; cbn in E; [|done]. injection E as <-.
      exists (c, n). split; [done|]. apply elem_of_map_to_list. rewrite map_lookup_imap. destruct Hc as [v ->]. done.
    + intros ([c n] & -> & Hin%elem_of_map_to_list). rewrite map_lookup_imap in Hin. destruct (nominated !! c) as [v|] eqn:Ec; [|done]. cbn in Hin.
      exists c. split; [by apply map_keys_elem; eexists|]. by rewrite Hin.
Qed.

Lemma calTopK_winners `{MapOrder} ledger s height nominated votes :
  (add64 (startHeight s) 3 <= height)%Z -> ballot_box ledger s height nominated votes ->
  calTopKNominator ledger s height =
  Ret (if (Z.of_nat (size (tally_of nominated votes)) <? proposerNum s)%Z then initValidators s else winners (tally_of nominated votes) (proposerNum s)).
Proof.
  intros Hh Hb. unfold calTopKNominator. rewrite (proj2 (Z.ltb_ge _ _)) by done. destruct (bb_nominated _ _ _ _ _ Hb) as (doc & -> & En). cbn. rewrite En.
  rewrite (collect_spec _ _ _ _ _ _ Hb) by (intros c; apply map_keys_elem). cbn.
  rewrite (collected_perm nominated votes), length_fmap, length_map_to_list. destruct (_ <? _)%Z; [done|]. unfold winners. do 3 f_equal.
  apply (Sorted_unique not_less); [apply Sorted_merge_sort; apply _..|]. rewrite !merge_sort_Permutation. apply collected_perm.
Qed.

(** C4: the election is right and the same on every node.  From a snapshot with
    enough candidates that have ballots, the validators are the [proposerNum]
    candidates with most ballots, ties decided by the greater address, best first,
    whatever the order in which the maps are ranged over; with too few candidates
    they are the initial ones. *)
Theorem election_elects_top ledger (s : tdposSchedule) height nominated votes :
  (add64 (startHeight s) 3 <= height)%Z -> (0 <= proposerNum s)%Z -> ballot_box ledger s height nominated votes ->
  let tally := tally_of nominated votes in
  exists vs, (forall MO : MapOrder, calTopKNominator ledger s height = Ret vs) /\
    if (Z.of_nat (size tally) <? proposerNum s)%Z then vs = initValidators s else elected tally (proposerNum s) vs.
Proof.
  intros Hh Hp Hb tally. eexists. split; [intros MO; by apply calTopK_winners|]. fold tally.
  destruct (Z.ltb_spec (Z.of_nat (size tally)) (proposerNum s)); [done|]. by apply winners_elected.
Qed.

(** ** The last block of the term before *)

Local Open Scope Z_scope.

Section Search.
Variables (ledger : LedgerRely) (f : Z -> Z) (h0 term : Z).

(** Up to [h0] the blocks are of earlier terms, above of the term sought. *)
Lemma binary_search_spec fuel : forall begin end_,
  (Z.to_nat (end_ - begin) < fuel)%nat -> 0 <= begin -> h0 < end_ -> begin <= end_ < 2 ^ 62 ->
  (forall h, begin <= h <= end_ -> getTerm ledger h = Ret (f h)) ->
  (forall h, begin <= h <= h0 -> f h < term) -> (forall h, h0 < h <= end_ -> f h = term) ->
  binary_search ledger fuel begin end_ term = Ret (Z.max begin h0).
Proof.
  induction fuel as [|fuel IH]; intros begin end_ Hf Hb Hh Hle Hget Hlow Hhigh; [lia|]. cbn [binary_search].
  destruct (Z.ltb_spec begin end_) as [Hlt|]; [|f_equal; lia].
  assert (0 <= (end_ - begin) / 2 < end_ - begin) as Hhalf by (split; [apply Z.div_pos; lia|apply Z.div_lt_upper_bound; lia]).
  assert (quot64 (sub64 end_ begin) 2 = (end_ - begin) / 2) as ->.
  { unfold quot64, sub64. rewrite (wrap64_id (end_ - begin)) by in64. rewrite Z.quot_div_nonneg by lia. apply wrap64_id. in64. }
  set (d := (end_ - begin) / 2) in *. assert (add64 begin d = begin + d) as -> by (unwrap64; lia). assert (add64 (begin + d) 1 = begin + d + 1) as -> by (unwrap64; lia).
  rewrite (Hget (begin + d)), (Hget (begin + d + 1)) by lia. rewrite !obind_ret.
  destruct (Z.le_gt_cases (begin + d) h0) as [Hm|Hm].
  - pose proof (Hlow (begin + d) ltac:(lia)). rewrite (proj2 (Z.ltb_lt _ _)) by lia. cbn [andb].
    destruct (Z.le_gt_cases (begin + d + 1) h0) as [Hm1|Hm1].
    + pose proof (Hlow (begin + d + 1) ltac:(lia)). rewrite (proj2 (Z.eqb_neq _ _)) by lia.
      rewrite IH; [f_equal; lia|lia..|intros; apply Hget; lia|intros; apply Hlow; lia|done].
    + rewrite (Hhigh (begin + d + 1)), Z.eqb_refl by lia. f_equal. lia.
  - rewrite (Hhigh (begin + d)) by lia. rewrite Z.ltb_irrefl. cbn [andb].
    rewrite IH; [done|lia..|intros; apply Hget; lia|intros; apply Hlow; lia|intros; apply Hhigh; lia].
Qed.
End Search.

(** ** A chain in the middle of a term *)

(** The number of a slot within its term. *)
Definition slot_number (s : tdposSchedule) (pos b : Z) : Z := pos * blockNum s + b.

(** The blocks up to [h0] are of earlier terms; those above are of term [t], made
    in slots of it, one after the other. *)
Record term_chain (s : tdposSchedule) (L : LedgerRely) (h0 t : Z) : Prop := {
  tc_height : 0 <= h0 <= Height (GetTipBlock L);
  tc_bound : Height (GetTipBlock L) < 2 ^ 60;
  tc_before : forall h, startHeight s <= h <= h0 -> exists b, QueryBlockHeaderByHeight L h = Ret b /\ Height b = h /\ CurTerm b < t;
  tc_tip : exists b, QueryBlockHeaderByHeight L (Height (GetTipBlock L)) = Ret b /\ Height b = Height (GetTipBlock L) /\ CurTerm b <= t;
  tc_now : forall h, h0 < h <= Height (GetTipBlock L) -> exists b pos n, QueryBlockHeaderByHeight L h = Ret b /\ Height b = h /\ CurTerm b = t /\
    is_int64 (Timestamp b) /\ initTimestamp s <= Timestamp b /\ slot_of s (Timestamp b) t pos n /\ h - h0 <= slot_number s pos n + 1
}.

(** Two views of the chain that agree up to a height. *)
Record same_chain (L0 L : LedgerRely) (h0 : Z) : Prop := {
  sc_blocks : forall h, h <= h0 -> QueryBlockHeaderByHeight L h = QueryBlockHeaderByHeight L0 h;
  sc_snapshots : forall h b, h <= h0 -> QueryBlockHeaderByHeight L0 h = Ret b -> CreateSnapshot L (Blockid b) = CreateSnapshot L0 (Blockid b)
}.

(** Two schedules of one chain: what differs is who runs them and what they did. *)
Record same_config (s s' : tdposSchedule) : Prop := {
  cf_period : period s' = period s; cf_blocks : blockNum s' = blockNum s; cf_proposers : proposerNum s' = proposerNum s;
  cf_alternate : alternateInterval s' = alternateInterval s; cf_term : termInterval s' = termInterval s; cf_init : initTimestamp s' = initTimestamp s;
  cf_bft : enableChainedBFT s' = enableChainedBFT s; cf_validators : initValidators s' = initValidators s; cf_start : startHeight s' = startHeight s;
  cf_name : consensusName s' = consensusName s; cf_version : consensusVersion s' = consensusVersion s; cf_bucket : bindContractBucket s' = bindContractBucket s
}.
#[global] Instance same_config_refl : Reflexive same_config.
Proof. by split. Qed.

Section Agreement.
Context `{MapOrder}.

Lemma same_config_scheduling s s' t : same_config s s' -> minerScheduling s' t = minerScheduling s t.
Proof. intros [E1 E2 E3 E4 E5 E6 _ _ _ _ _ _]. unfold minerScheduling. by rewrite E1, E2, E3, E4, E5, E6. Qed.

Lemma getSnapshotKey_same L0 L h0 h bucket k : same_chain L0 L h0 -> h <= h0 -> getSnapshotKey L h bucket k = getSnapshotKey L0 h bucket k.
Proof.
  intros [Hb Hs] Hle. unfold getSnapshotKey. destruct (h <=? 0); [done|]. rewrite Hb by done.
  destruct (QueryBlockHeaderByHeight L0 h) as [b| |] eqn:E; [|done..]. rewrite !obind_ret. by rewrite (Hs h b).
Qed.

Lemma calTopK_same L0 L h0 s s' h : same_chain L0 L h0 -> same_config s s' -> 3 <= h <= h0 -> h < 2 ^ 60 -> calTopKNominator L s' h = calTopKNominator L0 s h.
Proof.
  intros Hc [] Hh Hb. unfold calTopKNominator, candidate_ballots. rewrite cf_start0, cf_validators0, cf_name0, cf_version0, cf_bucket0, cf_proposers0. destruct (_ <? _); [done|].
  assert (sub64 h 3 = h - 3) as Es by (unwrap64; lia). rewrite Es, (getSnapshotKey_same _ _ _ _ _ _ Hc) by lia.
  destruct (getSnapshotKey L0 _ _ _) as [[doc|]| |]; [|done..]. rewrite !obind_ret. destruct (UnmarshalNominate doc) as [nom|]; [|done].
  assert (collect_ballots L s' h (map_keys nom) = collect_ballots L0 s h (map_keys nom)) as ->; [|done].
  induction (map_keys nom) as [|c l IH]; [done|]. cbn [collect_ballots]. rewrite IH. unfold candidate_ballots. rewrite cf_name0, cf_version0, cf_bucket0, Es.
  by rewrite (getSnapshotKey_same _ _ _ _ _ _ Hc) by lia.
Qed.

Lemma calTopK_low L s h : h < startHeight s + 3 -> 0 <= startHeight s < 2 ^ 60 -> calTopKNominator L s h = Ret (initValidators s).
Proof. intros Hh Hs. unfold calTopKNominator. assert (add64 (startHeight s) 3 = startHeight s + 3) as -> by (unwrap64; lia). by rewrite (proj2 (Z.ltb_lt _ _)) by lia. Qed.

(** The validators of the tip of a chain in the middle of a term are those
    elected at the last block before the term, or at the first block of all. *)
Lemma calHisValidators_term s L h0 t : config_ok s -> 0 <= startHeight s < 2 ^ 60 -> term_chain s L h0 t -> h0 < Height (GetTipBlock L) -> startHeight s <= Height (GetTipBlock L) ->
  calHisValidators L s (Height (GetTipBlock L)) = calTopKNominator L s (Z.max (startHeight s) h0).
Proof.
  intros ok Hs Hc Hlt Hst. destruct Hc as [Hh Hbd Hlow _ Hnow]. set (tip := Height (GetTipBlock L)) in *.
  destruct (Hnow tip ltac:(lia)) as (b & pos & n & Eb & Ehb & Et & H64 & Hinit & Hslot & Hcount). unfold calHisValidators. rewrite Eb, obind_ret.
  rewrite (minerScheduling_scheduled s ok _ H64 Hinit), (slot_scheduled s ok _ _ _ _ Hslot). rewrite obind_ret. rewrite Ehb.
  pose proof (termTime_split s) as Hsp. pose proof (posTime_pos s ok) as [Hpt Hpt']. destruct Hslot as [_ Hpos Hn _ _ _]. unfold slot_number in Hcount.
  assert (0 <= pos * blockNum s <= (proposerNum s - 1) * blockNum s) as Hpb by (destruct ok; split; [apply Z.mul_nonneg_nonneg|apply Z.mul_le_mono_nonneg_r]; lia).
  assert ((proposerNum s - 1) * blockNum s + blockNum s <= termTime s) as Hpb2.
  { destruct ok. assert (proposerNum s * blockNum s <= proposerNum s * posTime s) by (apply Z.mul_le_mono_nonneg_l; nia). lia. }
  assert (add64 (mul64 pos (blockNum s)) n = pos * blockNum s + n) as -> by (destruct ok; unwrap64; lia).
  set (internal := pos * blockNum s + n) in *. assert (sub64 (sub64 tip internal) 1 = tip - internal - 1) as -> by (destruct ok; unwrap64; lia).
  set (begin := if tip - internal - 1 <=? startHeight s then startHeight s else tip - internal - 1).
  assert (startHeight s <= begin <= Z.max (startHeight s) h0) as Hbegin by (unfold begin; destruct (Z.leb_spec (tip - internal - 1) (startHeight s)); lia).
  unfold binarySearch.
  rewrite (binary_search_spec L (fun h => match QueryBlockHeaderByHeight L h with Ret b => CurTerm b | _ => 0 end) h0 t); [rewrite obind_ret; f_equal; lia|lia..| | |].
  - intros h Hr. unfold getTerm. destruct (Z.le_gt_cases h h0); [destruct (Hlow h ltac:(lia)) as (b' & -> & _)|destruct (Hnow h ltac:(lia)) as (b' & ? & ? & -> & _)]; done.
  - intros h Hr. destruct (Hlow h ltac:(lia)) as (b' & -> & _ & ?). done.
  - intros h Hr. by destruct (Hnow h ltac:(lia)) as (b' & ? & ? & -> & _ & -> & _).
Qed.

(** The validators a node expects of the next block of a term. *)
Lemma next_proposers s L h0 t ts storage : config_ok s -> 0 <= startHeight s < 2 ^ 60 -> term_chain s L h0 t -> is_int64 ts -> initTimestamp s <= ts ->
  fst (fst (scheduled s ts)) = t -> (h0 < Height (GetTipBlock L) \/ forall b, QueryBlockHeaderByHeight L h0 = Ret b -> CurTerm b <> t) -> cs_TargetBits storage = 0 ->
  CalOldProposers L s (Height (GetTipBlock L) + 1) ts storage =
  (if Height (GetTipBlock L) + 1 <? startHeight s + 3 then Ret (initValidators s) else calTopKNominator L s (Z.max (startHeight s) h0)).
Proof.
  intros ok Hs Hc H64 Hinit Et Hold Hbits. pose proof Hc as [Hh Hbd _ Htip Hnow]. set (tip := Height (GetTipBlock L)) in *. unfold CalOldProposers.
  assert (add64 (startHeight s) 3 = startHeight s + 3) as -> by (unwrap64; lia). destruct (Z.ltb_spec (tip + 1) (startHeight s + 3)) as [|Hge]; [done|].
  unfold QueryTipBlockHeader. fold tip. rewrite (proj2 (Z.ltb_ge _ _)) by lia.
  destruct Htip as (b & Eb & _ & _). unfold getTerm. rewrite Eb, obind_ret. cbn [cs_CurTerm GetConsensusStorage]. rewrite obind_ret.
  rewrite (minerScheduling_scheduled s ok _ H64 Hinit), obind_ret. destruct (scheduled s ts) as [[t' p'] n']. cbn in Et. subst t'.
  destruct (Z.le_gt_cases tip h0) as [Hle|Hlt].
  - destruct Hold as [|Hold]; [lia|]. assert (tip = h0) as <- by lia. rewrite (proj2 (Z.eqb_neq _ _)) by (by apply Hold). rewrite Hbits. cbn [Z.eqb negb]. rewrite andb_false_r. f_equal. lia.
  - destruct (Hnow tip ltac:(lia)) as (b' & ? & ? & Eb' & _ & Et' & _). rewrite Eb in Eb'. injection Eb' as <-. rewrite Et', Z.eqb_refl.
    apply calHisValidators_term with (t := t); [done..|]. lia.
Qed.
End Agreement.
