(* ===== verification/TdposSpec.v ===== *)
(** * Tdpos: what the handlers promise each other

    The file Tdpos makes blocks on one node and checks them on another.  Here: an
    honest block is accepted, what an accepted block is, and what is accepted
    although it should not be. *)

From Stdlib Require Import ZArith Lia Ascii.
From stdpp Require Import base gmap strings list numbers sorting.
From S2P Require Import Prelude GoValues LedgerHash QCTree Smr Consensus Tdpos TdposSlots TdposElect.

Set Default Proof Using "Type".
Local Open Scope Z_scope.

(** ** One configuration *)

Section Same.
Context (s s' : tdposSchedule) (Hsame : same_config s s').

Lemma same_slot_begin term pos b : slot_begin s' term pos b = slot_begin s term pos b.
Proof using Hsame. destruct Hsame as [E1 E2 E3 E4 E5 E6 _ _ _ _ _ _]. unfold slot_begin, termTime, posTime. by rewrite E1, E2, E3, E4, E5. Qed.

Lemma same_config_ok : config_ok s -> config_ok s'.
Proof using Hsame. destruct Hsame as [E1 E2 E3 E4 E5 E6 _ _ _ _ _ _]. intros []. split; unfold termTime in *; by rewrite ?E1, ?E2, ?E3, ?E4, ?E5, ?E6. Qed.

Lemma same_slot_of ts term pos b : slot_of s ts term pos b -> slot_of s' ts term pos b.
Proof using Hsame.
  intros []. pose proof same_slot_begin as Eb. destruct Hsame as [E1 E2 E3 E4 E5 E6 _ _ _ _ _ _]. split; rewrite ?Eb; unfold elapsed in *; by rewrite ?E1, ?E2, ?E3, ?E4, ?E5, ?E6.
Qed.

Lemma same_in_slot pos b : in_slot s' pos b = in_slot s pos b.
Proof using Hsame. destruct Hsame. unfold in_slot. congruence. Qed.

Lemma same_term_chain L h0 t : term_chain s L h0 t -> term_chain s' L h0 t.
Proof using Hsame.
  intros [H1 H2 H3 H4 H5]. pose proof same_slot_of as Hso. destruct Hsame as [E1 E2 E3 E4 E5 E6 _ _ E9 _ _ _]. split; [done..|rewrite E9; done|done|].
  intros h Hh. destruct (H5 h Hh) as (b & pos & n & ? & ? & ? & ? & ? & ? & ?). exists b, pos, n. rewrite E6. unfold slot_number in *. rewrite E2. split_and!; eauto.
Qed.
End Same.

Lemma same_config_trans s1 s2 s3 : same_config s1 s2 -> same_config s2 s3 -> same_config s1 s3.
Proof. intros [] []. split; congruence. Qed.

(** ** Entering a term *)

(** The readings of a clock that goes forward, after the first term began. *)
Record clock_ok (s : tdposSchedule) (clock : list Z) : Prop := {
  ck_sorted : StronglySorted Z.le clock;
  ck_range : Forall (fun t => is_int64 t /\ initTimestamp s <= t) clock
}.

Lemma clock_ok_tail s t1 t2 clock : clock_ok s (t1 :: t2 :: clock) -> clock_ok s clock.
Proof. intros [Hs Hr]. apply StronglySorted_inv in Hs as [Hs _]. apply StronglySorted_inv in Hs as [Hs _]. inversion Hr as [|? ? _ Hr']. by inversion Hr'. Qed.

Lemma scheduled_term_mono s t1 t2 : config_ok s -> t1 <= t2 -> fst (fst (scheduled s t1)) <= fst (fst (scheduled s t2)).
Proof.
  intros ok Hle. assert (forall t, fst (fst (scheduled s t)) = elapsed s t / termTime s + 1) as E by (intros t; unfold scheduled; repeat case_match; done).
  rewrite !E. pose proof (termTime_pos s ok). assert (elapsed s t1 / termTime s <= elapsed s t2 / termTime s); [|lia]. apply Z.div_le_mono; [lia|].
  unfold elapsed. assert (t1 / Millisecond <= t2 / Millisecond) by (apply Z.div_le_mono; unfold Millisecond; lia). lia.
Qed.

Section Handlers.
Context `{MO : MapOrder} `{PQ : ProtoQC}.

(** The validators a node works with in a term it enters at the tip of [L]. *)
Definition entering (L : LedgerRely) (s : tdposSchedule) : list string :=
  let h0 := Height (GetTipBlock L) in
  if h0 <? add64 (startHeight s) 3 then validators s
  else match calTopKNominator L s h0 with Ret (v :: vs) => v :: vs | _ => validators s end.

Lemma UpdateProposers_entering L s now1 now2 : config_ok s -> is_int64 now1 -> is_int64 now2 -> initTimestamp s <= now1 -> initTimestamp s <= now2 ->
  curTerm s <> fst (fst (scheduled s now2)) ->
  match UpdateProposers L s now1 now2 (Height (GetTipBlock L)) with
  | Ret (_, s') => s' = set_validators s (entering L s)
  | Err _ => False
  | Panic => True
  end.
Proof using Type.
  intros ok H1 H2 I1 I2 Hne. assert (s = set_validators s (validators s)) as Eta by (by destruct s). unfold UpdateProposers, entering. destruct (_ <? _) eqn:Elow; [done|].
  assert (CalculateProposers L s now1 now2 (Height (GetTipBlock L)) = calTopKNominator L s (Height (GetTipBlock L))) as ->.
  { unfold CalculateProposers, calAddTime, QueryTipBlockHeader. rewrite Elow, (minerScheduling_scheduled s ok now1) by done. destruct (scheduled s now1) as [[? ?] ?].
    rewrite !obind_ret, Z.leb_refl, obind_ret. assert (add64 now2 0 = now2) as -> by (unfold add64; rewrite Z.add_0_r; by apply wrap64_id).
    rewrite (minerScheduling_scheduled s ok now2), obind_ret by done. destruct (scheduled s now2) as [[t ?] ?]. cbn in Hne. by rewrite (proj2 (Z.eqb_neq _ _)) by done. }
  destruct (calTopKNominator _ _ _) as [[|v vs]| |]; [done| |done..]. rewrite AddressEqual_spec. case_bool_decide as Heq; cbn [negb]; [|done]. by rewrite Heq.
Qed.

Lemma CompeteMaster_enters L s0 (ok : config_ok s0) : forall n clock tp r tp', (length clock <= n)%nat -> clock_ok s0 clock -> election tp = s0 ->
  CompeteMaster L clock tp = Some (Ret r, tp') ->
  same_config s0 (election tp') /\ address (election tp') = address s0 /\ (curTerm s0 < curTerm (election tp') -> validators (election tp') = entering L s0).
Proof using Type.
  induction n as [|n IH]; intros clock tp r tp' Hn Hck Es E; (destruct clock as [|t1 [|t2 clock]]; [done|done|]); [cbn in Hn; lia|]. cbn [CompeteMaster] in E. rewrite Es in E.
  pose proof (clock_ok_tail _ _ _ _ Hck) as Hck'. cbn in Hn.
  destruct (div64 _ _) as [key| |]; [|done..]. destruct (isProduce tp !! key).
  { destruct (CleanProduceMap _ _ _) as [cl| |]; [|done..]. eapply IH; [|done| |exact E]; [lia|done]. }
  destruct Hck as [Hsort Hrange]. inversion Hrange as [|? ? [Hr1 Hi1] Hrange1]; subst. inversion Hrange1 as [|? ? [Hr2 Hi2] Hrange2]; subst.
  rewrite (minerScheduling_scheduled _ ok t2) in E by done. destruct (scheduled (election tp) t2) as [[term pos] bp] eqn:Esch.
  destruct (in_slot _ _ _) eqn:Ein; cbn [negb] in E; [|eapply IH; [|done| |exact E]; [lia|done]].
  destruct clock as [|t3 [|t4 clock]]; [done..|].
  inversion Hrange2 as [|? ? [Hr3 Hi3] Hrange3]; subst. inversion Hrange3 as [|? ? [Hr4 Hi4] _]; subst.
  assert (t2 <= t4) as Ht24.
  { apply StronglySorted_inv in Hsort as [Hsort _]. apply StronglySorted_inv in Hsort as [_ Hall]. inversion Hall as [|? ? _ Hall']. by inversion Hall'. }
  pose proof (scheduled_term_mono _ _ _ ok Ht24) as Hmono. rewrite Esch in Hmono. cbn [fst] in Hmono. unfold QueryTipBlockHeader in E.
  destruct (Z.ltb_spec (curTerm (election tp)) term) as [Hterm|Hterm].
  - pose proof (UpdateProposers_entering L (election tp) t3 t4 ok Hr3 Hr4 Hi3 Hi4 ltac:(lia)) as Hu. destruct (UpdateProposers _ _ _ _ _) as [[? s1]| |]; [|done..]. subst s1.
    destruct (index64 _ _); [|done..]. case_bool_decide; simplify_eq; cbn; split_and!; done.
  - destruct (index64 _ _); [|done..]. case_bool_decide; simplify_eq; cbn; split_and!; try done; lia.
Qed.

Context (V : QuorumCertSign -> bytes -> bool * option string).

(** C3: an honest block is accepted.  Suppose a node enters a term at the tip of
    [L0], the last block of the terms before ([CompeteMaster] with a clock that goes
    forward), the validators can be elected there, and later, on a chain [L] that
    continues [L0] with blocks that carry this term, at most one per slot, the node
    is told to produce a block ([ProcessBeforeMiner] succeeds).  Then every node that
    sees the same chain, whatever validators it works with itself and whenever it
    started, accepts the block, because it finds the last block of the term before
    and elects the same validators.  With chained BFT this holds of a block that
    follows no roll back and whose certificate the other node's replica accepts.
    A node that entered in the middle of a term, or a chain with a forged term, can
    have its block refused: [restarted_node_elects_at_tip], [forged_term_splits]. *)
Theorem honest_block_accepted L0 L clock tp r tp1 now1 now2 ts target storage tp2 tpB block :
  let s := election tp in let t := curTerm (election tp1) in let h0 := Height (GetTipBlock L0) in
  config_ok s -> 0 <= startHeight s < 2 ^ 60 -> clock_ok s clock ->
  CompeteMaster L0 clock tp = Some (Ret r, tp1) -> curTerm s < t ->
  (if h0 <? startHeight s + 3 then validators s = initValidators s else exists v vs, calTopKNominator L0 s h0 = Ret (v :: vs)) ->
  same_chain L0 L h0 -> term_chain s L h0 t ->
  is_int64 ts -> initTimestamp s <= ts -> ProcessBeforeMiner L now1 now2 ts tp1 = (Ret (target, storage), tp2) ->
  same_config s (election tpB) ->
  (enableChainedBFT s = true -> cs_TargetBits storage = 0 /\ (startHeight s < Height block -> check_justify L V tpB block = Ret true)) ->
  Height block = Height (GetTipBlock L) + 1 -> Timestamp block = ts -> Proposer block = address s -> TargetBits block = cs_TargetBits storage ->
  CheckMinerMatch L V tpB block = Ret true.
Proof using Type.
  intros s t h0 ok Hst Hck Hcm Hlt Hel Hchain Hterm H64 Hinit Hpb HcB Hbft Eh Ets Epr Ebits.
  destruct (CompeteMaster_enters L0 s ok _ clock tp r tp1 (le_n _) Hck eq_refl Hcm) as (Hc1 & Eaddr & Hval). specialize (Hval Hlt).
  pose proof (same_config_ok _ _ HcB ok) as okB. pose proof (same_term_chain _ _ HcB _ _ _ Hterm) as HtB. pose proof (same_config_scheduling _ _ ts HcB) as EmB. pose proof (same_config_scheduling _ _ ts Hc1) as Em1.
  rewrite (minerScheduling_scheduled s ok ts) in EmB, Em1 by done. destruct (scheduled s ts) as [[term pos] bp] eqn:Esch.
  unfold ProcessBeforeMiner in Hpb. rewrite Em1, (same_in_slot _ _ Hc1) in Hpb. destruct (in_slot s pos bp) eqn:Ein; [|done]. cbn [negb orb] in Hpb.
  destruct (Z.eqb_spec term (curTerm (election tp1))) as [->|]; [|done]. cbn [negb] in Hpb. fold t in Esch.
  destruct (index64 (validators (election tp1)) pos) as [v| |] eqn:Eix; [|done..]. rewrite Eaddr in Hpb. case_bool_decide as Ev; [|done]. cbn [negb] in Hpb. subst v.
  assert (TargetBits block = 0) as Hbits.
  { rewrite Ebits. destruct (enableChainedBFT s) eqn:Eb; [by apply Hbft|]. rewrite (cf_bft _ _ Hc1), Eb in Hpb. cbn [negb] in Hpb. by injection Hpb as _ <- _. }
  clear Hpb Ebits.
  unfold CheckMinerMatch. rewrite Ets, EmB, obind_ret, (same_in_slot _ _ HcB), Ein. cbn [negb]. rewrite Epr, (cf_bft _ _ HcB), (cf_start _ _ HcB). replace (Height block) with (Height (GetTipBlock L) + 1) at 1 by done.
  assert (CalOldProposers L (election tpB) (Height (GetTipBlock L) + 1) ts (GetConsensusStorage block) = Ret (validators (election tp1))) as ->.
  2:{ rewrite obind_ret, Eix, obind_ret, bool_decide_eq_true_2 by done. cbn [negb]. destruct (enableChainedBFT s); cbn [negb]; [|done].
      destruct (Z.leb_spec (Height block) (startHeight s)); [done|]. by apply Hbft. }
  rewrite Hval. unfold entering. fold h0. assert (add64 (startHeight s) 3 = startHeight s + 3) as Ea by (unwrap64; lia). rewrite Ea.
  pose proof (tc_height _ _ _ _ Hterm) as Hh. pose proof (tc_bound _ _ _ _ Hterm) as Hb. fold h0 in Hh.
  assert (startHeight (election tpB) = startHeight s /\ initValidators (election tpB) = initValidators s) as [EsB EiB] by (by destruct HcB).
  destruct (Z.ltb_spec (Height (GetTipBlock L) + 1) (startHeight s + 3)) as [Hlow|Hhigh].
  { rewrite (proj2 (Z.ltb_lt _ _)) by lia. rewrite (proj2 (Z.ltb_lt h0 _)) in Hel by lia. rewrite Hel.
    unfold CalOldProposers. rewrite EsB, EiB, Ea. by rewrite (proj2 (Z.ltb_lt _ _)) by lia. }
  rewrite (next_proposers _ _ h0 t); try done.
  - rewrite EsB, EiB, (proj2 (Z.ltb_ge _ _)) by lia. destruct (Z.ltb_spec h0 (startHeight s + 3)) as [Hl0|Hl0].
    + rewrite Hel, <- EiB. apply calTopK_low; rewrite EsB; lia.
    + destruct Hel as (v & vs & Hel). rewrite Z.max_r by lia. rewrite (calTopK_same L0 L h0 s) by (done || lia). by rewrite Hel.
  - by rewrite EsB.
  - by rewrite (cf_init _ _ HcB).
  - rewrite (minerScheduling_scheduled _ okB) in EmB by (done || by rewrite (cf_init _ _ HcB)). by injection EmB as ->.
  - destruct (Z.le_gt_cases (Height (GetTipBlock L)) h0); [|left; lia]. right. intros b Eb.
    destruct (tc_before _ _ _ _ Hterm h0 ltac:(lia)) as (b' & Eb' & _ & ?). rewrite Eb in Eb'. injection Eb' as <-. lia.
Qed.

(** ** What an accepted block is *)

Lemma CheckMinerMatch_inv L tp block : CheckMinerMatch L V tp block = Ret true ->
  let s := election tp in
  exists term pos b vs, minerScheduling s (Timestamp block) = Ret (term, pos, b) /\ in_slot s pos b = true /\
    CalOldProposers L s (Height block) (Timestamp block) (GetConsensusStorage block) = Ret vs /\ index64 vs pos = Ret (Proposer block) /\
    (enableChainedBFT s = true -> startHeight s < Height block -> check_justify L V tp block = Ret true).
Proof using Type.
  intros E s. unfold CheckMinerMatch in E. fold s in E. apply obind_inv_ret in E as ([[term pos] b] & Em & E). destruct (in_slot s pos b) eqn:Ein; [|done]. cbn [negb] in E.
  apply obind_inv_ret in E as (vs & Ec & E). apply obind_inv_ret in E as (want & Ei & E). case_bool_decide as Ew; [|done]. subst want. cbn [negb] in E.
  exists term, pos, b, vs. split_and!; [done..|]. intros Eb Hh. rewrite Eb in E. cbn [negb] in E. by rewrite (proj2 (Z.leb_gt _ _)) in E by done.
Qed.

(** The validators expected of a block depend on its height and the term of its
    time stamp only, and with chained BFT on its [TargetBits]. *)
Lemma CalOldProposers_term L s h ts1 ts2 st1 st2 : enableChainedBFT s = false \/ cs_TargetBits st1 = cs_TargetBits st2 ->
  (fst ∘ fst <$> minerScheduling s ts1) = (fst ∘ fst <$> minerScheduling s ts2) -> CalOldProposers L s h ts1 st1 = CalOldProposers L s h ts2 st2.
Proof using Type.
  intros Eb Et. unfold CalOldProposers. destruct (_ <? _); [done|]. destruct (_ <? _); [done|]. destruct (getTerm L _) as [tip| |]; [|done..]. rewrite !obind_ret. assert ((if enableChainedBFT s && negb (cs_TargetBits st1 =? 0) then cs_TargetBits st1 else Height (QueryTipBlockHeader L)) =
    (if enableChainedBFT s && negb (cs_TargetBits st2 =? 0) then cs_TargetBits st2 else Height (QueryTipBlockHeader L))) as -> by (destruct Eb as [-> | ->]; done).
  destruct (minerScheduling s ts1) as [[[a1 b1] c1]| |], (minerScheduling s ts2) as [[[a2 b2] c2]| |]; unfold fmap, outcome_fmap in Et; cbn in Et; simplify_eq; done.
Qed.

(** The time stamp of a block lies in a slot. *)
Definition stamped (s : tdposSchedule) (b : InternalBlock) (term pos n : Z) : Prop :=
  is_int64 (Timestamp b) /\ initTimestamp s <= Timestamp b /\ slot_of s (Timestamp b) term pos n.

(** C22: no slot has two producers.  Of two blocks that a node accepts at one
    height on one chain, if the time stamps lie in one slot, the producers are the
    same; with chained BFT provided they carry the same [TargetBits], which there
    choose the height the validators are elected at. *)
Theorem slot_has_one_producer L tp b1 b2 term pos n : config_ok (election tp) ->
  enableChainedBFT (election tp) = false \/ TargetBits b1 = TargetBits b2 -> Height b1 = Height b2 ->
  Forall (fun b => stamped (election tp) b term pos n) [b1; b2] ->
  CheckMinerMatch L V tp b1 = Ret true -> CheckMinerMatch L V tp b2 = Ret true -> Proposer b1 = Proposer b2.
Proof using Type.
  intros ok Eb Eh Hall E1 E2. inversion Hall as [|? ? (Ha & Hb & Hc) Hall']; subst. inversion Hall' as [|? ? (Ha' & Hb' & Hc') _]; subst.
  destruct (CheckMinerMatch_inv _ _ _ E1) as (t1 & p1 & n1 & vs1 & Em1 & _ & Ec1 & Ei1 & _). destruct (CheckMinerMatch_inv _ _ _ E2) as (t2 & p2 & n2 & vs2 & Em2 & _ & Ec2 & Ei2 & _).
  rewrite (minerScheduling_scheduled _ ok), (slot_scheduled _ ok _ _ _ _ Hc) in Em1 by done. rewrite (minerScheduling_scheduled _ ok), (slot_scheduled _ ok _ _ _ _ Hc') in Em2 by done. simplify_eq.
  rewrite Eh, (CalOldProposers_term L _ _ (Timestamp b1) (Timestamp b2) _ (GetConsensusStorage b2)) in Ec1; [congruence|done|].
  rewrite !(minerScheduling_scheduled _ ok) by done. by rewrite (slot_scheduled _ ok _ _ _ _ Hc), (slot_scheduled _ ok _ _ _ _ Hc').
Qed.

(** ** What is accepted too *)

(** One slot, any number of blocks.  Nothing compares the time stamp of a block
    with the blocks below it: on top of a block made in a slot, the same producer's
    next block with the very same time stamp is accepted. *)
Theorem slot_used_again L tp h0 t b pos n vs block : let s := election tp in
  config_ok s -> enableChainedBFT s = false -> 0 <= startHeight s < 2 ^ 60 -> term_chain s L h0 t -> h0 < Height (GetTipBlock L) -> startHeight s + 3 <= h0 ->
  QueryBlockHeaderByHeight L (Height (GetTipBlock L)) = Ret b -> stamped s b t pos n ->
  calTopKNominator L s h0 = Ret vs -> index64 vs pos = Ret (Proposer b) ->
  Height block = Height (GetTipBlock L) + 1 -> Timestamp block = Timestamp b -> Proposer block = Proposer b -> TargetBits block = 0 ->
  CheckMinerMatch L V tp block = Ret true.
Proof using Type.
  intros s ok Eb Hst Hterm Hlt Hs0 Eq (H64 & Hinit & Hslot) Ecal Eix Eh Ets Epr Ebits. unfold CheckMinerMatch. fold s. rewrite Ets, (minerScheduling_scheduled s ok) by done.
  rewrite (slot_scheduled s ok _ _ _ _ Hslot), obind_ret, (slot_of_in _ _ _ _ _ Hslot). cbn [negb]. rewrite Eh, (next_proposers s L h0 t); try done.
  - rewrite (proj2 (Z.ltb_ge _ _)) by lia. rewrite Z.max_r, Ecal, obind_ret, Eix, obind_ret, Epr, Eb by lia. by rewrite bool_decide_eq_true_2.
  - by rewrite (slot_scheduled s ok _ _ _ _ Hslot).
  - by left.
Qed.

(** Before the first term [minerScheduling] answers with all zeros, which passes
    for the first slot of the first validator, whatever the time stamp. *)
Lemma early_block_accepted L tp block p vs : let s := election tp in enableChainedBFT s = false -> Timestamp block < initTimestamp s -> 1 <= blockNum s -> 1 <= proposerNum s ->
  CalOldProposers L s (Height block) (Timestamp block) (GetConsensusStorage block) = Ret (p :: vs) -> Proposer block = p -> CheckMinerMatch L V tp block = Ret true.
Proof using Type.
  intros s Eb Hts Hb Hp Ec <-. unfold CheckMinerMatch, minerScheduling. fold s. rewrite (proj2 (Z.ltb_lt _ _)) by done. rewrite obind_ret.
  unfold in_slot. rewrite !(proj2 (Z.leb_gt _ _)) by lia. cbn [negb orb Z.ltb Z.compare]. rewrite Ec, obind_ret.
  change (index64 (Proposer block :: vs) 0) with (Ret (Proposer block)). by rewrite obind_ret, bool_decide_eq_true_2, Eb by done.
Qed.

End Handlers.
