(* ===== verification/TdposCases.v ===== *)
(** * Tdpos: single cases

    A small chain: two producers, two blocks each, slots of three seconds; the
    first term begins at time zero.  Instances of the theorems of the files
    TdposSlots, TdposElect and TdposSpec, and behaviours of the code on it. *)

From Stdlib Require Import ZArith Lia Ascii.
From stdpp Require Import base gmap strings list numbers sorting.
From S2P Require Import Prelude GoValues LedgerHash QCTree Smr Consensus Tdpos TdposSlots TdposElect TdposSpec.

Set Default Proof Using "Type".
Local Open Scope Z_scope.

Module TdposExample.
#[local] Existing Instance address_order.
#[global] Instance codec : ProtoQC := {| proto_Marshal := fun _ => ""; proto_Unmarshal := fun _ => None |}.
Definition verify (_ : QuorumCertSign) (_ : bytes) : bool * option string := (true, None).

Definition ms (t : Z) : Z := t * Millisecond.
Definition sched (who : string) (vals : list string) (term : Z) : tdposSchedule :=
  mkSchedule who 3000 2 2 3000 3000 0 false vals ["amy"; "ben"] term "" 1 "tdpos" 0 "$tdpos".

Definition blk (id : string) (h : Z) (who : string) (t term : Z) : InternalBlock :=
  mkBlk 1 0 id "" who "" "" "" h (ms t) [] 0 [] term 0 ∅ 0 None true "".

(** Block 2 carries an election of [dan] and [cat], block 3 one of [ben] and [dan]. *)
Definition nominated : blob := Doc [("ben", JObj [("ben", JNum 1)]); ("cat", JObj [("cat", JNum 1)]); ("dan", JObj [("dan", JNum 1)])].
Definition votes (n m k : Z) (key : string) : option blob :=
  if bool_decide (key = "tdpos_0_nominate") then Some nominated
  else if bool_decide (key = "tdpos_0_vote_ben") then Some (Doc [("v1", JNum n)])
  else if bool_decide (key = "tdpos_0_vote_cat") then Some (Doc [("v1", JNum m); ("v2", JNum 2)])
  else if bool_decide (key = "tdpos_0_vote_dan") then Some (Doc [("v3", JNum k)])
  else None.
Definition snapshot (id : string) : outcome (string -> string -> outcome (option blob)) :=
  Ret (fun _ key => Ret (if bool_decide (id = "B2") then votes 1 4 9 key else if bool_decide (id = "B3") then votes 50 4 9 key else None)).

Definition chain (blocks : list InternalBlock) : LedgerRely :=
  mkRely (fun h => match blocks !! Z.to_nat h with Some b => if h <? 0 then Err "no block" else Ret b | None => Err "no block" end)
         (fun _ => Err "no block") (default (blk "" 0 "" 0 0) (last blocks)) snapshot.

Definition first_term : list InternalBlock :=
  [blk "G" 0 "" 0 0; blk "B1" 1 "amy" 1000 1; blk "B2" 2 "amy" 4000 1; blk "B3" 3 "ben" 7000 1; blk "B4" 4 "ben" 10000 1; blk "B5" 5 "ben" 11000 1].
Definition B6 : InternalBlock := blk "B6" 6 "dan" 13000 2.
Definition L0 : LedgerRely := chain first_term.
Definition L : LedgerRely := chain (first_term ++ [B6]).

Definition smr0 : SmrState := NewSmr 1 (mkTree (mkQC (mkVoteInfo None 0 None 0) None None) (PNode (mkQC (mkVoteInfo None 0 None 0) None None) [])
  (mkQC (mkVoteInfo None 0 None 0) None None) None None None [] ∅).
Definition node (who : string) : tdposConsensus := mkTdpos ∅ (sched who ["amy"; "ben"] 1) smr0.

Definition clock : list Z := [ms 13000; ms 13000; ms 13000; ms 13000].
Definition dan1 : tdposConsensus := match CompeteMaster L0 clock (node "dan") with Some (_, tp) => tp | None => node "dan" end.

Lemma tdpos_config_ok : config_ok (sched "dan" ["amy"; "ben"] 1).
Proof. split; vm_compute; congruence. Qed.

Definition noms : gmap string (gmap string Z) := <["ben" := {["ben" := 1]}]> (<["cat" := {["cat" := 1]}]> {["dan" := {["dan" := 1]}]}).
Definition cast (c : string) : voteValue :=
  if bool_decide (c = "ben") then {["v1" := 1]} else if bool_decide (c = "cat") then {["v1" := 4; "v2" := 2]} else if bool_decide (c = "dan") then {["v3" := 9]} else ∅.
Lemma box : ballot_box L0 (sched "dan" ["amy"; "ben"] 1) 5 noms cast.
Proof.
  split.
  - exists nominated. by split; vm_compute.
  - intros c Hc. assert (c = "ben" \/ c = "cat" \/ c = "dan") as [->|[->| ->]].
    { destruct (decide (c = "ben")); [by left|]. destruct (decide (c = "cat")); [by right; left|]. destruct (decide (c = "dan")); [by right; right|].
      destruct Hc as [v Hc]. change (noms !! c = Some v) in Hc. unfold noms in Hc. rewrite !lookup_insert_ne in Hc by done. by rewrite lookup_singleton_ne in Hc. }
    + exists (Some (Doc [("v1", JNum 1)])). by split; vm_compute.
    + exists (Some (Doc [("v1", JNum 4); ("v2", JNum 2)])). by split; vm_compute.
    + exists (Some (Doc [("v3", JNum 9)])). by split; vm_compute.
Qed.

Lemma slot_B6 : slot_of (sched "dan" ["amy"; "ben"] 1) (ms 13000) 2 0 0.
Proof. split; vm_compute; split_and?; congruence. Qed.

Lemma below n (P : Z -> Prop) : Forall P (Z.of_nat <$> seq 0 n) -> forall h, 0 <= h < Z.of_nat n -> P h.
Proof. intros HP h Hh. rewrite Forall_forall in HP. apply HP. apply list_elem_of_fmap. exists (Z.to_nat h). split; [lia|]. apply elem_of_seq. lia. Qed.

Lemma continued : same_chain L0 L 5.
Proof.
  split.
  - intros h Hh. destruct (Z.lt_ge_cases h 0) as [Hn|Hn].
    { cbn. replace (Z.to_nat h) with 0%nat by lia. cbn. by rewrite (proj2 (Z.ltb_lt _ _)). }
    revert h Hh Hn. assert (forall h, 0 <= h < 6 -> QueryBlockHeaderByHeight L h = QueryBlockHeaderByHeight L0 h) as Hx; [|intros; apply Hx; lia].
    apply (below 6). repeat constructor.
  - done.
Qed.

Lemma in_term : term_chain (sched "dan" ["amy"; "ben"] 1) L 5 2.
Proof.
  split.
  - vm_compute; split; congruence.
  - vm_compute; congruence.
  - intros h [H1 H2]. cbn in H1. revert h H1 H2. assert (forall h, 0 <= h < 6 -> exists b, QueryBlockHeaderByHeight L h = Ret b /\ Height b = h /\ CurTerm b < 2) as Hx; [|intros; apply Hx; lia].
    apply (below 6). repeat constructor; eexists; (split; [vm_compute; reflexivity|by split; vm_compute]).
  - exists B6. split; [vm_compute; reflexivity|]. by split; vm_compute.
  - intros h Hh. cbn in Hh. assert (h = 6) as -> by lia. exists B6, 0, 0. split_and!; [vm_compute; reflexivity..|split; vm_compute; congruence|vm_compute; congruence|apply slot_B6|vm_compute; congruence].
Qed.
End TdposExample.


Lemma election_elects_top_witness : exists vs, (forall MO : MapOrder, calTopKNominator TdposExample.L0 (TdposExample.sched "dan" ["amy"; "ben"] 1) 5 = Ret vs).
Proof.
  assert (add64 1 3 <= 5) as H1 by (vm_compute; congruence). assert (0 <= 2) as H2 by lia.
  destruct (election_elects_top TdposExample.L0 (TdposExample.sched "dan" ["amy"; "ben"] 1) 5 TdposExample.noms TdposExample.cast H1 H2 TdposExample.box) as (vs & Hvs & _).
  exists vs. exact Hvs.
Defined.

#[local] Existing Instance address_order.

Lemma honest_block_accepted_witness :
  CheckMinerMatch TdposExample.L TdposExample.verify (TdposExample.node "eve") (TdposExample.blk "B7" 7 "dan" 16000 2) = Ret true.
Proof.
  apply (honest_block_accepted (MO := address_order) TdposExample.verify TdposExample.L0 TdposExample.L TdposExample.clock (TdposExample.node "dan") (true, true) TdposExample.dan1 0 0
    (TdposExample.ms 16000) None (mkStorage None 2 1 0) TdposExample.dan1 (TdposExample.node "eve") (TdposExample.blk "B7" 7 "dan" 16000 2)).
  - exact TdposExample.tdpos_config_ok.
  - vm_compute; split; congruence.
  - split.
    + repeat constructor; vm_compute; congruence.
    + repeat constructor; vm_compute; congruence.
  - vm_compute. reflexivity.
  - vm_compute. reflexivity.
  - exists "dan", ["cat"]. vm_compute. reflexivity.
  - exact TdposExample.continued.
  - exact TdposExample.in_term.
  - split; vm_compute; congruence.
  - vm_compute; congruence.
  - vm_compute. reflexivity.
  - split; reflexivity.
  - discriminate.
  - reflexivity.
  - reflexivity.
  - reflexivity.
  - reflexivity.
Defined.

Lemma slot_has_one_producer_witness : Proposer TdposExample.B6 = "dan".
Proof.
  apply (slot_has_one_producer (MO := address_order) TdposExample.verify TdposExample.L0 (TdposExample.node "eve") TdposExample.B6 (TdposExample.blk "other" 6 "dan" 14000 2) 2 0 0).
  - split; vm_compute; congruence.
  - left. reflexivity.
  - reflexivity.
  - repeat constructor; vm_compute; congruence.
  - vm_compute. reflexivity.
  - vm_compute. reflexivity.
Defined.

Lemma slot_used_again_witness :
  CheckMinerMatch TdposExample.L TdposExample.verify (TdposExample.node "dan") (TdposExample.blk "again" 7 "dan" 13000 2) = Ret true.
Proof.
  apply (slot_used_again (MO := address_order) TdposExample.verify TdposExample.L (TdposExample.node "dan") 5 2 TdposExample.B6 0 0 ["dan"; "cat"] (TdposExample.blk "again" 7 "dan" 13000 2)).
  - exact TdposExample.tdpos_config_ok.
  - reflexivity.
  - vm_compute; split; congruence.
  - exact TdposExample.in_term.
  - vm_compute. reflexivity.
  - vm_compute. congruence.
  - vm_compute. reflexivity.
  - split; [split; vm_compute; congruence|]. split; [vm_compute; congruence|exact TdposExample.slot_B6].
  - vm_compute. reflexivity.
  - vm_compute. reflexivity.
  - reflexivity.
  - reflexivity.
  - reflexivity.
  - reflexivity.
Defined.

(** ** Behaviours *)

(** The term a block claims is not compared with its time stamp.  [dan] makes the
    first block of term two and claims term one; it is accepted. *)
Definition forged : InternalBlock := TdposExample.blk "F6" 6 "dan" 13000 1.
Example forged_term_accepted : CheckMinerMatch TdposExample.L0 TdposExample.verify (TdposExample.node "eve") forged = Ret true.
Proof. vm_compute. reflexivity. Qed.
(** From then on the others elect at the tip instead of at the last block of term
    one, and the honest block of the same producer is refused. *)
Example forged_term_splits :
  CheckMinerMatch (TdposExample.chain (TdposExample.first_term ++ [forged])) TdposExample.verify (TdposExample.node "eve") (TdposExample.blk "B7" 7 "dan" 16000 2) = Err ErrInvalidProposer.
Proof. vm_compute. reflexivity. Qed.

(** A node that starts in the middle of a term elects at the tip when it first
    competes.  Here [ben] takes himself for the producer of a slot of [dan], and the
    others refuse his block. *)
Definition ben_restarted : tdposConsensus :=
  mkTdpos ∅ (TdposExample.sched "ben" ["dan"; "cat"] 0) TdposExample.smr0.
Example restarted_node_elects_at_tip :
  fst <$> CompeteMaster TdposExample.L [TdposExample.ms 16000; TdposExample.ms 16000; TdposExample.ms 16000; TdposExample.ms 16000] ben_restarted = Some (Ret (true, true)) /\
  CheckMinerMatch TdposExample.L TdposExample.verify (TdposExample.node "eve") (TdposExample.blk "B7" 7 "ben" 16000 2) = Err ErrInvalidProposer.
Proof. split; vm_compute; reflexivity. Qed.

(** The number of initial producers is not compared with the number of producers
    per term: a block of the third slot of three panics when there are two. *)
Definition three : tdposSchedule := mkSchedule "eve" 3000 1 3 3000 3000 0 false ["amy"; "ben"] ["amy"; "ben"] 0 "" 1 "tdpos" 0 "$tdpos".
Example missing_producer_panics :
  CheckMinerMatch (TdposExample.chain [TdposExample.blk "G" 0 "" 0 0]) TdposExample.verify (mkTdpos ∅ three TdposExample.smr0) (TdposExample.blk "B1" 1 "amy" 8000 1) = Panic.
Proof. vm_compute. reflexivity. Qed.

(** A block that pretends to be older than the chain is taken for the first slot. *)
Example ancient_block_accepted :
  CheckMinerMatch (TdposExample.chain [TdposExample.blk "G" 0 "" 0 0]) TdposExample.verify (TdposExample.node "eve") (TdposExample.blk "B1" 1 "amy" (-5000) 1) = Ret true.
Proof. vm_compute. reflexivity. Qed.
