(* ===== verification/TdposContract.v ===== *)
(** * Tdpos: the election contract

    [bcs/consensus/tdpos/kernel_contract.go]: nominating a candidate, voting for
    one, and taking either back.  Every ballot is paid for by locking governance
    tokens through the token contract (file GovernToken); the schedule (file Tdpos)
    reads the same keys from a snapshot.

    What the contract needs of the token contract is the record [token_service]; the
    token contract behind [ContractCall] provides it. *)

From Stdlib Require Import ZArith Lia Ascii.
From stdpp Require Import base gmap strings list numbers sorting.
From S2P Require Import Prelude GoValues Sandbox KContext GovernToken LedgerHash QCTree Smr Consensus Tdpos.

Set Default Proof Using "Type".

(** ** What is stored *)

Definition MarshalVote (v : voteValue) : blob := Doc (obj_of_map JNum v).
Definition MarshalNominate (n : nominateValue) : blob := Doc (obj_of_map (fun r => JObj (obj_of_map JNum r)) n).

Record revokeItem := mkRevoke { RevokeType : string; ri_Ballot : Z; TargetAddress : string }.
Definition revokeValue : Type := gmap string (list revokeItem).
Definition NOMINATETYPE : string := "nominate".
Definition VOTETYPE : string := "vote".

Definition enc_revoke (r : revokeItem) : json :=
  JObj [("RevokeType", JStr (RevokeType r)); ("Ballot", JNum (ri_Ballot r)); ("TargetAddress", JStr (TargetAddress r))].
Definition dec_revoke (j : json) : option revokeItem :=
  match j with
  | JNull => Some (mkRevoke "" 0 "")
  | JObj l => match field_str "RevokeType" l "", field_int64 "Ballot" l 0%Z, field_str "TargetAddress" l "" with
              | Some t, Some b, Some a => Some (mkRevoke t b a)
              | _, _, _ => None
              end
  | _ => None
  end.
Definition dec_revokes (j : json) : option (list revokeItem) :=
  match j with JNull => Some [] | JArr l => mapM dec_revoke l | _ => None end.
Definition MarshalRevoke (v : revokeValue) : blob := Doc (obj_of_map (fun l => JArr (enc_revoke <$> l)) v).
Definition UnmarshalRevoke (res : blob) : option revokeValue := unmarshal_map dec_revokes res.

Definition ErrNominateAddr : string := "addr in nominate candidate tx can not be empty".
Definition ErrVoteNominate : string := "addr in vote candidate hasn't been nominated".
Definition ErrAmount : string := "amount in contract can not be empty".
Definition ErrAuth : string := "candidate has not authenticated your submission".
Definition ErrRepeatNominate : string := "candidate had been nominate".
Definition ErrEmptyNominateKey : string := "no valid candidate key when revoke".
Definition ErrJson : string := "json: cannot unmarshal into Go value".
Definition fee : Z := 1000.

(** [strings.HasSuffix(s, suffix)] *)
Fixpoint HasSuffix (s suffix : string) : bool :=
  bool_decide (s = suffix) || match s with "" => false | String _ s' => HasSuffix s' suffix end.

Definition isAuthAddress (candidate initiator : string) (authRequire : list string) : bool :=
  HasSuffix initiator candidate || existsb (fun value => HasSuffix value candidate) authRequire.

(** ** The methods *)

Section Contract.
Context {S : Type} `{StateSandbox S}.
(** [tp.status] and [tp.election.bindContractBucket]. *)
Variables (Name : string) (Version : Z) (bucket : string).

Definition nKey : string := election_key Name Version nominateKey.
Definition voteKey (candidate : string) : string := election_key Name Version (voteKeyPrefix +:+ candidate).
Definition rKey : string := election_key Name Version revokeKey.

Definition checkArgs (txArgs : gmap string blob) : outcome string :=
  let candidateName := from_option blob_string "" (txArgs !! "candidate") in
  if is_empty_string candidateName then Err ErrNominateAddr else Ret candidateName.

Definition amount_arg (ctx : Context) : outcome Z :=
  match ParseInt64 (from_option blob_string "" (Args ctx !! "amount")) with
  | Some amount => if (amount <=? 0)%Z then Err ErrAmount else Ret amount
  | None => Err ErrAmount
  end.

Definition tokenArgs (from : string) (amount : Z) : gmap string blob :=
  {["from" := Raw from; "amount" := Raw (bigString amount); "lock_type" := Raw GovernTokenTypeTDPOS]}.

(** A key that has never been written is read as nil; another error is one. *)
Definition get_or_nil (key : string) : M (KState S) (option blob) :=
  let! r := mtry (ctx_Get bucket key) in
  match r with
  | inl b => mpure (Some b)
  | inr e => if bool_decide (e = ErrNotFound) then mpure None else mfail e
  end.

Definition decoded {A} (o : option A) : M (KState S) A := match o with Some a => mpure a | None => mfail ErrJson end.

Definition done_ok : M (KState S) Response :=
  do! AddResourceUsed (mkLimits 0 0 0 fee) in mpure (resp_ok (Some (Raw "ok"))).

Definition runNominateCandidate : KernMethod S := fun call ctx =>
  let! candidateName := mlift (checkArgs (Args ctx)) in
  let! amount := mlift (amount_arg ctx) in
  if! negb (isAuthAddress candidateName (Initiator ctx) (AuthRequire ctx)) fails ErrAuth in
  do! call ctx TypeKernel GovernTokenKernelContract "Lock" (tokenArgs (Initiator ctx) amount) in
  let! res := get_or_nil nKey in
  let! nominated := (match res with Some b => decoded (UnmarshalNominate b) | None => mpure ∅ end) in
  if! bool_decide (is_Some (nominated !! candidateName)) fails ErrRepeatNominate in
  do! ctx_Put bucket nKey (MarshalNominate (<[candidateName := {[Initiator ctx := amount]}]> nominated)) in
  done_ok.

Definition with_revoke (who : string) (item : revokeItem) (v : revokeValue) : revokeValue :=
  <[who := default [] (v !! who) ++ [item]]> v.

Definition runRevokeCandidate : KernMethod S := fun call ctx =>
  let! candidateName := mlift (checkArgs (Args ctx)) in
  let! res := ctx_Get bucket nKey in
  let! nominated := decoded (UnmarshalNominate res) in
  match nominated !! candidateName with
  | None => mfail ErrEmptyNominateKey
  | Some v =>
      match v !! Initiator ctx with
      | None => mfail ErrValueNotFound
      | Some ballot =>
          do! call ctx TypeKernel GovernTokenKernelContract "UnLock" (tokenArgs (Initiator ctx) ballot) in
          let! res := get_or_nil rKey in
          let! revoked := (match res with Some b => decoded (UnmarshalRevoke b) | None => mpure ∅ end) in
          do! ctx_Put bucket rKey (MarshalRevoke (with_revoke (Initiator ctx) (mkRevoke NOMINATETYPE ballot candidateName) revoked)) in
          do! ctx_Put bucket nKey (MarshalNominate (delete candidateName nominated)) in
          done_ok
      end
  end.

Definition runVote : KernMethod S := fun call ctx =>
  let! candidateName := mlift (checkArgs (Args ctx)) in
  let! amount := mlift (amount_arg ctx) in
  do! call ctx TypeKernel GovernTokenKernelContract "Lock" (tokenArgs (Initiator ctx) amount) in
  let! res := ctx_Get bucket nKey in
  let! nominated := decoded (UnmarshalNominate res) in
  if! bool_decide (nominated !! candidateName = None) fails ErrVoteNominate in
  let! res := get_or_nil (voteKey candidateName) in
  let! votes := (match res with Some b => decoded (UnmarshalVote b) | None => mpure ∅ end) in
  let mine := add64 (default 0%Z (votes !! Initiator ctx)) amount in
  do! ctx_Put bucket (voteKey candidateName) (MarshalVote (<[Initiator ctx := mine]> votes)) in
  done_ok.

Definition runRevokeVote : KernMethod S := fun call ctx =>
  let! candidateName := mlift (checkArgs (Args ctx)) in
  let! amount := mlift (amount_arg ctx) in
  do! call ctx TypeKernel GovernTokenKernelContract "UnLock" (tokenArgs (Initiator ctx) amount) in
  let! res := ctx_Get bucket (voteKey candidateName) in
  let! votes := decoded (UnmarshalVote res) in
  match votes !! Initiator ctx with
  | None => mfail ErrValueNotFound
  | Some v =>
      if! (v <? amount)%Z fails ErrEmptyNominateKey in
      let! res := get_or_nil rKey in
      let! revoked := (match res with Some b => decoded (UnmarshalRevoke b) | None => mpure ∅ end) in
      let left := sub64 v amount in
      let votes := if (left =? 0)%Z then delete (Initiator ctx) votes else <[Initiator ctx := left]> votes in
      do! ctx_Put bucket rKey (MarshalRevoke (with_revoke (Initiator ctx) (mkRevoke VOTETYPE amount candidateName) revoked)) in
      do! ctx_Put bucket (voteKey candidateName) (MarshalVote votes) in
      done_ok
  end.

(** The votes of the candidates; one that cannot be read is left out. *)
Fixpoint read_votes (candidates : list string) : M (KState S) (gmap string voteValue) :=
  match candidates with
  | [] => mpure ∅
  | c :: candidates =>
      let! r := mtry (ctx_Get bucket (voteKey c)) in
      let! rest := read_votes candidates in
      mpure (match r with
             | inl b => match UnmarshalVote b with Some v => <[c := v]> rest | None => rest end
             | inr _ => rest
             end)
  end.

Definition runGetTdposInfos `{MapOrder} : KernMethod S := fun _ ctx =>
  let! r := mtry (ctx_Get bucket nKey) in
  match r with
  | inr _ => mpure (resp_ok (Some (Doc [])))
  | inl res =>
      let! nominated := decoded (UnmarshalNominate res) in
      let! voteMap := read_votes (map_keys nominated) in
      let! res := get_or_nil rKey in
      let! revoked := (match res with Some b => decoded (UnmarshalRevoke b) | None => mpure ∅ end) in
      mpure (resp_ok (Some (Doc [("nominate", JObj (obj_of_map (fun r => JObj (obj_of_map JNum r)) nominated));
                                 ("revoke", JObj (obj_of_map (fun l => JArr (enc_revoke <$> l)) revoked));
                                 ("vote", JObj (obj_of_map (fun v => JObj (obj_of_map JNum v)) voteMap))])))
  end.

Definition tdpos_methods `{MapOrder} : list (string * string * KernMethod S) :=
  [(bucket, "nominateCandidate", runNominateCandidate); (bucket, "revokeNominate", runRevokeCandidate); (bucket, "voteCandidate", runVote);
   (bucket, "revokeVote", runRevokeVote); (bucket, "getTdposInfos", runGetTdposInfos)].
End Contract.
