(* ===== verification/TdposBallots.v ===== *)
(** * Tdpos: ballots are backed by tokens

    The invariant of the election contract (file TdposContract) together with the
    token contract: what an account has pledged for candidates and cast in votes is
    exactly what it has locked for tdpos. *)

From Stdlib Require Import ZArith Lia Ascii.
From stdpp Require Import base gmap strings list numbers sorting.
From S2P Require Import Prelude GoValues Sandbox KContext GovernToken LedgerHash QCTree Smr Consensus Tdpos TdposContract.

Set Default Proof Using "Type".
Local Open Scope Z_scope.

(** ** Reading back what was written *)

Definition ballots_ok (v : voteValue) : Prop := map_Forall (fun _ n => is_int64 n /\ 0 < n) v.

Lemma dec_ballot_num n : is_int64 n -> dec_ballot (JNum n) = Some n.
Proof. intros Hn. unfold dec_ballot, dec_int64. by rewrite bool_decide_eq_true_2. Qed.

Lemma Unmarshal_MarshalVote v : ballots_ok v -> UnmarshalVote (MarshalVote v) = Some v.
Proof. intros Hv. unfold UnmarshalVote, MarshalVote, unmarshal_map. apply map_of_obj_marshalled. eapply map_Forall_impl; [done|]. intros k n [Hn _]. by apply dec_ballot_num. Qed.

Lemma Unmarshal_MarshalNominate n : map_Forall (fun _ r => ballots_ok r) n -> UnmarshalNominate (MarshalNominate n) = Some n.
Proof.
  intros Hn. unfold UnmarshalNominate, MarshalNominate, unmarshal_map. apply map_of_obj_marshalled. eapply map_Forall_impl; [done|]. intros k r Hr. unfold dec_record, dec_map.
  rewrite map_of_obj_marshalled; [done|]. eapply map_Forall_impl; [exact Hr|]. intros k' x [Hx _]. by apply dec_ballot_num.
Qed.

(** ** What the contract needs of the token contract *)

Section Service.
Context {S : Type} `{StateSandboxLaws S}.
Implicit Types s : KState S.

Definition tdpos_lock (b : GovernTokenBalance) (d : Z) : GovernTokenBalance := set_lock b GovernTokenTypeTDPOS (lockedAmount b GovernTokenTypeTDPOS + d).

(** A call that returns has moved the lock of one account and nothing else; on any
    exit the bucket of the election is as it was. *)
Record token_service (bucket : string) (call : CallFn S) : Prop := {
  ts_keeps : forall ctx method args, method ∈ ["Lock"; "UnLock"] -> frames bucket (call ctx TypeKernel GovernTokenKernelContract method args);
  ts_lock : forall s ctx who amount r s', kinv s -> gov_wf s -> ContractName ctx = bucket -> 0 <= amount ->
    call ctx TypeKernel GovernTokenKernelContract "Lock" (tokenArgs who amount) s = (Ret r, s') ->
    exists b, account s who = Some b /\ lockedAmount b GovernTokenTypeTDPOS + amount <= TotalBalance b /\ gov_wf s' /\
      forall a, account s' a = if decide (a = who) then Some (tdpos_lock b amount) else account s a;
  ts_unlock : forall s ctx who amount r s', kinv s -> gov_wf s -> ContractName ctx = bucket ->
    call ctx TypeKernel GovernTokenKernelContract "UnLock" (tokenArgs who amount) s = (Ret r, s') ->
    exists b, account s who = Some b /\ (0 <= amount <= lockedAmount b GovernTokenTypeTDPOS -> gov_wf s') /\
      forall a, account s' a = if decide (a = who) then Some (tdpos_lock b (- amount)) else account s a
}.

(** ** The invariant *)

Definition locked_of s (a : string) : Z := match account s a with Some b => lockedAmount b GovernTokenTypeTDPOS | None => 0 end.
Definition pledged (nom : nominateValue) (a : string) : Z := sum_map (fun r : gmap string Z => default 0 (r !! a)) nom.
Definition cast (vm : gmap string voteValue) (a : string) : Z := sum_map (fun v : voteValue => default 0 (v !! a)) vm.

Variables (Name : string) (Version : Z) (bucket : string).
Notation nKey := (nKey Name Version). Notation voteKey := (voteKey Name Version). Notation rKey := (rKey Name Version).

Record backed s (nom : nominateValue) (vm : gmap string voteValue) : Prop := {
  bk_inv : kinv s;
  bk_gov : gov_wf s;
  bk_supply : forall a b, account s a = Some b -> TotalBalance b <= int64_max;
  bk_nominated : kview s bucket nKey = Ret (MarshalNominate nom) \/ (nom = ∅ /\ kview s bucket nKey = Err ErrNotFound);
  bk_votes : forall c, kview s bucket (voteKey c) = match vm !! c with Some v => Ret (MarshalVote v) | None => Err ErrNotFound end;
  bk_pledges : map_Forall (fun _ r => exists x n, r = {[x := n]} /\ is_int64 n /\ 0 < n) nom;
  bk_cast : map_Forall (fun _ v => ballots_ok v) vm;
  bk_backed : forall a, locked_of s a = pledged nom a + cast vm a
}.
Definition ballots_backed s : Prop := exists nom vm, backed s nom vm.

Hypothesis Hslash : no_slash bucket = true.
Hypothesis Hgov : bucket <> governTokenBucket.

(** ** Steps of a method *)

(** [s'] has the accounts of [s]; of the election, the keys of [w] were written. *)
Record puts s (w : string -> option blob) s' : Prop := {
  pt_inv : kinv s';
  pt_bucket : forall k, kview s' bucket k = match w k with Some v => Ret v | None => kview s bucket k end;
  pt_gov : forall k, kview s' governTokenBucket k = kview s governTokenBucket k
}.
Definition nothing (_ : string) : option blob := None.
Definition put1 (k : string) (v : blob) (w : string -> option blob) (k' : string) : option blob := if decide (k' = k) then Some v else w k'.

Lemma puts_refl s : kinv s -> puts s nothing s.
Proof using Type. intros Hi. by split. Qed.
Lemma puts_get s w s1 s2 : puts s w s1 -> kinv s2 -> kequiv s1 s2 -> puts s w s2.
Proof using Type. intros [Hi Hb Hg] Hi2 (Hv & _). split; [done|intros k; by rewrite <- Hv, Hb|intros k; by rewrite <- Hv, Hg]. Qed.

Lemma get_step s w s1 k b s2 : puts s w s1 -> ctx_Get bucket k s1 = (Ret b, s2) -> puts s w s2 /\ kview s1 bucket k = Ret b.
Proof using Hslash.
  intros Hp E. destruct (ctx_Get_law s1 bucket k (pt_inv _ _ _ Hp) Hslash) as (s2' & E' & Hi & He). rewrite E in E'. injection E' as Ev <-. split; [by eapply puts_get|done].
Qed.
Lemma nil_step s w s1 k r s2 : puts s w s1 -> get_or_nil bucket k s1 = (Ret r, s2) ->
  puts s w s2 /\ match r with Some b => kview s1 bucket k = Ret b | None => kview s1 bucket k = Err ErrNotFound end.
Proof using Hslash.
  intros Hp E. destruct (ctx_Get_law s1 bucket k (pt_inv _ _ _ Hp) Hslash) as (s2' & E' & Hi & He). unfold get_or_nil, mbnd, mtry in E. rewrite E' in E.
  destruct (kview s1 bucket k) as [b|e|]; [| |done].
  - unfold mpure in E. simplify_eq. split; [by eapply puts_get|done].
  - case_bool_decide; [|done]. unfold mpure in E. simplify_eq. split; [by eapply puts_get|done].
Qed.
Lemma put_step s w s1 k v o s2 : puts s w s1 -> ctx_Put bucket k (Doc v) s1 = (o, s2) -> puts s (put1 k (Doc v) w) s2.
Proof using Hslash Hgov.
  intros [Hi Hb Hg] E. destruct (ctx_Put_law s1 bucket k (Doc v) Hi Hslash) as (s2' & E' & Hi2 & Hu). rewrite E in E'. injection E' as _ <-. split; [done| |].
  - intros k'. unfold put1. case_decide as Hk; [subst; by rewrite (kupdate_at _ _ _ _ _ Hslash Hu)|]. by rewrite (kupdate_key _ _ _ _ _ _ Hu Hslash Hk), Hb.
  - intros k'. rewrite (kupdate_other _ _ _ _ _ governTokenBucket k' Hu no_slash_gov), Hg; [done|congruence].
Qed.
Lemma done_step s w s1 r s2 : puts s w s1 -> done_ok s1 = (Ret r, s2) -> puts s w s2.
Proof using Type. intros [Hi Hb Hg] E. unfold done_ok, mbnd, AddResourceUsed, mpure in E. simplify_eq. by split. Qed.
Lemma decoded_step {A} (o : option A) s1 a s2 : decoded (S := S) o s1 = (Ret a, s2) -> o = Some a /\ s2 = s1.
Proof using Type. unfold decoded. destruct o; unfold mpure, mfail; intros E; inversion E; subst; split; reflexivity. Qed.

(** ** Keys *)

Lemma voteKey_inj c c' : voteKey c = voteKey c' -> c = c'.
Proof using Type.
  unfold TdposContract.voteKey, election_key. intros E. do 5 apply string_app_inj_l in E. exact E.
Qed.
Lemma vote_not_nominate c : voteKey c <> nKey.
Proof using Type. unfold TdposContract.voteKey, TdposContract.nKey, election_key. intros E. do 4 apply string_app_inj_l in E. discriminate E. Qed.
Lemma revoke_not_nominate : rKey <> nKey.
Proof using Type. unfold TdposContract.rKey, TdposContract.nKey, election_key. intros E. do 4 apply string_app_inj_l in E. discriminate E. Qed.
Lemma vote_not_revoke c : voteKey c <> rKey.
Proof using Type. unfold TdposContract.voteKey, TdposContract.rKey, election_key. intros E. do 4 apply string_app_inj_l in E. discriminate E. Qed.

Lemma vote_written (vm : gmap string voteValue) c v w : (forall c', w (voteKey c') = None) ->
  forall c', put1 (voteKey c) (MarshalVote v) w (voteKey c') = None \/ put1 (voteKey c) (MarshalVote v) w (voteKey c') = MarshalVote <$> <[c := v]> vm !! c'.
Proof using Type. intros Hw c'. unfold put1. case_decide as E; [apply voteKey_inj in E as ->; right; by rewrite lookup_insert_eq|left; apply Hw]. Qed.
Lemma vote_untouched (vm : gmap string voteValue) c v b w c' : put1 (voteKey c) b w (voteKey c') = None -> <[c := v]> vm !! c' = vm !! c'.
Proof using Type. unfold put1. case_decide as E; [intros E'; discriminate E'|]. intros _. apply lookup_insert_ne. congruence. Qed.

(** ** One account moved *)

Record moved s (who : string) (d : Z) s' : Prop := {
  mv_inv : kinv s';
  mv_gov : gov_wf s';
  mv_supply : forall a b, account s' a = Some b -> TotalBalance b <= int64_max;
  mv_bucket : forall k, kview s' bucket k = kview s bucket k;
  mv_locked : forall a, locked_of s' a = locked_of s a + (if decide (a = who) then d else 0)
}.

Lemma lockedAmount_tdpos b d : lockedAmount (tdpos_lock b d) GovernTokenTypeTDPOS = lockedAmount b GovernTokenTypeTDPOS + d.
Proof using Type. unfold lockedAmount, tdpos_lock, set_lock. cbn [LockedBalance]. by rewrite lookup_insert_eq. Qed.

Lemma account_moved s s' who b d : account s who = Some b -> (forall a, account s' a = if decide (a = who) then Some (tdpos_lock b d) else account s a) ->
  (forall a b, account s a = Some b -> TotalBalance b <= int64_max) ->
  (forall a b, account s' a = Some b -> TotalBalance b <= int64_max) /\ forall a, locked_of s' a = locked_of s a + (if decide (a = who) then d else 0).
Proof using Type.
  intros Eb Ha Hs. split.
  - intros a b' E. rewrite Ha in E. case_decide; [|by eapply Hs]. injection E as <-. cbn. by eapply Hs.
  - intros a. unfold locked_of. rewrite Ha. case_decide; [subst|lia]. rewrite Eb. apply lockedAmount_tdpos.
Qed.

Lemma lock_moves call s nom vm ctx who amount r s' : token_service bucket call -> backed s nom vm -> ContractName ctx = bucket -> 0 <= amount ->
  call ctx TypeKernel GovernTokenKernelContract "Lock" (tokenArgs who amount) s = (Ret r, s') -> moved s who amount s' /\ locked_of s who + amount <= int64_max.
Proof using Type.
  intros Hts Hbk Hc Ha E. destruct (ts_keeps _ _ Hts _ "Lock" _ ltac:(left) _ _ _ (bk_inv _ _ _ Hbk) E) as [Hi Hv].
  destruct (ts_lock _ _ Hts _ _ _ _ _ _ (bk_inv _ _ _ Hbk) (bk_gov _ _ _ Hbk) Hc Ha E) as (b & Eb & Hle & Hwf & Hacc).
  destruct (account_moved _ _ _ _ _ Eb Hacc (bk_supply _ _ _ Hbk)) as [Hs Hl]. split; [by split|]. unfold locked_of. rewrite Eb. pose proof (bk_supply _ _ _ Hbk _ _ Eb). lia.
Qed.

Lemma unlock_moves call s nom vm ctx who amount r s' : token_service bucket call -> backed s nom vm -> ContractName ctx = bucket ->
  call ctx TypeKernel GovernTokenKernelContract "UnLock" (tokenArgs who amount) s = (Ret r, s') ->
  kinv s' /\ (forall k, kview s' bucket k = kview s bucket k) /\ (0 <= amount <= locked_of s who -> moved s who (- amount) s').
Proof using Type.
  intros Hts Hbk Hc E. destruct (ts_keeps _ _ Hts _ "UnLock" _ ltac:(right; left) _ _ _ (bk_inv _ _ _ Hbk) E) as [Hi Hv].
  destruct (ts_unlock _ _ Hts _ _ _ _ _ _ (bk_inv _ _ _ Hbk) (bk_gov _ _ _ Hbk) Hc E) as (b & Eb & Hwf & Hacc).
  destruct (account_moved _ _ _ _ _ Eb Hacc (bk_supply _ _ _ Hbk)) as [Hs Hl]. split_and!; [done..|]. intros Hr. unfold locked_of in Hr. rewrite Eb in Hr. split; eauto.
Qed.

(** Putting the pieces together. *)
Lemma backed_after s nom vm who d s1 w s2 nom' vm' : backed s nom vm -> moved s who d s1 -> puts s1 w s2 ->
  (w nKey = Some (MarshalNominate nom') \/ (w nKey = None /\ nom' = nom)) ->
  (forall c, w (voteKey c) = None \/ w (voteKey c) = MarshalVote <$> vm' !! c) -> (forall c, w (voteKey c) = None -> vm' !! c = vm !! c) ->
  map_Forall (fun _ r => exists x n, r = {[x := n]} /\ is_int64 n /\ 0 < n) nom' -> map_Forall (fun _ v => ballots_ok v) vm' ->
  (forall a, pledged nom' a + cast vm' a = pledged nom a + cast vm a + (if decide (a = who) then d else 0)) -> backed s2 nom' vm'.
Proof using Type Hgov.
  intros Hbk Hmv [Hi Hb Hg] Hn Hv Hv' Hp Hc Hsum.
  assert (forall a, account s2 a = account s1 a) as Hacc by (intros a; unfold account; by rewrite Hg).
  split; [done| | | | |done|done|].
  - intros a buf E. rewrite Hg in E. by apply (mv_gov _ _ _ _ Hmv a).
  - intros a b. rewrite Hacc. apply (mv_supply _ _ _ _ Hmv).
  - rewrite Hb. destruct Hn as [->|[-> ->]]; [by left|]. rewrite (mv_bucket _ _ _ _ Hmv). apply (bk_nominated _ _ _ Hbk).
  - intros c. rewrite Hb. destruct (Hv c) as [En|Es].
    + rewrite En, (mv_bucket _ _ _ _ Hmv), (bk_votes _ _ _ Hbk), (Hv' c En). done.
    + destruct (w (voteKey c)) eqn:Ew; [|rewrite (mv_bucket _ _ _ _ Hmv), (bk_votes _ _ _ Hbk), (Hv' c Ew); done]. by destruct (vm' !! c); cbn in Es; simplify_eq.
  - intros a. unfold locked_of. rewrite Hacc. fold (locked_of s1 a). rewrite (mv_locked _ _ _ _ Hmv), (bk_backed _ _ _ Hbk). by rewrite Hsum.
Qed.

Lemma backed_equiv s nom vm s' : backed s nom vm -> kinv s' -> kequiv s s' -> backed s' nom vm.
Proof using Type.
  intros [Hi Hg Hs Hn Hv Hp Hc Hb] Hi' He. assert (forall a, account s' a = account s a) as Ha by (intros a; symmetry; by rewrite (account_proper _ _ He a _ eq_refl)).
  split; [exact Hi'|by rewrite <- He| | | |exact Hp|exact Hc|].
  - intros a b. rewrite Ha. apply Hs.
  - by rewrite <- He.
  - intros c. by rewrite <- He.
  - intros a. unfold locked_of. rewrite Ha. apply Hb.
Qed.

(** ** Sums *)

Lemma pledged_insert nom c x n a : nom !! c = None -> pledged (<[c := {[x := n]}]> nom) a = pledged nom a + (if decide (a = x) then n else 0).
Proof using Type. intros Hc. unfold pledged. rewrite (sum_map_insert_new (fun r : gmap string Z => default 0 (r !! a)) nom c {[x := n]} Hc). case_decide; [subst; rewrite lookup_singleton_eq|rewrite lookup_singleton_ne by congruence]; cbn; lia. Qed.
Lemma pledged_delete nom c x n a : nom !! c = Some {[x := n]} -> pledged (delete c nom) a = pledged nom a + (if decide (a = x) then - n else 0).
Proof using Type.
  intros Hc. unfold pledged. rewrite (sum_map_delete (fun r : gmap string Z => default 0 (r !! a)) nom c {[x := n]} Hc). unfold nominateValue in *.
  case_decide; [subst; rewrite lookup_singleton_eq|rewrite lookup_singleton_ne by congruence]; cbn; lia.
Qed.
Lemma cast_set vm c v a : cast (<[c := v]> vm) a = cast vm a + default 0 (v !! a) - default 0 (default ∅ (vm !! c) !! a).
Proof using Type. unfold cast. rewrite (sum_map_insert (fun v : voteValue => default 0 (v !! a)) vm c v). unfold voteValue in *. destruct (vm !! c); cbn [default from_option id]; [lia|rewrite lookup_empty; cbn; lia]. Qed.

Lemma ballot_nonneg v a : ballots_ok v -> 0 <= default 0 (v !! a).
Proof using Type. intros Hv. destruct (v !! a) eqn:E; cbn; [destruct (Hv _ _ E); lia|lia]. Qed.

Lemma pledged_nonneg s nom vm a : backed s nom vm -> 0 <= pledged nom a.
Proof using Type.
  intros Hbk. apply sum_map_nonneg. intros c r Hr. destruct (bk_pledges _ _ _ Hbk c r Hr) as (x & n & -> & _ & Hn). apply ballot_nonneg. intros k m Hm.
  apply lookup_singleton_Some in Hm as [-> ->]. destruct (bk_pledges _ _ _ Hbk c _ Hr) as (x' & n' & E & Hi & Hn'). apply (f_equal (lookup k)) in E. rewrite lookup_singleton_eq in E.
  symmetry in E. apply lookup_singleton_Some in E as [_ ->]. by split.
Qed.

Lemma cast_nonneg s nom vm a : backed s nom vm -> 0 <= cast vm a.
Proof using Type. intros Hbk. apply sum_map_nonneg. intros c v Hv. apply ballot_nonneg. eapply (bk_cast _ _ _ Hbk), Hv. Qed.

Lemma cast_at_most s nom vm c v a n : backed s nom vm -> vm !! c = Some v -> v !! a = Some n -> n <= locked_of s a.
Proof using Type.
  intros Hbk Hv Hn. rewrite (bk_backed _ _ _ Hbk). pose proof (pledged_nonneg _ _ _ a Hbk). enough (n <= cast vm a) by lia.
  unfold cast. rewrite (sum_map_delete (fun v : voteValue => default 0 (v !! a)) vm c v Hv), Hn. cbn.
  enough (0 <= sum_map (fun v : voteValue => default 0 (v !! a)) (delete c vm)) by lia.
  apply sum_map_nonneg. intros c' v' Hv'. apply lookup_delete_Some in Hv' as [_ Hv']. apply ballot_nonneg. by eapply (bk_cast _ _ _ Hbk).
Qed.

Lemma pledged_at_most s nom vm c x n : backed s nom vm -> nom !! c = Some {[x := n]} -> n <= locked_of s x.
Proof using Type.
  intros Hbk Hc. rewrite (bk_backed _ _ _ Hbk). enough (0 <= cast vm x /\ 0 <= pledged (delete c nom) x) as [? Hd]; [rewrite (pledged_delete _ _ _ _ x Hc), decide_True in Hd by reflexivity; lia|].
  split; apply sum_map_nonneg.
  - intros c' v' Hv'. apply ballot_nonneg. by eapply (bk_cast _ _ _ Hbk).
  - intros c' r Hr. apply lookup_delete_Some in Hr as [_ Hr]. destruct (bk_pledges _ _ _ Hbk c' r Hr) as (y & m & -> & _ & Hm).
    destruct (decide (y = x)) as [->|]; [rewrite lookup_singleton_eq|rewrite lookup_singleton_ne by congruence]; cbn; lia.
Qed.

(** ** Reading the ballots *)

Lemma pledges_ok s nom vm : backed s nom vm -> map_Forall (fun _ r => ballots_ok r) nom.
Proof using Type.
  intros Hbk c r Hr. destruct (bk_pledges _ _ _ Hbk c r Hr) as (x & n & -> & Hn). intros k m Hm. by apply lookup_singleton_Some in Hm as [_ <-].
Qed.

Lemma read_nominated s nom vm b : backed s nom vm -> kview s bucket nKey = Ret b -> UnmarshalNominate b = Some nom.
Proof using Type.
  intros Hbk E. destruct (bk_nominated _ _ _ Hbk) as [E'|[_ E']]; rewrite E in E'; [injection E' as ->|discriminate E'].
  eapply Unmarshal_MarshalNominate, pledges_ok, Hbk.
Qed.
Lemma no_nominated s nom vm e : backed s nom vm -> kview s bucket nKey = Err e -> nom = ∅.
Proof using Type. intros Hbk E. destruct (bk_nominated _ _ _ Hbk) as [E'|[E' _]]; [rewrite E in E'; discriminate E'|exact E']. Qed.
Lemma read_votes_of s nom vm c b : backed s nom vm -> kview s bucket (voteKey c) = Ret b -> exists v, vm !! c = Some v /\ UnmarshalVote b = Some v.
Proof using Type.
  intros Hbk E. rewrite (bk_votes _ _ _ Hbk) in E. destruct (vm !! c) as [v|] eqn:Ev; [|discriminate E]. injection E as <-. exists v. split; [reflexivity|].
  apply Unmarshal_MarshalVote. eapply (bk_cast _ _ _ Hbk), Ev.
Qed.
Lemma no_votes_of s nom vm c e : backed s nom vm -> kview s bucket (voteKey c) = Err e -> vm !! c = None.
Proof using Type. intros Hbk E. rewrite (bk_votes _ _ _ Hbk) in E. destruct (vm !! c); [discriminate E|reflexivity]. Qed.

Lemma votes_found s nom vm c (res : option blob) votes : backed s nom vm ->
  match res with Some b => kview s bucket (voteKey c) = Ret b | None => kview s bucket (voteKey c) = Err ErrNotFound end ->
  match res with Some b => UnmarshalVote b = Some votes | None => votes = ∅ end -> votes = default ∅ (vm !! c) /\ ballots_ok votes.
Proof using Type.
  intros Hbk Hr Hd. destruct res.
  - apply (read_votes_of _ _ _ _ _ Hbk) in Hr as (v & Ev & Eu). rewrite Eu in Hd. injection Hd as ->. rewrite Ev. split; [reflexivity|]. eapply (bk_cast _ _ _ Hbk), Ev.
  - rewrite (no_votes_of _ _ _ _ _ Hbk Hr), Hd. split; [reflexivity|apply map_Forall_empty].
Qed.

Lemma vote_at_most s nom vm c a : backed s nom vm -> 0 <= default 0 (default ∅ (vm !! c) !! a) <= locked_of s a.
Proof using Type.
  intros Hbk. unfold voteValue in *. destruct (vm !! c) as [v|] eqn:Ev; cbn [default from_option id].
  - split; [apply ballot_nonneg; eapply (bk_cast _ _ _ Hbk), Ev|]. destruct (v !! a) as [n|] eqn:En; cbn; [by eapply cast_at_most|]. 
    rewrite (bk_backed _ _ _ Hbk). pose proof (pledged_nonneg _ _ _ a Hbk). enough (0 <= cast vm a) by lia. apply (cast_nonneg _ _ _ a Hbk).
  - rewrite lookup_empty. cbn. rewrite (bk_backed _ _ _ Hbk). pose proof (pledged_nonneg _ _ _ a Hbk). pose proof (cast_nonneg _ _ _ a Hbk). lia.
Qed.

Lemma lift_step {A} (o : outcome A) (s1 : KState S) a s2 : mlift o s1 = (Ret a, s2) -> o = Ret a /\ s2 = s1.
Proof using Type. unfold mlift. intros E. inversion E. split; reflexivity. Qed.
Lemma default_step {A} `{Empty A} (dec : blob -> option A) (o : option blob) (s1 : KState S) a s2 :
  (match o with Some b => decoded (dec b) | None => mpure ∅ end) s1 = (Ret a, s2) -> s2 = s1 /\ match o with Some b => dec b = Some a | None => a = ∅ end.
Proof using Type. destruct o; intros E; [by apply decoded_step in E as [-> ->]|]. inversion E. split; reflexivity. Qed.

Lemma amount_ok ctx n : amount_arg ctx = Ret n -> is_int64 n /\ 0 < n.
Proof using Type.
  unfold amount_arg. destruct (ParseInt64 _) as [m|] eqn:E; [|intros; discriminate]. destruct (Z.leb_spec m 0); [intros; discriminate|]. intros [= <-]. by split; [eapply ParseInt64_range|].
Qed.

Tactic Notation "bind" ident(E) "as" ident(a) ident(s1) ident(E1) := apply mbnd_inv_ret in E as (a & s1 & E1 & E).
Ltac passes E B := match type of E with (if ?b then _ else _) _ = _ => destruct b eqn:B; [discriminate E|] end.

(** ** The methods *)

Section Methods.
Variables (call : CallFn S) (ctx : Context).
Hypothesis Hts : token_service bucket call.
Hypothesis Hname : ContractName ctx = bucket.

Lemma nominate_backed s r s' : ballots_backed s -> runNominateCandidate Name Version bucket call ctx s = (Ret r, s') -> ballots_backed s'.
Proof using All.
  intros (nom & vm & Hbk) E. unfold runNominateCandidate in E. bind E as c s1 E1. apply lift_step in E1 as [_ ->]. bind E as amount s1 E1. apply lift_step in E1 as [[Hi Hpos]%amount_ok ->].
  passes E B. bind E as r1 s1 E1. apply (lock_moves _ _ _ _ _ _ _ _ _ Hts Hbk Hname (Z.lt_le_incl _ _ Hpos)) in E1 as [Hmv _].
  bind E as res s2 E2. apply (nil_step _ _ _ _ _ _ (puts_refl _ (mv_inv _ _ _ _ Hmv))) in E2 as [Hp Hr]. rewrite (mv_bucket _ _ _ _ Hmv) in Hr.
  bind E as nominated s3 E3. apply default_step in E3 as [-> Hd].
  assert (nominated = nom) as -> by (destruct res; [apply (read_nominated _ _ _ _ Hbk) in Hr; congruence|by rewrite (no_nominated _ _ _ _ Hbk Hr)]).
  passes E B1. apply bool_decide_eq_false, eq_None_not_Some in B1. bind E as u s4 E4. apply (put_step _ _ _ _ _ _ _ Hp) in E4. apply (done_step _ _ _ _ _ E4) in E.
  exists (<[c := {[Initiator ctx := amount]}]> nom), vm. eapply (backed_after _ _ _ _ _ _ _ _ _ _ Hbk Hmv E).
  - left. unfold put1. by rewrite decide_True.
  - intros c'. left. unfold put1. rewrite decide_False by apply vote_not_nominate. done.
  - done.
  - apply map_Forall_insert_2; [|apply (bk_pledges _ _ _ Hbk)]. by exists (Initiator ctx), amount.
  - apply (bk_cast _ _ _ Hbk).
  - intros a. rewrite pledged_insert by done. lia.
Qed.

Lemma vote_backed s r s' : ballots_backed s -> runVote Name Version bucket call ctx s = (Ret r, s') -> ballots_backed s'.
Proof using All.
  intros (nom & vm & Hbk) E. unfold runVote in E. bind E as c s1 E1. apply lift_step in E1 as [_ ->]. bind E as amount s1 E1. apply lift_step in E1 as [[Hi Hpos]%amount_ok ->].
  bind E as r1 s1 E1. apply (lock_moves _ _ _ _ _ _ _ _ _ Hts Hbk Hname (Z.lt_le_incl _ _ Hpos)) in E1 as [Hmv Hmax].
  bind E as res s2 E2. apply (get_step _ _ _ _ _ _ (puts_refl _ (mv_inv _ _ _ _ Hmv))) in E2 as [Hp _]. bind E as nominated s3 E3. apply decoded_step in E3 as [_ ->]. passes E B.
  bind E as res' s3 E3. pose proof (pt_bucket _ _ _ Hp (voteKey c)) as Hsame. cbn in Hsame. apply (nil_step _ _ _ _ _ _ Hp) in E3 as [Hp' Hr]. rewrite Hsame, (mv_bucket _ _ _ _ Hmv) in Hr.
  bind E as votes s4 E4. apply default_step in E4 as [-> Hd].
  destruct (votes_found _ _ _ _ _ _ Hbk Hr Hd) as [Hvotes Hok]. pose proof (vote_at_most _ _ _ c (Initiator ctx) Hbk) as Hold. rewrite <- Hvotes in Hold. unfold int64_max in Hmax.
  bind E as u s5 E5. apply (put_step _ _ _ _ _ _ _ Hp') in E5. apply (done_step _ _ _ _ _ E5) in E. revert E. unfold add64. rewrite wrap64_id by in64. intros E.
  eexists nom, (<[c := _]> vm). eapply (backed_after _ _ _ _ _ _ _ _ _ _ Hbk Hmv E).
  - right. unfold put1. rewrite decide_False by (apply not_eq_sym, vote_not_nominate). done.
  - by apply vote_written.
  - intros c'. apply vote_untouched.
  - apply (bk_pledges _ _ _ Hbk).
  - apply map_Forall_insert_2; [|apply (bk_cast _ _ _ Hbk)]. apply map_Forall_insert_2; [|done]. in64.
  - intros a. rewrite cast_set, <- Hvotes. unfold voteValue in *. case_decide; [subst; rewrite lookup_insert_eq; cbn; lia|rewrite lookup_insert_ne by congruence; lia].
Qed.

Lemma put1_ne k k' v w : k' <> k -> put1 k v w k' = w k'.
Proof using Type. intros Hk. unfold put1. by rewrite decide_False. Qed.

Lemma revoke_vote_backed s r s' : ballots_backed s -> runRevokeVote Name Version bucket call ctx s = (Ret r, s') -> ballots_backed s'.
Proof using All.
  intros (nom & vm & Hbk) E. unfold runRevokeVote in E. bind E as c s1 E1. apply lift_step in E1 as [_ ->]. bind E as amount s1 E1. apply lift_step in E1 as [[Hi Hpos]%amount_ok ->].
  bind E as r1 s1 E1. apply (unlock_moves _ _ _ _ _ _ _ _ _ Hts Hbk Hname) in E1 as (Hi1 & Hb1 & Hmv).
  bind E as res s2 E2. apply (get_step _ _ _ _ _ _ (puts_refl _ Hi1)) in E2 as [Hp Hr]. rewrite Hb1 in Hr. bind E as votes s3 E3. apply decoded_step in E3 as [Hd ->].
  apply (read_votes_of _ _ _ _ _ Hbk) in Hr as (v & Ev & Hd'). rewrite Hd in Hd'. injection Hd' as ->. destruct (v !! Initiator ctx) as [n|] eqn:En; [|discriminate E]. passes E B. apply Z.ltb_ge in B.
  pose proof (cast_at_most _ _ _ _ _ _ _ Hbk Ev En) as Hle. pose proof (bk_cast _ _ _ Hbk _ _ Ev) as Hok. destruct (Hok _ _ En) as [Hin Hn]. specialize (Hmv ltac:(lia)).
  bind E as res' s4 E4. apply (nil_step _ _ _ _ _ _ Hp) in E4 as [Hp' _]. bind E as revoked s5 E5. apply default_step in E5 as [-> _].
  bind E as u s5 E5. apply (put_step _ _ _ _ _ _ _ Hp') in E5. bind E as u' s6 E6. apply (put_step _ _ _ _ _ _ _ E5) in E6. apply (done_step _ _ _ _ _ E6) in E.
  revert E. unfold sub64. rewrite wrap64_id by (revert Hin; unfold is_int64, int64_min, int64_max; lia). intros E.
  eexists nom, (<[c := _]> vm). eapply (backed_after _ _ _ _ _ _ _ _ _ _ Hbk Hmv E).
  - right. rewrite put1_ne by (apply not_eq_sym, vote_not_nominate). rewrite put1_ne by (apply not_eq_sym, revoke_not_nominate). done.
  - apply vote_written. intros c'. by rewrite put1_ne by apply vote_not_revoke.
  - intros c'. apply vote_untouched.
  - apply (bk_pledges _ _ _ Hbk).
  - apply map_Forall_insert_2; [|apply (bk_cast _ _ _ Hbk)]. destruct (Z.eqb_spec (n - amount) 0); [by apply map_Forall_delete|]. apply map_Forall_insert_2; [|done].
    revert Hin; unfold is_int64, int64_min, int64_max; lia.
  - intros a. rewrite cast_set, Ev. cbn [default from_option id]. unfold voteValue in *.
    destruct (Z.eqb_spec (n - amount) 0); case_decide; subst; rewrite ?En, ?lookup_delete_eq, ?lookup_insert_eq, ?lookup_delete_ne, ?lookup_insert_ne by congruence; cbn; lia.
Qed.

Lemma revoke_nominate_backed s r s' : ballots_backed s -> runRevokeCandidate Name Version bucket call ctx s = (Ret r, s') -> ballots_backed s'.
Proof using All.
  intros (nom & vm & Hbk0) E. unfold runRevokeCandidate in E. bind E as c s1 E1. apply lift_step in E1 as [_ ->]. bind E as res s1 E1.
  destruct (ctx_Get_law s bucket nKey (bk_inv _ _ _ Hbk0) Hslash) as (s1' & E1' & Hi & He). rewrite E1 in E1'. injection E1' as Hr <-. symmetry in Hr.
  bind E as nominated s2 E2. apply decoded_step in E2 as [Hd ->]. apply (read_nominated _ _ _ _ Hbk0) in Hr. rewrite Hr in Hd. injection Hd as <-.
  pose proof (backed_equiv _ _ _ _ Hbk0 Hi He) as Hbk. destruct (nom !! c) as [rec|] eqn:Ec; [|discriminate E]. destruct (bk_pledges _ _ _ Hbk _ _ Ec) as (who & n & -> & Hin & Hn).
  destruct ({[who := n]} !! Initiator ctx) as [ballot|] eqn:Eb; [|discriminate E]. apply lookup_singleton_Some in Eb as [-> ->].
  bind E as r1 s2 E2. apply (unlock_moves _ _ _ _ _ _ _ _ _ Hts Hbk Hname) in E2 as (_ & _ & Hmv). pose proof (pledged_at_most _ _ _ _ _ _ Hbk Ec). specialize (Hmv ltac:(lia)).
  bind E as res' s3 E3. apply (nil_step _ _ _ _ _ _ (puts_refl _ (mv_inv _ _ _ _ Hmv))) in E3 as [Hp _]. bind E as revoked s4 E4. apply default_step in E4 as [-> _].
  bind E as u s4 E4. apply (put_step _ _ _ _ _ _ _ Hp) in E4. bind E as u' s5 E5. apply (put_step _ _ _ _ _ _ _ E4) in E5. apply (done_step _ _ _ _ _ E5) in E.
  exists (delete c nom), vm. eapply (backed_after _ _ _ _ _ _ _ _ _ _ Hbk Hmv E).
  - left. unfold put1. by rewrite decide_True.
  - intros c'. left. rewrite !put1_ne by (apply vote_not_nominate || apply vote_not_revoke). done.
  - done.
  - apply map_Forall_delete, (bk_pledges _ _ _ Hbk).
  - apply (bk_cast _ _ _ Hbk).
  - intros a. rewrite (pledged_delete _ _ _ _ a Ec). lia.
Qed.
End Methods.

(** ** The election, with the token contract as a service *)

Inductive election_step call : KState S -> KState S -> Prop :=
| step_call (ctx : Context) method h r s s' : ContractName ctx = bucket -> (method, h) ∈ [("nominateCandidate", runNominateCandidate Name Version bucket);
    ("revokeNominate", runRevokeCandidate Name Version bucket); ("voteCandidate", runVote Name Version bucket); ("revokeVote", runRevokeVote Name Version bucket)] ->
  h call ctx s = (Ret r, s') -> election_step call s s'.

Lemma election_keeps_backed call s s' : token_service bucket call -> rtc (election_step call) s s' -> ballots_backed s -> ballots_backed s'.
Proof using Hslash Hgov.
  intros Hts Hrun. induction Hrun as [|s1 s2 s3 Hs _ IH]; [done|]. intros Hb. apply IH. clear IH. destruct Hs as [ctx m h r s1 s2 Hn Hin E].
  rewrite !elem_of_cons, elem_of_nil in Hin. destruct Hin as [[= -> ->]|[[= -> ->]|[[= -> ->]|[[= -> ->]|[]]]]];
    [eapply nominate_backed|eapply revoke_nominate_backed|eapply vote_backed|eapply revoke_vote_backed]; eassumption.
Qed.
End Service.

(** ** The token contract provides the service *)

Section Provider.
Context {S : Type} `{StateSandboxLaws S}.
Variables (t : GovKernMethod) (registry : registryImpl (KernMethod S)) (perm : string -> list string -> string -> string -> bool)
  (vm : string -> Context -> string -> M (KState S) Response) (fuel : nat) (bucket : string).
Hypothesis Hlock : GetKernMethod registry GovernTokenKernelContract "Lock" = Ret (LockGovernTokens t).
Hypothesis Hunlock : GetKernMethod registry GovernTokenKernelContract "UnLock" = Ret (UnLockGovernTokens t).
Hypothesis Hbucket : bucket ∈ [TDPOSKernelContract; XPOSKernelContract].
Implicit Types s : KState S.

(** What a call of a kernel method that returns comes down to. *)
Lemma kernel_call_ret h ctx c method args s r s' : method <> "initialize" -> GetKernMethod registry c method = Ret h ->
  ContractCall registry perm vm fuel ctx TypeKernel c method args s = (Ret r, s') ->
  exists call cx u g s2, Caller cx = ContractName ctx /\ Args cx = args /\ h call cx (mkKState (kst_sandbox s) u g) = (Ret r, s2) /\ kst_sandbox s' = kst_sandbox s2.
Proof using Type.
  intros Hm Hh E. destruct fuel as [|n]; [discriminate E|]. cbn [ContractCall] in E.
  do 3 (match type of E with (if ?b then _ else _) = _ => destruct b; [discriminate E|] end). rewrite bool_decide_eq_true_2 in E by reflexivity.
  match type of E with (let (_, _) := ?x in _) = _ => destruct x as [o2 s2] eqn:E2 end. injection E as -> <-.
  unfold Invoke in E2. rewrite bool_decide_eq_false_2 in E2 by done. apply mbnd_inv_ret in E2 as (h' & s3 & E3 & E2). unfold mlift in E3. cbn [ContractName] in E3. rewrite Hh in E3. injection E3 as <- <-.
  apply mbnd_inv_ret in E2 as (resp & s4 & E4 & E2). destruct (Limits_Exceed _ _); [discriminate E2|]. injection E2 as -> ->.
  do 5 eexists. split_and!; [| |exact E4|]; reflexivity.
Qed.

Lemma account_sandbox s s' a : kst_sandbox s = kst_sandbox s' -> account s a = account s' a.
Proof using Type. intros E. unfold account, kview. by rewrite E. Qed.
Lemma gov_wf_sandbox s s' : kst_sandbox s = kst_sandbox s' -> gov_wf s -> gov_wf s'.
Proof using Type. intros E. unfold gov_wf, kview. by rewrite E. Qed.
Lemma tdpos_lock_args cx who amount : Caller cx = bucket -> Args cx = tokenArgs who amount -> lock_args cx who amount GovernTokenTypeTDPOS.
Proof using Hbucket.
  intros Hc Ha. split; [|rewrite Ha; unfold tokenArgs..|].
  - rewrite Hc. rewrite !elem_of_cons, elem_of_nil in Hbucket. destruct Hbucket as [->|[->|[]]]; reflexivity.
  - reflexivity.
  - rewrite lookup_insert_ne, lookup_insert_eq by done. cbn [fmap option_fmap option_map blob_SetString]. by rewrite SetString_bigString.
  - reflexivity.
  - reflexivity.
Qed.

Lemma unlock_no_account s call cx who amount r s' : kinv s -> lock_args cx who amount GovernTokenTypeTDPOS -> account s who = None -> UnLockGovernTokens t call cx s <> (Ret r, s').
Proof using Type.
  intros Hi [Hc Hfrom Ham Hlt Hok] Ha E. unfold UnLockGovernTokens in E. rewrite Hc in E. cbn [negb] in E.
  apply fmap_Some in Hfrom as (fb & Ef & ->). apply fmap_Some in Ham as (ab & Ea & ->). apply fmap_Some in Hlt as (lb & El & _). rewrite Ef, Ea, El in E. apply mbnd_inv_ret in E as (b & s1 & E1 & _).
  destruct (with_balance_law s (blob_string fb) "unlock gov tokens failed, query account balance error" Hi) as (s2 & E2 & _). rewrite Ha, E1 in E2. discriminate E2.
Qed.

Lemma kernel_call_frames h ctx c method args : GetKernMethod registry c method = Ret h -> (forall call cx, frames bucket (h call cx)) ->
  frames bucket (ContractCall registry perm vm fuel ctx TypeKernel c method args).
Proof using Type.
  intros Hh Hf s o s' Hi E. destruct fuel as [|n]; [by injection E as <- <-|]. cbn [ContractCall] in E.
  do 3 (match type of E with (if ?b then _ else _) = _ => destruct b; [by injection E as <- <-|] end). rewrite bool_decide_eq_true_2 in E by reflexivity.
  match type of E with (let (_, _) := ?x in _) = _ => destruct x as [o2 s2] eqn:E2 end. injection E as <- <-.
  unfold Invoke in E2. case_bool_decide; [by injection E2 as <- <-|]. revert E2. cbn [ContractName]. rewrite Hh. unfold mlift, mbnd at 1. intros E2.
  match type of E2 with ?m ?st = _ => assert (frames bucket m) as Hm end.
  { apply frames_bnd; [apply Hf|]. intros resp s3 o3 s3' Hi3 E3. destruct (Limits_Exceed _ _); by injection E3 as <- <-. }
  apply Hm in E2 as [Hi2 Hv2]; [|exact Hi]. split; [exact Hi2|exact Hv2].
Qed.

Lemma token_methods_frame call cx : frames bucket (LockGovernTokens t call cx) /\ frames bucket (UnLockGovernTokens t call cx).
Proof using Hbucket.
  rewrite !elem_of_cons, elem_of_nil in Hbucket. destruct Hbucket as [->|[->|[]]];
    (split; [unfold LockGovernTokens|unfold UnLockGovernTokens]; unfold with_message, balanceOf, lockedOf, ok_response; frames_solve).
Qed.

Lemma gov_service : token_service bucket (ContractCall registry perm vm fuel).
Proof using Hlock Hunlock Hbucket.
  split.
  - intros ctx method args Hm. rewrite !elem_of_cons, elem_of_nil in Hm. destruct Hm as [->|[->|[]]]; (eapply kernel_call_frames; [eassumption|]); intros; apply token_methods_frame.
  - intros s ctx who amount r s' Hi Hwf Hc Hpos E. apply (kernel_call_ret _ _ _ "Lock" _ _ _ _ ltac:(discriminate) Hlock) in E as (call & cx & u & g & s2 & Hcx & Ha & E & Hs).
    pose proof (Lock_law t (mkKState (kst_sandbox s) u g) call cx who amount GovernTokenTypeTDPOS Hi (gov_wf_docs _ (gov_wf_sandbox s _ eq_refl Hwf)) (tdpos_lock_args cx who amount ltac:(congruence) Ha)) as HL.
    rewrite (account_sandbox _ s) in HL by done. destruct (account s who) as [b|]; [|destruct HL as (? & EL & _); congruence]. exists b. split; [done|].
    destruct (Z.ltb_spec (TotalBalance b - lockedAmount b GovernTokenTypeTDPOS) amount); destruct HL as (s3 & EL & HL); rewrite E in EL; [discriminate EL|]. injection EL as -> ->. destruct HL as (_ & _ & Hwf' & _ & Hacc).
    split; [lia|]. split; [by apply (gov_wf_sandbox s3); [|apply Hwf']|]. intros a. by rewrite (account_sandbox _ s3), Hacc by done.
  - intros s ctx who amount r s' Hi Hwf Hc E. apply (kernel_call_ret _ _ _ "UnLock" _ _ _ _ ltac:(discriminate) Hunlock) in E as (call & cx & u & g & s2 & Hcx & Ha & E & Hs).
    assert (lock_args cx who amount GovernTokenTypeTDPOS) as Hargs by (apply tdpos_lock_args; congruence).
    destruct (account s who) as [b|] eqn:Eb.
    + destruct (UnLock_law t (mkKState (kst_sandbox s) u g) call cx who amount GovernTokenTypeTDPOS b Hi (gov_wf_docs _ (gov_wf_sandbox s _ eq_refl Hwf)) Hargs) as (s3 & EL & _ & _ & Hwf' & _ & Hacc); [done|].
      rewrite E in EL. injection EL as -> ->. exists b. split; [done|]. split; [intros Hle; by apply (gov_wf_sandbox s3); [|apply Hwf']|].
      intros a. rewrite (account_sandbox _ s3), Hacc by done. done.
    + by apply unlock_no_account with (who := who) (amount := amount) in E.
Qed.
End Provider.

(** ** Every ballot is paid for *)

(** C11: as long as the election contract changes its state through its own methods, what an account has pledged for candidates and cast in votes stays
    exactly what it has locked for tdpos: over any sequence of successful nominations, votes and revocations of either, for any accounts, candidates and
    amounts, with the token contract registered behind [ContractCall]; ballots stay positive, every nomination has one pledge, and no ballot overflows. *)
Theorem ballots_stay_backed {St : Type} `{StateSandboxLaws St} (t : GovKernMethod) (registry : registryImpl (KernMethod St)) perm vm fuel Name Version bucket s s' :
  GetKernMethod registry GovernTokenKernelContract "Lock" = Ret (LockGovernTokens t) -> GetKernMethod registry GovernTokenKernelContract "UnLock" = Ret (UnLockGovernTokens t) ->
  bucket ∈ [TDPOSKernelContract; XPOSKernelContract] -> ballots_backed Name Version bucket s ->
  rtc (election_step Name Version bucket (ContractCall registry perm vm fuel)) s s' -> ballots_backed Name Version bucket s'.
Proof.
  intros Hl Hu Hb Hs Hrun. eapply election_keeps_backed; [..|exact Hrun|exact Hs].
  1, 2: rewrite !elem_of_cons, elem_of_nil in Hb; destruct Hb as [->|[->|[]]]; done.
  by eapply gov_service.
Qed.

(** Before the first ballot. *)
Lemma fresh_backed {St : Type} `{StateSandboxLaws St} Name Version bucket (s : KState St) : kinv s -> gov_wf s -> (forall k, kview s bucket k = Err ErrNotFound) ->
  (forall a b, account s a = Some b -> TotalBalance b <= int64_max /\ lockedAmount b GovernTokenTypeTDPOS = 0) -> ballots_backed Name Version bucket s.
Proof.
  intros Hi Hg Hk Ha. exists ∅, ∅. split; [exact Hi|exact Hg|intros a b E; apply (Ha _ _ E)|right; split; [reflexivity|apply Hk]| | | |].
  - intros c. apply Hk.
  - apply map_Forall_empty.
  - apply map_Forall_empty.
  - intros a. unfold locked_of. destruct (account s a) as [b|] eqn:E; [|reflexivity]. by rewrite (proj2 (Ha _ _ E)).
Qed.

(** ** An election *)

Module BallotExample.
Import Fresh.

Definition registry : registryImpl (KernMethod store) :=
  snd (register_all (gov_methods GovExample.t) NewRegistry).
Definition call : CallFn store := ContractCall registry (fun _ _ _ _ => true) (fun _ _ _ => mpanic) 12.
Definition ctx (who : string) (args : list (string * string)) : Context :=
  mkContext TDPOSKernelContract who "" [] (list_to_map ((fun kv => (kv.1, Raw kv.2)) <$> args)) MaxLimits.

Definition s0 : KState store := snd (InitGovernTokens GovExample.t call (ctx "alice" []) (start TDPOSKernelContract)).
Definition nominate := runNominateCandidate "tdpos" 0 TDPOSKernelContract call (ctx "alice" [("candidate", "alice"); ("amount", "300")]).
Definition vote := runVote "tdpos" 0 TDPOSKernelContract call (ctx "bob" [("candidate", "alice"); ("amount", "200")]).
Definition unvote := runRevokeVote "tdpos" 0 TDPOSKernelContract call (ctx "bob" [("candidate", "alice"); ("amount", "50")]).
Definition s1 := snd (nominate s0).
Definition s2 := snd (vote s1).
Definition s3 := snd (unvote s2).

Lemma election_distribute_frames l sum : frames TDPOSKernelContract (distribute (S := store) l sum).
Proof. revert sum. induction l as [|p l IH]; intros sum; cbn [distribute]; frames_solve. Qed.
Lemma election_init_frames c cx : frames TDPOSKernelContract (InitGovernTokens (S := store) GovExample.t c cx).
Proof.
  pose proof election_distribute_frames as Hd. unfold InitGovernTokens, ok_response. frames_solve.
Qed.

Lemma s0_backed : ballots_backed "tdpos" 0 TDPOSKernelContract s0.
Proof.
  destruct (Init_accepted GovExample.t (start TDPOSKernelContract) call (ctx "alice" []) (start_inv _)) as (s' & E & Hi & _ & _ & Hin & Hout);
    [reflexivity|vm_compute; apply NoDup_cons_2; [set_solver|apply NoDup_singleton]|repeat constructor; vm_compute; congruence|].
  assert (s' = s0) as -> by (unfold s0; by rewrite E).
  assert (forall a b, account s0 a = Some b -> exists n, 0 <= n <= int64_max /\ b = mkBalance n no_locks) as Hacc.
  { intros a b Eb. destruct (decide (a ∈ Address <$> Predistributions GovExample.t)) as [Ha|Ha].
    - cbn in Ha. rewrite !elem_of_cons, elem_of_nil in Ha. destruct Ha as [->|[->|[]]].
      + pose proof (Hin (mkPredistribution "alice" "1000") ltac:(left)) as Ea. cbn [Address] in Ea. rewrite Ea in Eb. injection Eb as <-. eexists. split; [|reflexivity]. vm_compute; split; congruence.
      + pose proof (Hin (mkPredistribution "bob" "500") ltac:(right; left)) as Ea. cbn [Address] in Ea. rewrite Ea in Eb. injection Eb as <-. eexists. split; [|reflexivity]. vm_compute; split; congruence.
    - rewrite (Hout a Ha) in Eb. unfold account in Eb. by rewrite start_view in Eb. }
  apply fresh_backed; [done| | |].
  - eapply (Init_wf GovExample.t (start TDPOSKernelContract)); [apply start_inv| |unfold s0; apply surjective_pairing]. intros a buf. by rewrite start_view.
  - intros k. destruct (election_init_frames call (ctx "alice" []) (start TDPOSKernelContract) _ s0 (start_inv _) (surjective_pairing _)) as [_ ->]. by rewrite start_view.
  - intros a b (n & Hn & ->)%Hacc. split; [cbn; lia|apply lockedAmount_no_locks].
Qed.

Lemma s1_step : election_step "tdpos" 0 TDPOSKernelContract call s0 s1.
Proof. eapply step_call with (ctx := ctx "alice" [("candidate", "alice"); ("amount", "300")]); [reflexivity|left|]. assert (fst (nominate s0) = Ret (resp_ok (Some (Raw "ok")))) as E by (vm_compute; reflexivity). unfold s1. rewrite <- E. apply surjective_pairing. Qed.
Lemma s2_step : election_step "tdpos" 0 TDPOSKernelContract call s1 s2.
Proof. eapply step_call with (ctx := ctx "bob" [("candidate", "alice"); ("amount", "200")]); [reflexivity|do 2 right; left|]. assert (fst (vote s1) = Ret (resp_ok (Some (Raw "ok")))) as E by (vm_compute; reflexivity). unfold s2. rewrite <- E. apply surjective_pairing. Qed.
Lemma s3_step : election_step "tdpos" 0 TDPOSKernelContract call s2 s3.
Proof. eapply step_call with (ctx := ctx "bob" [("candidate", "alice"); ("amount", "50")]); [reflexivity|do 3 right; left|]. assert (fst (unvote s2) = Ret (resp_ok (Some (Raw "ok")))) as E by (vm_compute; reflexivity). unfold s3. rewrite <- E. apply surjective_pairing. Qed.
End BallotExample.

Import Fresh.

Lemma ballots_stay_backed_witness :
  ballots_backed "tdpos" 0 TDPOSKernelContract BallotExample.s3 /\ locked_of BallotExample.s3 "alice" = 300 /\ locked_of BallotExample.s3 "bob" = 150.
Proof.
  split; [|split; vm_compute; reflexivity].
  apply (ballots_stay_backed GovExample.t BallotExample.registry (fun _ _ _ _ => true) (fun _ _ _ => mpanic) 12 "tdpos" 0 TDPOSKernelContract BallotExample.s0 BallotExample.s3).
  - reflexivity.
  - reflexivity.
  - left.
  - exact BallotExample.s0_backed.
  - eapply rtc_l; [exact BallotExample.s1_step|]. eapply rtc_l; [exact BallotExample.s2_step|]. apply rtc_once. exact BallotExample.s3_step.
Defined.
