(* ===== verification/Xpoa.v ===== *)
(** * Xpoa: the schedule and the miner's part

    [bcs/consensus/xpoa]: [common.go], [schedule.go] and [xpoa.go].  The producers
    take turns by the clock; their list is a value of the extended model, read in a
    snapshot three blocks below.  The contract that edits the list is in the file
    XpoaContract.

    Time is an argument, as in the file Tdpos; the chain is seen through
    [LedgerRely], and the replica of the file Smr is driven when chained BFT is on.
    A list of validators is an option, [None] for nil. *)

From Stdlib Require Import ZArith Lia Ascii.
From stdpp Require Import base gmap strings list numbers sorting.
From S2P Require Import Prelude GoValues LedgerHash QCTree Smr Consensus.

Set Default Proof Using "Type".

(** ** Constants and configuration *)

Definition xpoaBucket : string := "$xpoa".
Definition poaBucket : string := "$poa".
Definition validateKeys : string := "validates".

Definition MinerSelectErr : string := "Node isn't a miner, calculate error.".
Definition NotValidContract : string := "Cannot get valid res with contract.".
Definition targetParamErr : string := "Target paramters are invalid, please check them.".
Definition scheduleErr : string := "minerScheduling overflow".

Record xpoaConfig := mkConfig { BlockNum : Z; Period : Z; InitProposer : option (list string); EnableBFT : option (gmap string bool) }.

(** A slice of strings, nil when it is null or absent. *)
Definition dec_addresses (j : json) : option (option (list string)) := match j with JNull => Some None | _ => Some <$> dec_strings j end.
(** [json.Unmarshal] into a [ProposerInfo]: its [Address]. *)
Definition dec_ProposerInfo (l : list (string * json)) : option (option (list string)) := field dec_addresses "address" l None.

Definition loadValidatorsMultiInfo (res : option blob) : outcome (option (list string)) :=
  match res with
  | None => Err NotValidContract
  | Some (Raw t) => if bool_decide (t = "null") then Ret None else Err "invalid character"
  | Some (Doc l) => match dec_ProposerInfo l with Some v => Ret v | None => Err "json: cannot unmarshal into Go value" end
  end.

(** Both formats of the version: a number, or a string of digits. *)
Definition ParseVersion (cfg : blob) : outcome Z :=
  match cfg with
  | Raw _ => Err "invalid character"
  | Doc l =>
      match field_int64 "version" l 0%Z with
      | Some v => Ret v
      | None =>
          match field_str "version" l "" with
          | None => Err "json: cannot unmarshal into Go value"
          | Some s => match ParseInt64 s with Some v => Ret v | None => Err "strconv.ParseInt: parsing" end
          end
      end
  end.

(** ** The schedule *)

Record xpoaSchedule := mkSchedule {
  address : string; period : Z; blockNum : Z; validators : list string; miner : string; initValidators : list string; startHeight : Z;
  enableBFT : bool; consensusName : string; consensusVersion : Z; bindContractBucket : string
}.

Definition set_validators (s : xpoaSchedule) (v : list string) : xpoaSchedule :=
  mkSchedule (address s) (period s) (blockNum s) v (miner s) (initValidators s) (startHeight s) (enableBFT s) (consensusName s) (consensusVersion s) (bindContractBucket s).
Definition set_miner (s : xpoaSchedule) (m : string) : xpoaSchedule :=
  mkSchedule (address s) (period s) (blockNum s) (validators s) m (initValidators s) (startHeight s) (enableBFT s) (consensusName s) (consensusVersion s) (bindContractBucket s).

Definition validators_key (s : xpoaSchedule) : string := bigString (consensusVersion s) +:+ "_" +:+ validateKeys.

(** The term, the position among the producers and the number of the block of an
    instant; terms and blocks are numbered from one. *)
Definition minerScheduling (s : xpoaSchedule) (timestamp : Z) (len : nat) : outcome (Z * Z * Z) :=
  let T := Z.quot timestamp Millisecond in
  let termTime := mul64 (mul64 (period s) (Z.of_nat len)) (blockNum s) in
  let posTime := mul64 (period s) (blockNum s) in
  q ← div64 T termTime;
  let term := add64 q 1 in
  let resTime := sub64 T (mul64 (sub64 term 1) termTime) in
  pos ← div64 resTime posTime;
  let resTime := sub64 resTime (mul64 pos posTime) in
  b ← div64 resTime (period s);
  Ret (term, pos, add64 b 1).

Section Schedule.
Variable ledger : LedgerRely.
Implicit Types s : xpoaSchedule.

Definition getValidatesByBlockId s (blockId : string) : outcome (option (list string)) :=
  reader ← CreateSnapshot ledger blockId;
  res ← reader (bindContractBucket s) (validators_key s);
  match res with
  | None => Ret (nil_if_empty (initValidators s))
  | Some _ => loadValidatorsMultiInfo res
  end.

Definition getValidates s (height : Z) : outcome (option (list string)) :=
  if (height <? add64 (startHeight s) 3)%Z then Ret (nil_if_empty (initValidators s))
  else
    b ← QueryBlockHeaderByHeight ledger (sub64 height 3);
    getValidatesByBlockId s (Blockid b).

Definition UpdateValidator s (height : Z) : outcome (bool * xpoaSchedule) :=
  match getValidates s height with
  | Panic => Panic
  | Err _ | Ret None | Ret (Some []) => Ret (false, s)
  | Ret (Some v) => if negb (AddressEqual v (validators s)) then Ret (true, set_validators s v) else Ret (false, s)
  end.

(** With chained BFT the block itself says at which height its validators are
    to be looked up, when it was made after a roll back. *)
Definition GetLocalValidates s (round : Z) (storage : ConsensusStorage) : outcome (option (list string)) :=
  let targetHeight := sub64 round 1 in
  if (targetHeight <=? 3)%Z then Ret (nil_if_empty (initValidators s))
  else
    let targetHeight := if enableBFT s && negb (cs_TargetBits storage =? 0)%Z then cs_TargetBits storage else targetHeight in
    match getValidates s targetHeight with
    | Ret (Some v) => Ret (Some v)
    | Panic => Panic
    | _ => Err targetParamErr
    end.

Definition GetLocalLeader s (timestamp round : Z) (storage : ConsensusStorage) : outcome string :=
  match GetLocalValidates s round storage with
  | Panic => Panic
  | Err _ => Ret ""
  | Ret v =>
      let localValidators := default [] v in
      '(_, pos, blockPos) ← minerScheduling s timestamp (length localValidators);
      if (blockPos <? 0)%Z || (blockNum s <? blockPos)%Z || (Z.of_nat (length localValidators) <=? pos)%Z then Ret ""
      else index64 localValidators pos
  end.

(** Errors are taken for nil. *)
Definition or_nil (o : outcome (option (list string))) : outcome (option (list string)) := match o with Err _ => Ret None | _ => o end.

Definition GetValidators s (round : Z) : outcome (option (list string)) :=
  if (sub64 round 1 <=? 3)%Z then Ret (nil_if_empty (initValidators s))
  else
    match QueryBlockHeaderByHeight ledger round with
    | Panic => Panic
    | Err _ => or_nil (getValidates s (sub64 round 1))
    | Ret block => or_nil (GetLocalValidates s round (GetConsensusStorage block))
    end.

Definition GetLeader s (now round : Z) : outcome string :=
  match QueryBlockHeaderByHeight ledger round with
  | Ret b => Ret (Proposer b)
  | Panic => Panic
  | Err _ =>
      v ← GetValidators s round;
      match v with
      | None => Ret ""
      | Some v =>
          let nTime := if (Height (QueryTipBlockHeader ledger) <? round)%Z then add64 now (mul64 (period s) Millisecond) else now in
          '(_, pos, _) ← minerScheduling s nTime (length v);
          index64 v pos
      end
  end.

(** [None] when no schedule is made; [tip] is the snapshot at the tip. *)
Definition NewXpoaSchedule (account : string) (xconfig : xpoaConfig) (tip : string -> string -> outcome (option blob)) (start version : Z) : outcome (option xpoaSchedule) :=
  let bft := match EnableBFT xconfig with Some _ => true | None => false end in
  let init := default [] (InitProposer xconfig) in
  let s := mkSchedule account (Period xconfig) (BlockNum xconfig) [] "" init start bft (if bft then "xpoa" else "poa") version (if bft then xpoaBucket else poaBucket) in
  match tip (bindContractBucket s) (validators_key s) with
  | Panic => Panic
  | Err _ => Ret None
  | Ret res => Ret (Some (set_validators s (match loadValidatorsMultiInfo res with Ret (Some v) => v | _ => init end)))
  end.
End Schedule.

(** ** The plugin *)

Record xpoaConsensus := mkXpoa { isProduce : gmap Z bool; election : xpoaSchedule; smr : SmrState }.

Section Plugin.
Context `{ProtoQC}.
Variable ledger : LedgerRely.
(** The cryptography of the replica. *)
Variable VerifyVoteMsgSign : QuorumCertSign -> bytes -> bool * option string.
Variable SignVoteMsg : bytes -> outcome QuorumCertSign.
Variable SignProposalMsg : Z -> bytes -> Z -> JustifyQC -> outcome QuorumCertSign.

(** The node is the producer of the slot [pos] or not. *)
Definition take_turn (x : xpoaConsensus) (s : xpoaSchedule) (pos : Z) : outcome (bool * bool) * xpoaConsensus :=
  match index64 (validators s) pos with
  | Ret m =>
      let x := mkXpoa (isProduce x) (set_miner s m) (smr x) in
      let tipBlock := GetTipBlock ledger in
      if bool_decide (m = address s) then (Ret (true, (Height tipBlock =? 0)%Z || negb (bool_decide (Proposer tipBlock = m))), x)
      else (Ret (false, false), x)
  | _ => (Panic, mkXpoa (isProduce x) s (smr x))
  end.

(** One pass takes two readings of the clock; [None] while the node is still
    waiting. *)
Fixpoint CompeteMaster (clock : list Z) (x : xpoaConsensus) : option (outcome (bool * bool) * xpoaConsensus) :=
  match clock with
  | now1 :: now2 :: clock =>
      let s := election x in
      match div64 (Z.quot now1 Millisecond) (period s) with
      | Ret key =>
          match isProduce x !! key with
          | Some true =>
              match CleanProduceMap now2 (period s) (isProduce x) with
              | Ret cleaned => CompeteMaster clock (mkXpoa cleaned s (smr x))
              | _ => Some (Panic, x)
              end
          | _ =>
              let x := mkXpoa (<[key := true]> (isProduce x)) s (smr x) in
              match UpdateValidator ledger s (Height (GetTipBlock ledger)) with
              | Ret (_, s) =>
                  match minerScheduling s now2 (length (validators s)) with
                  | Ret (_, pos, blockPos) =>
                      if (blockNum s <? blockPos)%Z || (Z.of_nat (length (validators s)) <=? pos)%Z then CompeteMaster clock (mkXpoa (isProduce x) s (smr x))
                      else Some (take_turn x s pos)
                  | _ => Some (Panic, mkXpoa (isProduce x) s (smr x))
                  end
              | _ => Some (Panic, x)
              end
          end
      | _ => Some (Panic, x)
      end
  | _ => None
  end.

(** The justify of the block is certified by the validators of its parent. *)
Definition check_justify (x : xpoaConsensus) (block : InternalBlock) : outcome bool :=
  justify ← OldQCToNew (GetConsensusStorage block);
  match QueryBlockHeader ledger (PreHash block) with
  | Ret preBlock =>
      vals ← or_nil (GetLocalValidates ledger (election x) (GetProposalView justify) (GetConsensusStorage preBlock));
      _ ← CheckProposal VerifyVoteMsgSign (smr x) (In (blockToProposalNode (smr x) (block_of block))) justify (nil_if_empty (default [] vals));
      Ret true
  | _ => Panic
  end.

Definition CheckMinerMatch (x : xpoaConsensus) (block : InternalBlock) : outcome bool :=
  let s := election x in
  proposer ← GetLocalLeader ledger s (Timestamp block) (Height block) (GetConsensusStorage block);
  if negb (bool_decide (proposer = Proposer block)) then Err MinerSelectErr
  else if negb (enableBFT s) then Ret true
  else if (Height block <=? startHeight s)%Z then Ret true
  else check_justify x block.

(** The election as the replica asks it; a panic of the schedule is taken for nil. *)
Definition election_validators (s : xpoaSchedule) (round : Z) : option (list string) :=
  match GetValidators ledger s round with Ret v => v | _ => None end.

Definition query_block (id : bytes) : option Block :=
  match QueryBlockHeader ledger (default "" id) with Ret b => Some (block_of b) | _ => None end.

(** The block to go back to, if any, and the storage of the new block, if any. *)
Definition ProcessBeforeMiner : M xpoaConsensus (bytes * option ConsensusStorage) := fun x =>
  let s := election x in
  if negb (enableBFT s) then (Ret (None, None), x)
  else
    let tipBlock := GetTipBlock ledger in
    match ResetProposerStatus (election_validators s) (Z.to_nat (Height tipBlock) + 2) query_block (block_of tipBlock) (validators s) (smr x) with
    | (Ret (truncate, qc), sm) =>
        let x := mkXpoa (isProduce x) s sm in
        if truncate then (Ret (GetProposalId qc, Some (mkStorage (Some (NewToOldQC qc)) 0 0 (wrap32 (Height tipBlock)))), x)
        else (Ret (None, Some (mkStorage (Some (NewToOldQC qc)) 0 0 0)), x)
    | (Err e, sm) => (Err e, mkXpoa (isProduce x) s sm)
    | (Panic, sm) => (Panic, mkXpoa (isProduce x) s sm)
    end.

Definition ProcessConfirmBlock (now : Z) (block : InternalBlock) : M xpoaConsensus unit := fun x =>
  let s := election x in
  if negb (enableBFT s) then (Ret tt, x)
  else
    match (if (startHeight s <? Height block)%Z then Some <$> OldQCToNew (GetConsensusStorage block) else Ret None) with
    | Ret justify =>
        match minerScheduling s (Timestamp block) (length (validators s)) with
        | Ret (_, pos, blockPos) =>
            if (blockNum s <? blockPos)%Z || (Z.of_nat (length (validators s)) <=? pos)%Z then (Err scheduleErr, x)
            else
              match index64 (validators s) pos with
              | Ret v =>
                  let minerValidator :=
                    if bool_decide (v = address s) && bool_decide (Proposer block = address s) then GetValidators ledger s (add64 (Height block) 1) else Ret None in
                  match minerValidator with
                  | Ret minerValidator =>
                      let (r, sm) := KeepUpWithBlock (address s) SignVoteMsg SignProposalMsg now (block_of block) justify minerValidator (smr x) in
                      (r, mkXpoa (isProduce x) s sm)
                  | _ => (Panic, x)
                  end
              | _ => (Panic, x)
              end
        | _ => (Panic, x)
        end
    | Err e => (Err e, x)
    | Panic => (Panic, x)
    end.

Definition initBFT (x : xpoaConsensus) : outcome xpoaConsensus :=
  sm ← Consensus.initBFT ledger (startHeight (election x));
  Ret (mkXpoa (isProduce x) (election x) (default (smr x) sm)).
End Plugin.
