(* ===== verification/XpoaContract.v ===== *)
(** * Xpoa: the contract that edits the producers

    [bcs/consensus/xpoa/kernel_contract.go] and the functions of [common.go] it
    uses.  Weights and thresholds are [float64], as in the file Acl. *)

From Stdlib Require Import ZArith Lia Ascii SpecFloat.
From stdpp Require Import base gmap strings list numbers sorting.
From S2P Require Import Prelude GoValues Sandbox KContext LedgerHash QCTree Smr Consensus Acl Xpoa.

Set Default Proof Using "Type".

(** ** Numbers as text *)

Definition float_sub : float64 -> float64 -> float64 := SFsub 53 1024.
Definition float_lt : float64 -> float64 -> bool := SFltb.
Definition float_eq : float64 -> float64 -> bool := SFeqb.
Definition is_finite (f : float64) : bool := match f with S754_infinity _ | S754_nan => false | _ => true end.

Definition lower_ascii (c : ascii) : ascii :=
  let n := nat_of_ascii c in if (65 <=? n)%nat && (n <=? 90)%nat then ascii_of_nat (n + 32) else c.
Fixpoint to_lower (s : string) : string := match s with "" => "" | String c s => String (lower_ascii c) (to_lower s) end.

(** The value [m * 10^e]. *)
Definition float_scaled (m e : Z) : float64 :=
  if (e <? 0)%Z then float_decimal m (Z.to_nat (- e)) else float_decimal (m * 10 ^ e) 0.

(** An exponent, and nothing after it. *)
Definition scan_exponent (s : string) : option Z :=
  match s with
  | "" => Some 0%Z
  | String c s => if Ascii.eqb (lower_ascii c) "e" then (let (e, ok) := SetString s in if ok then Some e else None) else None
  end.

(** [strconv.ParseFloat(s, 64)] of a decimal number; numbers too large are an
    error.  Hexadecimal notation is left out. *)
Definition ParseFloat (s : string) : option float64 :=
  let (neg, body) := split_sign s in
  let sign f := if neg then SFopp f else f in
  if bool_decide (to_lower body = "inf" \/ to_lower body = "infinity") then Some (sign (S754_infinity false))
  else if bool_decide (to_lower s = "nan") then Some S754_nan
  else
    let (whole, rest) := scan_digits 0 body in
    let '(m, rest') := match rest with String "." f => scan_digits whole f | _ => (whole, rest) end in
    let frac := match rest with String "." f => (String.length f - String.length rest')%nat | _ => O end in
    if negb (has_digit body || (0 <? frac)%nat) then None
    else
      match scan_exponent rest' with
      | None => None
      | Some e => let f := float_scaled m (e - Z.of_nat frac) in if is_finite f then Some (sign f) else None
      end.

(** [strconv.ParseInt(s, 10, 32)] *)
Definition ParseInt32 (s : string) : option Z :=
  let (v, ok) := SetString s in
  if ok && bool_decide (-2147483648 <= v < 2147483648)%Z then Some v else None.

(** [strings.Split(s, ";")]: never empty. *)
Fixpoint Split (s : string) : list string :=
  match s with
  | "" => [""]
  | String c s' => if Ascii.eqb c ";" then "" :: Split s'
                   else match Split s' with x :: l => String c x :: l | [] => [String c ""] end
  end.

(** ** Who may edit *)

Definition Find (a : string) (t : list string) : bool := bool_decide (a ∈ t).

Definition CalFault (input sum : Z) : bool :=
  let f := quot64 (sub64 sum 1) 3 in
  if (f <? 0)%Z then false
  else if (f =? 0)%Z then (add64 (quot64 sum 2) 1 <=? input)%Z
  else (add64 (quot64 (sub64 sum f) 2) 1 <=? input)%Z.

Record aksItem := mkAks { aks_Address : string; Weight : float64 }.

(** [aksSlice.Less], of two items: the heavier first, then the greater address. *)
Definition Less (a b : aksItem) : bool :=
  if float_eq (Weight b) (Weight a) then bool_decide (str_lt (aks_Address b) (aks_Address a)) else float_lt (Weight b) (Weight a).
Definition not_less (a b : aksItem) : Prop := Less b a = false.
#[global] Instance aks_not_less_dec : RelDecision not_less.
Proof. intros a b. unfold not_less. apply _. Defined.

(** The heaviest are counted until the threshold is used up. *)
Fixpoint greedyCount (s : list aksItem) (sum : float64) : Z :=
  match s with
  | [] => 0
  | a :: s => if float_le sum float_zero then 0 else 1 + greedyCount s (float_sub sum (Weight a))
  end.

Definition isAuthAddress `{MapOrder} (validators : list string) (aks : gmap string float64) (threshold : float64) (enableBFT : bool) : bool :=
  match validators with
  | [v] => match aks !! v with None => false | Some weight => float_le threshold weight end
  | _ =>
      if negb (forallb (fun addr => Find addr validators) (map_keys aks)) then false
      else
        let s := merge_sort not_less ((fun kv => mkAks kv.1 kv.2) <$> range_order aks) in
        let greedy := greedyCount s threshold in
        let n := Z.of_nat (length validators) in
        if negb enableBFT then (add64 (quot64 n 2) 1 <=? greedy)%Z else CalFault greedy n
  end.

(** ** The methods *)

Definition StatusBadRequest : Z := 400.
Definition aclErr : string := "Xpoa needs valid acl account.".
Definition fee : Z := 1000.

Definition unmarshal_aks (arg : option blob) : option (gmap string float64) :=
  match arg with
  | Some (Doc l) => map_of_obj dec_float64 l ∅
  | Some (Raw t) => if bool_decide (t = "null") then Some ∅ else None
  | None => None
  end.

Definition MarshalProposerInfo (validators : list string) : blob := Doc [("address", JArr (JStr <$> validators))].

Section Contract.
Context {S : Type} `{StateSandbox S} `{MapOrder}.
(** [x.election] *)
Variable s : xpoaSchedule.

Definition arg_text (ctx : Context) (k : string) : string := from_option blob_string "" (Args ctx !! k).

(** What is not stored yet, or cannot be read, is the initial list. *)
Definition current_validators : M (KState S) (list string) :=
  let! r := mtry (ctx_Get (bindContractBucket s) (validators_key s)) in
  match r with
  | inr _ => mpure (initValidators s)
  | inl (Raw t) => if bool_decide (t = "null") then mpure [] else mfail "invalid character"
  | inl (Doc l) => match dec_ProposerInfo l with Some v => mpure (default [] v) | None => mfail "json: cannot unmarshal into Go value" end
  end.

(** A rule that is a number other than one is answered by a response, not by an
    error. *)
Definition methodEditValidates : KernMethod S := fun _ ctx =>
  match unmarshal_aks (Args ctx !! "aksWeight") with
  | None => mfail "invalid acl: unmarshal err."
  | Some aks =>
      match ParseInt32 (arg_text ctx "rule") with
      | None => mfail "strconv.ParseInt: parsing"
      | Some total =>
          if negb (total =? 1)%Z then mpure (mkResponse StatusBadRequest "invalid acl: rule should eq 1." None)
          else
            match ParseFloat (arg_text ctx "acceptValue") with
            | None => mfail "strconv.ParseFloat: parsing"
            | Some acceptValue =>
                let! curVali := current_validators in
                if! negb (isAuthAddress curVali aks acceptValue (enableBFT s)) fails aclErr in
                let validatesAddrs := arg_text ctx "validates" in
                if! is_empty_string validatesAddrs fails targetParamErr in
                let rawBytes := MarshalProposerInfo (Split validatesAddrs) in
                do! ctx_Put (bindContractBucket s) (validators_key s) rawBytes in
                do! AddResourceUsed (mkLimits 0 0 0 fee) in
                mpure (resp_ok (Some rawBytes))
            end
      end
  end.

Definition methodGetValidates : KernMethod S := fun _ ctx =>
  let! r := mtry (ctx_Get (bindContractBucket s) (validators_key s)) in
  let jsonBytes := match r with inl b => b | inr _ => Doc [("validators", JArr (JStr <$> initValidators s))] end in
  do! AddResourceUsed (mkLimits 0 0 0 (fee / 1000)) in
  mpure (resp_ok (Some jsonBytes)).
End Contract.

Example parse_floats : ParseFloat "0.6" = dec_float64 (JDec 6 1) /\ ParseFloat "-1.5e1" = dec_float64 (JNum (-15)) /\ ParseFloat "1e400" = None /\ ParseFloat "NaN" = Some S754_nan /\ ParseFloat "." = None.
Proof. vm_compute. repeat split. Qed.
