(* ===== verification/XpoaSpec.v ===== *)
(** * Xpoa: what the schedule and the contract promise

    The slots of [minerScheduling] (file Xpoa) partition time; which blocks
    [CheckMinerMatch] accepts; that the block of an honest producer is accepted; and
    what the contract of the file XpoaContract asks of who edits the producers. *)

From Stdlib Require Import ZArith Lia Ascii SpecFloat.
From stdpp Require Import base gmap strings list numbers sorting.
From S2P Require Import Prelude GoValues Sandbox KContext LedgerHash QCTree Smr Consensus Acl Xpoa XpoaContract.

Set Default Proof Using "Type".
Local Open Scope Z_scope.

(** ** Slots *)

Definition posTime (s : xpoaSchedule) : Z := period s * blockNum s.
Definition termTime (s : xpoaSchedule) (n : Z) : Z := n * posTime s.

(** A turn is shorter than two to the 30 milliseconds, twelve days, and a term of
    at most two to the 30 producers fits the machine. *)
Record config_ok (s : xpoaSchedule) : Prop := {
  ok_period : 0 < period s;
  ok_blocks : 0 < blockNum s;
  ok_turn : posTime s < 2 ^ 30
}.
Definition moment (timestamp : Z) : Z := timestamp / Millisecond.
Definition clock_range (timestamp : Z) : Prop := 0 <= timestamp <= int64_max.

(** In milliseconds since the epoch. *)
Definition slot_begin (s : xpoaSchedule) (n term pos b : Z) : Z := (term - 1) * termTime s n + pos * posTime s + (b - 1) * period s.

Record slot_of (s : xpoaSchedule) (n timestamp term pos b : Z) : Prop := {
  so_term : 1 <= term;
  so_pos : 0 <= pos < n;
  so_block : 1 <= b <= blockNum s;
  so_begin : slot_begin s n term pos b <= moment timestamp;
  so_end : moment timestamp < slot_begin s n term pos b + period s
}.

Lemma moment_range timestamp : clock_range timestamp -> 0 <= moment timestamp < 2 ^ 44 /\ Z.quot timestamp Millisecond = moment timestamp.
Proof.
  intros [H0 H1]. unfold moment, Millisecond, int64_max in *. split; [|apply Z.quot_div_nonneg; lia]. split; [apply Z.div_pos; lia|apply Z.div_lt_upper_bound; lia].
Qed.

Section Slots.
Variables (s : xpoaSchedule) (len : nat).
Hypothesis ok : config_ok s.
Hypothesis Hlen : 0 < Z.of_nat len < 2 ^ 30.
Notation n := (Z.of_nat len).

Lemma posTime_bounds : 0 < posTime s /\ period s <= posTime s /\ blockNum s <= posTime s.
Proof using ok. clear Hlen. destruct ok. unfold posTime in *. nia. Qed.

Lemma termTime_bounds : posTime s <= termTime s n < 2 ^ 60 /\ n <= termTime s n.
Proof using ok Hlen. pose proof posTime_bounds. destruct ok. unfold termTime. nia. Qed.

Definition scheduled (timestamp : Z) : Z * Z * Z :=
  let T := moment timestamp in
  let r := T mod termTime s n in
  (T / termTime s n + 1, r / posTime s, r mod posTime s / period s + 1).

Lemma machine_times : mul64 (mul64 (period s) n) (blockNum s) = termTime s n /\ mul64 (period s) (blockNum s) = posTime s.
Proof using ok Hlen.
  pose proof posTime_bounds as (Hp & Hpp & Hpb). pose proof termTime_bounds as (Ht & Hn). pose proof (ok_period _ ok). pose proof (ok_blocks _ ok). pose proof (ok_turn _ ok).
  assert (period s * n * blockNum s = termTime s n) as E by (unfold termTime, posTime; ring).
  assert (0 <= period s * n <= termTime s n) by (rewrite <- E; nia).
  split; unfold mul64.
  - rewrite (wrap64_id (period s * n)) by in64. rewrite E. apply wrap64_id. in64.
  - fold (posTime s). apply wrap64_id. in64.
Qed.

Lemma minerScheduling_slot timestamp : clock_range timestamp -> minerScheduling s timestamp len = Ret (scheduled timestamp).
Proof using ok Hlen.
  intros Hck. destruct (moment_range _ Hck) as [HT ET]. destruct machine_times as [Em1 Em2]. pose proof posTime_bounds as (Hp & Hpp & Hpb). pose proof termTime_bounds as (Ht & Hn). pose proof (ok_period _ ok) as Hper.
  unfold minerScheduling. rewrite ET, Em1, Em2. set (T := moment timestamp) in *. unfold scheduled. fold T.
  pose proof (Z.div_mod T (termTime s n) ltac:(lia)) as Hdm. pose proof (Z.mod_pos_bound T (termTime s n) ltac:(lia)) as Hmb.
  assert (0 <= T / termTime s n) by (apply Z.div_pos; lia). assert (T / termTime s n <= T) by (apply Z.div_le_upper_bound; nia).
  rewrite div64_ret, obind_ret by (unfold int64_max; lia).
  assert (sub64 (add64 (T / termTime s n) 1) 1 = T / termTime s n) as -> by (unfold add64, sub64; rewrite (wrap64_id (_ + 1)) by in64; rewrite wrap64_id by in64; lia).
  assert (sub64 T (mul64 (T / termTime s n) (termTime s n)) = T mod termTime s n) as ->.
  { unfold mul64, sub64. rewrite (wrap64_id (_ * _)) by in64. rewrite wrap64_id by in64. lia. }
  set (r := T mod termTime s n) in *. pose proof (Z.div_mod r (posTime s) ltac:(lia)) as Hdr. pose proof (Z.mod_pos_bound r (posTime s) ltac:(lia)) as Hmr.
  assert (0 <= r / posTime s) by (apply Z.div_pos; lia). assert (r / posTime s <= r) by (apply Z.div_le_upper_bound; nia).
  rewrite div64_ret, obind_ret by (unfold int64_max; lia).
  assert (sub64 r (mul64 (r / posTime s) (posTime s)) = r mod posTime s) as ->.
  { unfold mul64, sub64. rewrite (wrap64_id (_ * _)) by in64. rewrite wrap64_id by in64. lia. }
  assert (0 <= r mod posTime s / period s) by (apply Z.div_pos; lia). assert (r mod posTime s / period s <= r mod posTime s) by (apply Z.div_le_upper_bound; nia).
  rewrite div64_ret, obind_ret by (unfold int64_max; lia). unfold add64. by rewrite !wrap64_id by in64.
Qed.

Lemma scheduled_slot timestamp : clock_range timestamp -> let '(term, pos, b) := scheduled timestamp in slot_of s n timestamp term pos b.
Proof using ok Hlen.
  intros Hck. destruct (moment_range _ Hck) as [HT _]. pose proof posTime_bounds as (Hp & Hpp & Hpb). pose proof termTime_bounds as (Ht & Hn). pose proof (ok_period _ ok) as Hper.
  unfold scheduled. set (T := moment timestamp) in *.
  pose proof (Z.div_mod T (termTime s n) ltac:(lia)) as Hdm. pose proof (Z.mod_pos_bound T (termTime s n) ltac:(lia)) as Hmb. set (r := T mod termTime s n) in *.
  pose proof (Z.div_mod r (posTime s) ltac:(lia)) as Hdr. pose proof (Z.mod_pos_bound r (posTime s) ltac:(lia)) as Hmr. set (o := r mod posTime s) in *.
  pose proof (Z.div_mod o (period s) ltac:(lia)) as Hdo. pose proof (Z.mod_pos_bound o (period s) ltac:(lia)) as Hmo.
  assert (0 <= T / termTime s n) by (apply Z.div_pos; lia). assert (0 <= r / posTime s) by (apply Z.div_pos; lia). assert (0 <= o / period s) by (apply Z.div_pos; lia).
  split; [lia| | |unfold slot_begin; fold T; lia|unfold slot_begin; fold T; lia].
  - split; [lia|]. apply Z.div_lt_upper_bound; [lia|]. unfold termTime in Hmb. lia.
  - split; [lia|]. enough (o / period s < blockNum s) by lia. apply Z.div_lt_upper_bound; [lia|]. unfold posTime in Hmr. lia.
Qed.

(** Slots are ordered as their moments are. *)
Lemma slot_unique timestamp term pos b : slot_of s n timestamp term pos b -> scheduled timestamp = (term, pos, b).
Proof using ok Hlen.
  intros [Hterm Hpos Hb Hbeg Hend]. pose proof posTime_bounds as (Hp & Hpp & Hpb). pose proof termTime_bounds as (Ht & Hn). pose proof (ok_period _ ok) as Hper.
  unfold slot_begin in *. unfold scheduled. set (T := moment timestamp) in *. assert ((b - 1) * period s + period s <= posTime s) as Hfit by (unfold posTime; nia).
  assert (pos * posTime s + posTime s <= termTime s n) as Hfit' by (unfold termTime; nia).
  assert (0 <= (b - 1) * period s) by nia. assert (0 <= pos * posTime s) by nia.
  set (o := T - (term - 1) * termTime s n - pos * posTime s).
  assert (T / termTime s n = term - 1) as Hq by (symmetry; apply (Z.div_unique_pos T (termTime s n) (term - 1) (pos * posTime s + o)); unfold o; lia).
  assert (T mod termTime s n = pos * posTime s + o) as Hr by (rewrite Z.mod_eq by lia; rewrite Hq; unfold o; ring).
  assert ((pos * posTime s + o) / posTime s = pos) as Hq2 by (symmetry; apply (Z.div_unique_pos _ _ pos o); unfold o; lia).
  assert ((pos * posTime s + o) mod posTime s = o) as Hr2 by (rewrite Z.mod_eq by lia; rewrite Hq2; ring).
  assert (o / period s = b - 1) as Hq3 by (symmetry; apply (Z.div_unique_pos _ _ (b - 1) (o - (b - 1) * period s)); unfold o; lia).
  rewrite Hr, Hq2, Hr2, Hq3, Hq. f_equal; [f_equal|]; lia.
Qed.
End Slots.

(** The clock decides whose turn it is.  For any number of producers the schedule gives every moment exactly one slot: a term from one on, one of the
    producers, and one of its blocks, such that the moment lies in the interval of one period that the slot stands for; and it gives no other.  So the
    turns cover time without gaps and without overlaps. *)
Theorem xpoa_slots s len timestamp term pos b : config_ok s -> 0 < Z.of_nat len < 2 ^ 30 -> clock_range timestamp ->
  minerScheduling s timestamp len = Ret (term, pos, b) <-> slot_of s (Z.of_nat len) timestamp term pos b.
Proof.
  intros ok Hlen Hck. rewrite (minerScheduling_slot s len ok Hlen) by exact Hck. split.
  - intros Er. assert (scheduled s len timestamp = (term, pos, b)) as E by congruence. pose proof (scheduled_slot s len ok Hlen _ Hck) as Hs. by rewrite E in Hs.
  - intros Hs. f_equal. by apply slot_unique.
Qed.

(** ** Accepting a block *)

Section Accept.
Context `{PQ : ProtoQC}.
Variables (L : LedgerRely) (V : QuorumCertSign -> bytes -> bool * option string).

Lemma index64_ret {A} (l : list A) i : 0 <= i < Z.of_nat (length l) -> exists a, l !! Z.to_nat i = Some a /\ index64 l i = Ret a.
Proof using Type.
  intros Hi. destruct (lookup_lt_is_Some_2 l (Z.to_nat i) ltac:(lia)) as [a Ea]. exists a. split; [done|]. unfold index64. rewrite (proj2 (Z.ltb_ge _ _)) by lia. by rewrite Ea.
Qed.

Lemma leader_of s ts h storage v : config_ok s -> clock_range ts -> (0 < Z.of_nat (length v) < 2 ^ 30) -> GetLocalValidates L s h storage = Ret (Some v) ->
  exists term pos b p, slot_of s (Z.of_nat (length v)) ts term pos b /\ v !! Z.to_nat pos = Some p /\ GetLocalLeader L s ts h storage = Ret p.
Proof using Type.
  intros ok Hck Hlen Hv. pose proof (scheduled_slot s _ ok Hlen ts Hck) as Hs. destruct (scheduled s (length v) ts) as [[term pos] b] eqn:E.
  destruct (index64_ret v pos (so_pos _ _ _ _ _ _ Hs)) as (p & Ep & Ei). exists term, pos, b, p. split_and!; [done..|].
  unfold GetLocalLeader. rewrite Hv. cbn [default from_option id]. rewrite (minerScheduling_slot s _ ok Hlen ts Hck), E, obind_ret.
  destruct (so_pos _ _ _ _ _ _ Hs), (so_block _ _ _ _ _ _ Hs). rewrite (proj2 (Z.ltb_ge b 0)), (proj2 (Z.ltb_ge (blockNum s) b)), (proj2 (Z.leb_gt _ pos)) by lia. exact Ei.
Qed.
End Accept.

(** C19: which blocks a node accepts.  Without chained BFT a block is accepted exactly when its proposer is the producer, in the list of validators three
    blocks below the parent, of the slot the block's time falls in, or when that list cannot be read at all and the block names no proposer. *)
Theorem xpoa_acceptance `{ProtoQC} L V x block :
  let s := election x in let o := GetLocalValidates L s (Height block) (GetConsensusStorage block) in
  config_ok s -> enableBFT s = false -> clock_range (Timestamp block) -> (forall v, o = Ret (Some v) -> 0 < Z.of_nat (length v) < 2 ^ 30) -> o <> Panic -> o <> Ret None ->
  CheckMinerMatch L V x block = Ret true <->
  (exists v term pos b, o = Ret (Some v) /\ slot_of s (Z.of_nat (length v)) (Timestamp block) term pos b /\ v !! Z.to_nat pos = Some (Proposer block)) \/
  (exists e, o = Err e) /\ Proposer block = "".
Proof.
  intros s o ok Hbft Hck Hlen Hp Hn. unfold CheckMinerMatch. fold s. destruct o as [[v|]|e|] eqn:Eo; [|done| |done].
  - destruct (leader_of L s (Timestamp block) (Height block) (GetConsensusStorage block) v ok Hck (Hlen v eq_refl) Eo) as (term & pos & b & p & Hs & Ep & ->). rewrite obind_ret, Hbft. cbn [negb].
    case_bool_decide as Heq; cbn [negb].
    + subst p. split; [intros _|done]. left. by exists v, term, pos, b.
    + split; [done|]. intros [(v' & t' & p' & b' & [= <-] & Hs' & Ep')|[[e [=]] _]].
      apply (slot_unique s _ ok (Hlen v eq_refl)) in Hs, Hs'. rewrite Hs in Hs'. injection Hs' as <- <- <-. congruence.
  - unfold GetLocalLeader. unfold o in Eo. rewrite Eo, obind_ret, Hbft. cbn [negb]. case_bool_decide as Heq; cbn [negb].
    + split; [intros _|done]. right. split; [by exists e|done].
    + split; [done|]. intros [(v' & t' & p' & b' & [=] & _)|[_ E]]. by rewrite E in Heq.
Qed.

(** ** The block of an honest producer *)

(** Two nodes with one configuration; what they keep of their own may differ. *)
Record same_config (s s' : xpoaSchedule) : Prop := {
  sc_period : period s' = period s;
  sc_blocks : blockNum s' = blockNum s;
  sc_init : initValidators s' = initValidators s;
  sc_start : startHeight s' = startHeight s;
  sc_bft : enableBFT s' = enableBFT s;
  sc_version : consensusVersion s' = consensusVersion s;
  sc_bucket : bindContractBucket s' = bindContractBucket s
}.

Lemma same_validates L s s' h : same_config s s' -> getValidates L s' h = getValidates L s h.
Proof. intros []. unfold getValidates, getValidatesByBlockId, validators_key. by rewrite sc_init0, sc_start0, sc_version0, sc_bucket0. Qed.
Lemma same_scheduling s s' ts len : same_config s s' -> minerScheduling s' ts len = minerScheduling s ts len.
Proof. intros []. unfold minerScheduling. by rewrite sc_period0, sc_blocks0. Qed.
Lemma xpoa_same_config_trans s1 s2 s3 : same_config s1 s2 -> same_config s2 s3 -> same_config s1 s3.
Proof. intros [] []. split; congruence. Qed.
Lemma xpoa_same_config_ok s s' : same_config s s' -> config_ok s -> config_ok s'.
Proof. intros [] []. split; unfold posTime in *; congruence. Qed.

Lemma UpdateValidator_at L s h v : getValidates L s h = Ret (Some v) -> v <> [] -> exists c, UpdateValidator L s h = Ret (c, set_validators s v).
Proof.
  intros E Hv. unfold UpdateValidator. rewrite E. destruct v as [|a v]; [done|]. rewrite AddressEqual_spec. case_bool_decide as Heq; cbn [negb]; [|by eexists].
  exists false. rewrite Heq. by destruct s.
Qed.

(** At a moment of the clock it is the node's turn. *)
Definition turn_at (s : xpoaSchedule) (v : list string) (now : Z) : Prop :=
  exists term pos bp, minerScheduling s now (length v) = Ret (term, pos, bp) /\ pos < Z.of_nat (length v) /\ bp <= blockNum s /\ index64 v pos = Ret (address s).

Lemma CompeteMaster_turn L s0 v : getValidates L s0 (Height (GetTipBlock L)) = Ret (Some v) -> v <> [] ->
  forall n clock x b x', (length clock <= n)%nat -> same_config s0 (election x) -> address (election x) = address s0 -> CompeteMaster L clock x = Some (Ret (true, b), x') ->
  exists now, now ∈ clock /\ turn_at s0 v now.
Proof.
  intros Hv Hne. induction n as [|n IH]; intros clock x b x' Hn Hsc Ha E; (destruct clock as [|t1 [|t2 clock]]; [done|done|]); [cbn in Hn; lia|]. cbn in Hn. cbn [CompeteMaster] in E.
  destruct (div64 _ _) as [key| |]; [|done..].
  assert (forall x1, same_config s0 (election x1) -> address (election x1) = address s0 -> CompeteMaster L clock x1 = Some (Ret (true, b), x') -> exists now, now ∈ t1 :: t2 :: clock /\ turn_at s0 v now) as Hrec.
  { intros x1 H1 H2 E1. destruct (IH clock x1 b x' ltac:(lia) H1 H2 E1) as (now & Hin & Hrest). exists now. split; [set_solver|done]. }
  destruct (UpdateValidator_at L (election x) (Height (GetTipBlock L)) v) as (c & Eu); [by rewrite (same_validates _ _ _ _ Hsc)|done|]. rewrite Eu in E. cbn [validators set_validators] in E.
  assert (same_config s0 (set_validators (election x) v)) as Hsc' by (eapply xpoa_same_config_trans; [exact Hsc|by split]). rewrite (same_scheduling s0 _ _ _ Hsc') in E.
  destruct (isProduce x !! key) as [[|]|]; [destruct (CleanProduceMap _ _ _); [|done..]; by eapply Hrec; [| |exact E]|..];
    (destruct (minerScheduling s0 t2 (length v)) as [[[term pos] bp]| |] eqn:Em; [|done..]);
    (destruct (_ || _) eqn:Eslot; [by eapply Hrec; [| |exact E]|]); apply orb_false_iff in Eslot as [H1%Z.ltb_ge H2%Z.leb_gt]; rewrite (sc_blocks _ _ Hsc') in H1;
    exists t2; (split; [set_solver|]); exists term, pos, bp; (split_and!; [done..|]); unfold take_turn in E; cbn [validators set_validators address] in E;
    (destruct (index64 v pos) as [p| |]; [|done..]); (case_bool_decide; [|done]); congruence.
Qed.

(** C20: an honest block is accepted.  Suppose the validators can be read three blocks below the tip and [CompeteMaster] tells a node, by some reading of the
    clock, that it is its turn.  Then a block it puts on the tip with a time in the same turn is accepted by every node of the same configuration and chain,
    whatever validators that node holds and whenever it started; with chained BFT, when the block follows no roll back ([TargetBits] zero) and the other node's
    replica accepts the certificate it carries. *)
Theorem xpoa_honest_block_accepted `{ProtoQC} L V clock x b x' v :
  let s := election x in let tip := Height (GetTipBlock L) in
  config_ok s -> 1 <= startHeight s < 2 ^ 60 -> 0 <= tip < 2 ^ 60 -> getValidates L s tip = Ret (Some v) -> 0 < Z.of_nat (length v) < 2 ^ 30 ->
  Forall clock_range clock -> CompeteMaster L clock x = Some (Ret (true, b), x') ->
  exists now term pos bp, now ∈ clock /\ slot_of s (Z.of_nat (length v)) now term pos bp /\
    forall y block bp', same_config s (election y) ->
      (enableBFT s = true -> TargetBits block = 0 /\ (startHeight s < Height block -> check_justify L V y block = Ret true)) ->
      Height block = tip + 1 -> Proposer block = address s -> clock_range (Timestamp block) ->
      slot_of s (Z.of_nat (length v)) (Timestamp block) term pos bp' -> CheckMinerMatch L V y block = Ret true.
Proof.
  intros s tip ok Hst Htip Hv Hlen Hck E. assert (v <> []) as Hne by (intros ->; cbn in Hlen; lia).
  destruct (CompeteMaster_turn L s v Hv Hne _ clock x b x' (le_n _) ltac:(by split) eq_refl E) as (now & Hin & term & pos & bp & Em & Hpos & Hbp & Hix). fold s in Em, Hix, Hbp.
  rewrite list.Forall_forall in Hck. specialize (Hck now Hin). rewrite (minerScheduling_slot s _ ok Hlen now Hck) in Em. assert (scheduled s (length v) now = (term, pos, bp)) as Esch by congruence.
  pose proof (scheduled_slot s _ ok Hlen now Hck) as Hslot. rewrite Esch in Hslot. exists now, term, pos, bp. split_and!; [done..|].
  intros y block bp' Hsc Hbft Hh Hp Hts Hslot'. assert (GetLocalValidates L (election y) (Height block) (GetConsensusStorage block) = Ret (Some v)) as Hl.
  { unfold GetLocalValidates. rewrite Hh, (sc_bft _ _ Hsc).
    assert (enableBFT s && negb (cs_TargetBits (GetConsensusStorage block) =? 0) = false) as -> by (destruct (enableBFT s); [cbn; by rewrite (proj1 (Hbft eq_refl))|done]). assert (sub64 (tip + 1) 1 = tip) as -> by (unfold sub64; rewrite wrap64_id by in64; lia).
    rewrite (same_validates _ _ _ _ Hsc). fold tip in Hv. destruct (Z.leb_spec tip 3) as [Hle|_]; [|by rewrite Hv].
    revert Hv. unfold getValidates, add64. rewrite wrap64_id by in64. rewrite (proj2 (Z.ltb_lt _ _)) by lia. by rewrite (sc_init _ _ Hsc). }
  unfold CheckMinerMatch. destruct (leader_of L (election y) (Timestamp block) _ _ v (xpoa_same_config_ok _ _ Hsc ok) Hts Hlen Hl) as (term' & pos' & b' & p & Hs' & Ep & ->).
  rewrite obind_ret, (sc_bft _ _ Hsc), (sc_start _ _ Hsc). enough (p = Proposer block) as ->.
  { rewrite bool_decide_eq_true_2 by done. cbn [negb]. destruct (enableBFT s); cbn [negb]; [|done]. destruct (Z.leb_spec (Height block) (startHeight s)); [done|]. by apply Hbft. }
  assert (slot_of s (Z.of_nat (length v)) (Timestamp block) term' pos' b') as Hs.
  { destruct Hs'. unfold slot_begin, termTime, posTime in *. rewrite (sc_period _ _ Hsc), (sc_blocks _ _ Hsc) in *. by split. }
  apply (slot_unique s _ ok Hlen) in Hs, Hslot'. rewrite Hs in Hslot'. injection Hslot' as -> -> ->.
  unfold index64 in Hix. destruct (pos <? 0); [done|]. rewrite Ep in Hix. congruence.
Qed.
