(* ===== verification/XpoaEdit.v ===== *)
(** * Xpoa: editing the producers

    The contract of the file XpoaContract: what it stores is what the schedule
    reads, and what it asks of the caller. *)

From Stdlib Require Import ZArith Lia Ascii SpecFloat.
From stdpp Require Import base gmap strings list numbers sorting.
From S2P Require Import Prelude GoValues Sandbox KContext LedgerHash QCTree Smr Consensus Acl Xpoa XpoaContract.

Set Default Proof Using "Type".
Local Open Scope Z_scope.

(** ** Lists of producers as text *)

Definition no_semicolon (a : string) : Prop := Split a = [a].
Fixpoint Join (l : list string) : string := match l with [] => "" | [a] => a | a :: l => a +:+ String ";" (Join l) end.

Lemma Split_semicolon a t : no_semicolon a -> Split (a +:+ String ";" t) = a :: Split t.
Proof.
  unfold no_semicolon. induction a as [|c a IH]; [done|]. change (String c a +:+ String ";" t) with (String c (a +:+ String ";" t)). cbn [Split]. destruct (Ascii.eqb c ";"); [done|].
  destruct (Split a) as [|x l] eqn:E; [destruct a as [|d a']; cbn in E; [done|destruct (Ascii.eqb d ";"); [done|destruct (Split a'); done]]|].
  intros [= -> ->]. by rewrite IH.
Qed.

Lemma Split_of_Join l : l <> [] -> Forall no_semicolon l -> Split (Join l) = l.
Proof.
  induction l as [|a l IH]; [done|]. intros _ Hl. inversion Hl as [|? ? Ha Hl']; subst. destruct l as [|b l]; [exact Ha|].
  cbn [Join]. rewrite Split_semicolon by done. f_equal. by apply IH.
Qed.

Lemma load_stored l : loadValidatorsMultiInfo (Some (MarshalProposerInfo l)) = Ret (Some l).
Proof.
  assert (dec_strings (JArr (JStr <$> l)) = Some l) as E by (cbn [dec_strings]; induction l as [|a l IH]; [done|]; cbn; by rewrite IH).
  unfold loadValidatorsMultiInfo, MarshalProposerInfo, dec_ProposerInfo, field. change (obj_get "address" _) with (Some (JArr (JStr <$> l))). unfold dec_addresses. by rewrite E.
Qed.

(** ** Weights that pass *)

(** The text of a permission that passes for anybody: weights of zero, one for each
    producer, against a threshold of one. *)
Definition free_weight (cur : list string) : Z := if (length cur =? 1)%nat then 1 else 0.
Definition free_aks (cur : list string) : blob := Doc ((fun v => (v, JNum (free_weight cur))) <$> cur).
Definition free_args (cur : list string) (validates : string) : gmap string blob :=
  {["aksWeight" := free_aks cur; "rule" := Raw "1"; "acceptValue" := Raw "1"; "validates" := Raw validates]}.

Lemma free_aks_map cur w : NoDup cur -> exists aks, unmarshal_aks (Some (Doc ((fun v => (v, JNum w)) <$> cur))) = Some aks /\
  (forall v, aks !! v = if decide (v ∈ cur) then Some (float_decimal w 0) else None).
Proof.
  intros Hnd. unfold unmarshal_aks. assert (forall l m, map_of_obj dec_float64 ((fun v => (v, JNum w)) <$> l) m = Some (foldl (fun m v => <[v := float_decimal w 0]> m) m l)) as Hl.
  { induction l as [|v l IH]; intros m; [done|]. cbn. apply IH. }
  rewrite Hl. eexists. split; [done|]. intros v.
  assert (forall l m, foldl (fun m v => <[v := float_decimal w 0]> m) m l !! v = if decide (v ∈ l) then Some (float_decimal w 0) else (m : gmap string float64) !! v) as Hf; [|apply Hf].
  induction l as [|a l IH]; intros m; cbn [foldl]; [by rewrite decide_False by (apply not_elem_of_nil)|]. rewrite IH.
  destruct (decide (v ∈ l)); [by rewrite decide_True by (by right)|]. destruct (decide (v = a)) as [->|Hne].
  - rewrite lookup_insert_eq, decide_True by left. done.
  - rewrite lookup_insert_ne by done. rewrite decide_False; [done|]. by intros [|]%elem_of_cons.
Qed.

Lemma greedy_zero s : Forall (fun a => Weight a = float_zero) s -> greedyCount s (float_decimal 1 0) = Z.of_nat (length s).
Proof.
  induction 1 as [|a s Ha _ IH]; [done|]. cbn [greedyCount]. replace (float_le (float_decimal 1 0) float_zero) with false by (vm_compute; reflexivity).
  rewrite Ha. replace (float_sub (float_decimal 1 0) float_zero) with (float_decimal 1 0) by (vm_compute; reflexivity). rewrite IH. cbn [length]. lia.
Qed.

Lemma quorum_of_all n : 2 <= n < 2 ^ 60 -> (add64 (quot64 n 2) 1 <=? n) = true /\ CalFault n n = true.
Proof.
  intros Hn. unfold CalFault. assert (quot64 n 2 = n / 2) as -> by (unfold quot64; rewrite Z.quot_div_nonneg by lia; apply wrap64_id; assert (0 <= n / 2 <= n) by (split; [apply Z.div_pos; lia|apply Z.div_le_upper_bound; lia]); in64).
  assert (sub64 n 1 = n - 1) as -> by (unfold sub64; apply wrap64_id; in64).
  assert (0 <= (n - 1) / 3 <= n - 1) by (split; [apply Z.div_pos; lia|apply Z.div_le_upper_bound; lia]).
  assert (quot64 (n - 1) 3 = (n - 1) / 3) as -> by (unfold quot64; rewrite Z.quot_div_nonneg by lia; apply wrap64_id; in64). set (f := (n - 1) / 3) in *.
  assert (0 <= n / 2 < n) by (split; [apply Z.div_pos; lia|apply Z.div_lt_upper_bound; lia]).
  assert (add64 (n / 2) 1 <=? n = true) as Hhalf by (apply Z.leb_le; unfold add64; rewrite wrap64_id by in64; lia). split; [done|].
  rewrite (proj2 (Z.ltb_ge f 0)) by lia. destruct (Z.eqb_spec f 0); [done|].
  assert (sub64 n f = n - f) as -> by (unfold sub64; apply wrap64_id; in64). assert (0 <= (n - f) / 2 < n) by (split; [apply Z.div_pos; lia|apply Z.div_lt_upper_bound; lia]).
  assert (quot64 (n - f) 2 = (n - f) / 2) as -> by (unfold quot64; rewrite Z.quot_div_nonneg by lia; apply wrap64_id; in64).
  apply Z.leb_le. unfold add64. rewrite wrap64_id by in64. lia.
Qed.

Lemma free_auth `{MapOrder} cur bft aks : NoDup cur -> cur <> [] -> Z.of_nat (length cur) < 2 ^ 60 ->
  (forall v, aks !! v = if decide (v ∈ cur) then Some (float_decimal (free_weight cur) 0) else None) -> isAuthAddress cur aks (float_decimal 1 0) bft = true.
Proof.
  intros Hnd Hne Hlen Haks. unfold isAuthAddress. destruct cur as [|v [|w cur]]; [done| |].
  { rewrite Haks, decide_True by left. vm_compute. reflexivity. }
  set (all := v :: w :: cur) in *. assert (2 <= Z.of_nat (length all)) as Hlen2 by (unfold all; cbn [length]; lia).
  assert (forallb (fun addr => Find addr all) (map_keys aks) = true) as ->.
  { apply forallb_forall. intros a Ha. apply list_elem_of_In, map_keys_elem in Ha as [x Ha]. rewrite Haks in Ha. unfold Find. case_decide; [|done]. by apply bool_decide_eq_true_2. }
  cbn [negb]. set (items := (fun kv => mkAks kv.1 kv.2) <$> range_order aks).
  assert (length items = length all) as El.
  { unfold items. rewrite length_fmap. assert (map_keys aks ≡ₚ all) as Hp.
    { apply NoDup_Permutation; [unfold map_keys; rewrite range_order_perm; apply NoDup_fst_map_to_list|exact Hnd|]. intros a. rewrite map_keys_elem, Haks. case_decide; split; done || by intros [? ?]. }
    apply Permutation_length in Hp. unfold map_keys in Hp. by rewrite length_fmap in Hp. }
  assert (Forall (fun a => Weight a = float_zero) (merge_sort not_less items)) as Hw.
  { rewrite (merge_sort_Permutation not_less items). unfold items. rewrite range_order_perm. apply Forall_fmap, list.Forall_forall. intros [k x] Hin. apply elem_of_map_to_list in Hin. rewrite Haks in Hin.
    case_decide; [|done]. injection Hin as <-. vm_compute. reflexivity. }
  rewrite (greedy_zero _ Hw), (Permutation_length (merge_sort_Permutation not_less items)), El. destruct (quorum_of_all (Z.of_nat (length all)) ltac:(lia)) as [E1 E2]. by destruct bft.
Qed.

(** ** The contract *)

Section Edit.
Context {S : Type} `{StateSandboxLaws S} `{MapOrder}.
Variable s : xpoaSchedule.
Hypothesis Hslash : no_slash (bindContractBucket s) = true.
Implicit Types st : KState S.

(** The list in force: what was stored last, or the initial one. *)
Definition in_force st (cur : list string) : Prop :=
  kview st (bindContractBucket s) (validators_key s) = Ret (MarshalProposerInfo cur) \/
  kview st (bindContractBucket s) (validators_key s) = Err ErrNotFound /\ cur = initValidators s.

Lemma current_law st cur : kinv st -> in_force st cur -> exists st', current_validators s st = (Ret cur, st') /\ kinv st' /\ kequiv st st'.
Proof using Hslash.
  intros Hi Hf. destruct (ctx_Get_law st (bindContractBucket s) (validators_key s) Hi Hslash) as (st' & E & Hi' & He). exists st'. split; [|done].
  unfold current_validators, mbnd, mtry. rewrite E. destruct Hf as [->|[-> ->]]; [|done]. unfold mpure. cbn beta iota. unfold MarshalProposerInfo.
  pose proof (load_stored cur) as Hl. unfold loadValidatorsMultiInfo, MarshalProposerInfo in Hl. cbn beta iota in Hl. destruct (dec_ProposerInfo _) as [v|]; [|done]. injection Hl as ->. done.
Qed.

Lemma edit_free st call ctx cur validates : kinv st -> in_force st cur -> NoDup cur -> cur <> [] -> Z.of_nat (length cur) < 2 ^ 60 -> is_empty_string validates = false ->
  Args ctx = free_args cur validates ->
  exists st', methodEditValidates s call ctx st = (Ret (resp_ok (Some (MarshalProposerInfo (Split validates)))), st') /\ kview st' (bindContractBucket s) (validators_key s) = Ret (MarshalProposerInfo (Split validates)).
Proof using Hslash.
  intros Hi Hf Hnd Hne Hlen Hv Ha. destruct (free_aks_map cur (free_weight cur) Hnd) as (aks & Eaks & Hm). destruct (current_law st cur Hi Hf) as (st1 & E1 & Hi1 & He1).
  unfold methodEditValidates, arg_text. rewrite Ha. unfold free_args, free_aks.
  rewrite lookup_insert_eq, Eaks. rewrite (lookup_insert_ne _ "aksWeight" "rule"), lookup_insert_eq by done.
  rewrite (lookup_insert_ne _ "aksWeight" "acceptValue"), (lookup_insert_ne _ "rule" "acceptValue"), lookup_insert_eq by done.
  rewrite (lookup_insert_ne _ "aksWeight" "validates"), (lookup_insert_ne _ "rule" "validates"), (lookup_insert_ne _ "acceptValue" "validates"), lookup_singleton_eq by done.
  cbn [from_option blob_string]. replace (ParseInt32 "1") with (Some 1) by (vm_compute; reflexivity). replace (ParseFloat "1") with (Some (float_decimal 1 0)) by (vm_compute; reflexivity). cbn [Z.eqb Pos.eqb negb].
  rewrite (mbnd_ret _ _ _ _ _ E1), (free_auth cur (enableBFT s) aks Hnd Hne Hlen Hm), Hv. cbn [negb]. unfold mbnd at 1.
  destruct (ctx_Put_law st1 (bindContractBucket s) (validators_key s) (MarshalProposerInfo (Split validates)) Hi1 Hslash) as (st2 & E2 & Hi2 & Hu). rewrite E2. cbn beta iota.
  unfold mbnd, AddResourceUsed, mpure. eexists. split; [reflexivity|]. apply (kupdate_at _ _ _ _ _ Hslash Hu).
Qed.
End Edit.

(** C35: anybody may edit the producers.  The weights, the rule and the threshold that [editValidates] tests are arguments of the call, and nothing compares
    them with who signed it: whoever calls, with any or no signatures, names the current producers with weights of zero and a threshold of one and the call
    succeeds; any list is stored, and the schedule reads it as the list of producers of every block three and more blocks above. *)
Theorem anyone_edits_validators {S : Type} `{StateSandboxLaws S} `{MapOrder} (s : xpoaSchedule) (st : KState S) call name who caller signers limits cur new :
  no_slash (bindContractBucket s) = true -> kinv st -> in_force s st cur -> NoDup cur -> cur <> [] -> Z.of_nat (length cur) < 2 ^ 60 ->
  new <> [] -> Forall no_semicolon new -> Join new <> "" ->
  exists st' stored, methodEditValidates s call (mkContext name who caller signers (free_args cur (Join new)) limits) st = (Ret (resp_ok (Some stored)), st') /\
    kview st' (bindContractBucket s) (validators_key s) = Ret stored /\
    forall L h b, startHeight s + 3 <= h < 2 ^ 60 -> 0 <= startHeight s -> QueryBlockHeaderByHeight L (h - 3) = Ret b ->
      CreateSnapshot L (Blockid b) = Ret (fun bucket key => match kview st' bucket key with Ret v => Ret (Some v) | Err _ => Ret None | Panic => Panic end) ->
      getValidates L s h = Ret (Some new).
Proof.
  intros Hslash Hi Hf Hnd Hne Hlen Hnew Hns Hj. set (ctx := mkContext name who caller signers (free_args cur (Join new)) limits).
  assert (is_empty_string (Join new) = false) as He by (by destruct (Join new)).
  destruct (edit_free s Hslash st call ctx cur (Join new) Hi Hf Hnd Hne Hlen He eq_refl) as (st' & E & Hk). rewrite (Split_of_Join new Hnew Hns) in E, Hk.
  exists st', (MarshalProposerInfo new). split; [exact E|]. split; [exact Hk|]. intros L h b Hh Hs Hq Hsn. unfold getValidates.
  assert (add64 (startHeight s) 3 = startHeight s + 3) as -> by (unfold add64; apply wrap64_id; in64). rewrite (proj2 (Z.ltb_ge _ _)) by lia.
  assert (sub64 h 3 = h - 3) as -> by (unfold sub64; apply wrap64_id; in64). rewrite Hq, obind_ret. unfold getValidatesByBlockId. rewrite Hsn, obind_ret, Hk, obind_ret. apply load_stored.
Qed.
