(* ===== verification/XpoaCases.v ===== *)
(** * Xpoa: single cases

    A small chain: two producers, two blocks each, slots of three seconds.
    Instances of the theorems of the files XpoaSpec and XpoaEdit, and behaviours of
    the code on it. *)

From Stdlib Require Import ZArith Lia Ascii SpecFloat.
From stdpp Require Import base gmap strings list numbers sorting.
From S2P Require Import Prelude GoValues Sandbox KContext LedgerHash QCTree Smr Consensus Acl Xpoa XpoaContract XpoaSpec XpoaEdit.

Set Default Proof Using "Type".
Local Open Scope Z_scope.

Module XpoaExample.
#[global] Instance plain_codec : ProtoQC := {| proto_Marshal := fun _ => ""; proto_Unmarshal := fun _ => None |}.
Definition verify (_ : QuorumCertSign) (_ : bytes) : bool * option string := (true, None).

Definition ms (t : Z) : Z := t * Millisecond.
Definition sched (who : string) (bft : bool) (vals : list string) : xpoaSchedule :=
  mkSchedule who 3000 2 vals "" ["amy"; "ben"] 1 bft "poa" 0 "$poa".
Definition blk (id : string) (h : Z) (who : string) (t bits : Z) : InternalBlock :=
  mkBlk 1 0 id "" who "" "" "" h (ms t) [] 0 [] 0 0 ∅ bits None true "".

(** In block two the producers become [cat] and [dan]. *)
Definition snapshot (id : string) : outcome (string -> string -> outcome (option blob)) :=
  if bool_decide (id = "B1") then Ret (fun _ _ => Ret None)
  else Ret (fun _ key => Ret (if bool_decide (key = "0_validates") then Some (MarshalProposerInfo ["cat"; "dan"]) else None)).
Definition chain (blocks : list InternalBlock) : LedgerRely :=
  mkRely (fun h => match blocks !! Z.to_nat h with Some b => if h <? 0 then Err "no block" else Ret b | None => Err "no block" end)
         (fun _ => Err "no block") (default (blk "" 0 "" 0 0) (last blocks)) snapshot.
Definition blocks : list InternalBlock :=
  [blk "G" 0 "" 0 0; blk "B1" 1 "amy" 1000 0; blk "B2" 2 "amy" 4000 0; blk "B3" 3 "ben" 7000 0; blk "B4" 4 "ben" 10000 0; blk "B5" 5 "cat" 13000 0].
Definition L : LedgerRely := chain blocks.

Definition smr0 : SmrState := NewSmr 1 (mkTree (mkQC (mkVoteInfo None 0 None 0) None None) (PNode (mkQC (mkVoteInfo None 0 None 0) None None) [])
  (mkQC (mkVoteInfo None 0 None 0) None None) None None None [] ∅).
Definition node (who : string) : xpoaConsensus := mkXpoa ∅ (sched who false ["amy"; "ben"]) smr0.

Lemma xpoa_config_ok who bft vals : config_ok (sched who bft vals).
Proof. split; vm_compute; congruence. Qed.
End XpoaExample.

Lemma xpoa_slots_witness : slot_of (XpoaExample.sched "eve" false []) 2 (XpoaExample.ms 16000) 2 0 2.
Proof.
  apply (xpoa_slots (XpoaExample.sched "eve" false []) 2 (XpoaExample.ms 16000) 2 0 2).
  - apply XpoaExample.xpoa_config_ok.
  - cbn. lia.
  - split; vm_compute; congruence.
  - vm_compute. reflexivity.
Defined.

Lemma xpoa_acceptance_witness :
  CheckMinerMatch XpoaExample.L XpoaExample.verify (XpoaExample.node "eve") (XpoaExample.blk "B6" 6 "cat" 16000 0) = Ret true.
Proof.
  refine (proj2 (xpoa_acceptance XpoaExample.L XpoaExample.verify (XpoaExample.node "eve") (XpoaExample.blk "B6" 6 "cat" 16000 0) _ _ _ _ _ _) _).
  - apply XpoaExample.xpoa_config_ok.
  - reflexivity.
  - split; vm_compute; congruence.
  - intros v Hv. vm_compute in Hv. injection Hv as <-. cbn. lia.
  - vm_compute. congruence.
  - vm_compute. congruence.
  - left. exists ["cat"; "dan"], 2, 0, 2. split; [vm_compute; reflexivity|]. split; [split; vm_compute; split_and?; congruence|reflexivity].
Defined.

Lemma xpoa_honest_block_accepted_witness :
  CheckMinerMatch XpoaExample.L XpoaExample.verify (XpoaExample.node "eve") (XpoaExample.blk "B6" 6 "dan" 22000 0) = Ret true.
Proof.
  destruct (xpoa_honest_block_accepted XpoaExample.L XpoaExample.verify [XpoaExample.ms 19000; XpoaExample.ms 19000] (XpoaExample.node "dan") true
    (mkXpoa {[6 := true]} (mkSchedule "dan" 3000 2 ["cat"; "dan"] "dan" ["amy"; "ben"] 1 false "poa" 0 "$poa") XpoaExample.smr0) ["cat"; "dan"]) as (now & term & pos & bp & Hin & Hslot & Hacc).
  - apply XpoaExample.xpoa_config_ok.
  - vm_compute; split; congruence.
  - vm_compute; split; congruence.
  - vm_compute; reflexivity.
  - cbn. lia.
  - repeat constructor; vm_compute; congruence.
  - vm_compute; reflexivity.
  - assert (now = XpoaExample.ms 19000) as -> by set_solver.
    apply (slot_unique _ 2) in Hslot; [|apply XpoaExample.xpoa_config_ok|cbn; lia]. vm_compute in Hslot. injection Hslot as <- <- <-.
    apply (Hacc (XpoaExample.node "eve") (XpoaExample.blk "B6" 6 "dan" 22000 0) 2).
    + by split.
    + discriminate.
    + reflexivity.
    + reflexivity.
    + split; vm_compute; congruence.
    + split; vm_compute; split_and?; congruence.
Defined.

Import Fresh.
#[local] Existing Instance address_order.

(** Nobody signs, and [eve] is the only producer from then on. *)
Lemma anyone_edits_validators_witness : exists st' stored,
  methodEditValidates (XpoaExample.sched "amy" false []) (fun _ _ _ _ _ => mpanic) (mkContext "$poa" "eve" "" [] (free_args ["amy"; "ben"] "eve") MaxLimits) (start "$poa") = (Ret (resp_ok (Some stored)), st') /\
  kview st' "$poa" "0_validates" = Ret stored.
Proof.
  destruct (anyone_edits_validators (XpoaExample.sched "amy" false []) (start "$poa") (fun _ _ _ _ _ => mpanic) "$poa" "eve" "" [] MaxLimits ["amy"; "ben"] ["eve"]) as (st' & stored & E & Hk & _).
  - reflexivity.
  - apply start_inv.
  - right. by split.
  - apply NoDup_cons_2; [set_solver|apply NoDup_singleton].
  - congruence.
  - cbn. lia.
  - congruence.
  - repeat constructor.
  - cbn. congruence.
  - exists st', stored. split; [exact E|exact Hk].
Defined.

(** ** Behaviours *)

(** When the list of the validators cannot be read, a block without a proposer is
    accepted. *)
Example nobody_is_a_proposer :
  CheckMinerMatch XpoaExample.L XpoaExample.verify (XpoaExample.node "eve") (XpoaExample.blk "X" 20 "" 16000 0) = Ret true.
Proof. vm_compute. reflexivity. Qed.

(** With chained BFT the block says at which height its validators are to be
    looked up: the producers of old choose a height before the edit. *)
Example old_producer_chooses_height :
  GetLocalLeader XpoaExample.L (XpoaExample.sched "eve" true []) (XpoaExample.ms 16000) 6 (mkStorage None 0 0 0) = Ret "cat" /\
  GetLocalLeader XpoaExample.L (XpoaExample.sched "eve" true []) (XpoaExample.ms 16000) 6 (mkStorage None 0 0 4) = Ret "amy".
Proof. split; vm_compute; reflexivity. Qed.

(** The list is not examined: names may be empty or repeated. *)
Example list_is_not_examined : Split "amy;;amy" = ["amy"; ""; "amy"].
Proof. reflexivity. Qed.

(** With no producers at all the schedule divides by zero. *)
Example no_producers_panic : minerScheduling (XpoaExample.sched "eve" false []) 0 0 = Panic.
Proof. reflexivity. Qed.
