(* ===== verification/Pluggable.v ===== *)
(** * The pluggable consensus

    [kernel/consensus]: [step_consensus.go], [pluggable_consensus.go] and
    [consensus_factory.go].  A chain runs one consensus after another; the list of
    their configurations is a value of the contract storage, the list of their
    instances is kept in memory, and a governance proposal appends to both.

    An instance is what the class [ConsensusImpl] says, the interface
    [ConsensusImplInterface]; the registered constructors are a parameter.  The
    instances are shared by reference: an operation on the instance in force is an
    operation on an entry of the list.  So is the block that is checked or mined: the
    methods that may write to it hand it back.  A string that holds the text of a JSON
    document, as the configuration of a consensus does, is kept as the document. *)

From Stdlib Require Import ZArith Lia Ascii.
From stdpp Require Import base gmap strings list numbers sorting.
From S2P Require Import Prelude GoValues Sandbox KContext LedgerHash QCTree Smr Consensus.

Set Default Proof Using "Type".

(** ** The interface of an instance *)

Record ConsensusStatus := mkStatus { GetVersion : Z; GetConsensusBeginInfo : Z; GetStepConsensusIndex : Z; GetConsensusName : string }.

Class ConsensusImpl (C : Type) := {
  im_Status : C -> outcome ConsensusStatus;
  im_CompeteMaster : Z -> M C (bool * bool);
  im_CheckMinerMatch : InternalBlock -> C -> (outcome bool * InternalBlock) * C;
  im_ProcessBeforeMiner : Z -> Z -> M C (bytes * option ConsensusStorage);
  im_CalculateBlock : InternalBlock -> C -> (outcome unit * InternalBlock) * C;
  im_ProcessConfirmBlock : InternalBlock -> M C unit;
  im_Start : M C unit;
  im_Stop : M C unit
}.

(** Where an instance begins and what it is called never changes. *)
Class ConsensusImplLaws (C : Type) `{ConsensusImpl C} := {
  status_CompeteMaster h c : im_Status (snd (im_CompeteMaster h c)) = im_Status c;
  status_CheckMinerMatch b c : im_Status (snd (im_CheckMinerMatch b c)) = im_Status c;
  status_ProcessBeforeMiner h t c : im_Status (snd (im_ProcessBeforeMiner h t c)) = im_Status c;
  status_CalculateBlock b c : im_Status (snd (im_CalculateBlock b c)) = im_Status c;
  status_ProcessConfirmBlock b c : im_Status (snd (im_ProcessConfirmBlock b c)) = im_Status c;
  status_Start c : im_Status (snd (im_Start c)) = im_Status c;
  status_Stop c : im_Status (snd (im_Stop c)) = im_Status c
}.

(** ** Configurations *)

Record ConsensusConfig := mkCfg { ConsensusName : string; Config : blob; StartHeight : Z; Index : Z }.
Definition no_config : ConsensusConfig := mkCfg "" (Raw "") 0 0.

Definition enc_text (b : blob) : json := match b with Raw s => JStr s | Doc l => JObj l end.
Definition dec_text (j : json) : option blob := match j with JStr s => Some (Raw s) | JObj l => Some (Doc l) | JNull => Some (Raw "") | _ => None end.

(** Zero heights and indices are left out. *)
Definition enc_config (c : ConsensusConfig) : json :=
  JObj ([("name", JStr (ConsensusName c)); ("config", enc_text (Config c))] ++
        (if (StartHeight c =? 0)%Z then [] else [("height", JNum (StartHeight c))]) ++ (if (Index c =? 0)%Z then [] else [("index", JNum (Index c))])).
Definition dec_config_members (l : list (string * json)) : option ConsensusConfig :=
  match field_str "name" l "", field dec_text "config" l (Raw ""), field_int64 "height" l 0%Z, field_int64 "index" l 0%Z with
  | Some n, Some c, Some h, Some i => Some (mkCfg n c h i)
  | _, _, _, _ => None
  end.
Definition dec_config (j : json) : option ConsensusConfig :=
  match j with JObj l => dec_config_members l | JNull => Some no_config | _ => None end.
Definition UnmarshalConfig (b : blob) : option ConsensusConfig :=
  match b with Doc l => dec_config_members l | Raw t => if bool_decide (t = "null") then Some no_config else None end.

(** [map[int]def.ConsensusConfig]; the keys are kept in decimal, as JSON has them. *)
Notation History := (gmap string ConsensusConfig).
Definition key_of (i : nat) : string := bigString (Z.of_nat i).
Definition int_key (k : string) : bool := match ParseInt64 k with Some n => bool_decide (bigString n = k) | None => false end.
Definition MarshalHistory (c : History) : blob := Doc (obj_of_map enc_config c).
Definition UnmarshalHistory (b : blob) : option History :=
  match b with
  | Doc l => if forallb (fun kv => int_key kv.1) l then map_of_obj dec_config l ∅ else None
  | Raw t => if bool_decide (t = "null") then Some ∅ else None
  end.

(** [configFilter]: the version, empty when there is none. *)
Definition config_version (c : blob) : option string :=
  match c with Doc l => field_str "version" l "" | Raw t => if bool_decide (t = "null") then Some "" else None end.

(** What [strconv.ParseInt] returns when its error is ignored: the nearest number
    for one out of range, zero for a text that is none. *)
Definition ParseInt_value (s : string) : Z :=
  let (v, ok) := SetString s in
  if ok then Z.max int64_min (Z.min int64_max v) else 0%Z.

(** The greatest version of the first [n] configurations. *)
Fixpoint max_version (c : History) (n : nat) (maxVersion : Z) : outcome Z :=
  match n with
  | O => Ret maxVersion
  | S i =>
      match config_version (Config (default no_config (c !! key_of i))) with
      | None => Err "unmarshal config error"
      | Some v =>
          let v := ParseInt_value (if is_empty_string v then "0" else v) in
          max_version c i (if (maxVersion <? v)%Z then v else maxVersion)
      end
  end.

Definition ErrInvalidVersion : string := "version should be an upper one when upgrading a new one".

(** The history with the new configuration. *)
Definition checkConsensusVersion (c : History) (cfg : ConsensusConfig) : outcome History :=
  match config_version (Config cfg) with
  | None => Err "wrong parameter config"
  | Some v =>
      match ParseInt64 v with
      | None => Err "wrong parameter version, version should an integer in string"
      | Some newConfVersion =>
          maxVersion ← max_version c (size c) 0%Z;
          if (maxVersion <? newConfVersion)%Z then Ret (<[key_of (size c) := cfg]> c) else Err ErrInvalidVersion
      end
  end.

(** ** The list of instances *)

Definition contractBucket : string := "$consensus".
Definition consensusKey : string := "PluggableConfig".
Definition EmptyConsensusListErr : string := "Consensus list of PluggableConsensus is empty.".
Definition EmptyConsensusName : string := "Consensus name can not be empty".
Definition EmptyConfig : string := "Config name can not be empty".
Definition UpdateTriggerError : string := "Update trigger height invalid".
Definition BeginBlockIdErr : string := "Consensus begin blockid err".
Definition BuildConsensusError : string := "Build consensus Error".
Definition ConsensusNotRegister : string := "Consensus hasn't been register. Please use consensus.Register({NAME},{FUNCTION_POINTER}) to register in consensusMap".
Definition CheckHeightErr : string := "check consensus height error".

Section Pluggable.
Context {C : Type} `{ConsensusImpl C}.

(** An entry is nil when its instance could not be made. *)
Record stepConsensus := mkStep { cons : list (option C); switchConsensus : bool }.

Definition setSwitch (b : bool) (pc : stepConsensus) : stepConsensus := mkStep (cons pc) b.
Definition put (con : C) (pc : stepConsensus) : stepConsensus := mkStep (cons pc ++ [Some con]) (switchConsensus pc).
Definition tail (pc : stepConsensus) : option C := mjoin (last (cons pc)).
(** The instance before the last. *)
Definition preTail (pc : stepConsensus) : option C := if (length (cons pc) <? 2)%nat then None else mjoin (cons pc !! (length (cons pc) - 2)%nat).

(** The position in the list of the instance for a height. *)
Definition getCurrentConsensusItem (height : Z) (pc : stepConsensus) : outcome nat :=
  match tail pc with
  | None => Err "pluggable consensus stepConsensus.tail error"
  | Some con =>
      match im_Status con with
      | Panic => Panic
      | Err _ => Err "pluggable consensus GetConsensusStatus failed"
      | Ret st =>
          if (GetConsensusBeginInfo st <=? height)%Z then Ret (length (cons pc) - 1)%nat
          else match preTail pc with
               | None => Err "pluggable consensus stepConsensus.preTail error"
               | Some _ => Ret (length (cons pc) - 2)%nat
               end
      end
  end.

(** Run a method of the instance at a position of the list; [inj] makes the answer
    when there is none. *)
Definition run_at {A R} (inj : outcome A -> R) (i : nat) (op : C -> R * C) (pc : stepConsensus) : R * stepConsensus :=
  match mjoin (cons pc !! i) with
  | None => (inj Panic, pc)
  | Some con => let (o, con') := op con in (o, mkStep (<[i := Some con']> (cons pc)) (switchConsensus pc))
  end.

Definition on_current {A R} (inj : outcome A -> R) (height : Z) (op : C -> R * C) (pc : stepConsensus) : R * stepConsensus :=
  match getCurrentConsensusItem height pc with
  | Ret i => run_at inj i op pc
  | Err _ => (inj (Err EmptyConsensusListErr), pc)
  | Panic => (inj Panic, pc)
  end.

Definition CompeteMaster (height : Z) : M stepConsensus (bool * bool) := on_current id height (im_CompeteMaster height).
Definition CheckMinerMatch (block : InternalBlock) : stepConsensus -> (outcome bool * InternalBlock) * stepConsensus := on_current (fun o => (o, block)) (Height block) (im_CheckMinerMatch block).
Definition ProcessBeforeMiner (height timestamp : Z) : M stepConsensus (bytes * option ConsensusStorage) := on_current id height (im_ProcessBeforeMiner height timestamp).
Definition CalculateBlock (block : InternalBlock) : stepConsensus -> (outcome unit * InternalBlock) * stepConsensus := on_current (fun o => (o, block)) (Height block) (im_CalculateBlock block).
Definition ProcessConfirmBlock (block : InternalBlock) : M stepConsensus unit := on_current id (Height block) (im_ProcessConfirmBlock block).
Definition GetConsensusStatus (tip : InternalBlock) (pc : stepConsensus) : outcome ConsensusStatus :=
  match getCurrentConsensusItem (add64 (Height tip) 1) pc with
  | Ret i => match mjoin (cons pc !! i) with Some con => im_Status con | None => Panic end
  | Err _ => Err EmptyConsensusListErr
  | Panic => Panic
  end.

(** The last instance is started and the one before it stopped; that the old one
    does not stop is not an error. *)
Definition SwitchConsensus (height : Z) : M stepConsensus unit := fun pc =>
  match tail pc with
  | None => (Err "pluggable consensus SwitchConsensus stepConsensus.tail error", pc)
  | Some con =>
      match im_Status con with
      | Panic => (Panic, pc)
      | Err _ => (Err "pluggable consensus SwitchConsensus GetConsensusStatus failed", pc)
      | Ret st =>
          if (sub64 (GetConsensusBeginInfo st) 1 <=? height)%Z && switchConsensus pc then
            let (stopped, pc) := match preTail pc with Some _ => run_at id (length (cons pc) - 2) im_Stop pc | None => (Ret tt, pc) end in
            match stopped with
            | Panic => (Panic, pc)
            | _ =>
                match run_at id (length (cons pc) - 1) im_Start pc with
                | (Ret _, pc) => (Ret tt, setSwitch false pc)
                | (Err _, pc) => (Err "pluggable consensus SwitchConsensus start new consensus failed", pc)
                | (Panic, pc) => (Panic, pc)
                end
            end
          else (Ret tt, pc)
      end
  end.

(** ** Making and replacing instances *)

(** The context of a consensus, through which a constructor sees the ledger as it
    is at that moment. *)
Context {X : Type}.
(** [consensusMap]: the registered constructors; one may return nil, at one state of
    the ledger and not at another. *)
Variable consensusMap : string -> option (X -> ConsensusConfig -> option C).

Definition NewPluginConsensus (cCtx : X) (cCfg : ConsensusConfig) : outcome (option C) :=
  if is_empty_string (ConsensusName cCfg) then Err EmptyConsensusName
  else if (StartHeight cCfg <? 0)%Z then Err BeginBlockIdErr
  else match consensusMap (ConsensusName cCfg) with Some f => Ret (f cCtx cCfg) | None => Err ConsensusNotRegister end.

Definition makeConsensusItem (cCtx : X) (cCfg : ConsensusConfig) : outcome C :=
  if is_empty_string (ConsensusName cCfg) then Err EmptyConsensusName
  else
    specificCon ← NewPluginConsensus cCtx cCfg;
    match specificCon with Some c => Ret c | None => Err BuildConsensusError end.

(** [json.Marshal] of a document that was read as a map: the members in order. *)
Definition normalized (l : list (string * json)) : blob := Doc (obj_of_map id (default ∅ (map_of_obj Some l ∅))).

Definition proposalArgsUnmarshal (ctxArgs : gmap string blob) (pc : stepConsensus) : outcome ConsensusConfig :=
  match ctxArgs !! "height" with
  | None => Err UpdateTriggerError
  | Some h =>
      match ParseInt64 (blob_string h) with
      | None => Err "strconv.ParseInt: parsing"
      | Some updateHeight =>
          match ctxArgs !! "args" with
          | Some (Doc args) =>
              match obj_get "name" args with
              | None => Err EmptyConsensusName
              | Some name =>
                  match obj_get "config" args with
                  | None => Err ConsensusNotRegister
                  | Some config =>
                      match name with
                      | JStr consensusName =>
                          match consensusMap consensusName with
                          | None => Err ConsensusNotRegister
                          | Some _ =>
                              match config with
                              | JObj l => Ret (mkCfg consensusName (normalized l) (add64 updateHeight 1) (Z.of_nat (length (cons pc))))
                              | _ => Err EmptyConfig
                              end
                          end
                      | _ => Err EmptyConsensusName
                      end
                  end
              end
          | Some (Raw t) => if bool_decide (t = "null") then Err EmptyConsensusName else Err "json: cannot unmarshal"
          | None => Err "unexpected end of JSON input"
          end
      end
  end.

Definition checkConsensusHeight (cfg : ConsensusConfig) (pc : stepConsensus) : outcome unit :=
  match tail pc with
  | None => Err CheckHeightErr
  | Some con =>
      match im_Status con with
      | Ret st => if (sub64 (StartHeight cfg) (GetConsensusBeginInfo st) <? 20)%Z then Err CheckHeightErr else Ret tt
      | _ => Panic
      end
  end.

(** Proof of work is neither replaced nor a replacement. *)
Definition check_pow (cfg : ConsensusConfig) (pc : stepConsensus) : outcome unit :=
  if bool_decide (ConsensusName cfg = "pow") then Err "updateConsensus target can not be pow"
  else
    match tail pc with
    | None => Ret tt
    | Some cur =>
        match im_Status cur with
        | Panic => Panic
        | Err _ => Err "updateConsensus can not upgrade from pow"
        | Ret st => if bool_decide (GetConsensusName st = "pow") then Err "updateConsensus can not upgrade from pow" else Ret tt
        end
    end.

(** The genesis configuration begins the history. *)
Definition genesis_history (consensusConf : blob) : History :=
  let config := default no_config (UnmarshalConfig consensusConf) in
  {[key_of 0 := mkCfg (ConsensusName config) (Config config) 1 0]}.

Section Update.
Context {S : Type} `{StateSandbox S}.
(** [pc.ctx.Ledger.GetConsensusConf] *)
Variable consensusConf : blob.

(** The method changes the contract storage, through the sandbox, and the memory of
    the node, at once. *)
Definition updateConsensus (cCtx : X) (ctx : Context) (st : KState S) (pc : stepConsensus) : outcome Response * KState S * stepConsensus :=
  match proposalArgsUnmarshal (Args ctx) pc with
  | Err e => (Err e, st, pc)
  | Panic => (Panic, st, pc)
  | Ret cfg =>
      match check_pow cfg pc with
      | Err e => (Err e, st, pc)
      | Panic => (Panic, st, pc)
      | Ret _ =>
          let (stored, st) := mtry (ctx_Get contractBucket consensusKey) st in
          let history := match stored with
                         | Ret (inl b) => match UnmarshalHistory b with Some c => Ret c | None => Err BuildConsensusError end
                         | Ret (inr _) => Ret (genesis_history consensusConf)
                         | _ => Panic
                         end in
          match c ← history; _ ← checkConsensusHeight cfg pc; c' ← checkConsensusVersion c cfg; item ← makeConsensusItem cCtx (default no_config (c' !! key_of (size c' - 1))); Ret (c', item) with
          | Err e => (Err e, st, pc)
          | Panic => (Panic, st, pc)
          | Ret (c', item) =>
              match ctx_Put contractBucket consensusKey (MarshalHistory c') st with
              | (Ret _, st) => (Ret (resp_ok (Some (Raw "ok"))), st, put item (setSwitch true pc))
              | (Err _, st) => (Err BuildConsensusError, st, pc)
              | (Panic, st) => (Panic, st, pc)
              end
          end
      end
  end.
End Update.

(** ** Starting the node *)

(** The instances of the stored configurations, in order. *)
Definition make_item (cCtx : X) (c : History) (i : nat) : option C :=
  match makeConsensusItem cCtx (default no_config (c !! key_of i)) with Ret con => Some con | _ => None end.

(** [stored] is what the snapshot at the tip answers; an error there is ignored.
    Only the last instance is started, and starting nil panics. *)
Definition NewPluggableConsensus (cCtx : X) (consensusConf : blob) (stored : option blob) : outcome stepConsensus :=
  items ← (match stored with
           | None =>
               match UnmarshalConfig consensusConf with
               | None => Err "parse consensus configuration error!"
               | Some cfg => con ← makeConsensusItem cCtx (mkCfg (ConsensusName cfg) (Config cfg) 1 0); Ret [Some con]
               end
           | Some res =>
               match UnmarshalHistory res with
               | None => Err "history consensus storage invalid"
               | Some c => Ret (make_item cCtx c <$> seq 0 (size c))
               end
           end);
  match last items with
  | Some (Some con) => Ret (mkStep (take (length items - 1) items ++ [Some (snd (im_Start con))]) false)
  | Some None => Panic
  | None => Ret (mkStep [] false)
  end.
End Pluggable.
Arguments stepConsensus C : clear implicits.
Arguments mkStep {C} _ _.
