(* ===== verification/PluggableSpec.v ===== *)
(** * The pluggable consensus: storage and memory

    The configurations in the contract storage and the instances in the memory of
    the node (file Pluggable) go together; which instance answers for a height; what
    a restart rebuilds; and what running the update twice does. *)

From Stdlib Require Import ZArith Lia Ascii.
From stdpp Require Import base gmap strings list numbers sorting.
From S2P Require Import Prelude GoValues Sandbox KContext LedgerHash QCTree Smr Consensus Pluggable.

Set Default Proof Using "Type".
Local Open Scope Z_scope.

(** ** A history as a list *)

Definition history_of (l : list ConsensusConfig) : History := list_to_map (imap (fun i c => (key_of i, c)) l).

Lemma bigString_inj x y : bigString x = bigString y -> x = y.
Proof. intros E. apply (f_equal SetString) in E. rewrite !SetString_bigString in E. congruence. Qed.
Lemma int_key_of_inj i j : key_of i = key_of j -> i = j.
Proof. unfold key_of. intros E%bigString_inj. lia. Qed.

Lemma history_keys (l : list ConsensusConfig) : (imap (fun i c => (key_of i, c)) l).*1 = key_of <$> seq 0 (length l).
Proof.
  apply list_eq. intros i. rewrite !list_lookup_fmap, list_lookup_imap. destruct (decide (i < length l)%nat) as [Hi|Hi].
  - destruct (lookup_lt_is_Some_2 l i Hi) as [c Ec]. rewrite Ec, lookup_seq_lt by done. done.
  - rewrite (lookup_ge_None_2 l i) by lia. rewrite lookup_seq_ge by lia. done.
Qed.
Lemma history_keys_nodup (l : list ConsensusConfig) : NoDup (imap (fun i c => (key_of i, c)) l).*1.
Proof. rewrite history_keys. apply NoDup_fmap_2; [intros i j; apply int_key_of_inj|apply NoDup_seq]. Qed.

Lemma history_lookup l i : history_of l !! key_of i = l !! i.
Proof.
  unfold history_of. destruct (l !! i) as [c|] eqn:E.
  - apply elem_of_list_to_map_1; [apply history_keys_nodup|]. apply list_elem_of_lookup. exists i. by rewrite list_lookup_imap, E.
  - apply not_elem_of_list_to_map_1. rewrite history_keys. intros (j & Ej%int_key_of_inj & Hj)%list_elem_of_fmap. subst j. apply elem_of_seq in Hj. apply lookup_ge_None in E. lia.
Qed.

Lemma history_size l : size (history_of l) = length l.
Proof. unfold history_of. rewrite map_size_list_to_map by apply history_keys_nodup. apply length_imap. Qed.

Lemma history_snoc l c : <[key_of (length l) := c]> (history_of l) = history_of (l ++ [c]).
Proof.
  unfold history_of. rewrite imap_app, list_to_map_app. cbn. rewrite insert_union_singleton_l, Nat.add_0_r, map_union_comm; [done|].
  apply map_disjoint_singleton_l. fold (history_of l). rewrite history_lookup. by apply lookup_ge_None.
Qed.

(** ** What is stored is read back *)

Definition storable (c : ConsensusConfig) : Prop := is_int64 (StartHeight c) /\ is_int64 (Index c).

Lemma dec_enc_config c : storable c -> dec_config (enc_config c) = Some c.
Proof.
  intros [Hh Hi]. destruct c as [n t h i]. unfold enc_config, dec_config, dec_config_members. cbn [ConsensusName Config StartHeight Index] in *.
  unfold field_str, field_int64, field. destruct (Z.eqb_spec h 0), (Z.eqb_spec i 0); subst; cbn [obj_get app];
    (repeat match goal with |- context [bool_decide (?a = ?b)] => first [rewrite (bool_decide_eq_true_2 (a = b)) by reflexivity | rewrite (bool_decide_eq_false_2 (a = b)) by discriminate] end);
    cbn; rewrite ?bool_decide_eq_true_2 by done; by destruct t.
Qed.

Lemma history_roundtrip l : Z.of_nat (length l) <= 2 ^ 62 -> Forall storable l -> UnmarshalHistory (MarshalHistory (history_of l)) = Some (history_of l).
Proof.
  intros Hlen Hl. unfold UnmarshalHistory, MarshalHistory.
  assert (forall k c, history_of l !! k = Some c -> exists i, k = key_of i /\ (i < length l)%nat /\ l !! i = Some c) as Hk.
  { intros k c E. apply elem_of_list_to_map_2 in E. apply list_elem_of_lookup in E as (i & E). rewrite list_lookup_imap in E. destruct (l !! i) eqn:Ei; [|done]. cbn in E. simplify_eq.
    exists i. split_and!; [done|by eapply lookup_lt_Some|done]. }
  assert (forallb (fun kv => int_key kv.1) (obj_of_map enc_config (history_of l)) = true) as ->.
  { apply forallb_forall. intros [k j] Hin%list_elem_of_In. unfold obj_of_map in Hin. apply list_elem_of_fmap in Hin as ([k' c] & [= -> ->] & Hin).
    rewrite (merge_sort_Permutation key_le) in Hin. apply elem_of_map_to_list in Hin. destruct (Hk _ _ Hin) as (i & -> & Hi & _). cbn. unfold int_key, key_of.
    rewrite ParseInt64_bigString by in64. by apply bool_decide_eq_true_2. }
  apply map_of_obj_marshalled. intros k c E. destruct (Hk _ _ E) as (i & _ & _ & Ei). apply dec_enc_config. rewrite Forall_lookup in Hl. by eapply Hl.
Qed.

(** ** Versions *)

Definition version_of (c : ConsensusConfig) : option Z :=
  (fun v => ParseInt_value (if is_empty_string v then "0" else v)) <$> config_version (Config c).

Lemma max_version_spec c n m r : max_version c n m = Ret r -> m <= r /\ forall i, (i < n)%nat -> exists v, version_of (default no_config (c !! key_of i)) = Some v /\ v <= r.
Proof.
  revert m. induction n as [|n IH]; intros m E; cbn [max_version] in E; [injection E as ->; split; [lia|lia]|]. unfold version_of in *.
  destruct (config_version _) as [t|] eqn:Et; [|done]. destruct (IH _ E) as [Hm Hall]. destruct (Z.ltb_spec m (ParseInt_value (if is_empty_string t then "0" else t))).
  - split; [lia|]. intros i Hi. destruct (decide (i = n)) as [->|]; [|apply Hall; lia]. rewrite Et. cbn. eexists. split; [done|]. lia.
  - split; [lia|]. intros i Hi. destruct (decide (i = n)) as [->|]; [|apply Hall; lia]. rewrite Et. cbn. eexists. split; [done|]. lia.
Qed.

Lemma ParseInt64_value s n : ParseInt64 s = Some n -> ParseInt_value s = n.
Proof.
  unfold ParseInt64, ParseInt_value. destruct (SetString s) as [v ok]. destruct ok; [|done]. cbn [andb]. case_bool_decide as Hv; [|done]. intros [= <-]. unfold is_int64 in Hv. lia.
Qed.

Lemma checkConsensusVersion_ret l cfg c' : checkConsensusVersion (history_of l) cfg = Ret c' ->
  c' = history_of (l ++ [cfg]) /\ exists v, version_of cfg = Some v /\ 0 < v /\ Forall (fun c => exists w, version_of c = Some w /\ w < v) l.
Proof.
  unfold checkConsensusVersion. intros E. destruct (config_version (Config cfg)) as [t|] eqn:Et; [|done]. destruct (ParseInt64 t) as [n|] eqn:En; [|done].
  apply obind_inv_ret in E as (m & Em & E). destruct (Z.ltb_spec m n); [|done]. injection E as <-. rewrite history_size. split; [apply history_snoc|].
  rewrite history_size in Em. destruct (max_version_spec _ _ _ _ Em) as [H0 Hall]. exists n. split; [|split; [lia|]].
  - unfold version_of. rewrite Et. cbn. assert (is_empty_string t = false) as -> by (by destruct t). f_equal. by apply ParseInt64_value.
  - apply Forall_lookup. intros i c Ei. destruct (Hall i) as (v & Ev & Hv); [by eapply lookup_lt_Some|]. rewrite history_lookup, Ei in Ev. exists v. split; [done|lia].
Qed.

(** ** Storage and memory *)

(** Heights: from one on, and twenty blocks apart at least. *)
Definition apart (a b : ConsensusConfig) : Prop := StartHeight a + 20 <= StartHeight b.
Definition spaced (l : list ConsensusConfig) : Prop := Forall (fun c => 1 <= StartHeight c) l /\ StronglySorted apart l.
(** Every version is above the versions before it. *)
Definition rising (l : list ConsensusConfig) : Prop :=
  forall i j a b, (i < j)%nat -> l !! i = Some a -> l !! j = Some b -> exists v w, version_of a = Some v /\ version_of b = Some w /\ v < w.

Lemma spaced_lt l i j a b : spaced l -> (i < j)%nat -> l !! i = Some a -> l !! j = Some b -> apart a b.
Proof.
  intros [_ Hs] Hij Ea Eb. rewrite <- (take_drop j l) in Hs. apply (StronglySorted_app_1_elem_of _ _ _ _ _ Hs).
  - apply list_elem_of_lookup. exists i. by rewrite lookup_take_lt.
  - apply list_elem_of_lookup. exists 0%nat. by rewrite lookup_drop, Nat.add_0_r.
Qed.
Lemma spaced_lower l i c : spaced l -> l !! i = Some c -> 20 * Z.of_nat i + 1 <= StartHeight c.
Proof.
  intros Hs. revert c. induction i as [|i IH]; intros c E; [destruct Hs as [H1 _]; rewrite Forall_lookup in H1; specialize (H1 _ _ E); lia|].
  destruct (lookup_lt_is_Some_2 l i) as [a Ea]; [apply lookup_lt_Some in E; lia|]. specialize (IH a Ea). pose proof (spaced_lt _ i (S i) _ _ Hs ltac:(lia) Ea E). unfold apart in *. lia.
Qed.
Lemma spaced_length l : spaced l -> Forall (fun c => is_int64 (StartHeight c)) l -> Z.of_nat (length l) <= 2 ^ 62.
Proof.
  intros Hs Hst. destruct l as [|c l'] using rev_ind; [cbn; lia|]. clear IHl'. assert ((l' ++ [c]) !! length l' = Some c) as E by (by apply list_lookup_middle).
  pose proof (spaced_lower _ _ _ Hs E) as Hl. rewrite Forall_lookup in Hst. pose proof (Hst _ _ E) as Hh. unfold is_int64, int64_max in Hh. rewrite length_app. cbn. lia.
Qed.
Lemma spaced_snoc l c : spaced l -> 1 <= StartHeight c -> (forall g, last l = Some g -> apart g c) -> spaced (l ++ [c]).
Proof.
  intros Hs Hc Hg. pose proof Hs as [H1 H2]. split; [apply Forall_app; split; [done|by constructor]|]. apply StronglySorted_app_2; [|done|repeat constructor].
  intros a b Ha ->%list_elem_of_singleton. destruct l as [|g l _] using rev_ind; [by apply elem_of_nil in Ha|]. specialize (Hg g (last_snoc _ _)).
  apply elem_of_app in Ha as [Ha| ->%list_elem_of_singleton]; [|done]. pose proof (StronglySorted_app_1_elem_of _ _ _ _ g H2 Ha ltac:(by left)). unfold apart in *. lia.
Qed.
Lemma Forall_sublist_of {A} (P : A -> Prop) l m : l `sublist_of` m -> Forall P m -> Forall P l.
Proof. induction 1; intros Hf; [done|..]; apply Forall_cons in Hf as [? ?]; auto. Qed.
Lemma spaced_sublist l m : l `sublist_of` m -> spaced m -> spaced l.
Proof.
  intros Hl [H1 H2]. split; [by eapply Forall_sublist_of|]. clear H1. revert H2. induction Hl as [|x l m Hl IH|x l m Hl IH]; intros H2; [constructor|..]; apply StronglySorted_inv in H2 as [H2 Hx].
  - constructor; [auto|]. by eapply Forall_sublist_of.
  - auto.
Qed.

Lemma rising_prefix l k : l `prefix_of` k -> rising k -> rising l.
Proof. intros [t ->] Hr i j a b Hij Ea Eb. apply (Hr i j); [done|by apply lookup_app_l_Some..]. Qed.

Lemma rising_snoc l c v : rising l -> version_of c = Some v -> Forall (fun c => exists w, version_of c = Some w /\ w < v) l -> rising (l ++ [c]).
Proof.
  intros Hr Hv Hall i j a b Hij Ea Eb. destruct (decide (j < length l)%nat) as [Hj|Hj].
  - rewrite lookup_app_l in Ea, Eb by lia. by eapply (Hr i j).
  - assert (j = length l) as -> by (apply lookup_lt_Some in Eb; rewrite length_app in Eb; cbn in Eb; lia). rewrite list_lookup_middle in Eb by done. injection Eb as <-.
    rewrite lookup_app_l in Ea by done. rewrite Forall_lookup in Hall. destruct (Hall _ _ Ea) as (w & Ew & Hw). by exists w, v.
Qed.

Section Agree.
Context {C : Type} {Ci : ConsensusImpl C} {Cl : ConsensusImplLaws C} {St : Type} {Sb : StateSandbox St} {Sl : StateSandboxLaws St} {X : Type}.
Variable consensusMap : string -> option (X -> ConsensusConfig -> option C).
Variable conf : blob.
(** An instance begins where its configuration says. *)
Hypothesis begins : forall n f x cfg con, consensusMap n = Some f -> f x cfg = Some con -> exists st, im_Status con = Ret st /\ GetConsensusBeginInfo st = StartHeight cfg.
Implicit Types (st : KState St) (pc : stepConsensus C) (l m : list ConsensusConfig).

(** An instance has the status it was made with, at some state of the ledger; an
    entry may be nil. *)
Definition item_of (cfg : ConsensusConfig) (o : option C) : Prop :=
  forall con, o = Some con -> exists x made, makeConsensusItem consensusMap x cfg = Ret made /\ im_Status con = im_Status made.

(** The storage holds these configurations; none but the first are stored before
    the first update. *)
Definition stored_as st l : Prop :=
  kinv st /\ l <> [] /\ Forall storable l /\
  (kview st contractBucket consensusKey = Ret (MarshalHistory (history_of l)) \/ (exists e, kview st contractBucket consensusKey = Err e) /\ history_of l = genesis_history conf).

(** The memory holds instances of these. *)
Record loaded pc m : Prop := {
  ld_items : Forall2 item_of m (cons pc);
  ld_last : is_Some (tail pc);
  ld_heights : Forall (fun c => is_int64 (StartHeight c)) m;
  ld_spaced : spaced m
}.

(** What is stored is among what was made, in the same order. *)
Record agrees st pc l m : Prop := {
  ag_stored : stored_as st l;
  ag_loaded : loaded pc m;
  ag_sub : l `sublist_of` m;
  ag_rising : rising l
}.

Lemma made_begins x cfg con : makeConsensusItem consensusMap x cfg = Ret con -> exists s, im_Status con = Ret s /\ GetConsensusBeginInfo s = StartHeight cfg.
Proof using begins.
  unfold makeConsensusItem, NewPluginConsensus. destruct (is_empty_string _); [done|]. destruct (_ <? _); [done|]. destruct (consensusMap _) as [f|] eqn:Ef; [|done]. rewrite obind_ret.
  destruct (f x cfg) as [c|] eqn:Ec; [|done]. intros [= <-]. by eapply begins.
Qed.
Lemma made_height x cfg con : makeConsensusItem consensusMap x cfg = Ret con -> 0 <= StartHeight cfg.
Proof using Type. unfold makeConsensusItem, NewPluginConsensus. destruct (is_empty_string _); [done|]. destruct (Z.ltb_spec (StartHeight cfg) 0); [done|]. done. Qed.

Lemma item_begins cfg con : item_of cfg (Some con) -> exists s, im_Status con = Ret s /\ GetConsensusBeginInfo s = StartHeight cfg.
Proof using begins. intros Hi. destruct (Hi con eq_refl) as (x & made & Hm & Hs). destruct (made_begins _ _ _ Hm) as (s & Es & Eb). exists s. split; [congruence|done]. Qed.

(** The last instance is the one of the last configuration. *)
Lemma tail_of pc m : loaded pc m -> exists con g s, tail pc = Some con /\ last m = Some g /\ im_Status con = Ret s /\ GetConsensusBeginInfo s = StartHeight g.
Proof using begins.
  intros [Hf [con Et] _ _]. unfold tail in *. destruct (cons pc) as [|o k _] using rev_ind; [done|]. rewrite last_snoc in Et. cbn in Et. subst o.
  apply Forall2_app_inv_r in Hf as (m1 & m2 & _ & Hf & ->). apply Forall2_cons_inv_r in Hf as (g & m3 & Hg & Hn & ->). apply Forall2_nil_inv_r in Hn as ->.
  destruct (item_begins _ _ Hg) as (s & Es & Eb). exists con, g, s. split_and!; [by rewrite last_snoc|apply last_snoc|done..].
Qed.

Lemma proposal_cfg args pc cfg : proposalArgsUnmarshal consensusMap args pc = Ret cfg -> is_int64 (StartHeight cfg) /\ Index cfg = Z.of_nat (length (cons pc)).
Proof using Type.
  unfold proposalArgsUnmarshal. destruct (args !! "height") as [h|]; [|done]. destruct (ParseInt64 _) as [u|]; [|done]. destruct (args !! "args") as [[t|a]|]; [by case_bool_decide| |done].
  destruct (obj_get "name" a) as [nm|]; [|done]. destruct (obj_get "config" a) as [cf|]; [|done]. destruct nm; try done. destruct (consensusMap _); [|done]. destruct cf; try done.
  intros [= <-]. cbn. split; [apply wrap64_range|done].
Qed.

Lemma checkHeight_ret pc m cfg : loaded pc m -> 0 <= StartHeight cfg <= int64_max -> checkConsensusHeight cfg pc = Ret tt -> 1 <= StartHeight cfg /\ forall g, last m = Some g -> apart g cfg.
Proof using begins.
  intros Hld Hc. unfold checkConsensusHeight. destruct (tail_of _ _ Hld) as (con & g & s & -> & Eg & -> & Eb). rewrite Eb. destruct Hld as [_ _ Hh [H1 _]].
  apply last_Some_elem_of in Eg as Hin. rewrite Forall_forall in H1, Hh. specialize (H1 _ Hin). specialize (Hh _ Hin). unfold is_int64, sub64, int64_max in *. rewrite wrap64_id by in64.
  destruct (Z.ltb_spec (StartHeight cfg - StartHeight g) 20); [done|]. intros _. split; [lia|]. intros g' E. simplify_eq. unfold apart. lia.
Qed.

Lemma stored_small st pc l m : agrees st pc l m -> Z.of_nat (length l) <= 2 ^ 62.
Proof using Type.
  intros [_ [_ _ Hh Hs] Hsub _]. pose proof (spaced_length _ Hs Hh). apply sublist_length in Hsub. lia.
Qed.

Lemma read_history st pc l m : agrees st pc l m -> exists st1, kinv st1 /\ kequiv st st1 /\
  exists r, mtry (ctx_Get contractBucket consensusKey) st = (Ret r, st1) /\
    match r with inl b => match UnmarshalHistory b with Some c => Ret c | None => Err BuildConsensusError end | inr _ => Ret (genesis_history conf) end = Ret (history_of l).
Proof using Type.
  intros Hag. pose proof (stored_small _ _ _ _ Hag) as Hlen. destruct Hag as [(Hi0 & _ & Hst & Hk) _ _ _].
  destruct (ctx_Get_law st contractBucket consensusKey Hi0 eq_refl) as (st1 & E & Hi & He). exists st1. split; [done|]. split; [done|]. unfold mtry. rewrite E.
  destruct Hk as [->|[[e ->] Eg]].
  - eexists. split; [reflexivity|]. cbn beta iota. by rewrite history_roundtrip.
  - eexists. split; [reflexivity|]. by rewrite Eg.
Qed.

(** What a successful update has done. *)
Lemma updateConsensus_ret x ctx st pc l m r st' pc' : agrees st pc l m -> updateConsensus consensusMap conf x ctx st pc = (Ret r, st', pc') ->
  exists cfg item v, proposalArgsUnmarshal consensusMap (Args ctx) pc = Ret cfg /\ checkConsensusHeight cfg pc = Ret tt /\ makeConsensusItem consensusMap x cfg = Ret item /\
    version_of cfg = Some v /\ Forall (fun c => exists w, version_of c = Some w /\ w < v) l /\
    pc' = put item (setSwitch true pc) /\ kinv st' /\ kview st' contractBucket consensusKey = Ret (MarshalHistory (history_of (l ++ [cfg]))).
Proof using Type.
  intros Hag E. unfold updateConsensus in E. destruct (proposalArgsUnmarshal _ _ _) as [cfg| |]; [|done..]. destruct (check_pow cfg pc); [|done..].
  destruct (read_history _ _ _ _ Hag) as (st1 & Hi1 & He1 & q & Eg & Eh). rewrite Eg in E.
  assert (match (Ret q : outcome (blob + string)) with Ret (inl b) => match UnmarshalHistory b with Some c => Ret c | None => Err BuildConsensusError end | Ret (inr _) => Ret (genesis_history conf) | _ => Panic end = Ret (history_of l)) as Eh' by exact Eh.
  rewrite Eh' in E. rewrite obind_ret in E. destruct (checkConsensusHeight cfg pc) as [[]| |] eqn:Ech; [|done..]. rewrite obind_ret in E.
  destruct (checkConsensusVersion _ _) as [c'| |] eqn:Ecv; [|done..]. rewrite obind_ret in E. apply checkConsensusVersion_ret in Ecv as (-> & v & Ev & _ & Hall).
  rewrite history_size, history_lookup, length_app, (list_lookup_middle l [] cfg) in E by (cbn; lia). cbn [default from_option id] in E.
  destruct (makeConsensusItem _ x cfg) as [item| |] eqn:Em; [|done..]. rewrite obind_ret in E.
  destruct (ctx_Put_law st1 contractBucket consensusKey (MarshalHistory (history_of (l ++ [cfg]))) Hi1 eq_refl) as (st2 & Ep & Hi2 & Hu). rewrite Ep in E. injection E as _ <- <-.
  exists cfg, item, v. split_and!; try done. exact (kupdate_at _ contractBucket _ _ _ eq_refl Hu).
Qed.

(** The memory after an update that succeeded, and the storage if it is kept. *)
Lemma update_agrees x ctx st pc l m r st' pc' : agrees st pc l m -> updateConsensus consensusMap conf x ctx st pc = (Ret r, st', pc') ->
  exists cfg, agrees st' pc' (l ++ [cfg]) (m ++ [cfg]) /\ agrees st pc' l (m ++ [cfg]).
Proof using begins.
  intros Hag E. destruct (updateConsensus_ret _ _ _ _ _ _ _ _ _ Hag E) as (cfg & item & v & Ea & Eh & Em & Ev & Hall & -> & Hi & Hk). exists cfg. pose proof Hag as [(Hi0 & Hne & Hst & Hk0) Hld Hsub Hri].
  destruct (proposal_cfg _ _ _ Ea) as [Hh Hix]. pose proof (made_height _ _ _ Em) as Hpos. destruct (checkHeight_ret pc m cfg Hld ltac:(unfold is_int64 in Hh; lia) Eh) as [H1 Hg].
  pose proof Hld as [Hf _ Hhs Hsp]. pose proof (spaced_length _ Hsp Hhs) as Hlen. pose proof (Forall2_length _ _ _ Hf) as Hl2.
  assert (loaded (put item (setSwitch true pc)) (m ++ [cfg])) as Hld'.
  { split; cbn.
    - apply Forall2_app; [done|]. constructor; [|constructor]. intros con [= <-]. by exists x, item.
    - unfold tail. cbn. by rewrite last_snoc.
    - apply Forall_app. split; [done|by constructor].
    - by apply spaced_snoc. }
  split; split; [|done| | | |done| |done].
  - split_and!; [done|by destruct l| |by left]. apply Forall_app. split; [done|]. constructor; [|constructor]. split; [done|]. rewrite Hix, <- Hl2. in64.
  - by apply sublist_app.
  - by eapply rising_snoc.
  - by split_and!.
  - by apply sublist_inserts_r.
Qed.

(** Nothing else touches the list but through the instances. *)
Lemma run_at_loaded {A R} (inj : outcome A -> R) m pc i (op : C -> R * C) o pc' : (forall c, im_Status (snd (op c)) = im_Status c) -> run_at inj i op pc = (o, pc') -> loaded pc m -> loaded pc' m.
Proof using Type.
  intros Hop E Hld. unfold run_at in E. destruct (cons pc !! i) as [[con|]|] eqn:Ei; cbn in E; [|by injection E as <- <-..]. destruct (op con) as [o' con'] eqn:Eo. injection E as <- <-.
  destruct Hld as [Hf [t Ht] Hh Hs]. split; [| |done..]; cbn.
  - pose proof (lookup_lt_Some _ _ _ Ei) as Hlt. rewrite <- (Forall2_length _ _ _ Hf) in Hlt. destruct (lookup_lt_is_Some_2 _ _ Hlt) as [cfg Ec].
    pose proof (Forall2_lookup_lr _ _ _ _ _ _ Hf Ec Ei) as Hi. rewrite <- (list_insert_id _ _ _ Ec). apply Forall2_insert; [done|]. intros c [= <-].
    destruct (Hi con eq_refl) as (x & made & Em & Es). exists x, made. split; [done|]. specialize (Hop con). rewrite Eo in Hop. cbn in Hop. congruence.
  - unfold tail in *. cbn. rewrite last_lookup in *. rewrite length_insert. destruct (decide (i = pred (length (cons pc)))) as [->|Hne].
    + rewrite list_lookup_insert_eq by (by eapply lookup_lt_Some). by eexists.
    + rewrite list_lookup_insert_ne by done. by eexists.
Qed.
Lemma on_current_loaded {A R} (inj : outcome A -> R) m pc h (op : C -> R * C) o pc' : (forall c, im_Status (snd (op c)) = im_Status c) -> on_current inj h op pc = (o, pc') -> loaded pc m -> loaded pc' m.
Proof using Type. intros Hop E. unfold on_current in E. destruct (getCurrentConsensusItem h pc); [by eapply run_at_loaded|by injection E as _ <-..]. Qed.
Lemma switch_loaded m pc h o pc' : SwitchConsensus h pc = (o, pc') -> loaded pc m -> loaded pc' m.
Proof using Cl.
  intros E Hf. unfold SwitchConsensus in E. destruct (tail pc); [|by injection E as _ <-]. destruct (im_Status _); [|by injection E as _ <-..]. destruct (_ && _); [|by injection E as _ <-].
  destruct (match preTail pc with Some _ => _ | None => _ end) as [o1 pc1] eqn:E1. assert (loaded pc1 m) as Hf1.
  { destruct (preTail pc); [|by injection E1 as _ <-]. by eapply (run_at_loaded _ _ _ _ _ _ _ status_Stop E1). }
  destruct (run_at id (length (cons pc1) - 1) im_Start pc1) as [o2 pc2] eqn:E2. assert (loaded pc2 m) as Hf2 by (by eapply (run_at_loaded _ _ _ _ _ _ _ status_Start E2)).
  destruct o1; [..|by injection E as _ <-]; (destruct o2; injection E as _ <-; try done; by destruct Hf2).
Qed.

Lemma update_refused x ctx st pc l m o st' pc' : agrees st pc l m -> updateConsensus consensusMap conf x ctx st pc = (o, st', pc') -> (forall r, o <> Ret r) -> pc' = pc /\ agrees st' pc l m.
Proof using Type.
  intros Hag E Ho. destruct (read_history _ _ _ _ Hag) as (st1 & Hi1 & He1 & q & Eg & Eh). unfold updateConsensus in E. rewrite Eg in E.
  assert (agrees st1 pc l m) as Hag1 by (destruct Hag as [(?&?&?&?) ? ? ?]; split; [split_and!; [done..|by rewrite <- (proj1 He1)]|done..]).
  destruct (proposalArgsUnmarshal _ _ _) as [cfg| |]; [|by injection E as _ <- <-..]. destruct (check_pow cfg pc); [|by injection E as _ <- <-..].
  match type of E with (match ?m with _ => _ end) = _ => destruct m as [[c' item]| |]; [|by injection E as _ <- <-..] end.
  destruct (ctx_Put_law st1 contractBucket consensusKey (MarshalHistory c') Hi1 eq_refl) as (st2 & Ep & _ & _). rewrite Ep in E. injection E as <- _ _. exfalso. by eapply Ho.
Qed.

(** ** A node and its chain *)

Definition stored_at st : option blob := match kview st contractBucket consensusKey with Ret b => Some b | _ => None end.

(** The configurations in force at a state of the storage, in order. *)
Definition configurations st : list ConsensusConfig :=
  let c := match stored_at st with Some b => default ∅ (UnmarshalHistory b) | None => genesis_history conf end in
  (fun i => default no_config (c !! key_of i)) <$> seq 0 (size c).

Lemma configurations_stored st pc l m : agrees st pc l m -> configurations st = l.
Proof using Type.
  intros Hag. pose proof (stored_small _ _ _ _ Hag) as Hlen. destruct Hag as [(_ & _ & Hst & Hk) _ _ _].
  assert (match stored_at st with Some b => default ∅ (UnmarshalHistory b) | None => genesis_history conf end = history_of l) as E.
  { unfold stored_at. destruct Hk as [->|[[e ->] ->]]; [|done]. by rewrite history_roundtrip. }
  unfold configurations. rewrite E, history_size. apply list_eq. intros i. rewrite list_lookup_fmap. destruct (decide (i < length l)%nat) as [Hi|Hi].
  - rewrite lookup_seq_lt by done. cbn. rewrite history_lookup. by destruct (lookup_lt_is_Some_2 l i Hi) as [c ->].
  - rewrite lookup_seq_ge by lia. by rewrite lookup_ge_None_2 by lia.
Qed.

(** The contract storage at the tip, the storages at the blocks below, and the
    memory of the node. *)
Record node := mkNode { nd_tip : KState St; nd_below : list (KState St); nd_mem : stepConsensus C }.

(** What happens to a node.  An update runs, with any outcome, and the storage it
    leaves is kept with the block or dropped; a block that does not touch the
    configurations is put on the tip; the tip is rolled back; the node is started
    anew, at any state of the ledger; and the calls the node makes of its
    consensus. *)
Inductive plug_step : node -> node -> Prop :=
| ps_kept x ctx st past pc o st' pc' : updateConsensus consensusMap conf x ctx st pc = (o, st', pc') -> plug_step (mkNode st past pc) (mkNode st' (st :: past) pc')
| ps_dropped x ctx st past pc o st' pc' : updateConsensus consensusMap conf x ctx st pc = (o, st', pc') -> plug_step (mkNode st past pc) (mkNode st past pc')
| ps_block st st' past pc : kinv st' -> kview st' contractBucket consensusKey = kview st contractBucket consensusKey -> plug_step (mkNode st past pc) (mkNode st' (st :: past) pc)
| ps_undone st st0 past pc : plug_step (mkNode st (st0 :: past) pc) (mkNode st0 past pc)
| ps_restart x st past pc pc' : NewPluggableConsensus consensusMap x conf (stored_at st) = Ret pc' -> plug_step (mkNode st past pc) (mkNode st past pc')
| ps_switch h st past pc o pc' : SwitchConsensus h pc = (o, pc') -> plug_step (mkNode st past pc) (mkNode st past pc')
| ps_compete h st past pc o pc' : CompeteMaster h pc = (o, pc') -> plug_step (mkNode st past pc) (mkNode st past pc')
| ps_match b st past pc o pc' : CheckMinerMatch b pc = (o, pc') -> plug_step (mkNode st past pc) (mkNode st past pc')
| ps_before h t st past pc o pc' : ProcessBeforeMiner h t pc = (o, pc') -> plug_step (mkNode st past pc) (mkNode st past pc')
| ps_calculate b st past pc o pc' : CalculateBlock b pc = (o, pc') -> plug_step (mkNode st past pc) (mkNode st past pc')
| ps_confirm b st past pc o pc' : ProcessConfirmBlock b pc = (o, pc') -> plug_step (mkNode st past pc) (mkNode st past pc').

(** Down the chain the configurations get fewer. *)
Fixpoint grown (below : list (KState St)) l : Prop :=
  match below with
  | [] => True
  | st :: below => exists l0, stored_as st l0 /\ l0 `prefix_of` l /\ grown below l0
  end.

Definition sound (n : node) : Prop := exists l m, agrees (nd_tip n) (nd_mem n) l m /\ grown (nd_below n) l.

Lemma grown_mono below l l' : l `prefix_of` l' -> grown below l -> grown below l'.
Proof using Type. destruct below as [|st below]; [done|]. intros Hp (l0 & H1 & H2 & H3). exists l0. split_and!; [done|by etrans|done]. Qed.

Lemma prefix_sublist {A} (l k : list A) : l `prefix_of` k -> l `sublist_of` k.
Proof using Type. intros [t ->]. by apply sublist_inserts_r. Qed.

(** What a start from the storage builds. *)
Lemma restart_loaded x st pc l m pc' : agrees st pc l m -> NewPluggableConsensus consensusMap x conf (stored_at st) = Ret pc' -> agrees st pc' l l.
Proof using Cl.
  intros Hag E. pose proof (stored_small _ _ _ _ Hag) as Hlen. destruct Hag as [Hst0 Hld Hsub Hri]. pose proof Hst0 as (Hi & Hne & Hst & Hk). split; [done| |done|done].
  assert (exists items con, Forall2 item_of l items /\ last items = Some (Some con) /\ pc' = mkStep (take (length items - 1) items ++ [Some (snd (im_Start con))]) false) as (items & con & Hf & El & ->).
  { unfold NewPluggableConsensus, stored_at in E. apply obind_inv_ret in E as (items & Ei & E).
    assert (Forall2 item_of l items) as Hf.
    { assert (Forall2 item_of l (make_item consensusMap x (history_of l) <$> seq 0 (length l))) as Hmade.
      { apply Forall2_same_length_lookup. rewrite length_fmap, length_seq. split; [done|]. intros i cfg o Ec Eo con ->. rewrite list_lookup_fmap in Eo.
        rewrite lookup_seq_lt in Eo by (by eapply lookup_lt_Some). cbn in Eo. injection Eo as Eo. unfold make_item in Eo. rewrite history_lookup, Ec in Eo. cbn in Eo.
        exists x. destruct (makeConsensusItem consensusMap x cfg) as [made| |] eqn:Em; [|done..]. exists made. split; [done|congruence]. }
      destruct Hk as [Hk|[[e Hk] Eg]]; rewrite Hk in Ei.
      - rewrite history_roundtrip, history_size in Ei by done. by injection Ei as <-.
      - assert (length l = 1%nat) as Hl by (rewrite <- history_size, Eg; unfold genesis_history; apply map_size_singleton). destruct l as [|g [|]]; [done| |done].
        destruct (UnmarshalConfig conf) as [cfg|] eqn:Eu; [|done]. apply obind_inv_ret in Ei as (con & Em & Ei). injection Ei as <-.
        unfold genesis_history in Eg. rewrite Eu in Eg. pose proof (history_lookup [g] 0) as Hg. rewrite Eg, lookup_singleton_eq in Hg. cbn in Hg. injection Hg as <-.
        constructor; [|constructor]. intros c [= <-]. by exists x, con. }
    destruct (last items) as [[con|]|] eqn:El; [|done|].
    - injection E as <-. by exists items, con.
    - apply last_None in El as ->. apply Forall2_nil_inv_r in Hf. done. }
  destruct Hld as [_ _ Hh Hs]. split; cbn; [| |by eapply Forall_sublist_of|by eapply spaced_sublist].
  - destruct items as [|o items _] using rev_ind; [done|]. rewrite last_snoc in El. injection El as ->. rewrite length_app. cbn. replace (length items + 1 - 1)%nat with (length items) by lia. rewrite take_app_length.
    apply Forall2_app_inv_r in Hf as (k1 & k2 & H1 & Hf & ->). apply Forall2_app; [done|]. apply Forall2_cons_inv_r in Hf as (g & k3 & Hg & Hn & ->). apply Forall2_nil_inv_r in Hn as ->. constructor; [|constructor].
    intros c [= <-]. destruct (Hg con eq_refl) as (y & made & Em & Es). exists y, made. split; [done|]. by rewrite status_Start.
  - unfold tail. cbn. by rewrite last_snoc.
Qed.

Lemma step_sound n n' : plug_step n n' -> sound n -> sound n'.
Proof using begins Cl.
  intros Hs (l & m & Hag & Hgr).
  assert (forall st past pc pc', nd_tip n = st -> nd_below n = past -> nd_mem n = pc -> (loaded pc m -> loaded pc' m) -> sound (mkNode st past pc')) as Hcall.
  { intros st past pc pc' <- <- <- H. exists l, m. split; [|done]. destruct Hag as [H1 H2 H3 H4]. split; auto. }
  destruct Hs as [x ctx st past pc o st' pc' E|x ctx st past pc o st' pc' E|st st' past pc Hi Hk|st st0 past pc|x st past pc pc' E|h st past pc o pc' E|h st past pc o pc' E|b st past pc o pc' E|h t st past pc o pc' E|b st past pc o pc' E|b st past pc o pc' E]; cbn in *.
  - destruct o as [r|e|].
    + destruct (update_agrees _ _ _ _ _ _ _ _ _ Hag E) as (cfg & H1 & _). exists (l ++ [cfg]), (m ++ [cfg]). split; [done|]. exists l. split_and!; [apply Hag|by exists [cfg]|done].
    + destruct (update_refused _ _ _ _ _ _ _ _ _ Hag E ltac:(done)) as [-> Hc]. exists l, m. split; [done|]. exists l. split_and!; [apply Hag|done|done].
    + destruct (update_refused _ _ _ _ _ _ _ _ _ Hag E ltac:(done)) as [-> Hc]. exists l, m. split; [done|]. exists l. split_and!; [apply Hag|done|done].
  - destruct o as [r|e|].
    + destruct (update_agrees _ _ _ _ _ _ _ _ _ Hag E) as (cfg & _ & H2). by exists l, (m ++ [cfg]).
    + destruct (update_refused _ _ _ _ _ _ _ _ _ Hag E ltac:(done)) as [-> _]. by exists l, m.
    + destruct (update_refused _ _ _ _ _ _ _ _ _ Hag E ltac:(done)) as [-> _]. by exists l, m.
  - exists l, m. destruct Hag as [(H1 & H2 & H3 & H4) ? ? ?]. split; [split; [split_and!; [done..|cbn; rewrite Hk; exact H4]|done..]|]. exists l. by split_and!.
  - destruct Hgr as (l0 & H1 & H2 & H3). exists l0, m. split; [|done]. destruct Hag as [_ Hld Hsub Hri]. split; [done..| |by eapply rising_prefix]. etrans; [by apply prefix_sublist|done].
  - exists l, l. split; [by eapply restart_loaded|done].
  - by eapply Hcall; [..|by eapply switch_loaded].
  - by eapply Hcall; [..|eapply (on_current_loaded _ m pc _ _ _ _ (status_CompeteMaster _) E)].
  - by eapply Hcall; [..|eapply (on_current_loaded _ m pc _ _ _ _ (status_CheckMinerMatch _) E)].
  - by eapply Hcall; [..|eapply (on_current_loaded _ m pc _ _ _ _ (status_ProcessBeforeMiner _ _) E)].
  - by eapply Hcall; [..|eapply (on_current_loaded _ m pc _ _ _ _ (status_CalculateBlock _) E)].
  - by eapply Hcall; [..|eapply (on_current_loaded _ m pc _ _ _ _ (status_ProcessConfirmBlock _) E)].
Qed.

Lemma run_sound n n' : rtc plug_step n n' -> sound n -> sound n'.
Proof using begins Cl. induction 1 as [|n1 n2 n3 Hs _ IH]; [done|]. intros Hn. apply IH. by eapply step_sound. Qed.

(** ** Which instance answers *)

(** The configuration in force at a height. *)
Definition governs m (h : Z) (i : nat) : Prop :=
  (exists a, m !! i = Some a /\ StartHeight a <= h) /\ forall b, m !! S i = Some b -> h < StartHeight b.

(** The start of the instance before the last, or of the only one. *)
Definition reaches m : Z := match m !! (length m - 2)%nat with Some a => StartHeight a | None => 0 end.

Lemma current_item_spec pc m h i : loaded pc m -> getCurrentConsensusItem h pc = Ret i -> (governs m h i <-> reaches m <= h).
Proof using begins.
  intros Hld E. destruct (tail_of _ _ Hld) as (con & g & s & Et & Eg & Es & Eb). destruct Hld as [Hf _ _ Hsp]. pose proof (Forall2_length _ _ _ Hf) as Hlen.
  destruct m as [|g' m _] using rev_ind; [done|]. rewrite last_snoc in Eg. injection Eg as ->. unfold getCurrentConsensusItem in E. rewrite Et, Es, Eb in E. rewrite length_app in Hlen. cbn in Hlen.
  destruct (lookup_lt_is_Some_2 (m ++ [g]) (length (m ++ [g]) - 2)) as [p Ep]; [rewrite length_app; cbn; lia|]. assert (reaches (m ++ [g]) = StartHeight p) as -> by (unfold reaches; by rewrite Ep).
  assert (StartHeight p <= StartHeight g) as Hmax.
  { rewrite length_app in Ep. cbn in Ep. destruct m as [|a m]; [cbn in Ep; by simplify_eq|]. apply Z.le_trans with (StartHeight p + 20); [lia|].
    eapply (spaced_lt _ _ (length (a :: m)) p g Hsp); [|exact Ep|by apply list_lookup_middle]. cbn. lia. }
  destruct (Z.leb_spec (StartHeight g) h) as [Hge|Hlt].
  - injection E as <-. replace (length (cons pc) - 1)%nat with (length m) by lia. split; [lia|intros _]. split; [exists g; split; [by apply list_lookup_middle|done]|].
    intros b Eb'. apply lookup_lt_Some in Eb'. rewrite length_app in Eb'. cbn in Eb'. lia.
  - destruct (preTail pc) eqn:Ept; [|done]. injection E as <-. unfold preTail in Ept. destruct (Nat.ltb_spec (length (cons pc)) 2) as [Hl|Hl]; [done|].
    replace (length (m ++ [g]) - 2)%nat with (length (cons pc) - 2)%nat in Ep by (rewrite length_app; cbn; lia). split.
    + intros [(a & Ea & Ha) _]. congruence.
    + intros Hle. split; [by exists p|]. intros b Eb'. replace (S (length (cons pc) - 2)) with (length m) in Eb' by lia. rewrite list_lookup_middle in Eb' by done. by simplify_eq.
Qed.

(** ** A fresh node and a restarted one *)

Lemma fresh_agrees x st pc : NewPluggableConsensus consensusMap x conf None = Ret pc -> kinv st -> (exists e, kview st contractBucket consensusKey = Err e) -> exists g, agrees st pc [g] [g].
Proof using Cl.
  intros E Hi Hk. unfold NewPluggableConsensus in E. destruct (UnmarshalConfig conf) as [cfg|] eqn:Eu; [|done]. set (g := mkCfg (ConsensusName cfg) (Config cfg) 1 0) in *.
  destruct (makeConsensusItem consensusMap x g) as [con| |] eqn:Em; [|done..]. cbn in E. injection E as <-. exists g. split; [|split| |].
  - split_and!; [done|done| |right; split; [done|unfold genesis_history; rewrite Eu; reflexivity]]. constructor; [|constructor]. split; cbn; in64.
  - constructor; [|constructor]. intros c [= <-]. exists x, con. split; [done|apply status_Start].
  - unfold tail. cbn. by eexists.
  - constructor; [|constructor]. cbn. in64.
  - split; [constructor; [cbn; lia|constructor]|repeat constructor].
  - done.
  - intros i j a b' Hij Ea Eb. destruct j; [lia|]. done.
Qed.

Lemma fresh_sound x st pc : NewPluggableConsensus consensusMap x conf None = Ret pc -> kinv st -> (exists e, kview st contractBucket consensusKey = Err e) -> sound (mkNode st [] pc).
Proof using Cl. intros E Hi Hk. destruct (fresh_agrees x st pc E Hi Hk) as [g Hg]. by exists [g], [g]. Qed.

Definition makeable x (c : ConsensusConfig) : Prop := exists con, makeConsensusItem consensusMap x c = Ret con.

Lemma restart_succeeds x st pc l m : agrees st pc l m -> Forall (makeable x) l ->
  exists pc', NewPluggableConsensus consensusMap x conf (stored_at st) = Ret pc' /\ agrees st pc' l l /\ Forall is_Some (cons pc').
Proof using Cl.
  intros Hag Hmk. assert (exists pc', NewPluggableConsensus consensusMap x conf (stored_at st) = Ret pc' /\ Forall is_Some (cons pc')) as (pc' & E & Hc);
    [|exists pc'; split_and!; [done|by eapply restart_loaded|done]].
  assert (Forall is_Some (make_item consensusMap x (history_of l) <$> seq 0 (length l))) as Hitems.
  { apply Forall_lookup. intros i o Eo. rewrite list_lookup_fmap in Eo. destruct (decide (i < length l)%nat) as [Hi|Hi]; [|rewrite lookup_seq_ge in Eo by lia; done].
    rewrite lookup_seq_lt in Eo by done. cbn in Eo. injection Eo as <-. unfold make_item. rewrite history_lookup. destruct (lookup_lt_is_Some_2 l i Hi) as [c Ec]. rewrite Ec. cbn [default from_option id].
    rewrite Forall_lookup in Hmk. destruct (Hmk _ _ Ec) as [con ->]. by eexists. }
  pose proof (stored_small _ _ _ _ Hag) as Hlen. destruct Hag as [(_ & Hne & Hst & Hk) _ _ _]. unfold NewPluggableConsensus, stored_at. destruct Hk as [->|[[e ->] Eg]].
  - rewrite history_roundtrip, history_size, obind_ret by done. set (items := _ <$> _) in *. assert (items <> []) as Hn by (unfold items; destruct l; done).
    destruct items as [|o items _] using rev_ind; [done|]. rewrite last_snoc. apply Forall_app in Hitems as [H1 H2]. apply Forall_cons in H2 as [[con ->] _]. eexists. split; [reflexivity|]. cbn.
    rewrite length_app. cbn. replace (length items + 1 - 1)%nat with (length items) by lia. rewrite take_app_length. apply Forall_app. split; [done|]. constructor; [by eexists|constructor].
  - assert (length l = 1%nat) as Hl by (rewrite <- history_size, Eg; unfold genesis_history; apply map_size_singleton). destruct l as [|g [|]]; [done| |done]. apply Forall_cons in Hmk as [[con Em] _].
    unfold genesis_history in Eg. pose proof (history_lookup [g] 0) as Hg. rewrite Eg, lookup_singleton_eq in Hg. cbn in Hg. injection Hg as <-.
    destruct (UnmarshalConfig conf) as [cfg|]; cbn [default from_option id] in *; [|by vm_compute in Em]. rewrite Em, !obind_ret. eexists. split; [reflexivity|]. constructor; [by eexists|constructor].
Qed.

Definition same_status (a b : option C) : Prop := exists c d, a = Some c /\ b = Some d /\ im_Status c = im_Status d.

Lemma sublist_same {A} (l m : list A) : l `sublist_of` m -> length m = length l -> l = m.
Proof using Type.
  induction 1 as [|a l m Hs IH|a l m Hs IH]; cbn; intros Hl; [done|f_equal; apply IH; lia|]. apply sublist_length in Hs. lia.
Qed.

Lemma same_items l k k' : (forall n f x y cfg c d, consensusMap n = Some f -> f x cfg = Some c -> f y cfg = Some d -> im_Status c = im_Status d) ->
  Forall2 item_of l k -> Forall2 item_of l k' -> Forall is_Some k -> Forall is_Some k' -> Forall2 same_status k k'.
Proof using Type.
  intros Hsteady Hk Hk' Hs Hs'. apply Forall2_same_length_lookup. split; [by rewrite <- (Forall2_length _ _ _ Hk), <- (Forall2_length _ _ _ Hk')|]. intros i a b Ea Eb.
  destruct (Forall2_lookup_r _ _ _ _ _ Hk Ea) as (cfg & Ec & Ha). pose proof (Forall2_lookup_lr _ _ _ _ _ _ Hk' Ec Eb) as Hb. rewrite Forall_lookup in Hs, Hs'.
  destruct (Hs _ _ Ea) as [c ->], (Hs' _ _ Eb) as [d ->]. exists c, d. split_and!; [done..|]. destruct (Ha c eq_refl) as (x & mc & Ex & ->), (Hb d eq_refl) as (y & md & Ey & ->).
  revert Ex Ey. unfold makeConsensusItem, NewPluginConsensus. destruct (is_empty_string _); [done|]. destruct (_ <? _); [done|]. destruct (consensusMap _) as [f|] eqn:Ef; [|done]. rewrite !obind_ret.
  destruct (f x cfg) eqn:E1; [|done]. destruct (f y cfg) eqn:E2; [|done]. intros [= <-] [= <-]. by eapply Hsteady.
Qed.

(** Two nodes whose instances have the same status choose the same one. *)
Lemma same_choice pc pc' h : Forall2 same_status (cons pc) (cons pc') -> getCurrentConsensusItem h pc' = getCurrentConsensusItem h pc.
Proof using Type.
  intros Hf. unfold getCurrentConsensusItem, tail, preTail. pose proof (Forall2_length _ _ _ Hf) as Hl. rewrite <- Hl.
  assert (forall i, match cons pc !! i, cons pc' !! i with Some (Some c), Some (Some d) => im_Status c = im_Status d | None, None => True | _, _ => False end) as Hi.
  { intros i. destruct (cons pc !! i) as [a|] eqn:Ea.
    - destruct (Forall2_lookup_l _ _ _ _ _ Hf Ea) as (b' & -> & c & d & -> & -> & Es). done.
    - rewrite lookup_ge_None in Ea. rewrite (lookup_ge_None_2 (cons pc')) by lia. done. }
  rewrite !last_lookup, <- Hl. pose proof (Hi (pred (length (cons pc)))) as H1. pose proof (Hi (length (cons pc) - 2)%nat) as H2.
  set (n := length (cons pc)) in *. destruct (cons pc !! pred n) as [[c|]|], (cons pc' !! pred n) as [[d|]|]; try done. cbn. rewrite H1.
  destruct (im_Status d); [|done..]. destruct (GetConsensusBeginInfo _ <=? h); [done|]. destruct (n <=? 1)%nat; [done|]. by destruct (cons pc !! (n - 2)%nat) as [[?|]|], (cons pc' !! (n - 2)%nat) as [[?|]|].
Qed.
End Agree.

Section Life.
Context {C : Type} {Ci : ConsensusImpl C} {Cl : ConsensusImplLaws C} {St : Type} {Sb : StateSandbox St} {Sl : StateSandboxLaws St} {X : Type}.

(** C12: the upgrades of a chain.  Whatever happens to a node from its first start on (updates by proposals, accepted or refused, whose storage is kept with
    a block or dropped, blocks played and rolled back, restarts, switching, mining, checking and confirming blocks, in any order), the configurations in
    the contract storage are a subsequence, in the same order, of those the instances in its memory were made of: every instance has the status it was
    made with, every configuration, in memory too, begins at least twenty blocks above the one before, and the versions stored only rise.  The memory
    may hold more than the storage, after an update was dropped or rolled back, and never less.  That an instance begins at the height of its
    configuration is what the constructors promise. *)
Theorem upgrades_agree (consensusMap : string -> option (X -> ConsensusConfig -> option C)) conf x (st : KState St) pc n :
  (forall n f x cfg con, consensusMap n = Some f -> f x cfg = Some con -> exists st, im_Status con = Ret st /\ GetConsensusBeginInfo st = StartHeight cfg) ->
  NewPluggableConsensus consensusMap x conf None = Ret pc -> kinv st -> (exists e, kview st contractBucket consensusKey = Err e) ->
  rtc (plug_step consensusMap conf) (mkNode st [] pc) n -> exists m, agrees consensusMap conf (nd_tip n) (nd_mem n) (configurations conf (nd_tip n)) m.
Proof using Cl.
  intros Hb E Hi Hk Hrun. destruct (run_sound consensusMap conf Hb _ _ Hrun (fresh_sound consensusMap conf x st pc E Hi Hk)) as (l & m & Hag & _). exists m. by rewrite (configurations_stored _ _ _ _ _ _ Hag).
Qed.

(** Which rules apply to a block.  Of the list of instances only the last two are ever asked.  So the instance that answers for a height is the one in
    force at it exactly when the height is not below the start of the instance before the last; every older block is judged by the rules of that
    instance, whatever rules it was made under. *)
Theorem instance_for_height (consensusMap : string -> option (X -> ConsensusConfig -> option C)) conf x (st : KState St) pc n h i :
  (forall n f x cfg con, consensusMap n = Some f -> f x cfg = Some con -> exists st, im_Status con = Ret st /\ GetConsensusBeginInfo st = StartHeight cfg) ->
  NewPluggableConsensus consensusMap x conf None = Ret pc -> kinv st -> (exists e, kview st contractBucket consensusKey = Err e) ->
  rtc (plug_step consensusMap conf) (mkNode st [] pc) n -> getCurrentConsensusItem h (nd_mem n) = Ret i ->
  exists l m, agrees consensusMap conf (nd_tip n) (nd_mem n) l m /\ (governs m h i <-> reaches m <= h).
Proof using Cl.
  intros Hb E Hi Hk Hrun Eh. destruct (run_sound consensusMap conf Hb _ _ Hrun (fresh_sound consensusMap conf x st pc E Hi Hk)) as (l & m & Hag & _). exists l, m. split; [done|].
  apply (current_item_spec consensusMap Hb (nd_mem n)); [by destruct Hag|done].
Qed.

(** C21: a restart.  At any point of its life, started anew from the contract storage at a state of the ledger where every stored configuration can be made
    into an instance, a node starts, with one instance for each stored configuration and none else.  When its memory held as many instances as are
    stored, so that no update was dropped or rolled back since it started, and none of them nil, the new ones have the same status in the same order,
    and for every height the node chooses the one it chose before.  That the status of an instance is a function of its configuration is what the
    constructors promise. *)
Theorem restart_restores (consensusMap : string -> option (X -> ConsensusConfig -> option C)) conf x0 x (st : KState St) pc n :
  (forall n f x cfg con, consensusMap n = Some f -> f x cfg = Some con -> exists st, im_Status con = Ret st /\ GetConsensusBeginInfo st = StartHeight cfg) ->
  (forall n f x y cfg c d, consensusMap n = Some f -> f x cfg = Some c -> f y cfg = Some d -> im_Status c = im_Status d) ->
  NewPluggableConsensus consensusMap x0 conf None = Ret pc -> kinv st -> (exists e, kview st contractBucket consensusKey = Err e) ->
  rtc (plug_step consensusMap conf) (mkNode st [] pc) n ->
  Forall (makeable consensusMap x) (configurations conf (nd_tip n)) ->
  exists pc', NewPluggableConsensus consensusMap x conf (stored_at (nd_tip n)) = Ret pc' /\ Forall is_Some (cons pc') /\
    agrees consensusMap conf (nd_tip n) pc' (configurations conf (nd_tip n)) (configurations conf (nd_tip n)) /\
    (length (cons (nd_mem n)) = length (configurations conf (nd_tip n)) -> Forall is_Some (cons (nd_mem n)) ->
      Forall2 same_status (cons (nd_mem n)) (cons pc') /\ forall h, getCurrentConsensusItem h pc' = getCurrentConsensusItem h (nd_mem n)).
Proof using Cl.
  intros Hb Hsteady E Hi Hk Hrun. destruct (run_sound consensusMap conf Hb _ _ Hrun (fresh_sound consensusMap conf x0 st pc E Hi Hk)) as (l & m & Hag & _). rewrite (configurations_stored _ _ _ _ _ _ Hag). intros Hmk.
  destruct (restart_succeeds consensusMap conf x _ _ _ _ Hag Hmk) as (pc' & E' & Hag' & Hs). exists pc'. split_and!; [done..|]. intros Hlen Hs0.
  pose proof (ld_items _ _ _ (ag_loaded _ _ _ _ _ _ Hag)) as Hf. pose proof (ld_items _ _ _ (ag_loaded _ _ _ _ _ _ Hag')) as Hf'.
  assert (l = m) as <- by (apply sublist_same; [apply Hag|rewrite <- Hlen; by eapply Forall2_length]).
  pose proof (same_items consensusMap _ _ _ Hsteady Hf Hf' Hs0 Hs) as Hsame. split; [done|]. intros h. by apply same_choice.
Qed.

(** C36: an update cannot be run again.  The update changes the memory of the node while the contract runs.  When the block it ran for is not kept, or the
    same transaction is executed once more to verify it, so that the storage is as before, the same call fails on that node, at any state of the ledger,
    because the instance it put is taken for the last upgrade. *)
Theorem update_runs_once (consensusMap : string -> option (X -> ConsensusConfig -> option C)) conf x y ctx (st st' : KState St) pc pc' l m r :
  (forall n f x cfg con, consensusMap n = Some f -> f x cfg = Some con -> exists st, im_Status con = Ret st /\ GetConsensusBeginInfo st = StartHeight cfg) ->
  agrees consensusMap conf st pc l m -> updateConsensus consensusMap conf x ctx st pc = (Ret r, st', pc') ->
  exists e st2, updateConsensus consensusMap conf y ctx st pc' = (Err e, st2, pc') /\ kequiv st st2.
Proof using Cl.
  intros Hb Hag E. destruct (updateConsensus_ret _ _ _ _ _ _ _ _ _ _ _ Hag E) as (cfg & item & v & Ea & Eh & Em & _ & _ & -> & _). destruct (made_begins consensusMap Hb _ _ _ Em) as (s & Es & Eb).
  set (pc' := put item (setSwitch true pc)). assert (tail pc' = Some item) as Et by (unfold tail, pc'; cbn; by rewrite last_snoc).
  assert (exists cfg', proposalArgsUnmarshal consensusMap (Args ctx) pc' = Ret cfg' /\ StartHeight cfg' = StartHeight cfg) as (cfg' & Ea' & Eh').
  { revert Ea. unfold proposalArgsUnmarshal. destruct (Args ctx !! "height"); [|done]. destruct (ParseInt64 _); [|done]. destruct (Args ctx !! "args") as [[|a]|]; [by case_bool_decide| |done].
    destruct (obj_get "name" a) as [nm|]; [|done]. destruct (obj_get "config" a) as [cf|]; [|done]. destruct nm; try done. destruct (consensusMap _); [|done]. destruct cf; try done.
    intros [= <-]. eexists. split; [reflexivity|done]. }
  unfold updateConsensus. rewrite Ea'. unfold check_pow. rewrite Et, Es. case_bool_decide; [by do 2 eexists|]. case_bool_decide; [by do 2 eexists|].
  destruct (read_history _ _ _ _ _ _ Hag) as (st1 & Hi1 & He1 & q & Eg & Ehist). rewrite Eg.
  assert (checkConsensusHeight cfg' pc' = Err CheckHeightErr) as Ech.
  { unfold checkConsensusHeight. rewrite Et, Es, Eb, Eh'. unfold sub64. by rewrite Z.sub_diag. }
  destruct (match q with inl b => _ | inr _ => _ end) as [c| |] eqn:Eq in Ehist; [|done..].
  assert (match (Ret q : outcome (blob + string)) with Ret (inl b) => match UnmarshalHistory b with Some c => Ret c | None => Err BuildConsensusError end | Ret (inr _) => Ret (genesis_history conf) | _ => Panic end = Ret c) as -> by exact Eq.
  rewrite obind_ret, Ech. by do 2 eexists.
Qed.
End Life.
