(* ===== verification/Single.v ===== *)
(** * The single consensus

    [bcs/consensus/single]: one producer for ever, named in the configuration. *)

From Stdlib Require Import ZArith Lia Ascii.
From stdpp Require Import base gmap strings list numbers sorting.
From S2P Require Import Prelude GoValues Sandbox KContext LedgerHash QCTree Smr Consensus Pluggable.

Set Default Proof Using "Type".

Record SingleConfig := mkSingleConfig { Miner : string; Period : Z; cfg_Version : Z }.
Record SingleConsensus := mkSingle { own_address : string; startHeight : Z; newHeight : Z; index : Z; config : SingleConfig }.

Definition MinerAddressErr : string := "Block's proposer must be equal to its address.".

Definition dec_member (j : json) : option string := match j with JNull => Some "" | _ => dec_str j end.

(** An empty number is zero. *)
Definition number_or_zero (s : string) (e : string) : outcome Z :=
  if is_empty_string s then Ret 0%Z else match ParseInt64 s with Some n => Ret n | None => Err e end.

(** All the members of the configuration are strings. *)
Definition buildConfigs (input : blob) : outcome SingleConfig :=
  match (match input with Doc l => map_of_obj dec_member l ∅ | Raw t => if bool_decide (t = "null") then Some ∅ else None end) with
  | None => Err "unmarshal single config error"
  | Some v =>
      let get k := default "" ((v : gmap string string) !! k) in
      version ← number_or_zero (get "version") "parse version error";
      period ← number_or_zero (get "period") "parse period error";
      Ret (mkSingleConfig (get "miner") period version)
  end.

Definition NewSingleConsensus (address : string) (cCfg : ConsensusConfig) : option SingleConsensus :=
  if negb (bool_decide (ConsensusName cCfg = "single")) then None
  else
    match buildConfigs (Config cCfg) with
    | Ret config => Some (mkSingle address (StartHeight cCfg) (sub64 (StartHeight cCfg) 1) (Index cCfg) config)
    | _ => None
    end.

Section Single.
Context {PK : Type}.
Variable GetEcdsaPublicKeyFromJsonStr : string -> outcome PK.
Variable VerifyAddressUsingPublicKey : string -> PK -> bool.
Variable GetAddressFromPublicKey : PK -> outcome string.
Variable VerifyECDSA : PK -> string -> string -> outcome bool.
Implicit Types s : SingleConsensus.

Definition CompeteMaster s : bool * bool := if bool_decide (own_address s = Miner (config s)) then (true, false) else (false, false).

(** The block is handed back as the check leaves it.  Several refusals come with a
    nil error. *)
Definition CheckMinerMatch s (block : InternalBlock) : outcome bool * InternalBlock :=
  let (bid, block) := MakeBlockId block in
  if negb (bool_decide (bid = Blockid block)) then (Ret false, block)
  else if negb (bool_decide (Proposer block = Miner (config s))) then (Ret false, block)
  else
    match GetEcdsaPublicKeyFromJsonStr (Pubkey block) with
    | Err e => (Err e, block)
    | Panic => (Panic, block)
    | Ret k =>
        if negb (VerifyAddressUsingPublicKey (Proposer block) k) then (Ret false, block)
        else
          match GetAddressFromPublicKey k with
          | Err e => (Err e, block)
          | Panic => (Panic, block)
          | Ret addr =>
              if negb (bool_decide (addr = Proposer block)) then (Err MinerAddressErr, block)
              else (VerifyECDSA k (BSign block) (Blockid block), block)
          end
    end.

Definition GetStatus s : ConsensusStatus := mkStatus (cfg_Version (config s)) (startHeight s) (index s) "single".

#[export] Instance Single_ConsensusImpl : ConsensusImpl SingleConsensus := {|
  im_Status := fun s => Ret (GetStatus s);
  im_CompeteMaster := fun _ s => (Ret (CompeteMaster s), s);
  im_CheckMinerMatch := fun block s => (CheckMinerMatch s block, s);
  im_ProcessBeforeMiner := fun _ _ s => (Ret (None, None), s);
  im_CalculateBlock := fun block s => ((Ret tt, block), s);
  im_ProcessConfirmBlock := fun _ s => (Ret tt, s);
  im_Start := fun s => (Ret tt, s);
  im_Stop := fun s => (Ret tt, s)
|}.

#[export] Instance Single_ConsensusImplLaws : ConsensusImplLaws SingleConsensus.
Proof using Type. split; done. Qed.

(** The producer is the configured one and has signed the identifier that its
    header hashes to. *)
Record signed_by_miner s (block : InternalBlock) : Prop := {
  sm_miner : Proposer block = Miner (config s);
  sm_key : exists k, GetEcdsaPublicKeyFromJsonStr (Pubkey block) = Ret k /\ VerifyAddressUsingPublicKey (Proposer block) k = true /\
    GetAddressFromPublicKey k = Ret (Proposer block) /\ VerifyECDSA k (BSign block) (MakeBlockID block) = Ret true
}.

Lemma CheckMinerMatch_spec s block : fst (CheckMinerMatch s block) = Ret true <-> signed_by_miner s block.
Proof using Type.
  unfold CheckMinerMatch, MakeBlockId. cbn [Blockid set_id]. rewrite bool_decide_eq_true_2 by done. cbn [negb Proposer set_id Pubkey BSign]. split.
  - intros E. case_bool_decide as Hm; cbn [negb] in E; [|done]. destruct (GetEcdsaPublicKeyFromJsonStr _) as [k| |] eqn:Ek; [|done..].
    destruct (VerifyAddressUsingPublicKey _ k) eqn:Ev; [|done]. cbn [negb] in E. destruct (GetAddressFromPublicKey k) as [a| |] eqn:Ea; [|done..]. case_bool_decide; [|done]. subst a. split; [done|]. by exists k.
  - intros [-> (k & -> & -> & -> & Ev)]. by rewrite !bool_decide_eq_true_2 by done.
Qed.
End Single.

(** A constructor begins where its configuration says. *)
Lemma single_begins {PK} (json : string -> outcome PK) addr address_of verify who cfg con : NewSingleConsensus who cfg = Some con ->
  exists st, im_Status (ConsensusImpl := Single_ConsensusImpl json addr address_of verify) con = Ret st /\ GetConsensusBeginInfo st = StartHeight cfg.
Proof.
  unfold NewSingleConsensus. destruct (negb _); [done|]. destruct (buildConfigs _); [|done..]. intros [= <-]. by eexists.
Qed.

(** What the single consensus accepts.  A block is accepted exactly when the configured producer made it and signed the identifier its header hashes
    to.  The identifier the block carries plays no part: computing the right one writes it into the block before the two are compared, so a block with any
    other identifier is accepted, and leaves the check with the right one. *)
Theorem single_acceptance {PK} (json : string -> outcome PK) addr address_of verify s block id :
  (fst (CheckMinerMatch json addr address_of verify s block) = Ret true <-> signed_by_miner json addr address_of verify s block) /\
  CheckMinerMatch json addr address_of verify s (set_id block id) = CheckMinerMatch json addr address_of verify s block /\
  Blockid (snd (CheckMinerMatch json addr address_of verify s block)) = MakeBlockID block.
Proof.
  split; [apply CheckMinerMatch_spec|]. split; [reflexivity|]. unfold CheckMinerMatch, MakeBlockId. rewrite bool_decide_eq_true_2 by done. cbn [negb].
  destruct (negb _); [done|]. destruct (json _); [|done..]. destruct (negb _); [done|]. destruct (address_of _); [|done..]. by destruct (negb _).
Qed.
