(* ===== verification/Pow.v ===== *)
(** * Proof of work

    [bcs/consensus/pow]: [common.go] (configuration, compact targets) and [pow.go]
    (difficulty, checking and mining a block).  The goroutine that runs the mining
    task is the function [supervise] of the messages it receives; what the plugin
    sends on its channels is kept in the order sent. *)

From Stdlib Require Import ZArith Lia Ascii.
From stdpp Require Import base gmap strings list numbers sorting.
From S2P Require Import Prelude GoValues Sandbox KContext LedgerHash QCTree Smr Consensus Pluggable Utxo.

Set Default Proof Using "Type".

(** [uint32(z)] *)
Definition u32 (z : Z) : Z := (z mod 2 ^ 32)%Z.
(** [z.BitLen()] *)
Definition BitLen (z : Z) : Z := if (z =? 0)%Z then 0 else (Z.log2 (Z.abs z) + 1)%Z.
(** [z.Div(a, b)] of [math/big]: Euclidean, by zero it panics. *)
Definition big_Div (a b : Z) : outcome Z := if (b =? 0)%Z then Panic else Ret (Z.sgn b * (a / Z.abs b))%Z.

(** ** Configuration *)

Record PoWConfig := mkPoWConfig { DefaultTarget : Z; AdjustHeightGap : Z; ExpectedPeriodMilSec : Z; MaxTarget : Z }.

(** A member that is not a string makes the assertion panic. *)
Definition string_member (l : list (string * json)) (k : string) : outcome string := match obj_get k l with Some (JStr s) => Ret s | _ => Panic end.
Definition set_error (k : string) : string := "marshal consensus config failed key " +:+ k +:+ " set error".
Definition int32_member (l : list (string * json)) (k : string) : outcome Z :=
  s ← string_member l k;
  let (v, ok) := SetString s in if ok && bool_decide (is_int32 v) then Ret v else Err (set_error k).
(** A number that does not fit is cut off. *)
Definition uint32_member (l : list (string * json)) (k : string) : outcome Z :=
  s ← string_member l k;
  match ParseInt64 s with Some v => Ret (u32 v) | None => Err (set_error k) end.

Definition unmarshalPowConfig (input : blob) : outcome PoWConfig :=
  match input with
  | Raw t => if bool_decide (t = "null") then Panic else Err "invalid character"
  | Doc l =>
      gap ← int32_member l "adjustHeightGap";
      period ← int32_member l "expectedPeriod";
      target ← uint32_member l "defaultTarget";
      max ← uint32_member l "maxTarget";
      Ret (mkPoWConfig target gap period max)
  end.

(** ** Compact targets *)

Definition mask64 : Z := 18446744073709551615.

(** [None] when the number has no compact form. *)
Definition GetCompact (number : Z) : option Z :=
  let nSize := Z.quot (BitLen number + 7) 8 in
  let nCompact :=
    if (nSize <=? 3)%Z then u32 (Z.shiftl (Z.land mask64 number) (8 * (3 - nSize)) mod 2 ^ 64)
    else u32 (Z.land mask64 (Z.shiftr number (8 * (nSize - 3)))) in
  let '(nCompact, nSize) := if (0 <? Z.land nCompact 8388608)%Z then (Z.shiftr nCompact 8, nSize + 1)%Z else (nCompact, nSize) in
  if negb (Z.land nCompact 4286578688 =? 0)%Z || (256 <? nSize)%Z then None
  else Some (Z.lor nCompact (u32 (Z.shiftl (u32 nSize) 24))).

(** The number, and whether it is negative or too large.  The word and the result
    are one big integer: the tests of the size see the word already shifted. *)
Definition SetCompact (nCompact : Z) : Z * bool * bool :=
  let nSize := Z.shiftr nCompact 24 in
  let nWord := Z.land nCompact 8388607 in
  let u := if (nSize <=? 3)%Z then Z.shiftr nWord (8 * (3 - nSize)) else Z.shiftl nWord (8 * (nSize - 3)) in
  let pfNegative := negb (u =? 0)%Z && negb (Z.land nCompact 8388608 =? 0)%Z in
  let pfOverflow := negb (u =? 0)%Z && ((34 <? nSize) || ((255 <? u) && (33 <? nSize)) || ((65535 <? u) && (32 <? nSize)))%Z in
  (u, pfNegative, pfOverflow).

(** ** The plugin *)

Inductive PoWSignal := sig_stop | sig_newblock (height : Z).

Record PoWConsensus := mkPoW {
  bitcoinFlag : bool; targetBits : Z; maxDifficulty : Z; startHeight : Z; index : Z; newHeight : Z; pow_config : PoWConfig; sent : list PoWSignal
}.
Definition set_target (p : PoWConsensus) (bits : Z) : PoWConsensus :=
  mkPoW (bitcoinFlag p) bits (maxDifficulty p) (startHeight p) (index p) (newHeight p) (pow_config p) (sent p).
Definition set_height (p : PoWConsensus) (h : Z) : PoWConsensus :=
  mkPoW (bitcoinFlag p) (targetBits p) (maxDifficulty p) (startHeight p) (index p) h (pow_config p) (sent p).
Definition send (p : PoWConsensus) (m : PoWSignal) : PoWConsensus :=
  mkPoW (bitcoinFlag p) (targetBits p) (maxDifficulty p) (startHeight p) (index p) (newHeight p) (pow_config p) (sent p ++ [m]).

Definition InternalErr : string := "Consensus module found internal error".
Definition OODMineErr : string := "mining height is out of date".
Definition TryTooMuchMineErr : string := "mining max tries threshold".
Definition BlockSignErr : string := "invalid block sign".

(** The storage is read into an unsigned number: a negative one is an error. *)
Definition ParseConsensusStorage (block : InternalBlock) : outcome Z :=
  let bits := cs_TargetBits (GetConsensusStorage block) in
  if (bits <? 0)%Z then Err "json: cannot unmarshal number into Go struct field PoWStorage.targetBits of type uint32" else Ret bits.

Section PoW.
Variable ledger : LedgerRely.
Implicit Types p : PoWConsensus.

(** [None] when a block is missing. *)
Fixpoint far_block (n : nat) (block : InternalBlock) : outcome (option InternalBlock) :=
  match n with
  | O => Ret (Some block)
  | S n => match QueryBlockHeader ledger (PreHash block) with Ret b => far_block n b | Err _ => Ret None | Panic => Panic end
  end.

(** Spans of time, 32 bits wide; the actual one is in seconds. *)
Definition expectedTimeSpan p : Z := wrap32 (ExpectedPeriodMilSec (pow_config p) * wrap32 (AdjustHeightGap (pow_config p) - 1)).
Definition actualTimeSpan p (preBlock farBlock : InternalBlock) : Z :=
  let expected := expectedTimeSpan p in
  let actual := wrap32 (Z.quot (sub64 (Timestamp preBlock) (Timestamp farBlock)) 1000000000) in
  let actual := if (actual <? Z.quot expected 4)%Z then Z.quot expected 4 else actual in
  if (wrap32 (expected * 4) <? actual)%Z then wrap32 (expected * 4) else actual.

Definition adjusted p (prevTargetBits actual : Z) : outcome Z :=
  let cfg := pow_config p in
  let expected := expectedTimeSpan p in
  if bitcoinFlag p then
    difficulty ← big_Div (fst (fst (SetCompact prevTargetBits)) * actual) expected;
    if (difficulty <? maxDifficulty p)%Z then Ret (MaxTarget cfg)
    else Ret (default prevTargetBits (GetCompact difficulty))
  else
    difficulty ← big_Div (Z.shiftl 1 prevTargetBits * expected) actual;
    let newTargetBits := u32 (BitLen difficulty - 1) in
    Ret (if (MaxTarget cfg <? newTargetBits)%Z then MaxTarget cfg else newTargetBits).

(** The target for a height, from the block below it, the block below that and,
    when it is to be adjusted, the block so many blocks further down. *)
Definition refreshDifficulty p (tipHash : string) (nextHeight : Z) : outcome Z :=
  let cfg := pow_config p in
  if (nextHeight <=? AdjustHeightGap cfg)%Z then Ret (DefaultTarget cfg)
  else
    match QueryBlockHeader ledger tipHash with
    | Panic => Panic
    | Err _ => Ret (DefaultTarget cfg)
    | Ret block =>
        match QueryBlockHeader ledger (PreHash block) with
        | Panic => Panic
        | Err _ => Ret (DefaultTarget cfg)
        | Ret preBlock =>
            prevTargetBits ← ParseConsensusStorage preBlock;
            r ← rem64 nextHeight (AdjustHeightGap cfg);
            if negb (r =? 0)%Z then Ret prevTargetBits
            else
              far ← far_block (Z.to_nat (wrap32 (AdjustHeightGap cfg - 1))) preBlock;
              match far with
              | None => Ret (DefaultTarget cfg)
              | Some farBlock => adjusted p prevTargetBits (actualTimeSpan p preBlock farBlock)
              end
        end
    end.

(** A hash equal to the target passes.  The shift is by an unsigned number of 32
    bits. *)
Definition IsProofed p (blockID : string) (bits : Z) : bool :=
  let hash := SetBytes blockID in
  if bitcoinFlag p then
    let '(d, fNegative, fOverflow) := SetCompact bits in
    if fNegative || fOverflow || (d <? maxDifficulty p)%Z then false else negb (d <? hash)%Z
  else negb (Z.shiftl 1 (u32 (256 - bits)) <? hash)%Z.

(** [None] when no instance is made. *)
Definition NewPoWConsensus (cCfg : ConsensusConfig) : outcome (option PoWConsensus) :=
  if negb (bool_decide (ConsensusName cCfg = "pow")) then Ret None
  else
    match unmarshalPowConfig (Config cCfg) with
    | Panic => Panic
    | Err _ => Ret None
    | Ret config =>
        let target := DefaultTarget config in
        let flag := (256 <? target)%Z in
        let p := mkPoW flag target (MaxTarget config) (StartHeight cCfg) (Index cCfg) 0 config [] in
        let tipBlock := GetTipBlock ledger in
        match (if (StartHeight cCfg <? Height tipBlock)%Z then refreshDifficulty p (Blockid tipBlock) (add64 (Height tipBlock) 1) else Ret target) with
        | Panic => Panic
        | Err _ => Ret None
        | Ret target =>
            if negb flag then Ret (Some p)
            else
              let '(md, n1, o1) := SetCompact (MaxTarget config) in
              let '(_, n2, o2) := SetCompact target in
              if n1 || o1 || n2 || o2 then Ret None
              else Ret (Some (mkPoW flag (DefaultTarget config) md (StartHeight cCfg) (Index cCfg) 0 config []))
        end
    end.

Definition CompeteMaster : bool * bool := (true, true).

Section Check.
Context {SK PK : Type}.
Variable GetEcdsaPublicKeyFromJsonStr : string -> outcome PK.
Variable VerifyAddressUsingPublicKey : string -> PK -> bool.
Variable VerifyECDSA : PK -> string -> string -> outcome bool.

(** The verdict, before the node takes notice of the height; refusals come with a
    nil error. *)
Definition check_block p (block : InternalBlock) : outcome bool * InternalBlock :=
  match ParseConsensusStorage block with
  | Err e => (Err e, block)
  | Panic => (Panic, block)
  | Ret bits =>
      if negb (IsProofed p (Blockid block) bits) then (Ret false, block)
      else
        let pid := Blockid block in
        let (id, block) := MakeBlockId block in
        if negb (bool_decide (id = pid)) then (Ret false, block)
        else
          match refreshDifficulty p (PreHash block) (Height block) with
          | Err e => (Err e, block)
          | Panic => (Panic, block)
          | Ret target =>
              if negb (target =? bits)%Z then (Ret false, block)
              else
                match QueryBlockHeader ledger (PreHash block) with
                | Err e => (Err e, block)
                | Panic => (Panic, block)
                | Ret preBlock =>
                    if (Timestamp block <? Timestamp preBlock)%Z then (Ret false, block)
                    else if negb (IsProofed p (Blockid block) target) then (Ret false, block)
                    else
                      match GetEcdsaPublicKeyFromJsonStr (Pubkey block) with
                      | Err e => (Err e, block)
                      | Panic => (Panic, block)
                      | Ret k =>
                          if negb (VerifyAddressUsingPublicKey (Proposer block) k) then (Ret false, block)
                          else (VerifyECDSA k (BSign block) (Blockid block), block)
                      end
                end
          end
  end.

Definition CheckMinerMatch (block : InternalBlock) p : (outcome bool * InternalBlock) * PoWConsensus :=
  let '(valid, block) := check_block p block in
  match valid with
  | Ret true => ((valid, block), if (Height (QueryTipBlockHeader ledger) <? Height block)%Z then send (set_height p (Height block)) (sig_newblock (Height block)) else p)
  | _ => ((valid, block), p)
  end.

(** When the target cannot be computed the mining is stopped and the block is
    prepared with a target of zero. *)
Definition ProcessBeforeMiner : M PoWConsensus (bytes * option ConsensusStorage) := fun p =>
  let tipHeight := Height (QueryTipBlockHeader ledger) in
  match QueryBlockHeaderByHeight ledger tipHeight with
  | Panic => (Panic, p)
  | Err _ => (Err InternalErr, p)
  | Ret preBlock =>
      match refreshDifficulty p (Blockid preBlock) (add64 tipHeight 1) with
      | Panic => (Panic, p)
      | Err _ => (Ret (None, Some (mkStorage None 0 0 0)), set_target (send p sig_stop) 0)
      | Ret bits => (Ret (None, Some (mkStorage None 0 0 bits)), set_target p bits)
      end
  end.

Definition ProcessConfirmBlock (block : InternalBlock) : M PoWConsensus unit := fun p =>
  (Ret tt, if (Height (QueryTipBlockHeader ledger) <? Height block)%Z then set_height p (Height block) else p).

Definition Stop : M PoWConsensus unit := fun p => (Ret tt, send p sig_stop).

(** ** Mining *)

Variable SignECDSA : SK -> string -> outcome string.
Variable key : SK.

Definition MAX_TRIES : N := 4294967296.
Definition first_nonce : Z := int32_min.

(** [closed] tells, for the number of tries left, whether the task has been closed. *)
Fixpoint mining (closed : nat -> bool) p (tries : nat) (nonce : Z) (block : InternalBlock) : outcome unit * InternalBlock :=
  if closed tries then (Err OODMineErr, block)
  else
    match tries with
    | O => (Err TryTooMuchMineErr, block)
    | S tries =>
        let '(bid, block) := MakeBlockId (SetItem (item_nonce nonce) block) in
        if IsProofed p bid (targetBits p) then
          let block := SetItem (item_blockid bid) block in
          match SignECDSA key bid with
          | Ret s => (Ret tt, SetItem (item_sign s) block)
          | Err _ => (Err BlockSignErr, block)
          | Panic => (Panic, block)
          end
        else mining closed p tries (wrap32 (nonce + 1)) block
    end.

Definition CalculateBlock (closed : nat -> bool) (block : InternalBlock) p : (outcome unit * InternalBlock) * PoWConsensus :=
  (mining closed p (N.to_nat MAX_TRIES) first_nonce block, p).

Definition GetStatus p : ConsensusStatus := mkStatus 0 (startHeight p) (index p) "pow".

#[export] Instance PoW_ConsensusImpl (closed : nat -> bool) : ConsensusImpl PoWConsensus := {|
  im_Status := fun p => Ret (GetStatus p);
  im_CompeteMaster := fun _ p => (Ret CompeteMaster, p);
  im_CheckMinerMatch := CheckMinerMatch;
  im_ProcessBeforeMiner := fun _ _ => ProcessBeforeMiner;
  im_CalculateBlock := CalculateBlock closed;
  im_ProcessConfirmBlock := ProcessConfirmBlock;
  im_Start := fun p => (Ret tt, p);
  im_Stop := Stop
|}.

#[export] Instance PoW_ConsensusImplLaws closed : ConsensusImplLaws PoWConsensus (H := PoW_ConsensusImpl closed).
Proof using Type.
  split; cbn; try done.
  - intros b p. unfold CheckMinerMatch. destruct (check_block p b) as [[[]| |] b']; [|done..]. cbn. by destruct (_ <? _)%Z.
  - intros _ _ p. unfold ProcessBeforeMiner. destruct (QueryBlockHeaderByHeight _ _) as [pre| |]; [|done..]. by destruct (refreshDifficulty _ _ _).
  - intros b p. by destruct (_ <? _)%Z.
Qed.
End Check.
End PoW.

(** ** The goroutine of [Start] *)

(** Tasks are numbered; a task mines at a height. *)
Inductive MineEvent := ev_task (id : nat) (height : Z) | ev_newblock (height : Z) | ev_stop.
Record Supervisor := mkSup { current : option (nat * Z); closed_tasks : list nat; running : bool }.

Definition close_current (s : Supervisor) : list nat := closed_tasks s ++ match current s with Some (id, _) => [id] | None => [] end.

Definition supervise (s : Supervisor) (e : MineEvent) : Supervisor :=
  if negb (running s) then s
  else
    match e with
    | ev_task id height => mkSup (Some (id, height)) (close_current s) true
    | ev_newblock height =>
        match current s with
        | Some (_, h) => if (h <? height)%Z then mkSup None (close_current s) true else s
        | None => s
        end
    | ev_stop => mkSup None (close_current s) false
    end.
