(* ===== verification/PowSpec.v ===== *)
(** * Proof of work: targets, difficulty and mining

    Compact targets lose little; how the difficulty of the file Pow develops along a
    chain; and that a mined block is accepted. *)

From Stdlib Require Import ZArith Lia Ascii.
From stdpp Require Import base gmap strings list numbers sorting.
From S2P Require Import Prelude GoValues Sandbox KContext LedgerHash QCTree Smr Consensus Pluggable Utxo Pow.

Set Default Proof Using "Type".
Local Open Scope Z_scope.

(** ** Compact targets *)

Lemma BitLen_pos n : 0 < n -> 2 ^ (BitLen n - 1) <= n < 2 ^ BitLen n.
Proof.
  intros Hn. unfold BitLen. rewrite (proj2 (Z.eqb_neq n 0)), Z.abs_eq by lia. replace (Z.log2 n + 1 - 1) with (Z.log2 n) by lia. pose proof (Z.log2_spec n Hn) as H. by rewrite <- Z.add_1_r in H.
Qed.

Lemma land_mask64 n : 0 <= n < 2 ^ 64 -> Z.land mask64 n = n.
Proof. intros Hn. rewrite Z.land_comm. change mask64 with (Z.ones 64). rewrite Z.land_ones by lia. by apply Z.mod_small. Qed.
Lemma u32_id n : 0 <= n < 2 ^ 32 -> u32 n = n.
Proof. apply Z.mod_small. Qed.
Lemma land_pow2 m k : 0 <= k -> Z.land m (2 ^ k) = if Z.testbit m k then 2 ^ k else 0.
Proof.
  intros Hk. apply Z.bits_inj_iff'. intros i Hi. rewrite Z.land_spec, Z.pow2_bits_eqb by lia. destruct (Z.eqb_spec k i) as [<-|Hne].
  - rewrite andb_true_r. destruct (Z.testbit m k); [by rewrite Z.pow2_bits_true|by rewrite Z.bits_0].
  - rewrite andb_false_r. destruct (Z.testbit m k); [by rewrite Z.pow2_bits_false|by rewrite Z.bits_0].
Qed.
Lemma top_bit m k : 0 <= k -> 0 <= m < 2 ^ (k + 1) -> Z.testbit m k = (2 ^ k <=? m).
Proof.
  intros Hk Hm. rewrite Z.pow_add_r in Hm by lia. pose proof (Z.pow_pos_nonneg 2 k ltac:(lia) Hk). assert (0 <= m / 2 ^ k < 2) as Hq by (split; [apply Z.div_pos; lia|apply Z.div_lt_upper_bound; lia]).
  apply eq_true_iff_eq. rewrite Z.testbit_true, Z.leb_le, Z.mod_small by lia. split; intros E.
  - pose proof (Z.mul_div_le m (2 ^ k) ltac:(lia)). lia.
  - assert (1 <= m / 2 ^ k) by (apply Z.div_le_lower_bound; lia). lia.
Qed.
Lemma sign_bit m : 0 <= m < 2 ^ 24 -> (0 <? Z.land m 8388608) = (2 ^ 23 <=? m).
Proof. intros Hm. change 8388608 with (2 ^ 23). rewrite land_pow2, top_bit by lia. by destruct (2 ^ 23 <=? m). Qed.

(** The three leading bytes of a number of [s] bytes. *)
Definition mantissa (n s : Z) : Z := if s <=? 3 then n * 2 ^ (8 * (3 - s)) else n / 2 ^ (8 * (s - 3)).

Lemma bytes_of n : 0 < n < 2 ^ 256 -> let s := Z.quot (BitLen n + 7) 8 in 1 <= s <= 32 /\ 2 ^ (8 * (s - 1)) <= n < 2 ^ (8 * s).
Proof.
  intros [Hn Hm] s. destruct (BitLen_pos n Hn) as [H1 H2]. assert (1 <= BitLen n <= 256) as Hb.
  { unfold BitLen. rewrite (proj2 (Z.eqb_neq n 0)), Z.abs_eq by lia. pose proof (Z.log2_nonneg n). assert (Z.log2 n < 256) by (apply Z.log2_lt_pow2; lia). lia. }
  assert (8 * (s - 1) <= BitLen n - 1 /\ BitLen n <= 8 * s) as [Hs1 Hs2].
  { unfold s. rewrite Z.quot_div_nonneg by lia. pose proof (Z.div_mod (BitLen n + 7) 8 ltac:(lia)). pose proof (Z.mod_pos_bound (BitLen n + 7) 8 ltac:(lia)). lia. }
  split; [lia|]. split.
  - etransitivity; [|exact H1]. apply Z.pow_le_mono_r; lia.
  - eapply Z.lt_le_trans; [exact H2|]. apply Z.pow_le_mono_r; lia.
Qed.

Lemma mantissa_range n s : 1 <= s -> 2 ^ (8 * (s - 1)) <= n < 2 ^ (8 * s) -> 2 ^ 16 <= mantissa n s < 2 ^ 24.
Proof.
  intros Hs [H1 H2]. unfold mantissa. destruct (Z.leb_spec s 3).
  - pose proof (Z.pow_pos_nonneg 2 (8 * (3 - s)) ltac:(lia) ltac:(lia)) as Hp. split.
    + replace 16 with (8 * (s - 1) + 8 * (3 - s)) by lia. rewrite Z.pow_add_r by lia. nia.
    + replace 24 with (8 * s + 8 * (3 - s)) by lia. rewrite Z.pow_add_r by lia. nia.
  - pose proof (Z.pow_pos_nonneg 2 (8 * (s - 3)) ltac:(lia) ltac:(lia)) as Hp. split.
    + apply Z.div_le_lower_bound; [lia|]. rewrite <- Z.pow_add_r by lia. replace (8 * (s - 3) + 16) with (8 * (s - 1)) by lia. lia.
    + apply Z.div_lt_upper_bound; [lia|]. rewrite <- Z.pow_add_r by lia. replace (8 * (s - 3) + 24) with (8 * s) by lia. lia.
Qed.

Lemma nCompact_mantissa n s : 1 <= s -> 2 ^ (8 * (s - 1)) <= n < 2 ^ (8 * s) ->
  (if s <=? 3 then u32 (Z.shiftl (Z.land mask64 n) (8 * (3 - s)) mod 2 ^ 64) else u32 (Z.land mask64 (Z.shiftr n (8 * (s - 3))))) = mantissa n s.
Proof.
  intros Hs Hn. pose proof (mantissa_range n s Hs Hn) as Hm. pose proof (Z.pow_pos_nonneg 2 (8 * (s - 1)) ltac:(lia) ltac:(lia)). unfold mantissa in *. destruct (Z.leb_spec s 3).
  - assert (2 ^ (8 * s) <= 2 ^ 24) by (apply Z.pow_le_mono_r; lia). rewrite land_mask64, Z.shiftl_mul_pow2 by lia. rewrite (Z.mod_small (n * _)) by lia. apply u32_id. lia.
  - rewrite Z.shiftr_div_pow2 by lia. rewrite land_mask64 by lia. apply u32_id. lia.
Qed.

(** A word of 23 bits and a size make a compact target and are read from it. *)
Definition pack (m s : Z) : Z := m + s * 2 ^ 24.

Lemma lor_pack m s : 0 <= m < 2 ^ 23 -> 0 <= s < 2 ^ 8 -> Z.lor m (u32 (Z.shiftl (u32 s) 24)) = pack m s.
Proof.
  intros Hm Hs. rewrite (u32_id s) by lia. rewrite Z.shiftl_mul_pow2 by lia. rewrite u32_id by lia. unfold pack. rewrite <- Z.add_lor_land. rewrite <- Z.shiftl_mul_pow2 by lia.
  assert (Z.land m (Z.shiftl s 24) = 0) as ->; [|lia]. apply Z.bits_inj_iff'. intros i Hi. rewrite Z.land_spec, Z.bits_0, Z.shiftl_spec by lia. destruct (Z.lt_ge_cases i 24).
  - rewrite (Z.testbit_neg_r s) by lia. apply andb_false_r.
  - rewrite (Z.bits_above_log2 m i); [done|lia|]. destruct (Z.eq_dec m 0) as [->|]; [cbn; lia|]. apply Z.log2_lt_pow2; [lia|]. assert (2 ^ 24 <= 2 ^ i) by (apply Z.pow_le_mono_r; lia). lia.
Qed.

Lemma high_bits m : 0 <= m < 2 ^ 23 -> Z.land m 4286578688 = 0.
Proof.
  intros Hm. change 4286578688 with (Z.shiftl (Z.ones 9) 23). apply Z.bits_inj_iff'. intros i Hi. rewrite Z.land_spec, Z.bits_0, Z.shiftl_spec by lia. destruct (Z.lt_ge_cases i 23).
  - rewrite (Z.testbit_neg_r (Z.ones 9)) by lia. apply andb_false_r.
  - rewrite (Z.bits_above_log2 m i); [done|lia|]. destruct (Z.eq_dec m 0) as [->|]; [cbn; lia|]. apply Z.log2_lt_pow2; [lia|]. assert (2 ^ 23 <= 2 ^ i) by (apply Z.pow_le_mono_r; lia). lia.
Qed.

Lemma SetCompact_pack m s : 0 < m < 2 ^ 23 -> 1 <= s <= 33 ->
  let u := if s <=? 3 then m / 2 ^ (8 * (3 - s)) else m * 2 ^ (8 * (s - 3)) in SetCompact (pack m s) = (u, false, s =? 33).
Proof.
  intros Hm Hs u. unfold SetCompact. assert (Z.shiftr (pack m s) 24 = s) as -> by (rewrite Z.shiftr_div_pow2 by lia; unfold pack; rewrite Z.div_add by lia; rewrite Z.div_small by lia; lia).
  assert (Z.land (pack m s) 8388607 = m) as ->.
  { change 8388607 with (Z.ones 23). rewrite Z.land_ones by lia. unfold pack. replace (s * 2 ^ 24) with (s * 2 * 2 ^ 23) by lia. rewrite Z.mod_add by lia. apply Z.mod_small. lia. }
  assert (Z.land (pack m s) 8388608 = 0) as ->.
  { change 8388608 with (2 ^ 23). rewrite land_pow2 by lia. replace (Z.testbit (pack m s) 23) with false; [done|]. symmetry. apply Z.testbit_false; [lia|]. unfold pack.
    replace (s * 2 ^ 24) with (s * 2 * 2 ^ 23) by lia. rewrite Z.div_add by lia. rewrite (Z.div_small m) by lia. rewrite Z.add_0_l. apply Z.mod_mul. lia. }
  assert ((if s <=? 3 then Z.shiftr m (8 * (3 - s)) else Z.shiftl m (8 * (s - 3))) = u) as ->.
  { unfold u. destruct (Z.leb_spec s 3); [apply Z.shiftr_div_pow2; lia|apply Z.shiftl_mul_pow2; lia]. }
  rewrite (proj2 (Z.ltb_ge 34 s)), (proj2 (Z.ltb_ge 33 s)) by lia. rewrite !andb_false_r. cbn [orb]. destruct (Z.eqb_spec s 33) as [->|].
  - assert (65535 < u) by (unfold u; change (33 <=? 3) with false; cbv iota; change (8 * (33 - 3)) with 240; lia).
    by rewrite (proj2 (Z.eqb_neq u 0)), (proj2 (Z.ltb_lt _ _)) by lia.
  - rewrite (proj2 (Z.ltb_ge 32 s)) by lia. by rewrite !andb_false_r.
Qed.

(** Close to a number from below. *)
Definition close_below (n u : Z) : Prop := 0 < u <= n /\ (n - u) * 2 ^ 15 <= n.

(** C34: compact targets lose little.  Every positive number of 256 bits has a compact form of 32 bits; reading it back gives no sign, a number not above the
    first, and less than it by one part in 32768 at most.  It is marked as an overflow exactly when the number has all of the 256 bits. *)
Theorem compact_roundtrip n : 0 < n < 2 ^ 256 ->
  exists c u, GetCompact n = Some c /\ 0 <= c < 2 ^ 32 /\ SetCompact c = (u, false, 2 ^ 255 <=? n) /\ close_below n u.
Proof.
  intros Hn. destruct (bytes_of n Hn) as [Hs Hb]. unfold GetCompact. set (s := Z.quot (BitLen n + 7) 8) in *. rewrite (nCompact_mantissa n s) by lia.
  pose proof (mantissa_range n s ltac:(lia) Hb) as Hm. rewrite sign_bit by lia. set (m := mantissa n s) in *.
  assert (exists m' s', (if 2 ^ 23 <=? m then (Z.shiftr m 8, s + 1) else (m, s)) = (m', s') /\ 0 < m' < 2 ^ 23 /\ 1 <= s' <= 33 /\ (s' =? 33) = (2 ^ 255 <=? n) /\
    let u := if s' <=? 3 then m' / 2 ^ (8 * (3 - s')) else m' * 2 ^ (8 * (s' - 3)) in 0 < u <= n /\ (n - u) * 2 ^ 15 <= n) as (m' & s' & -> & Hm' & Hs' & Ho & Hu).
  { destruct (Z.leb_spec (2 ^ 23) m) as [Hge|Hlt].
    - exists (m / 2 ^ 8), (s + 1). split; [by rewrite Z.shiftr_div_pow2|]. assert (2 ^ 15 <= m / 2 ^ 8 < 2 ^ 16) as Hmm by (split; [apply Z.div_le_lower_bound; lia|apply Z.div_lt_upper_bound; lia]). split; [lia|].
      assert ((s + 1 =? 33) = (2 ^ 255 <=? n)) as Ho.
      { destruct (Z.eqb_spec (s + 1) 33) as [E|]; symmetry; [apply Z.leb_le|apply Z.leb_gt].
        - revert Hge. unfold m, mantissa. replace s with 32 by lia. change (32 <=? 3) with false. cbv iota. change (8 * (32 - 3)) with 232. intros Hge.
          pose proof (Z.mul_div_le n (2 ^ 232) ltac:(lia)). lia.
        - assert (2 ^ (8 * s) <= 2 ^ 248) by (apply Z.pow_le_mono_r; lia). lia. }
      split; [lia|]. split; [exact Ho|]. intros u. subst u. unfold m, mantissa in *. destruct (Z.leb_spec s 3) as [H3|H3].
      + destruct (Z.leb_spec (s + 1) 3) as [H4|H4].
        * assert (n * 2 ^ (8 * (3 - s)) / 2 ^ 8 / 2 ^ (8 * (3 - (s + 1))) = n) as ->; [|lia].
          rewrite Z.div_div by (try apply Z.pow_nonzero; try apply Z.pow_pos_nonneg; lia). rewrite <- Z.pow_add_r by lia. replace (8 + 8 * (3 - (s + 1))) with (8 * (3 - s)) by lia. apply Z.div_mul. apply Z.pow_nonzero; lia.
        * assert (s = 3) as -> by lia. change (8 * (3 - 3)) with 0 in *. rewrite Z.mul_1_r in *. change (8 * (3 + 1 - 3)) with 8. pose proof (Z.div_mod n (2 ^ 8) ltac:(lia)). pose proof (Z.mod_pos_bound n (2 ^ 8) ltac:(lia)). lia.
      + rewrite (proj2 (Z.leb_gt (s + 1) 3)) by lia. set (e := 8 * (s - 3)) in *. replace (8 * (s + 1 - 3)) with (e + 8) by (unfold e; lia).
        pose proof (Z.pow_pos_nonneg 2 e ltac:(lia) ltac:(unfold e; lia)) as Hp. rewrite Z.div_div by lia. rewrite <- Z.pow_add_r by (unfold e; lia).
        assert (2 ^ (e + 8) = 2 ^ e * 2 ^ 8) as Ep by (rewrite Z.pow_add_r by (unfold e; lia); done). pose proof (Z.div_mod n (2 ^ (e + 8)) ltac:(lia)) as Hd. pose proof (Z.mod_pos_bound n (2 ^ (e + 8)) ltac:(lia)) as Hr.
        rewrite Z.div_div, <- Ep in Hmm by lia. pose proof (Z.mul_div_le n (2 ^ e) Hp). assert (2 ^ e * 2 ^ 23 <= n) by nia. nia.
    - exists m, s. split; [done|]. split; [lia|]. split; [lia|]. split.
      { rewrite (proj2 (Z.eqb_neq s 33)) by lia. symmetry. apply Z.leb_gt. destruct (Z.eq_dec s 32) as [E|].
        - revert Hlt. unfold m, mantissa. rewrite E. change (32 <=? 3) with false. cbv iota. change (8 * (32 - 3)) with 232. intros Hlt.
          pose proof (Z.div_mod n (2 ^ 232) ltac:(lia)). pose proof (Z.mod_pos_bound n (2 ^ 232) ltac:(lia)). lia.
        - assert (2 ^ (8 * s) <= 2 ^ 248) by (apply Z.pow_le_mono_r; lia). lia. }
      intros u. subst u. unfold m, mantissa in *. destruct (Z.leb_spec s 3) as [H3|H3].
      + rewrite Z.div_mul by (apply Z.pow_nonzero; lia). lia.
      + set (e := 8 * (s - 3)) in *. pose proof (Z.pow_pos_nonneg 2 e ltac:(lia) ltac:(unfold e; lia)) as Hp. pose proof (Z.div_mod n (2 ^ e) ltac:(lia)) as Hd. pose proof (Z.mod_pos_bound n (2 ^ e) ltac:(lia)) as Hr. nia. }
  exists (pack m' s'). eexists. rewrite high_bits by lia. rewrite Z.eqb_refl, (proj2 (Z.ltb_ge 256 s')) by lia. cbn [negb orb]. rewrite lor_pack by lia.
  split; [reflexivity|]. split; [unfold pack; lia|]. split; [rewrite <- Ho; by apply SetCompact_pack|]. exact Hu.
Qed.

(** ** Mining *)

Section Mining.
Context {SK : Type}.
Variable SignECDSA : SK -> string -> outcome string.
Variable key : SK.

(** What mining leaves of a block as it was. *)
Record mined_from (b b' : InternalBlock) : Prop := {
  mf_pre : PreHash b' = PreHash b;
  mf_height : Height b' = Height b;
  mf_time : Timestamp b' = Timestamp b;
  mf_bits : TargetBits b' = TargetBits b;
  mf_proposer : Proposer b' = Proposer b;
  mf_key : Pubkey b' = Pubkey b
}.

Lemma mining_ret closed p tries nonce b b' : mining SignECDSA key closed p tries nonce b = (Ret tt, b') ->
  mined_from b b' /\ Blockid b' = MakeBlockID b' /\ IsProofed p (Blockid b') (targetBits p) = true /\ SignECDSA key (Blockid b') = Ret (BSign b').
Proof using Type.
  revert nonce b. induction tries as [|n IH]; intros nonce b E; cbn [mining] in E; (destruct (closed _); [discriminate E|]); [discriminate E|].
  unfold MakeBlockId in E. cbv beta iota zeta in E. destruct (IsProofed p (MakeBlockID (SetItem (item_nonce nonce) b)) (targetBits p)) eqn:Ep.
  - destruct (SignECDSA key (MakeBlockID (SetItem (item_nonce nonce) b))) as [sg| |] eqn:Es; [|discriminate E..]. injection E as <-. split; [by split|]. by split_and!.
  - destruct (IH _ _ E) as ([] & Hid & Hp & Hs). split; [by split|]. by split_and!.
Qed.

(** Mining ends within the given number of tries, in one of four ways. *)
Lemma mining_ends closed p tries nonce b : (forall m, SignECDSA key m <> Panic) ->
  fst (mining SignECDSA key closed p tries nonce b) ∈ [Ret tt; Err OODMineErr; Err TryTooMuchMineErr; Err BlockSignErr].
Proof using Type.
  intros Hnp. revert nonce b. induction tries as [|n IH]; intros nonce b; cbn [mining]; (destruct (closed _); [set_solver|]); [set_solver|].
  unfold MakeBlockId. cbv beta iota zeta. destruct (IsProofed p _ _); [|apply IH]. destruct (SignECDSA key _) as [sg| |] eqn:Es; [set_solver|set_solver|]. by apply Hnp in Es.
Qed.

End Mining.

(** A node that would mine the same way. *)
Record same_rules (p q : PoWConsensus) : Prop := {
  sr_flag : bitcoinFlag q = bitcoinFlag p;
  sr_max : maxDifficulty q = maxDifficulty p;
  sr_config : pow_config q = pow_config p
}.
Lemma same_refresh ledger p q tip h : same_rules p q -> refreshDifficulty ledger q tip h = refreshDifficulty ledger p tip h.
Proof. intros []. unfold refreshDifficulty, adjusted, actualTimeSpan, expectedTimeSpan. by rewrite sr_flag0, sr_max0, sr_config0. Qed.
Lemma same_proof p q id bits : same_rules p q -> IsProofed q id bits = IsProofed p id bits.
Proof. intros []. unfold IsProofed. by rewrite sr_flag0, sr_max0. Qed.

(** C18: a mined block is accepted.  A miner prepares a block on the tip of its chain with [ProcessBeforeMiner] and mines it with any number of tries.  If
    mining succeeds, the block it leaves hashes to its identifier, and every node with the same rules and chain accepts it, given that the key in the
    block belongs to its proposer and verifies what the miner's key signs, and that the block is not older than the tip. *)
Theorem mined_block_accepted {SK PK : Type} (L : LedgerRely) (json : string -> outcome PK) addr verify (sign : SK -> string -> outcome string) key closed p p1 q target storage tries nonce block b' k pre :
  ProcessBeforeMiner L p = (Ret (target, Some storage), p1) -> sent p1 = sent p -> same_rules p q ->
  QueryBlockHeaderByHeight L (Height (GetTipBlock L)) = Ret pre -> QueryBlockHeader L (Blockid pre) = Ret pre -> Height (GetTipBlock L) < 2 ^ 60 -> 0 <= Height (GetTipBlock L) ->
  PreHash block = Blockid pre -> Height block = Height (GetTipBlock L) + 1 -> Timestamp pre <= Timestamp block -> TargetBits block = cs_TargetBits storage -> 0 <= cs_TargetBits storage ->
  json (Pubkey block) = Ret k -> addr (Proposer block) k = true -> (forall m sg, sign key m = Ret sg -> verify k sg m = Ret true) ->
  mining sign key closed p1 tries nonce block = (Ret tt, b') -> fst (CheckMinerMatch L json addr verify b' q) = (Ret true, b').
Proof.
  intros Hpb Hsent Hsr Hq Hq' Hh Hh0 Hpre Hheight Htime Hbits Hpos Hk Ha Hv Hm. destruct (mining_ret _ _ _ _ _ _ _ _ Hm) as ([M1 M2 M3 M4 M5 M6] & Hid & Hproof & Hsg).
  unfold ProcessBeforeMiner, QueryTipBlockHeader in Hpb. rewrite Hq in Hpb. assert (add64 (Height (GetTipBlock L)) 1 = Height block) as E1 by (unfold add64; rewrite wrap64_id by in64; lia). rewrite E1 in Hpb.
  destruct (refreshDifficulty L p (Blockid pre) (Height block)) as [bits| |] eqn:Er; [|injection Hpb as _ <- <-; cbn in Hsent; by apply (f_equal length) in Hsent; rewrite length_app in Hsent; cbn in Hsent; lia|done].
  injection Hpb as _ <- <-. cbn [cs_TargetBits] in *. cbn [targetBits set_target] in Hproof.
  assert (same_rules (set_target p bits) q) as Hsr' by (destruct Hsr; by split). assert (check_block L json addr verify q b' = (Ret true, b')) as Ec.
  { unfold check_block, ParseConsensusStorage, GetConsensusStorage. cbn [cs_TargetBits]. rewrite M4, Hbits, (proj2 (Z.ltb_ge bits 0)) by lia. rewrite (same_proof _ _ _ _ Hsr'), Hproof. cbn [negb].
    unfold MakeBlockId. assert (set_id b' (MakeBlockID b') = b') as -> by (rewrite <- Hid; by destruct b'). rewrite bool_decide_eq_true_2 by done. cbn [negb].
    rewrite M1, M2, Hpre, (same_refresh L _ _ _ _ Hsr), Er, Z.eqb_refl, Hq'. cbn [negb]. rewrite M3, (proj2 (Z.ltb_ge _ _)) by lia. rewrite (same_proof _ _ _ _ Hsr'), Hproof, M6, Hk, M5, Ha. cbn [negb]. by rewrite (Hv _ _ Hsg). }
  unfold CheckMinerMatch. by rewrite Ec.
Qed.

(** ** Difficulty *)

(** The blocks below took less than 250 times as long as they should: a quarter of the expected milliseconds, counted as seconds. *)
Definition within_250 (p : PoWConsensus) (pre far : InternalBlock) : Prop :=
  0 <= Timestamp far <= Timestamp pre /\ Timestamp pre <= int64_max /\ 4 * (Timestamp pre - Timestamp far) < expectedTimeSpan p * 1000000000.

Lemma actual_clamped p pre far : within_250 p pre far -> 4 <= expectedTimeSpan p -> expectedTimeSpan p * 4 <= int32_max -> actualTimeSpan p pre far = expectedTimeSpan p / 4.
Proof.
  intros (H1 & H2 & H3) HE Hmax. unfold actualTimeSpan. set (E := expectedTimeSpan p) in *. unfold int64_max, int32_max in *.
  assert (sub64 (Timestamp pre) (Timestamp far) = Timestamp pre - Timestamp far) as -> by (unfold sub64; apply wrap64_id; in64). rewrite !Z.quot_div_nonneg by lia.
  set (secs := (Timestamp pre - Timestamp far) / 1000000000). assert (0 <= secs) by (apply Z.div_pos; lia). pose proof (Z.mul_div_le (Timestamp pre - Timestamp far) 1000000000 ltac:(lia)) as Hs. fold secs in Hs.
  pose proof (Z.div_mod E 4 ltac:(lia)). pose proof (Z.mod_pos_bound E 4 ltac:(lia)). assert (secs <= E / 4) by lia.
  rewrite (wrap32_id secs), (wrap32_id (E * 4)) by (unfold is_int32, int32_min, int32_max; lia). destruct (Z.ltb_spec secs (E / 4)); rewrite (proj2 (Z.ltb_ge _ _)) by lia; lia.
Qed.

Lemma adjusted_up p prev : bitcoinFlag p = false -> 4 <= expectedTimeSpan p -> 0 <= prev < 2 ^ 31 -> adjusted p prev (expectedTimeSpan p / 4) = Ret (Z.min (MaxTarget (pow_config p)) (prev + 2)).
Proof.
  intros Hf HE Hp. unfold adjusted. rewrite Hf. set (E := expectedTimeSpan p) in *. set (q := E / 4). pose proof (Z.div_mod E 4 ltac:(lia)) as Hd. pose proof (Z.mod_pos_bound E 4 ltac:(lia)) as Hr. fold q in Hd. assert (1 <= q) by lia.
  unfold big_Div. rewrite (proj2 (Z.eqb_neq q 0)) by lia. rewrite (Z.sgn_pos q), (Z.abs_eq q) by lia. rewrite obind_ret. rewrite Z.mul_1_l, Z.shiftl_1_l.
  pose proof (Z.pow_pos_nonneg 2 prev ltac:(lia) ltac:(lia)) as H2. set (d := 2 ^ prev * E / q).
  assert (2 ^ (prev + 2) <= d < 2 ^ (prev + 2 + 1)) as Hdr.
  { rewrite !Z.pow_add_r by lia. change (2 ^ 2) with 4. change (2 ^ 1) with 2. split; [apply Z.div_le_lower_bound; [lia|]; nia|apply Z.div_lt_upper_bound; [lia|]; nia]. }
  assert (BitLen d - 1 = prev + 2) as ->.
  { pose proof (Z.pow_pos_nonneg 2 (prev + 2) ltac:(lia) ltac:(lia)). unfold BitLen. rewrite (proj2 (Z.eqb_neq d 0)), Z.abs_eq by lia. rewrite (Z.log2_unique d (prev + 2)) by (rewrite <- ?Z.add_1_r; lia). lia. }
  rewrite u32_id by lia. f_equal. destruct (Z.ltb_spec (MaxTarget (pow_config p)) (prev + 2)); lia.
Qed.

(** The difficulty can only rise.  The expected time of an adjustment is counted in milliseconds and the actual one in seconds.  So as long as the blocks
    do not take 250 times as long as configured, every adjustment raises the difficulty by the most it may, two bits, up to the limit, also when
    the blocks were exactly on time or many times too slow. *)
Theorem difficulty_only_rises L p tip h block pre far prev :
  let cfg := pow_config p in
  bitcoinFlag p = false -> 4 <= expectedTimeSpan p -> expectedTimeSpan p * 4 <= int32_max -> 0 < AdjustHeightGap cfg < h -> h mod AdjustHeightGap cfg = 0 -> 0 <= prev < 2 ^ 31 ->
  QueryBlockHeader L tip = Ret block -> QueryBlockHeader L (PreHash block) = Ret pre -> ParseConsensusStorage pre = Ret prev ->
  far_block L (Z.to_nat (wrap32 (AdjustHeightGap cfg - 1))) pre = Ret (Some far) -> within_250 p pre far ->
  refreshDifficulty L p tip h = Ret (Z.min (MaxTarget cfg) (prev + 2)).
Proof.
  intros cfg Hf HE Hmax Hgap Hmod Hprev E1 E2 E3 E4 Hfast. unfold refreshDifficulty. fold cfg. rewrite (proj2 (Z.leb_gt _ _)) by lia. rewrite E1, E2, E3, obind_ret.
  unfold rem64. rewrite (proj2 (Z.eqb_neq (AdjustHeightGap cfg) 0)) by lia. rewrite obind_ret, Z.rem_mod_nonneg, Hmod by lia. cbn [Z.eqb negb]. rewrite E4, obind_ret, actual_clamped by done. by apply adjusted_up.
Qed.

(** A chain whose blocks have the target that [CheckMinerMatch] asks of them. *)
Record pow_chain (L : LedgerRely) (p : PoWConsensus) (b : Z -> InternalBlock) (n : Z) : Prop := {
  pch_found : forall h, 0 <= h <= n -> QueryBlockHeader L (Blockid (b h)) = Ret (b h);
  pch_linked : forall h, 0 <= h < n -> PreHash (b (h + 1)) = Blockid (b h);
  pch_bits : forall h, 1 <= h <= n -> refreshDifficulty L p (PreHash (b h)) h = Ret (TargetBits (b h))
}.

(** C37: half of the blocks are never adjusted.  The target is taken from the block two below, not from the block below.  With an even interval of adjustment,
    which the recommended one of 2016 blocks is, only blocks of even height are adjusted, and every block of odd height needs no more than the
    default target for ever. *)
Theorem odd_blocks_never_adjust L p b n h : let gap := AdjustHeightGap (pow_config p) in
  0 < gap -> gap mod 2 = 0 -> 0 <= DefaultTarget (pow_config p) -> pow_chain L p b n -> 1 <= h <= n -> h mod 2 = 1 -> TargetBits (b h) = DefaultTarget (pow_config p).
Proof.
  intros gap Hgap Heven Hdef [Hf Hl Hb] Hh Hodd. assert (exists k, h = 2 * Z.of_nat k + 1) as [k ->] by (exists (Z.to_nat (h / 2)); pose proof (Z.div_mod h 2 ltac:(lia)); assert (0 <= h / 2) by (apply Z.div_pos; lia); lia).
  clear Hodd. revert Hh. induction k as [|k IH]; intros Hh; pose proof (Hb _ Hh) as E; unfold refreshDifficulty in E; fold gap in E.
  - rewrite (proj2 (Z.leb_le _ _)) in E; [congruence|]. assert (gap <> 1) by (intros ->; done). lia.
  - destruct (_ <=? gap) eqn:Eg; [congruence|]. apply Z.leb_gt in Eg. replace (2 * Z.of_nat (S k) + 1) with (2 * Z.of_nat k + 1 + 1 + 1) in * by lia.
    rewrite (Hl (2 * Z.of_nat k + 1 + 1)), (Hf (2 * Z.of_nat k + 1 + 1)), (Hl (2 * Z.of_nat k + 1)), (Hf (2 * Z.of_nat k + 1)) in E by lia. specialize (IH ltac:(lia)).
    unfold ParseConsensusStorage, GetConsensusStorage in E. cbn [cs_TargetBits] in E. rewrite IH, (proj2 (Z.ltb_ge _ _)), obind_ret in E by lia.
    unfold rem64 in E. rewrite (proj2 (Z.eqb_neq gap 0)), obind_ret in E by lia. destruct (Z.eqb_spec (Z.rem (2 * Z.of_nat k + 1 + 1 + 1) gap) 0) as [E0|]; [|cbn in E; congruence].
    exfalso. rewrite Z.rem_mod_nonneg in E0 by lia. apply Z.mod_divide in E0 as [x Ex]; [|lia]. apply Z.mod_divide in Heven as [y Ey]; [|lia]. rewrite Ey in Ex. lia.
Qed.

(** ** The mining goroutine *)

Definition task_ids (es : list MineEvent) : list nat := omap (fun e => match e with ev_task id _ => Some id | _ => None end) es.

(** What is or was a task: no task twice. *)
Definition seen (s : Supervisor) : list nat := closed_tasks s ++ match current s with Some (id, _) => [id] | None => [] end.

Lemma supervise_seen s e : exists l, seen (supervise s e) = seen s ++ l /\ l `sublist_of` task_ids [e].
Proof.
  unfold supervise. destruct (running s); cbn [negb]; [|exists []; rewrite app_nil_r; split; [done|apply sublist_nil_l]]. destruct e as [id h|h|]; cbn.
  - exists [id]. split; [done|]. done.
  - destruct (current s) as [[id h']|] eqn:Ec; [|exists []; rewrite app_nil_r; split; [done|apply sublist_nil_l]]. destruct (_ <? _); exists []; rewrite ?app_nil_r; split; try apply sublist_nil_l; [|done].
    unfold seen. cbn. by rewrite app_nil_r.
  - exists []. split; [|apply sublist_nil_l]. unfold seen. cbn. by rewrite !app_nil_r.
Qed.

(** No task is closed twice, which would panic.  Whatever messages the goroutine of [Start] receives, in any order, if the tasks it is given are
    different, it closes the channel of none of them a second time. *)
Theorem closes_once es s : NoDup (seen s ++ task_ids es) -> NoDup (closed_tasks (foldl supervise s es)).
Proof.
  revert s. induction es as [|e es IH]; intros s Hnd; cbn [foldl].
  - rewrite app_nil_r in Hnd. unfold seen in Hnd. by apply NoDup_app in Hnd as [? _].
  - apply IH. destruct (supervise_seen s e) as (l & -> & Hl). eapply sublist_NoDup; [exact Hnd|]. rewrite <- app_assoc. apply sublist_app; [done|].
    change (e :: es) with ([e] ++ es). unfold task_ids. rewrite omap_app. by apply sublist_app.
Qed.
