(* ===== verification/PluggableCases.v ===== *)
(** * Pluggable, single and proof of work: single cases

    Instances of the theorems of the files PluggableSpec and PowSpec, and behaviours
    of the code on small chains. *)

From Stdlib Require Import ZArith Lia Ascii.
From stdpp Require Import base gmap strings list numbers sorting.
From S2P Require Import Prelude GoValues Sandbox KContext LedgerHash QCTree Smr Consensus Pluggable PluggableSpec Single Utxo Pow PowSpec.

Set Default Proof Using "Type".
Local Open Scope Z_scope.

Import Fresh.

(** ** A chain of single consensuses *)

Module PlugExample.
(** A scheme in which a name is its own key and a message signs itself. *)
Definition json (s : string) : outcome string := Ret s.
Definition addr (a k : string) : bool := bool_decide (a = k).
Definition address_of (k : string) : outcome string := Ret k.
Definition verify (_ sg m : string) : outcome bool := Ret (bool_decide (sg = m)).
#[global] Instance impl : ConsensusImpl SingleConsensus := Single_ConsensusImpl json addr address_of verify.
#[global] Instance laws : ConsensusImplLaws SingleConsensus := Single_ConsensusImplLaws json addr address_of verify.

(** The context says whether the ledger is in a state in which an instance can be
    made. *)
Definition consensusMap (n : string) : option (bool -> ConsensusConfig -> option SingleConsensus) :=
  if bool_decide (n = "single") then Some (fun (usable : bool) cfg => if usable then NewSingleConsensus "amy" cfg else None) else None.
Lemma begins n f x cfg con : consensusMap n = Some f -> f x cfg = Some con -> exists st, im_Status con = Ret st /\ GetConsensusBeginInfo st = StartHeight cfg.
Proof. unfold consensusMap. case_bool_decide; [|done]. intros [= <-] E. destruct x; [|done]. by eapply single_begins. Qed.
Lemma steady n f x y cfg c d : consensusMap n = Some f -> f x cfg = Some c -> f y cfg = Some d -> im_Status c = im_Status d.
Proof. unfold consensusMap. case_bool_decide; [|done]. intros [= <-]. destruct x, y; [|done..]. congruence. Qed.

Definition conf : blob := Doc [("name", JStr "single"); ("config", JObj [("miner", JStr "amy"); ("period", JStr "3000")])].
Definition pc0 : stepConsensus SingleConsensus := mkStep [Some (mkSingle "amy" 1 0 0 (mkSingleConfig "amy" 3000 0))] false.
Lemma fresh : NewPluggableConsensus consensusMap true conf None = Ret pc0.
Proof. vm_compute. reflexivity. Qed.

Definition proposal (height miner version : string) : Context :=
  mkContext "$consensus" "amy" "" [] {["height" := Raw height; "args" := Doc [("name", JStr "single"); ("config", JObj [("miner", JStr miner); ("version", JStr version)])]]} MaxLimits.
Definition st0 : KState store := start "$consensus".
Definition run1 := updateConsensus consensusMap conf true (proposal "30" "ben" "1") st0 pc0.
Definition st1 := snd (fst run1).
Definition pc1 := snd run1.
Definition run2 := updateConsensus consensusMap conf true (proposal "60" "cat" "2") st1 pc1.
Definition st2 := snd (fst run2).
Definition pc2 := snd run2.

Lemma first_update : plug_step consensusMap conf (mkNode st0 [] pc0) (mkNode st1 [st0] pc1).
Proof. apply (ps_kept _ _ true (proposal "30" "ben" "1") _ _ _ (fst (fst run1))). unfold st1, pc1. fold run1. by destruct run1 as [[]]. Qed.

(** Both updates are kept. *)
Lemma runs : rtc (plug_step consensusMap conf) (mkNode st0 [] pc0) (mkNode st2 [st1; st0] pc2).
Proof.
  eapply rtc_l; [exact first_update|]. apply rtc_once. apply (ps_kept _ _ true (proposal "60" "cat" "2") _ _ _ (fst (fst run2))). unfold st2, pc2. fold run2. by destruct run2 as [[]].
Qed.

(** The block of the second update is dropped and that of the first rolled back. *)
Lemma falls_back : rtc (plug_step consensusMap conf) (mkNode st0 [] pc0) (mkNode st0 [] pc2).
Proof.
  eapply rtc_l; [exact first_update|]. eapply rtc_l; [|apply rtc_once, ps_undone].
  apply (ps_dropped _ _ true (proposal "60" "cat" "2") _ _ _ (fst (fst run2)) st2). unfold st2, pc2. fold run2. by destruct run2 as [[]].
Qed.

Lemma makeable_all x l : forallb (fun c => match makeConsensusItem consensusMap x c with Ret _ => true | _ => false end) l = true -> Forall (makeable consensusMap x) l.
Proof. intros H%Is_true_eq_left%forallb_True. eapply Forall_impl; [exact H|]. intros c. unfold makeable. cbn. destruct (makeConsensusItem consensusMap x c); [by eexists|done..]. Qed.
Lemma present_all {A} (k : list (option A)) : forallb (fun o => match o with Some _ => true | None => false end) k = true -> Forall is_Some k.
Proof. intros H%Is_true_eq_left%forallb_True. eapply Forall_impl; [exact H|]. intros [c|]; [by eexists|done]. Qed.
End PlugExample.

Lemma upgrades_agree_witness :
  (exists m, agrees PlugExample.consensusMap PlugExample.conf PlugExample.st0 PlugExample.pc2 (configurations PlugExample.conf PlugExample.st0) m) /\
  length (configurations PlugExample.conf PlugExample.st0) = 1%nat /\ length (cons PlugExample.pc2) = 3%nat.
Proof.
  split; [|vm_compute; split; reflexivity].
  apply (upgrades_agree PlugExample.consensusMap PlugExample.conf true PlugExample.st0 PlugExample.pc0 (mkNode PlugExample.st0 [] PlugExample.pc2)).
  - exact PlugExample.begins.
  - exact PlugExample.fresh.
  - apply start_inv.
  - exists ErrNotFound. reflexivity.
  - exact PlugExample.falls_back.
Defined.

(** A block at height ten, made under the first configuration, would be judged by
    the second. *)
Lemma instance_for_height_witness : exists l m, agrees PlugExample.consensusMap PlugExample.conf PlugExample.st2 PlugExample.pc2 l m /\ (governs m 10 1 <-> reaches m <= 10).
Proof.
  apply (instance_for_height PlugExample.consensusMap PlugExample.conf true PlugExample.st0 PlugExample.pc0 (mkNode PlugExample.st2 [PlugExample.st1; PlugExample.st0] PlugExample.pc2) 10 1%nat).
  - exact PlugExample.begins.
  - exact PlugExample.fresh.
  - apply start_inv.
  - exists ErrNotFound. reflexivity.
  - exact PlugExample.runs.
  - vm_compute. reflexivity.
Defined.

Lemma restart_restores_witness : exists pc3, NewPluggableConsensus PlugExample.consensusMap true PlugExample.conf (stored_at PlugExample.st2) = Ret pc3 /\
  Forall2 same_status (cons PlugExample.pc2) (cons pc3) /\ length (cons pc3) = 3%nat.
Proof.
  destruct (restart_restores PlugExample.consensusMap PlugExample.conf true true PlugExample.st0 PlugExample.pc0 (mkNode PlugExample.st2 [PlugExample.st1; PlugExample.st0] PlugExample.pc2)) as (pc3 & E & _ & _ & Hs).
  - exact PlugExample.begins.
  - exact PlugExample.steady.
  - exact PlugExample.fresh.
  - apply start_inv.
  - exists ErrNotFound. reflexivity.
  - exact PlugExample.runs.
  - apply PlugExample.makeable_all. vm_compute. reflexivity.
  - destruct Hs as [Hf _]; [vm_compute; reflexivity|apply PlugExample.present_all; vm_compute; reflexivity|]. exists pc3. split; [exact E|]. split; [exact Hf|].
    rewrite <- (Forall2_length _ _ _ Hf). vm_compute. reflexivity.
Defined.

(** After the fall back the memory has two instances the storage has not; a restart
    loses them, and answers for height 40 with another instance. *)
Example restart_forgets_dropped :
  match NewPluggableConsensus PlugExample.consensusMap true PlugExample.conf (stored_at PlugExample.st0) with
  | Ret pc => getCurrentConsensusItem 40 pc = Ret 0%nat /\ getCurrentConsensusItem 40 PlugExample.pc2 = Ret 1%nat
  | _ => False
  end.
Proof. vm_compute. split; reflexivity. Qed.

(** At a state of the ledger where the last instance cannot be made the node does not
    start. *)
Example restart_panics : NewPluggableConsensus PlugExample.consensusMap false PlugExample.conf (stored_at PlugExample.st2) = Panic.
Proof. vm_compute. reflexivity. Qed.

Lemma update_runs_once_witness : exists e st2, updateConsensus PlugExample.consensusMap PlugExample.conf true (PlugExample.proposal "30" "ben" "1") PlugExample.st0 PlugExample.pc1 = (Err e, st2, PlugExample.pc1).
Proof.
  destruct (fresh_agrees PlugExample.consensusMap PlugExample.conf true PlugExample.st0 PlugExample.pc0 PlugExample.fresh (start_inv _)) as (g & Hag); [exists ErrNotFound; reflexivity|].
  destruct (update_runs_once PlugExample.consensusMap PlugExample.conf true true (PlugExample.proposal "30" "ben" "1") PlugExample.st0 PlugExample.st1 PlugExample.pc0 PlugExample.pc1 [g] [g] (resp_ok (Some (Raw "ok")))) as (e & st2 & E & _).
  - exact PlugExample.begins.
  - exact Hag.
  - vm_compute. reflexivity.
  - exists e, st2. exact E.
Defined.

(** A version out of the range of 64 bits in the first configuration counts as the
    greatest number, and no upgrade is possible any more. *)
Example huge_version_blocks_upgrades :
  fst (fst (updateConsensus PlugExample.consensusMap (Doc [("name", JStr "single"); ("config", JObj [("miner", JStr "amy"); ("version", JStr "9223372036854775808")])])
    true (PlugExample.proposal "30" "ben" "9223372036854775807") PlugExample.st0 PlugExample.pc0)) = Err ErrInvalidVersion.
Proof. vm_compute. reflexivity. Qed.

(** ** Proof of work *)

Lemma compact_roundtrip_witness : exists c u, GetCompact (2 ^ 254 + 12345) = Some c /\ SetCompact c = (u, false, false) /\ close_below (2 ^ 254 + 12345) u.
Proof.
  destruct (compact_roundtrip (2 ^ 254 + 12345)) as (c & u & E & _ & Es & Hc); [lia|]. exists c, u. split; [exact E|]. split; [exact Es|exact Hc].
Defined.

(** Numbers of 256 bits have a compact form that is read as an overflow, because the
    word that is tested has been shifted already. *)
Example large_target_overflows : option_map SetCompact (GetCompact (2 ^ 255)) = Some (2 ^ 255, false, true).
Proof. vm_compute. reflexivity. Qed.

Module PowExample.
Definition config : PoWConfig := mkPoWConfig 8 2 1000 20.
Definition p0 : PoWConsensus := mkPoW false 8 20 1 0 0 config [].
Definition bits (h : Z) : Z := if h =? 4 then 10 else 8.
Definition name (h : Z) : string := bigString h.
(** One block a second, as configured. *)
Definition blk (h : Z) : InternalBlock := mkBlk 1 0 (name h) (name (h - 1)) "amy" "" "amy" "" h (h * 1000000000) [] 0 [] 0 0 ∅ (bits h) None true "".
Definition find_block (id : string) : outcome InternalBlock :=
  match ParseInt64 id with Some h => if (0 <=? h) && (h <=? 5) then Ret (blk h) else Err "no block" | None => Err "no block" end.
Definition L : LedgerRely := mkRely (fun h => find_block (name h)) find_block (blk 5) (fun _ => Err "no snapshot").

Lemma five (P : Z -> Prop) : Forall P [0; 1; 2; 3; 4; 5] -> forall h, 0 <= h <= 5 -> P h.
Proof. intros HP h Hh. rewrite list.Forall_forall in HP. apply HP. rewrite !elem_of_cons, elem_of_nil. lia. Qed.

Lemma chain : pow_chain L p0 blk 5.
Proof.
  split.
  - apply (five (fun h => QueryBlockHeader L (Blockid (blk h)) = Ret (blk h))). repeat constructor.
  - intros h Hh. cbn. unfold name. f_equal. lia.
  - intros h Hh. assert (forall h, 0 <= h <= 5 -> 1 <= h -> refreshDifficulty L p0 (PreHash (blk h)) h = Ret (TargetBits (blk h))) as Hx; [|apply Hx; lia].
    apply (five (fun h => 1 <= h -> refreshDifficulty L p0 (PreHash (blk h)) h = Ret (TargetBits (blk h)))). repeat constructor; intros; vm_compute; reflexivity || lia.
Qed.

(** An easy target: every hash passes. *)
Definition easy : PoWConsensus := mkPoW false 0 0 1 0 0 (mkPoWConfig 0 100 1000 0) [].
Definition draft : InternalBlock := mkBlk 1 0 "" (name 5) "amy" "" "amy" "" 6 7000000000 [] 0 [] 0 0 ∅ 0 None false "".
Definition sign (_ : unit) (m : string) : outcome string := Ret m.
Definition mined := mining sign tt (fun _ => false) easy 3 first_nonce draft.
End PowExample.

Lemma odd_blocks_never_adjust_witness : TargetBits (PowExample.blk 5) = 8 /\ TargetBits (PowExample.blk 4) = 10.
Proof.
  split; [|reflexivity]. apply (odd_blocks_never_adjust PowExample.L PowExample.p0 PowExample.blk 5 5).
  - cbn. lia.
  - reflexivity.
  - cbn. lia.
  - exact PowExample.chain.
  - lia.
  - reflexivity.
Defined.

Lemma difficulty_only_rises_witness : refreshDifficulty PowExample.L PowExample.p0 (PowExample.name 3) 4 = Ret 10.
Proof.
  apply (difficulty_only_rises PowExample.L PowExample.p0 (PowExample.name 3) 4 (PowExample.blk 3) (PowExample.blk 2) (PowExample.blk 1) 8).
  - reflexivity.
  - vm_compute. congruence.
  - vm_compute. congruence.
  - cbn. lia.
  - reflexivity.
  - lia.
  - vm_compute. reflexivity.
  - vm_compute. reflexivity.
  - vm_compute. reflexivity.
  - vm_compute. reflexivity.
  - split; [vm_compute; split; congruence|]. split; [vm_compute; congruence|vm_compute; reflexivity].
Defined.

Lemma mined_block_accepted_witness : fst (CheckMinerMatch PowExample.L PlugExample.json PlugExample.addr PlugExample.verify (snd PowExample.mined) PowExample.easy) = (Ret true, snd PowExample.mined).
Proof.
  apply (mined_block_accepted PowExample.L PlugExample.json PlugExample.addr PlugExample.verify PowExample.sign tt (fun _ => false) PowExample.easy PowExample.easy PowExample.easy None (mkStorage None 0 0 0)
    3 first_nonce PowExample.draft (snd PowExample.mined) "amy" (PowExample.blk 5)).
  - vm_compute. reflexivity.
  - reflexivity.
  - split; reflexivity.
  - vm_compute. reflexivity.
  - vm_compute. reflexivity.
  - vm_compute. reflexivity.
  - vm_compute. congruence.
  - reflexivity.
  - reflexivity.
  - vm_compute. congruence.
  - reflexivity.
  - cbn. lia.
  - reflexivity.
  - reflexivity.
  - intros m sg [= <-]. unfold PlugExample.verify. by rewrite bool_decide_eq_true_2.
  - vm_compute. reflexivity.
Defined.

(** An interval of one block divides by zero. *)
Example gap_one_panics : refreshDifficulty PowExample.L (mkPoW false 8 20 1 0 0 (mkPoWConfig 8 1 1000 20) []) (PowExample.name 3) 4 = Panic.
Proof. vm_compute. reflexivity. Qed.

(** A task is replaced, a new block ends the second, and stopping finds nothing. *)
Lemma closes_once_witness : NoDup (closed_tasks (foldl supervise (mkSup None [] true) [ev_task 0 5; ev_task 1 6; ev_newblock 7; ev_stop])) /\
  closed_tasks (foldl supervise (mkSup None [] true) [ev_task 0 5; ev_task 1 6; ev_newblock 7; ev_stop]) = [0; 1]%nat.
Proof.
  split; [|vm_compute; reflexivity]. apply (closes_once [ev_task 0 5; ev_task 1 6; ev_newblock 7; ev_stop] (mkSup None [] true)).
  cbn. apply NoDup_cons_2; [set_solver|apply NoDup_singleton].
Defined.
