(* ===== verification/NetEvent.v ===== *)
(** * What a node answers its peers

    [kernel/engines/xuperos/net/net_event.go] with [validata.go], [client.go] and
    [error.go], the readers of [kernel/engines/xuperos/reader] they use, and
    [SubmitTx] of [chain.go] with [DoTx] of [state.go].  The handlers run on the
    chain that a message names; a message body is the value its receiver decodes
    ([None] when [p2p.Unmarshal] fails). *)

From Stdlib Require Import ZArith Lia.
From stdpp Require Import base gmap strings list numbers sorting.
From S2P Require Import Prelude GoValues LruCache LedgerHash Ledger XModel Utxo SpinLock State.

Set Default Proof Using "Type".

(** ** Messages *)

Inductive ErrType := SUCCESS | BLOCKCHAIN_NOTEXIST | GET_BLOCK_ERROR | UNMARSHAL_MSG_BODY_ERROR | UNKNOW_ERROR.
#[global] Instance ErrType_eq_dec : EqDecision ErrType.
Proof. solve_decision. Defined.

Record Message (A : Type) := mkMsg { From : string; Bcname : string; ErrorTypeOf : ErrType; Body : option A }.
Arguments mkMsg {A}. Arguments From {A}. Arguments Bcname {A}. Arguments ErrorTypeOf {A}. Arguments Body {A}.

(** [common/error.go], as their texts. *)
Definition ErrParameter : string := "Err:400-40001-param error".
Definition ErrChainNotExist : string := "Err:500-50205-chain not exist".
Definition ErrChainStatus : string := "Err:500-50203-chain status error".
Definition ErrNoBlock : string := "Err:500-50300-block not exist".
Definition ErrTxVerifyFailed : string := "Err:500-50400-verify tx failed".
Definition ErrTxAlreadyExist : string := "Err:500-50401-tx already exist".
Definition ErrTxNotExist : string := "Err:500-50402-tx not exist".
Definition ErrTxNotEnough : string := "Err:500-50403-tx not enough".
Definition ErrSubmitTxFailed : string := "Err:500-50404-submit tx failed".

Definition ErrorType (err : option string) : ErrType :=
  match err with
  | None => SUCCESS
  | Some e =>
      if bool_decide (e = ErrChainNotExist) then BLOCKCHAIN_NOTEXIST
      else if bool_decide (e = ErrNoBlock) then GET_BLOCK_ERROR
      else if bool_decide (e = ErrParameter) then UNMARSHAL_MSG_BODY_ERROR
      else UNKNOW_ERROR
  end.

Section NetEvent.
Context {P : Type} `{MempoolOps P}.
Notation St := (State P).

(** ** Readers *)

Inductive BlockStatus := BLOCK_NOEXIST | BLOCK_TRUNK | BLOCK_BRANCH.
Record BlockInfo := mkInfo { bi_Status : BlockStatus; bi_Block : option InternalBlock }.

Definition info_of (block : InternalBlock) (content : bool) : BlockInfo :=
  mkInfo (if InTrunk block then BLOCK_TRUNK else BLOCK_BRANCH) (if content then Some block else None).

(** [QueryBlockHeaderByHeight]: a height above the trunk is no error. *)
Definition reader_QueryBlockHeaderByHeight (height : Z) : M St BlockInfo :=
  let! r := mtry (on_ledger (Ledger.QueryBlockHeaderByHeight height)) in
  match r with
  | inl block => mpure (info_of block true)
  | inr e => if bool_decide (e = ErrBlockNotExist) then mpure (mkInfo BLOCK_NOEXIST None) else mfail ErrNoBlock
  end.

Definition reader_QueryBlock (blkId : string) (needContent : bool) : M St BlockInfo :=
  let! r := mtry (on_ledger (QueryBlock blkId)) in
  match r with
  | inl block => mpure (info_of block needContent)
  | inr _ => mfail ErrNoBlock
  end.

(** [QueryTx], the transaction of what it returns: the ledger first, then the
    unconfirmed ones; a transaction whose block is missing is none. *)
Definition reader_QueryTx (txId : string) : M St Transaction :=
  let! r := mtry (on_ledger (QueryTransaction txId)) in
  match r with
  | inl tx => do! (let! b := mtry (on_ledger (Ledger.QueryBlockHeader (TxBlockid tx))) in
                   match b with inl _ => mpure tt | inr _ => mfail ErrNoBlock end) in mpure tx
  | inr e =>
      if bool_decide (e = ErrTxNotFound) then
        let! u := mtry (on_xmodel (XModel.queryTx txId)) in
        match u with inl (tx, _) => mpure tx | inr _ => mfail ErrTxNotExist end
      else mfail ErrTxNotExist
  end.

Record ChainStatus := mkChainStatus { cs_LedgerMeta : option LedgerMeta; cs_Block : option InternalBlock; cs_BranchIds : list string }.
Definition no_status : ChainStatus := mkChainStatus None None [].

(** [GetChainStatus]; the branch identifiers stay unprinted. *)
Definition GetChainStatus : M St ChainStatus := fun s =>
  let m := meta (ledger (xmodel s)) in
  match GetBranchInfo "0" 0 (ledger (xmodel s)) with
  | Panic => (Panic, s)
  | Err _ => (Err ErrChainStatus, s)
  | Ret branchIds =>
      (let! b := mtry (on_ledger (QueryBlock (TipBlockid m))) in
       match b with
       | inl block => mpure (mkChainStatus (Some m) (Some block) branchIds)
       | inr _ => mfail ErrNoBlock
       end) s
  end.

(** ** Handlers with an answer *)

Definition answer {A} (bcName : string) (err : option string) (output : A) : Message A := mkMsg "" bcName (ErrorType err) (Some output).

(** The answer to a handler's result; an error keeps the empty output. *)
Definition respond {A} (bcName : string) (empty : A) (c : M St A) : M St (Message A) :=
  let! r := mtry c in
  mpure (match r with inl output => answer bcName None output | inr e => answer bcName (Some e) empty end).

(** The header of one height with the first transaction of its block; [None] when
    there is no such height.  The index panics on a block that counts
    transactions and has no tree. *)
Definition header_at (height : Z) : M St (option InternalBlock) :=
  let! blkInfo := reader_QueryBlockHeaderByHeight height in
  match bi_Status blkInfo, bi_Block blkInfo with
  | BLOCK_NOEXIST, _ => mpure None
  | _, None => mpanic
  | _, Some block =>
      if (0 <? TxCount block)%Z then
        match MerkleTree block with
        | [] => mpanic
        | txid :: _ =>
            let! coinbaseTx := mtry (reader_QueryTx (default "" txid)) in
            mpure (Some (match coinbaseTx with
                         | inl tx => set_block block (Height block) (InTrunk block) (NextHash block) [tx]
                         | inr _ => block
                         end))
        end
      else mpure (Some block)
  end.

(** The goroutines of the heights, one after the other. *)
Fixpoint headers_from (height : Z) (n : nat) : M St (list (option InternalBlock)) :=
  match n with
  | O => mpure []
  | S n => let! b := header_at height in let! bs := headers_from (add64 height 1) n in mpure (b :: bs)
  end.

(** [blocks[:maxIdx+1]] *)
Fixpoint drop_missing {A} (l : list (option A)) : list (option A) :=
  match l with
  | [] => []
  | o :: l => match o, drop_missing l with None, [] => [] | _, l' => o :: l' end
  end.

(** A message with a hole cannot be encoded: it is sent without a body. *)
Definition whole {A} (l : list (option A)) : option (list A) := mapM id l.

(** [make] panics on a negative size. *)
Definition handleGetBlockHeaders (bcName : string) (input : option (Z * Z)) : M St (Message (list InternalBlock)) :=
  match input with
  | None => mpure (answer bcName (Some ErrParameter) [])
  | Some (height, size) =>
      if (height <? 0)%Z then mpure (answer bcName (Some "bad input height") [])
      else if (size <? 0)%Z then mpanic
      else
        let! r := mtry (headers_from height (Z.to_nat size)) in
        mpure (match r with
               | inl blocks => mkMsg "" bcName SUCCESS (whole (drop_missing blocks))
               | inr e => answer bcName (Some e) []
               end)
  end.

(** The transactions at the given places of a block; a place below zero panics. *)
Fixpoint txs_at (blockTxids : list (option string)) (idxs : list Z) : M St (list Transaction) :=
  match idxs with
  | [] => mpure []
  | idx :: idxs =>
      if! (Z.of_nat (length blockTxids) <=? idx)%Z fails "bad tx index" in
      if (idx <? 0)%Z then mpanic
      else
        match blockTxids !! Z.to_nat idx with
        | None => mpanic
        | Some txid =>
            let! tx := on_ledger (QueryTransaction (default "" txid)) in
            let! txs := txs_at blockTxids idxs in mpure (tx :: txs)
        end
  end.

Definition block_txs (blockid : string) (idxs : list Z) : M St (list Transaction) :=
  let! header := on_ledger (Ledger.QueryBlockHeader blockid) in
  if (TxCount header <? 0)%Z || (Z.of_nat (length (MerkleTree header)) <? TxCount header)%Z then mpanic
  else txs_at (take (Z.to_nat (TxCount header)) (MerkleTree header)) idxs.

(** After an error the transactions found so far stay in the answer, which its
    receiver does not read. *)
Definition handleGetBlockTxs (bcName : string) (input : option (string * list Z)) : M St (Message (list Transaction)) :=
  match input with
  | None => mpure (answer bcName (Some ErrParameter) [])
  | Some (blockid, idxs) =>
      if is_empty_string blockid || bool_decide (idxs = []) then mpure (answer bcName None [])
      else respond bcName [] (block_txs blockid idxs)
  end.

(** A nil answer is decoded as an empty one. *)
Definition handleGetChainStatus (bcName : string) : M St (Message ChainStatus) := respond bcName no_status GetChainStatus.

Definition handleConfirmChainStatus (bcName : string) (input : option string) : M St (Message bool) :=
  match input with
  | None => mpure (answer bcName (Some ErrParameter) false)
  | Some blockid =>
      respond bcName false
        (let! chainStatus := GetChainStatus in
         match cs_LedgerMeta chainStatus with
         | None => mpanic
         | Some m => mpure (bool_decide (blockid = TipBlockid m))
         end)
  end.

(** The block is read and its status answered; without content the log line after
    the query dereferences the missing block. *)
Definition handleGetBlock (bcName : string) (input : option (string * bool)) : M St (Message BlockInfo) :=
  match input with
  | None => mpure (answer bcName (Some ErrParameter) (mkInfo BLOCK_NOEXIST None))
  | Some (blockid, needContent) =>
      if is_empty_string blockid then mpure (answer bcName None (mkInfo BLOCK_NOEXIST None))
      else
        respond bcName (mkInfo BLOCK_NOEXIST None)
          (let! out := reader_QueryBlock blockid needContent in
           match bi_Block out with None => mpanic | Some _ => mpure out end)
  end.

(** ** Transactions from the network *)

Definition ErrTxNil : string := "validation error: validatePostTx TxStatus.Tx can't be null".
Definition ErrUnexpected : string := "this is a unexpected error".

Section Submit.
(** [State.VerifyTx]: its answer and its error. *)
Variable VerifyTx : Transaction -> M St (bool * option string).
Variable write_ok : St -> bool.
(** [GetNoFee] of the genesis configuration. *)
Variable NoFee : bool.

Definition DoTx (tx : Transaction) : M St unit :=
  if! Coinbase tx fails ErrUnexpected in
  if! negb (is_empty_string (TxBlockid tx)) fails ErrUnexpected in
  doTxSync write_ok tx.

(** The identifiers submitted before; the expiry of the cache is left to [forget]. *)
Record Chain := mkChain { ch_state : St; txIdCache : gset string }.
Definition forget (txid : string) (c : Chain) : Chain := mkChain (ch_state c) (txIdCache c ∖ {[txid]}).

Definition SubmitTx (tx : Transaction) : M Chain unit := fun c =>
  if is_empty_string (Txid tx) then (Err ErrParameter, c)
  else if bool_decide (TxInputs tx = []) && negb NoFee then (Err ErrTxNotEnough, c)
  else if bool_decide (Txid tx ∈ txIdCache c) then (Err ErrTxAlreadyExist, c)
  else
    let ids := {[Txid tx]} ∪ txIdCache c in
    match VerifyTx tx (ch_state c) with
    | (Panic, s) => (Panic, mkChain s ids)
    | (Err _, s) | (Ret (_, Some _), s) => (Err ErrTxVerifyFailed, mkChain s ids)
    | (Ret (_, None), s) =>
        match DoTx tx s with
        | (Ret _, s) => (Ret tt, mkChain s ids)
        | (Panic, s) => (Panic, mkChain s ids)
        | (Err e, s) =>
            let c := mkChain s ids in
            (Err ErrSubmitTxFailed, if bool_decide (e = ErrAlreadyInUnconfirmed) then forget (Txid tx) c else c)
        end
    end.

Definition PostTx (tx : Transaction) : M Chain unit :=
  if! is_empty_string (Txid tx) fails ErrTxNil in
  if! bool_decide (TxInputs tx = []) && negb NoFee fails ErrTxNotEnough in
  SubmitTx tx.

(** Whether the message is sent on. *)
Definition handlePostTx (input : option Transaction) : M Chain bool :=
  match input with
  | None => mpure false
  | Some tx => let! r := mtry (PostTx tx) in mpure (match r with inl _ => true | inr _ => false end)
  end.

(** A refused transaction ends the batch and nothing of it is sent on. *)
Fixpoint post_all (txs : list Transaction) : M Chain bool :=
  match txs with
  | [] => mpure true
  | tx :: txs => let! r := mtry (PostTx tx) in match r with inl _ => post_all txs | inr _ => mpure false end
  end.
Definition handleBatchPostTx (input : option (list Transaction)) : M Chain bool :=
  match input with None => mpure false | Some txs => post_all txs end.
End Submit.
End NetEvent.
