(* ===== verification/Miner.v ===== *)
(** * Producing and downloading blocks

    [kernel/engines/xuperos/miner]: [miner.go], the loop that makes a node a
    producer or a follower, packs, calculates and confirms its own blocks; and
    [sync.go], which asks other nodes for headers and transactions, chooses among
    their answers, confirms what they send and handles forks.  With them the award
    of [ledger/genesis.go] and the generated transactions of [tx/tx.go].

    The node is the state machine of [State], which holds the ledger; consensus is
    used through the class [ConsensusInterface] ([kernel/consensus]
    [consensus_interface.go]); the network, the clock and the caches of faulty peers
    and blocks (a library) are the class [Environment]. *)

From Stdlib Require Import ZArith Lia Floats.SpecFloat.
From stdpp Require Import base gmap strings list numbers sorting.
From S2P Require Import Prelude GoValues LruCache LedgerHash Ledger XModel Utxo SpinLock State Acl TxHash TxVerify Consensus NetEvent.

Set Default Proof Using "Type".

(** ** The award of a block *)

(** [math.Round], half away from zero, as an [int64]. *)
Definition float_round (f : float64) : Z :=
  match f with
  | S754_zero _ => 0
  | S754_infinity _ | S754_nan => int64_min
  | S754_finite s m e =>
      let n := if (0 <=? e)%Z then (Z.pos m * 2 ^ e)%Z else ((Z.pos m + 2 ^ (- e - 1)) / 2 ^ (- e))%Z in
      let n := if s then (- n)%Z else n in
      if bool_decide (is_int64 n) then n else int64_min
  end.

(** [awardCache] is keyed by the period. *)
Record GenesisBlock := mkGenesis { Award : Z; HeightGap : Z; Ratio : float64; awardCache : LRUCache Z Z }.

Definition decayed (award : Z) (ratio : float64) (period : Z) : Z :=
  float_round (Nat.iter (Z.to_nat period) (fun a => float_mul a ratio) (float_of_int (wrap64 award))).

Definition CalcAward (blockHeight : Z) (gb : GenesisBlock) : Z * GenesisBlock :=
  if (HeightGap gb =? 0)%Z then (Award gb, gb)
  else
    let period := quot64 blockHeight (HeightGap gb) in
    match Get (awardCache gb) period with
    | (Some award, c) => (award, mkGenesis (Award gb) (HeightGap gb) (Ratio gb) c)
    | (None, c) =>
        let award := decayed (Award gb) (Ratio gb) period in
        (award, mkGenesis (Award gb) (HeightGap gb) (Ratio gb) (Add c period award).2)
    end.

(** ** Generated transactions *)

Definition TxVersion : Z := 1.
Definition ErrNegativeAmount : string := "amount in transaction can not be negative number".
Definition unsigned (core : Transaction) (version : Z) (nonce : string) (timestamp : Z) : FullTx :=
  mkFullTx core version nonce timestamp [] "" [] [] [] None None.
Definition set_txid (tx : FullTx) (id : string) : FullTx :=
  let c := core tx in
  mkFullTx (mkTx id (TxBlockid c) (Coinbase c) (Autogen c) (Desc c) (TxInputs c) (TxOutputs c) (TxInputsExt c) (TxOutputsExt c) (ModifyBlock c))
    (tx_Version tx) (tx_Nonce tx) (tx_Timestamp tx) (ContractRequests tx) (tx_Initiator tx) (tx_AuthRequire tx) (InitiatorSigns tx)
    (AuthRequireSigns tx) (XuperSign tx) (tx_HDInfo tx).

Definition GenerateAwardTx (now : Z) (address : string) (amount : Z) (desc : string) : outcome FullTx :=
  if (amount <? 0)%Z then Err ErrNegativeAmount
  else
    let tx := unsigned (mkTx "" "" true false desc [] [mkTxOut (Bytes amount) address 0] [] [] None) TxVersion "" now in
    Ret (set_txid tx (MakeTransactionID tx)).

(** The transaction is marked as generated after its identifier is computed. *)
Definition GenerateEmptyTx (now : Z) (desc : string) : FullTx :=
  let tx autogen := unsigned (mkTx "" "" false autogen desc [] [] [] [] None) TxVersion "" now in
  set_txid (tx true) (MakeTransactionID (tx false)).

Definition GenerateAutoTxWithRWSets (now : Z) (nonce : string) (inputs : list TxInputExt) (outputs : list TxOutputExt) : FullTx :=
  let tx := unsigned (mkTx "" "" false true "" [] [] inputs outputs None) TxVersion nonce now in
  set_txid tx (MakeTransactionID tx).

(** ** What the miner uses *)

Class ConsensusInterface (N C : Type) := {
  co_CompeteMaster : N -> Z -> M C (bool * bool);
  co_CheckMinerMatch : N -> InternalBlock -> C -> (outcome bool * InternalBlock) * C;
  co_ProcessBeforeMiner : N -> Z -> Z -> M C (QCTree.bytes * option ConsensusStorage);
  co_CalculateBlock : N -> InternalBlock -> C -> (outcome unit * InternalBlock) * C;
  co_ProcessConfirmBlock : N -> InternalBlock -> M C unit;
  co_SwitchConsensus : N -> Z -> M C unit;
  (** [GetConsensusStatus().GetCurrentValidatorsInfo()], decoded. *)
  co_Validators : N -> C -> outcome (list string)
}.

(** The pool, as the miner reads it; a node of the pool may hold no transaction. *)
Class MempoolReader (P : Type) := {
  mr_GetTx : string -> P -> option (option Transaction);
  mr_GetUnconfirmedTx : Z -> P -> list Transaction
}.

(** One of the events [calculateBlock] waits for. *)
Inductive CalcEvent := calc_done | calc_tick.

(** A request names the peer it goes to, or none for the neighbours. *)
Class Environment (W : Type) := {
  env_status : list string -> M W (list (Message (option LedgerMeta)));
  env_headers : option string -> Z -> Z -> M W (list (Message (list InternalBlock)));
  env_txs : option string -> string -> list Z -> M W (list (Message (list Transaction)));
  env_now : W -> Z * W;
  (** The events until the result is there or the node stops. *)
  env_calc : W -> list CalcEvent * W;
  env_isExit : W -> bool * W;
  (** [faultBlockIdCache] and [faultPeerIdCache]; an increment fails on a key that is not there. *)
  faultBlock_Get : string -> W -> option string * W;
  faultBlock_Set : string -> string -> W -> W;
  faultPeer_Get : string -> W -> option Z * W;
  faultPeer_Set : string -> Z -> W -> W;
  faultPeer_Increment : string -> W -> bool * W
}.

Definition statusFollowing : Z := 0.
Definition statusMining : Z := 1.
Definition faultPeerIdCacheCount : Z := 2.
Definition batchBlockNumber : Z := 2.
Definition maxBatchBlockNumber : Z := 10.
Definition syncOnStatusChangeTimeout : Z := 60000000000.

(** ** Choosing among the answers *)

Record blockCount := mkCount { bc_Block : InternalBlock; Count : Z }.

Fixpoint updateBlock (blk : InternalBlock) (count : list blockCount) : list blockCount :=
  match count with
  | [] => [mkCount blk 1]
  | c :: count =>
      if bool_decide (Blockid (bc_Block c) = Blockid blk) then mkCount (bc_Block c) (Count c + 1) :: count else c :: updateBlock blk count
  end.

(** [sort.Slice] by falling count: some ordering of the list, not a stable one. *)
Class CountSort := sort_counts : list blockCount -> list blockCount.
Definition more_votes (a b : blockCount) : Prop := (Count b <= Count a)%Z.
Class CountSortLaws `{CountSort} := {
  sort_counts_perm l : sort_counts l ≡ₚ l;
  sort_counts_sorted l : StronglySorted more_votes (sort_counts l)
}.

Section Quorum.
Context `{CountSort}.

Definition quorumBlock (count : list blockCount) : option InternalBlock := bc_Block <$> head (sort_counts count).

(** The lists of the peers that answered with blocks. *)
Definition peer_blocks (responses : list (Message (list InternalBlock))) : list (list InternalBlock) :=
  omap (fun r => if bool_decide (ErrorTypeOf r = SUCCESS) then
                   match Body r with Some (b :: bs) => Some (b :: bs) | _ => None end
                 else None) responses.

Definition counted_at (peerBlocks : list (list InternalBlock)) (i : nat) : list blockCount :=
  foldl (fun count blocks => match blocks !! i with Some blk => updateBlock blk count | None => count end) [] peerBlocks.

Fixpoint quorum_from (peerBlocks : list (list InternalBlock)) (i n : nat) : list InternalBlock :=
  match n with
  | O => []
  | S n => match quorumBlock (counted_at peerBlocks i) with None => [] | Some blk => blk :: quorum_from peerBlocks (S i) n end
  end.

Definition quorumBlocks (responses : list (Message (list InternalBlock))) (blockAmount : Z) : list InternalBlock :=
  quorum_from (peer_blocks responses) 0 (Z.to_nat blockAmount).
End Quorum.

Section Miner.
Context {P : Type} `{MempoolOps P} `{MempoolReader P}.
Notation St := (State P).
Context {C : Type} `{ConsensusInterface St C} {W : Type} `{Environment W} `{CountSort}.

Record Miner := mkMiner { status : Z; node : St; cons : C; world : W; genesis : GenesisBlock }.
Definition set_status (v : Z) (t : Miner) : Miner := mkMiner v (node t) (cons t) (world t) (genesis t).
Definition set_node (t : Miner) (v : St) : Miner := mkMiner (status t) v (cons t) (world t) (genesis t).
Definition set_world (t : Miner) (v : W) : Miner := mkMiner (status t) (node t) (cons t) v (genesis t).

Definition on_node {A} (c : M St A) : M Miner A := fun t => let (o, s) := c (node t) in (o, set_node t s).
Definition on_world {A} (c : M W A) : M Miner A := fun t => let (o, w) := c (world t) in (o, set_world t w).
Definition observe {A} (c : W -> A * W) : M Miner A := on_world (fun w => let (a, w) := c w in (Ret a, w)).
Definition effect (f : W -> W) : M Miner unit := on_world (fun w => (Ret tt, f w)).
Definition on_cons {A} (c : St -> M C A) : M Miner A := fun t =>
  let (o, k) := c (node t) (cons t) in (o, mkMiner (status t) (node t) k (world t) (genesis t)).
(** A call of the consensus that changes the block it is given. *)
Definition on_block {A} (c : St -> InternalBlock -> C -> (outcome A * InternalBlock) * C) (block : InternalBlock) : M Miner (outcome A * InternalBlock) := fun t =>
  let '(o, b, k) := c (node t) block (cons t) in (Ret (o, b), mkMiner (status t) (node t) k (world t) (genesis t)).
Definition ask {A} (f : St -> A) : M Miner A := fun t => (Ret (f (node t)), t).
Definition tipOf (s : St) : LedgerMeta := meta (ledger (xmodel s)).

(** [err] is logged and forgotten. *)
Definition ignore {A} (c : M Miner A) : M Miner unit := let! r := mtry c in mpure tt.
(** Another text for the errors of a call. *)
Definition failing {A} (e : string) (c : M Miner A) : M Miner A :=
  let! r := mtry c in match r with inl a => mpure a | inr _ => mfail e end.

(** The cryptography of a block, the disk, the checks of the state machine, the
    fuel of its loops, and the message a transaction is part of. *)
Context {SK PK : Type}.
Variable GetEcdsaPublicKeyJsonFormatStr : SK -> outcome string.
Variable GetEcdsaPublicKeyFromJsonStr : string -> outcome PK.
Variable VerifyAddressUsingPublicKey : string -> PK -> bool.
Variable SignECDSA : SK -> string -> outcome string.
Variable VerifyECDSA : PK -> string -> string -> outcome bool.
Variable ImmediateVerifyTx : Transaction -> bool -> St -> bool.
Variable ImmediateVerifyAutoTx : Z -> Transaction -> bool -> St -> bool.
Variable verifyBlockTxs : InternalBlock -> bool -> gset string -> M St unit.
Variable write_ok : St -> bool.
Variable genesis_decodes : string -> bool.
Variable message : Transaction -> FullTx.
Variable address : string.
Variable privateKey : SK.
Variable fuel : nat.

Notation VerifyBlock := (LedgerHash.VerifyBlock GetEcdsaPublicKeyFromJsonStr VerifyAddressUsingPublicKey VerifyECDSA).

(** [Walk] with the replay of the transactions it took back, which the code runs in
    the background. *)
Definition walk_to (blockid : string) : M St unit :=
  let! undoList := Walk ImmediateVerifyTx ImmediateVerifyAutoTx write_ok fuel blockid false in
  do! mtry (recoverUnconfirmedTx ImmediateVerifyTx write_ok undoList) in mpure tt.

Definition ledger_Confirm (block : InternalBlock) : M St (ConfirmStatus * option InternalBlock) := fun s =>
  on_ledger (ConfirmBlock genesis_decodes fuel (write_ok s) block false) s.

Definition truncateForMiner (target : string) : M Miner unit :=
  do! on_node (on_ledger (Ledger.QueryBlockHeader target)) in
  do! on_node (walk_to target) in
  on_node (fun s => on_ledger (Truncate fuel (write_ok s) target) s).

(** ** Confirming downloaded blocks *)

(** One block; [false] is [ErrHashMissMatch]. *)
Definition confirm_block (block : InternalBlock) : M Miner bool :=
  if! negb (VerifyBlock block) fails "the verification of block failed from ledger" in
  let! tip := ask tipOf in
  if negb (bool_decide (TipBlockid tip = PreHash block)) then mpure false
  else
    let! r := on_block co_CheckMinerMatch block in
    let '(isMatch, block) := (r : outcome bool * InternalBlock) in
    match isMatch with
    | Panic => mpanic
    | Err _ | Ret false => mfail "consensus check miner match failed"
    | Ret true =>
        let! st := on_node (ledger_Confirm block) in
        match st with
        | (status, Some block) =>
            if! negb (Succ status) fails "ledger confirm block failed" in
            do! ignore (on_node (PlayAndRepost verifyBlockTxs write_ok (Blockid block) false)) in
            do! failing "consensus process confirm block failed" (on_cons (fun s => co_ProcessConfirmBlock s block)) in
            do! ignore (on_cons (fun s => co_SwitchConsensus s (Height block))) in
            mpure true
        | (_, None) => mfail "ledger confirm block failed"
        end
    end.

Fixpoint batchConfirmBlocks (blocks : list InternalBlock) : M Miner bool :=
  match blocks with
  | [] => mpure true
  | block :: blocks => let! ok := confirm_block block in if ok then batchConfirmBlocks blocks else mpure false
  end.

(** ** Asking other nodes *)

Definition first_txs (responses : list (Message (list Transaction))) : list Transaction :=
  default [] (head (omap (fun r => if bool_decide (ErrorTypeOf r = SUCCESS) then
                                     match Body r with Some (tx :: txs) => Some (tx :: txs) | _ => None end
                                   else None) responses)).

Definition id_matches (tx : Transaction) : bool := bool_decide (MakeTransactionID (message tx) = Txid tx).

Definition downloadMissingTxs (peer : option string) (blockid : string) (txidx : list Z) : M Miner (list Transaction) :=
  match txidx with
  | [] => mpure []
  | _ =>
      let! responses := on_world (env_txs peer blockid txidx) in
      let txs := first_txs responses in
      if! bool_decide (txs = []) fails "get block txs no response" in
      if! negb (forallb id_matches txs) fails "bad tx id" in
      mpure txs
  end.

(** The transactions the node has: the first one as sent with the header, the
    others from the pool; [None] for a missing one, a nil one inside. *)
Definition own_tx (s : St) (txid : option string) : option (option Transaction) := mr_GetTx (default "" txid) (Mempool s).

Definition own_txs (s : St) (txids : list (option string)) (given : list Transaction) : list (option (option Transaction)) :=
  match txids, given with
  | _ :: txids, tx :: _ => Some (Some tx) :: (own_tx s <$> txids)
  | _, _ => own_tx s <$> txids
  end.

Fixpoint missing_from {A} (i : Z) (l : list (option A)) : list Z :=
  match l with
  | [] => []
  | o :: l => match o with Some _ => missing_from (i + 1) l | None => i :: missing_from (i + 1) l end
  end.

(** The downloaded transactions in the places of the missing ones; too few of them panic. *)
Fixpoint fill (txids : list (option string)) (own : list (option (option Transaction))) (missing : list Transaction) : outcome (list (option Transaction)) :=
  match txids, own with
  | id :: txids, Some tx :: own => outcome_bind (fill txids own missing) (fun txs => Ret (tx :: txs))
  | id :: txids, None :: own =>
      match missing with
      | [] => Panic
      | tx :: missing =>
          if bool_decide (default "" id = Txid tx) then outcome_bind (fill txids own missing) (fun txs => Ret (Some tx :: txs))
          else Err "download tx error"
      end
  | _, _ => Ret []
  end.

(** A header that sends a transaction and counts none panics; so does a nil
    transaction, when the Merkle tree is made. *)
Definition fillBlockTxs (peer : option string) (block : InternalBlock) : M Miner InternalBlock :=
  if (TxCount block <? 0)%Z || (Z.of_nat (length (MerkleTree block)) <? TxCount block)%Z then mpanic
  else
    let txids := take (Z.to_nat (TxCount block)) (MerkleTree block) in
    if bool_decide (txids = []) && negb (bool_decide (Transactions block = [])) then mpanic
    else
      let! own := ask (fun s => own_txs s txids (Transactions block)) in
      let! missing := downloadMissingTxs peer (Blockid block) (missing_from 0 own) in
      let! txs := mlift (fill txids own missing) in
      match mapM id txs with
      | None => mpanic
      | Some txs => mpure (set_block block (Height block) (InTrunk block) (NextHash block) txs)
      end.

Fixpoint fill_blocks (peer : option string) (blocks : list InternalBlock) : M Miner (list InternalBlock) :=
  match blocks with
  | [] => mpure []
  | block :: blocks => let! b := fillBlockTxs peer block in let! bs := fill_blocks peer blocks in mpure (b :: bs)
  end.

(** [None] is [ErrNoNewBlock]. *)
Definition getBlocksByHeight (peer : option string) (height size : Z) : M Miner (option (list InternalBlock)) :=
  let size := if (maxBatchBlockNumber <? size)%Z then maxBatchBlockNumber else size in
  let! responses := on_world (env_headers peer height size) in
  let blocks := quorumBlocks responses size in
  if! negb (forallb (fun blk => bool_decide (MakeBlockID blk = Blockid blk)) blocks) fails "bad block id" in
  match blocks with
  | [] => mpure None
  | _ => let! blocks := fill_blocks peer blocks in mpure (Some blocks)
  end.

(** ** Forks *)

(** From the block below the tip down; the genesis block is the last one asked for. *)
Fixpoint find_fork (n : nat) (peer : option string) (height : Z) : M Miner InternalBlock :=
  match n with
  | O => mpanic
  | S n =>
      if! (height =? 0)%Z fails "block diff at genesis block" in
      let height := sub64 height 1 in
      let! currentBlk := on_node (on_ledger (Ledger.QueryBlockHeaderByHeight height)) in
      let! responses := on_world (env_headers peer height 1) in
      match quorumBlocks responses 1 with
      | [] => mfail "query block header with no response"
      | blk :: _ => if bool_decide (Blockid currentBlk = Blockid blk) then mpure currentBlk else find_fork n peer height
      end
  end.

Definition findForkPoint (peer : option string) : M Miner InternalBlock :=
  let! m := ask tipOf in find_fork (S (Z.to_nat (TrunkHeight m))) peer (TrunkHeight m).

Definition handleFork (peer : option string) : M Miner unit :=
  let! forkPoint := findForkPoint peer in truncateForMiner (Blockid forkPoint).

(** ** Synchronising *)

Definition syncBlockWithHeight (peer : option string) (height size : Z) : M Miner Z :=
  let! r := getBlocksByHeight peer height size in
  match r with
  | None => mpure 0%Z
  | Some blocks =>
      let! ok := batchConfirmBlocks blocks in
      do! (if ok then mpure tt else handleFork peer) in
      mpure (Z.of_nat (length blocks))
  end.

(** [n] bounds the turns. *)
Fixpoint syncWithNeighbors (n : nat) : M Miner unit :=
  match n with
  | O => mpanic
  | S n =>
      let! m := ask tipOf in
      let! size := syncBlockWithHeight None (add64 (TrunkHeight m) 1) batchBlockNumber in
      if (size <=? 0)%Z then mpure tt else syncWithNeighbors n
  end.

(** The validators without the first that is [excludeAddr]. *)
Fixpoint without_first (addr : string) (l : list string) : list string :=
  match l with [] => [] | a :: l => if bool_decide (a = addr) then l else a :: without_first addr l end.

Definition getValidators (excludeAddr : string) : M Miner (list string) := fun t =>
  match co_Validators (node t) (cons t) with
  | Ret [] => (Err "empty miners", t)
  | Ret validators => (Ret (if is_empty_string excludeAddr then validators else without_first excludeAddr validators), t)
  | Err e => (Err e, t)
  | Panic => (Panic, t)
  end.

Definition blame (peer : string) : M Miner unit :=
  let! found := observe (faultPeer_Increment peer) in
  if found then mpure tt else effect (faultPeer_Set peer 1).

(** Whether the status of a peer counts: its tip was not found faulty, and it has
    not been blamed too often. *)
Definition trusted (from tip : string) : M Miner bool :=
  let! hit := observe (faultBlock_Get tip) in
  match hit with
  | Some curPeerId =>
      do! (if bool_decide (curPeerId = from) then mpure tt else effect (faultBlock_Set tip from)) in
      do! blame from in mpure false
  | None =>
      let! count := observe (faultPeer_Get from) in
      mpure (match count with Some count => negb (faultPeerIdCacheCount <=? count)%Z | None => true end)
  end.

(** A status without meta data panics. *)
Fixpoint max_height (responses : list (Message (option LedgerMeta))) (best : string * Z * string) : M Miner (string * Z * string) :=
  match responses with
  | [] => mpure best
  | r :: responses =>
      match Body r with
      | None => max_height responses best
      | Some None => mpanic
      | Some (Some m) =>
          if (best.1.2 <? TrunkHeight m)%Z then
            let! ok := trusted (From r) (TipBlockid m) in
            max_height responses (if ok then (From r, TrunkHeight m, TipBlockid m) else best)
          else max_height responses best
      end
  end.

Definition getMaxBlockHeight : M Miner (string * Z * string) :=
  let! validators := getValidators address in
  match validators with
  | [] => mpure ("", 0%Z, "")
  | _ => let! responses := on_world (env_status validators) in max_height responses ("", 0%Z, "")
  end.

Definition syncWithLongestChain : M Miner Z :=
  let! m := ask tipOf in
  let currentHeight := TrunkHeight m in
  let! best := getMaxBlockHeight in
  let '(peer, maxHeight, blockId) := (best : string * Z * string) in
  if (maxHeight =? 0)%Z || (maxHeight <=? currentHeight)%Z then mpure 0%Z
  else
    let! r := mtry (syncBlockWithHeight (Some peer) (add64 currentHeight 1) (sub64 maxHeight currentHeight)) in
    match r with
    | inl realSize => mpure realSize
    | inr e => do! effect (faultBlock_Set blockId peer) in do! blame peer in mfail e
    end.

(** Until the deadline; [n] bounds the turns. *)
Fixpoint sync_until (n : nat) (deadline : Z) : M Miner unit :=
  match n with
  | O => mpanic
  | S n =>
      let! now := observe env_now in
      if! negb (now <? deadline)%Z fails "syncUpValidators timeout" in
      let! r := mtry syncWithLongestChain in
      match r with
      | inr _ => sync_until n deadline
      | inl size => if (size =? 0)%Z then mpure tt else sync_until n deadline
      end
  end.
Definition syncWithValidators (timeout : Z) : M Miner unit :=
  let! now := observe env_now in sync_until fuel (now + timeout)%Z.

(** ** Producing a block *)

(** [State.GetTimerTx], a run of the timer contract; [proto.Size];
    [State.MaxTxSizePerBlock]. *)
Variable GetTimerTx : Z -> M St (option Transaction).
Variable tx_size : Transaction -> Z.
Variable MaxTxSizePerBlock : St -> outcome Z.

Definition ErrGenerateTimerTxFailed : string := "Err:500-50405-generate timer tx failed".

Definition getTimerTx (height : Z) : M Miner (option Transaction) := failing ErrGenerateTimerTxFailed (on_node (GetTimerTx height)).

Definition getAwardTx (height : Z) : M Miner Transaction := fun t =>
  let (amount, gb) := CalcAward height (genesis t) in
  let t := mkMiner (status t) (node t) (cons t) (world t) gb in
  if (amount <? 0)%Z then (Err ErrNegativeAmount, t)
  else (let! now := observe env_now in let! tx := mlift (GenerateAwardTx now address amount "award") in mpure (core tx)) t.

(** An empty document is the zero storage. *)
Definition convertConsData (data : option ConsensusStorage) : ConsensusStorage := default (mkStorage None 0 0 0) data.

(** A nil timer transaction panics. *)
Definition packBlock (height now : Z) (consData : option ConsensusStorage) : M Miner InternalBlock :=
  let! sizeLimit := (fun t => (MaxTxSizePerBlock (node t), t)) in
  let! autoTx := getTimerTx height in
  match autoTx with
  | None => mpanic
  | Some autoTx =>
      let writes := negb (bool_decide (TxOutputsExt autoTx = [])) in
      let sizeLimit := if writes then (sizeLimit - tx_size autoTx)%Z else sizeLimit in
      let! generalTxList := ask (fun s => mr_GetUnconfirmedTx sizeLimit (Mempool s)) in
      let! awardTx := getAwardTx height in
      let txList := awardTx :: (if writes then [autoTx] else []) ++ generalTxList in
      let consInfo := convertConsData consData in
      let! preHash := ask latestBlockid in
      mlift (formatBlock GetEcdsaPublicKeyJsonFormatStr SignECDSA txList address privateKey now (cs_CurTerm consInfo) (cs_CurBlockNum consInfo)
               preHash (cs_TargetBits consInfo) true (cs_Justify consInfo) None height)
  end.

(** [None] is [errCalculateBlockInterrupt].  The blocks the neighbours have are
    downloaded at every tick. *)
Fixpoint calc_loop (events : list CalcEvent) (block : InternalBlock) : M Miner (option InternalBlock) :=
  match events with
  | [] => mfail "miner already exit"
  | calc_done :: _ =>
      let! r := on_block co_CalculateBlock block in
      let '(o, block) := (r : outcome unit * InternalBlock) in
      do! mlift o in mpure (Some block)
  | calc_tick :: events =>
      do! ignore (syncWithNeighbors fuel) in
      let! m := ask tipOf in
      if (Height block <=? TrunkHeight m)%Z then mpure None else calc_loop events block
  end.
Definition calculateBlock (block : InternalBlock) : M Miner (option InternalBlock) :=
  let! events := observe env_calc in calc_loop events block.

Definition confirmBlockForMiner (block : InternalBlock) : M Miner unit :=
  let! tip := ask tipOf in
  if! negb (bool_decide (PreHash block = TipBlockid tip)) fails "confirm block prehash mismatch" in
  let! st := on_node (ledger_Confirm block) in
  match st with
  | (status, Some block) =>
      if! negb (Succ status) fails "ledger confirm block error" in
      if Orphan status then mpure tt
      else
        do! ignore (on_node (PlayForMiner write_ok (Blockid block))) in
        on_cons (fun s => co_ProcessConfirmBlock s block)
  | (_, None) => mfail "ledger confirm block error"
  end.

Definition mining : M Miner unit :=
  let! m := ask tipOf in
  let! now := observe env_now in
  let! before := failing "consensus process before miner failed" (on_cons (fun s => co_ProcessBeforeMiner s (add64 (TrunkHeight m) 1) now)) in
  let '(truncateTarget, extData) := (before : QCTree.bytes * option ConsensusStorage) in
  do! (match truncateTarget with Some target => truncateForMiner target | None => mpure tt end) in
  let! m := ask tipOf in
  let height := add64 (TrunkHeight m) 1 in
  let! block := packBlock height now extData in
  let! r := failing "consensus calculate block failed" (calculateBlock block) in
  match r with
  | None => mpure tt
  | Some block =>
      do! confirmBlockForMiner block in
      ignore (on_cons (fun s => co_SwitchConsensus s (Height block)))
  end.

(** ** The loop of the node *)

Definition step : M Miner unit :=
  let! m := ask tipOf in
  let! stateTipId := ask latestBlockid in
  do! (if bool_decide (TipBlockid m = stateTipId) then mpure tt else on_node (walk_to (TipBlockid m))) in
  let! following := (fun t => (Ret (status t =? statusFollowing)%Z, t)) in
  do! (if following then ignore (syncWithValidators syncOnStatusChangeTimeout) else mpure tt) in
  let! r := on_cons (fun s => co_CompeteMaster s (add64 (TrunkHeight m) 1)) in
  let '(isMiner, isSync) := (r : bool * bool) in
  if isMiner then
    let! grown := (if following || isSync then
                     do! syncWithValidators syncOnStatusChangeTimeout in
                     let! m' := ask tipOf in mpure (negb (TrunkHeight m =? TrunkHeight m')%Z)
                   else mpure false) in
    if grown then mpure tt
    else do! (fun t => (Ret tt, set_status statusMining t)) in mining
  else
    do! (fun t => (Ret tt, set_status statusFollowing t)) in
    syncWithNeighbors fuel.

(** [Start]: at most [n] turns of the loop. *)
Fixpoint run_steps (n : nat) : M Miner unit :=
  match n with
  | O => mpure tt
  | S n => let! stop := observe env_isExit in if stop then mpure tt else do! ignore step in run_steps n
  end.
Definition Start (n : nat) : M Miner unit :=
  do! (fun t => (Ret tt, set_status statusFollowing t)) in
  do! ignore (syncWithNeighbors fuel) in run_steps n.
End Miner.
