(* ===== verification/MinerQuorum.v ===== *)
(** * What the answers of the peers amount to

    [quorumBlocks] of [miner/sync.go]: at each position the block that most peers
    sent.  The votes of a block are the peers that answered with it there. *)

From Stdlib Require Import ZArith Lia.
From stdpp Require Import base gmap strings list numbers sorting.
From S2P Require Import Prelude GoValues LedgerHash NetEvent Miner.

Set Default Proof Using "Type".

(** The peers whose block at position [i] has the identifier [id]. *)
Definition votes (peerBlocks : list (list InternalBlock)) (i : nat) (id : string) : Z :=
  Z.of_nat (length (filter (fun bs => Blockid <$> bs !! i = Some id) peerBlocks)).

Lemma votes_cons bs peerBlocks i id :
  votes (bs :: peerBlocks) i id = ((if bool_decide (Blockid <$> bs !! i = Some id) then 1 else 0) + votes peerBlocks i id)%Z.
Proof. unfold votes. rewrite filter_cons. case_decide; case_bool_decide; try done; cbn [length]; lia. Qed.

Lemma votes_app l l' i id : votes (l ++ l') i id = (votes l i id + votes l' i id)%Z.
Proof. unfold votes. rewrite filter_app, length_app. lia. Qed.

(** ** Counting *)

(** A table that counts [done]: distinct blocks, each sent by a peer, with its votes. *)
Record counts (done : list (list InternalBlock)) (i : nat) (table : list blockCount) : Prop := {
  ct_distinct : NoDup ((Blockid ∘ bc_Block) <$> table);
  ct_votes c : c ∈ table -> Count c = votes done i (Blockid (bc_Block c)) /\ exists bs, bs ∈ done /\ bs !! i = Some (bc_Block c);
  ct_all bs b : bs ∈ done -> bs !! i = Some b -> Blockid b ∈ (Blockid ∘ bc_Block) <$> table
}.

Lemma updateBlock_ids blk table :
  (Blockid ∘ bc_Block) <$> updateBlock blk table =
  if bool_decide (Blockid blk ∈ (Blockid ∘ bc_Block) <$> table) then (Blockid ∘ bc_Block) <$> table else ((Blockid ∘ bc_Block) <$> table) ++ [Blockid blk].
Proof.
  induction table as [|c table IH]; [done|]. cbn [updateBlock].
  destruct (decide (Blockid (bc_Block c) = Blockid blk)) as [E|E]; [rewrite (bool_decide_eq_true_2 (Blockid (bc_Block c) = _)) by done|rewrite (bool_decide_eq_false_2 (Blockid (bc_Block c) = _)) by done].
  - rewrite bool_decide_eq_true_2; [done|]. cbn. rewrite <- E. apply list_elem_of_here.
  - rewrite !fmap_cons, IH. change ((Blockid ∘ bc_Block) c) with (Blockid (bc_Block c)).
    destruct (decide (Blockid blk ∈ (Blockid ∘ bc_Block) <$> table)) as [Hi|Hi].
    + rewrite !bool_decide_eq_true_2 by (done || by right). done.
    + rewrite !bool_decide_eq_false_2 by (done || by intros [E2|E2]%elem_of_cons; congruence). done.
Qed.

Lemma updateBlock_in blk table c : c ∈ updateBlock blk table -> NoDup ((Blockid ∘ bc_Block) <$> table) ->
  (c ∈ table /\ Blockid (bc_Block c) <> Blockid blk) \/
  (exists c0, c0 ∈ table /\ Blockid (bc_Block c0) = Blockid blk /\ c = mkCount (bc_Block c0) (Count c0 + 1)) \/
  (Blockid blk ∉ (Blockid ∘ bc_Block) <$> table /\ c = mkCount blk 1).
Proof.
  induction table as [|c0 table IH]; cbn [updateBlock].
  - intros ->%list_elem_of_singleton _. right. right. split; [apply not_elem_of_nil|done].
  - case_bool_decide as E; intros Hc Hnd; apply elem_of_cons in Hc as [->|Hc]; cbn in Hnd; apply NoDup_cons in Hnd as [Hn Hnd].
    + right. left. exists c0. by split_and!; [left| |].
    + left. split; [by right|]. intros E2. apply Hn. cbn. rewrite E, <- E2. apply list_elem_of_fmap. by exists c.
    + left. split; [by left|done].
    + destruct (IH Hc Hnd) as [(Hi & Hne)|[(c1 & Hi & E1 & ->)|(Hni & ->)]].
      * left. split; [by right|done].
      * right. left. exists c1. by split_and!; [right| |].
      * right. right. split; [|done]. cbn. intros [E1|E1]%elem_of_cons; [by apply E|by apply Hni].
Qed.

Lemma votes_absent done i table id : counts done i table -> id ∉ (Blockid ∘ bc_Block) <$> table -> votes done i id = 0%Z.
Proof.
  intros [_ _ Hall] Hid. unfold votes. destruct (filter _ done) as [|bs l] eqn:E; [done|].
  assert (bs ∈ filter (fun bs => Blockid <$> bs !! i = Some id) done) as Hin by (rewrite E; left). apply list_elem_of_filter in Hin as [Hbs Hin].
  destruct (bs !! i) as [b|] eqn:Eb; [|done]. injection Hbs as <-. by destruct Hid; eapply Hall.
Qed.

Lemma counts_step done i table bs : counts done i table ->
  counts (done ++ [bs]) i (match bs !! i with Some blk => updateBlock blk table | None => table end).
Proof.
  intros Hc. pose proof Hc as [Hnd Hv Hall].
  assert (forall id, votes (done ++ [bs]) i id = votes done i id + (if bool_decide (Blockid <$> bs !! i = Some id) then 1 else 0))%Z as Hvs.
  { intros id. rewrite votes_app, votes_cons. change (votes [] i id) with 0%Z. lia. }
  destruct (bs !! i) as [blk|] eqn:Eb; cbn [fmap option_fmap option_map] in Hvs.
  - split.
    + rewrite updateBlock_ids. case_bool_decide; [done|]. apply NoDup_app. split_and!; [done| |apply NoDup_singleton].
      intros x Hx ->%list_elem_of_singleton. done.
    + intros c Hin. rewrite Hvs. destruct (updateBlock_in _ _ _ Hin Hnd) as [(Hi & Hne)|[(c0 & Hi & E0 & ->)|(Hni & ->)]].
      * destruct (Hv _ Hi) as (E & bs' & Hb & Eb'). rewrite E, bool_decide_eq_false_2 by congruence. split; [lia|]. exists bs'. split; [apply elem_of_app; by left|done].
      * destruct (Hv _ Hi) as (E & bs' & Hb & Eb'). cbn. rewrite E, E0, bool_decide_eq_true_2 by done. split; [done|]. exists bs'. split; [apply elem_of_app; by left|done].
      * cbn. rewrite (votes_absent _ _ _ _ Hc Hni), bool_decide_eq_true_2 by done. split; [done|]. exists bs. split; [apply elem_of_app; right; left|done].
    + intros bs' b Hin Hb. rewrite updateBlock_ids. apply elem_of_app in Hin as [Hin| ->%list_elem_of_singleton].
      * pose proof (Hall _ _ Hin Hb). case_bool_decide; [done|]. apply elem_of_app. by left.
      * rewrite Eb in Hb. injection Hb as ->. case_bool_decide; [done|]. apply elem_of_app. right. left.
  - split; [done| |].
    + intros c Hin. destruct (Hv _ Hin) as (E & bs' & Hb & Eb'). rewrite Hvs, bool_decide_eq_false_2 by done. split; [rewrite E; lia|]. exists bs'. split; [apply elem_of_app; by left|done].
    + intros bs' b Hin Hb. apply elem_of_app in Hin as [Hin| ->%list_elem_of_singleton]; [by eapply Hall|congruence].
Qed.

Lemma counted_counts peerBlocks i : counts peerBlocks i (counted_at peerBlocks i).
Proof.
  unfold counted_at. assert (forall l done table, counts done i table ->
    counts (done ++ l) i (foldl (fun count blocks => match blocks !! i with Some blk => updateBlock blk count | None => count end) table l)) as Hgen.
  { induction l as [|bs l IH]; intros done table Hc; [by rewrite app_nil_r|]. cbn [foldl].
    change (bs :: l) with ([bs] ++ l). rewrite app_assoc. apply IH. by apply counts_step. }
  apply (Hgen peerBlocks [] []). split; [apply NoDup_nil_2|intros c Hc; by apply not_elem_of_nil in Hc|intros bs b Hb; by apply not_elem_of_nil in Hb].
Qed.

(** ** The block that is chosen *)

Section Quorum.
Context {CS : CountSort} {CL : CountSortLaws}.
Local Set Default Proof Using "All".

Lemma quorumBlock_spec peerBlocks i blk : quorumBlock (counted_at peerBlocks i) = Some blk ->
  (exists bs, bs ∈ peerBlocks /\ bs !! i = Some blk) /\
  forall bs b, bs ∈ peerBlocks -> bs !! i = Some b -> (votes peerBlocks i (Blockid b) <= votes peerBlocks i (Blockid blk))%Z.
Proof.
  unfold quorumBlock. destruct (counted_counts peerBlocks i) as [Hnd Hv Hall].
  pose proof (sort_counts_perm (counted_at peerBlocks i)) as Hp. pose proof (sort_counts_sorted (counted_at peerBlocks i)) as Hs.
  destruct (sort_counts _) as [|c l]; [done|]. intros [= <-].
  assert (c ∈ counted_at peerBlocks i) as Hc by (rewrite <- Hp; left). destruct (Hv _ Hc) as (Ec & Hsent). split; [done|].
  intros bs b Hbs Hb. pose proof (Hall _ _ Hbs Hb) as (c' & -> & Hc')%list_elem_of_fmap. destruct (Hv _ Hc') as (Ec' & _). cbn. rewrite <- Ec, <- Ec'.
  rewrite <- Hp in Hc'. apply elem_of_cons in Hc' as [->|Hc']; [lia|]. apply StronglySorted_inv in Hs as [_ Hf]. rewrite Forall_forall in Hf. by apply Hf.
Qed.

Lemma quorumBlock_none peerBlocks i : quorumBlock (counted_at peerBlocks i) = None -> forall bs, bs ∈ peerBlocks -> bs !! i = None.
Proof.
  unfold quorumBlock. destruct (counted_counts peerBlocks i) as [_ _ Hall]. pose proof (sort_counts_perm (counted_at peerBlocks i)) as Hp.
  destruct (sort_counts _); [|done]. symmetry in Hp. apply Permutation_nil_r in Hp. intros _ bs Hbs. destruct (bs !! i) as [b|] eqn:E; [|done].
  pose proof (Hall _ _ Hbs E) as Hin. rewrite Hp in Hin. by apply not_elem_of_nil in Hin.
Qed.

Lemma quorum_from_lookup peerBlocks n : forall i j blk, quorum_from peerBlocks i n !! j = Some blk -> quorumBlock (counted_at peerBlocks (i + j)) = Some blk.
Proof.
  induction n as [|n IH]; intros i j blk; cbn [quorum_from]; [done|]. destruct (quorumBlock _) as [b|] eqn:E; [|done].
  destruct j as [|j]; cbn; [intros [= <-]; by rewrite Nat.add_0_r|]. intros Hj. apply IH in Hj. by rewrite Nat.add_succ_r.
Qed.

Lemma quorum_from_end peerBlocks n : forall i, length (quorum_from peerBlocks i n) = n \/
  (length (quorum_from peerBlocks i n) < n)%nat /\ forall bs, bs ∈ peerBlocks -> bs !! (i + length (quorum_from peerBlocks i n))%nat = None.
Proof.
  induction n as [|n IH]; intros i; cbn [quorum_from]; [by left|]. destruct (quorumBlock _) as [b|] eqn:E.
  - cbn [length]. destruct (IH (S i)) as [->|(Hl & Hn)]; [by left|]. right. split; [lia|]. intros bs Hbs. rewrite Nat.add_succ_r. by apply (Hn bs).
  - right. cbn. split; [lia|]. rewrite Nat.add_0_r. by apply quorumBlock_none.
Qed.

(** The blocks that are taken from the answers.  At every position the block
    taken was sent there by a peer, and no other block was sent there by more
    peers, however the sort orders equal counts; the list ends where no peer sent a
    block, or at the number of blocks asked for.  So the most frequent block is
    taken, which need not be one that most peers sent. *)
Theorem quorum_takes_most_frequent responses n i blk : (0 <= n)%Z ->
  let answers := peer_blocks responses in
  (quorumBlocks responses n !! i = Some blk ->
    (exists bs, bs ∈ answers /\ bs !! i = Some blk) /\
    forall bs b, bs ∈ answers -> bs !! i = Some b -> (votes answers i (Blockid b) <= votes answers i (Blockid blk))%Z) /\
  (Z.of_nat (length (quorumBlocks responses n)) = n \/ forall bs, bs ∈ answers -> bs !! length (quorumBlocks responses n) = None).
Proof.
  intros Hn answers. unfold quorumBlocks. fold answers. split.
  - intros E. apply (quorum_from_lookup _ _ 0 i) in E. by apply quorumBlock_spec.
  - destruct (quorum_from_end answers (Z.to_nat n) 0) as [->|[_ E]]; [left; lia|by right].
Qed.
End Quorum.
